(* ===== verification/_CoqProject ===== *)
-Q . S2P
Prelude.v
Identifiers.v
PrivateJson.v
Continuity.v
SortedSlices.v
ContinuitySpec.v
ContinuityProps.v
ContinuityTheorems.v
Bytes.v
Loco.v
LocoFacts.v
Wire.v
WireFacts.v
WireTheorems.v
Bson.v
SyncMsg.v
MChatLogs.v
ChatLog.v
Events.v
ProtocolTheorems.v
Delivery.v
CatchUp.v
BulkCatchUp.v
Sha256.v
HistoryStore.v
HistoryStoreFacts.v
HistoryDisk.v
Session.v
ClientFacts.v
BulkFacts.v
Demo.v
ClientSteps.v
CommitOrder.v
DeliveryTheorems.v
CatchUpTheorems.v
ReadState.v
HistoryStoreTheorems.v
AcquiredHistory.v
SessionTheorems.v
Handling.v
Holds.v
Pump.v
BridgeDemo.v
HandlingTheorems.v
PumpFacts.v
PumpOrder.v
BootstrapFacts.v
PumpTheorems.v
RecoverySchedule.v
Lifecycle.v
LifecycleFacts.v
LifecycleInvariant.v
LifecycleTheorems.v
Pacing.v
PacingFacts.v
PacingTheorems.v
PacingAccounts.v
AccountsTheorems.v
ResourceCache.v
ResourceTheorems.v
SourceAccess.v
SourceTheorems.v
Reactions.v
ReactionTheorems.v
ReactionSync.v
ReactionSyncFacts.v
ReactionSyncTheorems.v
ReactionLookupTheorems.v
Text.v
ChatMeta.v
ChatPackets.v
MediaUpload.v
Sending.v
GroupCreation.v
Outbound.v
SendingFacts.v
SendingTheorems.v
OutboundFacts.v
OutboundPool.v
OutboundTheorems.v
