(* ===== verification/Prelude.v ===== *)
(** * A verification library of mooo

    mooo is a KakaoTalk client written in Go, with a Matrix bridge on top.
    This library models the part of it that must not lose, repeat, reorder or
    invent a message: the bytes of a connection, the packets and documents they
    carry, the events made of them, their delivery to the application, the
    durable record of what was delivered, and the recovery of what was missed.

    ** The program

    - src/internal/protocol/loco frames packets and encrypts the connection;
      src/internal/protocol/bsonfield, syncmsg, mchatlogs, chatlog and events
      read the BSON documents in them.
    - src/internal/client/wire.go and session.go hold one connection: requests
      and their replies, keepalive, and the stream of unsolicited packets.
    - src/internal/client/client.go decodes that stream into events, numbers
      them by (chat, log) and queues each position for the application's commit;
      a commit is a write of the checkpoint of src/internal/continuity.
    - src/internal/client/sync.go and bulk_catchup.go recover, at the next
      login, what every chat received since its last commit, through the acquired
      history of history_store.go; read_state.go acknowledges reads.
    - src/internal/bridge/connector consumes the stream for Matrix.  A chat
      whose event cannot be delivered is held (delivery_hold.go), and a lost
      session is replaced on a schedule (lifecycle.go, recovery_schedule.go).

    ** Files

    Data follows the code: integers are [Z] with their bounds where overflow
    matters, slices are lists ([slice] where Go's nil differs from empty), maps
    are [gmap]s, Go errors are the inductive types [Error], [ClientError] and
    the like, and a function of a (T, error) pair returns [res].  A method on a
    pointer is a function from the old state to the new one.  What a call
    learns from outside (the outcome of each system call, the server's replies,
    the clock, the order of a map iteration) is an argument, so a theorem
    quantifies over it.  Code that is not of this repository is a class with
    the documented laws it is used by ([Crypto], [Bson], [EventContent],
    [HistoryJSON], [TextContent]), and each class has an instance that the
    witnesses evaluate.

    The durable checkpoint:
    - [Prelude]: results, programs of atomic steps, slices, tactics and list lemmas.
    - [PrivateJson] (privatejson.go): reading, atomically replacing and creating
      a file, system call by system call.
    - [Continuity] (continuity.go): the checkpoint, every operation of [Store],
      migration and opening.  [SortedSlices] is the theory of its sorted slices,
      [ContinuitySpec] the abstract journal and the refinement lemmas,
      [ContinuityProps] the reachable states (operations, failed writes, crashes,
      reopenings), [ContinuityTheorems] the results: what was acknowledged is
      never lost, every operation has its abstract effect or none, opening and
      migration only yield valid checkpoints.

    The wire:
    - [Bytes], [Loco] (frame.go, producer.go, secure.go), [Wire] (wire.go); with
      [LocoFacts], [WireFacts] and [WireTheorems]: packets and encrypted streams
      are read back exactly however they are cut, within the buffer's bound, and
      a request returns its own reply.
    - [Session] (session.go, ping_timer_owner.go) and [SessionTheorems]: the
      table of requests in flight as a transition system.  Replies reach their
      request, IDs are fresh, pushes keep their order, a closed session leaves
      nobody waiting, a timeout answers everybody.

    Messages:
    - [Bson] (bsonfield.go), [SyncMsg], [MChatLogs], [ChatLog] (with status.go)
      and [Events] (the decoders of every push and of chat logs);
      [ProtocolTheorems]: pages and requests are accepted exactly when well
      formed, and an event is delivered at the identity its packet carries.

    Delivery and recovery:
    - [Delivery] (client.go, sync.go): the worker, the commit queue, resume
      selection; [CatchUp] (sync.go) and [BulkCatchUp] (bulk_catchup.go);
      [ReadState] (read_state.go).  [ClientFacts] and [BulkFacts] are shared
      lemmas, [Demo] the concrete session of the witnesses.
    - [ClientSteps]: the same operations as programs of one critical section a
      step, and proofs that alone each does what the definitions above say.
      [CommitOrder]: any interleaving of the worker and of calls.  Commits succeed
      in the order positions were queued, which is the order in which the worker
      and each call that succeeds hand them over.
      [DeliveryTheorems]: what was admitted is committed or caught up later.
      [CatchUpTheorems]: every missed position is delivered, vacant, or a
      recorded gap; one chat's catch-up returns all that its pages contain, and
      which failures record a gap.  [ReadState]: only confirmed positions are recorded.

    Acquired history:
    - [Sha256], [HistoryStore] (history_store.go, history_unavailable.go,
      history_window.go) with the directory in the state; [HistoryStoreFacts]
      and [HistoryDisk] (what the files hold); [HistoryStoreTheorems]: lookups
      are never stale, show connected coverage only, and reopening restores the
      store; [AcquiredHistory]: the store implements the interface
      [AcquiredStore] against which catch-up is verified.

    The bridge connector:
    - [Identifiers] (ids.go): chat, user and message identifiers.
    - [Handling] (client.go, and parts of convert.go, edits.go and
      group_membership.go): one event bridged and committed.  The bridge
      framework and the connector's handlers are the class [Bridge].
    - [Holds] (delivery_hold.go): held chats, their retries and pauses.
    - [Pump] (client.go, seed.go, lifecycle.go): the bootstrap of a session and
      the loop of its event pump; the bootstrap's other steps are the class
      [Startup].  [BridgeDemo] is the concrete bridge of the witnesses.
    - [HandlingTheorems]: progress is authorized by delivery only: a commit comes
      with the departure, the membership change or the accepted and mapped
      delivery that allows it.  [PumpFacts],
      [PumpOrder] and [BootstrapFacts]: what each step keeps; [PumpTheorems]: a
      session as a transition system of the stream's worker and the pump, whose
      calls of the client are one step each.  Each
      chat is delivered and committed in order whatever fails, pauses are
      counted, and what an overflowed buffer leaves behind.

    The lifecycle of a connection:
    - [RecoverySchedule] (recovery_schedule.go): episodes of login attempts are
      bounded.
    - [Lifecycle] (lifecycle.go, reconnect_command.go): the goroutines that
      connect, recover, clean up and disconnect, as threads that take one critical
      section at a time.  [LifecycleFacts] and [LifecycleInvariant] show what every
      interleaving keeps; [LifecycleTheorems]: the profile is never lost, there is
      one attempt and one session, a signed-out device stays out, and a bootstrap
      that nobody closes.  Its steps are prompt: a recovery delay outlasts the last
      statements of the attempt that scheduled it.


    Pacing:
    - [Pacing] (history_admission.go, history_account.go, history_http.go,
      history_dependencies.go): one dispatch over the schedule that the processes
      of an account share in a file; [PacingFacts]: what its steps keep.  [PacingTheorems]: requests keep their cooldowns over every
      order of processes, crashes and failed writes, and nothing wedges them.
    - [PacingAccounts]: the registry of account gates and its demand;
      [AccountsTheorems]: one scheduler per account, bounded demand.
    - [ResourceCache] (history_resource_cache.go) and [ResourceTheorems]: what was
      stored is what is returned, within the budget, evicting the oldest.
    Access:
    - [SourceAccess] (group_access.go, group_membership.go, portal_meta.go,
      discovery.go, the roster part of chat_snapshot.go, and what the binding of
      a created group and a history import do to access, group_create.go and
      group_history.go): programs of atomic steps over the block list, the
      framework's cache and its database.
      [SourceTheorems]: operations that begin after a recorded loss of access and
      interleave in any way leave the chat closed until the server's roster lifts
      it, what a membership change achieves under any failure while it runs alone,
      and what two unserialised refreshes do when one began before the record.
    Reactions:
    - [Reactions] (reaction_derive.go, the rosters of reactions.go) and [ReactionTheorems]: what a push that carries only counts
      determines.
    - [ReactionSync] (reactions.go, reaction_lookup.go, reaction_resync.go,
      mini_reactions.go): reading, delivering and recording a roster, over a
      class of the store, the framework and the server; [ReactionSyncFacts] has
      the laws of that class.  [ReactionSyncTheorems]: revisions follow rows, and a
      cursor passes only changes that are stored or were delivered, the additions
      among them possibly ignored by the framework; [ReactionLookupTheorems]: reads for live pushes
      are few, shared and not forgotten; those of a resync do not go through the
      window and are not in its runs.
    Sending:
    - [Text] (the preview of a quoted message, chat/reply.go, and what is used of
      Go's strings, runes and UTF-16), [ChatPackets] (protocol/chat and the types
      of messagetype) and [MediaUpload] (the outbound half of protocol/media):
      requests, their limits and their replies, over the classes [Json] and
      [MediaLib].
    - [Sending] (chat.go, modify.go, media.go, media_direct.go, [call] and
      [request] of session.go): what a send does is a program, a tree of
      operations whose branches are the answers.  [SendingFacts]
      follows a program with a view of what happened, and runs one.  [SendingTheorems]: the poll for uploaded media ends
      (the fuel of [pollReady], [maxPolls], is one poll per millisecond of the ten
      minutes and two more) unless an interval overflows, and then does not; and an
      upload writes the encryption of every byte.
    - [Outbound] (outbound_attempts.go, outbound_edits.go, outbound_media.go,
      status.go, message_metadata.go, group_matrix_invite.go, the statements of
      kv.go and [HandleMatrixMessage]): the handlers of Matrix events.
      [OutboundFacts]: the outcome of each.  [OutboundPool]: concurrent calls of
      handlers, of several logins and over restarts, on the rows they share,
      and the invariant of an attempt.  [OutboundTheorems]:
      one request per event for thirty days, nothing but reads before the checks, what a
      failure says, and what becomes of a fresh text and of an edit that shortens
      a long message.
    Metadata and groups:
    - [ChatMeta] (protocol/chatmeta): the requests for a chat's information,
      members, shared and personal settings, and how a group is shown.  What is
      decoded is typed whatever the server answers (which IDs the decoders leave
      unchecked is in the statement), and what is shown does not depend on the
      order of the server's list, but whether a conflict is noticed does.  JSON in
      it is the class [MetaJson].
    - [GroupCreation] (group_create.go, group_reconcile.go, [rosterMatches] of
      chat_snapshot.go): creations, their resumption and reconciliation, and the
      completion of invitations, as programs interleaved with other saves of the
      login, failed saves and stops of the process.  CREATE and the invitations
      are sent at most once for a room, and never before the attempt is in the
      database.  A missing login, metadata of another type and a nil context, which
      the code refuses first, are left out.
    ** Fuel

    Every loop that is not structural has a fuel that a theorem shows enough.
    The frame reader takes one unit per buffered byte and one more
    ([Feed_loop], [readSecure]); [sort_Search] halves an interval of length n in
    at most n steps; a bulk chain has 103 (the code's own bound of 100 pages,
    and the closing ones); [MarkRead] one per position between its cursor and
    its watermark; packet IDs one per ID in flight or armed and one more; the
    coverage loop one per page and two more; a retry of a held chat two, since
    its second pass starts with nothing missed.  [shape] reads documents four
    levels deep, as the code does.  SHA-256's block loop takes one per byte.

    ** Not modelled

    Sockets, TLS, DNS and deadlines (a read or write is an outcome); logging;
    goroutine scheduling below the granularity of one critical section: a step
    is what the code does while it holds the mutex.  The decoders of message
    contents (text, media, stickers, reactions) are the class [EventContent].
    The timeouts and contexts of a send are outcomes of its operations, and the
    texts of notices are left out.
    Registration, login pages, media downloads, when metadata is refreshed, the
    command line, the shadow recorder and the conversion of contents to Matrix are not
    modelled; the manifest lists each with its reason. *)

From stdpp Require Export base tactics numbers list sorting gmap strings.
From Stdlib Require Export ZArith Lia ZifyBool ZifyNat.

#[global] Open Scope Z_scope.

(** ** Go results

    A Go function returning [(T, error)] is modelled by [res E T]: the value
    on success, the error otherwise.  A function returning only an [error]
    is modelled by [option E], [None] being Go's [nil]. *)
Inductive res (E A : Type) : Type :=
| Ok (a : A)
| Err (e : E).
Arguments Ok {E A} a.
Arguments Err {E A} e.

Declare Scope go_scope.
Delimit Scope go_scope with go.
#[global] Open Scope go_scope.

Notation "'let!' x ':=' c 'in' k" :=
  (match c with Ok x => k | Err e => Err e end)
  (at level 10, x pattern, c at level 100, k at level 200,
   format "'[v' 'let!'  x  ':='  c  'in' '/' k ']'") : go_scope.

(** ** State passing

    A method that changes shared state is a function from the state to the new
    state and its result. *)
Definition state (S A : Type) : Type := S -> S * A.

Definition ret {S A} (a : A) : state S A := fun s => (s, a).
Definition bind {S A B} (m : state S A) (k : A -> state S B) : state S B :=
  fun s => let '(s, a) := m s in k a s.
Definition modify {S} (f : S -> S) : state S unit := fun s => (f s, tt).
Definition gets {S A} (f : S -> A) : state S A := fun s => (s, f s).

Notation "'let*' x ':=' c 'in' k" :=
  (bind c (fun x => k))
  (at level 10, x pattern, c at level 100, k at level 200,
   format "'[v' 'let*'  x  ':='  c  'in' '/' k ']'") : go_scope.
Notation "c ;* k" := (bind c (fun _ => k)) (at level 100, k at level 200, right associativity,
   format "'[v' c ';*' '/' k ']'") : go_scope.

(** ** Programs of atomic steps

    What a goroutine does between its critical sections is its own; each section
    changes the shared state at once.  [run] is what happens while nobody else
    runs, [interleave] any schedule of two. *)
Module Programs.

Inductive prog (W A : Type) : Type :=
| Done (a : A)
| Atomic (next : W -> W) (rest : W -> prog W A). (* [rest] is given the state before *)
Arguments Done {W A} a.
Arguments Atomic {W A} next rest.

Section Prog.
Context {W : Type}.

Fixpoint andThen {A B} (p : prog W A) (f : A -> prog W B) : prog W B :=
  match p with
  | Done a => f a
  | Atomic next rest => Atomic next (fun w => andThen (rest w) f)
  end.

Fixpoint run {A} (p : prog W A) (w : W) : W * A :=
  match p with
  | Done a => (w, a)
  | Atomic next rest => run (rest w) (next w)
  end.

Definition act {A} (f : W -> W * A) : prog W A :=
  Atomic (fun w => fst (f w)) (fun w => Done (snd (f w))).

(** Two programs, and who takes each step; one that is done is skipped. *)
Definition advance {A} (p : prog W A) (w : W) : W * prog W A :=
  match p with Done a => (w, p) | Atomic next rest => (next w, rest w) end.

Fixpoint interleave {A B} (schedule : list bool) (p : prog W A) (q : prog W B) (w : W)
  : W * prog W A * prog W B :=
  match schedule with
  | [] => (w, p, q)
  | true :: schedule => let '(w, p) := advance p w in interleave schedule p q w
  | false :: schedule => let '(w, q) := advance q w in interleave schedule p q w
  end.

Lemma run_andThen {A B} (p : prog W A) (f : A -> prog W B) w :
  run (andThen p f) w = let '(w', a) := run p w in run (f a) w'.
Proof. revert w. induction p as [a|next rest IH]; intros w; simpl; [done|apply IH]. Qed.

Lemma run_act {A B} (g : W -> W * A) (f : A -> prog W B) w :
  run (andThen (act g) f) w = run (f (snd (g w))) (fst (g w)).
Proof. done. Qed.

(** Every step of a program keeps [I], if everything else keeps it too, and the
    program answers within [Q]. *)
Fixpoint keeps {A} (I : W -> Prop) (p : prog W A) (Q : A -> Prop) : Prop :=
  match p with
  | Done a => Q a
  | Atomic next rest => forall w, I w -> I (next w) /\ keeps I (rest w) Q
  end.

Lemma keeps_then {A B} I (p : prog W A) (f : A -> prog W B) P Q :
  keeps I p P -> (forall a, P a -> keeps I (f a) Q) -> keeps I (andThen p f) Q.
Proof.
  intros Hp Hf. induction p as [a|next rest IH]; simpl in *; [by apply Hf|].
  intros w Hw. destruct (Hp w Hw) as [Hi Hr]. split; [done|by apply IH].
Qed.

Lemma keeps_done {A} I (a : A) (Q : A -> Prop) : Q a -> keeps I (Done a) Q.
Proof. done. Qed.

Lemma keeps_act {A} I (f : W -> W * A) (Q : A -> Prop) :
  (forall w, I w -> I (fst (f w)) /\ Q (snd (f w))) -> keeps I (act f) Q.
Proof. done. Qed.

Lemma keeps_if {A} I (b : bool) (p q : prog W A) Q :
  (b = true -> keeps I p Q) -> (b = false -> keeps I q Q) -> keeps I (if b then p else q) Q.
Proof. destruct b; auto. Qed.

Lemma keeps_run {A} I (p : prog W A) Q w : keeps I p Q -> I w -> I (fst (run p w)) /\ Q (snd (run p w)).
Proof.
  intros Hp. revert w. induction p as [a|next rest IH]; intros w Hw; simpl in *; [done|].
  destruct (Hp w Hw) as [Hi Hr]. by apply IH.
Qed.
End Prog.

Notation "'step!' x ':=' p 'in' k" := (andThen p (fun x => k))
  (at level 10, x pattern, p at level 100, k at level 200,
   format "'[v' 'step!'  x  ':='  p  'in' '/' k ']'") : go_scope.
End Programs.

(** ** Go slices

    A slice is [None] when it is Go's [nil] and [Some l] otherwise: the two
    differ for [data.Chats == nil] and for JSON, and agree for [range] and
    [len], which only look at [els]. *)
Abbreviation slice A := (option (list A)).

Definition els {A} (s : slice A) : list A := default [] s.

Definition isNil {A} (s : slice A) : bool :=
  match s with None => true | Some _ => false end.

(** [copy(dst[off:], src)]. *)
Definition go_copy {A} (dst : list A) (off : nat) (src : list A) : list A :=
  take off dst ++ take (length dst - off) src ++ drop (off + length src) dst.

Lemma go_copy_shift {A} (l : list A) (v : A) (i : nat) :
  (i <= length l)%nat ->
  go_copy (l ++ [v]) (S i) (drop i (l ++ [v]))
    = take (S i) (l ++ [v]) ++ drop i l.
Proof.
  intros Hi. unfold go_copy.
  assert (Hlen : length (l ++ [v]) = S (length l)) by (rewrite length_app; simpl; lia).
  rewrite (drop_ge _ (S i + length (drop i (l ++ [v]))))
    by (rewrite length_drop; lia).
  rewrite app_nil_r, Hlen. f_equal.
  rewrite drop_app_le, take_app_le by (rewrite ?length_drop; lia).
  apply take_ge. rewrite length_drop. lia.
Qed.

(** Go's insertion idiom ([append], [copy] the tail up, assign) inserts at the index. *)
Lemma go_insert_idiom {A} (l : list A) (v : A) (i : nat) :
  (i <= length l)%nat ->
  <[i:=v]> (go_copy (l ++ [v]) (S i) (drop i (l ++ [v])))
    = take i l ++ v :: drop i l.
Proof.
  intros Hi. rewrite go_copy_shift by done.
  assert (Htake : exists x, take (S i) (l ++ [v]) = take i l ++ [x]).
  { destruct (lookup_lt_is_Some_2 (l ++ [v]) i) as [x Hx].
    - rewrite length_app; simpl; lia.
    - exists x. rewrite (take_S_r _ _ x) by done. by rewrite take_app_le. }
  destruct Htake as [x ->].
  rewrite <- (app_assoc (take i l)); simpl.
  rewrite insert_app_r_alt by (rewrite length_take; lia).
  rewrite length_take, Nat.min_l by lia. by rewrite Nat.sub_diag.
Qed.

Lemma insert_middle {A} (l1 l2 : list A) (x y : A) :
  <[length l1 := y]> (l1 ++ x :: l2) = l1 ++ y :: l2.
Proof. by rewrite insert_app_r_alt, Nat.sub_diag. Qed.

(** ** Machine integers

    A w-bit Go integer is a [Z] within the range of its type; arithmetic that
    the code performs on it is followed by the wrap-around of the type. *)
Definition MaxInt64 : Z := 9223372036854775807.
Definition MinInt64 : Z := -9223372036854775808.
Definition MaxInt32 : Z := 2147483647.
Definition MinInt32 : Z := -2147483648.

Definition int64 (z : Z) : Prop := MinInt64 <= z <= MaxInt64.
Definition int32 (z : Z) : Prop := MinInt32 <= z <= MaxInt32.
Definition byte_range (z : Z) : Prop := 0 <= z < 256.

Definition wrapS (w z : Z) : Z := (z + 2 ^ (w - 1)) mod 2 ^ w - 2 ^ (w - 1).
Definition wrapU (w z : Z) : Z := z mod 2 ^ w.
Definition wrap64 (z : Z) : Z := wrapS 64 z.
Definition wrap32 (z : Z) : Z := wrapS 32 z.

Lemma wrap64_id z : int64 z -> wrap64 z = z.
Proof.
  unfold int64, MinInt64, MaxInt64, wrap64, wrapS. intros H.
  change (2 ^ (64 - 1)) with 9223372036854775808.
  change (2 ^ 64) with 18446744073709551616.
  rewrite Z.mod_small; lia.
Qed.

Lemma wrap32_id z : int32 z -> wrap32 z = z.
Proof.
  unfold int32, MinInt32, MaxInt32, wrap32, wrapS. intros H.
  change (2 ^ (32 - 1)) with 2147483648.
  change (2 ^ 32) with 4294967296.
  rewrite Z.mod_small; lia.
Qed.

Lemma wrap64_range z : int64 (wrap64 z).
Proof.
  unfold int64, MinInt64, MaxInt64, wrap64, wrapS.
  change (2 ^ (64 - 1)) with 9223372036854775808.
  change (2 ^ 64) with 18446744073709551616.
  pose proof (Z.mod_pos_bound (z + 9223372036854775808) 18446744073709551616). lia.
Qed.

(** ** Strings

    [strings.HasSuffix]. *)
Definition HasSuffix (s suffix : string) : bool :=
  (String.length suffix <=? String.length s)%nat
  && String.eqb (String.substring (String.length s - String.length suffix) (String.length suffix) s) suffix.

(** ** Automation

    The tactics below do the case analysis of a translated Go function: its
    conditions are boolean tests, its early returns are matches. *)
Ltac unfold_ints :=
  unfold int64, int32, byte_range, MaxInt64, MinInt64, MaxInt32, MinInt32 in *.

(** Turn boolean comparisons of [Z] and [nat] in the context into propositions. *)
Ltac bool_prop :=
  repeat match goal with
  | H : andb _ _ = true |- _ => apply andb_true_iff in H; destruct H
  | H : orb _ _ = false |- _ => apply orb_false_iff in H; destruct H
  | H : negb _ = true |- _ => apply negb_true_iff in H
  | H : negb _ = false |- _ => apply negb_false_iff in H
  | H : Z.ltb _ _ = true |- _ => apply Z.ltb_lt in H
  | H : Z.ltb _ _ = false |- _ => apply Z.ltb_ge in H
  | H : Z.leb _ _ = true |- _ => apply Z.leb_le in H
  | H : Z.leb _ _ = false |- _ => apply Z.leb_gt in H
  | H : Z.eqb _ _ = true |- _ => apply Z.eqb_eq in H
  | H : Z.eqb _ _ = false |- _ => apply Z.eqb_neq in H
  | H : Nat.ltb _ _ = true |- _ => apply Nat.ltb_lt in H
  | H : Nat.ltb _ _ = false |- _ => apply Nat.ltb_ge in H
  | H : Nat.leb _ _ = true |- _ => apply Nat.leb_le in H
  | H : Nat.leb _ _ = false |- _ => apply Nat.leb_gt in H
  | H : Nat.eqb _ _ = true |- _ => apply Nat.eqb_eq in H
  | H : Nat.eqb _ _ = false |- _ => apply Nat.eqb_neq in H
  end.

(** Split one test of the goal or of the hypothesis [H] and simplify. *)
Ltac split_test :=
  match goal with
  | |- context [if ?b then _ else _] => destruct b eqn:?
  | |- context [match ?x with _ => _ end] => destruct x eqn:?
  end.

Ltac split_test_in H :=
  match type of H with
  | context [if ?b then _ else _] => destruct b eqn:?
  | context [match ?x with _ => _ end] => destruct x eqn:?
  end.

(** Follow every branch of the function in [H], discarding impossible ones. *)
Ltac go_cases H :=
  repeat (split_test_in H; try discriminate H; simplify_eq/=).

Create HintDb go.

(** ** Sums over finite maps

    The counters that the code keeps beside a map are totals over its values. *)

Section Total.
Context `{Countable K} {A : Type} (f : A -> Z).
Implicit Types (m : gmap K A).

Definition total m : Z := foldr (fun p n => f (snd p) + n) 0 (map_to_list m).

Lemma total_perm (l1 l2 : list (K * A)) : l1 ≡ₚ l2 ->
  foldr (fun p n => f (snd p) + n) 0 l1 = foldr (fun p n => f (snd p) + n) 0 l2.
Proof. induction 1; simpl; lia. Qed.

Lemma total_empty : total ∅ = 0.
Proof. unfold total. by rewrite map_to_list_empty. Qed.

Lemma total_new m k a : m !! k = None -> total (<[k := a]> m) = total m + f a.
Proof. intros E. unfold total. rewrite (total_perm _ _ (map_to_list_insert _ _ a E)). simpl. lia. Qed.

Lemma total_delete m k a : m !! k = Some a -> total (delete k m) = total m - f a.
Proof.
  intros E. rewrite <- (insert_delete_id m k a E) at 2.
  rewrite total_new by (by rewrite lookup_delete_eq). lia.
Qed.

Lemma total_replace m k a b : m !! k = Some a -> total (<[k := b]> m) = total m + f b - f a.
Proof.
  intros E. rewrite <- insert_delete_eq, total_new by (by rewrite lookup_delete_eq).
  rewrite (total_delete _ _ _ E). lia.
Qed.

Lemma total_nonneg m : (forall k a, m !! k = Some a -> 0 <= f a) -> 0 <= total m.
Proof.
  unfold total. intros Hf. assert (Hl : Forall (fun p => 0 <= f p.2) (map_to_list m)).
  { apply Forall_forall. intros [k a] Hin. apply elem_of_map_to_list in Hin. eauto. }
  induction Hl as [|p l Hp Hl IH]; simpl; lia.
Qed.

Lemma total_ge m k a : (forall k a, m !! k = Some a -> 0 <= f a) -> m !! k = Some a -> f a <= total m.
Proof.
  intros Hf E. pose proof (total_delete _ _ _ E) as Hd.
  enough (0 <= total (delete k m)) by lia. apply total_nonneg.
  intros k' a' E'. apply lookup_delete_Some in E' as [_ E']. eauto.
Qed.

Lemma total_zero m : (forall k a, m !! k = Some a -> f a = 0) -> total m = 0.
Proof.
  unfold total. intros Hf. assert (Hl : Forall (fun p => f p.2 = 0) (map_to_list m)).
  { apply Forall_forall. intros [k a] Hin. apply elem_of_map_to_list in Hin. eauto. }
  induction Hl as [|p l Hp Hl IH]; simpl; lia.
Qed.

(** A total of non-negative numbers that is not zero has a term that is not. *)
Lemma total_pos m : 0 < total m -> exists k a, m !! k = Some a /\ 0 < f a.
Proof.
  unfold total. intros Hp.
  enough (exists p, p ∈ map_to_list m /\ 0 < f p.2) as ([k a] & Hin & ?).
  { apply elem_of_map_to_list in Hin. eauto. }
  induction (map_to_list m) as [|p l IH]; simpl in Hp; [lia|].
  destruct (decide (0 < f p.2)); [exists p; split; [by left|done]|].
  destruct IH as (q & ? & ?); [lia|]. exists q. split; [by right|done].
Qed.
End Total.
