(* ===== verification/Identifiers.v ===== *)
(** * Bridge identifiers (src/internal/bridge/connector/ids.go)

    Kakao chat, user and log IDs are positive [int64]s; the bridge carries them
    as strings in canonical decimal form.  [FormatInt] and [ParseInt] are
    Go's [strconv] in base 10. *)

From Stdlib Require Import Ascii DecimalString DecimalZ DecimalPos.
From S2P Require Import Prelude.

#[local] Open Scope string_scope.
#[local] Open Scope Z_scope.

(** ** strconv *)

Definition FormatInt (n : Z) : string := NilZero.string_of_int (Z.to_int n).

(** [strconv.ParseUint] without its upper bound: one or more digits. *)
Definition parseDigits (s : string) : option Z :=
  u ← NilZero.uint_of_string s; Some (Z.of_uint u).

(** [None] is any of its errors: an empty string, a character that is not a
    digit, a value outside [int64]. *)
Definition ParseInt (s : string) : option Z :=
  let '(negative, digits) :=
    match s with
    | String c rest =>
        if Ascii.eqb c "-"%char then (true, rest)
        else if Ascii.eqb c "+"%char then (false, rest)
        else (false, s)
    | EmptyString => (false, s)
    end in
  n ← parseDigits digits;
  if negative then if n <=? 2 ^ 63 then Some (- n) else None
  else if n <? 2 ^ 63 then Some n else None.

(** [strings.Cut(s, sep)] of a one-character separator. *)
Fixpoint Cut (s : string) (sep : Ascii.ascii) : option (string * string) :=
  match s with
  | EmptyString => None
  | String c rest =>
      if Ascii.eqb c sep then Some (EmptyString, rest)
      else '(before, after) ← Cut rest sep; Some (String c before, after)
  end.

(** ** ids.go *)

Inductive Error := errInvalidID.

Definition parseID (value : string) : res Error Z :=
  match ParseInt value with
  | Some parsed =>
      if (parsed <=? 0) || negb (String.eqb (FormatInt parsed) value) then Err errInvalidID
      else Ok parsed
  | None => Err errInvalidID
  end.

Record PortalKey := mkPortalKey { PortalID : string; Receiver : string }.

Definition makePortalKey (chatID : Z) (login : string) : PortalKey :=
  mkPortalKey (FormatInt chatID) login.
Definition parseChatID (portalID : string) : res Error Z := parseID portalID.
Definition makeUserID (userID : Z) : string := FormatInt userID.
Definition parseUserID (value : string) : res Error Z := parseID value.

Definition makeMessageID (chatID logID : Z) : string :=
  FormatInt chatID ++ ":" ++ FormatInt logID.

Definition parseMessageID (messageID : string) : res Error (Z * Z) :=
  match Cut messageID ":"%char with
  | None => Err errInvalidID
  | Some (chatPart, logPart) =>
      let! chatID := parseID chatPart in
      let! logID := parseID logPart in
      Ok (chatID, logID)
  end.

(** ** What the identifiers keep *)

Lemma parseDigits_to_uint (u : Decimal.uint) :
  u <> Decimal.Nil -> parseDigits (NilZero.string_of_uint u) = Some (Z.of_uint u).
Proof. intros Hu. unfold parseDigits. by rewrite NilZero.usu. Qed.

(** The spelling of a non-negative number starts with a digit. *)
Lemma FormatInt_pos n :
  0 < n -> exists c rest, FormatInt n = String c rest /\ c <> "-"%char /\ c <> "+"%char /\ c <> ":"%char.
Proof.
  intros Hn. unfold FormatInt. destruct n as [|p|p]; [lia| |lia]. cbn [Z.to_int NilZero.string_of_int].
  assert (Hu : Pos.to_uint p <> Decimal.Nil) by apply DecimalPos.Unsigned.to_uint_nonnil.
  destruct (Pos.to_uint p); [done|..]; cbn; do 2 eexists; done.
Qed.

Lemma ParseInt_FormatInt n : 0 < n < 2 ^ 63 -> ParseInt (FormatInt n) = Some n.
Proof.
  intros Hn. destruct (FormatInt_pos n ltac:(lia)) as (c & rest & Hs & Hm & Hp & _).
  unfold ParseInt. rewrite Hs.
  rewrite (proj2 (Ascii.eqb_neq _ _) Hm), (proj2 (Ascii.eqb_neq _ _) Hp). rewrite <- Hs.
  unfold FormatInt. destruct n as [|p|p]; [lia| |lia]. cbn [Z.to_int NilZero.string_of_int].
  rewrite parseDigits_to_uint by apply DecimalPos.Unsigned.to_uint_nonnil.
  assert (E : Z.of_uint (Pos.to_uint p) = Z.pos p).
  { pose proof (DecimalZ.of_to (Z.pos p)) as E. exact E. }
  cbn. rewrite E. by rewrite (proj2 (Z.ltb_lt _ _)) by lia.
Qed.

Lemma parseID_FormatInt n : 0 < n < 2 ^ 63 -> parseID (FormatInt n) = Ok n.
Proof.
  intros Hn. unfold parseID. rewrite ParseInt_FormatInt by lia.
  rewrite String.eqb_refl, orb_false_r. by rewrite (proj2 (Z.leb_gt _ _)) by lia.
Qed.

Lemma parseID_canonical s n : parseID s = Ok n -> s = FormatInt n /\ 0 < n < 2 ^ 63.
Proof.
  unfold parseID. destruct (ParseInt s) as [p|] eqn:E; [|done].
  destruct (p <=? 0) eqn:Hp; [done|]. destruct (String.eqb _ _) eqn:Hs; [|done].
  intros [= <-]. apply String.eqb_eq in Hs. split; [done|]. split; [lia|].
  clear Hs. unfold ParseInt in E. destruct (match s with EmptyString => _ | _ => _ end) as [neg ds].
  destruct (parseDigits ds) as [m|] eqn:Hd; [|done]. cbn in E.
  assert (0 <= m).
  { unfold parseDigits in Hd. destruct (NilZero.uint_of_string ds); [|done]. cbn in Hd.
    unfold Z.of_uint in Hd. simplify_eq. lia. }
  destruct neg, (m <=? 2 ^ 63) eqn:H1, (m <? 2 ^ 63) eqn:H2; simplify_eq; lia.
Qed.

Lemma FormatInt_inj a b : FormatInt a = FormatInt b -> a = b.
Proof.
  assert (Hn : forall n, NilZero.int_of_string (NilZero.string_of_int (Z.to_int n)) = Some (Z.to_int n)).
  { intros [|p|p]; [done|..]; apply NilZero.isi; simpl; intros [= E];
      by destruct (DecimalPos.Unsigned.to_uint_nonnil p). }
  unfold FormatInt. intros E. apply (f_equal NilZero.int_of_string) in E. rewrite !Hn in E.
  injection E as E. apply (f_equal Z.of_int) in E. by rewrite !DecimalZ.of_to in E.
Qed.

Lemma Cut_app s t sep :
  Cut s sep = None -> Cut (s ++ String sep t) sep = Some (s, t).
Proof.
  induction s as [|c s IH].
  - intros _. change (Cut (String sep t) sep = Some ("", t)). cbn [Cut]. by rewrite Ascii.eqb_refl.
  - change (String c s +:+ String sep t) with (String c (s +:+ String sep t)). cbn [Cut].
    destruct (Ascii.eqb c sep); [done|]. destruct (Cut s sep) as [[]|]; [done|].
    intros _. by rewrite IH.
Qed.

Lemma uint_no_colon u : Cut (NilEmpty.string_of_uint u) ":"%char = None.
Proof. induction u; cbn; by rewrite ?IHu. Qed.

Lemma FormatInt_no_colon n : 0 < n -> Cut (FormatInt n) ":"%char = None.
Proof.
  intros Hn. unfold FormatInt. destruct n as [|p|p]; [lia| |lia]. cbn [Z.to_int NilZero.string_of_int].
  destruct (Pos.to_uint p) eqn:E; [done|..]; unfold NilZero.string_of_uint; apply uint_no_colon.
Qed.

Lemma Cut_spec s sep a b : Cut s sep = Some (a, b) -> s = a ++ String sep b.
Proof.
  revert a. induction s as [|c s IH]; intros a; [done|]. cbn.
  destruct (Ascii.eqb c sep) eqn:E.
  - intros [= <- <-]. apply Ascii.eqb_eq in E as ->. done.
  - destruct (Cut s sep) as [[x y]|]; [|done]. intros [= <- <-].
      change (String c x +:+ String sep y) with (String c (x +:+ String sep y)). by rewrite <- (IH x).
Qed.

(** Message identifiers and positions correspond one to one: the
    identifier of a (chat, log) position of positive [int64]s parses back to it,
    and a string that parses at all is the identifier of the position it gives,
    so no second spelling names the same message. *)
Theorem message_identity s chatID logID :
  parseMessageID s = Ok (chatID, logID)
  <-> s = makeMessageID chatID logID /\ 0 < chatID < 2 ^ 63 /\ 0 < logID < 2 ^ 63.
Proof.
  unfold parseMessageID, makeMessageID. split.
  - destruct (Cut s ":"%char) as [[a b]|] eqn:E; [|done].
    destruct (parseID a) as [c|] eqn:Ha; [|done]. destruct (parseID b) as [l|] eqn:Hb; [|done].
    intros [= <- <-]. apply Cut_spec in E. apply parseID_canonical in Ha as [-> ?].
    apply parseID_canonical in Hb as [-> ?]. done.
  - intros (-> & Hc & Hl). change (":" +:+ FormatInt logID) with (String ":"%char (FormatInt logID)).
    rewrite Cut_app by (apply FormatInt_no_colon; lia).
    by rewrite !parseID_FormatInt by lia.
Qed.

Example identity_example :
  parseMessageID "42:7" = Ok (42, 7) /\ parseMessageID "+42:7" = Err errInvalidID
  /\ parseMessageID "042:7" = Err errInvalidID /\ parseMessageID "9223372036854775808:1" = Err errInvalidID
  /\ makeMessageID 42 7 = "42:7".
Proof. repeat split; vm_compute; reflexivity. Qed.
