(* ===== verification/PrivateJson.v ===== *)
(** * Owner-only JSON files (src/internal/privatejson/privatejson.go)

    One JSON document per file.  The operating system is an environment
    record per call: the outcome of each system call the function makes, in
    the order it makes them.  A file's bytes are modelled as the sequence of
    JSON documents a decoder finds in them, each with its byte extent, so that
    the read bound [MaxSize] and trailing data are visible. *)

From S2P Require Import Prelude.

(** [2 << 20] *)
Definition MaxSize : Z := 2097152.

Inductive Error := ErrNotFound | ErrAlreadyExists | ErrCorrupt | ErrUnsafePermissions.

#[export] Instance Error_eq_dec : EqDecision Error.
Proof. solve_decision. Defined.

(** ** Mode checks *)

Record FileMode := mkMode {
  ModeSymlink : bool;
  ModeIsDir : bool;
  ModeIsRegular : bool;
  Perm : Z;
}.

(** What [os.Lstat] reports. *)
Inductive LstatResult :=
| LstatNotExist
| LstatFailed
| LstatInfo (m : FileMode).

Definition ValidatePrivateDir (info : LstatResult) : option Error :=
  match info with
  | LstatNotExist => Some ErrNotFound
  | LstatFailed => Some ErrCorrupt
  | LstatInfo m =>
      if ModeSymlink m || negb (ModeIsDir m) || negb (Perm m =? 448) (* 0o700 *)
      then Some ErrUnsafePermissions else None
  end.

Definition ValidatePrivateFile (info : LstatResult) : option Error :=
  match info with
  | LstatNotExist => Some ErrNotFound
  | LstatFailed => Some ErrCorrupt
  | LstatInfo m =>
      if ModeSymlink m || negb (ModeIsRegular m) || negb (Perm m =? 384) (* 0o600 *)
      then Some ErrUnsafePermissions else None
  end.

Definition privateDir : FileMode := mkMode false true false 448.
Definition privateFile : FileMode := mkMode false false true 384.

(** ** JSON text *)

(** How [encoding/json] spells a type: the length of the encoding of a value,
    without the newline the encoder adds, and the value obtained by decoding
    that encoding again (its struct tags may drop an empty field). *)
Class JSON (T : Type) := {
  json_size : T -> Z;
  json_wire : T -> T;
}.

(** A piece of a file that is not white space, with its byte extent: a
    document that decodes into [T], or text that does not. *)
Inductive Item (T : Type) :=
| Doc (start stop : Z) (v : T)
| Junk (start : Z).
Arguments Doc {T} start stop v.
Arguments Junk {T} start.

Inductive File (T : Type) :=
| Missing
| Present (mode : FileMode) (items : list (Item T)).
Arguments Missing {T}.
Arguments Present {T} mode items.

(** One [decoder.Decode] on the first [limit] bytes. *)
Inductive Decoded (T : Type) :=
| DecodedEOF
| DecodeError
| DecodedDoc (v : T) (rest : list (Item T)).
Arguments DecodedEOF {T}.
Arguments DecodeError {T}.
Arguments DecodedDoc {T} v rest.

Definition Decode {T} (limit : Z) (items : list (Item T)) : Decoded T :=
  match items with
  | [] => DecodedEOF
  | Doc start stop v :: rest =>
      if stop <=? limit then DecodedDoc v rest
      else if start <? limit then DecodeError else DecodedEOF
  | Junk start :: _ => if start <? limit then DecodeError else DecodedEOF
  end.

(** ** Read *)

Record ReadEnv := mkReadEnv { read_lstat_ok : bool; read_open_ok : bool }.

Definition Lstat {T} (ok : bool) (f : File T) : LstatResult :=
  if ok then match f with Missing => LstatNotExist | Present m _ => LstatInfo m end
  else LstatFailed.

Definition Read {T} (env : ReadEnv) (f : File T) : res Error (option T) :=
  match ValidatePrivateFile (Lstat (read_lstat_ok env) f) with
  | Some ErrNotFound => Ok None
  | Some e => Err e
  | None =>
      if negb (read_open_ok env) then Err ErrCorrupt else
      match f with
      | Missing => Err ErrCorrupt
      | Present _ items =>
          match Decode MaxSize items with
          | DecodedDoc v rest =>
              match Decode MaxSize rest with
              | DecodedEOF => Ok (Some v)
              | _ => Err ErrCorrupt
              end
          | _ => Err ErrCorrupt
          end
      end
  end.

(** ** Writes *)

Section Writes.
Context {T : Type} `{JSON T}.

(** [encode]: the encoder, [Sync] and [Close]. *)
Record EncodeEnv := mkEncodeEnv { enc_encode : bool; enc_sync : bool; enc_close : bool }.

Definition encode (env : EncodeEnv) : option Error :=
  if negb (enc_encode env) then Some ErrCorrupt
  else if negb (enc_sync env) then Some ErrCorrupt
  else if negb (enc_close env) then Some ErrCorrupt
  else None.

Definition encoded (v : T) : list (Item T) := [Doc 0 (json_size v) (json_wire v)].

Record SyncDirEnv := mkSyncDirEnv { dir_windows : bool; dir_open : bool; dir_sync : bool }.

Definition syncDirectory (env : SyncDirEnv) : option Error :=
  if dir_windows env then None
  else if negb (dir_open env) then Some ErrCorrupt
  else if negb (dir_sync env) then Some ErrCorrupt
  else None.

Record WriteEnv := mkWriteEnv {
  w_dir : LstatResult;
  w_create : bool;
  w_chmod_tmp : bool;
  w_encode : EncodeEnv;
  w_rename : bool;
  w_chmod : bool;
  w_syncdir : SyncDirEnv;
}.

(** The target file and the error.  The temporary file is a different path,
    so the target changes only at the rename. *)
Definition WriteAtomic (env : WriteEnv) (f : File T) (v : T) : File T * option Error :=
  match ValidatePrivateDir (w_dir env) with
  | Some e => (f, Some e)
  | None =>
      if negb (w_create env) then (f, Some ErrCorrupt)
      else if negb (w_chmod_tmp env) then (f, Some ErrUnsafePermissions)
      else match encode (w_encode env) with
      | Some e => (f, Some e)
      | None =>
          if negb (w_rename env) then (f, Some ErrCorrupt)
          else
            let f' := Present privateFile (encoded v) in
            if negb (w_chmod env) then (f', Some ErrUnsafePermissions)
            else (f', syncDirectory (w_syncdir env))
      end
  end.

Record InitialEnv := mkInitialEnv {
  i_dir : LstatResult;
  i_open : bool;
  i_chmod : bool;
  i_encode : EncodeEnv;
  i_remove : bool;
  i_partial : list (Item T); (* what a failed encode left in the file *)
  i_syncdir : SyncDirEnv;
}.

Definition WriteInitial (env : InitialEnv) (f : File T) (v : T) : File T * option Error :=
  match ValidatePrivateDir (i_dir env) with
  | Some e => (f, Some e)
  | None =>
      match f with
      | Present _ _ => (f, Some ErrAlreadyExists)
      | Missing =>
          if negb (i_open env) then (f, Some ErrCorrupt)
          else
            let failed e :=
              (if i_remove env then Missing
               else Present privateFile (i_partial env), Some e) in
            if negb (i_chmod env) then failed ErrUnsafePermissions
            else match encode (i_encode env) with
            | Some e => failed e
            | None => (Present privateFile (encoded v), syncDirectory (i_syncdir env))
            end
      end
  end.
End Writes.

Arguments InitialEnv : clear implicits.

Definition writeOk : WriteEnv :=
  mkWriteEnv (LstatInfo privateDir) true true (mkEncodeEnv true true true) true true
    (mkSyncDirEnv false true true).
Definition readOk : ReadEnv := mkReadEnv true true.
Definition initialOk {T} : InitialEnv T :=
  mkInitialEnv (LstatInfo privateDir) true true (mkEncodeEnv true true true) true []
    (mkSyncDirEnv false true true).

(** ** Facts *)

Section WriteFacts.
Context {T : Type} `{JSON T}.
Implicit Types (f : File T) (v : T).

(** Whatever the system calls do, the target afterwards is the old file or
    the complete new document: no partial state is reachable. *)
Lemma WriteAtomic_atomic env f v :
  fst (WriteAtomic env f v) = f \/
  fst (WriteAtomic env f v) = Present privateFile (encoded v).
Proof. unfold WriteAtomic. repeat (split_test; simpl; auto). Qed.

Lemma WriteAtomic_ok env f v f' :
  WriteAtomic env f v = (f', None) -> f' = Present privateFile (encoded v).
Proof.
  unfold WriteAtomic. intros E.
  repeat (split_test_in E; simplify_eq/=; try done).
Qed.

Lemma WriteAtomic_writeOk f v :
  WriteAtomic writeOk f v = (Present privateFile (encoded v), None).
Proof. reflexivity. Qed.

(** Only an absent file reads as not found. *)
Lemma Read_missing env f : Read env f = Ok None -> f = Missing.
Proof.
  unfold Read, Lstat. destruct (read_lstat_ok env), f as [|m items]; simpl; try done.
  destruct (_ || _); [done|]. destruct (negb _); [done|].
  destruct (Decode _ items) as [| |v rest]; try done. by destruct (Decode _ rest).
Qed.

Lemma Read_encoded_inv env mode v v' :
  Read env (Present mode (encoded v)) = Ok (Some v') -> v' = json_wire v.
Proof.
  unfold Read. destruct (ValidatePrivateFile _) as [[]|]; try done.
  destruct (negb _); [done|]. simpl. destruct (json_size v <=? MaxSize); [by intros [= <-]|].
  by destruct (0 <? MaxSize).
Qed.

(** An empty or truncated file does not read as a value. *)
Lemma Read_nothing env mode (items : list (Item T)) v :
  items = [] \/ items = [Junk 0] -> Read env (Present mode items) <> Ok (Some v).
Proof.
  unfold Read. destruct (ValidatePrivateFile _) as [[]|]; try done.
  destruct (negb _); [done|]. by intros [-> | ->].
Qed.

(** What a file reads as does not depend on the environment. *)
Lemma Read_same env env' (f : File T) v v' :
  Read env f = Ok (Some v) -> Read env' f = Ok (Some v') -> v' = v.
Proof.
  unfold Read. destruct (ValidatePrivateFile (Lstat (read_lstat_ok env) f)) as [[]|]; try done.
  destruct (ValidatePrivateFile (Lstat (read_lstat_ok env') f)) as [[]|]; try done.
  destruct (negb _); [done|]. destruct (negb _); [done|]. destruct f as [|m items]; [done|].
  destruct (Decode MaxSize items) as [| |w rest]; try done. destruct (Decode MaxSize rest); try done.
  congruence.
Qed.

(** A successful read is the read of an undisturbed file. *)
Lemma Read_undisturbed env (f : File T) v : Read env f = Ok (Some v) -> Read readOk f = Ok (Some v).
Proof.
  unfold Read, Lstat. destruct env as [[] []]; simpl; try done.
  by destruct (ValidatePrivateFile _) as [[]|].
Qed.

Lemma WriteInitial_ok env f v f' :
  WriteInitial env f v = (f', None) -> f' = Present privateFile (encoded v).
Proof.
  unfold WriteInitial. intros E. repeat (split_test_in E; simplify_eq/=; try done).
Qed.

(** A file holding just the encoding of a value reads back as its wire form
    exactly when the encoding fits the read bound. *)
Lemma Read_encoded v :
  Read readOk (Present privateFile (encoded v)) =
    if json_size v <=? MaxSize then Ok (Some (json_wire v)) else Err ErrCorrupt.
Proof.
  unfold Read; simpl. destruct (json_size v <=? MaxSize); reflexivity.
Qed.
End WriteFacts.
