(* ===== verification/Continuity.v ===== *)
(** * The durable continuity checkpoint (src/internal/continuity/continuity.go)

    The checkpoint's data, the sorted per-chat slices it is made of, every
    operation of [Store], and migration and opening.  [sort.Search] is the
    binary search of Go's standard library.  A [Store] and the file at its
    path form the state [Sys]; each operation takes the outcomes of the system
    calls its write makes ([PrivateJson.WriteEnv]). *)

From stdpp Require Import pretty.
From S2P Require Import Prelude.
From S2P Require PrivateJson.

Definition Version : Z := 6.
Definition unprovenReadVersion : Z := 4.
Definition previousVersion : Z := 3.
Definition oldestVersion : Z := 2.

Inductive Error :=
| ErrInvalidPath | ErrCorrupt | ErrVersionMismatch | ErrUnsafePermissions
| ErrInvalidCursor | errUnchanged.

#[export] Instance Error_eq_dec : EqDecision Error.
Proof. solve_decision. Defined.

(** ** Data *)

Record ChatCursor := mkChatCursor { ChatCursor_ChatID : Z; ChatCursor_MaxLogID : Z }.
Record DeliveryStart := mkDeliveryStart { DeliveryStart_ChatID : Z; DeliveryStart_FirstLogID : Z }.
Record ChatTarget := mkChatTarget { ChatTarget_ChatID : Z; ChatTarget_MaxLogID : Z }.
Record HistoryGap := mkHistoryGap { HistoryGap_ChatID : Z; HistoryGap_FromLogID : Z; HistoryGap_ToLogID : Z }.
Record ReadWatermarkT := mkReadWatermark { ReadWatermark_ChatID : Z; ReadWatermark_Watermark : Z }.

Record Checkpoint := mkCheckpoint {
  cp_Version : Z;
  cp_CleanShutdown : bool;
  cp_LastTokenID : Z;
  cp_LBK : Z;
  cp_Chats : slice ChatCursor;
  cp_KnownChats : slice ChatTarget;
  cp_HistoryGaps : slice HistoryGap;
  cp_ReadWatermarks : slice ReadWatermarkT;
  cp_DeliveryStarts : slice DeliveryStart;
}.

(** Go's field assignments. *)
Definition set_Version v c := mkCheckpoint v (cp_CleanShutdown c) (cp_LastTokenID c) (cp_LBK c) (cp_Chats c) (cp_KnownChats c) (cp_HistoryGaps c) (cp_ReadWatermarks c) (cp_DeliveryStarts c).
Definition set_CleanShutdown v c := mkCheckpoint (cp_Version c) v (cp_LastTokenID c) (cp_LBK c) (cp_Chats c) (cp_KnownChats c) (cp_HistoryGaps c) (cp_ReadWatermarks c) (cp_DeliveryStarts c).
Definition set_LastTokenID v c := mkCheckpoint (cp_Version c) (cp_CleanShutdown c) v (cp_LBK c) (cp_Chats c) (cp_KnownChats c) (cp_HistoryGaps c) (cp_ReadWatermarks c) (cp_DeliveryStarts c).
Definition set_LBK v c := mkCheckpoint (cp_Version c) (cp_CleanShutdown c) (cp_LastTokenID c) v (cp_Chats c) (cp_KnownChats c) (cp_HistoryGaps c) (cp_ReadWatermarks c) (cp_DeliveryStarts c).
Definition set_Chats v c := mkCheckpoint (cp_Version c) (cp_CleanShutdown c) (cp_LastTokenID c) (cp_LBK c) v (cp_KnownChats c) (cp_HistoryGaps c) (cp_ReadWatermarks c) (cp_DeliveryStarts c).
Definition set_KnownChats v c := mkCheckpoint (cp_Version c) (cp_CleanShutdown c) (cp_LastTokenID c) (cp_LBK c) (cp_Chats c) v (cp_HistoryGaps c) (cp_ReadWatermarks c) (cp_DeliveryStarts c).
Definition set_HistoryGaps v c := mkCheckpoint (cp_Version c) (cp_CleanShutdown c) (cp_LastTokenID c) (cp_LBK c) (cp_Chats c) (cp_KnownChats c) v (cp_ReadWatermarks c) (cp_DeliveryStarts c).
Definition set_ReadWatermarks v c := mkCheckpoint (cp_Version c) (cp_CleanShutdown c) (cp_LastTokenID c) (cp_LBK c) (cp_Chats c) (cp_KnownChats c) (cp_HistoryGaps c) v (cp_DeliveryStarts c).
Definition set_DeliveryStarts v c := mkCheckpoint (cp_Version c) (cp_CleanShutdown c) (cp_LastTokenID c) (cp_LBK c) (cp_Chats c) (cp_KnownChats c) (cp_HistoryGaps c) (cp_ReadWatermarks c) v.

(** [interface chatKeyed { chatID() int64 }] *)
Class ChatKeyed (T : Type) := chatID : T -> Z.
#[export] Instance ChatCursor_chatID : ChatKeyed ChatCursor := ChatCursor_ChatID.
#[export] Instance DeliveryStart_chatID : ChatKeyed DeliveryStart := DeliveryStart_ChatID.
#[export] Instance ChatTarget_chatID : ChatKeyed ChatTarget := ChatTarget_ChatID.
#[export] Instance HistoryGap_chatID : ChatKeyed HistoryGap := HistoryGap_ChatID.
#[export] Instance ReadWatermark_chatID : ChatKeyed ReadWatermarkT := ReadWatermark_ChatID.

(** ** Sorted slices *)

(** [sort.Search]'s loop: [for i < j { h := (i+j)/2; if !f(h) { i = h+1 } else { j = h } }]. *)
Fixpoint sort_Search_loop (fuel : nat) (f : nat -> bool) (i j : nat) : nat :=
  match fuel with
  | O => i
  | S fuel =>
      if (i <? j)%nat then
        let h := ((i + j) / 2)%nat in
        if f h then sort_Search_loop fuel f i h
        else sort_Search_loop fuel f (S h) j
      else i
  end.

Definition sort_Search (n : nat) (f : nat -> bool) : nat := sort_Search_loop n f 0 n.

Section Sorted.
Context {T : Type} `{ChatKeyed T}.

Definition keyAt (items : list T) (i : nat) : Z :=
  match items !! i with Some x => chatID x | None => 0 end.

Definition searchChat (items : list T) (id : Z) : nat * bool :=
  let index := sort_Search (length items) (fun i => id <=? keyAt items i) in
  (index, (index <? length items)%nat && (keyAt items index =? id)).

(** [merge] updates the entry in place and reports a result. *)
Definition upsertByChat (items : slice T) (value : T) (merge : T -> T * bool) : slice T * bool :=
  let l := els items in
  let '(index, found) := searchChat l (chatID value) in
  if found then
    match l !! index with
    | Some current =>
        let '(current', r) := merge current in (Some (<[index:=current']> l), r)
    | None => (items, false)
    end
  else
    let l1 := l ++ [value] in
    let l2 := go_copy l1 (S index) (drop index l1) in
    (Some (<[index:=value]> l2), true).

Definition removeByChat (items : slice T) (id : Z) : slice T :=
  let l := els items in
  let '(index, found) := searchChat l id in
  if found then Some (take index l ++ drop (S index) l) else items.

Fixpoint sortedByChat_from (previous : Z) (items : list T) (valid : T -> bool) : bool :=
  match items with
  | [] => true
  | item :: rest =>
      if (chatID item <=? previous) || negb (valid item) then false
      else sortedByChat_from (chatID item) rest valid
  end.

Definition sortedByChat (items : slice T) (valid : T -> bool) : bool :=
  sortedByChat_from 0 (els items) valid.
End Sorted.

Definition setTarget (targets : slice ChatTarget) (target : ChatTarget) : slice ChatTarget :=
  fst (upsertByChat targets target (fun _ => (target, true))).

Definition raiseTarget (targets : slice ChatTarget) (target : ChatTarget) : slice ChatTarget * bool :=
  upsertByChat targets target (fun current =>
    if ChatTarget_MaxLogID target <=? ChatTarget_MaxLogID current then (current, false)
    else (mkChatTarget (ChatTarget_ChatID current) (ChatTarget_MaxLogID target), true)).

(** ** Reading a checkpoint *)

(** The copies of [Clone] are never nil, except an empty [DeliveryStarts]
    ([append([]DeliveryStart(nil), nil...)] is nil). *)
Definition Clone (c : Checkpoint) : Checkpoint :=
  mkCheckpoint (cp_Version c) (cp_CleanShutdown c) (cp_LastTokenID c) (cp_LBK c)
    (Some (els (cp_Chats c))) (Some (els (cp_KnownChats c)))
    (Some (els (cp_HistoryGaps c))) (Some (els (cp_ReadWatermarks c)))
    (match els (cp_DeliveryStarts c) with [] => None | l => Some l end).

Definition SyncTargets (c : Checkpoint) : list ChatTarget := els (cp_KnownChats c).

Definition LoginCursors (c : Checkpoint) : list Z * list Z :=
  (ChatCursor_ChatID <$> els (cp_Chats c), ChatCursor_MaxLogID <$> els (cp_Chats c)).

Definition CommittedMax (c : Checkpoint) (id : Z) : Z :=
  let '(index, found) := searchChat (els (cp_Chats c)) id in
  if found then match els (cp_Chats c) !! index with
    | Some cursor => ChatCursor_MaxLogID cursor | None => 0 end
  else 0.

Definition FirstDeliveryStart (c : Checkpoint) (id : Z) : Z :=
  let '(index, found) := searchChat (els (cp_DeliveryStarts c)) id in
  if found then match els (cp_DeliveryStarts c) !! index with
    | Some start => DeliveryStart_FirstLogID start | None => 0 end
  else 0.

Definition HasGapThrough (c : Checkpoint) (id logID : Z) : bool :=
  let '(index, found) := searchChat (els (cp_HistoryGaps c)) id in
  found && match els (cp_HistoryGaps c) !! index with
           | Some gap => HistoryGap_FromLogID gap <=? logID | None => false end.

(** ** Validation and migration *)

Definition validate (data : Checkpoint) : option Error :=
  if negb (cp_Version data =? Version) then Some ErrVersionMismatch
  else if (cp_LastTokenID data <? 0) || (cp_LBK data <? 0) || isNil (cp_Chats data)
       || isNil (cp_KnownChats data) || isNil (cp_HistoryGaps data)
       || isNil (cp_ReadWatermarks data)
  then Some ErrCorrupt
  else if negb (sortedByChat (cp_DeliveryStarts data) (fun s => 0 <? DeliveryStart_FirstLogID s))
       || negb (sortedByChat (cp_Chats data) (fun c => 0 <? ChatCursor_MaxLogID c))
       || negb (sortedByChat (cp_KnownChats data) (fun t => 0 <=? ChatTarget_MaxLogID t))
       || negb (sortedByChat (cp_HistoryGaps data) (fun g => (0 <? HistoryGap_FromLogID g) && (HistoryGap_FromLogID g <=? HistoryGap_ToLogID g)))
       || negb (sortedByChat (cp_ReadWatermarks data) (fun w => 0 <? ReadWatermark_Watermark w))
  then Some ErrCorrupt
  else None.

Definition migrate (data : Checkpoint) : res Error (Checkpoint * bool) :=
  if negb (cp_Version data =? Version) && negb (length (els (cp_DeliveryStarts data)) =? 0)%nat
  then Err ErrCorrupt else
  let '(data, migrated) :=
    if cp_Version data =? 5 then (set_Version Version data, true) else (data, false) in
  let! (data, migrated) :=
    if cp_Version data =? unprovenReadVersion then
      if isNil (cp_ReadWatermarks data) then Err ErrCorrupt
      else Ok (set_Version Version (set_ReadWatermarks (Some []) data), true)
    else Ok (data, migrated) in
  let! (data, migrated) :=
    if (cp_Version data =? oldestVersion) || (cp_Version data =? previousVersion) then
      if (cp_LastTokenID data <? 0) || (cp_LBK data <? 0) || isNil (cp_Chats data)
         || isNil (cp_KnownChats data)
      then Err ErrCorrupt
      else
        let data := if cp_Version data =? oldestVersion
                    then set_HistoryGaps (Some []) data else data in
        Ok (set_Version Version (set_ReadWatermarks (Some []) data), true)
    else Ok (data, migrated) in
  match validate data with
  | Some e => Err e
  | None => Ok (data, migrated)
  end.

Definition translate (err : option PrivateJson.Error) : option Error :=
  match err with
  | None => None
  | Some PrivateJson.ErrUnsafePermissions => Some ErrUnsafePermissions
  | Some _ => Some ErrCorrupt
  end.

(** ** The JSON spelling of a checkpoint *)

Section Spelling.
#[local] Open Scope string_scope.

Definition json_quote (s : string) : string :=
  String (Ascii.ascii_of_nat 34) (s +:+ String (Ascii.ascii_of_nat 34) "").

Definition json_key (k : string) (v : string) : string := json_quote k +:+ ":" +:+ v.

Fixpoint json_join (l : list string) : string :=
  match l with
  | [] => ""
  | [x] => x
  | x :: rest => x +:+ "," +:+ json_join rest
  end.

Definition json_object (fields : list string) : string := "{" +:+ json_join fields +:+ "}".

Definition json_array {A} (enc : A -> string) (s : slice A) : string :=
  match s with
  | None => "null"
  | Some l => "[" +:+ json_join (enc <$> l) +:+ "]"
  end.

(** The struct tags of [Checkpoint] and its entries. *)
Definition json_Checkpoint (c : Checkpoint) : string :=
  json_object (
    [ json_key "version" (pretty (cp_Version c));
      json_key "clean_shutdown" (if cp_CleanShutdown c then "true" else "false");
      json_key "last_token_id" (pretty (cp_LastTokenID c));
      json_key "lbk" (pretty (cp_LBK c));
      json_key "chats" (json_array (fun x => json_object
        [ json_key "chat_id" (pretty (ChatCursor_ChatID x));
          json_key "max_log_id" (pretty (ChatCursor_MaxLogID x)) ]) (cp_Chats c));
      json_key "known_chats" (json_array (fun x => json_object
        [ json_key "chat_id" (pretty (ChatTarget_ChatID x));
          json_key "max_log_id" (pretty (ChatTarget_MaxLogID x)) ]) (cp_KnownChats c));
      json_key "history_gaps" (json_array (fun x => json_object
        [ json_key "chat_id" (pretty (HistoryGap_ChatID x));
          json_key "from_log_id" (pretty (HistoryGap_FromLogID x));
          json_key "to_log_id" (pretty (HistoryGap_ToLogID x)) ]) (cp_HistoryGaps c));
      json_key "read_watermarks" (json_array (fun x => json_object
        [ json_key "chat_id" (pretty (ReadWatermark_ChatID x));
          json_key "watermark" (pretty (ReadWatermark_Watermark x)) ]) (cp_ReadWatermarks c)) ]
    ++ match els (cp_DeliveryStarts c) with
       | [] => [] (* omitempty *)
       | l => [ json_key "delivery_starts" (json_array (fun x => json_object
           [ json_key "chat_id" (pretty (DeliveryStart_ChatID x));
             json_key "first_log_id" (pretty (DeliveryStart_FirstLogID x)) ]) (Some l)) ]
       end).
End Spelling.

(** Decoding restores every field; an empty [DeliveryStarts] is omitted from
    the text and so decodes to nil. *)
#[export] Instance Checkpoint_JSON : PrivateJson.JSON Checkpoint := {
  PrivateJson.json_size c := Z.of_nat (String.length (json_Checkpoint c));
  PrivateJson.json_wire c :=
    set_DeliveryStarts (match els (cp_DeliveryStarts c) with [] => None | l => Some l end) c;
}.

(** ** The store and its file *)

Record Store := mkStore { store_path : string; store_data : Checkpoint }.
Record Sys := mkSys { sys_store : option Store; sys_file : PrivateJson.File Checkpoint }.

Definition initialCheckpoint : Checkpoint :=
  mkCheckpoint Version true 0 0 (Some []) (Some []) (Some []) (Some []) None.

(** [Open]; [IsAbs] and [Clean] are [path/filepath]'s functions, [dir] is what
    [Lstat] reports for the profile directory.  The result carries the file
    as [Open] leaves it. *)
Record OpenEnv := mkOpenEnv {
  o_dir : PrivateJson.LstatResult;
  o_read : PrivateJson.ReadEnv;
  o_initial : PrivateJson.InitialEnv Checkpoint;
  o_write : PrivateJson.WriteEnv;
}.

Section Open.
Variables (IsAbs : string -> bool) (Clean : string -> string).

Definition Open (env : OpenEnv) (path : string) (file : PrivateJson.File Checkpoint)
  : PrivateJson.File Checkpoint * res Error Store :=
  if negb (IsAbs path) || String.eqb (Clean path) "/" then (file, Err ErrInvalidPath) else
  let path := Clean path in
  match translate (PrivateJson.ValidatePrivateDir (o_dir env)) with
  | Some e => (file, Err e)
  | None =>
      match PrivateJson.Read (o_read env) file with
      | Err e => (file, Err (default ErrCorrupt (translate (Some e))))
      | Ok None =>
          let data := initialCheckpoint in
          let '(file', err) := PrivateJson.WriteInitial (o_initial env) file data in
          match translate err with
          | Some e => (file', Err e)
          | None => (file', Ok (mkStore path data))
          end
      | Ok (Some data) =>
          match migrate data with
          | Err e => (file, Err e)
          | Ok (data, false) => (file, Ok (mkStore path data))
          | Ok (data, true) =>
              let '(file', err) := PrivateJson.WriteAtomic (o_write env) file data in
              match translate err with
              | Some e => (file', Err e)
              | None => (file', Ok (mkStore path data))
              end
          end
      end
  end.
End Open.

Definition Snapshot (s : option Store) : Checkpoint :=
  match s with
  | None => mkCheckpoint Version false 0 0 None None None None None
  | Some s => Clone (store_data s)
  end.

(** [update].  [A] is the type of the variables the callback captures, [a]
    their value before the call. *)
Definition update {A} (env : PrivateJson.WriteEnv) (sys : Sys) (a : A)
    (change : Checkpoint -> res Error Checkpoint * A) : Sys * option Error * A :=
  match sys_store sys with
  | None => (sys, Some ErrInvalidPath, a)
  | Some s =>
      if String.eqb (store_path s) "" then (sys, Some ErrInvalidPath, a) else
      let '(r, a) := change (Clone (store_data s)) in
      match r with
      | Err errUnchanged => (sys, None, a)
      | Err e => (sys, Some e, a)
      | Ok next =>
          match validate next with
          | Some e => (sys, Some e, a)
          | None =>
              let '(file, werr) := PrivateJson.WriteAtomic env (sys_file sys) next in
              match translate werr with
              | Some e => (mkSys (sys_store sys) file, Some e, a)
              | None => (mkSys (Some (mkStore (store_path s) next)) file, None, a)
              end
          end
      end
  end.

(** ** Operations

    Each operation's callback is the Go closure passed to [update]. *)

Fixpoint installDeleted (next : Checkpoint) (deleted : list Z) : res Error Checkpoint :=
  match deleted with
  | [] => Ok next
  | id :: rest =>
      if id <=? 0 then Err ErrInvalidCursor else
      let next := set_KnownChats (removeByChat (cp_KnownChats next) id) next in
      let next := set_Chats (removeByChat (cp_Chats next) id) next in
      let next := set_HistoryGaps (removeByChat (cp_HistoryGaps next) id) next in
      let next := set_ReadWatermarks (removeByChat (cp_ReadWatermarks next) id) next in
      let next := set_DeliveryStarts (removeByChat (cp_DeliveryStarts next) id) next in
      installDeleted next rest
  end.

Fixpoint installObserved (known : slice ChatTarget) (observed : list ChatTarget)
  : res Error (slice ChatTarget) :=
  match observed with
  | [] => Ok known
  | target :: rest =>
      if (ChatTarget_ChatID target <=? 0) || (ChatTarget_MaxLogID target <? 0)
      then Err ErrInvalidCursor
      else installObserved (setTarget known target) rest
  end.

Definition targetOfCursor (c : ChatCursor) : ChatTarget :=
  mkChatTarget (ChatCursor_ChatID c) (ChatCursor_MaxLogID c).

Fixpoint installRaise (known : slice ChatTarget) (chats : list ChatCursor) : slice ChatTarget :=
  match chats with
  | [] => known
  | cursor :: rest => installRaise (fst (raiseTarget known (targetOfCursor cursor))) rest
  end.

Definition changeInstallSession (lastTokenID lbk : option Z) (observed : list ChatTarget)
    (deleted : list Z) (replaceInventory : bool) (next : Checkpoint) : res Error Checkpoint :=
  let! next := match lastTokenID with
    | None => Ok next
    | Some v => if v <? 0 then Err ErrInvalidCursor else Ok (set_LastTokenID v next)
    end in
  let! next := match lbk with
    | None => Ok next
    | Some v => if v <? 0 then Err ErrInvalidCursor else Ok (set_LBK v next)
    end in
  let next := if replaceInventory then set_KnownChats (Some []) next else next in
  let! next := installDeleted next deleted in
  let! known := installObserved (cp_KnownChats next) observed in
  let next := set_KnownChats (installRaise known (els (cp_Chats next))) next in
  Ok (set_CleanShutdown false next).

Definition InstallSession (env : PrivateJson.WriteEnv) (sys : Sys) (lastTokenID lbk : option Z)
    (observed : list ChatTarget) (deleted : list Z) (replaceInventory : bool) : Sys * option Error :=
  let '(sys, err, _) := update env sys tt (fun next =>
    (changeInstallSession lastTokenID lbk observed deleted replaceInventory next, tt)) in
  (sys, err).

Definition changeRecordGap (id fromLogID toLogID : Z) (next : Checkpoint) : res Error Checkpoint :=
  Ok (set_HistoryGaps (fst (upsertByChat (cp_HistoryGaps next) (mkHistoryGap id fromLogID toLogID)
    (fun gap => (mkHistoryGap (HistoryGap_ChatID gap)
                   (Z.min (HistoryGap_FromLogID gap) fromLogID)
                   (Z.max (HistoryGap_ToLogID gap) toLogID), true)))) next).

Definition RecordGap (env : PrivateJson.WriteEnv) (sys : Sys) (id fromLogID toLogID : Z)
  : Sys * option Error :=
  if (id <=? 0) || (fromLogID <=? 0) || (toLogID <? fromLogID) then (sys, Some ErrInvalidCursor)
  else
    let '(sys, err, _) := update env sys tt (fun next =>
      (changeRecordGap id fromLogID toLogID next, tt)) in
    (sys, err).

(** A missing or later gap returns nil from the closure: the checkpoint is
    still rewritten. *)
Definition changeResolveGapThrough (id logID : Z) (next : Checkpoint) : res Error Checkpoint :=
  let gaps := els (cp_HistoryGaps next) in
  let '(index, found) := searchChat gaps id in
  if negb found then Ok next else
  match gaps !! index with
  | None => Ok next
  | Some gap =>
      if logID <? HistoryGap_FromLogID gap then Ok next
      else if HistoryGap_ToLogID gap <=? logID
      then Ok (set_HistoryGaps (removeByChat (cp_HistoryGaps next) id) next)
      else Ok (set_HistoryGaps (Some (<[index := mkHistoryGap (HistoryGap_ChatID gap)
                 (wrap64 (logID + 1)) (HistoryGap_ToLogID gap)]> gaps)) next)
  end.

Definition ResolveGapThrough (env : PrivateJson.WriteEnv) (sys : Sys) (id logID : Z)
  : Sys * option Error :=
  if (id <=? 0) || (logID <=? 0) then (sys, Some ErrInvalidCursor)
  else
    let '(sys, err, _) := update env sys tt (fun next =>
      (changeResolveGapThrough id logID next, tt)) in
    (sys, err).

Definition changeRecordDeliveryStart (id logID : Z) (next : Checkpoint) : res Error Checkpoint :=
  if snd (searchChat (els (cp_Chats next)) id) then Err errUnchanged else
  let '(known, raised) := raiseTarget (cp_KnownChats next) (mkChatTarget id logID) in
  let '(starts, lowered) := upsertByChat (cp_DeliveryStarts next) (mkDeliveryStart id logID)
    (fun start => if DeliveryStart_FirstLogID start <=? logID then (start, false)
                  else (mkDeliveryStart (DeliveryStart_ChatID start) logID, true)) in
  if negb lowered && negb raised then Err errUnchanged
  else Ok (set_DeliveryStarts starts (set_KnownChats known next)).

Definition RecordDeliveryStart (env : PrivateJson.WriteEnv) (sys : Sys) (id logID : Z)
  : Sys * option Error :=
  if (id <=? 0) || (logID <=? 0) then (sys, Some ErrInvalidCursor)
  else
    let '(sys, err, _) := update env sys tt (fun next =>
      (changeRecordDeliveryStart id logID next, tt)) in
    (sys, err).

Definition changeCommitMessage (id logID : Z) (next : Checkpoint) : res Error Checkpoint * bool :=
  let next := set_DeliveryStarts (removeByChat (cp_DeliveryStarts next) id) next in
  let '(chats, advanced) := upsertByChat (cp_Chats next) (mkChatCursor id logID)
    (fun cursor => if logID <=? ChatCursor_MaxLogID cursor then (cursor, false)
                   else (mkChatCursor (ChatCursor_ChatID cursor) logID, true)) in
  let next := set_Chats chats next in
  let next := if advanced
    then set_KnownChats (fst (raiseTarget (cp_KnownChats next) (mkChatTarget id logID))) next
    else next in
  (Ok next, advanced).

Definition CommitMessage (env : PrivateJson.WriteEnv) (sys : Sys) (id logID : Z)
  : Sys * bool * option Error :=
  if (id <=? 0) || (logID <=? 0) then (sys, false, Some ErrInvalidCursor)
  else
    let '(sys, err, advanced) := update env sys false (changeCommitMessage id logID) in
    (sys, advanced, err).

Definition ReadWatermark (s : option Store) (id : Z) : Z :=
  match s with
  | None => 0
  | Some s =>
      if id <=? 0 then 0 else
      let '(index, found) := searchChat (els (cp_ReadWatermarks (store_data s))) id in
      if negb found then 0 else
      match els (cp_ReadWatermarks (store_data s)) !! index with
      | Some w => ReadWatermark_Watermark w | None => 0 end
  end.

Definition changeCommitReadWatermark (id watermark : Z) (next : Checkpoint) : res Error Checkpoint * bool :=
  let '(marks, advanced) := upsertByChat (cp_ReadWatermarks next) (mkReadWatermark id watermark)
    (fun current => if watermark <=? ReadWatermark_Watermark current then (current, false)
                    else (mkReadWatermark (ReadWatermark_ChatID current) watermark, true)) in
  (Ok (set_ReadWatermarks marks next), advanced).

Definition CommitReadWatermark (env : PrivateJson.WriteEnv) (sys : Sys) (id watermark : Z)
  : Sys * bool * option Error :=
  if (id <=? 0) || (watermark <=? 0) then (sys, false, Some ErrInvalidCursor)
  else
    let '(sys, err, advanced) := update env sys false (changeCommitReadWatermark id watermark) in
    (sys, advanced, err).

Definition IsCommitted (s : option Store) (id logID : Z) : bool :=
  match s with
  | None => false
  | Some s =>
      if (id <=? 0) || (logID <=? 0) then false else
      let '(index, found) := searchChat (els (cp_Chats (store_data s))) id in
      found && match els (cp_Chats (store_data s)) !! index with
               | Some c => logID <=? ChatCursor_MaxLogID c | None => false end
  end.

Definition MarkClean (env : PrivateJson.WriteEnv) (sys : Sys) : Sys * option Error :=
  let '(sys, err, _) := update env sys tt (fun next => (Ok (set_CleanShutdown true next), tt)) in
  (sys, err).
