(* ===== verification/SortedSlices.v ===== *)
(** * Theory of the sorted per-chat slices

    [searchChat]'s binary search meets the specification of [sort.Search] on
    strictly ascending slices, and the three slice operations of
    src/internal/continuity/continuity.go ([upsertByChat], [removeByChat] and
    the lookups) act on the slice as the corresponding operations of a finite
    map from chat IDs, preserving the order. *)

From S2P Require Import Prelude.
From S2P Require Import Continuity.

(** ** Binary search *)

Lemma sort_Search_loop_spec (n : nat) (f : nat -> bool) :
  (forall a b, (a <= b < n)%nat -> f a = true -> f b = true) ->
  forall fuel i j, (i <= j)%nat -> (j <= n)%nat -> (j - i <= fuel)%nat ->
  (forall k, (k < i)%nat -> f k = false) ->
  (forall k, (j <= k < n)%nat -> f k = true) ->
  let r := sort_Search_loop fuel f i j in
  (r <= n)%nat /\ (forall k, (k < r)%nat -> f k = false) /\ (forall k, (r <= k < n)%nat -> f k = true).
Proof.
  intros Hmono fuel. induction fuel as [|fuel IH]; intros i j Hij Hjn Hfuel Hlo Hhi; simpl.
  - assert (i = j) as -> by lia. auto.
  - destruct (i <? j)%nat eqn:E; bool_prop.
    2: { assert (i = j) as -> by lia. auto. }
    change (fst (Nat.divmod (i + j) 1 0 1)) with ((i + j) / 2)%nat.
    assert (Hh : (i <= (i + j) / 2 < j)%nat).
    { split; [apply Nat.div_le_lower_bound | apply Nat.Div0.div_lt_upper_bound]; lia. }
    destruct (f ((i + j) / 2)%nat) eqn:Ef; apply IH; try lia; try done.
    + intros k Hk. apply (Hmono ((i + j) / 2)%nat k); [lia | done].
    + intros k Hk. destruct (f k) eqn:Efk; [|done].
      rewrite (Hmono k ((i + j) / 2)%nat) in Ef; [done | lia | done].
Qed.

Lemma sort_Search_spec (n : nat) (f : nat -> bool) :
  (forall a b, (a <= b < n)%nat -> f a = true -> f b = true) ->
  (sort_Search n f <= n)%nat /\
  (forall k, (k < sort_Search n f)%nat -> f k = false) /\
  (forall k, (sort_Search n f <= k < n)%nat -> f k = true).
Proof. intros H. apply (sort_Search_loop_spec n f H); lia. Qed.

Section Theory.
Context {T : Type} `{ChatKeyed T}.
Implicit Types (l : list T) (x v : T) (s : slice T) (k p : Z).

(** ** Ascending slices *)

Fixpoint ascending (p : Z) (l : list T) : Prop :=
  match l with
  | [] => True
  | x :: rest => p < chatID x /\ ascending (chatID x) rest
  end.

Lemma sortedByChat_from_true p l valid :
  sortedByChat_from p l valid = true <-> ascending p l /\ Forall (fun x => valid x = true) l.
Proof.
  revert p. induction l as [|x l IH]; intros p; simpl; [by split|].
  rewrite Forall_cons. destruct (chatID x <=? p) eqn:E1; simpl; bool_prop.
  - split; [done | intros [[? _] _]; lia].
  - destruct (valid x) eqn:E2; simpl.
    + rewrite IH. tauto.
    + split; [done | intros [_ [? _]]; done].
Qed.

Lemma ascending_weaken p q l : q <= p -> ascending p l -> ascending q l.
Proof. destruct l; simpl; intuition lia. Qed.

Lemma ascending_app p l1 l2 :
  ascending p (l1 ++ l2) <->
  ascending p l1 /\ ascending (default p (chatID <$> last l1)) l2.
Proof.
  revert p. induction l1 as [|x l1 IH]; intros p; simpl; [tauto|].
  rewrite IH, last_cons. destruct (last l1); simpl; tauto.
Qed.

Lemma ascending_bound p l x : ascending p l -> x ∈ l -> p < chatID x.
Proof.
  revert p. induction l as [|y l IH]; intros p Ha Hx; [by apply not_elem_of_nil in Hx|].
  destruct Ha as [Hy Ha]. apply elem_of_cons in Hx as [->|Hx]; [done|].
  specialize (IH _ Ha Hx). lia.
Qed.

Lemma ascending_intro p l1 l2 k :
  ascending p l1 -> Forall (fun x => chatID x < k) l1 ->
  p < k -> (forall q, q < k -> ascending q l2) -> ascending p (l1 ++ l2).
Proof.
  intros Ha Hlt Hp Hl2. apply ascending_app. split; [done|].
  destruct (last l1) as [y|] eqn:E; simpl; [|by apply Hl2].
  apply Hl2. rewrite Forall_forall in Hlt. apply Hlt.
  by apply last_Some_elem_of.
Qed.

(** ** The search splits the slice *)

Lemma keyAt_mono p l : ascending p l ->
  forall a b, (a <= b < length l)%nat -> keyAt l a <= keyAt l b.
Proof.
  revert p. induction l as [|x l IH]; intros p Ha a b Hab; simpl in *; [lia|].
  destruct Ha as [Hx Ha]. destruct b as [|b].
  - assert (a = O) as -> by lia. done.
  - destruct a as [|a]; [|apply (IH _ Ha); lia].
    unfold keyAt; simpl. destruct (l !! b) as [y|] eqn:E.
    + pose proof (ascending_bound _ _ y Ha (list_elem_of_lookup_2 _ _ _ E)). lia.
    + apply lookup_ge_None in E. lia.
Qed.

Lemma searchChat_split p l k : ascending p l ->
  exists pre post, l = pre ++ post /\ fst (searchChat l k) = length pre /\
    Forall (fun x => chatID x < k) pre /\ Forall (fun x => k <= chatID x) post.
Proof.
  intros Ha. unfold searchChat. simpl.
  destruct (sort_Search_spec (length l) (fun i => k <=? keyAt l i)) as (Hle & Hlo & Hhi).
  { intros a b Hab Hf. bool_prop. apply Z.leb_le.
    pose proof (keyAt_mono p l Ha a b Hab). lia. }
  set (r := sort_Search _ _) in *.
  exists (take r l), (drop r l). rewrite take_drop, length_take, Nat.min_l by lia.
  repeat split; try done; apply Forall_lookup; intros i x Hx.
  - apply lookup_take_Some in Hx as [Hx Hi]. specialize (Hlo i Hi). bool_prop.
    unfold keyAt in Hlo. by rewrite Hx in Hlo.
  - rewrite lookup_drop in Hx. pose proof (lookup_lt_Some _ _ _ Hx) as Hlt.
    specialize (Hhi (r + i)%nat ltac:(lia)). bool_prop.
    unfold keyAt in Hhi. by rewrite Hx in Hhi.
Qed.

(** The outcome of [searchChat]: the entry is in the middle, or its place is. *)
Inductive search_view l k : nat * bool -> Prop :=
| SearchFound pre x post :
    l = pre ++ x :: post -> chatID x = k ->
    Forall (fun y => chatID y < k) pre -> Forall (fun y => k < chatID y) post ->
    search_view l k (length pre, true)
| SearchMissing pre post :
    l = pre ++ post ->
    Forall (fun y => chatID y < k) pre -> Forall (fun y => k < chatID y) post ->
    search_view l k (length pre, false).

Lemma searchChat_view p l k : ascending p l -> search_view l k (searchChat l k).
Proof.
  intros Ha. destruct (searchChat_split p l k Ha) as (pre & post & -> & Hi & Hpre & Hpost).
  destruct (searchChat (pre ++ post) k) as [i b] eqn:E. simpl in Hi. subst i.
  unfold searchChat in E. injection E as Ei Eb. rewrite Ei in Eb.
  apply ascending_app in Ha as [_ Ha].
  destruct post as [|x post].
  - rewrite app_nil_r, Nat.ltb_irrefl in Eb. simpl in Eb. subst b.
    apply (SearchMissing _ _ pre []); auto.
  - replace (length pre <? length (pre ++ x :: post))%nat with true in Eb
      by (symmetry; apply Nat.ltb_lt; rewrite length_app; simpl; lia).
    unfold keyAt in Eb. rewrite list_lookup_middle in Eb by done. simpl in Eb.
    apply Forall_cons in Hpost as [Hx Hpost]. destruct Ha as [_ Ha].
    assert (Hgt : Forall (fun y => chatID x < chatID y) post).
    { apply Forall_forall. intros y Hy. eapply ascending_bound; eauto. }
    destruct (chatID x =? k) eqn:Ek; subst b; bool_prop.
    + subst k. by apply (SearchFound _ _ pre x post).
    + apply (SearchMissing _ _ pre (x :: post)); [done | done |].
      constructor; [lia|]. eapply Forall_impl; [exact Hgt|]. simpl. intros; lia.
Qed.

(** ** The slice as a map *)

Definition to_map (l : list T) : gmap Z T :=
  list_to_map ((fun x => (chatID x, x)) <$> l).

Lemma to_map_lookup_None l k : Forall (fun y => chatID y <> k) l -> to_map l !! k = None.
Proof.
  intros Hl. apply not_elem_of_list_to_map_1. intros Hin.
  apply list_elem_of_fmap in Hin as ([k' y] & -> & Hin).
  apply list_elem_of_fmap in Hin as (z & Heq & Hz). simplify_eq/=.
  rewrite Forall_forall in Hl. by apply (Hl z).
Qed.

Lemma to_map_cons x l : to_map (x :: l) = <[chatID x := x]> (to_map l).
Proof. done. Qed.

Lemma to_map_middle pre x post :
  Forall (fun y => chatID y <> chatID x) pre ->
  to_map (pre ++ x :: post) = <[chatID x := x]> (to_map (pre ++ post)).
Proof.
  induction pre as [|y pre IH]; intros Hpre; [done|].
  apply Forall_cons in Hpre as [Hy Hpre]. simpl.
  rewrite !to_map_cons, (IH Hpre). by rewrite insert_insert_ne.
Qed.

Lemma Forall_lt_ne l k : Forall (fun y => chatID y < k) l -> Forall (fun y => chatID y <> k) l.
Proof. intros Hl. eapply Forall_impl; [exact Hl|]. simpl; intros; lia. Qed.

Lemma Forall_gt_ne l k : Forall (fun y => k < chatID y) l -> Forall (fun y => chatID y <> k) l.
Proof. intros Hl. eapply Forall_impl; [exact Hl|]. simpl; intros; lia. Qed.

#[local] Hint Resolve Forall_lt_ne Forall_gt_ne : go.

Lemma to_map_around pre post k :
  Forall (fun y => chatID y < k) pre -> Forall (fun y => k < chatID y) post ->
  to_map (pre ++ post) !! k = None.
Proof. intros ??. apply to_map_lookup_None, Forall_app; auto with go. Qed.

Lemma to_map_found pre x post :
  Forall (fun y => chatID y < chatID x) pre ->
  to_map (pre ++ x :: post) !! chatID x = Some x.
Proof. intros ?. rewrite to_map_middle by auto with go. apply lookup_insert_eq. Qed.

Lemma to_map_elem l k x : to_map l !! k = Some x -> x ∈ l /\ chatID x = k.
Proof.
  intros E. apply elem_of_list_to_map_2 in E.
  apply list_elem_of_fmap in E as (z & Heq & Hz). by simplify_eq/=.
Qed.

Lemma to_map_Forall (P : T -> Prop) l k x : Forall P l -> to_map l !! k = Some x -> P x.
Proof. intros HP [Hx _]%to_map_elem. rewrite Forall_forall in HP. by apply HP. Qed.

(** Every read of the form "search, then index" is a map lookup. *)
Lemma search_lookup {A} p l k (f : T -> A) (d : A) : ascending p l ->
  (let '(index, found) := searchChat l k in
   if found then match l !! index with Some x => f x | None => d end else d)
  = match to_map l !! k with Some x => f x | None => d end.
Proof.
  intros Ha. destruct (searchChat_view p l k Ha) as [pre x post -> <- Hpre Hpost | pre post -> Hpre Hpost].
  - rewrite list_lookup_middle by done. by rewrite to_map_found.
  - by rewrite (to_map_around _ _ k).
Qed.

Lemma search_found p l k : ascending p l ->
  snd (searchChat l k) = bool_decide (is_Some (to_map l !! k)).
Proof.
  intros Ha. destruct (searchChat_view p l k Ha) as [pre x post -> <- Hpre Hpost | pre post -> Hpre Hpost].
  - rewrite to_map_found by done. by rewrite bool_decide_true by eauto.
  - rewrite (to_map_around _ _ k) by done. rewrite bool_decide_false; [done|].
    by intros [? ?].
Qed.

(** ** Insertion and removal *)

Lemma remove_middle pre x post :
  take (length pre) (pre ++ x :: post) ++ drop (S (length pre)) (pre ++ x :: post) = pre ++ post.
Proof.
  rewrite take_app_length. replace (S (length pre)) with (length pre + 1)%nat by lia.
  by rewrite drop_app_add.
Qed.

Lemma ascending_middle p pre x post :
  ascending p (pre ++ post) -> p < chatID x ->
  Forall (fun y => chatID y < chatID x) pre -> Forall (fun y => chatID x < chatID y) post ->
  ascending p (pre ++ x :: post).
Proof.
  intros Ha Hp Hpre Hpost. apply ascending_app in Ha as [Ha1 Ha2].
  eapply ascending_intro; [done | exact Hpre | done |]. intros q Hq. split; [done|].
  destruct post as [|y post]; [done|]. apply Forall_cons in Hpost as [Hy _].
  destruct Ha2 as [_ Ha2]. by split.
Qed.

Lemma ascending_remove p pre x post :
  ascending p (pre ++ x :: post) -> ascending p (pre ++ post).
Proof.
  rewrite !ascending_app. intros (Ha1 & Hx & Ha2). split; [done|].
  eapply ascending_weaken; [|exact Ha2]. lia.
Qed.

(** Replacing an entry by one of the same chat. *)
Lemma ascending_replace p pre x x' post :
  ascending p (pre ++ x :: post) -> chatID x' = chatID x -> ascending p (pre ++ x' :: post).
Proof.
  rewrite !ascending_app. intros (Ha1 & Hx & Ha2) E. simpl. rewrite E. auto.
Qed.

Lemma to_map_found_ascending p pre x post : ascending p (pre ++ x :: post) ->
  to_map (pre ++ x :: post) !! chatID x = Some x.
Proof.
  intros Ha. apply to_map_found. revert p Ha.
  induction pre as [|y pre IH]; intros p Ha; [constructor|].
  destruct Ha as [_ Ha]. constructor; [|by eapply IH].
  eapply ascending_bound; [exact Ha|]. apply elem_of_app. right. left.
Qed.

Lemma to_map_lookup_elem p l x : ascending p l -> x ∈ l -> to_map l !! chatID x = Some x.
Proof.
  intros Ha (pre & post & ->)%list_elem_of_split. by eapply to_map_found_ascending.
Qed.

Lemma ascending_sorted p l : ascending p l -> StronglySorted Z.lt (chatID <$> l).
Proof.
  revert p. induction l as [|x l IH]; intros p Ha; [constructor|].
  destruct Ha as [Hx Ha]. simpl. constructor; [by eapply IH|].
  apply Forall_fmap, Forall_forall. intros y Hy. by eapply ascending_bound.
Qed.

Lemma to_map_replace pre x x' post :
  Forall (fun y => chatID y < chatID x) pre -> chatID x' = chatID x ->
  to_map (pre ++ x' :: post) = <[chatID x := x']> (to_map (pre ++ x :: post)).
Proof.
  intros Hpre E. rewrite (to_map_middle pre x), (to_map_middle pre x') by (rewrite ?E; auto with go).
  by rewrite E, insert_insert_eq.
Qed.

Section Upsert.
Context (s : slice T) (v : T) (merge : T -> T * bool).
Hypothesis Hasc : ascending 0 (els s).
Hypothesis Hv : 0 < chatID v.
Hypothesis Hmerge : forall x, chatID x = chatID v -> chatID (fst (merge x)) = chatID v.

Definition upserted : T :=
  match to_map (els s) !! chatID v with Some x => fst (merge x) | None => v end.

Lemma upserted_chatID : chatID upserted = chatID v.
Proof.
  unfold upserted. destruct (_ !! _) as [x|] eqn:E; [|done].
  apply to_map_elem in E as [_ E]. by apply Hmerge.
Qed.

(** The entry of [v]'s chat lands between smaller and larger keys. *)
Lemma upsertByChat_shape : exists pre post old,
  els s = pre ++ old ++ post /\
  fst (upsertByChat s v merge) = Some (pre ++ upserted :: post) /\
  Forall (fun y => chatID y < chatID v) pre /\ Forall (fun y => chatID v < chatID y) post /\
  to_map (pre ++ post) = delete (chatID v) (to_map (els s)) /\
  ascending 0 (pre ++ post).
Proof.
  pose proof Hasc as Ha. unfold upserted, upsertByChat.
  destruct (searchChat_view 0 (els s) (chatID v) Hasc)
    as [pre x post E Ek Hpre Hpost | pre post E Hpre Hpost]; rewrite E in Ha |- *.
  - rewrite list_lookup_middle by done. rewrite <- Ek in Hpre |- *.
    rewrite to_map_found by done.
    destruct (merge x) as [x' r]; simpl.
    exists pre, post, [x]. repeat split; try done.
    + by rewrite insert_app_r_alt, Nat.sub_diag by done.
    + by rewrite Ek.
    + rewrite to_map_middle, delete_insert_eq by auto with go.
      rewrite delete_id; [done|]. apply to_map_around; [done|by rewrite Ek].
    + by eapply ascending_remove.
  - rewrite (to_map_around _ _ (chatID v)) by done. simpl.
    exists pre, post, []. repeat split; try done.
    + rewrite go_insert_idiom by (rewrite length_app; lia).
      by rewrite take_app_length, drop_app_length.
    + rewrite delete_id; [done|]. by apply to_map_around.
Qed.

Lemma upsertByChat_map :
  to_map (els (fst (upsertByChat s v merge))) = <[chatID v := upserted]> (to_map (els s)).
Proof.
  destruct upsertByChat_shape as (pre & post & old & E & -> & Hpre & Hpost & Hmap & _). simpl.
  rewrite to_map_middle by (rewrite upserted_chatID; auto with go).
  rewrite Hmap, upserted_chatID. apply insert_delete_eq.
Qed.

Lemma upsertByChat_result :
  snd (upsertByChat s v merge) =
  match to_map (els s) !! chatID v with Some x => snd (merge x) | None => true end.
Proof.
  pose proof Hasc as Ha. unfold upsertByChat.
  destruct (searchChat_view 0 (els s) (chatID v) Hasc)
    as [pre x post E Ek Hpre Hpost | pre post E Hpre Hpost]; rewrite E in Ha |- *.
  - rewrite list_lookup_middle by done. rewrite <- Ek in Hpre |- *.
    rewrite to_map_found by done. by destruct (merge x).
  - by rewrite (to_map_around _ _ (chatID v)).
Qed.

Lemma upsertByChat_ascending : ascending 0 (els (fst (upsertByChat s v merge))).
Proof.
  destruct upsertByChat_shape as (pre & post & old & E & -> & Hpre & Hpost & _ & Ha). simpl.
  apply ascending_middle; rewrite ?upserted_chatID; auto.
Qed.

Lemma upsertByChat_not_nil : isNil (fst (upsertByChat s v merge)) = false.
Proof. destruct upsertByChat_shape as (pre & post & old & _ & -> & _). done. Qed.

Lemma upsertByChat_Forall (P : T -> Prop) :
  Forall P (els s) -> P v -> (forall x, P x -> P (fst (merge x))) ->
  Forall P (els (fst (upsertByChat s v merge))).
Proof.
  intros Hall HPv HPm.
  assert (HPu : P upserted).
  { unfold upserted. destruct (_ !! _) as [x|] eqn:E; [|done].
    apply HPm. by eapply to_map_Forall. }
  destruct upsertByChat_shape as (pre & post & old & E & -> & _). simpl.
  rewrite E in Hall. apply Forall_app in Hall as [? Hall].
  apply Forall_app in Hall as [_ ?]. apply Forall_app. auto.
Qed.
End Upsert.

Section Remove.
Context (s : slice T) (k : Z).
Hypothesis Hasc : ascending 0 (els s).

Lemma removeByChat_map : to_map (els (removeByChat s k)) = delete k (to_map (els s)).
Proof.
  pose proof Hasc as Ha. unfold removeByChat.
  destruct (searchChat_view 0 (els s) k Hasc)
    as [pre x post E Ek Hpre Hpost | pre post E Hpre Hpost]; rewrite E in Ha |- *; simpl.
  - subst k. rewrite remove_middle, to_map_middle by auto with go.
    rewrite delete_insert_eq, delete_id; [done|]. by apply to_map_around.
  - rewrite delete_id; [done|]. by apply to_map_around.
Qed.

Lemma removeByChat_ascending : ascending 0 (els (removeByChat s k)).
Proof.
  pose proof Hasc as Ha. unfold removeByChat.
  destruct (searchChat_view 0 (els s) k Hasc)
    as [pre x post E Ek Hpre Hpost | pre post E Hpre Hpost]; rewrite E in Ha |- *; simpl.
  - rewrite remove_middle. by eapply ascending_remove.
  - done.
Qed.

Lemma removeByChat_isNil : isNil (removeByChat s k) = isNil s.
Proof.
  unfold removeByChat. destruct (searchChat _ _) as [i [|]] eqn:E; [|done].
  destruct s as [l|]; [done|]. exfalso. by vm_compute in E.
Qed.

Lemma removeByChat_Forall (P : T -> Prop) :
  Forall P (els s) -> Forall P (els (removeByChat s k)).
Proof.
  intros Hall. unfold removeByChat. destruct (searchChat _ _) as [i [|]]; [|done]. simpl.
  apply Forall_app. split; [by apply Forall_take | by apply Forall_drop].
Qed.
End Remove.
End Theory.

#[export] Hint Resolve upsertByChat_ascending removeByChat_ascending
  upsertByChat_Forall removeByChat_Forall : go.
