(* ===== verification/ContinuitySpec.v ===== *)
(** * What the continuity checkpoint promises

    [Journal] is the abstract state of the checkpoint: finite maps from chat
    IDs.  [abs] reads a [Checkpoint] as a [Journal]; [spec] is the effect of
    each operation on it.  The refinement lemmas show that the closures passed
    to [update] (src/internal/continuity/continuity.go) keep every checkpoint
    valid and act on it as [spec] says. *)

From S2P Require Import Prelude.
From S2P Require Import Continuity SortedSlices.
From S2P Require PrivateJson.

(** ** Sorted slices as maps of one field *)

Section SliceMap.
Context {T : Type} `{ChatKeyed T}.

Definition sorted_slice (P : T -> Prop) (s : slice T) : Prop :=
  ascending 0 (els s) /\ Forall P (els s).

Definition slice_map {A} (f : T -> A) (s : slice T) : gmap Z A := f <$> to_map (els s).

Context (P : T -> Prop) (s : slice T).
Hypothesis Hs : sorted_slice P s.

Lemma slice_map_lookup {A} (f : T -> A) k : slice_map f s !! k = f <$> (to_map (els s) !! k).
Proof. apply lookup_fmap. Qed.

Lemma sorted_upsert v merge :
  0 < chatID v -> P v ->
  (forall x, chatID x = chatID v -> chatID (fst (merge x)) = chatID v) -> (forall x, P x -> P (fst (merge x))) ->
  sorted_slice P (fst (upsertByChat s v merge)).
Proof. destruct Hs. split; auto with go. Qed.

Lemma sorted_remove k : sorted_slice P (removeByChat s k).
Proof. destruct Hs. split; auto with go. Qed.

Lemma slice_map_upsert {A} (f : T -> A) (g : A -> A) v merge :
  0 < chatID v -> (forall x, chatID x = chatID v -> chatID (fst (merge x)) = chatID v) ->
  (forall x, f (fst (merge x)) = g (f x)) ->
  slice_map f (fst (upsertByChat s v merge)) =
  <[chatID v := match slice_map f s !! chatID v with Some a => g a | None => f v end]>
    (slice_map f s).
Proof.
  intros Hv Hm Hf. unfold slice_map. rewrite upsertByChat_map by (done || apply Hs).
  rewrite fmap_insert. f_equal. unfold upserted. rewrite lookup_fmap.
  destruct (to_map _ !! _); simpl; auto.
Qed.

Lemma slice_result_upsert {A} (f : T -> A) (h : A -> bool) v merge :
  (forall x, snd (merge x) = h (f x)) ->
  snd (upsertByChat s v merge) =
  match slice_map f s !! chatID v with Some a => h a | None => true end.
Proof.
  intros Hh. rewrite upsertByChat_result by apply Hs. unfold slice_map. rewrite lookup_fmap.
  destruct (to_map _ !! _); simpl; auto.
Qed.

Lemma slice_map_remove {A} (f : T -> A) k :
  slice_map f (removeByChat s k) = delete k (slice_map f s).
Proof. unfold slice_map. rewrite removeByChat_map by apply Hs. apply fmap_delete. Qed.

Lemma slice_map_found {A} (f : T -> A) k :
  snd (searchChat (els s) k) = bool_decide (is_Some (slice_map f s !! k)).
Proof.
  rewrite (search_found 0) by apply Hs. apply bool_decide_ext.
  unfold slice_map. rewrite lookup_fmap. by destruct (to_map _ !! _); split; intros [? ?].
Qed.

(** A search followed by a read of field [f] is a lookup. *)
Lemma slice_map_read {A B} (f : T -> A) (g : A -> B) (d : B) k :
  (let '(index, found) := searchChat (els s) k in
   if found then match els s !! index with Some x => g (f x) | None => d end else d)
  = match slice_map f s !! k with Some a => g a | None => d end.
Proof.
  rewrite (search_lookup 0 (els s) k (fun x => g (f x))) by apply Hs.
  unfold slice_map. rewrite lookup_fmap. by destruct (to_map _ !! _).
Qed.

Lemma slice_map_Forall {A} (f : T -> A) (Q : A -> Prop) k a :
  (forall x, P x -> Q (f x)) -> slice_map f s !! k = Some a -> Q a.
Proof.
  intros HQ. unfold slice_map. rewrite lookup_fmap. intros (x & Hx & ->)%fmap_Some.
  apply HQ. eapply to_map_Forall; [apply Hs | done].
Qed.

Lemma slice_map_pos {A} (f : T -> A) k a : slice_map f s !! k = Some a -> 0 < k.
Proof.
  unfold slice_map. rewrite lookup_fmap. intros (x & Hx & ->)%fmap_Some.
  apply to_map_elem in Hx as [Hx <-]. eapply ascending_bound; [apply Hs | done].
Qed.
End SliceMap.

Lemma sorted_nil {T} `{ChatKeyed T} (P : T -> Prop) : sorted_slice P (Some []).
Proof. split; [done | constructor]. Qed.

#[export] Hint Resolve sorted_upsert sorted_remove sorted_nil : go.

(** ** Well-formed checkpoints *)

Definition validStart (s : DeliveryStart) : Prop := 0 < DeliveryStart_FirstLogID s.
Definition validCursor (c : ChatCursor) : Prop := 0 < ChatCursor_MaxLogID c.
Definition validTarget (t : ChatTarget) : Prop := 0 <= ChatTarget_MaxLogID t.
Definition validGap (g : HistoryGap) : Prop :=
  0 < HistoryGap_FromLogID g <= HistoryGap_ToLogID g.
Definition validMark (w : ReadWatermarkT) : Prop := 0 < ReadWatermark_Watermark w.

Record wf (c : Checkpoint) : Prop := {
  wf_version : cp_Version c = Version;
  wf_token : 0 <= cp_LastTokenID c;
  wf_lbk : 0 <= cp_LBK c;
  wf_nil : isNil (cp_Chats c) = false /\ isNil (cp_KnownChats c) = false /\
           isNil (cp_HistoryGaps c) = false /\ isNil (cp_ReadWatermarks c) = false;
  wf_starts : sorted_slice validStart (cp_DeliveryStarts c);
  wf_chats : sorted_slice validCursor (cp_Chats c);
  wf_known : sorted_slice validTarget (cp_KnownChats c);
  wf_gaps : sorted_slice validGap (cp_HistoryGaps c);
  wf_reads : sorted_slice validMark (cp_ReadWatermarks c);
}.

Lemma sortedByChat_iff {T} `{ChatKeyed T} (s : slice T) valid (P : T -> Prop) :
  (forall x, valid x = true <-> P x) ->
  sortedByChat s valid = true <-> sorted_slice P s.
Proof.
  intros HP. unfold sortedByChat, sorted_slice. rewrite sortedByChat_from_true.
  rewrite (Forall_iff _ _ _ HP). done.
Qed.

(** [validate] accepts exactly the well-formed checkpoints. *)
Lemma validate_wf c : validate c = None <-> wf c.
Proof.
  assert (Hs := sortedByChat_iff (cp_DeliveryStarts c) (fun s => 0 <? DeliveryStart_FirstLogID s) validStart
    (fun x => Z.ltb_lt _ _)).
  assert (Hc := sortedByChat_iff (cp_Chats c) (fun s => 0 <? ChatCursor_MaxLogID s) validCursor
    (fun x => Z.ltb_lt _ _)).
  assert (Hk := sortedByChat_iff (cp_KnownChats c) (fun s => 0 <=? ChatTarget_MaxLogID s) validTarget
    (fun x => Z.leb_le _ _)).
  assert (Hg := sortedByChat_iff (cp_HistoryGaps c)
    (fun g => (0 <? HistoryGap_FromLogID g) && (HistoryGap_FromLogID g <=? HistoryGap_ToLogID g)) validGap
    ltac:(intros; unfold validGap; rewrite andb_true_iff, Z.ltb_lt, Z.leb_le; done)).
  assert (Hw := sortedByChat_iff (cp_ReadWatermarks c) (fun s => 0 <? ReadWatermark_Watermark s) validMark
    (fun x => Z.ltb_lt _ _)).
  unfold validate. split.
  - intros E. repeat (split_test_in E; [discriminate E|]). bool_prop.
    split; try tauto; try lia.
  - intros [Hv Ht Hl Hn ?????]. destruct Hn as (-> & -> & -> & ->).
    rewrite (proj2 Hs), (proj2 Hc), (proj2 Hk), (proj2 Hg), (proj2 Hw) by done.
    rewrite Hv. simpl. replace (cp_LastTokenID c <? 0) with false by lia.
    replace (cp_LBK c <? 0) with false by lia. done.
Qed.

(** ** The abstract journal *)

Record Journal := mkJournal {
  j_token : Z;
  j_lbk : Z;
  j_clean : bool;
  j_commits : gmap Z Z;       (* chat -> highest committed log *)
  j_known : gmap Z Z;         (* chat -> server-observed last log *)
  j_gaps : gmap Z (Z * Z);    (* chat -> unresolved interval *)
  j_reads : gmap Z Z;         (* chat -> acknowledged read position *)
  j_starts : gmap Z Z;        (* chat -> first live admission *)
}.

Definition gap_range (g : HistoryGap) : Z * Z := (HistoryGap_FromLogID g, HistoryGap_ToLogID g).

Definition abs (c : Checkpoint) : Journal :=
  mkJournal (cp_LastTokenID c) (cp_LBK c) (cp_CleanShutdown c)
    (slice_map ChatCursor_MaxLogID (cp_Chats c))
    (slice_map ChatTarget_MaxLogID (cp_KnownChats c))
    (slice_map gap_range (cp_HistoryGaps c))
    (slice_map ReadWatermark_Watermark (cp_ReadWatermarks c))
    (slice_map DeliveryStart_FirstLogID (cp_DeliveryStarts c)).

(** A missing entry counts as position zero. *)
Definition peek (m : gmap Z Z) (k : Z) : Z := default 0 (m !! k).
Definition raise (m : gmap Z Z) (k v : Z) : gmap Z Z := <[k := Z.max v (peek m k)]> m.

Inductive Op :=
| OpInstall (token lbk : option Z) (observed : list ChatTarget) (deleted : list Z) (replace : bool)
| OpRecordGap (id from to : Z)
| OpResolveGap (id log : Z)
| OpDeliveryStart (id log : Z)
| OpCommit (id log : Z)
| OpCommitRead (id watermark : Z)
| OpMarkClean.

Definition spec_forget (j : Journal) (k : Z) : Journal :=
  mkJournal (j_token j) (j_lbk j) (j_clean j) (delete k (j_commits j)) (delete k (j_known j))
    (delete k (j_gaps j)) (delete k (j_reads j)) (delete k (j_starts j)).

Definition spec_install (token lbk : option Z) (observed : list ChatTarget) (deleted : list Z)
    (replace : bool) (j : Journal) : Journal :=
  let known0 := if replace then ∅ else j_known j in
  let j := mkJournal (default (j_token j) token) (default (j_lbk j) lbk) (j_clean j)
             (j_commits j) known0 (j_gaps j) (j_reads j) (j_starts j) in
  let j := foldl spec_forget j deleted in
  let known := foldl (fun m t => <[ChatTarget_ChatID t := ChatTarget_MaxLogID t]> m) (j_known j) observed in
  mkJournal (j_token j) (j_lbk j) false (j_commits j)
    (union_with (fun a b => Some (Z.max a b)) known (j_commits j))
    (j_gaps j) (j_reads j) (j_starts j).

Definition spec (op : Op) (j : Journal) : Journal :=
  match op with
  | OpInstall token lbk observed deleted replace => spec_install token lbk observed deleted replace j
  | OpRecordGap id from to =>
      mkJournal (j_token j) (j_lbk j) (j_clean j) (j_commits j) (j_known j)
        (<[id := match j_gaps j !! id with
                 | Some (f, t) => (Z.min f from, Z.max t to) | None => (from, to) end]> (j_gaps j))
        (j_reads j) (j_starts j)
  | OpResolveGap id log =>
      mkJournal (j_token j) (j_lbk j) (j_clean j) (j_commits j) (j_known j)
        (match j_gaps j !! id with
         | None => j_gaps j
         | Some (f, t) =>
             if log <? f then j_gaps j
             else if t <=? log then delete id (j_gaps j)
             else <[id := (log + 1, t)]> (j_gaps j)
         end) (j_reads j) (j_starts j)
  | OpDeliveryStart id log =>
      match j_commits j !! id with
      | Some _ => j
      | None =>
          mkJournal (j_token j) (j_lbk j) (j_clean j) (j_commits j) (raise (j_known j) id log)
            (j_gaps j) (j_reads j)
            (<[id := match j_starts j !! id with Some s => Z.min s log | None => log end]> (j_starts j))
      end
  | OpCommit id log =>
      mkJournal (j_token j) (j_lbk j) (j_clean j) (raise (j_commits j) id log)
        (if peek (j_commits j) id <? log then raise (j_known j) id log else j_known j)
        (j_gaps j) (j_reads j) (delete id (j_starts j))
  | OpCommitRead id mark =>
      mkJournal (j_token j) (j_lbk j) (j_clean j) (j_commits j) (j_known j) (j_gaps j)
        (raise (j_reads j) id mark) (j_starts j)
  | OpMarkClean =>
      mkJournal (j_token j) (j_lbk j) true (j_commits j) (j_known j) (j_gaps j) (j_reads j) (j_starts j)
  end.

(** The arguments an operation accepts; Go rejects the others with
    [ErrInvalidCursor]. *)
Definition args_ok (op : Op) : bool :=
  match op with
  | OpInstall token lbk observed deleted _ =>
      match token with Some v => 0 <=? v | None => true end
      && match lbk with Some v => 0 <=? v | None => true end
      && forallb (fun k => 0 <? k) deleted
      && forallb (fun t => (0 <? ChatTarget_ChatID t) && (0 <=? ChatTarget_MaxLogID t)) observed
  | OpRecordGap id from to => (0 <? id) && (0 <? from) && (from <=? to)
  | OpResolveGap id log | OpDeliveryStart id log | OpCommit id log | OpCommitRead id log =>
      (0 <? id) && (0 <? log)
  | OpMarkClean => true
  end.

(** The closure each operation hands to [update], with [advanced] dropped. *)
Definition change (op : Op) (next : Checkpoint) : res Error Checkpoint :=
  match op with
  | OpInstall token lbk observed deleted replace =>
      changeInstallSession token lbk observed deleted replace next
  | OpRecordGap id from to => changeRecordGap id from to next
  | OpResolveGap id log => changeResolveGapThrough id log next
  | OpDeliveryStart id log => changeRecordDeliveryStart id log next
  | OpCommit id log => fst (changeCommitMessage id log next)
  | OpCommitRead id mark => fst (changeCommitReadWatermark id mark next)
  | OpMarkClean => Ok (set_CleanShutdown true next)
  end.

(** ** Refinement of the closures *)

Section FieldUpdates.
Context (c : Checkpoint).
Hypothesis Hc : wf c.

Ltac field := destruct Hc as [? ? ? (? & ? & ? & ?) ? ? ? ? ?]; constructor; simpl; auto.

Lemma wf_set_gaps s : sorted_slice validGap s -> isNil s = false -> wf (set_HistoryGaps s c).
Proof. field. Qed.
Lemma wf_set_chats s : sorted_slice validCursor s -> isNil s = false -> wf (set_Chats s c).
Proof. field. Qed.
Lemma wf_set_known s : sorted_slice validTarget s -> isNil s = false -> wf (set_KnownChats s c).
Proof. field. Qed.
Lemma wf_set_reads s : sorted_slice validMark s -> isNil s = false -> wf (set_ReadWatermarks s c).
Proof. field. Qed.
Lemma wf_set_starts s : sorted_slice validStart s -> wf (set_DeliveryStarts s c).
Proof. field. Qed.
Lemma wf_set_clean b : wf (set_CleanShutdown b c).
Proof. field. Qed.
Lemma wf_set_token v : 0 <= v -> wf (set_LastTokenID v c).
Proof. field. Qed.
Lemma wf_set_lbk v : 0 <= v -> wf (set_LBK v c).
Proof. field. Qed.
End FieldUpdates.

Lemma upsert_nil {T} `{ChatKeyed T} (P : T -> Prop) s v merge :
  sorted_slice P s -> isNil (fst (upsertByChat s v merge)) = false.
Proof. intros [? _]. by apply upsertByChat_not_nil. Qed.

Lemma remove_nil {T} `{ChatKeyed T} (P : T -> Prop) s k :
  sorted_slice P s -> isNil s = false -> isNil (removeByChat s k) = false.
Proof. intros [? _] <-. by apply removeByChat_isNil. Qed.

#[export] Hint Resolve wf_set_gaps wf_set_chats wf_set_known wf_set_reads wf_set_starts
  wf_set_clean wf_set_token wf_set_lbk wf_starts wf_chats wf_known wf_gaps wf_reads : go.

Lemma Clone_wf c : wf c -> wf (Clone c).
Proof.
  intros [? ? ? ? Hs ? ? ? ?]. constructor; simpl; auto.
  destruct (cp_DeliveryStarts c) as [[|x l]|]; done.
Qed.

Lemma Clone_abs c : abs (Clone c) = abs c.
Proof. unfold abs; simpl. by destruct (cp_DeliveryStarts c) as [[|x l]|]. Qed.

(** Only a live admission skips the write. *)
Definition is_delivery (op : Op) : bool :=
  match op with OpDeliveryStart _ _ => true | _ => false end.

(** A step of an operation: the new checkpoint is valid and has the journal
    [spec] describes; [errUnchanged] is returned when [spec] changes nothing. *)
Definition refines (op : Op) (c : Checkpoint) (r : res Error Checkpoint) : Prop :=
  match r with
  | Ok next => wf next /\ abs next = spec op (abs c)
  | Err errUnchanged => is_delivery op = true /\ spec op (abs c) = abs c
  | Err _ => False
  end.

(** [merge]s that keep the larger value realise [raise]. *)
Lemma slice_map_raise {T} `{ChatKeyed T} (P : T -> Prop) (s : slice T) (f : T -> Z) v merge :
  sorted_slice P s -> 0 < chatID v -> 0 <= f v ->
  (forall x, chatID x = chatID v -> chatID (fst (merge x)) = chatID v) ->
  (forall x, f (fst (merge x)) = Z.max (f v) (f x)) ->
  slice_map f (fst (upsertByChat s v merge)) = raise (slice_map f s) (chatID v) (f v).
Proof.
  intros Hs Hv Hf Hm Hfm. rewrite (slice_map_upsert P s Hs f (Z.max (f v))) by done.
  unfold raise, peek. f_equal. destruct (_ !! _); simpl; lia.
Qed.

Lemma raiseTarget_spec s t :
  sorted_slice validTarget s -> 0 < ChatTarget_ChatID t -> 0 <= ChatTarget_MaxLogID t ->
  sorted_slice validTarget (fst (raiseTarget s t)) /\
  isNil (fst (raiseTarget s t)) = false /\
  slice_map ChatTarget_MaxLogID (fst (raiseTarget s t)) =
    raise (slice_map ChatTarget_MaxLogID s) (ChatTarget_ChatID t) (ChatTarget_MaxLogID t) /\
  snd (raiseTarget s t) =
    match slice_map ChatTarget_MaxLogID s !! ChatTarget_ChatID t with
    | Some a => a <? ChatTarget_MaxLogID t | None => true end.
Proof.
  intros Hs Hid Hmax. unfold raiseTarget. split_and!.
  - apply sorted_upsert; try done; intros x; split_test; simpl; try done.
  - eapply upsert_nil; eauto.
  - eapply slice_map_raise; try done; intros x; split_test; simpl; bool_prop; try done; lia.
  - rewrite (slice_result_upsert _ _ Hs ChatTarget_MaxLogID (fun a => a <? ChatTarget_MaxLogID t)).
    + done.
    + intros x; split_test; simpl; bool_prop; lia.
Qed.

Lemma setTarget_spec s t :
  sorted_slice validTarget s -> 0 < ChatTarget_ChatID t -> 0 <= ChatTarget_MaxLogID t ->
  sorted_slice validTarget (setTarget s t) /\ isNil (setTarget s t) = false /\
  slice_map ChatTarget_MaxLogID (setTarget s t) =
    <[ChatTarget_ChatID t := ChatTarget_MaxLogID t]> (slice_map ChatTarget_MaxLogID s).
Proof.
  intros Hs Hid Hmax. unfold setTarget. split_and!.
  - by apply sorted_upsert.
  - by eapply upsert_nil.
  - rewrite (slice_map_upsert _ _ Hs ChatTarget_MaxLogID (fun _ => ChatTarget_MaxLogID t)) by done.
    by destruct (_ !! _).
Qed.

Section Refinement.
Context (c : Checkpoint).
Hypothesis Hc : wf c.

(** *** Commits *)

Definition keepLarger (logID : Z) (cursor : ChatCursor) : ChatCursor * bool :=
  if logID <=? ChatCursor_MaxLogID cursor then (cursor, false)
  else (mkChatCursor (ChatCursor_ChatID cursor) logID, true).

Lemma commit_advanced id log : 0 < id -> 0 < log ->
  snd (changeCommitMessage id log c) = (peek (j_commits (abs c)) id <? log).
Proof.
  intros Hid Hlog. unfold changeCommitMessage; simpl. fold (keepLarger log).
  change (fun cursor => if log <=? ChatCursor_MaxLogID cursor then _ else _) with (keepLarger log).
  rewrite (surjective_pairing (upsertByChat _ _ _)). simpl.
  rewrite (slice_result_upsert _ _ (wf_chats _ Hc) ChatCursor_MaxLogID (fun a => a <? log)).
  - unfold peek; simpl. destruct (_ !! _); simpl; [done|]. symmetry. by apply Z.ltb_lt.
  - intros x. unfold keepLarger. split_test; simpl; bool_prop; lia.
Qed.

Lemma commit_refines id log : 0 < id -> 0 < log ->
  refines (OpCommit id log) c (change (OpCommit id log) c).
Proof.
  intros Hid Hlog. pose proof (commit_advanced id log Hid Hlog) as Hadv.
  simpl. unfold changeCommitMessage in *. simpl in *.
  set (s := removeByChat (cp_DeliveryStarts c) id) in *.
  assert (Hs : sorted_slice validStart s) by (apply sorted_remove, wf_starts, Hc).
  change (upsertByChat (cp_Chats c) _ _)
    with (upsertByChat (cp_Chats c) (mkChatCursor id log) (keepLarger log)) in *.
  rewrite (surjective_pairing (upsertByChat _ _ (keepLarger log))) in *. simpl in *.
  rewrite Hadv.
  set (chats' := fst (upsertByChat _ _ (keepLarger log))).
  assert (Hchats : sorted_slice validCursor chats' /\ isNil chats' = false /\
    slice_map ChatCursor_MaxLogID chats' = raise (slice_map ChatCursor_MaxLogID (cp_Chats c)) id log).
  { unfold chats'. split_and!.
    - apply sorted_upsert; [apply wf_chats, Hc | done | done | |];
        intros x; unfold keepLarger; split_test; simpl; auto.
    - eapply upsert_nil, wf_chats, Hc.
    - refine (slice_map_raise validCursor (cp_Chats c) ChatCursor_MaxLogID (mkChatCursor id log)
        (keepLarger log) (wf_chats _ Hc) Hid _ _ _); [simpl; lia | |];
        intros x; unfold keepLarger; split_test; simpl; bool_prop; auto; lia. }
  destruct Hchats as (Hch1 & Hch2 & Hch3).
  pose proof (raiseTarget_spec (cp_KnownChats c) (mkChatTarget id log) (wf_known _ Hc) Hid
    ltac:(simpl; lia)) as (Hk1 & Hk2 & Hk3 & _).
  split.
  - destruct (_ <? _); simpl; eauto 6 with go.
  - unfold abs at 1; simpl. rewrite <- Hch3. unfold s.
    destruct (_ <? _); simpl; rewrite ?Hk3, (slice_map_remove _ _ (wf_starts _ Hc)); done.
Qed.

(** *** Read watermarks *)

Lemma commitRead_refines id mark : 0 < id -> 0 < mark ->
  refines (OpCommitRead id mark) c (change (OpCommitRead id mark) c).
Proof.
  intros Hid Hmark. simpl. unfold changeCommitReadWatermark.
  rewrite (surjective_pairing (upsertByChat _ _ _)). simpl. split.
  - apply wf_set_reads; [done| |eapply upsert_nil; eauto with go].
    apply sorted_upsert; eauto with go; intros x; split_test; simpl; auto.
  - unfold abs; simpl. f_equal.
    refine (slice_map_raise validMark (cp_ReadWatermarks c) ReadWatermark_Watermark
      (mkReadWatermark id mark) _ (wf_reads _ Hc) Hid _ _ _); [simpl; lia | |];
      intros x; split_test; simpl; bool_prop; auto; lia.
Qed.

Lemma commitRead_advanced id mark : 0 < id -> 0 < mark ->
  snd (changeCommitReadWatermark id mark c) = (peek (j_reads (abs c)) id <? mark).
Proof.
  intros Hid Hmark. unfold changeCommitReadWatermark.
  rewrite (surjective_pairing (upsertByChat _ _ _)). simpl.
  rewrite (slice_result_upsert _ _ (wf_reads _ Hc) ReadWatermark_Watermark (fun a => a <? mark)).
  - unfold peek; simpl. destruct (_ !! _); simpl; [done|]. symmetry. by apply Z.ltb_lt.
  - intros x. split_test; simpl; bool_prop; lia.
Qed.

(** *** Gaps *)

Lemma recordGap_refines id from to : 0 < id -> 0 < from -> from <= to ->
  refines (OpRecordGap id from to) c (change (OpRecordGap id from to) c).
Proof.
  intros Hid Hfrom Hto. simpl. unfold changeRecordGap. split.
  - apply wf_set_gaps; [done| |eapply upsert_nil; eauto with go].
    apply sorted_upsert; eauto with go; unfold validGap; simpl; intros; lia.
  - unfold abs; simpl. f_equal.
    rewrite (slice_map_upsert _ _ (wf_gaps _ Hc) gap_range
      (fun g => (Z.min (fst g) from, Z.max (snd g) to))) by done.
    f_equal. by destruct (_ !! _) as [[f t]|].
Qed.

(** *** Live admissions *)

Lemma deliveryStart_refines id log : 0 < id -> 0 < log ->
  refines (OpDeliveryStart id log) c (change (OpDeliveryStart id log) c).
Proof.
  intros Hid Hlog. simpl. unfold changeRecordDeliveryStart, refines.
  rewrite (slice_map_found _ _ (wf_chats _ Hc) ChatCursor_MaxLogID).
  cbn [spec abs j_commits is_delivery].
  destruct (slice_map ChatCursor_MaxLogID (cp_Chats c) !! id) as [m|] eqn:Em.
  { by rewrite bool_decide_true by eauto. }
  rewrite bool_decide_false by (by intros [? ?]).
  pose proof (raiseTarget_spec (cp_KnownChats c) (mkChatTarget id log) (wf_known _ Hc) Hid
    ltac:(simpl; lia)) as (Hk1 & Hk2 & Hk3 & Hk4).
  destruct (raiseTarget _ _) as [known raised]. simpl in *.
  set (merge := fun start => if DeliveryStart_FirstLogID start <=? log then _ else _).
  pose proof (slice_result_upsert _ _ (wf_starts _ Hc) DeliveryStart_FirstLogID
    (fun a => log <? a) (mkDeliveryStart id log) merge
    ltac:(intros x; unfold merge; split_test; simpl; bool_prop; lia)) as Hlow.
  pose proof (slice_map_upsert _ _ (wf_starts _ Hc) DeliveryStart_FirstLogID (fun a => Z.min a log)
    (mkDeliveryStart id log) merge Hid
    ltac:(intros x; unfold merge; split_test; done)
    ltac:(intros x; unfold merge; split_test; simpl; bool_prop; lia)) as Hmap.
  pose proof (sorted_upsert _ _ (wf_starts _ Hc) (mkDeliveryStart id log) merge Hid Hlog
    ltac:(intros x; unfold merge; split_test; done)
    ltac:(intros x; unfold merge; split_test; simpl; auto)) as Hsort.
  destruct (upsertByChat _ _ _) as [starts lowered]. simpl in *.
  change (chatID (mkDeliveryStart id log)) with id in *.
  destruct (negb lowered && negb raised) eqn:Eb.
  - split; [done|]. bool_prop. subst. unfold abs; simpl in *.
    destruct (slice_map DeliveryStart_FirstLogID _ !! id) as [a|] eqn:Ea; [|done].
    destruct (slice_map ChatTarget_MaxLogID _ !! id) as [b|] eqn:Ekn; [|done].
    bool_prop. f_equal.
    + unfold raise, peek. rewrite Ekn. simpl. rewrite Z.max_r by lia. by apply insert_id.
    + rewrite Z.min_l by lia. by apply insert_id.
  - split; [eauto with go|]. unfold abs at 1; simpl. by rewrite Hk3, Hmap.
Qed.

(** The closed end of a gap is an int64, so the start after a partial
    recovery does not wrap. *)
Definition gaps_int64 : Prop :=
  Forall (fun g => HistoryGap_ToLogID g <= MaxInt64) (els (cp_HistoryGaps c)).

Lemma resolveGap_refines id log : gaps_int64 -> 0 < id -> 0 < log ->
  refines (OpResolveGap id log) c (change (OpResolveGap id log) c).
Proof.
  intros Hty Hid Hlog. destruct (wf_gaps _ Hc) as [Ha Hall]. unfold gaps_int64 in Hty.
  unfold refines. cbn [change spec abs j_gaps]. unfold changeResolveGapThrough.
  rewrite (slice_map_lookup (cp_HistoryGaps c)).
  destruct (searchChat_view 0 _ id Ha) as [pre x post E Ek Hpre Hpost | pre post E Hpre Hpost];
    rewrite E in *; simpl.
  2: { by rewrite (to_map_around _ _ id). }
  rewrite <- Ek in Hpre |- *. rewrite to_map_found, list_lookup_middle by done. simpl.
  apply Forall_app in Hall as [Hall1 [Hx Hall2]%Forall_cons].
  apply Forall_app in Hty as [_ [Htx _]%Forall_cons].
  destruct (log <? HistoryGap_FromLogID x) eqn:E1; [done|].
  destruct (HistoryGap_ToLogID x <=? log) eqn:E2; bool_prop; split.
  - apply wf_set_gaps; [done | apply sorted_remove, wf_gaps, Hc |].
    eapply remove_nil; [apply wf_gaps, Hc | apply Hc].
  - unfold abs; simpl. f_equal. by apply (slice_map_remove _ _ (wf_gaps _ Hc)).
  - apply wf_set_gaps; [done | | done]. split; simpl; rewrite insert_middle.
    + by eapply ascending_replace.
    + apply Forall_app. split; [done|]. constructor; [|done].
      unfold validGap in *; simpl. rewrite wrap64_id; unfold_ints; lia.
  - unfold abs; simpl. f_equal. unfold slice_map. simpl.
    rewrite insert_middle, (to_map_replace _ x), fmap_insert, E by done.
    unfold gap_range at 1; simpl.
    by rewrite wrap64_id by (unfold validGap in Hx; unfold_ints; lia).
Qed.

(** *** Session installation *)

Lemma installDeleted_spec deleted : forallb (fun k => 0 <? k) deleted = true ->
  forall c, wf c -> exists next, installDeleted c deleted = Ok next /\ wf next /\
    abs next = foldl spec_forget (abs c) deleted.
Proof.
  induction deleted as [|k deleted IH]; intros Hd c0 Hc0; [by eauto|].
  simpl in Hd |- *. bool_prop. replace (k <=? 0) with false by lia.
  match goal with |- context [installDeleted ?n deleted] => set (next := n) end.
  assert (Hnext : wf next).
  { destruct Hc0 as [? ? ? (? & ? & ? & ?) ? ? ? ? ?]. unfold next.
    constructor; simpl; try done; try (by apply sorted_remove).
    split_and!; by eapply remove_nil. }
  destruct (IH ltac:(done) next Hnext) as (n & -> & Hn & Habs).
  exists n. split_and!; try done. rewrite Habs. f_equal.
  destruct Hc0 as [? ? ? ? H1 H2 H3 H4 H5]. unfold next, abs, spec_forget; simpl.
  by rewrite (slice_map_remove _ _ H1), (slice_map_remove _ _ H2), (slice_map_remove _ _ H3),
    (slice_map_remove _ _ H4), (slice_map_remove _ _ H5).
Qed.

Lemma installDeleted_error deleted c0 :
  forallb (fun k => 0 <? k) deleted = false -> installDeleted c0 deleted = Err ErrInvalidCursor.
Proof.
  revert c0. induction deleted as [|k deleted IH]; intros c0 Hd; [done|]. simpl in *.
  destruct (k <=? 0) eqn:E; [done|]. apply IH.
  bool_prop. by replace (0 <? k) with true in Hd by lia.
Qed.

Lemma installObserved_spec observed :
  forallb (fun t => (0 <? ChatTarget_ChatID t) && (0 <=? ChatTarget_MaxLogID t)) observed = true ->
  forall known, sorted_slice validTarget known -> isNil known = false ->
  exists next, installObserved known observed = Ok next /\ sorted_slice validTarget next /\
    isNil next = false /\
    slice_map ChatTarget_MaxLogID next =
      foldl (fun m t => <[ChatTarget_ChatID t := ChatTarget_MaxLogID t]> m)
        (slice_map ChatTarget_MaxLogID known) observed.
Proof.
  induction observed as [|t observed IH]; intros Ho known Hk Hn; [by eauto 6|].
  simpl in Ho |- *. bool_prop.
  replace (ChatTarget_ChatID t <=? 0) with false by lia.
  replace (ChatTarget_MaxLogID t <? 0) with false by lia. simpl.
  destruct (setTarget_spec known t Hk) as (Hs1 & Hs2 & Hs3); [done..|].
  destruct (IH ltac:(done) _ Hs1 Hs2) as (next & -> & ? & ? & Hnext).
  exists next. by rewrite Hnext, Hs3.
Qed.

Lemma installObserved_error observed :
  forallb (fun t => (0 <? ChatTarget_ChatID t) && (0 <=? ChatTarget_MaxLogID t)) observed = false ->
  forall known, installObserved known observed = Err ErrInvalidCursor.
Proof.
  induction observed as [|t observed IH]; intros Ho known; [done|]. simpl in Ho |- *.
  destruct (_ || _) eqn:E; [done|]. apply IH. bool_prop.
  replace (0 <? ChatTarget_ChatID t) with true in Ho by lia.
  by replace (0 <=? ChatTarget_MaxLogID t) with true in Ho by lia.
Qed.

Lemma installRaise_spec chats : forall known p,
  ascending p chats -> 0 <= p -> Forall validCursor chats ->
  sorted_slice validTarget known -> isNil known = false ->
  sorted_slice validTarget (installRaise known chats) /\ isNil (installRaise known chats) = false /\
  slice_map ChatTarget_MaxLogID (installRaise known chats) =
    union_with (fun a b => Some (Z.max a b)) (slice_map ChatTarget_MaxLogID known)
      (ChatCursor_MaxLogID <$> to_map chats).
Proof.
  induction chats as [|x chats IH]; intros known p Ha Hp Hall Hk Hn; simpl.
  - split_and!; try done. change (to_map []) with (∅ : gmap Z ChatCursor).
    by rewrite fmap_empty, (right_id_L ∅ (union_with _)).
  - destruct Ha as [Hx Ha]. apply Forall_cons in Hall as [Hval Hall].
    unfold validCursor in Hval. change (chatID x) with (ChatCursor_ChatID x) in *.
    destruct (raiseTarget_spec known (targetOfCursor x) Hk) as (H1 & H2 & H3 & _); simpl; [lia..|].
    destruct (IH _ _ Ha ltac:(lia) Hall H1 H2) as (? & ? & ->). split_and!; try done.
    rewrite H3. rewrite to_map_cons, fmap_insert. unfold raise, peek. simpl.
    apply map_eq. intros k.
    assert (Hnone : to_map chats !! ChatCursor_ChatID x = None).
    { apply to_map_lookup_None, Forall_forall. intros y Hy.
      pose proof (ascending_bound _ _ _ Ha Hy). lia. }
    rewrite !lookup_union_with. destruct (decide (k = ChatCursor_ChatID x)) as [->|Hne].
    + change (chatID x) with (ChatCursor_ChatID x).
      rewrite !lookup_insert_eq, lookup_fmap, Hnone. simpl.
      destruct (slice_map _ _ !! _); simpl; f_equal; lia.
    + change (chatID x) with (ChatCursor_ChatID x).
      by rewrite !lookup_insert_ne by done.
Qed.

Lemma install_refines token lbk observed deleted replace_inv :
  let op := OpInstall token lbk observed deleted replace_inv in
  args_ok op = true -> refines op c (change op c).
Proof.
  intros op Hargs. subst op. cbn [args_ok change] in *. bool_prop.
  unfold changeInstallSession, refines. cbn [spec].
  set (c1 := match token with Some v => set_LastTokenID v c | None => c end).
  assert (Hc1 : wf c1 /\ match token with
    | None => Ok c | Some v => if v <? 0 then Err ErrInvalidCursor else Ok (set_LastTokenID v c) end = Ok c1).
  { unfold c1. destruct token as [v|]; [|done]. bool_prop.
    replace (v <? 0) with false by lia. split; [by apply wf_set_token | done]. }
  destruct Hc1 as [Hc1 ->].
  set (c2 := match lbk with Some v => set_LBK v c1 | None => c1 end).
  assert (Hc2 : wf c2 /\ match lbk with
    | None => Ok c1 | Some v => if v <? 0 then Err ErrInvalidCursor else Ok (set_LBK v c1) end = Ok c2).
  { unfold c2. destruct lbk as [v|]; [|done]. bool_prop.
    replace (v <? 0) with false by lia. split; [by apply wf_set_lbk | done]. }
  destruct Hc2 as [Hc2 ->].
  set (c3 := if replace_inv then set_KnownChats (Some []) c2 else c2).
  assert (Hc3 : wf c3) by (unfold c3; destruct replace_inv; auto with go).
  destruct (installDeleted_spec deleted ltac:(done) c3 Hc3) as (c4 & -> & Hc4 & Habs4).
  destruct (installObserved_spec observed ltac:(done) (cp_KnownChats c4) (wf_known _ Hc4)
    (proj1 (proj2 (wf_nil _ Hc4)))) as (known & -> & Hk1 & Hk2 & Hk3).
  destruct (installRaise_spec (els (cp_Chats c4)) known 0) as (Hr1 & Hr2 & Hr3); try done.
  { apply wf_chats, Hc4. } { apply wf_chats, Hc4. }
  split; [auto with go|].
  assert (E : abs c3 = mkJournal (default (j_token (abs c)) token) (default (j_lbk (abs c)) lbk)
    (j_clean (abs c)) (j_commits (abs c)) (if replace_inv then ∅ else j_known (abs c))
    (j_gaps (abs c)) (j_reads (abs c)) (j_starts (abs c))).
  { unfold c3, c2, c1. by destruct replace_inv, token, lbk. }
  unfold spec_install. rewrite <- E, <- Habs4. unfold abs at 1; simpl. by rewrite Hr3, Hk3.
Qed.

(** Invalid arguments are refused before anything is written. *)
Lemma install_rejects token lbk observed deleted replace_inv :
  let op := OpInstall token lbk observed deleted replace_inv in
  args_ok op = false -> change op c = Err ErrInvalidCursor.
Proof.
  simpl. intros Hargs. unfold changeInstallSession.
  destruct token as [v|]; [destruct (v <? 0) eqn:?; [done|]|];
  (destruct lbk as [w|]; [destruct (w <? 0) eqn:?; [done|]|]);
  repeat match goal with H : (?v <? 0) = false |- _ =>
    replace (0 <=? v) with true in Hargs by lia; clear H end; simpl in Hargs;
  (match goal with |- context [installDeleted ?c0 deleted] => set (c3 := c0) end;
   destruct (forallb (fun k => 0 <? k) deleted) eqn:Ed;
     [|by rewrite installDeleted_error]);
  (destruct (installDeleted c3 deleted) as [n|e] eqn:En;
    [by rewrite installObserved_error|];
   clear Hargs; revert En; generalize c3; induction deleted as [|k l IH]; intros c0 En;
    [done|simpl in *; bool_prop; replace (k <=? 0) with false in En by lia; by eapply IH]).
Qed.
End Refinement.

(** Every accepted operation refines its specification. *)
Lemma change_refines op c : wf c -> gaps_int64 c -> args_ok op = true -> refines op c (change op c).
Proof.
  intros Hc Hty Hargs. destruct op; simpl in Hargs; bool_prop.
  - apply install_refines; [done|]. simpl. by rewrite !andb_true_iff.
  - by apply recordGap_refines.
  - by apply resolveGap_refines.
  - by apply deliveryStart_refines.
  - by apply commit_refines.
  - by apply commitRead_refines.
  - split; [by apply wf_set_clean | done].
Qed.

(** Go's [int64] arguments of an operation. *)
Definition op_int64 (op : Op) : Prop :=
  match op with
  | OpRecordGap id from to => int64 id /\ int64 from /\ int64 to
  | OpResolveGap id log | OpDeliveryStart id log | OpCommit id log | OpCommitRead id log =>
      int64 id /\ int64 log
  | _ => True
  end.

Lemma gaps_int64_iff c : wf c ->
  gaps_int64 c <-> forall k f t, j_gaps (abs c) !! k = Some (f, t) -> t <= MaxInt64.
Proof.
  intros Hc. split.
  - intros Hty k f t E. apply (slice_map_Forall _ _ (conj (proj1 (wf_gaps _ Hc)) Hty) gap_range
      (fun r => snd r <= MaxInt64)) in E; done.
  - intros Hall. apply Forall_forall. intros g Hg.
    apply (Hall (HistoryGap_ChatID g) (HistoryGap_FromLogID g)).
    simpl. rewrite slice_map_lookup. apply fmap_Some. exists g. split; [|done].
    apply list_elem_of_split in Hg as (pre & post & E). rewrite E.
    pose proof (proj1 (wf_gaps _ Hc)) as Ha. rewrite E in Ha. by eapply to_map_found_ascending.
Qed.

Lemma spec_forget_gaps j k : j_gaps (spec_forget j k) = delete k (j_gaps j).
Proof. done. Qed.

Lemma spec_gaps_bound op j : op_int64 op ->
  (forall k f t, j_gaps j !! k = Some (f, t) -> t <= MaxInt64) ->
  forall k f t, j_gaps (spec op j) !! k = Some (f, t) -> t <= MaxInt64.
Proof.
  intros Hop Hj k f t. destruct op; simpl in *; try apply Hj.
  - set (j0 := mkJournal _ _ _ _ _ _ _ _).
    assert (Hgen : forall l j, (forall k f t, j_gaps j !! k = Some (f, t) -> t <= MaxInt64) ->
      forall k f t, j_gaps (foldl spec_forget j l) !! k = Some (f, t) -> t <= MaxInt64).
    { induction l as [|x l IH]; intros j1 Hj1 k1 f1 t1; [apply Hj1|]. simpl. apply IH.
      intros k2 f2 t2. simpl. intros [_ ?]%lookup_delete_Some. by eapply Hj1. }
    by apply Hgen.
  - intros [[-> E]|[_ E]]%lookup_insert_Some; [|by eapply Hj].
    destruct Hop as (_ & _ & Hto). unfold_ints.
    destruct (j_gaps j !! k) as [[f0 t0]|] eqn:E0; simplify_eq; [|lia].
    apply Hj in E0. lia.
  - destruct (j_gaps j !! id) as [[f0 t0]|] eqn:E0; [|apply Hj].
    repeat split_test; [apply Hj | |].
    + intros [_ ?]%lookup_delete_Some. by eapply Hj.
    + intros [[-> E]|[_ E]]%lookup_insert_Some; simplify_eq; by eapply Hj.
  - destruct (j_commits j !! id); [apply Hj|]. simpl. apply Hj.
Qed.
