(* ===== verification/ContinuityProps.v ===== *)
(** * Correctness of the continuity store

    Properties of [Store] in src/internal/continuity/continuity.go over its
    reachable states: a process opens a checkpoint file, performs operations
    whose writes may fail at any system call, and may crash and reopen. *)

From S2P Require Import Prelude.
From S2P Require Import Continuity SortedSlices ContinuitySpec.
From S2P Require PrivateJson.

(** ** One operation *)

Definition run (env : PrivateJson.WriteEnv) (op : Op) (sys : Sys) : Sys * option Error :=
  match op with
  | OpInstall token lbk observed deleted replace =>
      InstallSession env sys token lbk observed deleted replace
  | OpRecordGap id from to => RecordGap env sys id from to
  | OpResolveGap id log => ResolveGapThrough env sys id log
  | OpDeliveryStart id log => RecordDeliveryStart env sys id log
  | OpCommit id log => let '(sys, _, err) := CommitMessage env sys id log in (sys, err)
  | OpCommitRead id mark => let '(sys, _, err) := CommitReadWatermark env sys id mark in (sys, err)
  | OpMarkClean => MarkClean env sys
  end.

(** The outcomes of [update] on a store whose data is [c]. *)
Inductive outcome (op : Op) (c : Checkpoint) (file : PrivateJson.File Checkpoint)
  : Checkpoint -> PrivateJson.File Checkpoint -> option Error -> Prop :=
| Rejected : args_ok op = false -> outcome op c file c file (Some ErrInvalidCursor)
| Unchanged :
    args_ok op = true -> is_delivery op = true -> spec op (abs c) = abs c ->
    outcome op c file c file None
| NotWritten env next e file' :
    args_ok op = true -> wf next -> abs next = spec op (abs c) ->
    PrivateJson.WriteAtomic env file next = (file', Some e) ->
    outcome op c file c file' (translate (Some e))
| Written next :
    args_ok op = true -> wf next -> abs next = spec op (abs c) ->
    outcome op c file next (PrivateJson.Present PrivateJson.privateFile (PrivateJson.encoded next)) None.

Definition sysOf (path : string) (c : Checkpoint) (file : PrivateJson.File Checkpoint) : Sys :=
  mkSys (Some (mkStore path c)) file.

Lemma update_outcome {A} op env path c file (a : A) f :
  path <> ""%string -> wf c -> args_ok op = true ->
  refines op (Clone c) (fst (f (Clone c))) ->
  exists c' file' err,
    fst (update env (sysOf path c file) a f) = (sysOf path c' file', err) /\
    outcome op c file c' file' err.
Proof.
  intros Hp Hc Hargs Href. unfold update; simpl.
  destruct (String.eqb_spec path ""); [done|].
  destruct (f (Clone c)) as [r a'] eqn:Ef. simpl in Href.
  unfold refines in Href. rewrite Clone_abs in Href.
  destruct r as [next|e].
  - destruct Href as [Hwf Habs]. rewrite (proj2 (validate_wf next)) by done.
    destruct (PrivateJson.WriteAtomic env file next) as [file' [e|]] eqn:Ew; simpl.
    + exists c, file', (translate (Some e)). split.
      * by destruct e.
      * by eapply NotWritten.
    + apply PrivateJson.WriteAtomic_ok in Ew as ->.
      eexists _, _, _. split; [done|]. by apply Written.
  - destruct e; try done. destruct Href. eexists _, _, _. split; [done|]. by apply Unchanged.
Qed.

Lemma run_outcome env op path c file :
  path <> ""%string -> wf c -> gaps_int64 c ->
  exists c' file' err,
    run env op (sysOf path c file) = (sysOf path c' file', err) /\ outcome op c file c' file' err.
Proof.
  intros Hp Hc Hty.
  assert (Hcl : wf (Clone c)) by by apply Clone_wf.
  assert (Htyc : gaps_int64 (Clone c)) by done.
  destruct (args_ok op) eqn:Hargs.
  - pose proof (change_refines op (Clone c) Hcl Htyc Hargs) as Href.
    pose proof Hargs as Hpos.
    destruct op; simpl in Hpos |- *;
      unfold InstallSession, RecordGap, ResolveGapThrough, RecordDeliveryStart, CommitMessage,
        CommitReadWatermark, MarkClean;
      try match goal with |- context [if ?b then _ else _] => replace b with false by lia end;
      match goal with |- context [update env ?s ?a ?f] =>
        destruct (update_outcome _ env path c file a f Hp Hc Hargs Href)
          as (c' & file' & err & E & Hout);
        destruct (update env s a f) as [[sys' err'] a']; simpl in E; simplify_eq;
        by eexists _, _, _
      end.
  - exists c, file, (Some ErrInvalidCursor). split; [|by apply Rejected].
    destruct op; simpl in Hargs |- *;
      unfold RecordGap, ResolveGapThrough, RecordDeliveryStart, CommitMessage, CommitReadWatermark;
      try (match goal with |- context [if ?b then _ else _] => replace b with true by lia end; done).
    + pose proof (install_rejects (Clone c) token lbk observed deleted replace Hargs) as Hrej.
      simpl in Hrej. unfold InstallSession, update; simpl.
      destruct (String.eqb_spec path ""); [done|]. by rewrite Hrej.
    + done.
Qed.

Lemma run_closed env op file : fst (run env op (mkSys None file)) = mkSys None file.
Proof.
  destruct op; simpl; unfold RecordGap, ResolveGapThrough, RecordDeliveryStart,
    CommitMessage, CommitReadWatermark; try done; by destruct (_ || _).
Qed.

(** ** Reads as lookups in the journal *)

Section Reads.
Context (c : Checkpoint).
Hypothesis Hc : wf c.

Lemma CommittedMax_abs id : CommittedMax c id = peek (j_commits (abs c)) id.
Proof.
  unfold CommittedMax, peek. cbn [abs j_commits].
  rewrite (slice_map_read _ _ (wf_chats _ Hc) ChatCursor_MaxLogID (fun m => m) 0 id).
  by destruct (_ !! _).
Qed.

Lemma FirstDeliveryStart_abs id : FirstDeliveryStart c id = peek (j_starts (abs c)) id.
Proof.
  unfold FirstDeliveryStart, peek. cbn [abs j_starts].
  rewrite (slice_map_read _ _ (wf_starts _ Hc) DeliveryStart_FirstLogID (fun m => m) 0 id).
  by destruct (_ !! _).
Qed.

Lemma HasGapThrough_abs id log :
  HasGapThrough c id log =
  match j_gaps (abs c) !! id with Some (f, _) => f <=? log | None => false end.
Proof.
  unfold HasGapThrough. cbn [abs j_gaps].
  pose proof (slice_map_read _ _ (wf_gaps _ Hc) gap_range (fun r => fst r <=? log) false id) as E.
  transitivity (match slice_map gap_range (cp_HistoryGaps c) !! id with
                | Some r => fst r <=? log | None => false end); [|by destruct (_ !! _) as [[? ?]|]].
  rewrite <- E. by destruct (searchChat _ _) as [i [|]].
Qed.

Lemma IsCommitted_abs path id log :
  IsCommitted (Some (mkStore path c)) id log = (0 <? id) && (0 <? log) && (log <=? peek (j_commits (abs c)) id).
Proof.
  unfold IsCommitted, peek. cbn [store_data abs j_commits].
  pose proof (slice_map_read _ _ (wf_chats _ Hc) ChatCursor_MaxLogID (fun m => log <=? m) false id) as E.
  destruct (_ || _) eqn:Ep; [lia|].
  transitivity (match slice_map ChatCursor_MaxLogID (cp_Chats c) !! id with
                | Some m => log <=? m | None => false end).
  - rewrite <- E. by destruct (searchChat _ _) as [i [|]].
  - destruct (_ !! _); simpl; lia.
Qed.

Lemma ReadWatermark_abs path id :
  ReadWatermark (Some (mkStore path c)) id = peek (j_reads (abs c)) id.
Proof.
  unfold ReadWatermark, peek. cbn [store_data abs j_reads].
  pose proof (slice_map_read _ _ (wf_reads _ Hc) ReadWatermark_Watermark (fun m => m) 0 id) as E.
  destruct (id <=? 0) eqn:Ep.
  - bool_prop. destruct (slice_map _ _ !! id) eqn:E2; [|done].
    apply (slice_map_pos _ _ (wf_reads _ Hc)) in E2. lia.
  - transitivity (match slice_map ReadWatermark_Watermark (cp_ReadWatermarks c) !! id with
                  | Some m => m | None => 0 end); [|by destruct (_ !! _)].
    rewrite <- E. by destruct (searchChat _ _) as [i [|]].
Qed.
End Reads.

(** ** Migration of a current checkpoint *)

Lemma migrate_current c : wf c -> migrate c = Ok (c, false).
Proof.
  intros Hc. pose proof (proj2 (validate_wf c) Hc) as Hv.
  unfold migrate. rewrite (wf_version _ Hc).
  change (Version =? Version) with true. change (Version =? 5) with false.
  cbn [negb andb]. cbv beta iota. rewrite (wf_version _ Hc).
  change (Version =? unprovenReadVersion) with false. cbv beta iota. rewrite (wf_version _ Hc).
  change ((Version =? oldestVersion) || (Version =? previousVersion)) with false. cbv beta iota.
  by rewrite Hv.
Qed.

Lemma wire_wf c : wf c -> wf (PrivateJson.json_wire c).
Proof.
  intros [? ? ? ? Hs ? ? ? ?]. constructor; simpl; auto.
  destruct (cp_DeliveryStarts c) as [[|x l]|]; done.
Qed.

Lemma wire_abs c : abs (PrivateJson.json_wire c) = abs c.
Proof. unfold abs; simpl. by destruct (cp_DeliveryStarts c) as [[|x l]|]. Qed.

Lemma migrate_wf d d' m : migrate d = Ok (d', m) -> wf d'.
Proof.
  unfold migrate. intros E.
  repeat (split_test_in E; try done); simplify_eq; by apply validate_wf.
Qed.

Lemma migrate_gaps d d' m : migrate d = Ok (d', m) -> gaps_int64 d -> gaps_int64 d'.
Proof.
  unfold migrate, gaps_int64. intros E Hd.
  repeat (split_test_in E; try done; simplify_eq/=); try done; by constructor.
Qed.

(** ** Runs of the process

    One process at a time holds the store; it opens the file, performs
    operations, and stops at any point, losing its memory. *)

Definition initialJournal : Journal := mkJournal 0 0 true ∅ ∅ ∅ ∅ ∅.

Lemma abs_initial : abs initialCheckpoint = initialJournal.
Proof. reflexivity. Qed.

Lemma initial_wf : wf initialCheckpoint.
Proof. by apply validate_wf. Qed.

(** What an interrupted [WriteInitial] can leave behind: a prefix of the
    encoding is not a JSON document unless it is all of it. *)
Definition partial_ok (env : PrivateJson.InitialEnv Checkpoint) : Prop :=
  PrivateJson.i_partial env = [] \/ PrivateJson.i_partial env = [PrivateJson.Junk 0] \/
  PrivateJson.i_partial env = PrivateJson.encoded initialCheckpoint.

Section Process.
Context (IsAbs : string -> bool) (Clean : string -> string) (path : string).

Definition opened (r : res Error Store) : option Store :=
  match r with Ok s => Some s | Err _ => None end.

Inductive step (allowed : Op -> Prop) : Sys -> Sys -> Prop :=
| step_open env file file' r :
    partial_ok (o_initial env) ->
    Open IsAbs Clean env path file = (file', r) ->
    step allowed (mkSys None file) (mkSys (opened r) file')
| step_op env op sys :
    op_int64 op -> allowed op -> step allowed sys (fst (run env op sys))
| step_crash sys : step allowed sys (mkSys None (sys_file sys)).

Definition steps (allowed : Op -> Prop) : Sys -> Sys -> Prop := rtc (step allowed).

Definition anyOp (op : Op) : Prop := True.

(** Reachable from a profile whose file is [file]. *)
Definition reachable (file : PrivateJson.File Checkpoint) (sys : Sys) : Prop :=
  steps anyOp (mkSys None file) sys.

(** *** A property of the journal, of memory and of every document on disk *)

Section Invariant.
Context (Q : Journal -> Prop).

(** Whatever the file reads as has the property once migrated; a missing file
    will be created with the initial checkpoint. *)
Definition file_ok (f : PrivateJson.File Checkpoint) : Prop :=
  (f = PrivateJson.Missing -> Q initialJournal) /\
  forall renv v, PrivateJson.Read renv f = Ok (Some v) ->
    gaps_int64 v /\ forall d m, migrate v = Ok (d, m) -> Q (abs d).

Definition store_ok (s : option Store) : Prop :=
  match s with
  | None => True
  | Some st => wf (store_data st) /\ gaps_int64 (store_data st) /\ Q (abs (store_data st))
               /\ store_path st = Clean path
  end.

Definition sys_ok (sys : Sys) : Prop := store_ok (sys_store sys) /\ file_ok (sys_file sys).

Lemma missing_ok : Q initialJournal -> file_ok PrivateJson.Missing.
Proof. intros HQ. split; [done|]. intros renv v E. by destruct renv as [[] []]. Qed.

Lemma encoded_ok mode c : wf c -> gaps_int64 c -> Q (abs c) ->
  file_ok (PrivateJson.Present mode (PrivateJson.encoded c)).
Proof.
  intros Hc Hg HQ. split; [done|]. intros renv v E.
  apply PrivateJson.Read_encoded_inv in E as ->. split; [done|]. intros d m Em.
  rewrite migrate_current in Em by by apply wire_wf.
  injection Em as <- <-. change (Q (abs (PrivateJson.json_wire c))). by rewrite wire_abs.
Qed.

Lemma atomic_ok env f c file' e : file_ok f -> wf c -> gaps_int64 c -> Q (abs c) ->
  PrivateJson.WriteAtomic env f c = (file', e) -> file_ok file'.
Proof.
  intros Hf Hc Hg HQ E. pose proof (PrivateJson.WriteAtomic_atomic env f c) as [H|H];
    rewrite E in H; simpl in H; subst; [done|]. by apply encoded_ok.
Qed.

(** Opening keeps the property when the file has it. *)
Lemma Open_ok env file file' r :
  partial_ok (o_initial env) -> file_ok file ->
  Open IsAbs Clean env path file = (file', r) ->
  store_ok (opened r) /\ file_ok file'.
Proof.
  intros Hpart Hf. unfold Open. intros E.
  destruct (_ || _); [by simplify_eq|].
  destruct (translate _); [by simplify_eq|].
  destruct (PrivateJson.Read _ file) as [[v|]|e] eqn:Er; [| |by simplify_eq].
  - destruct (proj2 Hf _ _ Er) as [Hg HQ].
    destruct (migrate v) as [[d m]|e] eqn:Em; [|by simplify_eq].
    pose proof (migrate_wf _ _ _ Em) as Hwf. pose proof (migrate_gaps _ _ _ Em Hg) as Hgd.
    specialize (HQ _ _ eq_refl). destruct m; [|by simplify_eq].
    destruct (PrivateJson.WriteAtomic _ _ _) as [f e] eqn:Ew.
    apply atomic_ok in Ew; [|done..].
    by destruct (translate e); simplify_eq.
  - assert (file = PrivateJson.Missing) as ->.
    { by eapply PrivateJson.Read_missing. }
    destruct (PrivateJson.WriteInitial _ _ _) as [f e] eqn:Ew.
    assert (Hf' : file_ok f).
    { pose proof (proj1 Hf eq_refl) as HQ. assert (Hinit : forall mode, file_ok (PrivateJson.Present mode
        (PrivateJson.encoded initialCheckpoint))).
      { intros mode. apply encoded_ok; [apply initial_wf | by constructor | done]. }
      assert (Hp : forall mode, file_ok (PrivateJson.Present mode (PrivateJson.i_partial (o_initial env)))).
      { intros mode. destruct Hpart as [->|[->| ->]]; [..|done]; (split; [done|]);
        intros renv v Hv; exfalso; revert Hv; apply PrivateJson.Read_nothing; auto. }
      unfold PrivateJson.WriteInitial in Ew.
      repeat (split_test_in Ew; try done; simplify_eq); repeat case_match; eauto. }
    destruct (translate e); simplify_eq; [done|]. split; [|done].
    split_and!; [apply initial_wf | exact (Forall_nil_2 _) | exact (proj1 Hf eq_refl) | done].
Qed.

Context (allowed : Op -> Prop).
Hypothesis Hspec : forall op j, allowed op -> args_ok op = true -> Q j -> Q (spec op j).
Hypothesis Hpath : Clean path <> ""%string.

Lemma op_ok env op sys : op_int64 op -> allowed op -> sys_ok sys ->
  sys_ok (fst (run env op sys)).
Proof.
  intros Hint Hall [Hs Hf]. destruct sys as [[[p c]|] file]; simpl in *.
  - destruct Hs as (Hc & Hg & HQ & ->).
    destruct (run_outcome env op (Clean path) c file Hpath Hc Hg)
      as (c' & file' & err & Erun & Hout).
    unfold sysOf in Erun. rewrite Erun. simpl.
    assert (Hnext : forall n, args_ok op = true -> wf n -> abs n = spec op (abs c) ->
              gaps_int64 n /\ Q (abs n)).
    { intros n Ha Hn E. split; [|rewrite E; auto].
      apply gaps_int64_iff; [done|]. rewrite E.
      apply spec_gaps_bound, gaps_int64_iff; done. }
    destruct Hout as [|Ha _ E|env' n e f' Ha Hn E Ew|n Ha Hn E]; try done;
      destruct (Hnext n Ha Hn E); split; simpl; try done.
    + eapply (atomic_ok env' file n); eauto.
    + by apply (encoded_ok PrivateJson.privateFile n).
  - by rewrite run_closed.
Qed.

Lemma steps_ok sys sys' : steps allowed sys sys' -> sys_ok sys -> sys_ok sys'.
Proof.
  induction 1 as [|a b c Hstep _ IH]; [done|]. intros Hok. apply IH.
  destruct Hstep as [env file file' r Hp HO | env op s Hi Ha | s].
  - destruct Hok as [_ Hf]. by destruct (Open_ok _ _ _ _ Hp Hf HO).
  - by apply op_ok.
  - by destruct Hok.
Qed.
End Invariant.
End Process.
