(* ===== verification/ContinuityTheorems.v ===== *)
(** * Theorems about the continuity store

    What the rest of the program relies on: committed positions, read
    acknowledgements and recorded gaps survive failed writes and crashes;
    every operation refines its abstract effect; migration and opening only
    ever produce valid checkpoints. *)

From S2P Require Import Prelude.
From S2P Require Import Continuity SortedSlices ContinuitySpec ContinuityProps.
From S2P Require PrivateJson.

(** ** Shared hypotheses and helpers *)

(** The [int64] bounds [encoding/json] enforces on every document it decodes. *)
Definition typed_file (f : PrivateJson.File Checkpoint) : Prop := file_ok (fun _ => True) f.

Section Helpers.
Context (IsAbs : string -> bool) (Clean : string -> string) (path : string).
Hypothesis Hpath : Clean path <> ""%string.

Lemma reachable_ok file s : typed_file file -> reachable IsAbs Clean path file s ->
  sys_ok Clean path (fun _ => True) s.
Proof. intros Hf Hr. eapply steps_ok; [| |exact Hr|]; done. Qed.

(** A successful operation other than a live admission was written. *)
Lemma written_state file s env op s1 :
  typed_file file -> reachable IsAbs Clean path file s -> op_int64 op ->
  is_delivery op = false -> run env op s = (s1, None) ->
  exists c0 c, sys_store s = Some (mkStore (Clean path) c0) /\
    s1 = sysOf (Clean path) c (PrivateJson.Present PrivateJson.privateFile (PrivateJson.encoded c)) /\
    wf c0 /\ wf c /\ gaps_int64 c /\ args_ok op = true /\ abs c = spec op (abs c0).
Proof.
  intros Hf Hr Hint Hd E. pose proof (reachable_ok _ _ Hf Hr) as [Hs Hfile].
  destruct s as [[[p c]|] f]; simpl in *.
  - destruct Hs as (Hc & Hg & _ & ->).
    destruct (run_outcome env op (Clean path) c f Hpath Hc Hg) as (c' & file' & err & Erun & Hout).
    unfold sysOf in Erun. rewrite E in Erun. injection Erun as -> <-.
    remember None as err. destruct Hout as [|Ha Hdel _|env' n e f' Ha Hn Habs Ew|n Ha Hn Habs];
      [done | by rewrite Hd in Hdel | by destruct e |].
    eexists _, _. split_and!; try done.
    apply gaps_int64_iff; [done|]. rewrite Habs.
    apply spec_gaps_bound, gaps_int64_iff; done.
  - by destruct op; simpl in E; unfold RecordGap, ResolveGapThrough, RecordDeliveryStart,
      CommitMessage, CommitReadWatermark in E; repeat case_match; simplify_eq.
Qed.

(** A journal property that a successful operation establishes and that the
    allowed operations keep holds in every store opened later. *)
Lemma established file s env op s1 s2 st (Q : Journal -> Prop) (allowed : Op -> Prop) :
  typed_file file -> reachable IsAbs Clean path file s -> op_int64 op ->
  is_delivery op = false -> run env op s = (s1, None) ->
  (forall j, args_ok op = true -> Q (spec op j)) ->
  (forall op j, allowed op -> args_ok op = true -> Q j -> Q (spec op j)) ->
  steps IsAbs Clean path allowed s1 s2 -> sys_store s2 = Some st ->
  args_ok op = true /\ wf (store_data st) /\ Q (abs (store_data st)).
Proof.
  intros Hf Hr Hint Hd E Hnew Hkeep Hsteps Hst.
  destruct (written_state _ _ _ _ _ Hf Hr Hint Hd E) as (c0 & c & _ & -> & _ & Hc & Hg & Ha & Habs).
  assert (Hok : sys_ok Clean path Q s2).
  { eapply steps_ok; eauto. split; simpl.
    - split_and!; try done. rewrite Habs. auto.
    - apply (encoded_ok Q PrivateJson.privateFile); try done. rewrite Habs. auto. }
  destruct Hok as [Hs _]. rewrite Hst in Hs. simpl in Hs. tauto.
Qed.
End Helpers.

(** An operation that does not delete chat [id]. *)
Definition keeps (id : Z) (op : Op) : Prop :=
  match op with OpInstall _ _ _ deleted _ => id ∉ deleted | _ => True end.

Lemma forget_other {A} (f : Journal -> gmap Z A) id l : 
  (forall j k, f (spec_forget j k) = delete k (f j)) -> id ∉ l ->
  forall j, f (foldl spec_forget j l) !! id = f j !! id.
Proof.
  intros Hf. induction l as [|k l IH]; intros Hn j; [done|]. simpl.
  rewrite IH by set_solver. rewrite Hf. apply lookup_delete_ne. set_solver.
Qed.

Lemma keeps_commits id op j : keeps id op ->
  peek (j_commits j) id <= peek (j_commits (spec op j)) id.
Proof.
  intros Hk. destruct op; simpl in *; try done.
  - unfold peek. rewrite (forget_other j_commits) by done. done.
  - by destruct (j_commits j !! id0).
  - unfold raise, peek. destruct (decide (id0 = id)) as [->|].
    + rewrite lookup_insert_eq. simpl. lia.
    + by rewrite lookup_insert_ne.
Qed.

Lemma keeps_reads id op j : keeps id op ->
  peek (j_reads j) id <= peek (j_reads (spec op j)) id.
Proof.
  intros Hk. destruct op; simpl in *; try done.
  - unfold peek. rewrite (forget_other j_reads) by done. done.
  - by destruct (j_commits j !! id0).
  - unfold raise, peek. destruct (decide (id0 = id)) as [->|].
    + rewrite lookup_insert_eq. simpl. lia.
    + by rewrite lookup_insert_ne.
Qed.

(** The journal's gap of chat [id] covers position [log]. *)
Definition covered (j : Journal) (id log : Z) : Prop :=
  exists f t, j_gaps j !! id = Some (f, t) /\ f <= log <= t.

(** An operation that neither deletes chat [id] nor resolves position [log]. *)
Definition leaves (id log : Z) (op : Op) : Prop :=
  match op with
  | OpInstall _ _ _ deleted _ => id ∉ deleted
  | OpResolveGap id' log' => id' = id -> log' < log
  | _ => True
  end.

Lemma leaves_gap id log op j : leaves id log op -> covered j id log -> covered (spec op j) id log.
Proof.
  intros Hl (f & t & E & Hft). unfold covered. destruct op; simpl in *; eauto.
  - rewrite (forget_other j_gaps) by done. eauto.
  - destruct (decide (id0 = id)) as [->|].
    + rewrite E, lookup_insert_eq. eexists _, _. split; [done|]. lia.
    + rewrite lookup_insert_ne by done. eauto.
  - destruct (decide (id0 = id)) as [->|].
    + specialize (Hl eq_refl). rewrite E. repeat split_test; bool_prop; try lia; eauto.
      rewrite lookup_insert_eq. eexists _, _. split; [done|]. lia.
    + destruct (j_gaps j !! id0) as [[f0 t0]|]; eauto.
      repeat split_test; eauto; rewrite ?lookup_delete_ne, ?lookup_insert_ne by done; eauto.
  - destruct (j_commits j !! id0); eauto.
Qed.

(** A gap of the checkpoint covers position [log] of chat [id]. *)
Definition gapCovers (c : Checkpoint) (id log : Z) : Prop :=
  exists g, g ∈ els (cp_HistoryGaps c) /\ HistoryGap_ChatID g = id /\
    HistoryGap_FromLogID g <= log <= HistoryGap_ToLogID g.

Lemma gapCovers_abs c id log : wf c -> gapCovers c id log <-> covered (abs c) id log.
Proof.
  intros Hc. unfold gapCovers, covered. simpl. rewrite slice_map_lookup. split.
  - intros (g & Hg & <- & Hl). apply list_elem_of_split in Hg as (pre & post & E).
    pose proof (proj1 (wf_gaps _ Hc)) as Ha. rewrite E in *.
    eexists _, _. split; [|exact Hl]. apply fmap_Some. exists g. split; [|done].
    by eapply to_map_found_ascending.
  - intros (f & t & (g & Hg & Ef)%fmap_Some & Hl). unfold gap_range in Ef. simplify_eq.
    apply to_map_elem in Hg as [Hg Hid]. by exists g.
Qed.

(** The variable a closure captures keeps the value the closure gave it. *)
Lemma update_captured {A} env path c file (a : A) f : path <> ""%string ->
  snd (update env (mkSys (Some (mkStore path c)) file) a f) = snd (f (Clone c)).
Proof.
  intros Hp. unfold update. cbn [sys_store store_path store_data].
  destruct (String.eqb_spec path ""); [done|].
  destruct (f (Clone c)) as [r a']. repeat (split_test; try done).
Qed.

(** ** A concrete profile, for the witnesses *)

Definition everyPath (p : string) : bool := true.
Definition samePath (p : string) : string := p.
Definition openOk : OpenEnv :=
  mkOpenEnv (PrivateJson.LstatInfo PrivateJson.privateDir) PrivateJson.readOk
    PrivateJson.initialOk PrivateJson.writeOk.
Definition freshSys : Sys := snd (
  let '(file, r) := Open everyPath samePath openOk "/p" PrivateJson.Missing in
  (tt, mkSys (opened r) file)).

Lemma fresh_reachable : reachable everyPath samePath "/p" PrivateJson.Missing freshSys.
Proof.
  apply rtc_once. apply (step_open _ _ _ _ openOk PrivateJson.Missing _
    (snd (Open everyPath samePath openOk "/p" PrivateJson.Missing))).
  - by left.
  - reflexivity.
Qed.

Lemma fresh_typed : typed_file PrivateJson.Missing.
Proof. by apply missing_ok. Qed.

(** ** Theorems *)

Section Theorems.
Context (IsAbs : string -> bool) (Clean : string -> string) (path : string).
Hypothesis Hpath : Clean path <> ""%string.
Context (file : PrivateJson.File Checkpoint).
Hypothesis Hfile : typed_file file.

Lemma run_CommitMessage env s id log s1 adv err :
  CommitMessage env s id log = (s1, adv, err) -> run env (OpCommit id log) s = (s1, err).
Proof. intros E. simpl. by rewrite E. Qed.

Lemma run_CommitReadWatermark env s id mark s1 adv err :
  CommitReadWatermark env s id mark = (s1, adv, err) -> run env (OpCommitRead id mark) s = (s1, err).
Proof. intros E. simpl. by rewrite E. Qed.

(** C8: once [CommitMessage] has returned nil, every store this profile opens
    later reports the message as committed, whatever operations succeed or
    fail at any system call, and wherever the process crashes and reopens,
    until an installed session deletes the chat. *)
Theorem commit_survives s env id log s1 adv s2 st :
  reachable IsAbs Clean path file s -> int64 id -> int64 log ->
  CommitMessage env s id log = (s1, adv, None) ->
  steps IsAbs Clean path (keeps id) s1 s2 -> sys_store s2 = Some st ->
  IsCommitted (Some st) id log = true.
Proof.
  intros Hr Hid Hlog E%run_CommitMessage Hs Hst.
  destruct (established IsAbs Clean path Hpath file s env (OpCommit id log) s1 s2 st
    (fun j => log <= peek (j_commits j) id) (keeps id) Hfile Hr) as (Ha & Hwf & HQ);
    try done.
  - intros j _. simpl. unfold peek, raise. rewrite lookup_insert_eq. simpl. lia.
  - intros op j Hk _ Hj. pose proof (keeps_commits id op j Hk). lia.
  - destruct st as [p c]. simpl in Ha, Hwf, HQ. rewrite IsCommitted_abs by done.
    rewrite Ha. simpl. by apply Z.leb_le.
Qed.

(** Once [CommitReadWatermark] has returned nil, every store opened later
    reports at least that watermark, until an installed session deletes the
    chat. *)
Theorem read_watermark_survives s env id mark s1 adv s2 st :
  reachable IsAbs Clean path file s -> int64 id -> int64 mark ->
  CommitReadWatermark env s id mark = (s1, adv, None) ->
  steps IsAbs Clean path (keeps id) s1 s2 -> sys_store s2 = Some st ->
  mark <= ReadWatermark (Some st) id.
Proof.
  intros Hr Hid Hmark E%run_CommitReadWatermark Hs Hst.
  destruct (established IsAbs Clean path Hpath file s env (OpCommitRead id mark) s1 s2 st
    (fun j => mark <= peek (j_reads j) id) (keeps id) Hfile Hr) as (Ha & Hwf & HQ);
    try done.
  - intros j _. simpl. unfold peek, raise. rewrite lookup_insert_eq. simpl. lia.
  - intros op j Hk _ Hj. pose proof (keeps_reads id op j Hk). lia.
  - destruct st as [p c]. simpl in Hwf, HQ. by rewrite ReadWatermark_abs.
Qed.

(** Once [RecordGap] has returned nil, every position of the interval
    stays covered by a recorded gap in every store opened later, until it is
    resolved through that position or the chat is deleted. *)
Theorem gap_survives s env id from to log s1 s2 st :
  reachable IsAbs Clean path file s -> int64 id -> int64 from -> int64 to ->
  RecordGap env s id from to = (s1, None) -> from <= log <= to ->
  steps IsAbs Clean path (leaves id log) s1 s2 -> sys_store s2 = Some st ->
  gapCovers (store_data st) id log.
Proof.
  intros Hr Hid Hfrom Hto E Hlog Hs Hst.
  destruct (established IsAbs Clean path Hpath file s env (OpRecordGap id from to) s1 s2 st
    (fun j => covered j id log) (leaves id log) Hfile Hr) as (Ha & Hwf & HQ);
    try done.
  - intros j _. unfold covered. simpl. rewrite lookup_insert_eq.
    destruct (j_gaps j !! id) as [[f t]|]; eexists _, _; (split; [done|]; lia).
  - intros op j Hk _. by apply leaves_gap.
  - by apply gapCovers_abs.
Qed.

(** C12: an operation on a reachable store either fails, leaving memory
    unchanged and the file either unchanged or holding the whole new
    checkpoint, or succeeds with memory that is valid and has exactly the
    abstract effect of the operation, and a file holding that memory (a live
    admission that changes nothing skips the write). *)
Theorem operation_refines s env op st s1 err :
  reachable IsAbs Clean path file s -> op_int64 op -> sys_store s = Some st ->
  run env op s = (s1, err) ->
  match err with
  | Some _ =>
      sys_store s1 = sys_store s /\
      (sys_file s1 = sys_file s \/
       exists next, validate next = None /\ abs next = spec op (abs (store_data st)) /\
         sys_file s1 = PrivateJson.Present PrivateJson.privateFile (PrivateJson.encoded next))
  | None =>
      exists st1, sys_store s1 = Some st1 /\ validate (store_data st1) = None /\
        abs (store_data st1) = spec op (abs (store_data st)) /\
        (s1 = s /\ is_delivery op = true \/
         sys_file s1 = PrivateJson.Present PrivateJson.privateFile
                         (PrivateJson.encoded (store_data st1)))
  end.
Proof.
  intros Hr Hint Hst E. pose proof (reachable_ok _ _ _ Hpath _ _ Hfile Hr) as [Hs _].
  destruct s as [so f]. simpl in Hst. subst so. destruct st as [p c]. simpl in *.
  destruct Hs as (Hc & Hg & _ & ->).
  destruct (run_outcome env op (Clean path) c f Hpath Hc Hg) as (c' & file' & err' & Erun & Hout).
  unfold sysOf in Erun. rewrite E in Erun. injection Erun as -> ->.
  destruct Hout as [|Ha Hd Hsp|env' n e f' Ha Hn Habs Ew|n Ha Hn Habs]; simpl.
  - by split; [|left].
  - eexists. split_and!; [done | by apply validate_wf | done | by left].
  - destruct (PrivateJson.WriteAtomic_atomic env' f n) as [H|H]; rewrite Ew in H; simpl in H; subst f';
      destruct e; (split; [done|]); first [by left | right; exists n; by rewrite validate_wf].
  - eexists. split_and!; [done | by apply validate_wf | done | by right].
Qed.

(** [CommitMessage] with non-positive IDs changes nothing and reports
    [ErrInvalidCursor]; otherwise it reports [advanced] exactly when the
    message was not yet committed, and on success the committed position of
    the chat is the larger of the old one and the message, every other chat's
    being unchanged. *)
Theorem CommitMessage_result s env id log st s1 adv err :
  reachable IsAbs Clean path file s -> int64 id -> int64 log -> sys_store s = Some st ->
  CommitMessage env s id log = (s1, adv, err) ->
  if (id <=? 0) || (log <=? 0) then s1 = s /\ adv = false /\ err = Some ErrInvalidCursor
  else adv = negb (IsCommitted (Some st) id log) /\
    (err = None -> exists st1, sys_store s1 = Some st1 /\ forall id',
      CommittedMax (store_data st1) id' =
        if id' =? id then Z.max log (CommittedMax (store_data st) id)
        else CommittedMax (store_data st) id').
Proof.
  intros Hr Hid Hlog Hst E. pose proof (run_CommitMessage _ _ _ _ _ _ _ E) as Erun.
  unfold CommitMessage in E. destruct (_ || _) eqn:Ep; [by simplify_eq|].
  destruct (reachable_ok _ _ _ Hpath _ _ Hfile Hr) as [Hs _].
  destruct s as [so f]. simpl in Hst. subst so. destruct st as [p c].
  destruct Hs as (Hc & Hg & _ & Hpp). simpl in Hc, Hg, Hpp. split.
  - rewrite IsCommitted_abs by done.
    pose proof (update_captured env p c f false (changeCommitMessage id log)) as Hadv.
    destruct (update _ _ _ _) as [[s' err'] a]. injection E as -> -> ->.
    cbn [snd] in Hadv. rewrite Hadv, commit_advanced, Clone_abs
      by (rewrite ?Hpp; auto using Clone_wf; lia). lia.
  - intros ->. destruct (written_state _ _ _ Hpath _ _ env (OpCommit id log) s1 Hfile Hr)
      as (c0 & c1 & Hst & -> & _ & Hc1 & _ & _ & Habs); [done..|].
    simpl in Hst. simplify_eq. eexists. split; [done|]. intros id'. simpl.
    rewrite !CommittedMax_abs, Habs by done. simpl. unfold raise, peek.
    destruct (id' =? id) eqn:Ei; bool_prop.
    + subst. by rewrite lookup_insert_eq.
    + by rewrite lookup_insert_ne.
Qed.

(** The positional arrays sent with LOGINLIST list every committed chat
    exactly once, in increasing chat order, each with its committed
    position. *)
Theorem LoginCursors_exact s st :
  reachable IsAbs Clean path file s -> sys_store s = Some st ->
  let '(ids, maxs) := LoginCursors (Snapshot (Some st)) in
  length ids = length maxs /\ StronglySorted Z.lt ids /\
  forall id m, (exists i, ids !! i = Some id /\ maxs !! i = Some m) <->
    (CommittedMax (store_data st) id = m /\ 0 < m).
Proof.
  intros Hr Hst. destruct (reachable_ok _ _ _ Hpath _ _ Hfile Hr) as [Hs _].
  rewrite Hst in Hs. destruct Hs as (Hc & _). destruct st as [p c]. simpl in *.
  destruct (wf_chats _ Hc) as [Ha Hall]. split_and!.
  - by rewrite !length_fmap.
  - by eapply ascending_sorted.
  - intros id m. rewrite CommittedMax_abs by done. unfold peek. simpl. rewrite slice_map_lookup.
    split.
    + intros (i & Hi & Hm). rewrite list_lookup_fmap in Hi, Hm.
      destruct (els (cp_Chats c) !! i) as [x|] eqn:Ex; simplify_eq/=.
      change (ChatCursor_ChatID x) with (chatID x). erewrite to_map_lookup_elem by
        (done || by eapply list_elem_of_lookup_2). simpl. split; [done|].
      eapply Forall_lookup_1 in Hall; [|done]. done.
    + destruct (to_map _ !! id) as [x|] eqn:Ex; simpl; intros [Hm Hpos]; [|lia].
      apply to_map_elem in Ex as [Hx Hid]. apply list_elem_of_lookup in Hx as [i Hi].
      exists i. rewrite !list_lookup_fmap, Hi. simpl. by subst.
Qed.

(** A successful [ResolveGapThrough] removes exactly the positions at or
    below the recovered one from the chat's gap, and nothing from any other
    chat's. *)
Theorem ResolveGapThrough_coverage s env id log st s1 st1 :
  reachable IsAbs Clean path file s -> int64 id -> int64 log -> sys_store s = Some st ->
  ResolveGapThrough env s id log = (s1, None) -> sys_store s1 = Some st1 ->
  forall id' l, gapCovers (store_data st1) id' l <->
    gapCovers (store_data st) id' l /\ (id' = id -> log < l).
Proof.
  intros Hr Hid Hlog Hst E Hst1 id' l.
  destruct (written_state _ _ _ Hpath _ _ env (OpResolveGap id log) s1 Hfile Hr)
    as (c0 & c1 & Hst0 & -> & Hc0 & Hc1 & _ & Hargs & Habs); [done..|].
  rewrite Hst0 in Hst. simplify_eq/=. rewrite !gapCovers_abs, Habs by done.
  unfold covered. simpl. destruct (decide (id' = id)) as [->|Hne].
  - assert (Hval : forall f t, slice_map gap_range (cp_HistoryGaps c0) !! id = Some (f, t) -> 0 < f <= t).
    { intros f t Eg. apply (slice_map_Forall _ _ (wf_gaps _ Hc0) gap_range
        (fun r => 0 < fst r <= snd r)) in Eg; done. }
    destruct (slice_map gap_range _ !! id) as [[f t]|] eqn:Eg; 
      [|rewrite Eg; split; [intros (? & ? & ? & ?) | intros [(? & ? & ? & ?) _]]; done].
    specialize (Hval _ _ eq_refl).
    destruct (log <? f) eqn:E1; [|destruct (t <=? log) eqn:E2]; bool_prop;
      rewrite ?lookup_delete_eq, ?lookup_insert_eq, ?Eg.
    + split; [intros (? & ? & ? & ?) | intros [(? & ? & ? & ?) _]]; simplify_eq; [|by eauto].
      split; [by eauto | intros; lia].
    + split; [intros (? & ? & ? & ?) | intros [(? & ? & ? & ?) Hl]]; simplify_eq.
      specialize (Hl eq_refl). lia.
    + split; [intros (? & ? & ? & ?) | intros [(? & ? & ? & ?) Hl]]; simplify_eq.
      * split; [eexists _, _; split; [done|]; lia | intros; lia].
      * specialize (Hl eq_refl). eexists _, _; split; [done|]; lia.
  - assert (Hsame : forall m : gmap Z (Z*Z), m !! id' = slice_map gap_range (cp_HistoryGaps c0) !! id' ->
      (exists f t, m !! id' = Some (f, t) /\ f <= l <= t) <->
      (exists f t, slice_map gap_range (cp_HistoryGaps c0) !! id' = Some (f, t) /\ f <= l <= t) /\
      (id' = id -> log < l)) by (intros m ->; split; [by intros HH | by intros [HH _]]).
    apply Hsame. repeat split_test; rewrite ?lookup_delete_ne, ?lookup_insert_ne by done; done.
Qed.
End Theorems.

(** The journal of a profile whose file never came from elsewhere: a live
    admission is only remembered for a chat with nothing committed, and the
    server is known to have every committed message. *)
Definition settled (j : Journal) : Prop :=
  (forall k, is_Some (j_starts j !! k) -> j_commits j !! k = None) /\
  (forall k m, j_commits j !! k = Some m -> 0 < m).

Definition coherent (j : Journal) : Prop :=
  settled j /\ forall k m, j_commits j !! k = Some m -> m <= peek (j_known j) k.

Lemma raise_lookup m k v k' :
  raise m k v !! k' = if decide (k = k') then Some (Z.max v (peek m k)) else m !! k'.
Proof.
  unfold raise. destruct (decide (k = k')) as [->|]; [apply lookup_insert_eq|].
  by apply lookup_insert_ne.
Qed.

Lemma raise_peek m k v k' :
  peek (raise m k v) k' = if decide (k = k') then Z.max v (peek m k) else peek m k'.
Proof. unfold peek at 1. rewrite raise_lookup. by destruct (decide _). Qed.

Lemma forget_settled l : forall j, settled j -> settled (foldl spec_forget j l).
Proof.
  induction l as [|k l IH]; intros j [Hs Hk]; [done|]. apply IH. split; simpl.
  - intros k'. destruct (decide (k = k')) as [->|]; [by rewrite !lookup_delete_eq|].
    rewrite !lookup_delete_ne by done. apply Hs.
  - intros k' m. intros [_ ?]%lookup_delete_Some. by eapply Hk.
Qed.

Lemma spec_coherent op j : args_ok op = true -> coherent j -> coherent (spec op j).
Proof.
  intros Ha [[Hs Hp] Hk]. destruct op; try by (split; [split|]).
  - simpl. unfold spec_install. set (j0 := mkJournal (default _ token) _ _ _ _ _ _ _).
    destruct (forget_settled deleted j0) as [Hs' Hp']; [exact (conj Hs Hp)|].
    split; [exact (conj Hs' Hp')|]. intros k m. cbn [j_commits j_known]. intros E.
    unfold peek. rewrite lookup_union_with, E. destruct (foldl _ (j_known _) _ !! k); simpl; lia.
  - simpl. destruct (j_commits j !! id) as [m|] eqn:E; [by split; [split|]|].
    split; [split|]; cbn [j_commits j_known j_starts]; [|done|].
    + intros k. destruct (decide (k = id)) as [->|]; [done|].
      rewrite lookup_insert_ne by done. apply Hs.
    + intros k m Hm. rewrite raise_peek. specialize (Hk k m Hm). destruct (decide _) as [->|]; lia.
  - simpl in *. bool_prop. split; [split|]; cbn [j_commits j_known j_starts].
    + intros k [? [? ?]%lookup_delete_Some]. rewrite raise_lookup, decide_False by done.
      apply Hs. by eexists.
    + intros k m. rewrite raise_lookup. destruct (decide _); [intros [= <-]; lia | apply Hp].
    + intros k m. rewrite raise_lookup.
      assert (Hid : peek (j_commits j) id <= 0 \/ peek (j_commits j) id <= peek (j_known j) id).
      { unfold peek at 1 2. destruct (j_commits j !! id) eqn:E; simpl; [|lia]. right. by apply Hk. }
      destruct (peek (j_commits j) id <? log) eqn:E; rewrite ?raise_peek; bool_prop;
        destruct (decide _) as [->|]; intros Hm; simplify_eq; try apply Hk in Hm; try lia.
Qed.

(** In a profile whose checkpoint this code created, a first live
    admission is remembered only for a chat with nothing committed, and the
    known target of a chat is never below its committed position. *)
Theorem fresh_profile_coherent IsAbs Clean path s st id :
  Clean path <> ""%string ->
  reachable IsAbs Clean path PrivateJson.Missing s -> sys_store s = Some st ->
  (FirstDeliveryStart (store_data st) id <> 0 -> CommittedMax (store_data st) id = 0) /\
  (CommittedMax (store_data st) id <> 0 ->
   exists t, t ∈ SyncTargets (store_data st) /\ ChatTarget_ChatID t = id /\
     CommittedMax (store_data st) id <= ChatTarget_MaxLogID t).
Proof.
  intros Hpath Hr Hst.
  assert (Hok : sys_ok Clean path coherent s).
  { eapply steps_ok; [| |exact Hr|]; [|done|].
    - intros op j _ Ha. by apply spec_coherent.
    - split; [done|]. apply missing_ok. split; [split|]; intros; by simplify_map_eq. }
  destruct Hok as [Hs _]. rewrite Hst in Hs. destruct Hs as (Hc & _ & [[Hs Hp] Hk] & _).
  destruct st as [p c]. simpl in Hc, Hs, Hp, Hk |- *.
  rewrite FirstDeliveryStart_abs, CommittedMax_abs by done. unfold peek. simpl. split.
  - destruct (slice_map DeliveryStart_FirstLogID _ !! id) eqn:E; [|done]. intros _.
    by rewrite (Hs id) by by eexists.
  - destruct (slice_map ChatCursor_MaxLogID _ !! id) as [m|] eqn:E; [|done]. intros _. simpl.
    specialize (Hk _ _ E). pose proof (Hp _ _ E). unfold peek in Hk.
    rewrite slice_map_lookup in Hk. destruct (to_map _ !! id) as [t|] eqn:Et; simpl in Hk; [|lia].
    apply to_map_elem in Et as [Ht Hid]. by exists t.
Qed.

(** [migrate] accepts a checkpoint of version 2 to 6 exactly as
    described by its version: the result is valid and at the current version,
    keeps the session cursors, the clean marker, the commits and the known
    chats, drops the read watermarks of versions 2 to 4 and the gaps of
    version 2, reports a migration exactly for the older versions, and
    migrating again changes nothing. *)
Theorem migrate_result data d m :
  migrate data = Ok (d, m) ->
  validate d = None /\ migrate d = Ok (d, false) /\
  m = negb (cp_Version data =? Version) /\ 2 <= cp_Version data <= 6 /\
  cp_LastTokenID d = cp_LastTokenID data /\ cp_LBK d = cp_LBK data /\
  cp_CleanShutdown d = cp_CleanShutdown data /\
  cp_Chats d = cp_Chats data /\ cp_KnownChats d = cp_KnownChats data /\
  cp_DeliveryStarts d = cp_DeliveryStarts data /\
  cp_ReadWatermarks d = (if cp_Version data <=? unprovenReadVersion then Some [] else cp_ReadWatermarks data) /\
  cp_HistoryGaps d = (if cp_Version data =? oldestVersion then Some [] else cp_HistoryGaps data).
Proof.
  intros E. pose proof (migrate_wf _ _ _ E) as Hwf.
  split; [by apply validate_wf|]. split; [by apply migrate_current|].
  assert (Hv : cp_Version d = Version) by apply Hwf.
  clear Hwf. revert Hv. destruct data as [v cl tok lbk chats known gaps reads starts].
  unfold migrate, Version, unprovenReadVersion, oldestVersion, previousVersion in *.
  cbn [cp_Version cp_DeliveryStarts cp_ReadWatermarks] in E. destruct (_ && _); [done|].
  destruct (v =? 5) eqn:E5; bool_prop.
  { subst v. simpl in E. destruct (validate _); [done|]. by simplify_eq. }
  cbn [cp_Version cp_DeliveryStarts cp_ReadWatermarks] in E.
  destruct (v =? 4) eqn:E4; bool_prop.
  { subst v. destruct (isNil _); [done|]. simpl in E. destruct (validate _); [done|]. by simplify_eq. }
  cbn [cp_Version] in E. destruct ((v =? 2) || (v =? 3)) eqn:E23.
  { apply orb_true_iff in E23 as [->%Z.eqb_eq| ->%Z.eqb_eq]; simpl in E;
      (destruct (_ || _); [done|]); (destruct (validate _); [done|]); by simplify_eq. }
  destruct (validate _); [done|]. simplify_eq/=. by intros ->.
Qed.

(** A checkpoint of an older version is accepted when it has no delivery
    starts, its read watermarks are present if its version is 4, and what is
    kept of it is valid at the current version. *)
Theorem migrate_accepts data :
  let kept := mkCheckpoint Version (cp_CleanShutdown data) (cp_LastTokenID data) (cp_LBK data)
    (cp_Chats data) (cp_KnownChats data)
    (if cp_Version data =? oldestVersion then Some [] else cp_HistoryGaps data)
    (if cp_Version data <=? unprovenReadVersion then Some [] else cp_ReadWatermarks data)
    (cp_DeliveryStarts data) in
  2 <= cp_Version data <= 5 -> els (cp_DeliveryStarts data) = [] ->
  (cp_Version data = unprovenReadVersion -> isNil (cp_ReadWatermarks data) = false) ->
  validate kept = None -> migrate data = Ok (kept, true).
Proof.
  intros kept Hver Hstarts Hreads Hkept. pose proof (proj1 (validate_wf _) Hkept) as Hwf.
  destruct data as [v cl tok lbk chats known gaps reads starts]. simpl in *.
  unfold migrate, kept in *; simpl in *. rewrite Hstarts. rewrite andb_false_r.
  assert (v = 2 \/ v = 3 \/ v = 4 \/ v = 5) as [->|[->|[->| ->]]] by lia; simpl in *.
  1,2: destruct Hwf as [_ Ht Hl Hn _ _ _ _ _]; simpl in Ht, Hl, Hn; destruct Hn as (-> & -> & _);
    replace (tok <? 0) with false by lia; replace (lbk <? 0) with false by lia; simpl;
    unfold set_Version, set_ReadWatermarks, set_HistoryGaps; simpl; by rewrite Hkept.
  - rewrite Hreads by done. unfold set_Version, set_ReadWatermarks; simpl. by rewrite Hkept.
  - unfold set_Version; simpl. by rewrite Hkept.
Qed.

Lemma count_ge {T} `{ChatKeyed T} l k :
  Forall (fun y => k < chatID y) l -> length (filter (fun x => chatID x < k) l) = 0%nat.
Proof.
  induction 1 as [|x l Hx _ IH]; [done|]. by rewrite filter_cons_False by lia.
Qed.

Lemma count_lt {T} `{ChatKeyed T} l k :
  Forall (fun y => chatID y < k) l -> length (filter (fun x => chatID x < k) l) = length l.
Proof.
  induction 1 as [|x l Hx _ IH]; [done|]. rewrite filter_cons_True by done. simpl. by rewrite IH.
Qed.

(** On a slice in ascending chat order the binary search returns what a
    linear scan would: the number of entries below the chat, and whether one
    has it. *)
Theorem searchChat_linear {T} `{ChatKeyed T} p (l : list T) k :
  ascending p l ->
  searchChat l k = (length (filter (fun x => chatID x < k) l), existsb (fun x => chatID x =? k) l).
Proof.
  intros Ha. destruct (searchChat_view p l k Ha) as [pre x post -> Hx Hpre Hpost | pre post -> Hpre Hpost].
  - rewrite filter_app, length_app, count_lt by done.
    rewrite filter_cons_False by lia. rewrite count_ge, Nat.add_0_r by done. f_equal.
    rewrite existsb_app. simpl. by rewrite Hx, Z.eqb_refl, orb_true_r.
  - rewrite filter_app, length_app, count_lt, count_ge, Nat.add_0_r by done. f_equal. symmetry.
    apply not_true_iff_false. intros (x & Hin & Hk)%existsb_exists.
    apply list_elem_of_In in Hin. bool_prop. apply elem_of_app in Hin as [Hin|Hin];
      eapply Forall_forall in Hin; eauto; simpl in Hin; lia.
Qed.

(** ** Witnesses *)

Definition noSync : PrivateJson.WriteEnv :=
  PrivateJson.mkWriteEnv (PrivateJson.LstatInfo PrivateJson.privateDir) true true
    (PrivateJson.mkEncodeEnv true false true) true true (PrivateJson.mkSyncDirEnv false true true).

(** Commit, fail to mark clean because [Sync] fails, crash, reopen. *)
Definition wCommitted : Sys := fst (fst (CommitMessage PrivateJson.writeOk freshSys 7 20)).
Definition reopen (s : Sys) : Sys :=
  let '(file, r) := Open everyPath samePath openOk "/p" (sys_file s) in mkSys (opened r) file.
Definition wRestarted : Sys := reopen (fst (MarkClean noSync wCommitted)).

Lemma reopen_steps allowed s s' : steps everyPath samePath "/p" allowed s s' ->
  steps everyPath samePath "/p" allowed s (reopen s').
Proof.
  intros H. eapply rtc_r; [eapply rtc_r; [exact H | apply step_crash]|].
  unfold reopen. destruct (Open _ _ _ _ (sys_file s')) as [file r] eqn:E.
  eapply step_open; [|exact E]. by left.
Qed.

Lemma op_steps (allowed : Op -> Prop) env op s : op_int64 op -> allowed op ->
  steps everyPath samePath "/p" allowed s (fst (run env op s)).
Proof. intros. apply rtc_once. by constructor. Qed.

Lemma commit_survives_witness :
  match sys_store wRestarted with
  | Some st => IsCommitted (Some st) 7 20 = true | None => False end.
Proof.
  refine (commit_survives everyPath samePath "/p" _ PrivateJson.Missing fresh_typed freshSys
    PrivateJson.writeOk 7 20 wCommitted true wRestarted _ fresh_reachable _ _ _ _ _).
  - discriminate.
  - done.
  - done.
  - vm_compute. reflexivity.
  - apply reopen_steps. by apply (op_steps _ noSync OpMarkClean).
  - vm_compute. reflexivity.
Defined.

Definition wMarked : Sys := fst (fst (CommitReadWatermark PrivateJson.writeOk freshSys 7 15)).

Lemma read_watermark_survives_witness :
  match sys_store (reopen wMarked) with
  | Some st => 15 <= ReadWatermark (Some st) 7 | None => False end.
Proof.
  refine (read_watermark_survives everyPath samePath "/p" _ PrivateJson.Missing fresh_typed freshSys
    PrivateJson.writeOk 7 15 wMarked true (reopen wMarked) _ fresh_reachable _ _ _ _ _).
  - discriminate.
  - done.
  - done.
  - vm_compute. reflexivity.
  - apply reopen_steps. constructor.
  - vm_compute. reflexivity.
Defined.

Definition wGap : Sys := fst (RecordGap PrivateJson.writeOk freshSys 7 30 40).
Definition wPartly : Sys := fst (ResolveGapThrough PrivateJson.writeOk wGap 7 34).

Lemma gap_survives_witness :
  match sys_store (reopen wPartly) with
  | Some st => gapCovers (store_data st) 7 35 | None => False end.
Proof.
  refine (gap_survives everyPath samePath "/p" _ PrivateJson.Missing fresh_typed freshSys
    PrivateJson.writeOk 7 30 40 35 wGap (reopen wPartly) _ fresh_reachable _ _ _ _ _ _ _).
  - discriminate.
  - done.
  - done.
  - done.
  - vm_compute. reflexivity.
  - lia.
  - apply reopen_steps. by apply (op_steps _ PrivateJson.writeOk (OpResolveGap 7 34)).
  - vm_compute. reflexivity.
Defined.

Lemma operation_refines_witness :
  exists st1, sys_store wCommitted = Some st1 /\ validate (store_data st1) = None /\
    abs (store_data st1) = spec (OpCommit 7 20) (abs initialCheckpoint) /\
    (wCommitted = freshSys /\ false = true \/
     sys_file wCommitted = PrivateJson.Present PrivateJson.privateFile
       (PrivateJson.encoded (store_data st1))).
Proof.
  refine (operation_refines everyPath samePath "/p" _ PrivateJson.Missing fresh_typed freshSys
    PrivateJson.writeOk (OpCommit 7 20) (mkStore "/p" initialCheckpoint) wCommitted None
    fresh_reachable _ _ _).
  - discriminate.
  - done.
  - reflexivity.
  - vm_compute. reflexivity.
Defined.

Lemma wCommitted_reachable :
  reachable everyPath samePath "/p" PrivateJson.Missing wCommitted.
Proof.
  eapply rtc_r; [exact fresh_reachable|].
  by apply (step_op _ _ _ anyOp PrivateJson.writeOk (OpCommit 7 20)).
Qed.

Definition committedCheckpoint : Checkpoint :=
  mkCheckpoint Version true 0 0 (Some [mkChatCursor 7 20]) (Some [mkChatTarget 7 20])
    (Some []) (Some []) None.

Lemma CommitMessage_result_witness :
  true = negb (IsCommitted (Some (mkStore "/p" initialCheckpoint)) 7 20) /\
  (None = @None Error -> exists st1, sys_store wCommitted = Some st1 /\ forall id',
     CommittedMax (store_data st1) id' =
       if id' =? 7 then Z.max 20 (CommittedMax initialCheckpoint 7)
       else CommittedMax initialCheckpoint id').
Proof.
  refine (CommitMessage_result everyPath samePath "/p" _ PrivateJson.Missing fresh_typed freshSys
    PrivateJson.writeOk 7 20 (mkStore "/p" initialCheckpoint) wCommitted true None
    fresh_reachable _ _ _ _).
  - discriminate.
  - done.
  - done.
  - reflexivity.
  - vm_compute. reflexivity.
Defined.

Lemma LoginCursors_exact_witness :
  length [7] = length [20] /\ StronglySorted Z.lt [7] /\
  forall id m, (exists i, [7] !! i = Some id /\ [20] !! i = Some m) <->
    (CommittedMax committedCheckpoint id = m /\ 0 < m).
Proof.
  refine (LoginCursors_exact everyPath samePath "/p" _ PrivateJson.Missing fresh_typed wCommitted
    (mkStore "/p" committedCheckpoint) wCommitted_reachable _).
  - discriminate.
  - vm_compute. reflexivity.
Defined.

Lemma wGap_reachable : reachable everyPath samePath "/p" PrivateJson.Missing wGap.
Proof.
  eapply rtc_r; [exact fresh_reachable|].
  by apply (step_op _ _ _ anyOp PrivateJson.writeOk (OpRecordGap 7 30 40)).
Qed.

Lemma ResolveGapThrough_coverage_witness :
  match sys_store wGap, sys_store wPartly with
  | Some st, Some st1 => forall id' l, gapCovers (store_data st1) id' l <->
      gapCovers (store_data st) id' l /\ (id' = 7 -> 34 < l)
  | _, _ => False end.
Proof.
  refine (ResolveGapThrough_coverage everyPath samePath "/p" _ PrivateJson.Missing fresh_typed wGap
    PrivateJson.writeOk 7 34 _ wPartly _ wGap_reachable _ _ _ _ _).
  - discriminate.
  - done.
  - done.
  - vm_compute. reflexivity.
  - vm_compute. reflexivity.
  - vm_compute. reflexivity.
Defined.

Lemma fresh_profile_coherent_witness :
  (FirstDeliveryStart committedCheckpoint 7 <> 0 -> CommittedMax committedCheckpoint 7 = 0) /\
  (CommittedMax committedCheckpoint 7 <> 0 ->
   exists t, t ∈ SyncTargets committedCheckpoint /\ ChatTarget_ChatID t = 7 /\
     CommittedMax committedCheckpoint 7 <= ChatTarget_MaxLogID t).
Proof.
  refine (fresh_profile_coherent everyPath samePath "/p" wCommitted
    (mkStore "/p" committedCheckpoint) 7 _ wCommitted_reachable _).
  - discriminate.
  - vm_compute. reflexivity.
Defined.

(** A version 2 checkpoint, before gaps and read watermarks existed. *)
Definition oldCheckpoint : Checkpoint :=
  mkCheckpoint 2 false 5 1 (Some [mkChatCursor 7 20]) (Some [mkChatTarget 7 25]) None None None.
Definition upgradedCheckpoint : Checkpoint :=
  mkCheckpoint 6 false 5 1 (Some [mkChatCursor 7 20]) (Some [mkChatTarget 7 25])
    (Some []) (Some []) None.

Lemma migrate_result_witness :
  validate upgradedCheckpoint = None /\ migrate upgradedCheckpoint = Ok (upgradedCheckpoint, false).
Proof.
  destruct (migrate_result oldCheckpoint upgradedCheckpoint true) as (H1 & H2 & _).
  - vm_compute. reflexivity.
  - exact (conj H1 H2).
Defined.

Lemma migrate_accepts_witness : migrate oldCheckpoint = Ok (upgradedCheckpoint, true).
Proof.
  refine (migrate_accepts oldCheckpoint _ _ _ _).
  - simpl. lia.
  - reflexivity.
  - discriminate.
  - vm_compute. reflexivity.
Defined.

Lemma searchChat_linear_witness :
  searchChat [mkChatCursor 3 1; mkChatCursor 7 2; mkChatCursor 9 4] 7 = (1%nat, true).
Proof.
  rewrite (searchChat_linear 0 [mkChatCursor 3 1; mkChatCursor 7 2; mkChatCursor 9 4] 7).
  - vm_compute. reflexivity.
  - vm_compute. repeat split.
Defined.
