(* ===== verification/Bytes.v ===== *)
(** * Bytes: what the codecs use of Go's standard library

    A byte is a [Z] from 0 to 255 and a byte slice or string a list of them.
    Little-endian integers are [encoding/binary]'s; [utf8_Valid] is
    [unicode/utf8.Valid]. *)

From S2P Require Import Prelude.

Abbreviation bytes := (list Z).

Definition is_byte (b : Z) : bool := (0 <=? b) && (b <? 256).
Definition bytes_ok (l : bytes) : Prop := Forall (fun b => 0 <= b < 256) l.

(** ** Little-endian integers *)

Fixpoint le_put (n : nat) (v : Z) : bytes :=
  match n with
  | O => []
  | S n => v mod 256 :: le_put n (v / 256)
  end.

Fixpoint le_get (l : bytes) : Z :=
  match l with
  | [] => 0
  | b :: rest => b + 256 * le_get rest
  end.

Definition PutUint16 : Z -> bytes := le_put 2.
Definition PutUint32 : Z -> bytes := le_put 4.
Definition Uint16 (l : bytes) : Z := le_get l.
Definition Uint32 (l : bytes) : Z := le_get l.

Definition uint16 (z : Z) : Prop := 0 <= z < 65536.
Definition uint32 (z : Z) : Prop := 0 <= z < 4294967296.

Lemma le_put_length n v : length (le_put n v) = n.
Proof. revert v. induction n as [|n IH]; intros v; simpl; [done | by rewrite IH]. Qed.

Lemma le_put_bytes n v : bytes_ok (le_put n v).
Proof.
  revert v. induction n as [|n IH]; intros v; constructor; [|apply IH].
  apply Z.mod_pos_bound. lia.
Qed.

Lemma le_get_put n v : 0 <= v < 256 ^ Z.of_nat n -> le_get (le_put n v) = v.
Proof.
  revert v. induction n as [|n IH]; intros v Hv.
  - simpl in *. lia.
  - rewrite Nat2Z.inj_succ, Z.pow_succ_r in Hv by lia. simpl. rewrite IH.
    + pose proof (Z.div_mod v 256). lia.
    + split; [apply Z.div_pos; lia | apply Z.div_lt_upper_bound; lia].
Qed.

Lemma le_get_bound l : bytes_ok l -> 0 <= le_get l < 256 ^ Z.of_nat (length l).
Proof.
  induction 1 as [|b l Hb _ IH]; [done|].
  simpl length. rewrite Nat2Z.inj_succ, Z.pow_succ_r by lia. simpl. lia.
Qed.

Lemma le_put_get l : bytes_ok l -> le_put (length l) (le_get l) = l.
Proof.
  induction 1 as [|b l Hb Hl IH]; [done|]. simpl.
  rewrite Z.mul_comm, Z.mod_add, Z.mod_small, Z.div_add, Z.div_small by lia.
  by rewrite Z.add_0_l, IH.
Qed.

Lemma Uint16_put v : uint16 v -> Uint16 (PutUint16 v) = v.
Proof. intros Hv. apply le_get_put. exact Hv. Qed.

Lemma Uint32_put v : uint32 v -> Uint32 (PutUint32 v) = v.
Proof. intros Hv. apply le_get_put. exact Hv. Qed.

(** ** UTF-8 *)

Definition utf8_cont (b : Z) : bool := (128 <=? b) && (b <=? 191).
Definition utf8_in (lo hi b : Z) : bool := (lo <=? b) && (b <=? hi).

Fixpoint utf8_Valid (l : bytes) : bool :=
  match l with
  | [] => true
  | b :: rest =>
      if b <? 128 then utf8_Valid rest
      else if utf8_in 194 223 b then
        match rest with
        | c1 :: rest => utf8_cont c1 && utf8_Valid rest
        | [] => false
        end
      else if utf8_in 224 239 b then
        let lo := if b =? 224 then 160 else 128 in
        let hi := if b =? 237 then 159 else 191 in
        match rest with
        | c1 :: c2 :: rest => utf8_in lo hi c1 && utf8_cont c2 && utf8_Valid rest
        | _ => false
        end
      else if utf8_in 240 244 b then
        let lo := if b =? 240 then 144 else 128 in
        let hi := if b =? 244 then 143 else 191 in
        match rest with
        | c1 :: c2 :: c3 :: rest =>
            utf8_in lo hi c1 && utf8_cont c2 && utf8_cont c3 && utf8_Valid rest
        | _ => false
        end
      else false
  end.

Lemma utf8_Valid_ascii l : Forall (fun b => b < 128) l -> utf8_Valid l = true.
Proof.
  induction 1 as [|b l Hb _ IH]; [done|]. simpl. by rewrite (proj2 (Z.ltb_lt b 128)).
Qed.

(** ** Slices of bytes *)

(** [src[lo:hi]] with [lo <= hi <= len(src)]. *)
Definition sub (l : bytes) (lo hi : nat) : bytes := take (hi - lo) (drop lo l).

Lemma sub_skip (n lo hi : nat) (pre post : bytes) :
  length pre = n -> (n <= lo)%nat -> sub (pre ++ post) lo hi = sub post (lo - n) (hi - n).
Proof.
  intros <- Hlo. unfold sub. rewrite drop_app_ge by lia. f_equal. lia.
Qed.

Lemma sub_exact (l post : bytes) (n : nat) : length l = n -> sub (l ++ post) 0 n = l.
Proof. intros <-. unfold sub. by rewrite drop_0, Nat.sub_0_r, take_app_length. Qed.
