(* ===== verification/Loco.v ===== *)
(** * The LOCO wire codec (src/internal/protocol/loco)

    Frames (frame.go), the incremental frame reader (producer.go) and the
    secure layer's envelope (secure.go). *)

From S2P Require Import Prelude.
From S2P Require Import Bytes.

(** ** Frames (frame.go) *)

Definition HeaderSize : nat := 22.
Definition MethodFieldSize : nat := 11.
Definition DefaultMaxBody : Z := 16777216. (* 16 << 20 *)

Inductive Error :=
| ErrInvalidMethod | ErrBodyTooLarge | ErrInvalidFrame
| ErrProducerFailed | ErrBufferTooLarge
| ErrInvalidKey | ErrInvalidSecureEnvelope | ErrCiphertextTooLarge
| ErrRandom.

#[export] Instance Error_eq_dec : EqDecision Error.
Proof. solve_decision. Defined.

Record Header := mkHeader {
  PacketID : Z;  (* uint32 *)
  Status : Z;    (* uint16 *)
  Method : bytes;
  BodyType : Z;  (* uint8 *)
  BodyLen : Z;   (* uint32 *)
}.

Record Packet := mkPacket { p_Header : Header; p_Body : bytes }.

Definition set_BodyLen (n : Z) (h : Header) : Header :=
  mkHeader (PacketID h) (Status h) (Method h) (BodyType h) n.

(** [copy(out[lo:hi], src)] into zeroes. *)
Definition padded (n : nat) (src : bytes) : bytes := take n src ++ replicate (n - length src) 0.

Definition Header_MarshalBinary (h : Header) : res Error bytes :=
  let method := Method h in
  if (length method =? 0)%nat || (MethodFieldSize <? length method)%nat || negb (utf8_Valid method)
  then Err ErrInvalidMethod
  else if existsb (fun b => (b =? 0) || (127 <? b)) method then Err ErrInvalidMethod
  else Ok (PutUint32 (PacketID h) ++ PutUint16 (Status h) ++ padded MethodFieldSize method
             ++ [BodyType h] ++ PutUint32 (BodyLen h)).

(** The loop that finds the end of the method: [remaining] bytes of the field
    are left. *)
Fixpoint methodScan (remaining : nat) (src : bytes) : res Error nat :=
  match remaining, src with
  | S remaining, b :: rest =>
      if b =? 0 then Ok O
      else if 127 <? b then Err ErrInvalidMethod
      else let! n := methodScan remaining rest in Ok (S n)
  | _, _ => Ok O
  end.

Definition ParseHeader (src : bytes) (maxBody : Z) : res Error Header :=
  if (length src <? HeaderSize)%nat then Err ErrInvalidFrame else
  let maxBody := if maxBody =? 0 then DefaultMaxBody else maxBody in
  let! n := methodScan MethodFieldSize (drop 6 src) in
  let methodEnd := (6 + n)%nat in
  if (methodEnd =? 6)%nat then Err ErrInvalidMethod
  else if existsb (fun b => negb (b =? 0)) (sub src methodEnd 17) then Err ErrInvalidMethod
  else
    let bodyLen := Uint32 (sub src 18 22) in
    if maxBody <? bodyLen then Err ErrBodyTooLarge
    else Ok (mkHeader (Uint32 (sub src 0 4)) (Uint16 (sub src 4 6)) (sub src 6 methodEnd)
               (default 0 (src !! 17%nat)) bodyLen).

Definition Packet_MarshalBinary (p : Packet) (maxBody : Z) : res Error bytes :=
  let maxBody := if maxBody =? 0 then DefaultMaxBody else maxBody in
  if maxBody <? Z.of_nat (length (p_Body p)) then Err ErrBodyTooLarge else
  let! header := Header_MarshalBinary
    (set_BodyLen (wrapU 32 (Z.of_nat (length (p_Body p)))) (p_Header p)) in
  Ok (header ++ p_Body p).

(** ** The frame reader (producer.go) *)

Definition DefaultMaxBuffer : Z := 2 * (Z.of_nat HeaderSize + DefaultMaxBody).

Record Producer := mkProducer {
  maxBody : Z;
  maxBuffer : Z;
  buffer : bytes;
  header : option Header;
  failed : bool;
}.

Definition NewProducer (maxBody maxBuffer : Z) : Producer :=
  mkProducer (if maxBody =? 0 then DefaultMaxBody else maxBody)
    (if maxBuffer =? 0 then DefaultMaxBuffer else maxBuffer) [] None false.

Definition set_buffer b p := mkProducer (maxBody p) (maxBuffer p) b (header p) (failed p).
Definition set_header h p := mkProducer (maxBody p) (maxBuffer p) (buffer p) h (failed p).
Definition set_failed f p := mkProducer (maxBody p) (maxBuffer p) (buffer p) (header p) f.

(** A callback made by [Feed]. *)
Inductive Event := OnHeader (h : Header) | OnPacket (p : Packet).

Definition Append (p : Producer) (plaintext : bytes) : Producer * option Error :=
  if failed p then (p, Some ErrProducerFailed)
  else if maxBuffer p <? Z.of_nat (length (buffer p)) + Z.of_nat (length plaintext)
  then (set_failed true p, Some ErrBufferTooLarge)
  else (set_buffer (buffer p ++ plaintext) p, None).

(** [next]: the callbacks made, and the packet if one is complete. *)
Definition next (p : Producer) : Producer * list Event * res Error (option Packet) :=
  if failed p then (p, [], Err ErrProducerFailed) else
  let parsed :=
    match header p with
    | Some h => Ok (Some h, [])
    | None =>
        if (length (buffer p) <? HeaderSize)%nat then Ok (None, [])
        else let! h := ParseHeader (take HeaderSize (buffer p)) (maxBody p) in
             Ok (Some h, [OnHeader h])
    end in
  match parsed with
  | Err e => (set_failed true p, [], Err e)
  | Ok (None, evs) => (p, evs, Ok None)
  | Ok (Some h, evs) =>
      let p := set_header (Some h) p in
      let frameLen := (HeaderSize + Z.to_nat (BodyLen h))%nat in
      if (length (buffer p) <? frameLen)%nat then (p, evs, Ok None)
      else
        let packet := mkPacket h (sub (buffer p) HeaderSize frameLen) in
        (set_header None (set_buffer (drop frameLen (buffer p)) p), evs, Ok (Some packet))
  end.

Definition Next (p : Producer) : Producer * res Error (option Packet) :=
  let '(p, _, r) := next p in (p, r).

(** [Feed]'s loop; each iteration that continues consumes a whole frame. *)
Fixpoint Feed_loop (fuel : nat) (p : Producer) : Producer * list Event * option Error :=
  match fuel with
  | O => (p, [], None)
  | S fuel =>
      match next p with
      | (p, evs, Err e) => (p, evs, Some e)
      | (p, evs, Ok None) => (p, evs, None)
      | (p, evs, Ok (Some packet)) =>
          let evs := evs ++ [OnPacket packet] in
          if (length (buffer p) =? 0)%nat then (p, evs, None)
          else let '(p, evs', err) := Feed_loop fuel p in (p, evs ++ evs', err)
      end
  end.

Definition Feed (p : Producer) (plaintext : bytes) : Producer * list Event * option Error :=
  if failed p then (p, [], Some ErrProducerFailed) else
  let '(p, err) := Append p plaintext in
  match err with
  | Some e => (p, [], Some e)
  | None => Feed_loop (S (length (buffer p))) p
  end.

Definition Buffered (p : Producer) : nat := length (buffer p).

(** ** The secure layer (secure.go) *)

Definition V3KeySize : nat := 16.
Definition V3NonceSize : nat := 12.
Definition V3TagSize : nat := 16.
Definition V3Type : Z := 3.
Definition V3HandshakeSize : nat := 268.
Definition DefaultMaxCiphertext : Z :=
  DefaultMaxBody + Z.of_nat (HeaderSize + V3NonceSize + V3TagSize).

(** AES-GCM and RSA-OAEP of Go's [crypto] packages: [Seal] and [GcmOpen] of a
    16-byte key, a nonce and a text; [Overhead] is the tag size; [WrapKey]
    encrypts a key under the embedded public key. *)
Class Crypto := {
  Seal : bytes -> bytes -> bytes -> bytes;
  GcmOpen : bytes -> bytes -> bytes -> option bytes;
  WrapKey : bytes -> bytes -> option (bytes * bytes);
  Seal_length key nonce text : length (Seal key nonce text) = (length text + V3TagSize)%nat;
  Open_Seal key nonce text : GcmOpen key nonce (Seal key nonce text) = Some text;
}.

(** [random] is what is left of the reader's bytes. *)
Record SecureV3 := mkSecureV3 { s_key : bytes; s_random : bytes; s_maxSize : Z }.

(** [io.ReadFull] of [n] bytes. *)
Definition ReadFull (n : nat) (random : bytes) : option (bytes * bytes) :=
  if (length random <? n)%nat then None else Some (take n random, drop n random).

Section Secure.
Context `{Crypto}.

Definition NewSecureV3 (random : bytes) (maxCiphertext : Z) : res Error SecureV3 :=
  let maxCiphertext := if maxCiphertext =? 0 then DefaultMaxCiphertext else maxCiphertext in
  match ReadFull V3KeySize random with
  | None => Err ErrRandom
  | Some (key, random) => Ok (mkSecureV3 key random maxCiphertext)
  end.

Definition Handshake (s : option SecureV3) : option SecureV3 * res Error bytes :=
  match s with
  | None => (s, Err ErrInvalidKey)
  | Some v =>
      match WrapKey (s_random v) (s_key v) with
      | None => (s, Err ErrRandom)
      | Some (encrypted, random) =>
          (Some (mkSecureV3 (s_key v) random (s_maxSize v)),
           Ok (PutUint32 (wrapU 32 (Z.of_nat (length encrypted)))
                 ++ PutUint32 (Z.of_nat V3KeySize) ++ PutUint32 V3Type ++ encrypted))
      end
  end.

Definition Encrypt (s : option SecureV3) (plaintext : bytes) : option SecureV3 * res Error bytes :=
  match s with
  | None => (s, Err ErrInvalidKey)
  | Some v =>
      if s_maxSize v <? Z.of_nat (V3NonceSize + length plaintext + V3TagSize)
      then (s, Err ErrCiphertextTooLarge)
      else
        match ReadFull V3NonceSize (s_random v) with
        | None => (s, Err ErrRandom)
        | Some (nonce, random) =>
            let sealed := Seal (s_key v) nonce plaintext in
            (Some (mkSecureV3 (s_key v) random (s_maxSize v)),
             Ok (PutUint32 (wrapU 32 (Z.of_nat (length nonce + length sealed))) ++ nonce ++ sealed))
        end
  end.

(** [s] is not nil: the code reads [s.maxSize]. *)
Definition Decrypt (s : SecureV3) (envelope : bytes) : res Error bytes :=
  if (length envelope <? 4 + V3NonceSize + V3TagSize)%nat then Err ErrInvalidSecureEnvelope else
  let len := Uint32 (sub envelope 0 4) in
  if s_maxSize s <? len then Err ErrCiphertextTooLarge
  else if negb (len + 4 =? Z.of_nat (length envelope)) then Err ErrInvalidSecureEnvelope
  else
    let nonce := sub envelope 4 (4 + V3NonceSize) in
    let ciphertext := drop (4 + V3NonceSize) envelope in
    match GcmOpen (s_key s) nonce ciphertext with
    | None => Err ErrInvalidSecureEnvelope
    | Some plaintext => Ok plaintext
    end.
End Secure.
