(* ===== verification/LocoFacts.v ===== *)
(** * Facts about the LOCO codec

    Marshalled frames parse back, and the incremental reader's state is
    determined by the bytes it has been given. *)

From S2P Require Import Prelude.
From S2P Require Import Bytes Loco.

(** ** Headers *)

(** The Go types of the fields. *)
Record header_typed (h : Header) : Prop := {
  ht_id : uint32 (PacketID h);
  ht_status : uint16 (Status h);
  ht_method : bytes_ok (Method h);
  ht_type : 0 <= BodyType h < 256;
  ht_len : uint32 (BodyLen h);
}.

(** A method name: one to eleven ASCII bytes, none of them NUL. *)
Definition method_ok (m : bytes) : Prop :=
  (1 <= length m <= MethodFieldSize)%nat /\ Forall (fun b => 0 < b < 128) m.

Lemma methodScan_found (m : bytes) : Forall (fun b => 0 < b < 128) m ->
  forall n rest, (length m <= n)%nat -> methodScan n (m ++ replicate (n - length m) 0 ++ rest) = Ok (length m).
Proof.
  induction 1 as [|b m Hb _ IH]; intros n rest Hn; simpl in *.
  - rewrite Nat.sub_0_r. by destruct n.
  - destruct n as [|n]; [lia|]. simpl.
    replace (b =? 0) with false by lia. replace (127 <? b) with false by lia.
    by rewrite IH by lia.
Qed.

Lemma MarshalBinary_iff h : bytes_ok (Method h) ->
  (exists raw, Header_MarshalBinary h = Ok raw) <-> method_ok (Method h).
Proof.
  intros Hb. unfold Header_MarshalBinary, method_ok, MethodFieldSize in *.
  destruct (length (Method h) =? 0)%nat eqn:E0; [split; [by intros [? ?] | bool_prop; lia]|].
  destruct (11 <? length (Method h))%nat eqn:E1; [split; [by intros [? ?] | bool_prop; lia]|].
  simpl. bool_prop.
  destruct (existsb _ _) eqn:Ee.
  - split; [by destruct (negb _); intros [? ?]|]. intros [_ Hall].
    apply existsb_exists in Ee as (b & Hin & Hbad). apply list_elem_of_In in Hin.
    eapply Forall_forall in Hall; [|exact Hin]. simpl in Hall. lia.
  - assert (Hall : Forall (fun b => 0 < b < 128) (Method h)).
    { apply Forall_forall. intros b Hin. eapply Forall_forall in Hb; [|exact Hin]. simpl in Hb.
      assert (~ ((b =? 0) || (127 <? b)) = true) as Hn.
      { intros Hbad. apply not_true_iff_false in Ee. apply Ee, existsb_exists.
        exists b. by rewrite <- list_elem_of_In. }
      lia. }
    rewrite utf8_Valid_ascii by (eapply Forall_impl; [exact Hall | simpl; lia]). simpl.
    split; [intros _; split; [lia | done] | intros _; by eexists].
Qed.

Lemma MarshalBinary_shape h raw : bytes_ok (Method h) -> Header_MarshalBinary h = Ok raw ->
  method_ok (Method h) /\
  raw = PutUint32 (PacketID h) ++ PutUint16 (Status h) ++
        (Method h ++ replicate (MethodFieldSize - length (Method h)) 0) ++
        [BodyType h] ++ PutUint32 (BodyLen h).
Proof.
  intros Hb E. assert (Hm : method_ok (Method h)) by (apply MarshalBinary_iff; eauto).
  split; [done|]. unfold Header_MarshalBinary in E. repeat (split_test_in E; [done|]).
  simplify_eq. unfold padded. rewrite (take_ge (Method h)) by apply Hm. done.
Qed.

Lemma MarshalBinary_length h raw : bytes_ok (Method h) -> Header_MarshalBinary h = Ok raw ->
  length raw = HeaderSize.
Proof.
  intros Hb E. apply MarshalBinary_shape in E as [[Hl _] ->]; [|done].
  rewrite !length_app, length_replicate. unfold PutUint32, PutUint16.
  rewrite !le_put_length. simpl length. unfold MethodFieldSize, HeaderSize in *. lia.
Qed.

Lemma existsb_replicate0 n : existsb (fun b => negb (b =? 0)) (replicate n 0) = false.
Proof. by induction n. Qed.

(** What [MarshalBinary] writes, [ParseHeader] reads, within its body bound. *)
Lemma ParseHeader_MarshalBinary h raw max : header_typed h -> Header_MarshalBinary h = Ok raw ->
  ParseHeader raw max =
    if (if max =? 0 then DefaultMaxBody else max) <? BodyLen h then Err ErrBodyTooLarge else Ok h.
Proof.
  intros Ht E. pose proof (MarshalBinary_length h raw (ht_method _ Ht) E) as Hlen.
  apply MarshalBinary_shape in E as [[Hl Hm] Hraw]; [|apply Ht].
  set (m := Method h) in *. set (pad := replicate (MethodFieldSize - length m) 0) in *.
  assert (Hpad : length (m ++ pad) = 11%nat).
  { unfold pad. rewrite length_app, length_replicate. unfold MethodFieldSize in *. lia. }
  assert (H6 : drop 6 raw = (m ++ pad) ++ [BodyType h] ++ PutUint32 (BodyLen h)) by (by rewrite Hraw).
  unfold ParseHeader. rewrite Hlen. change (22 <? HeaderSize)%nat with false. cbv iota.
  rewrite H6, <- app_assoc. unfold pad at 1.
  rewrite methodScan_found by (done || apply Hl). cbv zeta iota beta.
  assert (Hsub : sub raw (6 + length m) 17 = pad).
  { unfold sub. rewrite <- drop_drop, H6, <- app_assoc, drop_app_length.
    assert (17 - (6 + length m) = length pad)%nat as ->.
    { rewrite length_app in Hpad. lia. }
    apply take_app_length. }
  replace (6 + length m =? 6)%nat with false by (symmetry; apply Nat.eqb_neq; lia).
  rewrite Hsub. unfold pad at 1. rewrite existsb_replicate0.
  assert (Hlenf : sub raw 18 22 = PutUint32 (BodyLen h)).
  { rewrite (app_assoc _ [BodyType h]) in H6. unfold sub. change 18%nat with (6 + 12)%nat.
    rewrite <- drop_drop, H6. rewrite drop_app_length' by (rewrite length_app, Hpad; done). done. }
  rewrite Hlenf, Uint32_put by apply Ht. destruct (_ <? _); [done|]. f_equal.
  assert (Hmeth : sub raw 6 (6 + length m) = m).
  { unfold sub. rewrite H6, <- app_assoc. replace (6 + length m - 6)%nat with (length m) by lia.
    apply take_app_length. }
  rewrite Hmeth.
  assert (H17 : raw !! 17%nat = Some (BodyType h)).
  { change 17%nat with (6 + 11)%nat. rewrite <- lookup_drop, H6.
    rewrite lookup_app_r by lia. by rewrite Hpad. }
  assert (H04 : sub raw 0 4 = PutUint32 (PacketID h)) by (by rewrite Hraw).
  assert (H46 : sub raw 4 6 = PutUint16 (Status h)) by (by rewrite Hraw).
  rewrite H17, H04, H46, Uint32_put, Uint16_put by apply Ht. subst m. by destruct h.
Qed.

Lemma ParseHeader_bound src max h : ParseHeader src max = Ok h ->
  BodyLen h <= (if max =? 0 then DefaultMaxBody else max) /\ (HeaderSize <= length src)%nat.
Proof.
  unfold ParseHeader. destruct (length src <? HeaderSize)%nat eqn:El; [done|].
  destruct (methodScan _ _); [|done]. destruct (_ =? _)%nat; [done|]. destruct (existsb _ _); [done|].
  destruct (_ <? _) eqn:E; [done|]. intros [= <-]. simpl. bool_prop. done.
Qed.

Lemma ParseHeader_nonneg src max h : bytes_ok src -> ParseHeader src max = Ok h -> 0 <= BodyLen h.
Proof.
  intros Hb. unfold ParseHeader. destruct (length src <? HeaderSize)%nat; [done|].
  destruct (methodScan _ _); [|done]. destruct (_ =? _)%nat; [done|]. destruct (existsb _ _); [done|].
  destruct (_ <? _); [done|]. intros [= <-]. simpl.
  apply le_get_bound. unfold sub. by apply Forall_take, Forall_drop.
Qed.

(** ** One frame at the start of a byte stream *)

(** [None] while the frame is incomplete. *)
Definition parse1 (max : Z) (bs : bytes) : option (res Error (Packet * bytes)) :=
  if (length bs <? HeaderSize)%nat then None else
  match ParseHeader (take HeaderSize bs) max with
  | Err e => Some (Err e)
  | Ok h =>
      let n := (HeaderSize + Z.to_nat (BodyLen h))%nat in
      if (length bs <? n)%nat then None
      else Some (Ok (mkPacket h (sub bs HeaderSize n), drop n bs))
  end.

Lemma parse1_app max bs more p rest :
  parse1 max bs = Some (Ok (p, rest)) -> parse1 max (bs ++ more) = Some (Ok (p, rest ++ more)).
Proof.
  unfold parse1. intros E. destruct (length bs <? HeaderSize)%nat eqn:El; [done|]. bool_prop.
  rewrite length_app. replace (length bs + length more <? HeaderSize)%nat with false by lia.
  rewrite take_app_le by lia. destruct (ParseHeader _ _) as [h|]; [|done].
  destruct (length bs <? _)%nat eqn:E2; [done|]. bool_prop. simplify_eq.
  replace (length bs + length more <? HeaderSize + Z.to_nat (BodyLen h))%nat with false by lia.
  unfold sub. rewrite (drop_app_le _ _ HeaderSize), (drop_app_le bs more (_ + _)) by lia.
  rewrite take_app_le by (rewrite length_drop; lia). done.
Qed.

Lemma parse1_progress max bs p rest :
  parse1 max bs = Some (Ok (p, rest)) -> (length rest < length bs)%nat.
Proof.
  unfold parse1. intros E. destruct (_ <? _)%nat eqn:E1; [done|].
  destruct (ParseHeader _ _); [|done]. destruct (length bs <? _ + _)%nat; [done|].
  simplify_eq. rewrite length_drop. bool_prop. unfold HeaderSize in *. lia.
Qed.

(** A packet as it arrives: its header carries the length of its body. *)
Definition arrival (p : Packet) : Packet :=
  mkPacket (set_BodyLen (Z.of_nat (length (p_Body p))) (p_Header p)) (p_Body p).

(** A packet of Go's types whose body a uint32 can count. *)
Definition packet_typed (max : Z) (p : Packet) : Prop :=
  header_typed (p_Header p) /\ uint32 (if max =? 0 then DefaultMaxBody else max).

Lemma Packet_MarshalBinary_ok max p raw : packet_typed max p -> Packet_MarshalBinary p max = Ok raw ->
  exists hdr, Header_MarshalBinary (p_Header (arrival p)) = Ok hdr /\ raw = hdr ++ p_Body p /\
    header_typed (p_Header (arrival p)) /\
    Z.of_nat (length (p_Body p)) <= (if max =? 0 then DefaultMaxBody else max).
Proof.
  intros [Ht Hmax] E. unfold Packet_MarshalBinary in E. set (m := if max =? 0 then _ else _) in *.
  destruct (m <? _) eqn:El; [done|]. bool_prop.
  assert (Hlen : uint32 (Z.of_nat (length (p_Body p)))) by (unfold uint32 in *; lia).
  unfold wrapU in E. rewrite Z.mod_small in E by exact Hlen.
  destruct (Header_MarshalBinary _) as [hdr|] eqn:Eh; [|done]. simplify_eq.
  exists hdr. split_and!; try done. destruct Ht. by constructor.
Qed.

Lemma parse1_marshalled max p raw rest : packet_typed max p -> Packet_MarshalBinary p max = Ok raw ->
  parse1 max (raw ++ rest) = Some (Ok (arrival p, rest)).
Proof.
  intros Hp E. destruct (Packet_MarshalBinary_ok _ _ _ Hp E) as (hdr & Eh & -> & Ht & Hle).
  pose proof (MarshalBinary_length _ _ (ht_method _ Ht) Eh) as Hlen.
  unfold parse1. rewrite !length_app, Hlen.
  replace (HeaderSize + length (p_Body p) + length rest <? HeaderSize)%nat with false by lia.
  rewrite <- app_assoc, take_app_length' by done.
  rewrite (ParseHeader_MarshalBinary _ _ _ Ht Eh).
  replace (_ <? BodyLen (p_Header (arrival p))) with false by (simpl; lia).
  cbv beta iota zeta. cbn [arrival p_Header].
  change (BodyLen (set_BodyLen (Z.of_nat (length (p_Body p))) (p_Header p)))
    with (Z.of_nat (length (p_Body p))).
  rewrite Nat2Z.id.
  replace (HeaderSize + length (p_Body p) + length rest <? HeaderSize + length (p_Body p))%nat
    with false by lia.
  unfold sub. rewrite (drop_app_length' hdr) by done. rewrite take_app_length' by lia.
  rewrite app_assoc, drop_app_length' by (rewrite length_app; lia). done.
Qed.

(** Nothing but a whole frame starts a non-empty stream of frames. *)
Lemma parse1_frames max ps raws : Forall2 (fun p raw => packet_typed max p /\ Packet_MarshalBinary p max = Ok raw) ps raws ->
  parse1 max (concat raws) =
    match ps, raws with
    | p :: _, _ :: raws => Some (Ok (arrival p, concat raws))
    | _, _ => None
    end.
Proof.
  intros [|p raw ps' raws' [Hp E] _]; [done|]. simpl. by apply parse1_marshalled.
Qed.

(** ** The frame reader *)

(** A live producer holding a header has read it from the front of its buffer. *)
Definition prod_ok (p : Producer) : Prop :=
  failed p = false /\
  forall h, header p = Some h -> ParseHeader (take HeaderSize (buffer p)) (maxBody p) = Ok h.

Lemma NewProducer_ok mb mx : prod_ok (NewProducer mb mx).
Proof. by split. Qed.

(** The header callbacks still due for a frame the reader is about to deliver. *)
Definition due (p : Producer) (h : Header) : list Event :=
  match header p with None => [OnHeader h] | Some _ => [] end.

Lemma next_parse1 p : prod_ok p ->
  match parse1 (maxBody p) (buffer p) with
  | Some (Ok (pk, rest)) =>
      next p = (set_header None (set_buffer rest p), due p (p_Header pk), Ok (Some pk))
  | Some (Err e) => next p = (set_failed true p, [], Err e)
  | None => exists h evs, next p = (set_header h p, evs, Ok None) /\ prod_ok (set_header h p) /\
      ((h = header p /\ evs = []) \/
       (header p = None /\ exists h', h = Some h' /\ evs = [OnHeader h']))
  end.
Proof.
  intros [Hf Hh]. unfold parse1, next, due. rewrite Hf.
  destruct p as [mb mx buf hd fl]. cbn [maxBody buffer header failed] in *. cbv zeta.
  destruct hd as [h|].
  - specialize (Hh h eq_refl). pose proof (ParseHeader_bound _ _ _ Hh) as [_ Hlen].
    rewrite length_take in Hlen.
    replace (length buf <? HeaderSize)%nat with false by lia. rewrite Hh.
    cbn [set_header buffer].
    destruct (length buf <? HeaderSize + Z.to_nat (BodyLen h))%nat eqn:E; [|done].
    exists (Some h), []. split_and!; [done | | by left]. split; [done|].
    intros ? [= <-]. exact Hh.
  - destruct (length buf <? HeaderSize)%nat eqn:El.
    + exists None, []. split_and!; [done | by split | left; done].
    + destruct (ParseHeader (take HeaderSize buf) mb) as [h|e] eqn:Ep; [|done].
      cbn [set_header buffer].
      destruct (length buf <? HeaderSize + Z.to_nat (BodyLen h))%nat eqn:E; [|done].
      exists (Some h), [OnHeader h]. split_and!; [done | | right; eauto]. split; [done|].
      intros ? [= <-]. exact Ep.
Qed.

(** The bytes kept when no frame is complete. *)
Lemma parse1_incomplete max bs : 0 <= (if max =? 0 then DefaultMaxBody else max) ->
  parse1 max bs = None ->
  Z.of_nat (length bs) < Z.of_nat HeaderSize + (if max =? 0 then DefaultMaxBody else max) \/
  (length bs < HeaderSize)%nat.
Proof.
  intros Hm. unfold parse1. destruct (length bs <? HeaderSize)%nat eqn:El; [right; lia|].
  destruct (ParseHeader _ _) as [h|] eqn:Ep; [|done]. cbv zeta.
  destruct (length bs <? HeaderSize + _)%nat eqn:E; [|done]. intros _. left.
  pose proof (ParseHeader_bound _ _ _ Ep) as [Hle _]. bool_prop. lia.
Qed.

(** *** A stream of frames *)

Section Stream.
Context (max : Z) (ps : list Packet) (raws : list bytes).

Definition sent (p : Packet) (raw : bytes) : Prop :=
  packet_typed max p /\ Packet_MarshalBinary p max = Ok raw.

(** The callbacks [Feed] owes for a list of packets. *)
Definition callbacks (ps : list Packet) : list Event :=
  flat_map (fun p => [OnHeader (p_Header (arrival p)); OnPacket (arrival p)]) ps.

Definition owed (p : Producer) (ps : list Packet) : list Event :=
  match header p with None => callbacks ps | Some _ => tail (callbacks ps) end.

(** The reader's buffer and the bytes still to come are the frames [raws]. *)
Record reading (p : Producer) (rest : bytes) (ps : list Packet) (raws : list bytes) : Prop := {
  rd_ok : prod_ok p;
  rd_max : maxBody p = max;
  rd_sent : Forall2 sent ps raws;
  rd_bytes : buffer p ++ rest = concat raws;
}.
End Stream.

Lemma concat_bytes max ps raws : Forall2 (sent max) ps raws ->
  Forall (fun p => bytes_ok (p_Body p)) ps -> bytes_ok (concat raws).
Proof.
  induction 1 as [|p raw ps' raws' [Hp E] _ IH]; intros Hb; [constructor|].
  apply Forall_cons in Hb as [Hb Hbs]. simpl. apply Forall_app. split; [|by apply IH].
  destruct (Packet_MarshalBinary_ok _ _ _ Hp E) as (hdr & Eh & -> & Ht & _).
  apply Forall_app. split; [|done].
  apply MarshalBinary_shape in Eh as [_ ->]; [|apply Ht].
  repeat (apply Forall_app; split); try apply le_put_bytes; try apply Ht.
  - apply Forall_replicate. lia.
  - constructor; [apply Ht | constructor].
Qed.

(** Appending bytes cannot change a frame already complete: either the front
    frame of the stream is in the buffer, or the buffer is a part of it. *)
Lemma reading_next max p rest ps raws : reading max p rest ps raws ->
  (exists pk ps' raw raws', ps = pk :: ps' /\ raws = raw :: raws' /\
     exists rest', parse1 max (buffer p) = Some (Ok (arrival pk, rest')) /\
       rest' ++ rest = concat raws') \/
  parse1 max (buffer p) = None.
Proof.
  intros [Hok Hm Hs Hb]. destruct (parse1 max (buffer p)) as [[[pk rest']|e]|] eqn:E; [left| |by right].
  - pose proof (parse1_app _ _ rest _ _ E) as E2. rewrite Hb in E2.
    rewrite (parse1_frames max ps raws) in E2 by exact Hs.
    destruct Hs as [|p0 raw0 ps0 raws0 Hs0 Hs']; [done|]. injection E2 as <- E2.
    eexists _, _, _, _. split_and!; [done..|]. by eexists.
  - exfalso. assert (E2 : parse1 max (buffer p ++ rest) = Some (Err e)).
    { unfold parse1 in E |- *. destruct (length (buffer p) <? HeaderSize)%nat eqn:El; [done|].
      rewrite length_app. replace (length (buffer p) + length rest <? HeaderSize)%nat with false by lia.
      rewrite take_app_le by lia. destruct (ParseHeader _ _) as [h|]; [|done].
      by destruct (_ <? _ + _)%nat. }
    rewrite Hb, (parse1_frames max ps raws) in E2 by exact Hs. destruct Hs; done.
Qed.

(** The header at the front of a stream of frames. *)
Lemma front_header max p rest ps raws h : reading max p rest ps raws ->
  ParseHeader (take HeaderSize (buffer p)) max = Ok h ->
  exists pk ps', ps = pk :: ps' /\ h = p_Header (arrival pk).
Proof.
  intros [_ _ Hs Hb] Hp. pose proof (ParseHeader_bound _ _ _ Hp) as [_ Hlen].
  rewrite length_take in Hlen.
  assert (Hp' : ParseHeader (take HeaderSize (concat raws)) max = Ok h)
    by (rewrite <- Hb, take_app_le by lia; done).
  pose proof (parse1_frames max ps raws Hs) as E.
  destruct Hs as [|pk raw ps' raws' _ _].
  - simpl in Hb. apply app_nil in Hb as [Hb _]. rewrite Hb in Hlen. simpl in Hlen.
    unfold HeaderSize in Hlen. lia.
  - exists pk, ps'. split; [done|]. unfold parse1 in E. rewrite Hp' in E. cbv zeta in E.
    destruct (_ <? _)%nat; [done|]. destruct (_ <? _)%nat; [done|]. by injection E as -> _.
Qed.

(** One [next] on a stream of frames: a packet of the stream, or nothing yet. *)
Lemma next_reading max p rest ps raws : reading max p rest ps raws ->
  (parse1 max (buffer p) <> None /\ exists pk ps' raws' p', ps = pk :: ps' /\
     next p = (p', due p (p_Header (arrival pk)), Ok (Some (arrival pk))) /\
     reading max p' rest ps' raws' /\ header p' = None /\ maxBuffer p' = maxBuffer p /\
     (length (buffer p') < length (buffer p))%nat) \/
  (parse1 max (buffer p) = None /\ exists p' evs, next p = (p', evs, Ok None) /\
     reading max p' rest ps raws /\ buffer p' = buffer p /\ maxBuffer p' = maxBuffer p /\
     owed p ps = evs ++ owed p' ps).
Proof.
  intros Hr. pose proof Hr as [Hok Hm Hs Hb]. pose proof (next_parse1 p Hok) as Hn. rewrite Hm in Hn.
  destruct (reading_next _ _ _ _ _ Hr) as [(pk & ps' & raw & raws' & -> & -> & rest' & E & Hrest)|E];
    [left|right]; rewrite E in Hn.
  - split; [by rewrite E|].
    eexists pk, ps', raws', _. split_and!; [done | exact Hn | | done | done |].
    + inversion Hs; subst. constructor; simpl; [|done..]. split; [apply Hok | done].
    + apply parse1_progress in E. done.
  - destruct Hn as (h & evs & Hn & Hok' & Hcase). split; [done|].
    eexists _, evs. split_and!; [exact Hn | by constructor | done | done |].
    destruct Hcase as [[-> ->]|(Hhd & h' & -> & ->)].
    + unfold owed. by destruct (header p).
    + destruct Hok' as [_ Hp]. specialize (Hp h' eq_refl). simpl in Hp. rewrite Hm in Hp.
      destruct (front_header _ _ _ _ _ _ Hr Hp) as (pk & ps' & -> & ->).
      unfold owed. by rewrite Hhd.
Qed.

Lemma Feed_loop_reading max fuel : forall p rest ps raws, reading max p rest ps raws ->
  (length (buffer p) < fuel)%nat ->
  exists p' evs ps' raws', Feed_loop fuel p = (p', evs, None) /\ reading max p' rest ps' raws' /\
    owed p ps = evs ++ owed p' ps' /\ parse1 max (buffer p') = None /\ maxBuffer p' = maxBuffer p.
Proof.
  induction fuel as [|fuel IH]; intros p rest ps raws Hr Hfuel; [lia|]. simpl Feed_loop.
  destruct (next_reading _ _ _ _ _ Hr) as
    [(_ & pk & ps' & raws' & p' & -> & -> & Hr' & Hhd & Hmx & Hlt) | (E & p' & evs & -> & Hr' & Hbuf & Hmx & Ho)].
  - assert (Howed : owed p (pk :: ps') = (due p (p_Header (arrival pk)) ++ [OnPacket (arrival pk)]) ++ owed p' ps').
    { unfold owed, due. rewrite Hhd. by destruct (header p). }
    destruct (length (buffer p') =? 0)%nat eqn:E0.
    + bool_prop. eexists p', _, ps', raws'. split_and!; [done | done | done | | done].
      by destruct (buffer p').
    + destruct (IH p' rest ps' raws' Hr' ltac:(lia)) as (p2 & evs & ps2 & raws2 & -> & Hr2 & Ho2 & E2 & Hmx2).
      eexists p2, _, ps2, raws2. split_and!; [done | done | | done | by rewrite Hmx2].
      by rewrite Howed, Ho2, (app_assoc _ evs).
  - eexists p', evs, ps, raws. split_and!; try done. by rewrite Hbuf.
Qed.

Lemma Append_fits p chunk : failed p = false ->
  Z.of_nat (length (buffer p)) + Z.of_nat (length chunk) <= maxBuffer p ->
  Append p chunk = (set_buffer (buffer p ++ chunk) p, None).
Proof. intros Hf Hfit. unfold Append. rewrite Hf. by replace (_ <? _) with false by lia. Qed.

Lemma reading_append max p chunk rest ps raws : reading max p (chunk ++ rest) ps raws ->
  reading max (set_buffer (buffer p ++ chunk) p) rest ps raws.
Proof.
  intros [[Hf Hh] Hm Hs Hb]. constructor; [|done | done | simpl; by rewrite <- app_assoc].
  split; [done|]. simpl. intros h Hhd. pose proof (Hh h Hhd) as Hp.
  pose proof (ParseHeader_bound _ _ _ Hp) as [_ Hlen]. rewrite length_take in Hlen.
  by rewrite take_app_le by lia.
Qed.

(** A supply that fits the buffer bound. *)
Lemma Feed_reading max p chunk rest ps raws : reading max p (chunk ++ rest) ps raws ->
  Z.of_nat (length (buffer p)) + Z.of_nat (length chunk) <= maxBuffer p ->
  exists p' evs ps' raws', Feed p chunk = (p', evs, None) /\ reading max p' rest ps' raws' /\
    owed p ps = evs ++ owed p' ps' /\ parse1 max (buffer p') = None /\ maxBuffer p' = maxBuffer p.
Proof.
  intros [[Hf Hh] Hm Hs Hb] Hfit. unfold Feed, Append. rewrite Hf.
  replace (maxBuffer p <? _) with false by lia.
  set (p1 := set_buffer (buffer p ++ chunk) p).
  assert (Hr1 : reading max p1 rest ps raws) by (by apply reading_append; constructor).
  apply (Feed_loop_reading max (S (length (buffer p1))) p1 rest ps raws Hr1). lia.
Qed.

Lemma reading_finished max p ps raws : reading max p [] ps raws -> parse1 max (buffer p) = None ->
  ps = [] /\ buffer p = [].
Proof.
  intros [_ _ Hs Hb] E. rewrite app_nil_r in Hb. rewrite Hb in E.
  rewrite (parse1_frames max ps raws Hs) in E. by destruct Hs.
Qed.
