(* ===== verification/Wire.v ===== *)
(** * One framed LOCO connection (src/internal/client/wire.go)

    The connection's incoming side is the bytes still to arrive and the error
    that follows them; its outgoing side the bytes written.  [readFrame] reads
    exactly one packet, directly from a plain connection or through the secure
    layer and the frame reader. *)

From S2P Require Import Prelude.
From S2P Require Import Bytes Loco.

Inductive WireError :=
| WLoco (e : Error)
| EOF
| ErrUnexpectedEOF
| ErrConn        (* any other error of the connection *)
| ErrProtocol.

(** What [Read] returns once the bytes have been delivered. *)
Inductive ConnEnd := EndEOF | EndError.

Record Conn := mkConn { c_in : bytes; c_end : ConnEnd; c_out : bytes }.

Record wireConn := mkWire {
  w_c : Conn;
  w_secure : option SecureV3;
  w_producer : option Producer;
  w_observed : list Packet; (* what the observer saw *)
}.

Definition set_c c w := mkWire c (w_secure w) (w_producer w) (w_observed w).
Definition set_secure s w := mkWire (w_c w) s (w_producer w) (w_observed w).
Definition set_producer p w := mkWire (w_c w) (w_secure w) (Some p) (w_observed w).

(** [io.ReadFull(w.c, buf)] with [len(buf) = n]. *)
Definition ReadFullConn (n : nat) (c : Conn) : Conn * res WireError bytes :=
  if (length (c_in c) <? n)%nat then
    (mkConn [] (c_end c) (c_out c),
     match c_end c with
     | EndError => Err ErrConn
     | EndEOF => if (length (c_in c) =? 0)%nat then Err EOF else Err ErrUnexpectedEOF
     end)
  else (mkConn (drop n (c_in c)) (c_end c) (c_out c), Ok (take n (c_in c))).

Definition lift {A} (r : res Error A) : res WireError A :=
  match r with Ok a => Ok a | Err e => Err (WLoco e) end.

Section Wire.
Context `{Crypto}.

(** The plain transport: exact reads. *)
Definition readPlain (w : wireConn) : wireConn * res WireError Packet :=
  let '(c, r) := ReadFullConn HeaderSize (w_c w) in
  let w := set_c c w in
  match r with
  | Err e => (w, Err e)
  | Ok headerBytes =>
      match ParseHeader headerBytes 0 with
      | Err e => (w, Err (WLoco e))
      | Ok h =>
          let '(c, r) := ReadFullConn (Z.to_nat (BodyLen h)) (w_c w) in
          let w := set_c c w in
          match r with
          | Err e => (w, Err e)
          | Ok body => (w, Ok (mkPacket h body))
          end
      end
  end.

(** The loop of the secure transport; each iteration that continues consumes
    the four bytes of a prefix. *)
Fixpoint readSecure (fuel : nat) (secure : SecureV3) (producer : Producer) (w : wireConn)
  : wireConn * res WireError Packet :=
  match fuel with
  | O => (w, Err ErrConn)
  | S fuel =>
      let '(producer, r) := Next producer in
      let w := set_producer producer w in
      match r with
      | Err e => (w, Err (WLoco e))
      | Ok (Some packet) => (w, Ok packet)
      | Ok None =>
          let '(c, r) := ReadFullConn 4 (w_c w) in
          let w := set_c c w in
          match r with
          | Err e =>
              (w, Err (match e with
                       | EOF => if (0 <? Buffered producer)%nat then ErrUnexpectedEOF else EOF
                       | e => e
                       end))
          | Ok prefix =>
              let n := Uint32 prefix in
              if n =? 0 then readSecure fuel secure producer w
              else if DefaultMaxCiphertext <? n then (w, Err (WLoco ErrCiphertextTooLarge))
              else
                let '(c, r) := ReadFullConn (Z.to_nat n) (w_c w) in
                let w := set_c c w in
                match r with
                | Err e => (w, Err e)
                | Ok rest =>
                    match Decrypt secure (prefix ++ rest) with
                    | Err e => (w, Err (WLoco e))
                    | Ok plaintext =>
                        let '(producer, err) := Append producer plaintext in
                        let w := set_producer producer w in
                        match err with
                        | Some e => (w, Err (WLoco e))
                        | None => readSecure fuel secure producer w
                        end
                    end
                end
          end
      end
  end.

Definition readFrame (w : wireConn) : wireConn * res WireError Packet :=
  match w_secure w with
  | None => readPlain w
  | Some secure =>
      let producer := default (NewProducer 0 0) (w_producer w) in
      readSecure (S (length (c_in (w_c w)))) secure producer (set_producer producer w)
  end.

(** [read]; [observing] says whether an observer is set. *)
Definition read (observing : bool) (w : wireConn) : wireConn * res WireError Packet :=
  let '(w, r) := readFrame w in
  match r with
  | Ok packet =>
      (if observing then mkWire (w_c w) (w_secure w) (w_producer w) (w_observed w ++ [packet]) else w, r)
  | Err _ => (w, r)
  end.

(** The request body of a frame, encrypted on a secure connection. *)
Definition BodyTypeBSON : Z := 0.

Definition encodeRequest (w : wireConn) (id : Z) (method body : bytes) : wireConn * res WireError bytes :=
  match Packet_MarshalBinary (mkPacket (mkHeader id 0 method BodyTypeBSON 0) body) 0 with
  | Err e => (w, Err (WLoco e))
  | Ok raw =>
      match w_secure w with
      | None => (w, Ok raw)
      | Some _ =>
          let '(s, r) := Encrypt (w_secure w) raw in
          (set_secure s w, lift r)
      end
  end.

Definition requestLimit : nat := 64.

(** The loop of [request]: replies to other requests are set aside. *)
Fixpoint awaitReply (limit : nat) (observing : bool) (w : wireConn) (id : Z) (method : bytes)
    (unsolicited : list Packet) : wireConn * list Packet * res WireError Packet :=
  match limit with
  | O => (w, unsolicited, Err ErrProtocol)
  | S limit =>
      let '(w, r) := read observing w in
      match r with
      | Err e => (w, unsolicited, Err e)
      | Ok packet =>
          if (PacketID (p_Header packet) =? id) && bool_decide (Method (p_Header packet) = method)
          then (w, unsolicited, Ok packet)
          else awaitReply limit observing w id method (unsolicited ++ [packet])
      end
  end.

(** [request]; [written] is whether the connection accepts the bytes. *)
Definition request (observing written : bool) (w : wireConn) (id : Z) (method body : bytes)
  : wireConn * list Packet * res WireError Packet :=
  let '(w, r) := encodeRequest w id method body in
  match r with
  | Err e => (w, [], Err e)
  | Ok raw =>
      if negb written then (w, [], Err ErrConn) else
      let w := set_c (mkConn (c_in (w_c w)) (c_end (w_c w)) (c_out (w_c w) ++ raw)) w in
      awaitReply requestLimit observing w id method []
  end.

(** [dialSecure] after the TCP connection [c] is made; [random] is the
    system's random source. *)
Definition dialSecure (random : bytes) (written : bool) (c : Conn) : res WireError wireConn :=
  match NewSecureV3 random 0 with
  | Err e => Err (WLoco e)
  | Ok secure =>
      match Handshake (Some secure) with
      | (_, Err e) => Err (WLoco e)
      | (s, Ok handshake) =>
          if negb written then Err ErrConn
          else Ok (mkWire (mkConn (c_in c) (c_end c) (c_out c ++ handshake)) s None [])
      end
  end.
End Wire.
