(* ===== verification/WireFacts.v ===== *)
(** * Reading packets through the secure layer

    The stream one side encrypts is the stream of packets the other reads. *)

From S2P Require Import Prelude.
From S2P Require Import Bytes Loco LocoFacts Wire.

Section Stream.
Context `{Crypto}.

(** ** Envelopes *)

Definition envelope (key nonce text : bytes) : bytes :=
  PutUint32 (Z.of_nat (V3NonceSize + length text + V3TagSize)) ++ nonce ++ Seal key nonce text.

(** An envelope the bounds of both sides admit. *)
Definition fits (s : SecureV3) (nt : bytes * bytes) : Prop :=
  length (fst nt) = V3NonceSize /\
  Z.of_nat (V3NonceSize + length (snd nt) + V3TagSize) <= s_maxSize s /\
  s_maxSize s <= DefaultMaxCiphertext.

Definition stream (key : bytes) (nts : list (bytes * bytes)) : bytes :=
  concat ((fun nt => envelope key (fst nt) (snd nt)) <$> nts).

Lemma envelope_length key nonce text : length nonce = V3NonceSize ->
  length (envelope key nonce text) = (4 + V3NonceSize + length text + V3TagSize)%nat.
Proof.
  intros Hn. unfold envelope, PutUint32. rewrite !length_app, le_put_length, Seal_length, Hn. lia.
Qed.

Lemma fits_uint32 s nt : fits s nt -> uint32 (Z.of_nat (V3NonceSize + length (snd nt) + V3TagSize)).
Proof.
  intros (_ & Hle & Hmax). unfold uint32, DefaultMaxCiphertext, DefaultMaxBody, HeaderSize,
    V3NonceSize, V3TagSize in *. lia.
Qed.

(** [Encrypt] produces an envelope under a nonce drawn from the source. *)
Lemma Encrypt_envelope s text s' raw : s_maxSize s <= DefaultMaxCiphertext ->
  Encrypt (Some s) text = (Some s', Ok raw) ->
  exists nonce, fits s (nonce, text) /\ raw = envelope (s_key s) nonce text /\
    s_key s' = s_key s /\ s_maxSize s' = s_maxSize s.
Proof.
  intros Hmax. unfold Encrypt, ReadFull. destruct (s_maxSize s <? _) eqn:E1; [done|].
  destruct (length (s_random s) <? _)%nat eqn:E2; [done|]. bool_prop.
  set (nonce := take V3NonceSize (s_random s)).
  assert (Hn : length nonce = V3NonceSize) by (unfold nonce; rewrite length_take; lia).
  assert (Hfits : fits s (nonce, text)) by (split_and!; done).
  pose proof (fits_uint32 _ _ Hfits) as Hu. simpl snd in Hu.
  assert (Hlen : wrapU 32 (Z.of_nat (length nonce + length (Seal (s_key s) nonce text))) =
    Z.of_nat (V3NonceSize + length text + V3TagSize)).
  { unfold wrapU. rewrite Seal_length, Hn, Nat.add_assoc. by apply Z.mod_small. }
  cbv zeta. rewrite Hlen. intros [= <- Hraw]. exists nonce. split_and!; done.
Qed.

(** [Decrypt] opens an envelope of the same key. *)
Lemma Decrypt_envelope s nt : fits s nt ->
  Decrypt s (envelope (s_key s) (fst nt) (snd nt)) = Ok (snd nt).
Proof.
  destruct nt as [nonce text]. intros Hfits. pose proof (fits_uint32 _ _ Hfits) as Hu.
  destruct Hfits as (Hn & Hle & _). cbn [fst snd] in *.
  pose proof (envelope_length (s_key s) nonce text Hn) as Hlen. unfold Decrypt. rewrite Hlen.
  replace (4 + V3NonceSize + length text + V3TagSize <? 4 + V3NonceSize + V3TagSize)%nat
    with false by lia.
  assert (Hp : sub (envelope (s_key s) nonce text) 0 4 =
    PutUint32 (Z.of_nat (V3NonceSize + length text + V3TagSize))) by (by apply sub_exact).
  rewrite Hp, Uint32_put by done. cbv zeta.
  replace (s_maxSize s <? _) with false by lia.
  replace (negb (_ =? _)) with false by lia.
  assert (Hnonce : sub (envelope (s_key s) nonce text) 4 (4 + V3NonceSize) = nonce).
  { unfold envelope. rewrite (sub_skip 4) by done.
    replace (4 + V3NonceSize - 4)%nat with V3NonceSize by lia. by apply sub_exact. }
  assert (Hc : drop (4 + V3NonceSize) (envelope (s_key s) nonce text) = Seal (s_key s) nonce text).
  { unfold envelope. rewrite <- drop_drop, drop_app_length' by done.
    by rewrite drop_app_length'. }
  by rewrite Hnonce, Hc, Open_Seal.
Qed.

(** ** The reading loop *)

(** The connection is part way through a stream of packets. *)
Record receiving (s : SecureV3) (p : Producer) (w : wireConn) (nts : list (bytes * bytes))
    (ps : list Packet) (raws : list bytes) : Prop := {
  rc_in : c_in (w_c w) = stream (s_key s) nts;
  rc_end : c_end (w_c w) = EndEOF;
  rc_fits : Forall (fits s) nts;
  rc_reading : reading DefaultMaxBody p (concat (snd <$> nts)) ps raws;
  rc_buffer : maxBuffer p = DefaultMaxBuffer;
  rc_secure : w_secure w = Some s;
}.

Lemma ReadFullConn_app n c l r : c_in c = l ++ r -> length l = n ->
  ReadFullConn n c = (mkConn r (c_end c) (c_out c), Ok l).
Proof.
  intros Hin Hl. unfold ReadFullConn. rewrite Hin, length_app.
  replace (length l + length r <? n)%nat with false by lia.
  by rewrite <- Hl, drop_app_length, take_app_length.
Qed.

Lemma ReadFullConn_eof n c : c_in c = [] -> c_end c = EndEOF -> (0 < n)%nat ->
  ReadFullConn n c = (mkConn [] (c_end c) (c_out c), Err EOF).
Proof. intros Hin He Hn. unfold ReadFullConn. rewrite Hin, He. by destruct n; [lia|]. Qed.


Lemma stream_cons key nt nts : stream key (nt :: nts) =
  PutUint32 (Z.of_nat (V3NonceSize + length (snd nt) + V3TagSize)) ++
  (fst nt ++ Seal key (fst nt) (snd nt)) ++ stream key nts.
Proof. unfold stream, envelope. simpl. by rewrite <- !app_assoc. Qed.

(** One iteration that finds no frame: the next envelope is opened and
    appended. The bounds of the two sides leave room for any chunk. *)
Lemma readSecure_envelope fuel s p w nt nts ps raws :
  receiving s p w (nt :: nts) ps raws -> parse1 DefaultMaxBody (buffer p) = None ->
  exists p' w', readSecure (S fuel) s p w = readSecure fuel s p' w' /\ receiving s p' w' nts ps raws /\
    (length (c_in (w_c w')) < length (c_in (w_c w)))%nat.
Proof.
  intros [Hin He Hf Hr Hb Hs] E. apply Forall_cons in Hf as [Hfit Hf].
  destruct (next_reading _ _ _ _ _ Hr) as [[? _]|(_ & p' & evs & En & Hr' & Hbuf & Hmx & _)]; [done|].
  pose proof (parse1_incomplete DefaultMaxBody (buffer p) ltac:(done) E) as Hsmall.
  simpl in Hr'. pose proof (fits_uint32 _ _ Hfit) as Hu. pose proof Hfit as (Hn & Hle & Hmax).
  set (n := Z.of_nat (V3NonceSize + length (snd nt) + V3TagSize)) in *.
  set (c := w_c w) in *.
  assert (Hsl : length (fst nt ++ Seal (s_key s) (fst nt) (snd nt)) = Z.to_nat n)
    by (rewrite length_app, Seal_length, Hn; unfold n; lia).
  set (w1 := set_producer p' w).
  set (p2 := set_buffer (buffer p' ++ snd nt) p').
  assert (Happ : Append p' (snd nt) = (p2, None)).
  { apply Append_fits; [apply Hr'|]. rewrite Hmx, Hb, Hbuf. unfold n, DefaultMaxBuffer in *.
    unfold DefaultMaxCiphertext, DefaultMaxBody, V3NonceSize, V3TagSize, HeaderSize in *.
    simpl in Hsmall. lia. }
  eexists p2, _. cbn [readSecure]. unfold Next. rewrite En.
  rewrite (ReadFullConn_app 4 _ (PutUint32 n)
    ((fst nt ++ Seal (s_key s) (fst nt) (snd nt)) ++ stream (s_key s) nts));
    [|etransitivity; [exact Hin | apply stream_cons] | done].
  rewrite Uint32_put by done. replace (n =? 0) with false by (unfold n, V3NonceSize; lia).
  replace (DefaultMaxCiphertext <? n) with false by lia.
  rewrite (ReadFullConn_app (Z.to_nat n) _ (fst nt ++ Seal (s_key s) (fst nt) (snd nt)) (stream (s_key s) nts));
    [|done | done].
  pose proof (Decrypt_envelope s nt Hfit) as Hdec. unfold envelope in Hdec. fold n in Hdec.
  rewrite Hdec, Happ. split; [reflexivity|]. split.
  - constructor; simpl; try done; [by apply reading_append | by rewrite Hmx].
  - simpl. fold c. rewrite Hin, stream_cons, !length_app.
    unfold PutUint32. rewrite le_put_length. lia.
Qed.

(** Reading yields the next packet of the stream, and the end of the stream
    after the last. *)
Lemma readSecure_packets s nts : forall fuel p w ps raws, receiving s p w nts ps raws ->
  (length (c_in (w_c w)) < fuel)%nat ->
  match ps with
  | [] => exists w', readSecure fuel s p w = (w', Err EOF)
  | pk :: ps' => exists w' p' nts' raws', readSecure fuel s p w = (w', Ok (arrival pk)) /\
      receiving s p' w' nts' ps' raws' /\ w_producer w' = Some p'
  end.
Proof.
  induction nts as [|nt nts IH]; intros fuel p w ps raws Hrc Hfuel;
    (destruct fuel as [|fuel]; [lia|]);
    pose proof Hrc as [Hin He Hf Hr Hb Hs];
    (destruct (next_reading _ _ _ _ _ Hr) as
      [(_ & pk & ps' & raws' & p' & -> & En & Hr' & _ & Hmx & _)|(E & p' & evs & En & Hr' & Hbuf & Hmx & _)];
      [eexists (set_producer p' w), p', _, raws'; split_and!;
         [cbn [readSecure]; unfold Next; by rewrite En
         | constructor; first [exact Hr' | by rewrite Hmx | done] | done]|]).
  - simpl concat in Hr. destruct (reading_finished _ _ _ _ Hr E) as [-> Hempty].
    cbn [readSecure]. unfold Next. rewrite En.
    rewrite (ReadFullConn_eof 4) by (done || lia).
    unfold Buffered. rewrite Hbuf, Hempty. by eexists.
  - destruct (readSecure_envelope fuel s p w nt nts ps raws Hrc E) as (p2 & w2 & -> & Hrc2 & Hlt).
    apply (IH fuel p2 w2 ps raws Hrc2). lia.
Qed.

(** ** Every packet of a connection *)

(** [n] calls of [read]. *)
Fixpoint reads (n : nat) (w : wireConn) : list (res WireError Packet) :=
  match n with
  | O => []
  | S n => let '(w, r) := read false w in r :: reads n w
  end.

Definition producerOf (w : wireConn) : Producer := default (NewProducer 0 0) (w_producer w).

Lemma receiving_set s p w nts ps raws :
  receiving s p w nts ps raws -> receiving s p (set_producer p w) nts ps raws.
Proof. intros [? ? ? ? ? ?]. by constructor. Qed.

Lemma reads_stream s ps : forall w nts raws, receiving s (producerOf w) w nts ps raws ->
  reads (S (length ps)) w = (Ok <$> (arrival <$> ps)) ++ [Err EOF].
Proof.
  induction ps as [|pk ps IH]; intros w nts raws Hrc; pose proof (receiving_set _ _ _ _ _ _ Hrc) as Hrc';
    pose proof (readSecure_packets s nts (S (length (c_in (w_c w)))) _ _ _ _ Hrc'
      ltac:(simpl; lia)) as Hread.
  - destruct Hread as (w' & E). simpl length. cbn [reads]. unfold read, readFrame.
    rewrite (rc_secure _ _ _ _ _ _ Hrc). fold (producerOf w). by rewrite E.
  - destruct Hread as (w' & p' & nts' & raws' & E & Hrc2 & Hp).
    simpl length. cbn [reads]. unfold read at 1, readFrame.
    rewrite (rc_secure _ _ _ _ _ _ Hrc). fold (producerOf w). rewrite E.
    rewrite !fmap_cons. cbn [app]. f_equal. apply (IH w' nts' raws').
    unfold producerOf. by rewrite Hp.
Qed.

(** The sender: each chunk of plaintext encrypted in turn. *)
Fixpoint sendAll (s : SecureV3) (chunks : list bytes) : option bytes :=
  match chunks with
  | [] => Some []
  | chunk :: rest =>
      match Encrypt (Some s) chunk with
      | (Some s, Ok raw) => (fun more => raw ++ more) <$> sendAll s rest
      | _ => None
      end
  end.

Lemma sendAll_stream chunks : forall s bs, s_maxSize s = DefaultMaxCiphertext ->
  sendAll s chunks = Some bs -> exists nts, bs = stream (s_key s) nts /\ snd <$> nts = chunks /\
    forall s2, s_maxSize s2 = DefaultMaxCiphertext -> Forall (fits s2) nts.
Proof.
  induction chunks as [|chunk chunks IH]; intros s bs Hmax E; cbn [sendAll] in E.
  - simplify_eq. by exists [].
  - destruct (Encrypt (Some s) chunk) as [[s'|] [raw|]] eqn:Ee; try done.
    destruct (Encrypt_envelope s chunk s' raw ltac:(lia) Ee) as (nonce & Hfit & -> & Hk & Hm).
    apply fmap_Some in E as (more & E & ->).
    destruct (IH s' more ltac:(lia) E) as (nts & -> & <- & Hall).
    exists ((nonce, chunk) :: nts). rewrite Hk. split_and!; [done | done |].
    intros s2 H2. constructor; [|by apply Hall]. destruct Hfit as (? & ? & ?). split_and!; [done|lia..].
Qed.
End Stream.
