(* ===== verification/WireTheorems.v ===== *)
(** * Theorems about framing and the wire

    Packets survive marshalling, chunking, encryption and reading; requests
    return exactly their own reply. *)

From S2P Require Import Prelude.
From S2P Require Import Bytes Loco LocoFacts Wire WireFacts.

(** ** Frames *)

(** A packet marshals exactly when its method is one to eleven ASCII
    characters and its body within the bound, and the frame is then its header,
    with the body's length filled in, followed by its body. *)
Theorem packet_roundtrip p max :
  packet_typed max p ->
  match Packet_MarshalBinary p max with
  | Ok raw =>
      ParseHeader (take HeaderSize raw) max = Ok (set_BodyLen (Z.of_nat (length (p_Body p))) (p_Header p)) /\
      drop HeaderSize raw = p_Body p /\
      method_ok (Method (p_Header p)) /\
      Z.of_nat (length (p_Body p)) <= (if max =? 0 then DefaultMaxBody else max)
  | Err ErrBodyTooLarge =>
      (if max =? 0 then DefaultMaxBody else max) < Z.of_nat (length (p_Body p))
  | Err e => e = ErrInvalidMethod /\ ~ method_ok (Method (p_Header p))
  end.
Proof.
  intros Hp. destruct (Packet_MarshalBinary p max) as [raw|e] eqn:E.
  - destruct (Packet_MarshalBinary_ok _ _ _ Hp E) as (hdr & Eh & -> & Ht & Hle).
    pose proof (MarshalBinary_length _ _ (ht_method _ Ht) Eh) as Hlen.
    rewrite (take_app_length' hdr), (drop_app_length' hdr) by done.
    rewrite (ParseHeader_MarshalBinary _ _ _ Ht Eh).
    replace (_ <? BodyLen _) with false by (simpl; lia). split_and!; [done | done | | done].
    apply MarshalBinary_shape in Eh as [Hm _]; [done | apply Ht].
  - pose proof (MarshalBinary_iff (set_BodyLen (wrapU 32 (Z.of_nat (length (p_Body p)))) (p_Header p))
      (ht_method _ (proj1 Hp))) as Hiff. simpl Method in Hiff.
    unfold Packet_MarshalBinary in E. destruct (_ <? _) eqn:El.
    + simplify_eq. bool_prop. lia.
    + destruct (Header_MarshalBinary _) as [hdr|e'] eqn:Eh; [done|].
      assert (e = ErrInvalidMethod) as ->.
      { unfold Header_MarshalBinary in Eh. repeat (split_test_in Eh; [congruence|]). done. }
      split; [done|]. intros Hm. apply Hiff in Hm as [raw Hraw]. done.
Qed.

Definition pingPacket : Packet := mkPacket (mkHeader 1000 0 [80; 73; 78; 71] 0 0) [5; 0; 0; 0; 0].
Definition writePacket : Packet := mkPacket (mkHeader 1001 0 [87; 82; 73; 84; 69] 0 0) [7; 8].

Ltac typed := split; [constructor; simpl; unfold uint32, uint16, bytes_ok; repeat constructor; lia
                     | simpl; unfold uint32, DefaultMaxBody; lia].

Lemma ping_typed : packet_typed 0 pingPacket.
Proof. typed. Qed.

Lemma write_typed : packet_typed 0 writePacket.
Proof. typed. Qed.

Definition marshalled (p : Packet) : bytes :=
  match Packet_MarshalBinary p 0 with Ok raw => raw | Err _ => [] end.

Lemma packet_roundtrip_witness :
  ParseHeader (take HeaderSize (marshalled pingPacket)) 0 =
    Ok (mkHeader 1000 0 [80; 73; 78; 71] 0 5) /\ drop HeaderSize (marshalled pingPacket) = [5; 0; 0; 0; 0].
Proof.
  pose proof (packet_roundtrip pingPacket 0 ping_typed) as H.
  change (Packet_MarshalBinary pingPacket 0) with (@Ok Error _ (marshalled pingPacket)) in H.
  cbv beta iota in H. destruct H as (H1 & H2 & _). exact (conj H1 H2).
Defined.

(** ** The frame reader *)

(** A sequence of supplies. *)
Fixpoint feedAll (p : Producer) (chunks : list bytes) : Producer * list Event * option Error :=
  match chunks with
  | [] => (p, [], None)
  | chunk :: rest =>
      match Feed p chunk with
      | (p, evs, Some e) => (p, evs, Some e)
      | (p, evs, None) =>
          let '(p, evs', err) := feedAll p rest in (p, evs ++ evs', err)
      end
  end.

Lemma feedAll_reading max chunks : forall p ps raws, reading max p (concat chunks) ps raws ->
  parse1 max (buffer p) = None -> 0 <= (if max =? 0 then DefaultMaxBody else max) ->
  Forall (fun c => Z.of_nat (length c) + Z.of_nat HeaderSize +
    (if max =? 0 then DefaultMaxBody else max) <= maxBuffer p) chunks ->
  exists p', feedAll p chunks = (p', owed p ps, None) /\ buffer p' = [].
Proof.
  induction chunks as [|chunk chunks IH]; intros p ps raws Hr E Hmax Hfit.
  - destruct (reading_finished _ _ _ _ Hr E) as [-> Hb]. exists p. split; [|done].
    cbn [feedAll]. unfold owed. by destruct (header p).
  - apply Forall_cons in Hfit as [Hc Hfit]. cbn [feedAll concat] in *.
    pose proof (parse1_incomplete _ _ Hmax E) as Hsmall.
    destruct (Feed_reading max p chunk (concat chunks) ps raws Hr) as
      (p' & evs & ps' & raws' & -> & Hr' & Ho & E' & Hmx); [lia|].
    destruct (IH p' ps' raws' Hr' E' Hmax) as (p2 & -> & Hb); [by rewrite Hmx|].
    exists p2. by rewrite Ho.
Qed.

(** C37: however a stream of frames is cut into supplies, as long as each leaves
    room for one incomplete frame, [Feed] makes exactly one header callback and
    then one packet callback per packet, in order, and ends with nothing
    buffered. *)
Theorem Feed_chunking mb mx ps raws chunks :
  let max := if mb =? 0 then DefaultMaxBody else mb in
  Forall2 (sent max) ps raws -> 0 < max ->
  Forall (fun c => Z.of_nat (length c) + Z.of_nat HeaderSize + max <=
    (if mx =? 0 then DefaultMaxBuffer else mx)) chunks ->
  concat chunks = concat raws ->
  exists p, feedAll (NewProducer mb mx) chunks = (p, callbacks ps, None) /\ Buffered p = 0%nat.
Proof.
  intros max Hs Hmax Hfit Hc.
  destruct (feedAll_reading max chunks (NewProducer mb mx) ps raws) as (p & E & Hb).
  - constructor; [apply NewProducer_ok | done | done | exact Hc].
  - done.
  - replace (max =? 0) with false by lia. lia.
  - replace (max =? 0) with false by lia. exact Hfit.
  - exists p. split; [exact E|]. unfold Buffered. by rewrite Hb.
Qed.

Definition twoFrames : bytes := marshalled pingPacket ++ marshalled writePacket.

Lemma sent_examples max : max = 0 \/ max = DefaultMaxBody ->
  Forall2 (sent max) [pingPacket; writePacket] [marshalled pingPacket; marshalled writePacket].
Proof. intros [-> | ->]; (constructor; [|constructor; [|constructor]]); (split; [typed | reflexivity]). Qed.

Lemma Feed_chunking_witness :
  exists p, feedAll (NewProducer 0 0) [take 10 twoFrames; take 30 (drop 10 twoFrames); drop 40 twoFrames] =
    (p, callbacks [pingPacket; writePacket], None) /\ Buffered p = 0%nat.
Proof.
  refine (Feed_chunking 0 0 [pingPacket; writePacket] [marshalled pingPacket; marshalled writePacket]
    [take 10 twoFrames; take 30 (drop 10 twoFrames); drop 40 twoFrames] _ _ _ _).
  - apply sent_examples. by right.
  - reflexivity.
  - repeat constructor; vm_compute; discriminate.
  - reflexivity.
Defined.

Lemma next_bounded p p' evs r : next p = (p', evs, r) ->
  (length (buffer p') <= length (buffer p))%nat /\ maxBuffer p' = maxBuffer p /\
  (failed p = false -> failed p' = match r with Err _ => true | Ok _ => false end).
Proof.
  unfold next. destruct (failed p) eqn:Ef; [by intros [= <- <- <-]|].
  destruct (header p) as [h|]; [|destruct (length (buffer p) <? _)%nat; [|destruct (ParseHeader _ _) as [h|]]];
    cbv zeta iota beta; try (intros [= <- <- <-]; simpl; split_and!; (done || lia));
    destruct (length (buffer _) <? _)%nat; intros E; injection E as <- <- <-; cbn [buffer set_header set_buffer];
    rewrite ?length_drop; split_and!; (done || lia).
Qed.

Lemma Feed_loop_bounded fuel : forall p p' evs err, Feed_loop fuel p = (p', evs, err) ->
  (length (buffer p') <= length (buffer p))%nat /\ maxBuffer p' = maxBuffer p /\
  (failed p = false -> failed p' = match err with Some _ => true | None => false end).
Proof.
  induction fuel as [|fuel IH]; intros p p' evs err E; cbn [Feed_loop] in E; [by simplify_eq|].
  destruct (next p) as [[p1 evs1] r] eqn:En. destruct (next_bounded _ _ _ _ En) as (Hl & Hm & Hf).
  destruct r as [[pk|]|e]; [|by simplify_eq..].
  destruct (length (buffer p1) =? 0)%nat; [by simplify_eq|].
  destruct (Feed_loop fuel p1) as [[p2 evs2] err2] eqn:E2. simplify_eq.
  destruct (IH _ _ _ _ E2) as (Hl2 & Hm2 & Hf2). split_and!; [lia | by rewrite Hm2 |].
  intros H0. apply Hf2, Hf, H0.
Qed.

(** C38: a producer never holds more than its buffer bound; it fails exactly
    when [Feed] reports an error, and once failed it delivers nothing, changes
    nothing and reports [ErrProducerFailed]. *)
Theorem producer_bounded p chunk p' evs err :
  Z.of_nat (Buffered p) <= maxBuffer p -> Feed p chunk = (p', evs, err) ->
  Z.of_nat (Buffered p') <= maxBuffer p' /\ maxBuffer p' = maxBuffer p /\
  (if failed p then p' = p /\ evs = [] /\ err = Some ErrProducerFailed
   else failed p' = match err with Some _ => true | None => false end).
Proof.
  intros Hb. unfold Feed, Append, Buffered in *. destruct (failed p) eqn:Ef; [by intros [= <- <- <-]|].
  destruct (maxBuffer p <? _) eqn:El; [by intros [= <- <- <-]|]. bool_prop. intros E.
  destruct (Feed_loop_bounded _ _ _ _ _ E) as (Hl & Hm & Hf). simpl in Hl, Hm, Hf.
  rewrite length_app in Hl. split_and!; [rewrite Hm; lia | done | by apply Hf].
Qed.

Lemma producer_bounded_witness :
  let '(p, _, _) := Feed (NewProducer 0 64) (take 40 twoFrames) in Z.of_nat (Buffered p) <= maxBuffer p.
Proof.
  destruct (Feed (NewProducer 0 64) (take 40 twoFrames)) as [[p evs] err] eqn:E.
  refine (proj1 (producer_bounded (NewProducer 0 64) (take 40 twoFrames) p evs err _ E)).
  vm_compute. discriminate.
Defined.

(** ** Connections *)

Section Connections.
Context `{Crypto}.

Lemma sent_default ps raws : Forall2 (sent 0) ps raws <-> Forall2 (sent DefaultMaxBody) ps raws.
Proof. done. Qed.

(** C28: whatever the plaintext chunks a sender encrypts are, as long as
    together they are the frames of its packets, the receiver of the encrypted
    stream reads exactly those packets, in order, and then the end of the
    stream: no bound of the receiver's is ever hit. *)
Theorem secure_stream_delivered s r w ps raws chunks bs :
  s_maxSize s = DefaultMaxCiphertext -> s_key r = s_key s -> s_maxSize r = DefaultMaxCiphertext ->
  Forall2 (sent 0) ps raws -> concat chunks = concat raws -> sendAll s chunks = Some bs ->
  w_secure w = Some r -> w_producer w = None -> c_in (w_c w) = bs -> c_end (w_c w) = EndEOF ->
  reads (S (length ps)) w = (Ok <$> (arrival <$> ps)) ++ [Err EOF].
Proof.
  intros Hs Hk Hr Hsent Hc Hbs Hw Hp Hin He.
  destruct (sendAll_stream chunks s bs Hs Hbs) as (nts & -> & Hnts & Hfits).
  assert (Hprod : producerOf w = NewProducer 0 0) by (unfold producerOf; by rewrite Hp).
  apply (reads_stream r ps w nts raws). rewrite Hprod. constructor; try done.
  - by rewrite Hk.
  - by apply Hfits.
  - constructor; [apply NewProducer_ok | done | exact Hsent |].
    cbn [NewProducer buffer]. by rewrite Hnts, Hc.
Qed.

(** A plain connection carrying the frames of a list of packets reads
    exactly those packets and then the end of the stream. *)
Theorem plain_stream_delivered ps : forall raws w,
  Forall2 (sent 0) ps raws -> w_secure w = None -> c_in (w_c w) = concat raws -> c_end (w_c w) = EndEOF ->
  reads (S (length ps)) w = (Ok <$> (arrival <$> ps)) ++ [Err EOF].
Proof.
  induction ps as [|pk ps IH]; intros raws w Hs Hw Hin He; inversion Hs as [|? raw ? raws' [Hp E] Hs']; subst.
  - cbn [length reads]. unfold read, readFrame, readPlain. rewrite Hw.
    by rewrite (ReadFullConn_eof HeaderSize) by (done || unfold HeaderSize; lia).
  - destruct (Packet_MarshalBinary_ok _ _ _ Hp E) as (hdr & Eh & -> & Ht & Hle).
    pose proof (MarshalBinary_length _ _ (ht_method _ Ht) Eh) as Hlen.
    cbn [length]. cbn [reads]. unfold read at 1, readFrame, readPlain. rewrite Hw.
    rewrite (ReadFullConn_app HeaderSize _ hdr (p_Body pk ++ concat raws'))
      by (rewrite ?Hin; simpl; rewrite ?app_assoc; done).
    rewrite (ParseHeader_MarshalBinary _ _ _ Ht Eh).
    replace (_ <? BodyLen _) with false by (simpl in *; lia).
    rewrite (ReadFullConn_app (Z.to_nat (BodyLen (p_Header (arrival pk)))) _ (p_Body pk) (concat raws'))
      by (done || (simpl; lia)).
    rewrite !fmap_cons. cbn [app]. f_equal. by apply (IH raws').
Qed.

Lemma ReadFullConn_out n c c' r : ReadFullConn n c = (c', r) -> c_out c' = c_out c.
Proof. unfold ReadFullConn. destruct (_ <? _)%nat; intros E; by simplify_eq. Qed.

(** Reading changes neither what was written nor what was observed before. *)
Lemma readSecure_keeps fuel : forall s p w w' r, readSecure fuel s p w = (w', r) ->
  c_out (w_c w') = c_out (w_c w) /\ w_observed w' = w_observed w.
Proof.
  induction fuel as [|fuel IH]; intros s p w w' r E; cbn [readSecure] in E; [by simplify_eq|].
  destruct (Next p) as [p1 r1]. destruct r1 as [[pk|]|e]; [by simplify_eq| |by simplify_eq].
  destruct (ReadFullConn 4 _) as [c1 r2] eqn:E1. apply ReadFullConn_out in E1. simpl in E1.
  destruct r2 as [prefix|e]; [|by simplify_eq].
  destruct (_ =? 0); [by apply IH in E as [-> ->]|]. destruct (_ <? _); [by simplify_eq|].
  destruct (ReadFullConn _ _) as [c2 r3] eqn:E2. apply ReadFullConn_out in E2. simpl in E2.
  destruct r3 as [rest|e]; [|simplify_eq; split; simpl; congruence].
  destruct (Decrypt _ _) as [text|e]; [|simplify_eq; split; simpl; congruence].
  destruct (Append _ _) as [p2 [e|]]; [simplify_eq; split; simpl; congruence|].
  apply IH in E as [-> ->]. split; simpl; congruence.
Qed.

Lemma readFrame_keeps w w' r : readFrame w = (w', r) ->
  c_out (w_c w') = c_out (w_c w) /\ w_observed w' = w_observed w.
Proof.
  unfold readFrame. destruct (w_secure w) as [s|]; [by intros E%readSecure_keeps|].
  unfold readPlain, ReadFullConn. intros E. repeat (split_test_in E; simplify_eq; try done).
Qed.

Definition matches (id : Z) (method : bytes) (packet : Packet) : Prop :=
  PacketID (p_Header packet) = id /\ Method (p_Header packet) = method.

Lemma awaitReply_spec limit : forall w id method acc w' uns r,
  awaitReply limit true w id method acc = (w', uns, r) ->
  exists more, uns = acc ++ more /\ (length more <= limit)%nat /\ Forall (fun p => ~ matches id method p) more /\
    c_out (w_c w') = c_out (w_c w) /\
    match r with
    | Ok packet => matches id method packet /\ (length more < limit)%nat /\
        w_observed w' = w_observed w ++ more ++ [packet]
    | Err _ => w_observed w' = w_observed w ++ more
    end.
Proof.
  induction limit as [|limit IH]; intros w id method acc w' uns r E; cbn [awaitReply] in E.
  - simplify_eq. exists []. rewrite !app_nil_r. by split_and!.
  - unfold read in E. destruct (readFrame w) as [w1 [packet|e]] eqn:Er;
      apply readFrame_keeps in Er as [Hout Hobs].
    + cbn [p_Header] in E. destruct (_ && bool_decide _) eqn:Em.
      * simplify_eq. apply andb_true_iff in Em as [Em1 Em2%bool_decide_eq_true].
        exists []. rewrite app_nil_r. split_and!; simpl; try done; [lia | | lia | by rewrite Hobs].
        split; [lia | done].
      * apply IH in E as (more & -> & Hl & Hall & Hout2 & Hr). simpl in Hout2, Hr.
        exists (packet :: more). rewrite <- app_assoc. split_and!; simpl; [done | lia | | congruence |].
        -- constructor; [|done]. intros [H1 H2]. rewrite H2, bool_decide_true in Em by done. lia.
        -- rewrite Hobs in Hr. destruct r; [|by rewrite <- app_assoc in Hr].
           destruct Hr as (? & ? & Hr). rewrite <- app_assoc in Hr. split_and!; [done | lia | done].
    + simplify_eq. exists []. rewrite !app_nil_r. split_and!; simpl; try done; lia.
Qed.

(** [request] writes exactly one frame; the packet it returns has the
    request's ID and method, the packets set aside do not, there are fewer than
    64 of them, and they and the reply are everything that was read, in order;
    on an error the packets set aside are everything that was read. *)
Theorem request_correlates w id method body w' uns r :
  request true true w id method body = (w', uns, r) ->
  Forall (fun p => ~ matches id method p) uns /\
  match r with
  | Ok packet =>
      matches id method packet /\ (length uns < requestLimit)%nat /\
      w_observed w' = w_observed w ++ uns ++ [packet] /\
      exists raw, snd (encodeRequest w id method body) = Ok raw /\
        c_out (w_c w') = c_out (w_c w) ++ raw
  | Err _ => w_observed w' = w_observed w ++ uns
  end.
Proof.
  unfold request. assert (Hkeep : forall w1 r1, encodeRequest w id method body = (w1, r1) ->
    w_c w1 = w_c w /\ w_observed w1 = w_observed w).
  { intros w1 r1. unfold encodeRequest. destruct (Packet_MarshalBinary _ _); [|by intros [= <- <-]].
    destruct (w_secure w); [|by intros [= <- <-]]. destruct (Encrypt _ _). by intros [= <- <-]. }
  destruct (encodeRequest w id method body) as [w1 [raw|e]] eqn:Ee;
    destruct (Hkeep _ _ eq_refl) as [Hc Ho].
  - cbn [negb]. cbv beta iota zeta. intros E. apply awaitReply_spec in E as (more & -> & Hl & Hall & Hout & Hr). simpl in Hout, Hr.
    split; [done|]. rewrite Ho in Hr. destruct r as [packet|e]; [|done].
    destruct Hr as (Hm & Hlt & Hobs). split_and!; [done..|]. exists raw. by rewrite Hout, Hc.
  - intros [= <- <- <-]. split; [constructor|]. by rewrite app_nil_r.
Qed.
End Connections.

(** ** Witnesses *)

(** A stand-in for AES-GCM with the lengths of the real one: the tag is the key. *)
Definition demoTag (key : bytes) : bytes := take V3TagSize (key ++ replicate V3TagSize 0).

Lemma demoTag_length key : length (demoTag key) = V3TagSize.
Proof. unfold demoTag. rewrite length_take, length_app, length_replicate. lia. Qed.

#[export, refine] Instance demoCrypto : Crypto := {
  Seal key nonce text := text ++ demoTag key;
  GcmOpen key nonce sealed :=
    let n := (length sealed - V3TagSize)%nat in
    if bool_decide (drop n sealed = demoTag key) then Some (take n sealed) else None;
  WrapKey random key := Some (replicate 256 1, random);
}.
Proof.
  - intros. by rewrite length_app, demoTag_length.
  - intros key nonce text. cbv zeta. rewrite length_app, demoTag_length, Nat.add_sub.
    rewrite drop_app_length, bool_decide_true by done. by rewrite take_app_length.
Defined.

Definition demoSecure : SecureV3 := mkSecureV3 (replicate 16 9) (replicate 100 3) DefaultMaxCiphertext.
Definition demoChunks : list bytes := [take 10 twoFrames; take 30 (drop 10 twoFrames); drop 40 twoFrames].
Definition demoStream : bytes := default [] (sendAll demoSecure demoChunks).
Definition demoWire (secure : option SecureV3) (incoming : bytes) : wireConn :=
  mkWire (mkConn incoming EndEOF []) secure None [].

Lemma secure_stream_delivered_witness :
  reads 3 (demoWire (Some demoSecure) demoStream) =
    [Ok (arrival pingPacket); Ok (arrival writePacket); Err EOF].
Proof.
  refine (secure_stream_delivered demoSecure demoSecure (demoWire (Some demoSecure) demoStream)
    [pingPacket; writePacket] [marshalled pingPacket; marshalled writePacket] demoChunks demoStream
    _ _ _ _ _ _ _ _ _ _); try reflexivity.
  apply sent_examples. by left.
Defined.

Lemma plain_stream_delivered_witness :
  reads 3 (demoWire None twoFrames) = [Ok (arrival pingPacket); Ok (arrival writePacket); Err EOF].
Proof.
  refine (plain_stream_delivered [pingPacket; writePacket]
    [marshalled pingPacket; marshalled writePacket] (demoWire None twoFrames) _ _ _ _); try reflexivity.
  apply sent_examples. by left.
Defined.

Lemma request_correlates_witness :
  let '(_, uns, r) := request true true (demoWire None twoFrames) 1001 [87; 82; 73; 84; 69] [] in
  match r with
  | Ok packet => Forall (fun p => ~ matches 1001 [87; 82; 73; 84; 69] p) uns /\ length uns = 1%nat
  | Err _ => False
  end.
Proof.
  destruct (request true true (demoWire None twoFrames) 1001 [87; 82; 73; 84; 69] []) as [[w uns] r] eqn:E.
  pose proof (request_correlates (demoWire None twoFrames) 1001 [87; 82; 73; 84; 69] [] w uns r E) as [H _].
  vm_compute in E. injection E as <- <- <-. split; [exact H | reflexivity].
Defined.
