(* ===== verification/Bson.v ===== *)
(** * BSON documents (src/internal/protocol/bsonfield/bsonfield.go)

    The MongoDB driver's [bson] package is an interface: a document is a value
    of [Raw], read by key or in order, and written by [Marshal].  The accessors
    of bsonfield.go are defined over it, and [treeBson] is an implementation
    that the examples evaluate. *)

From stdpp Require Import pretty.
From S2P Require Import Prelude.

(** ** The driver *)

(** [bson.RawValue], by its BSON type; [VOther] is any type the code does not
    name, with its type byte. *)
Inductive Value (R : Type) :=
| VInt32 (n : Z)
| VInt64 (n : Z)
| VDouble
| VString (s : string)
| VBoolean (b : bool)
| VDocument (r : R)
| VArray (r : R)
| VNull
| VUndefined
| VBinary
| VOther (t : Z).
Arguments VInt32 {R} n.
Arguments VInt64 {R} n.
Arguments VDouble {R}.
Arguments VString {R} s.
Arguments VBoolean {R} b.
Arguments VDocument {R} r.
Arguments VArray {R} r.
Arguments VNull {R}.
Arguments VUndefined {R}.
Arguments VBinary {R}.
Arguments VOther {R} t.

Fixpoint assoc {A} (k : string) (l : list (string * A)) : option A :=
  match l with
  | [] => None
  | (k', a) :: rest => if String.eqb k k' then Some a else assoc k rest
  end.

(** What the code relies on of the driver: marshalled documents are valid and
    give their fields back. *)
Class Bson := {
  Raw : Type;
  Validate : Raw -> bool;
  LookupErr : Raw -> string -> option (Value Raw); (* None: an error *)
  Elements : Raw -> option (list (string * Value Raw));
  Values : Raw -> option (list (Value Raw));
  Marshal : list (string * Value Raw) -> Raw;
  MarshalArray : list (Value Raw) -> Raw;
  Encodable : Raw -> bool; (* the encoder accepts it as an embedded document *)
  Marshal_valid d : Validate (Marshal d) = true;
  Marshal_lookup d k : LookupErr (Marshal d) k = assoc k d;
  Marshal_values l : Values (MarshalArray l) = Some l;
  Marshal_elements d : Elements (Marshal d) = Some d;
  Elements_lookup r d k : Elements r = Some d -> LookupErr r k = assoc k d;
}.

(** ** Field readers *)

Section Fields.
Context `{Bson}.

(** [Reader]: the sentinel error and the null policy. *)
Record Reader (E : Type) := mkReader { rd_Err : E; NullAbsent : bool }.
Arguments mkReader {E} rd_Err NullAbsent.
Arguments rd_Err {E} r.
Arguments NullAbsent {E} r.

Definition isNullish (v : Value Raw) : bool :=
  match v with VNull | VUndefined => true | _ => false end.

Fixpoint Lookup {E} (r : Reader E) (raw : Raw) (keys : list string) : option (Value Raw) :=
  match keys with
  | [] => None
  | key :: keys =>
      match LookupErr raw key with
      | None => Lookup r raw keys
      | Some value =>
          if NullAbsent r && isNullish value then Lookup r raw keys else Some value
      end
  end.

Definition Int64Value (v : Value Raw) : option Z :=
  match v with VInt32 n | VInt64 n => Some n | _ => None end.

(** The accessors return [Ok None] for an absent field. *)
Definition Int64 {E} (r : Reader E) (raw : Raw) (keys : list string) : res E (option Z) :=
  match Lookup r raw keys with
  | None => Ok None
  | Some value =>
      match Int64Value value with
      | Some n => Ok (Some n)
      | None => Err (rd_Err r)
      end
  end.

Definition zeroReader : Reader unit := mkReader tt false.

Definition Int64OrZero (raw : Raw) (keys : list string) : Z :=
  match Int64 zeroReader raw keys with
  | Ok (Some n) => n
  | _ => 0
  end.

Definition Int64Exact {E} (r : Reader E) (raw : Raw) (keys : list string) : res E (option Z) :=
  match Lookup r raw keys with
  | None => Ok None
  | Some (VInt64 n) => Ok (Some n)
  | Some _ => Err (rd_Err r)
  end.

Definition Int32 {E} (r : Reader E) (raw : Raw) (keys : list string) : res E (option Z) :=
  match Int64 r raw keys with
  | Err e => Err e
  | Ok None => Ok None
  | Ok (Some n) =>
      if (n <? MinInt32) || (MaxInt32 <? n) then Err (rd_Err r) else Ok (Some n)
  end.

Definition String {E} (r : Reader E) (raw : Raw) (keys : list string) : res E (option string) :=
  match Lookup r raw keys with
  | None => Ok None
  | Some (VString s) => Ok (Some s)
  | Some _ => Err (rd_Err r)
  end.

Definition Bool {E} (r : Reader E) (raw : Raw) (keys : list string) : res E (option bool) :=
  match Lookup r raw keys with
  | None => Ok None
  | Some (VBoolean b) => Ok (Some b)
  | Some _ => Err (rd_Err r)
  end.

Definition array {E} (r : Reader E) (raw : Raw) (keys : list string) : res E (option (list (Value Raw))) :=
  match Lookup r raw keys with
  | None => Ok None
  | Some (VArray a) =>
      match Values a with
      | Some values => Ok (Some values)
      | None => Err (rd_Err r)
      end
  | Some _ => Err (rd_Err r)
  end.

(** The loop of [Int64s] and [Strings]. *)
Fixpoint collect {A E} (f : Value Raw -> option A) (e : E) (values : list (Value Raw)) : res E (list A) :=
  match values with
  | [] => Ok []
  | v :: rest =>
      match f v with
      | None => Err e
      | Some a => let! l := collect f e rest in Ok (a :: l)
      end
  end.

Definition Int64s {E} (r : Reader E) (raw : Raw) (keys : list string) : res E (option (list Z)) :=
  let! values := array r raw keys in
  match values with
  | None => Ok None
  | Some values => let! l := collect Int64Value (rd_Err r) values in Ok (Some l)
  end.

Definition StringValue (v : Value Raw) : option string :=
  match v with VString s => Some s | _ => None end.

Definition Strings {E} (r : Reader E) (raw : Raw) (keys : list string) : res E (option (list string)) :=
  let! values := array r raw keys in
  match values with
  | None => Ok None
  | Some values => let! l := collect StringValue (rd_Err r) values in Ok (Some l)
  end.

Definition Document {E} (r : Reader E) (raw : Raw) (keys : list string) : res E (option Raw) :=
  match Lookup r raw keys with
  | None => Ok None
  | Some (VDocument d) => if Validate d then Ok (Some d) else Err (rd_Err r)
  | Some _ => Err (rd_Err r)
  end.
End Fields.

Arguments mkReader {E} rd_Err NullAbsent.
Arguments rd_Err {E} r.
Arguments NullAbsent {E} r.

(** ** Shapes *)

Section Shape.
Context `{Bson}.
#[local] Open Scope string_scope.

Definition hexDigit (n : Z) : string :=
  match String.get (Z.to_nat n) "0123456789abcdef" with
  | Some c => String.String c "" | None => "" end.

Definition shapeType (v : Value Raw) : string :=
  match v with
  | VString _ => "string"
  | VInt32 _ => "int32"
  | VInt64 _ => "int64"
  | VDouble => "double"
  | VBoolean _ => "bool"
  | VDocument _ => "document"
  | VArray _ => "array"
  | VNull => "null"
  | VBinary => "binary"
  | VUndefined => "type_0x06"
  | VOther t => "type_0x" +:+ hexDigit (t / 16) +:+ hexDigit (t mod 16)
  end.

(** [shape] recurses at most four levels: [levels] is [4 - depth]. *)
Fixpoint shape (levels : nat) (raw : Raw) : string :=
  match Elements raw with
  | None => "invalid"
  | Some elements =>
      let fix go (first : bool) (l : list (string * Value Raw)) : string :=
        match l with
        | [] => "}"
        | (key, value) :: rest =>
            (if first then "" else " ") +:+ key +:+ ":" +:+
            match value, levels with
            | VDocument d, S levels => shape levels d
            | _, _ => shapeType value
            end +:+ go false rest
        end in
      "{" +:+ go true elements
  end.

Definition Shape (raw : Raw) : string := shape 4 raw.
End Shape.

(** ** An implementation *)

#[warnings="-register-all"]
Inductive tree := Malformed | Tree (l : list (string * Value tree)).

Definition tree_fields (t : tree) : option (list (string * Value tree)) :=
  match t with Malformed => None | Tree l => Some l end.

#[export, refine] Instance treeBson : Bson := {
  Raw := tree;
  Validate t := match t with Malformed => false | Tree _ => true end;
  LookupErr t k := match t with Malformed => None | Tree l => assoc k l end;
  Elements := tree_fields;
  Values t := match t with Malformed => None | Tree l => Some (snd <$> l) end;
  Marshal := Tree;
  Encodable t := match t with Malformed => false | Tree _ => true end;
  MarshalArray l := Tree (imap (fun i v => (pretty i, v)) l);
}.
Proof.
  - done.
  - done.
  - intros l. simpl. f_equal. rewrite fmap_imap. apply list_eq. intros i.
    rewrite list_lookup_imap. simpl. by destruct (l !! i).
  - done.
  - intros [|l] d k; simpl; [done|]. by intros [= ->].
Defined.
