(* ===== verification/SyncMsg.v ===== *)
(** * SYNCMSG history pages (src/internal/protocol/syncmsg/syncmsg.go) *)

From S2P Require Import Prelude.
From S2P Require Import Bson.

#[local] Open Scope string_scope.
#[local] Open Scope Z_scope.

Definition MaxPageSize : Z := 300.

Inductive Error := ErrInvalidRequest | ErrInvalidResponse.

Record Request := mkRequest { ChatID : Z; Cur : Z; Max : Z; Count : Z }.
Record Target := mkTarget { Target_ChatID : Z; Target_MaxLogID : Z }.

Section SyncMsg.
Context `{Bson}.

Definition fields : Reader Error := mkReader ErrInvalidResponse false.

(** [ReadRequest.marshal]. *)
Definition marshal (r : Request) : res Error Raw :=
  if (ChatID r <=? 0) || (Cur r <? 0) || (Max r <=? 0) || (Count r <? 0) || (MaxPageSize <? Count r)
  then Err ErrInvalidRequest
  else Ok (Marshal [ ("chatId", VInt64 (ChatID r)); ("cur", VInt64 (Cur r));
                     ("max", VInt64 (Max r)); ("cnt", VInt32 (Count r)) ]).

Definition ReadRequest_MarshalBSON (r : Request) : res Error Raw :=
  if Max r <? Cur r then Err ErrInvalidRequest else marshal r.

Definition Request_MarshalBSON (r : Request) : res Error Raw :=
  if Max r <=? Cur r then Err ErrInvalidRequest else marshal r.

Record Response := mkResponse {
  ChatLogs : list Raw;
  MinLogID : Z;
  IsOK : bool;
}.

Definition TargetFromChatData (raw : Raw) : res Error Target :=
  if negb (Validate raw) then Err ErrInvalidResponse else
  match Int64 fields raw ["c"] with
  | Ok (Some chatID) =>
      if chatID <=? 0 then Err ErrInvalidResponse else
      match LookupErr raw "l" with
      | Some (VDocument last) =>
          match Int64 fields last ["logId"] with
          | Ok (Some logID) =>
              if logID <=? 0 then Err ErrInvalidResponse else
              let mismatch := match Int64 fields last ["chatId"] with
                              | Ok (Some nested) => negb (nested =? chatID)
                              | _ => false end in
              if mismatch then Err ErrInvalidResponse else
              let logID := match Int64 fields raw ["ll"] with
                           | Ok (Some lastLogID) => if logID <? lastLogID then lastLogID else logID
                           | _ => logID end in
              Ok (mkTarget chatID logID)
          | _ => Err ErrInvalidResponse
          end
      | _ => Err ErrInvalidResponse
      end
  | _ => Err ErrInvalidResponse
  end.

(** The loop of [ParseResponse]. *)
Fixpoint parseLogs (previous : Z) (values : list (Value Raw)) : res Error (list Raw) :=
  match values with
  | [] => Ok []
  | VDocument document :: rest =>
      match Int64 fields document ["logId"] with
      | Ok (Some logID) =>
          if (logID <=? 0) || ((0 <? previous) && (logID <=? previous)) then Err ErrInvalidResponse
          else let! logs := parseLogs logID rest in Ok (document :: logs)
      | _ => Err ErrInvalidResponse
      end
  | _ :: _ => Err ErrInvalidResponse
  end.

Definition ParseResponse (raw : Raw) : res Error Response :=
  if negb (Validate raw) then Err ErrInvalidResponse else
  let minLogID := Int64OrZero raw ["minLogId"] in
  let isOK := match LookupErr raw "isOK" with Some (VBoolean b) => b | _ => false end in
  match LookupErr raw "chatLogs" with
  | None | Some VNull => Ok (mkResponse [] minLogID isOK)
  | Some (VArray a) =>
      match Values a with
      | None => Err ErrInvalidResponse
      | Some values =>
          let! logs := parseLogs 0 values in Ok (mkResponse logs minLogID isOK)
      end
  | Some _ => Err ErrInvalidResponse
  end.

Definition LogID (raw : Raw) : res Error Z :=
  match Int64 fields raw ["logId"] with
  | Ok (Some value) => if value <=? 0 then Err ErrInvalidResponse else Ok value
  | _ => Err ErrInvalidResponse
  end.

(** [logID, _ := LogID(raw)]. *)
Definition logIDof (raw : Raw) : Z := match LogID raw with Ok n => n | Err _ => 0 end.

Definition PrevID (raw : Raw) : option Z :=
  match Int64 fields raw ["prevId"] with
  | Ok (Some value) => if value <? 0 then None else Some value
  | _ => None
  end.
End SyncMsg.
