(* ===== verification/MChatLogs.v ===== *)
(** * Bulk history pages (src/internal/protocol/mchatlogs/mchatlogs.go) *)

From S2P Require Import Prelude.
From S2P Require Import Bson.
From S2P Require SyncMsg.

#[local] Open Scope string_scope.
#[local] Open Scope Z_scope.

Definition MaxChats : nat := 100.

Inductive Error := ErrInvalid.

Record Request := mkRequest { ChatIDs : list Z; Sinces : list Z }.

Section MChatLogs.
Context `{Bson}.

(** The loop of [MarshalBSON]: [previous] is the chat before, if any. *)
Fixpoint validChats (previous : option Z) (ids sinces : list Z) : bool :=
  match ids, sinces with
  | id :: ids, since :: sinces =>
      if (id <=? 0) || (since <? 0) || match previous with Some p => id <=? p | None => false end
      then false
      else validChats (Some id) ids sinces
  | _, _ => true
  end.

Definition MarshalBSON (r : Request) : res Error Raw :=
  if (length (ChatIDs r) =? 0)%nat || (MaxChats <? length (ChatIDs r))%nat
     || negb (length (ChatIDs r) =? length (Sinces r))%nat
  then Err ErrInvalid
  else if negb (validChats None (ChatIDs r) (Sinces r)) then Err ErrInvalid
  else Ok (Marshal [ ("chatIds", VArray (MarshalArray (VInt64 <$> ChatIDs r)));
                     ("sinces", VArray (MarshalArray (VInt64 <$> Sinces r))) ]).

Record Response := mkResponse { ChatLogs : list Raw; EOF : bool }.

(** The loop of [ParseResponse]: [last] is the highest log of each chat so far. *)
Fixpoint parseLogs (last : gmap Z Z) (previousChat : Z) (values : list (Value Raw)) : res Error (list Raw) :=
  match values with
  | [] => Ok []
  | VDocument log :: rest =>
      let chat := Int64OrZero log ["chatId"] in
      match SyncMsg.LogID log with
      | Err _ => Err ErrInvalid
      | Ok id =>
          let seen := default 0 (last !! chat) in
          if (chat <=? 0) || (chat <? previousChat) || ((0 <? seen) && (id <=? seen))
          then Err ErrInvalid
          else let! logs := parseLogs (<[chat := id]> last) chat rest in Ok (log :: logs)
      end
  | _ :: _ => Err ErrInvalid
  end.

Definition ParseResponse (raw : Raw) : res Error Response :=
  if negb (Validate raw) then Err ErrInvalid else
  let eof := match LookupErr raw "eof" with Some (VBoolean b) => b | _ => false end in
  match LookupErr raw "chatLogs" with
  | None | Some VNull => Ok (mkResponse [] eof)
  | Some (VArray a) =>
      match Values a with
      | None => Err ErrInvalid
      | Some values => let! logs := parseLogs ∅ 0 values in Ok (mkResponse logs eof)
      end
  | Some _ => Err ErrInvalid
  end.
End MChatLogs.
