(* ===== verification/ChatLog.v ===== *)
(** * Message envelopes and reply status

    src/internal/protocol/chatlog/chatlog.go and
    src/internal/protocol/loco/status.go. *)

From S2P Require Import Prelude.
From S2P Require Import Bson.

#[local] Open Scope string_scope.
#[local] Open Scope Z_scope.

Inductive Error := ErrMalformed | ErrMissingStatus.

Section ChatLog.
Context `{Bson}.

Definition fields : Reader Error := mkReader ErrMalformed false.

Record Envelope := mkEnvelope {
  ChatID : Z;
  LogID : Z;
  AuthorID : Z;
  SentAt : Z;
  Type_ : Z;
  Log : Raw;
  LogIDInChatLog : bool;
}.

(** The message's log ID and whether it came from the inner document. *)
Definition envelopeLogID (raw log : Raw) : option (Z * bool) :=
  match Int64 fields log ["logId"] with
  | Ok (Some logID) => Some (logID, true)
  | _ => match Int64 fields raw ["logId"] with
         | Ok (Some logID) => Some (logID, false)
         | _ => None
         end
  end.

Definition DecodeIdentity (raw : Raw) : res Error Envelope :=
  if negb (Validate raw) then Err ErrMalformed else
  match Int64 fields raw ["chatId"] with
  | Ok (Some chatID) =>
      if chatID <=? 0 then Err ErrMalformed else
      match LookupErr raw "chatLog" with
      | Some (VDocument log) =>
          match envelopeLogID raw log with
          | None => Err ErrMalformed
          | Some (logID, inner) =>
              if logID <=? 0 then Err ErrMalformed
              else Ok (mkEnvelope chatID logID (Int64OrZero log ["authorId"])
                         (Int64OrZero log ["sendAt"]) 0 log inner)
          end
      | _ => Err ErrMalformed
      end
  | _ => Err ErrMalformed
  end.

Definition Decode (raw : Raw) : res Error Envelope :=
  let! envelope := DecodeIdentity raw in
  match Int64 fields (Log envelope) ["type"] with
  | Ok (Some messageType) =>
      if (messageType <? 0) || (MaxInt32 <? messageType) then Err ErrMalformed
      else Ok (mkEnvelope (ChatID envelope) (LogID envelope) (AuthorID envelope) (SentAt envelope)
                 messageType (Log envelope) (LogIDInChatLog envelope))
  | _ => Err ErrMalformed
  end.

(** [loco.Status]: the status field of a reply body. *)
Definition Status (body : Raw) : res Error Z :=
  match Int32 (mkReader ErrMissingStatus false) body ["status"] with
  | Ok (Some status) => Ok status
  | _ => Err ErrMissingStatus
  end.
End ChatLog.
