(* ===== verification/Events.v ===== *)
(** * Unsolicited packets as events (src/internal/protocol/events)

    The decoder of every push method, the feeds of type-zero chat logs and the
    delivery wrapper that turns an undecodable message into an explicit gap.
    What a supported message type carries is a payload whose decoder, like the
    JSON inside a feed, is an interface ([EventContent]); the chat and log IDs
    of an event are never the payload's. *)

From S2P Require Import Prelude.
From S2P Require Import Bytes Bson.
From S2P Require ChatLog.

#[local] Open Scope string_scope.
#[local] Open Scope Z_scope.

(** [loco.Packet]: its method and its body as a BSON document. *)
Record Packet `{Bson} := mkPacket { Method : string; Body : Raw }.

Inductive Error :=
| ErrMalformedEvent (reason : option string)
| ErrUnidentifiableMembership
| ErrUnidentifiableMessage
| ErrChatLogMisdirected.

Definition Malformed : Error := ErrMalformedEvent None.

(** [messagetype]'s values that the decoders name. *)
Definition Feed : Z := 0.
Definition DeletedAllChatTypeFlag : Z := 16384.

Record MemberIdentity := mkMember { UserID : Z; UserType : Z }.

(** The JSON of a membership feed ([*int64] fields are options) and of an edit
    or delete feed (a number that is no int64 is [None]). *)
Record MembershipFeed := mkMembershipFeed {
  mf_FeedType : Z;
  mf_Member : option (option Z * Z);
  mf_Members : list (option Z * Z);
}.
Record FeedJSON := mkFeedJSON {
  fj_FeedType : option Z;
  fj_LogID : option Z;
  fj_TargetRevision : option Z;
  fj_ByHost : bool;
}.

(** Content decoders. *)
Class EventContent `{Bson} := {
  Payload : Type;
  (** [messageDecoders]: no entry for an unsupported type; an error may carry
      the media package's reason. *)
  messageDecoders : Z -> option (ChatLog.Envelope -> res (option string) Payload);
  (** [validBoundedEventJSON] and [json.Unmarshal] of a membership feed. *)
  parseMembershipFeed : string -> option MembershipFeed;
  (** The JSON decoder of [decodeFeed]. *)
  parseFeed : string -> option FeedJSON;
  (** [logMetaEvent]'s contents of a type 1 or 2 meta. *)
  decodeReactions : Z -> string -> string -> option Payload;
  (** [chatmeta.DecodeMoimResponse]. *)
  DecodeMoimResponse : Raw -> option (Z * Payload);
}.

Section Decoders.
Context `{EventContent}.

#[warnings="-register-all"]
Inductive Event :=
| ContentMessage (chatID logID : Z) (payload : Payload)
| UnsupportedMessage (chatID logID type authorID sentAt : Z)
| DeletedMessage (chatID logID authorID sentAt baseType : Z)
| MessageDeleted (chatID logID authorID sentAt target : Z) (byHost : bool)
| MessageEdited (chatID logID authorID sentAt target revision : Z) (modified : option Event)
| MemberRemoved (chatID logID : Z) (member : MemberIdentity)
| MemberAdded (chatID logID : Z) (members : list MemberIdentity)
| MessageGap (chatID logID authorID sentAt type : Z) (reason : string)
| ReactionChanged (chatID linkID logID revision type : Z) (items : Payload)
| UnsupportedLogMeta (chatID logID type : Z)
| ReadStateChanged (chatID userID watermark : Z)
| ChangeServer
| Kickout (reason : Z) (message url urlLabel : string)
| ChatLeft (chatID lastTokenID : Z)
| ChatStatusChanged (chatID plusUserID revision : Z) (status : Raw)
| ChatMetaChanged (chatID type revision authorID : Z) (content : string) (updatedAt : Z)
| ChatMoimMetaChanged (chatID : Z) (metas : Payload)
| ChatMCMetaChanged (chatID revision : Z) (type content imageURL fullImageURL : string)
| UnknownPacket (method : string).

(** [MessagePosition]: the events with a [Position] method. *)
Definition MessagePosition (event : Event) : option (Z * Z) :=
  match event with
  | ContentMessage c l _ | UnsupportedMessage c l _ _ _ | DeletedMessage c l _ _ _
  | MessageDeleted c l _ _ _ _ | MessageEdited c l _ _ _ _ _ | MemberRemoved c l _
  | MemberAdded c l _ | MessageGap c l _ _ _ _ => Some (c, l)
  | _ => None
  end.

Definition fields : Reader Error := mkReader Malformed false.

(** ** Duplicate keys *)

Definition duplicateKey (raw : Raw) (key : string) : bool :=
  match Elements raw with
  | None => true
  | Some elements => (1 <? length (filter (fun el => el.1 = key) elements))%nat
  end.

Fixpoint repeats (exempt seen : list string) (elements : list (string * Value Raw)) : bool :=
  match elements with
  | [] => false
  | (key, _) :: rest =>
      if bool_decide (key ∈ exempt) then repeats exempt seen rest
      else if bool_decide (key ∈ seen) then true
      else repeats exempt (key :: seen) rest
  end.

Definition hasAnyDuplicateExcept (raw : Raw) (exempt : list string) : bool :=
  match Elements raw with
  | None => true
  | Some elements => repeats exempt [] elements
  end.

Definition uniqueOptionalInt64 (raw : Raw) (key : string) : Z :=
  if duplicateKey raw key then 0 else Int64OrZero raw [key].

(** ** Strings *)

Definition bytes_of (s : string) : bytes :=
  (fun c => Z.of_N (Ascii.N_of_ascii c)) <$> String.list_ascii_of_string s.

Definition validEventString (value : string) : bool :=
  utf8_Valid (bytes_of value) && negb (existsb (fun b => b =? 0) (bytes_of value)).

Definition requiredString (raw : Raw) (key : string) : res Error string :=
  match String fields raw [key] with
  | Ok (Some value) => if validEventString value then Ok value else Err Malformed
  | _ => Err Malformed
  end.

Definition optionalString (raw : Raw) (key : string) : string :=
  match LookupErr raw key with Some (VString s) => s | _ => "" end.

(** ** Feeds (membership_feed.go, edit_delete.go) *)

(** The loop over the selected members. *)
Fixpoint validMembers (seen : list Z) (selected : list (option Z * Z)) : res Error (list MemberIdentity) :=
  match selected with
  | [] => Ok []
  | (Some userID, userType) :: rest =>
      if (userID <=? 0) || bool_decide (userID ∈ seen) then Err Malformed
      else let! out := validMembers (userID :: seen) rest in Ok (mkMember userID userType :: out)
  | (None, _) :: _ => Err Malformed
  end.

Definition membershipMessageMembers (log : Raw) (added : bool) : res Error (list MemberIdentity) :=
  if hasAnyDuplicateExcept log [] then Err Malformed else
  match LookupErr log "type" with
  | Some (VInt32 0) =>
      match LookupErr log "message" with
      | Some (VString value) =>
          match parseMembershipFeed value with
          | None => Err Malformed
          | Some feed =>
              let! selected :=
                if negb added then
                  match mf_Member feed with
                  | Some member => if mf_FeedType feed =? 2 then Ok [member] else Err Malformed
                  | None => Err Malformed
                  end
                else if negb (mf_FeedType feed =? 1) || (length (mf_Members feed) =? 0)%nat
                then Err Malformed else Ok (mf_Members feed) in
              validMembers [] selected
          end
      | _ => Err Malformed
      end
  | _ => Err Malformed
  end.

Definition decodeFeed (chatID logID : Z) (chatLog : Raw) : res Error Event :=
  match membershipMessageMembers chatLog true with
  | Ok members => Ok (MemberAdded chatID logID members)
  | Err _ =>
      match membershipMessageMembers chatLog false with
      | Ok (member :: _) => Ok (MemberRemoved chatID logID member)
      | _ =>
          let! message := requiredString chatLog "message" in
          match parseFeed message with
          | None => Err Malformed
          | Some feed =>
              match fj_FeedType feed, fj_LogID feed with
              | Some feedType, Some target =>
                  if (target <=? 0) || (logID <=? target) then Err Malformed else
                  let author := Int64OrZero chatLog ["authorId"] in
                  let sentAt := Int64OrZero chatLog ["sendAt"] in
                  if feedType =? 14
                  then Ok (MessageDeleted chatID logID author sentAt target (fj_ByHost feed))
                  else if feedType =? 25 then
                    match fj_TargetRevision feed with
                    | Some revision =>
                        if revision <=? 0 then Err Malformed
                        else Ok (MessageEdited chatID logID author sentAt target revision None)
                    | None => Err Malformed
                    end
                  else Err Malformed
              | _, _ => Err Malformed
              end
          end
      end
  end.

Definition deletedFlagged (messageType : Z) : bool :=
  let base := Z.ldiff messageType DeletedAllChatTypeFlag in
  negb (Z.land messageType DeletedAllChatTypeFlag =? 0) && (0 <? base) && (base <? DeletedAllChatTypeFlag).

(** ** Messages (message.go) *)

Definition decodeMessage (body : Raw) : res Error Event :=
  match ChatLog.Decode body with
  | Err _ => Err Malformed
  | Ok env =>
      let chatID := ChatLog.ChatID env in
      let logID := ChatLog.LogID env in
      let typ := ChatLog.Type_ env in
      if typ =? Feed then decodeFeed chatID logID (ChatLog.Log env)
      else if deletedFlagged typ then
        Ok (DeletedMessage chatID logID (ChatLog.AuthorID env) (ChatLog.SentAt env)
              (Z.ldiff typ DeletedAllChatTypeFlag))
      else
        match messageDecoders typ with
        | Some decode =>
            match decode env with
            | Ok payload => Ok (ContentMessage chatID logID payload)
            | Err reason => Err (ErrMalformedEvent reason)
            end
        | None => Ok (UnsupportedMessage chatID logID typ (ChatLog.AuthorID env) (ChatLog.SentAt env))
        end
  end.

(** [chatLogPacket]: the body of the MSG packet that would carry a chat log. *)
Definition chatLogPacket (chatID : Z) (chatLog : Raw) : res Error Raw :=
  if Encodable chatLog
  then Ok (Marshal [("chatId", VInt64 chatID); ("chatLog", VDocument chatLog)])
  else Err Malformed.

Definition decodeEditPush (body : Raw) : res Error Event :=
  let! event := decodeMessage body in
  match event with
  | MessageEdited chatID logID authorID sentAt target revision _ =>
      match LookupErr body "modifiedChatLog" with
      | Some (VDocument doc) =>
          let modified := let! body := chatLogPacket chatID doc in decodeMessage body in
          match modified with
          | Err _ => Err Malformed
          | Ok modified =>
              match MessagePosition modified with
              | Some (c, l) =>
                  if negb (c =? chatID) || negb (l =? target)
                     || negb (Int64OrZero doc ["revision"] =? revision)
                  then Err Malformed
                  else Ok (MessageEdited chatID logID authorID sentAt target revision (Some modified))
              | None => Err Malformed
              end
          end
      | _ => Err Malformed
      end
  | _ => Err Malformed
  end.

Definition decodeDeletePush (body : Raw) : res Error Event :=
  let! event := decodeMessage body in
  match event with
  | MessageDeleted _ _ _ _ _ _ => Ok event
  | _ => Err Malformed
  end.

(** ** Other pushes (events.go) *)

Definition decodeChangeServer (raw : Raw) : res Error Event :=
  if negb (Validate raw) then Err Malformed else Ok ChangeServer.

Definition decodeKickout (raw : Raw) : res Error Event :=
  if negb (Validate raw) then Err Malformed else
  let! reason := match LookupErr raw "reason" with
                 | None => Ok 0
                 | Some (VInt32 n) => Ok n
                 | Some _ => Err Malformed end in
  Ok (Kickout reason (optionalString raw "errMsg") (optionalString raw "errUrl")
        (optionalString raw "errUrlLabel")).

(** A required field that must be a BSON int64. *)
Definition required64 (raw : Raw) (key : string) : res Error Z :=
  match Int64Exact fields raw [key] with
  | Ok (Some n) => Ok n
  | _ => Err Malformed
  end.

Definition required64pos (raw : Raw) (key : string) : res Error Z :=
  let! n := required64 raw key in
  if n <=? 0 then Err Malformed else Ok n.

(** An optional one; absent is zero. *)
Definition optional64 (raw : Raw) (key : string) : res Error Z :=
  let! n := Int64Exact fields raw [key] in Ok (default 0 n).

Definition requiredDocument (raw : Raw) (key : string) : res Error Raw :=
  match LookupErr raw key with
  | Some (VDocument d) => Ok d
  | _ => Err Malformed
  end.

Definition required32 (raw : Raw) (key : string) : res Error Z :=
  match LookupErr raw key with
  | Some (VInt32 n) => Ok n
  | _ => Err Malformed
  end.

(** The common part of [decodeMemberRemoved] and [decodeMemberAdded]. *)
Definition membershipLog (raw : Raw) : res Error (Z * Z * Raw) :=
  if negb (Validate raw) || hasAnyDuplicateExcept raw [] then Err Malformed else
  let! chatLog := requiredDocument raw "chatLog" in
  let! chatID := required64pos chatLog "chatId" in
  let! logID := required64pos chatLog "logId" in
  Ok (chatID, logID, chatLog).

Definition decodeMemberRemoved (raw : Raw) : res Error Event :=
  let! (chatID, logID, chatLog) := membershipLog raw in
  let! members := membershipMessageMembers chatLog false in
  match members with
  | member :: _ => Ok (MemberRemoved chatID logID member)
  | [] => Err Malformed (* members[0]: the decoder returns exactly one *)
  end.

Definition decodeMemberAdded (raw : Raw) : res Error Event :=
  let! (chatID, logID, chatLog) := membershipLog raw in
  let! members := membershipMessageMembers chatLog true in
  Ok (MemberAdded chatID logID members).

Definition decodeChatStatusChanged (raw : Raw) : res Error Event :=
  if negb (Validate raw) then Err Malformed else
  let! chatID := required64 raw "chatId" in
  let! plusUserID := required64 raw "plusUserId" in
  let! revision := required64 raw "revision" in
  let! status := requiredDocument raw "chatStatus" in
  Ok (ChatStatusChanged chatID plusUserID revision status).

Definition optionalStringField (raw : Raw) (key : string) : res Error string :=
  let! s := String fields raw [key] in Ok (default "" s).

Definition decodeChatMetaChanged (raw : Raw) : res Error Event :=
  if negb (Validate raw) then Err Malformed else
  let! chatID := required64 raw "chatId" in
  let! meta := requiredDocument raw "meta" in
  let! type := required32 meta "type" in
  let! revision := optional64 meta "revision" in
  let! authorID := optional64 meta "authorId" in
  let! updatedAt := optional64 meta "updatedAt" in
  let! content := optionalStringField meta "content" in
  Ok (ChatMetaChanged chatID type revision authorID content updatedAt).

Definition decodeChatMCMetaChanged (raw : Raw) : res Error Event :=
  if negb (Validate raw) then Err Malformed else
  let! chatID := required64 raw "chatId" in
  let! revision := required32 raw "revision" in
  let! type := requiredString raw "type" in
  let! content := requiredString raw "content" in
  let! imageURL := optionalStringField raw "imageUrl" in
  let! fullImageURL := optionalStringField raw "fullImageUrl" in
  Ok (ChatMCMetaChanged chatID revision type content imageURL fullImageURL).

Definition decodeChatLeft (raw : Raw) : res Error Event :=
  if negb (Validate raw) then Err Malformed else
  let! chatID := required64 raw "chatId" in
  let! lastTokenID := required64 raw "lastTokenId" in
  Ok (ChatLeft chatID lastTokenID).

(** A required positive int32 or int64 field. *)
Definition positive (raw : Raw) (key : string) : res Error Z :=
  match Int64 fields raw [key] with
  | Ok (Some n) => if n <=? 0 then Err Malformed else Ok n
  | _ => Err Malformed
  end.

Definition decodeReadState (raw : Raw) : res Error Event :=
  if negb (Validate raw) then Err Malformed else
  let! chatID := positive raw "chatId" in
  let! userID := positive raw "userId" in
  let! watermark := positive raw "watermark" in
  Ok (ReadStateChanged chatID userID watermark).

Definition logMetaEvent (chatID logID revision linkID metaType : Z) (content extra : string)
  : res Error Event :=
  match decodeReactions metaType content extra with
  | None => Err Malformed
  | Some items => Ok (ReactionChanged chatID linkID logID revision metaType items)
  end.

Definition decodeLogMeta (raw : Raw) : res Error Event :=
  if negb (Validate raw) then Err Malformed else
  let! chatID := positive raw "chatId" in
  let! logID := positive raw "logId" in
  let! metaType := positive raw "type" in
  if MaxInt32 <? metaType then Err Malformed
  else if negb (metaType =? 1) && negb (metaType =? 2) then Ok (UnsupportedLogMeta chatID logID metaType)
  else
    let! revision := positive raw "revision" in
    let linkID := Int64OrZero raw ["linkId"] in
    if linkID <? 0 then Err Malformed else
    let! content := requiredString raw "content" in
    let extra := match String fields raw ["extra"] with Ok (Some s) => s | _ => "" end in
    logMetaEvent chatID logID revision linkID metaType content extra.

Definition Decode (packet : Packet) : res Error Event :=
  let body := Body packet in
  let m := Method packet in
  if String.eqb m "MSG" then decodeMessage body
  else if String.eqb m "CHGLOGMETA" then decodeLogMeta body
  else if String.eqb m "DECUNREAD" then decodeReadState body
  else if String.eqb m "CHANGESVR" then decodeChangeServer body
  else if String.eqb m "KICKOUT" then decodeKickout body
  else if String.eqb m "DELMEM" then decodeMemberRemoved body
  else if String.eqb m "NEWMEM" then decodeMemberAdded body
  else if String.eqb m "CHGCHATST" then decodeChatStatusChanged body
  else if String.eqb m "CHGMOMETAS" then
    match DecodeMoimResponse body with
    | None => Err Malformed
    | Some (chatID, metas) => Ok (ChatMoimMetaChanged chatID metas)
    end
  else if String.eqb m "CHGMETA" then decodeChatMetaChanged body
  else if String.eqb m "CHGMCMETA" then decodeChatMCMetaChanged body
  else if String.eqb m "LEFT" then decodeChatLeft body
  else if String.eqb m "SYNCMODMSG" then decodeEditPush body
  else if String.eqb m "SYNCDLMSG" then decodeDeletePush body
  else Ok (UnknownPacket m).

(** ** Delivery (message_gap.go, chat_log.go) *)

Definition messageDeliveryEnvelope (raw : Raw) : res Error (Z * Z * Z * Raw) :=
  match ChatLog.DecodeIdentity raw with
  | Err _ => Err Malformed
  | Ok env =>
      let typ :=
        if negb (duplicateKey (ChatLog.Log env) "type") then
          match Int64 fields (ChatLog.Log env) ["type"] with
          | Ok (Some value) => if (0 <? value) && (value <=? MaxInt32) then value else 0
          | _ => 0
          end
        else 0 in
      Ok (ChatLog.ChatID env, ChatLog.LogID env, typ, ChatLog.Log env)
  end.

Definition GapReasonDuplicateKey := "duplicate_key".
Definition GapReasonUndiagnosed := "undiagnosed".

Definition gapReason (err : Error) : string :=
  match err with
  | ErrMalformedEvent (Some reason) => reason
  | _ => GapReasonUndiagnosed
  end.

(** A position that is present must be an integer equal to the envelope's. *)
Definition disagrees (raw : Raw) (logID : Z) : bool :=
  match LookupErr raw "logId" with
  | None => false
  | Some _ =>
      match Int64 fields raw ["logId"] with
      | Ok (Some n) => negb (n =? logID)
      | _ => true
      end
  end.

Definition isMessageMethod (m : string) : bool :=
  String.eqb m "MSG" || String.eqb m "SYNCMODMSG" || String.eqb m "SYNCDLMSG".

Definition DecodeForDelivery (packet : Packet) : res Error Event :=
  let m := Method packet in
  if negb (isMessageMethod m) then
    match Decode packet with
    | Err e =>
        if String.eqb m "DELMEM" || String.eqb m "NEWMEM" || String.eqb m "LEFT"
        then Err ErrUnidentifiableMembership else Err e
    | Ok event => Ok event
    end
  else
    let raw := Body packet in
    match messageDeliveryEnvelope raw with
    | Err _ => Err ErrUnidentifiableMessage
    | Ok (chatID, logID, typ, log) =>
        if duplicateKey raw "chatId" || duplicateKey raw "chatLog" || duplicateKey raw "logId"
           || duplicateKey log "logId"
        then Err ErrUnidentifiableMessage
        else if disagrees log logID then Err ErrUnidentifiableMessage
        else if disagrees raw logID then Err ErrUnidentifiableMessage
        else
          let gap reason :=
            MessageGap chatID logID (uniqueOptionalInt64 log "authorId")
              (uniqueOptionalInt64 log "sendAt") typ reason in
          if hasAnyDuplicateExcept raw ["chatId"; "chatLog"] || hasAnyDuplicateExcept log ["logId"]
          then Ok (gap GapReasonDuplicateKey)
          else
            match Decode packet with
            | Ok event => Ok event
            | Err e => Ok (gap (gapReason e))
            end
    end.

Definition DecodeChatLog (chatID : Z) (chatLog : Raw) : res Error Event :=
  let misdirected :=
    match LookupErr chatLog "chatId" with
    | None | Some VNull => false
    | Some value =>
        match Int64Value value with
        | Some nested => negb (nested =? chatID)
        | None => true
        end
    end in
  if misdirected then Err ErrChatLogMisdirected
  else
    let! body := chatLogPacket chatID chatLog in
    DecodeForDelivery (mkPacket _ "MSG" body).
End Decoders.
