(* ===== verification/ProtocolTheorems.v ===== *)
(** * Theorems about the message protocol

    Requests and pages of history (syncmsg, mchatlogs), and the identity of
    delivered messages (chatlog, events). *)

From S2P Require Import Prelude.
From S2P Require Import Bytes Bson Events.
From S2P Require SyncMsg MChatLogs ChatLog.

#[local] Open Scope string_scope.
#[local] Open Scope Z_scope.

(** ** Shared lemmas *)

Section Readers.
Context `{Bson}.

Lemma Int64_one {E} (r : Reader E) raw key : NullAbsent r = false ->
  Int64 r raw [key] =
    match LookupErr raw key with
    | None => Ok None
    | Some v => match Int64Value v with Some n => Ok (Some n) | None => Err (rd_Err r) end
    end.
Proof. intros Hn. unfold Int64, Lookup. rewrite Hn. by destruct (LookupErr raw key). Qed.

(** Whether a field is an integer does not depend on the sentinel. *)
Lemma Int64_found {E F} (r : Reader E) (r' : Reader F) raw key n :
  NullAbsent r = false -> NullAbsent r' = false ->
  Int64 r raw [key] = Ok (Some n) -> Int64 r' raw [key] = Ok (Some n).
Proof.
  intros Hr Hr'. rewrite !Int64_one by done. destruct (LookupErr raw key) as [v|]; [|done].
  destruct (Int64Value v); [|done]. by intros [= <-].
Qed.
End Readers.

(** ** Pages of history *)

Section Pages.
Context `{Bson}.

Lemma parseLogs_ascending values : forall previous logs, 0 <= previous ->
  SyncMsg.parseLogs previous values = Ok logs ->
  values = VDocument <$> logs /\ StronglySorted Z.lt (SyncMsg.logIDof <$> logs) /\
  Forall (fun raw => SyncMsg.LogID raw = Ok (SyncMsg.logIDof raw) /\ previous < SyncMsg.logIDof raw) logs.
Proof.
  induction values as [|v values IH]; intros previous logs Hp E; cbn [SyncMsg.parseLogs] in E.
  - injection E as <-. by split_and!; constructor.
  - destruct v; try done.
    destruct (Int64 SyncMsg.fields r ["logId"]) as [[logID|]|] eqn:Ei; try done.
    destruct (_ || _) eqn:Eb; [done|].
    destruct (SyncMsg.parseLogs logID values) as [rest|] eqn:Er; [|done]. injection E as <-.
    destruct (IH logID rest ltac:(lia) Er) as (-> & Hsort & Hall).
    assert (Hid : SyncMsg.LogID r = Ok logID).
    { unfold SyncMsg.LogID. rewrite Ei. by replace (logID <=? 0) with false by lia. }
    assert (Hof : SyncMsg.logIDof r = logID) by (unfold SyncMsg.logIDof; by rewrite Hid).
    split_and!; [done | | ].
    + rewrite fmap_cons, Hof. constructor; [done|]. apply Forall_fmap.
      eapply Forall_impl; [exact Hall|]. simpl. tauto.
    + constructor; [rewrite Hof; split; [done | lia]|].
      eapply Forall_impl; [exact Hall|]. simpl. intros x [? ?]. split; [done | lia].
Qed.

(** An accepted SYNCMSG page is exactly the documents of its [chatLogs]
    array, in strictly ascending order of positive log IDs; a missing or null
    array is the empty page. *)
Theorem ParseResponse_ordered raw page :
  SyncMsg.ParseResponse raw = Ok page ->
  Validate raw = true /\
  StronglySorted Z.lt (SyncMsg.logIDof <$> SyncMsg.ChatLogs page) /\
  Forall (fun log => SyncMsg.LogID log = Ok (SyncMsg.logIDof log) /\ 0 < SyncMsg.logIDof log) (SyncMsg.ChatLogs page) /\
  match LookupErr raw "chatLogs" with
  | Some (VArray a) => Values a = Some (VDocument <$> SyncMsg.ChatLogs page)
  | _ => SyncMsg.ChatLogs page = []
  end.
Proof.
  unfold SyncMsg.ParseResponse. destruct (Validate raw); [|done]. cbn [negb].
  destruct (LookupErr raw "chatLogs") as [v|]; [destruct v|]; try done;
    try (intros [= <-]; by split_and!; constructor).
  destruct (Values r) as [values|]; [|done].
  destruct (SyncMsg.parseLogs 0 values) as [logs|] eqn:El; [|done]. intros [= <-].
  destruct (parseLogs_ascending values 0 logs ltac:(lia) El) as (-> & Hs & Hall). done.
Qed.

(** A SYNCMSG request is sent exactly when its range is not empty and its
    fields are within bounds, and the document carries its four fields. *)
Theorem Request_encodes r :
  match SyncMsg.Request_MarshalBSON r with
  | Ok raw =>
      0 < SyncMsg.ChatID r /\ 0 <= SyncMsg.Cur r < SyncMsg.Max r /\
      0 <= SyncMsg.Count r <= SyncMsg.MaxPageSize /\ Validate raw = true /\
      Int64 SyncMsg.fields raw ["chatId"] = Ok (Some (SyncMsg.ChatID r)) /\
      Int64 SyncMsg.fields raw ["cur"] = Ok (Some (SyncMsg.Cur r)) /\
      Int64 SyncMsg.fields raw ["max"] = Ok (Some (SyncMsg.Max r)) /\
      Int64 SyncMsg.fields raw ["cnt"] = Ok (Some (SyncMsg.Count r))
  | Err e =>
      e = SyncMsg.ErrInvalidRequest /\
      ~ (0 < SyncMsg.ChatID r /\ 0 <= SyncMsg.Cur r < SyncMsg.Max r /\
         0 <= SyncMsg.Count r <= SyncMsg.MaxPageSize)
  end.
Proof.
  unfold SyncMsg.Request_MarshalBSON, SyncMsg.marshal, SyncMsg.MaxPageSize.
  destruct (_ <=? SyncMsg.Cur r) eqn:E1; [split; [done | lia]|].
  destruct (_ || _) eqn:E2; [split; [done | lia]|].
  split_and!; try lia; [apply Marshal_valid|..]; by rewrite Int64_one, Marshal_lookup.
Qed.

(** *** Bulk pages *)

Definition chatOf (raw : Raw) : Z := Int64OrZero raw ["chatId"].

Lemma bulkLogs_grouped values : forall last previous logs,
  (forall k m, last !! k = Some m -> 0 < m) ->
  MChatLogs.parseLogs last previous values = Ok logs ->
  values = VDocument <$> logs /\
  StronglySorted (fun a b => chatOf a <= chatOf b /\ (chatOf a = chatOf b -> SyncMsg.logIDof a < SyncMsg.logIDof b)) logs /\
  Forall (fun raw => 0 < chatOf raw /\ 0 < SyncMsg.logIDof raw /\ previous <= chatOf raw /\
    default 0 (last !! chatOf raw) < SyncMsg.logIDof raw) logs.
Proof.
  induction values as [|v values IH]; intros last previous logs Hlast E; cbn [MChatLogs.parseLogs] in E.
  - injection E as <-. by split_and!; constructor.
  - destruct v; try done. fold (chatOf r) in E.
    destruct (SyncMsg.LogID r) as [id|] eqn:Eid; [|done]. destruct (_ || _) eqn:Eb; [done|].
    destruct (MChatLogs.parseLogs _ _ values) as [rest|] eqn:Er; [|done]. injection E as <-.
    assert (Hpos : 0 < id).
    { unfold SyncMsg.LogID in Eid. destruct (Int64 _ _ _) as [[n|]|]; try done.
      destruct (n <=? 0) eqn:En; [done|]. injection Eid as <-. lia. }
    assert (Hof : SyncMsg.logIDof r = id) by (unfold SyncMsg.logIDof; by rewrite Eid).
    destruct (IH (<[chatOf r := id]> last) (chatOf r) rest) as (-> & Hsort & Hall); [|exact Er|].
    { intros k m [[<- <-]|[_ ?]]%lookup_insert_Some; [done | by eapply Hlast]. }
    assert (Hseen : default 0 (last !! chatOf r) < id).
    { destruct (last !! chatOf r) as [m|] eqn:Em; simpl in *; [|lia].
      pose proof (Hlast _ _ Em). lia. }
    split_and!; [done | |].
    + constructor; [done|]. eapply Forall_impl; [exact Hall|]. simpl. intros x (_ & _ & Hc & Hl).
      split; [done|]. intros Heq. rewrite <- Heq, lookup_insert_eq in Hl. simpl in Hl. lia.
    + constructor; [split_and!; lia|]. eapply Forall_impl; [exact Hall|]. simpl.
      intros x (Hx & Hi & Hc & Hl). split_and!; [done | done | lia |].
      destruct (decide (chatOf x = chatOf r)) as [Heq|Hne].
      * rewrite Heq, lookup_insert_eq in Hl. simpl in Hl. rewrite Heq. lia.
      * by rewrite lookup_insert_ne in Hl.
Qed.

(** The relation of two logs of a bulk page, the first before the second. *)
Definition bulkBefore (a b : Raw) : Prop :=
  chatOf a <= chatOf b /\ (chatOf a = chatOf b -> SyncMsg.logIDof a < SyncMsg.logIDof b).

Lemma bulk_parsed raw page : MChatLogs.ParseResponse raw = Ok page ->
  StronglySorted bulkBefore (MChatLogs.ChatLogs page) /\
  Forall (fun log => 0 < chatOf log /\ 0 < SyncMsg.logIDof log) (MChatLogs.ChatLogs page) /\
  match LookupErr raw "chatLogs" with
  | Some (VArray a) => Values a = Some (VDocument <$> MChatLogs.ChatLogs page)
  | _ => MChatLogs.ChatLogs page = []
  end.
Proof.
  unfold MChatLogs.ParseResponse. destruct (Validate raw); [|done]. cbn [negb].
  destruct (LookupErr raw "chatLogs") as [v|]; [destruct v|]; try done;
    try (intros [= <-]; by split_and!; constructor).
  destruct (Values r) as [values|]; [|done].
  destruct (MChatLogs.parseLogs ∅ 0 values) as [logs|] eqn:El; [|done]. intros [= <-].
  destruct (bulkLogs_grouped values ∅ 0 logs) as (-> & Hs & Hall); [|done|].
  { intros k m Hkm. by simplify_map_eq. }
  split_and!; [done | | done]. eapply Forall_impl; [exact Hall|]. simpl. tauto.
Qed.

(** An accepted MCHATLOGS page is exactly the documents of its array,
    grouped in ascending chat order, each chat's logs strictly ascending, all
    IDs positive. *)
Theorem bulk_page_grouped raw page :
  MChatLogs.ParseResponse raw = Ok page ->
  StronglySorted (fun a b => chatOf a <= chatOf b /\ (chatOf a = chatOf b -> SyncMsg.logIDof a < SyncMsg.logIDof b))
    (MChatLogs.ChatLogs page) /\
  Forall (fun log => 0 < chatOf log /\ 0 < SyncMsg.logIDof log) (MChatLogs.ChatLogs page) /\
  match LookupErr raw "chatLogs" with
  | Some (VArray a) => Values a = Some (VDocument <$> MChatLogs.ChatLogs page)
  | _ => MChatLogs.ChatLogs page = []
  end.
Proof. exact (bulk_parsed raw page). Qed.
End Pages.

(** ** Delivered messages *)

Section Delivery.
Context `{EventContent}.

Lemma Decode_identity body env : ChatLog.Decode body = Ok env ->
  exists id, ChatLog.DecodeIdentity body = Ok id /\ ChatLog.ChatID id = ChatLog.ChatID env /\
    ChatLog.LogID id = ChatLog.LogID env.
Proof.
  unfold ChatLog.Decode. destruct (ChatLog.DecodeIdentity body) as [id|]; [|done].
  destruct (Int64 _ _ _) as [[t|]|]; try done. destruct (_ || _); [done|]. intros [= <-]. by exists id.
Qed.

Lemma decodeFeed_position c l log e : decodeFeed c l log = Ok e -> MessagePosition e = Some (c, l).
Proof.
  unfold decodeFeed. destruct (membershipMessageMembers log true); [by intros [= <-]|].
  assert (Hrest : (let! message := requiredString log "message" in
          match parseFeed message with
          | None => Err Malformed
          | Some feed =>
              match fj_FeedType feed, fj_LogID feed with
              | Some feedType, Some target =>
                  if (target <=? 0) || (l <=? target) then Err Malformed else
                  let author := Int64OrZero log ["authorId"] in
                  let sentAt := Int64OrZero log ["sendAt"] in
                  if feedType =? 14
                  then Ok (MessageDeleted c l author sentAt target (fj_ByHost feed))
                  else if feedType =? 25 then
                    match fj_TargetRevision feed with
                    | Some revision =>
                        if revision <=? 0 then Err Malformed
                        else Ok (MessageEdited c l author sentAt target revision None)
                    | None => Err Malformed
                    end
                  else Err Malformed
              | _, _ => Err Malformed
              end
          end) = Ok e -> MessagePosition e = Some (c, l)).
  { destruct (requiredString _ _); [|done]. destruct (parseFeed _) as [feed|]; [|done].
    destruct (fj_FeedType feed), (fj_LogID feed); try done. destruct (_ || _); [done|].
    cbv zeta. destruct (_ =? 14); [by intros [= <-]|]. destruct (_ =? 25); [|done].
    destruct (fj_TargetRevision feed); [|done]. destruct (_ <=? 0); [done|]. by intros [= <-]. }
  destruct (membershipMessageMembers log false) as [[|m ms]|]; [done | by intros [= <-] | done].
Qed.

(** The position of a decoded message is the envelope's. *)
Lemma decodeMessage_position body e : decodeMessage body = Ok e ->
  exists id, ChatLog.DecodeIdentity body = Ok id /\
    MessagePosition e = Some (ChatLog.ChatID id, ChatLog.LogID id).
Proof.
  unfold decodeMessage. destruct (ChatLog.Decode body) as [env|] eqn:Ed; [|done].
  destruct (Decode_identity _ _ Ed) as (id & Hid & Hc & Hl). rewrite <- Hc, <- Hl.
  intros E. exists id. split; [done|]. revert E. cbv zeta.
  destruct (_ =? Feed); [apply decodeFeed_position|].
  destruct (deletedFlagged _); [by intros [= <-]|].
  destruct (messageDecoders _) as [dec|]; [|by intros [= <-]].
  destruct (dec env); [by intros [= <-] | done].
Qed.

Lemma Decode_position packet e : isMessageMethod (Method packet) = true -> Decode packet = Ok e ->
  exists id, ChatLog.DecodeIdentity (Body packet) = Ok id /\
    MessagePosition e = Some (ChatLog.ChatID id, ChatLog.LogID id).
Proof.
  unfold isMessageMethod. intros Hm.
  apply orb_true_iff in Hm as [[Hm|Hm]%orb_true_iff|Hm]; apply String.eqb_eq in Hm;
    destruct packet as [m body]; simpl in Hm |- *; subst m; unfold Decode; simpl.
  - apply decodeMessage_position.
  - unfold decodeEditPush. destruct (decodeMessage body) as [ev|] eqn:Ed; [|done].
    destruct ev; try done. destruct (LookupErr _ _) as [v|]; [|done]. destruct v; try done.
    cbv zeta. destruct (let! _ := _ in _) as [md|]; [|done].
    destruct (MessagePosition md) as [[c l]|]; [|done]. destruct (_ || _); [done|].
    intros [= <-]. by apply decodeMessage_position in Ed.
  - unfold decodeDeletePush. destruct (decodeMessage body) as [ev|] eqn:Ed; [|done].
    destruct ev; try done. intros [= <-]. by apply decodeMessage_position in Ed.
Qed.

Lemma DecodeIdentity_positive body id : ChatLog.DecodeIdentity body = Ok id ->
  0 < ChatLog.ChatID id /\ 0 < ChatLog.LogID id.
Proof.
  unfold ChatLog.DecodeIdentity. destruct (negb _); [done|].
  destruct (Int64 _ body ["chatId"]) as [[c|]|]; try done. destruct (c <=? 0) eqn:Ec; [done|].
  destruct (LookupErr body "chatLog") as [v|]; [|done]. destruct v; try done.
  destruct (ChatLog.envelopeLogID body r) as [[l inner]|]; [|done].
  destruct (l <=? 0) eqn:El; [done|]. intros [= <-]. simpl. lia.
Qed.

(** An unambiguous message identity: no identity key repeats and every log ID
    that is present agrees. *)
Definition identifiable (body : Raw) (id : ChatLog.Envelope) : Prop :=
  ChatLog.DecodeIdentity body = Ok id /\
  duplicateKey body "chatId" = false /\ duplicateKey body "chatLog" = false /\
  duplicateKey body "logId" = false /\ duplicateKey (ChatLog.Log id) "logId" = false /\
  disagrees (ChatLog.Log id) (ChatLog.LogID id) = false /\ disagrees body (ChatLog.LogID id) = false.

Lemma delivery_identity packet :
  isMessageMethod (Method packet) = true ->
  match DecodeForDelivery packet with
  | Ok e => exists id, identifiable (Body packet) id /\
      MessagePosition e = Some (ChatLog.ChatID id, ChatLog.LogID id) /\
      0 < ChatLog.ChatID id /\ 0 < ChatLog.LogID id
  | Err e => e = ErrUnidentifiableMessage /\ ~ exists id, identifiable (Body packet) id
  end.
Proof.
  intros Hm. unfold DecodeForDelivery. rewrite Hm. cbn [negb]. unfold messageDeliveryEnvelope.
  destruct (ChatLog.DecodeIdentity (Body packet)) as [id|] eqn:Eid.
  2: { split; [done|]. intros (id & Hid & _). congruence. }
  set (typ := if negb _ then _ else _). clearbody typ. cbv zeta iota beta.
  assert (Hnot : (duplicateKey (Body packet) "chatId" || duplicateKey (Body packet) "chatLog" ||
      duplicateKey (Body packet) "logId" || duplicateKey (ChatLog.Log id) "logId" = true \/
      disagrees (ChatLog.Log id) (ChatLog.LogID id) = true \/ disagrees (Body packet) (ChatLog.LogID id) = true) ->
      ~ exists id, identifiable (Body packet) id).
  { intros Hbad (id' & Hid & H1 & H2 & H3 & H4 & H5 & H6). assert (id' = id) as -> by congruence.
    rewrite H1, H2, H3, H4, H5, H6 in Hbad. by destruct Hbad as [?|[?|?]]. }
  destruct (_ || _) eqn:Edup; [split; [done | apply Hnot; by left]|].
  destruct (disagrees (ChatLog.Log id) _) eqn:E1; [split; [done | apply Hnot; by right; left]|].
  destruct (disagrees (Body packet) _) eqn:E2; [split; [done | apply Hnot; by right; right]|].
  assert (Hok : identifiable (Body packet) id).
  { bool_prop. by split_and!. }
  destruct (DecodeIdentity_positive _ _ Eid) as [Hc Hl].
  destruct (hasAnyDuplicateExcept _ _ || _); [cbv iota; by exists id|].
  destruct (Decode packet) as [e|] eqn:Ed; cbv iota; [|by exists id].
  exists id. split_and!; try done.
  destruct (Decode_position _ _ Hm Ed) as (id' & Hid' & ->). congruence.
Qed.

(** C39: a pushed message is delivered as an event exactly when its identity is
    unambiguous, and the event, even when its content cannot be decoded, has
    the message's own positive chat and log ID; otherwise the error is the one
    that stops delivery. *)
Theorem DecodeForDelivery_identity packet :
  isMessageMethod (Method packet) = true ->
  match DecodeForDelivery packet with
  | Ok e => exists id, identifiable (Body packet) id /\
      MessagePosition e = Some (ChatLog.ChatID id, ChatLog.LogID id) /\
      0 < ChatLog.ChatID id /\ 0 < ChatLog.LogID id
  | Err e => e = ErrUnidentifiableMessage /\ ~ exists id, identifiable (Body packet) id
  end.
Proof. exact (delivery_identity packet). Qed.

(** Decoding a chat log of a history page for a chat yields an event at that
    chat and at the log's own ID. *)
Lemma DecodeChatLog_position chatID chatLog e :
  DecodeChatLog chatID chatLog = Ok e ->
  0 < chatID /\ exists logID, SyncMsg.LogID chatLog = Ok logID /\ MessagePosition e = Some (chatID, logID).
Proof.
  unfold DecodeChatLog. destruct (match LookupErr chatLog "chatId" with Some _ => _ | None => _ end); [done|].
  unfold chatLogPacket. destruct (Encodable chatLog); [|done].
  pose proof (Marshal_lookup [("chatId", VInt64 chatID); ("chatLog", VDocument chatLog)]) as Hbody.
  set (body := Marshal _) in *. unfold DecodeForDelivery. cbn [Method isMessageMethod]. simpl negb. cbv iota.
  unfold messageDeliveryEnvelope. cbn [Body].
  destruct (ChatLog.DecodeIdentity body) as [id|] eqn:Eid; [|done].
  assert (Hid : ChatLog.ChatID id = chatID /\ SyncMsg.LogID chatLog = Ok (ChatLog.LogID id)).
  { pose proof (DecodeIdentity_positive _ _ Eid) as [_ Hpos]. revert Eid.
    unfold ChatLog.DecodeIdentity. destruct (negb _); [done|].
    assert (Hno : Int64 ChatLog.fields body ["logId"] = Ok None)
      by (by rewrite Int64_one, Hbody by done).
    rewrite (Int64_one _ body "chatId") by done. rewrite !Hbody. simpl.
    destruct (chatID <=? 0) eqn:Ec; [done|].
    unfold ChatLog.envelopeLogID. rewrite Hno.
    destruct (Int64 ChatLog.fields chatLog ["logId"]) as [[l|]|] eqn:El; [|done..].
    destruct (l <=? 0) eqn:Epos; [done|]. intros [= <-]. simpl. split; [done|].
    unfold SyncMsg.LogID. by rewrite (Int64_found ChatLog.fields SyncMsg.fields _ _ _ eq_refl eq_refl El), Epos. }
  destruct Hid as [<- Hlog].
  pose proof (DecodeIdentity_positive _ _ Eid) as [Hpos _].
  set (typ := if negb _ then _ else _). clearbody typ. cbv zeta iota beta. intros E. split; [done|].
  exists (ChatLog.LogID id). split; [done|]. revert E.
  destruct (_ || _); [done|]. destruct (disagrees _ _); [done|]. destruct (disagrees _ _); [done|].
  destruct (hasAnyDuplicateExcept _ _ || _); [by intros [= <-]|].
  destruct (Decode _) as [e'|] eqn:Ed; [|by intros [= <-]]. intros [= <-].
  destruct (Decode_position (mkPacket _ "MSG" body) e' eq_refl Ed) as (id' & Hid' & ->).
  simpl in Hid'. congruence.
Qed.
End Delivery.

(** ** Witnesses *)

(** A payload is the text of a type 1 message; feeds have a fixed spelling. *)
#[export] Instance demoContent : @EventContent treeBson := {
  Payload := string;
  messageDecoders t :=
    if t =? 1 then Some (fun env =>
      match LookupErr (ChatLog.Log env) "message" with
      | Some (VString s) => Ok s
      | _ => Err (Some "no_message")
      end)
    else None;
  parseMembershipFeed s :=
    if String.eqb s "join" then Some (mkMembershipFeed 1 None [(Some 5, 100); (Some 6, 100)]) else None;
  parseFeed s :=
    if String.eqb s "edit" then Some (mkFeedJSON (Some 25) (Some 3) (Some 1) false) else None;
  decodeReactions _ s _ := Some s;
  DecodeMoimResponse _ := None;
}.

Definition demoLog (logID prevID : Z) (text : string) : tree :=
  Tree [("chatId", VInt64 7); ("logId", VInt64 logID); ("prevId", VInt64 prevID);
        ("type", VInt32 1); ("message", VString text)].

Definition demoPage : tree :=
  Tree [("isOK", VBoolean true);
        ("chatLogs", VArray (MarshalArray [VDocument (demoLog 20 10 "a"); VDocument (demoLog 21 20 "b")]))].

Lemma ParseResponse_ordered_witness :
  StronglySorted Z.lt [20; 21] /\ SyncMsg.ParseResponse demoPage =
    Ok (SyncMsg.mkResponse [demoLog 20 10 "a"; demoLog 21 20 "b"] 0 true).
Proof.
  pose proof (ParseResponse_ordered demoPage
    (SyncMsg.mkResponse [demoLog 20 10 "a"; demoLog 21 20 "b"] 0 true) ltac:(reflexivity)) as (_ & H & _).
  split; [exact H | reflexivity].
Defined.

Lemma bulk_page_grouped_witness :
  StronglySorted (fun a b => chatOf a <= chatOf b /\ (chatOf a = chatOf b -> SyncMsg.logIDof a < SyncMsg.logIDof b))
    [demoLog 20 10 "a"; demoLog 21 20 "b"].
Proof.
  refine (proj1 (bulk_page_grouped demoPage
    (MChatLogs.mkResponse [demoLog 20 10 "a"; demoLog 21 20 "b"] false) _)).
  vm_compute. reflexivity.
Defined.

Definition demoPush : Packet :=
  mkPacket _ "MSG" (Tree [("chatId", VInt64 7); ("chatLog", VDocument (demoLog 20 10 "a"))]).

Lemma DecodeForDelivery_identity_witness :
  DecodeForDelivery demoPush = Ok (ContentMessage 7 20 "a") /\
  exists id, identifiable (Body demoPush) id /\ Some (7, 20) = Some (ChatLog.ChatID id, ChatLog.LogID id).
Proof.
  split; [reflexivity|].
  pose proof (DecodeForDelivery_identity demoPush ltac:(reflexivity)) as H.
  change (DecodeForDelivery demoPush) with (@Ok Error _ (ContentMessage 7 20 "a")) in H.
  cbv beta iota in H. destruct H as (id & Hid & Hp & _). by exists id.
Defined.
