(* ===== verification/Delivery.v ===== *)
(** * Delivery and commits (src/internal/client/client.go, sync.go)

    The worker that turns unsolicited packets into the client's event stream,
    the queue of positions awaiting the application's commit, and the selection
    of the chats a resumed session catches up.  A definition below is one packet of
    the worker or one call, undisturbed; ClientSteps.v has them one critical
    section at a time. *)

From S2P Require Import Prelude.
From S2P Require Import Bson Events Continuity.
From S2P Require PrivateJson SyncMsg MChatLogs.

#[local] Open Scope string_scope.
#[local] Open Scope list_scope.
#[local] Open Scope Z_scope.

Inductive ClientError :=
| ErrProtocol
| ErrClientClosed
| errCommitOrder
| ErrGapUnresolved
| ErrContinuity (e : Continuity.Error)
| ErrEvent (e : Events.Error)
| ErrSync (e : SyncMsg.Error)
| ErrBulk (e : MChatLogs.Error)
| ErrHistoryBusy
| ErrHistoryTargetUnresolved
| HistoryUnavailable (minLogID : Z)
| ErrHistoryBelowFloor
| ErrHistoryNonProgressing (* no event in the selected interval *)
| ErrHistoryStoreCorrupt
| ErrHistoryStoreCapacity
| ErrStoreFile (e : PrivateJson.Error)
| ErrRemove (* [os.Remove] failed *)
| ErrSession (* what the session failed with *)
| Joined (a b : ClientError).

(** The part of [Client] that delivery uses; a nil checkpoint is a [Sys]
    without a store. *)
Record Client := mkClient {
  closed : bool;
  checkpoint : Sys;
  pendingCommits : gmap Z (list Z);
}.

Definition set_closed b c := mkClient b (checkpoint c) (pendingCommits c).
Definition set_checkpoint s c := mkClient (closed c) s (pendingCommits c).
Definition set_pending m c := mkClient (closed c) (checkpoint c) m.

Definition pending (c : Client) (chatID : Z) : list Z := default [] (pendingCommits c !! chatID).

Definition queueCommit (c : Client) (chatID logID : Z) : Client :=
  set_pending (<[chatID := pending c chatID ++ [logID]]> (pendingCommits c)) c.

(** [interruptTerminal]: admission closes; the checkpoint is kept. *)
Definition interruptTerminal (c : Client) : Client := set_closed true c.

(** [checkpointWrite] of an operation of the store. *)
Definition checkpointWrite (c : Client) (fn : Sys -> Sys * option Continuity.Error)
  : Client * option ClientError :=
  if closed c then (c, Some ErrClientClosed) else
  match sys_store (checkpoint c) with
  | None => (c, Some ErrProtocol)
  | Some _ =>
      let '(sys, err) := fn (checkpoint c) in
      (set_checkpoint sys c, ErrContinuity <$> err)
  end.

Section Delivery.
Context `{EventContent}.

Definition CommitEvent (env : PrivateJson.WriteEnv) (c : Client) (event : Event)
  : Client * option ClientError :=
  match MessagePosition event with
  | None => (c, Some ErrProtocol)
  | Some (chatID, logID) =>
      if closed c then (c, Some ErrClientClosed) else
      match sys_store (checkpoint c) with
      | None => (c, Some ErrProtocol)
      | Some _ =>
          match pending c chatID with
          | [] => (c, Some errCommitOrder)
          | head :: rest =>
              if negb (head =? logID) then (c, Some errCommitOrder) else
              let '(sys, _, err) := CommitMessage env (checkpoint c) chatID logID in
              let c := set_checkpoint sys c in
              match err with
              | Some e => (c, Some (ErrContinuity e))
              | None =>
                  (match rest with
                   | [] => set_pending (delete chatID (pendingCommits c)) c
                   | _ => set_pending (<[chatID := rest]> (pendingCommits c)) c
                   end, None)
              end
          end
      end
  end.

(** ** The event stream *)

Inductive ResultError :=
| DecodeFailed (e : Events.Error)
| ObserverFailed
| PersistFailed (e : Continuity.Error).

(** [events.Result]. *)
Inductive Result :=
| EventResult (event : Event)
| ErrResult (e : ResultError).

Definition observedPositionLimit : nat := 4096.

(** The positions seen in this session, and their order. *)
Record Stream := mkStream { seen : gset (Z * Z); order : list (Z * Z) }.

Definition initialStream : Stream := mkStream ∅ [].

(** [seen[position] = struct{}{}; order = append(...)] and the eviction. *)
Definition remember (st : Stream) (position : Z * Z) : Stream :=
  let seen' := seen st ∪ {[position]} in
  let order' := order st ++ [position] in
  if (observedPositionLimit <? length order')%nat then
    match order' with
    | oldest :: rest => mkStream (seen' ∖ {[oldest]}) rest
    | [] => mkStream seen' order'
    end
  else mkStream seen' order'.

(** What the environment decides for one packet: whether every observer
    accepts it, the system calls of the admission's write, and whether the
    result is taken before the stream is stopped. *)
Record DeliverEnv := mkDeliverEnv {
  de_observed : bool;
  de_write : PrivateJson.WriteEnv;
  de_emitted : bool;
}.

Definition isTerminal (event : Event) : bool :=
  match event with ChangeServer | Kickout _ _ _ _ => true | _ => false end.

Definition emit (env : DeliverEnv) (r : Result) : list Result := if de_emitted env then [r] else [].

(** One iteration of [decodeEventStreamWithTerminalStop]: the client and the
    worker afterwards, what was emitted, and whether the loop goes on. *)
Definition handlePacket (env : DeliverEnv) (c : Client) (st : Stream) (packet : Packet)
  : Client * Stream * list Result * bool :=
  let stop c e := (interruptTerminal c, st, emit env (ErrResult e), false) in
  match DecodeForDelivery packet with
  | Err e =>
      if String.eqb (Method packet) "MSG" || match e with ErrUnidentifiableMembership => true | _ => false end
      then stop c (DecodeFailed e)
      else (c, st, emit env (ErrResult (DecodeFailed e)), de_emitted env)
  | Ok event =>
      if negb (de_observed env) then stop c ObserverFailed else
      let emitEvent c st :=
        if isTerminal event then (interruptTerminal c, st, emit env (EventResult event), false)
        else (c, st, emit env (EventResult event), de_emitted env) in
      match MessagePosition event with
      | None => emitEvent c st
      | Some (chatID, logID) =>
          if IsCommitted (sys_store (checkpoint c)) chatID logID then (c, st, [], true)
          else if bool_decide ((chatID, logID) ∈ seen st) then (c, st, [], true)
          else
            let '(sys, err) :=
              match sys_store (checkpoint c) with
              | None => (checkpoint c, None)
              | Some _ => RecordDeliveryStart (de_write env) (checkpoint c) chatID logID
              end in
            let c := set_checkpoint sys c in
            match err with
            | Some e => stop c (PersistFailed e)
            | None => emitEvent (queueCommit c chatID logID) (remember st (chatID, logID))
            end
      end
  end.

(** ** Resuming (sync.go) *)

Definition toTarget (t : ChatTarget) : SyncMsg.Target :=
  SyncMsg.mkTarget (ChatTarget_ChatID t) (ChatTarget_MaxLogID t).

(** [InitialSyncTargets] of a client with a checkpoint. *)
Definition InitialSyncTargets (state : Checkpoint) : list SyncMsg.Target :=
  toTarget <$> filter (fun t => 0 < ChatTarget_MaxLogID t) (SyncTargets state).

Definition needsCatchUp (state : Checkpoint) (target : SyncMsg.Target) : bool :=
  let committed := CommittedMax state (SyncMsg.Target_ChatID target) in
  let start := FirstDeliveryStart state (SyncMsg.Target_ChatID target) in
  ((0 <? committed) && (committed <? SyncMsg.Target_MaxLogID target))
  || ((committed =? 0) && (0 <? start) && (start <=? SyncMsg.Target_MaxLogID target)).

Definition ResumeTargets (state : Checkpoint) : list SyncMsg.Target :=
  filter (fun t => needsCatchUp state t = true) (InitialSyncTargets state).

Definition undelivered (state : Checkpoint) (target : SyncMsg.Target) : bool :=
  (0 <? SyncMsg.Target_MaxLogID target)
  && (CommittedMax state (SyncMsg.Target_ChatID target) =? 0)
  && (FirstDeliveryStart state (SyncMsg.Target_ChatID target) =? 0).

Definition UndeliveredTargets (state : Checkpoint) : list SyncMsg.Target :=
  filter (fun t => undelivered state t = true) (InitialSyncTargets state).

(** Where catch-up of a chat starts. *)
Definition resumeCursor (state : Checkpoint) (chatID : Z) : Z :=
  let current := CommittedMax state chatID in
  if current =? 0 then
    let start := FirstDeliveryStart state chatID in
    if 0 <? start then start - 1 else current
  else current.

(** [SeedLastMessage]; [last] is the chat's last log in the login inventory, if
    it has one, and [accept] the caller's filter. *)
Definition SeedLastMessage (c : Client) (chatID : Z) (last : option Raw) (accept : Event -> bool)
  : Client * res ClientError (option Event) :=
  if chatID <=? 0 then (c, Err ErrProtocol) else
  match last with
  | None => (c, Ok None)
  | Some lastChatLog =>
      if closed c then (c, Err ErrClientClosed) else
      match sys_store (checkpoint c) with
      | None => (c, Err ErrProtocol)
      | Some s =>
          let state := Snapshot (Some s) in
          if (0 <? CommittedMax state chatID) || (0 <? FirstDeliveryStart state chatID) then (c, Ok None)
          else
            match DecodeChatLog chatID lastChatLog with
            | Err e => (c, Err (ErrEvent e))
            | Ok event =>
                match MessagePosition event with
                | Some (chat, logID) =>
                    if negb (chat =? chatID) then (c, Err ErrProtocol)
                    else if negb (accept event) then (c, Ok None)
                    else if (0 <? length (pending c chatID))%nat then (c, Ok None)
                    else (set_pending (<[chatID := [logID]]> (pendingCommits c)) c, Ok (Some event))
                | None => (c, Err ErrProtocol)
                end
            end
      end
  end.
End Delivery.
