(* ===== verification/CatchUp.v ===== *)
(** * Catch-up (src/internal/client/sync.go, bulk_catchup.go)

    Recovery of what a chat received while the client was away: one chat by
    SYNCMSG pages ([CatchUp]), every resumed chat by one MCHATLOGS chain
    ([CatchUpAll]).  The n-th request of a call is answered by the environment's
    [exchange]; the acquired history store is the interface [AcquiredStore]. *)

From S2P Require Import Prelude.
From S2P Require Import Bson Events Continuity Delivery.
From S2P Require PrivateJson SyncMsg MChatLogs.

#[local] Open Scope string_scope.
#[local] Open Scope list_scope.
#[local] Open Scope Z_scope.

Definition maxCatchUpPages : nat := 100.
Definition maxBulkCatchUpPages : nat := maxCatchUpPages.

(** [errors.Is(err, ErrGapUnresolved)]. *)
Fixpoint isGapUnresolved (e : ClientError) : bool :=
  match e with
  | ErrGapUnresolved | HistoryUnavailable _ => true
  | Joined a b => isGapUnresolved a || isGapUnresolved b
  | _ => false
  end.

(** [errors.Join(a, b)], [b] possibly nil. *)
Definition join (a : ClientError) (b : option ClientError) : ClientError :=
  match b with Some b => Joined a b | None => a end.

(** What catch-up relies on of the acquired history store
    (history_store.go): its operations, and that projecting an event through
    the store keeps its position. *)
Class AcquiredStore `{EventContent} := {
  HistoryStore : Type;
  lookup_store : HistoryStore -> SyncMsg.Request -> HistoryStore * res ClientError (option SyncMsg.Response);
  save : HistoryStore -> SyncMsg.Request -> SyncMsg.Response -> HistoryStore * option ClientError;
  project : HistoryStore -> Event -> res ClientError Event;
  bulkSnapshot : HistoryStore -> gmap Z Z;
  commitBulk : HistoryStore -> gmap Z Z -> HistoryStore * option ClientError;
  project_position s e e' : project s e = Ok e' -> MessagePosition e' = MessagePosition e;
}.

Section CatchUp.
Context `{AcquiredStore}.

(** ** Shared steps *)

Definition recordGap (env : PrivateJson.WriteEnv) (c : Client) (chatID from to : Z) :=
  checkpointWrite c (fun s => RecordGap env s chatID from to).

Definition resolveGap (env : PrivateJson.WriteEnv) (c : Client) (chatID through : Z) :=
  checkpointWrite c (fun s => ResolveGapThrough env s chatID through).

(** [c.queueCommit] of each event. *)
Definition queueEvents (c : Client) (evs : list Event) : Client :=
  foldl (fun c event => let '(chatID, logID) := default (0, 0) (MessagePosition event) in
                        queueCommit c chatID logID) c evs.

Fixpoint projectAll (s : HistoryStore) (evs : list Event) : res ClientError (list Event) :=
  match evs with
  | [] => Ok []
  | event :: rest => let! current := project s event in let! out := projectAll s rest in Ok (current :: out)
  end.

Definition projectAcquiredEvents (store : option HistoryStore) (evs : list Event) : res ClientError (list Event) :=
  match store with None => Ok evs | Some s => projectAll s evs end.

Definition snapshot (c : Client) : Checkpoint := Snapshot (sys_store (checkpoint c)).

(** ** One chat *)

Section One.
Context (exchange : nat -> SyncMsg.Request -> res ClientError Raw).
Context (env : PrivateJson.WriteEnv).

(** A page fetched by the session. *)
Definition fetchPage (n : nat) (request : SyncMsg.Request) : res ClientError SyncMsg.Response :=
  match SyncMsg.Request_MarshalBSON request with
  | Err e => Err (ErrSync e)
  | Ok _ =>
      let! raw := exchange n request in
      match SyncMsg.ParseResponse raw with Ok page => Ok page | Err e => Err (ErrSync e) end
  end.

(** [syncMessages] of a client: acquired pages first, then the session. *)
Definition syncMessages (store : option HistoryStore) (n : nat) (request : SyncMsg.Request)
  : option HistoryStore * res ClientError SyncMsg.Response :=
  match store with
  | Some s =>
      if SyncMsg.Count request =? 0 then
        match SyncMsg.Request_MarshalBSON request with
        | Err e => (Some s, Err (ErrSync e))
        | Ok _ =>
            match lookup_store s request with
            | (s, Err e) => (Some s, Err e)
            | (s, Ok (Some cached)) => (Some s, Ok cached)
            | (s, Ok None) =>
                match fetchPage n request with
                | Err e => (Some s, Err e)
                | Ok response =>
                    match save s request response with
                    | (s, Some e) => (Some s, Err e)
                    | (s, None) =>
                        match lookup_store s request with
                        | (s, Err e) => (Some s, Err e)
                        | (s, Ok None) => (Some s, Err ErrHistoryTargetUnresolved)
                        | (s, Ok (Some projected)) => (Some s, Ok projected)
                        end
                    end
                end
            end
        end
      else (Some s, fetchPage n request)
  | None => (None, fetchPage n request)
  end.

(** The loop over a page's logs: the position reached, whether it moved, and
    the events so far. *)
Fixpoint pageLogs (chatID targetMax current : Z) (progressed : bool) (result : list Event) (logs : list Raw)
  : res ClientError (Z * bool * list Event) :=
  match logs with
  | [] => Ok (current, progressed, result)
  | raw :: logs =>
      match SyncMsg.LogID raw with
      | Err _ => Err ErrProtocol
      | Ok logID =>
          if logID <? current then Err ErrProtocol
          else if targetMax <? logID then pageLogs chatID targetMax current progressed result logs
          else if logID =? current then pageLogs chatID targetMax current progressed result logs
          else match DecodeChatLog chatID raw with
               | Err e => Err (ErrEvent e)
               | Ok event => pageLogs chatID targetMax logID true (result ++ [event]) logs
               end
      end
  end.

(** [ErrGapUnresolved] once the interval is recorded. *)
Definition unresolved (c : Client) (chatID gapStart targetMax : Z) : Client * ClientError :=
  let '(c, err) := recordGap env c chatID gapStart targetMax in (c, join ErrGapUnresolved err).

(** The page loop of [CatchUp], with [pages] requests left. *)
Fixpoint catchUpPages (pages : nat) (c : Client) (store : option HistoryStore)
    (state : Checkpoint) (chatID gapStart targetMax current : Z) (result : list Event)
  : Client * option HistoryStore * res ClientError (list Event) :=
  match pages with
  | O => let '(c, e) := unresolved c chatID gapStart targetMax in (c, store, Err e)
  | S pages =>
      match syncMessages store (maxCatchUpPages - S pages) (SyncMsg.mkRequest chatID current targetMax 0) with
      | (store, Err e) =>
          if isGapUnresolved e then
            let '(c, persistErr) := recordGap env c chatID gapStart targetMax in
            (c, store, Err (join e persistErr))
          else (c, store, Err e)
      | (store, Ok page) =>
          match pageLogs chatID targetMax current false result (SyncMsg.ChatLogs page) with
          | Err e => (c, store, Err e)
          | Ok (current, progressed, result) =>
              if current =? targetMax then
                match projectAcquiredEvents store result with
                | Err projectionErr =>
                    let '(c, persistErr) := recordGap env c chatID gapStart targetMax in
                    (c, store, Err (join (Joined ErrGapUnresolved projectionErr) persistErr))
                | Ok result =>
                    let '(c, err) :=
                      if HasGapThrough state chatID targetMax then resolveGap env c chatID targetMax
                      else (c, None) in
                    match err with
                    | Some e => (c, store, Err e)
                    | None => (queueEvents c result, store, Ok result)
                    end
                end
              else if negb progressed then
                let '(c, e) := unresolved c chatID gapStart targetMax in (c, store, Err e)
              else catchUpPages pages c store state chatID gapStart targetMax current result
          end
      end
  end.

Definition CatchUp (c : Client) (store : option HistoryStore) (chatID targetMax : Z)
  : Client * option HistoryStore * res ClientError (list Event) :=
  if (chatID <=? 0) || (targetMax <=? 0) then (c, store, Err ErrProtocol) else
  if closed c then (c, store, Err ErrClientClosed) else
  match sys_store (checkpoint c) with
  | None => (c, store, Err ErrProtocol)
  | Some _ =>
      let state := snapshot c in
      let current := resumeCursor state chatID in
      if targetMax <=? current then
        let '(c, err) :=
          if HasGapThrough state chatID targetMax then resolveGap env c chatID targetMax
          else (c, None) in
        match err with Some e => (c, store, Err e) | None => (c, store, Ok []) end
      else catchUpPages maxCatchUpPages c store state chatID (current + 1) targetMax current []
  end.
End One.
End CatchUp.
