(* ===== verification/BulkCatchUp.v ===== *)
(** * Bulk catch-up (src/internal/client/bulk_catchup.go)

    [CatchUpAll]: one MCHATLOGS chain for every resumed chat, optionally also
    acquiring the history of the others. *)

From S2P Require Import Prelude.
From S2P Require Import Bson Events Continuity Delivery CatchUp.
From S2P Require PrivateJson SyncMsg MChatLogs.

#[local] Open Scope string_scope.
#[local] Open Scope list_scope.
#[local] Open Scope Z_scope.

(** Durations are nanoseconds. *)
Definition minute : Z := 60000000000.

Record StartupHistoryOptions := mkStartup { MaxPages : Z; MaximumDuration : Z }.

Definition normalized (o : StartupHistoryOptions) : res ClientError StartupHistoryOptions :=
  let pages := if MaxPages o =? 0 then 25 else MaxPages o in
  let duration := if MaximumDuration o =? 0 then minute else MaximumDuration o in
  if (pages <? 1) || (1000 <? pages) || (duration <? 0) || (60 * minute <? duration)
  then Err ErrProtocol else Ok (mkStartup pages duration).

Section Bulk.
Context `{AcquiredStore}.

Record CaughtUpRoom := mkCaughtUpRoom {
  ChatID : Z;
  Ceiling : Z;
  Events : list Event;
  Skipped : bool;
  Unresolved : bool;
}.

Record CatchUpResult := mkCatchUpResult {
  Rooms : list CaughtUpRoom;
  Pages : nat;
  Logs : nat;
  HistoryPending : nat;
}.

Record chainRoom := mkRoom {
  chatID : Z;
  ceiling : Z;
  cursor : Z;
  catchUp : bool;
  gapStart : Z;
  events : list Event;
  skipFrom : Z;
  skipThrough : Z;
  done : bool;
}.

Definition set_done (b : bool) (r : chainRoom) : chainRoom :=
  mkRoom (chatID r) (ceiling r) (cursor r) (catchUp r) (gapStart r) (events r) (skipFrom r) (skipThrough r) b.
Definition set_skip (from through : Z) (r : chainRoom) : chainRoom :=
  mkRoom (chatID r) (ceiling r) (cursor r) (catchUp r) (gapStart r) (events r) from through (done r).
Definition advance (to : Z) (evs : list Event) (r : chainRoom) : chainRoom :=
  mkRoom (chatID r) (ceiling r) to (catchUp r) (gapStart r) (events r ++ evs) (skipFrom r) (skipThrough r) (done r).

(** A pointer that is not nil. *)
Definition present {A} (o : option A) : bool := match o with Some _ => true | None => false end.

(** The part of [chatmeta.ChatData] the selection reads. *)
Record ChatData := mkChatData {
  cd_ChatID : Z; cd_LinkID : Z; cd_Type : string; cd_LastServerLogID : Z; cd_LastChatLog : option Raw;
}.

Definition isCatchUp (rooms : gmap Z chainRoom) (id : Z) : bool :=
  match rooms !! id with Some room => catchUp room | None => false end.
Definition isDone (rooms : gmap Z chainRoom) (id : Z) : bool :=
  match rooms !! id with Some room => done room | None => false end.

Definition countHistoryRooms (rooms : gmap Z chainRoom) (ids : list Z) : nat :=
  length (filter (fun id => isCatchUp rooms id = false) ids).

(** ** Selection *)

Definition targetRoom (state : Checkpoint) (floor : Z) (target : SyncMsg.Target) : chainRoom :=
  let committed := CommittedMax state (SyncMsg.Target_ChatID target) in
  let cursor := if committed =? 0
                then FirstDeliveryStart state (SyncMsg.Target_ChatID target) - 1 else committed in
  mkRoom (SyncMsg.Target_ChatID target) (SyncMsg.Target_MaxLogID target) cursor true (cursor + 1) [] 0 0
    (SyncMsg.Target_MaxLogID target <? floor).

Definition targetRooms (state : Checkpoint) (floor : Z) (targets : list SyncMsg.Target) : gmap Z chainRoom :=
  foldl (fun rooms target => <[SyncMsg.Target_ChatID target := targetRoom state floor target]> rooms) ∅ targets.

(** One chat of the startup acquisition. *)
Definition selectChat (cursors : gmap Z Z) (floor : Z) (rooms : gmap Z chainRoom) (chat : ChatData)
  : gmap Z chainRoom :=
  if bool_decide (is_Some (rooms !! cd_ChatID chat)) || negb (cd_LinkID chat =? 0)
     || (negb (String.eqb (cd_Type chat) "DirectChat") && negb (String.eqb (cd_Type chat) "MultiChat"))
  then rooms else
  let ceiling :=
    match cd_LastChatLog chat with
    | Some raw => match SyncMsg.LogID raw with
                  | Ok id => Z.max (cd_LastServerLogID chat) id
                  | Err _ => cd_LastServerLogID chat end
    | None => cd_LastServerLogID chat
    end in
  let cursor := default 0 (cursors !! cd_ChatID chat) in
  if (0 <? ceiling) && (cursor <? ceiling) && (floor <=? ceiling)
  then <[cd_ChatID chat := mkRoom (cd_ChatID chat) ceiling cursor false 0 [] 0 0 false]> rooms
  else rooms.

(** ** One page *)

(** [bulkRuns]: the page's logs by room, those at the request's position dropped. *)
Fixpoint groupRuns (since : gmap Z Z) (runs : gmap Z (list Raw)) (logs : list Raw)
  : res ClientError (gmap Z (list Raw)) :=
  match logs with
  | [] => Ok runs
  | raw :: logs =>
      let chatID := Int64OrZero raw ["chatId"] in
      match since !! chatID, SyncMsg.LogID raw with
      | Some cursor, Ok logID =>
          if logID <? cursor then Err ErrProtocol
          else if cursor <? logID
          then groupRuns since (<[chatID := default [] (runs !! chatID) ++ [raw]]> runs) logs
          else groupRuns since runs logs
      | _, _ => Err ErrProtocol
      end
  end.

Definition bulkRuns (request : MChatLogs.Request) (response : MChatLogs.Response)
  : res ClientError (gmap Z (list Raw)) :=
  let since := foldl (fun m '(id, since) => <[id := since]> m) ∅
                 (zip (MChatLogs.ChatIDs request) (MChatLogs.Sinces request)) in
  groupRuns since ∅ (MChatLogs.ChatLogs response).

(** The loop over a run: its events, or [None] when a log does not name the
    one before as its predecessor. *)
Fixpoint runEvents (chatID ceiling previous : Z) (run : list Raw) : res ClientError (option (list Event)) :=
  match run with
  | [] => Ok (Some [])
  | raw :: run =>
      let logID := SyncMsg.logIDof raw in
      match SyncMsg.PrevID raw with
      | None => Ok None
      | Some prev =>
          if negb (prev =? previous) then Ok None
          else if ceiling <? logID then runEvents chatID ceiling logID run
          else match DecodeChatLog chatID raw with
               | Err e => Err (ErrEvent e)
               | Ok event =>
                   match MessagePosition event with
                   | Some (chat, position) =>
                       if negb (chat =? chatID) || negb (position =? logID) then Err ErrProtocol
                       else let! rest := runEvents chatID ceiling logID run in
                            Ok (match rest with Some evs => Some (event :: evs) | None => None end)
                   | None => Err ErrProtocol
                   end
               end
      end
  end.

(** The skipped interval, when the run starts after the room's position. *)
Definition skipTo (first : Z) (room : chainRoom) : chainRoom :=
  let from := cursor room + 1 in
  let through := Z.min first (ceiling room) in
  if from <=? through then
    if skipFrom room =? 0 then set_skip from through room else set_skip (skipFrom room) through room
  else room.

Definition saveRun (store : option HistoryStore) (request : SyncMsg.Request) (run : list Raw)
  : option HistoryStore * option ClientError :=
  match store with
  | None => (None, None)
  | Some s => let '(s, err) := save s request (SyncMsg.mkResponse run 0 false) in (Some s, err)
  end.

Definition applyBulkRun (store : option HistoryStore) (room : chainRoom) (run : list Raw)
  : option HistoryStore * res ClientError chainRoom :=
  match run with
  | [] => (store, Ok room)
  | head :: _ =>
      let last := SyncMsg.logIDof (List.last run head) in
      let upper := Z.max (ceiling room) last in
      if negb (catchUp room) then
        let '(store, err) := saveRun store (SyncMsg.mkRequest (chatID room) (cursor room) upper 0) run in
        (store, match err with Some e => Err e | None => Ok (advance last [] room) end)
      else
        match SyncMsg.PrevID head with
        | None => (store, Ok (set_done true room))
        | Some first =>
            if first <? cursor room then (store, Ok (set_done true room)) else
            let '(room, start) := if cursor room <? first then (skipTo first room, first)
                                  else (room, cursor room) in
            match runEvents (chatID room) (ceiling room) start run with
            | Err e => (store, Err e)
            | Ok None => (store, Ok (set_done true room))
            | Ok (Some decoded) =>
                let '(store, err) := saveRun store (SyncMsg.mkRequest (chatID room) start upper 0) run in
                (store, match err with Some e => Err e | None => Ok (advance last decoded room) end)
            end
        end
  end.

(** The loop over the requested chats: the rooms, whether one progressed, and
    the acquired positions. *)
Fixpoint applyRuns (store : option HistoryStore) (runs : gmap Z (list Raw)) (rooms : gmap Z chainRoom)
    (progressed : bool) (acquired : gmap Z Z) (ids : list Z)
  : option HistoryStore * res ClientError (gmap Z chainRoom * bool * gmap Z Z) :=
  match ids with
  | [] => (store, Ok (rooms, progressed, acquired))
  | id :: ids =>
      match rooms !! id with
      | None => applyRuns store runs rooms progressed acquired ids
      | Some room =>
          match applyBulkRun store room (default [] (runs !! id)) with
          | (store, Err e) => (store, Err e)
          | (store, Ok room') =>
              applyRuns store runs (<[id := room']> rooms)
                (progressed || (cursor room <? cursor room') || negb (Bool.eqb (done room') (done room)))
                (if (cursor room <? cursor room') && negb (catchUp room')
                 then <[id := cursor room']> acquired else acquired) ids
          end
      end
  end.

Definition retiredIDs (response : MChatLogs.Response) (ids : list Z) : list Z :=
  if MChatLogs.EOF response then ids else
  match List.rev (MChatLogs.ChatLogs response) with
  | [] => []
  | last :: _ => filter (fun id => id < Int64OrZero last ["chatId"]) ids
  end.

(** ** The chain *)

Record Chain := mkChain {
  ch_rooms : gmap Z chainRoom;
  ch_pending : list Z;
  ch_history : option StartupHistoryOptions;
  ch_pages : nat;
  ch_logs : nat;
  ch_historyPending : nat;
}.

(** The environment of a call: the payload answering the n-th request, whether
    the history deadline has passed after n pages, what admission and the
    session give, and the system calls of the checkpoint writes. *)
Record BulkEnv := mkBulkEnv {
  be_exchange : nat -> MChatLogs.Request -> res ClientError Raw;
  be_late : nat -> bool;
  be_admission : bool;
  be_busy : bool;
  be_turn : res ClientError unit;
  be_inventory : res ClientError unit;
  be_floor : res ClientError Z;
  be_chats : res ClientError (list ChatData);
  be_write : Z -> bool -> PrivateJson.WriteEnv;
}.

Section Chain.
Context (env : BulkEnv).

Definition bulkChatLogs (n : nat) (request : MChatLogs.Request) : res ClientError MChatLogs.Response :=
  match MChatLogs.MarshalBSON request with
  | Err e => Err (ErrBulk e)
  | Ok _ =>
      let! payload := be_exchange env n request in
      match MChatLogs.ParseResponse payload with Ok r => Ok r | Err e => Err (ErrBulk e) end
  end.

Definition pageRequest (ch : Chain) (ids : list Z) : MChatLogs.Request :=
  MChatLogs.mkRequest ids
    ((fun id => match ch_rooms ch !! id with Some room => cursor room | None => 0 end) <$> ids).

(** One page of the loop: the chain afterwards and whether it goes on. *)
Definition chainPage (store : option HistoryStore) (ch : Chain)
  : option HistoryStore * res ClientError (Chain * bool) :=
  let ids := take MChatLogs.MaxChats (ch_pending ch) in
  match bulkChatLogs (ch_pages ch) (pageRequest ch ids) with
  | Err e => (store, Err e)
  | Ok response =>
      match bulkRuns (pageRequest ch ids) response with
      | Err e => (store, Err e)
      | Ok runs =>
          match applyRuns store runs (ch_rooms ch) false ∅ ids with
          | (store, Err e) => (store, Err e)
          | (store, Ok (rooms, progressed, acquired)) =>
              let '(store, err) :=
                match store with
                | Some s => if bool_decide (acquired = ∅) then (store, None)
                            else let '(s, err) := commitBulk s acquired in (Some s, err)
                | None => (store, None)
                end in
              match err with
              | Some e => (store, Err e)
              | None =>
                  let retired := retiredIDs response ids in
                  let ch' pending := mkChain rooms pending (ch_history ch) (S (ch_pages ch))
                    (ch_logs ch + length (MChatLogs.ChatLogs response)) (ch_historyPending ch) in
                  if (length retired =? 0)%nat && negb progressed
                  then (store, Ok (ch' (ch_pending ch), false))
                  else (store, Ok (ch' (filter (fun id => isDone rooms id = false /\ id ∉ retired)
                                          (ch_pending ch)), true))
              end
          end
      end
  end.

(** The budget of the startup history is spent: its rooms leave the chain. *)
Definition dropHistory (ch : Chain) : Chain :=
  mkChain (ch_rooms ch) (filter (fun id => isCatchUp (ch_rooms ch) id = true) (ch_pending ch)) None
    (ch_pages ch) (ch_logs ch) (ch_historyPending ch + countHistoryRooms (ch_rooms ch) (ch_pending ch)).

Definition historySpent (ch : Chain) : bool :=
  match ch_history ch with
  | Some o => (MaxPages o <=? Z.of_nat (ch_pages ch)) || be_late env (ch_pages ch)
  | None => false
  end.

(** The loop of [CatchUpAll]; [None] is the end of the fuel. *)
Fixpoint chainLoop (fuel : nat) (store : option HistoryStore) (ch : Chain)
  : option (option HistoryStore * res ClientError Chain) :=
  match fuel with
  | O => None
  | S fuel =>
      if (length (ch_pending ch) =? 0)%nat then Some (store, Ok ch)
      else if historySpent ch then chainLoop fuel store (dropHistory ch)
      else if (maxBulkCatchUpPages <=? ch_pages ch)%nat then Some (store, Ok ch)
      else
        match chainPage store ch with
        | (store, Err e) => Some (store, Err e)
        | (store, Ok (ch, true)) => chainLoop fuel store ch
        | (store, Ok (ch, false)) => Some (store, Ok ch)
        end
  end.

(** Pages are at most [maxBulkCatchUpPages]; one more turn drops the history
    rooms and one ends the loop. *)
Definition chainFuel : nat := maxBulkCatchUpPages + 3.

(** ** Finishing *)

(** One room: its projected events, its gaps and its commits. *)
Definition finishRoom (store : option HistoryStore) (state : Checkpoint) (c : Client) (room : chainRoom)
  : Client * res ClientError CaughtUpRoom :=
  let id := chatID room in
  let '(projected, cursor, skipFrom) :=
    match projectAcquiredEvents store (events room) with
    | Ok projected => (projected, cursor room, skipFrom room)
    | Err _ => ([], gapStart room - 1, 0)
    end in
  let unresolved := cursor <? ceiling room in
  let skipped := 0 <? skipFrom in
  let '(c, err) :=
    if skipped then recordGap (be_write env id false) c id skipFrom (skipThrough room) else (c, None) in
  match err with
  | Some e => (c, Err e)
  | None =>
      let '(c, err) :=
        if unresolved then recordGap (be_write env id true) c id (cursor + 1) (ceiling room)
        else if negb skipped && HasGapThrough state id (ceiling room)
        then resolveGap (be_write env id true) c id (ceiling room) else (c, None) in
      match err with
      | Some e => (c, Err e)
      | None => (queueEvents c projected,
                 Ok (mkCaughtUpRoom id (ceiling room) projected skipped unresolved))
      end
  end.

Fixpoint finishBulkRooms (store : option HistoryStore) (state : Checkpoint) (c : Client)
    (rooms : list chainRoom) : Client * res ClientError (list CaughtUpRoom) :=
  match rooms with
  | [] => (c, Ok [])
  | room :: rooms =>
      match finishRoom store state c room with
      | (c, Err e) => (c, Err e)
      | (c, Ok out) =>
          match finishBulkRooms store state c rooms with
          | (c, Err e) => (c, Err e)
          | (c, Ok outs) => (c, Ok (out :: outs))
          end
      end
  end.

(** The rooms of a chain in ascending chat order. *)
Definition sortedIDs (rooms : gmap Z chainRoom) : list Z :=
  merge_sort Z.le (fst <$> map_to_list rooms).

Definition catchUpRooms (rooms : gmap Z chainRoom) : list chainRoom :=
  filter (fun room => catchUp room = true) (omap (fun id => rooms !! id) (sortedIDs rooms)).

Definition selectBulkRooms (state : Checkpoint) (store : option HistoryStore)
    (history : option StartupHistoryOptions) : res ClientError (gmap Z chainRoom) :=
  let! _ := be_inventory env in
  let! floor := be_floor env in
  let rooms := targetRooms state floor (ResumeTargets state) in
  match history, store with
  | Some _, Some s =>
      let! chats := be_chats env in
      Ok (foldl (selectChat (bulkSnapshot s) floor) rooms chats)
  | _, _ => Ok rooms
  end.

Definition CatchUpAll (c : Client) (store : option HistoryStore) (options : option StartupHistoryOptions)
  : Client * option HistoryStore * res ClientError CatchUpResult :=
  let fail store e := (c, store, Err e) in
  match match options with
        | None => Ok None
        | Some o => match normalized o with Ok o => Ok (Some o) | Err e => Err e end
        end with
  | Err e => fail store e
  | Ok history =>
      if closed c then fail store ErrClientClosed
      else if negb (present (sys_store (checkpoint c)))
              || (present history && (negb (present store) || negb (be_admission env)))
      then fail store ErrProtocol
      else if be_busy env then fail store ErrHistoryBusy
      else
        match be_turn env with
        | Err e => fail store e
        | Ok _ =>
            match selectBulkRooms (snapshot c) store history with
            | Err e => fail store e
            | Ok rooms =>
                let pending := filter (fun id => isDone rooms id = false) (sortedIDs rooms) in
                match chainLoop chainFuel store (mkChain rooms pending history 0 0 0) with
                | None => fail store ErrProtocol
                | Some (store, Err e) => fail store e
                | Some (store, Ok ch) =>
                    match finishBulkRooms store (snapshot c) c (catchUpRooms (ch_rooms ch)) with
                    | (c, Err e) => (c, store, Err e)
                    | (c, Ok out) =>
                        (c, store, Ok (mkCatchUpResult out (ch_pages ch) (ch_logs ch)
                          (ch_historyPending ch + countHistoryRooms (ch_rooms ch) (ch_pending ch))))
                    end
                end
            end
        end
  end.
End Chain.
End Bulk.
