(* ===== verification/Sha256.v ===== *)
(** * SHA-256 and its hexadecimal spelling

    [crypto/sha256] and [encoding/hex] as the code uses them: the digest that
    names the files of the acquired history store. *)

From S2P Require Import Prelude.
From S2P Require Import Bytes.

#[local] Open Scope string_scope.
#[local] Open Scope list_scope.
#[local] Open Scope Z_scope.

Definition mask32 : Z := 4294967295.
Definition add32 (a b : Z) : Z := Z.land (a + b) mask32.
Definition not32 (a : Z) : Z := Z.lxor a mask32.
Definition rotr (n x : Z) : Z := Z.land (Z.lor (Z.shiftr x n) (Z.shiftl x (32 - n))) mask32.
Definition xor3 (a b c : Z) : Z := Z.lxor a (Z.lxor b c).

Definition bigSigma0 (x : Z) : Z := xor3 (rotr 2 x) (rotr 13 x) (rotr 22 x).
Definition bigSigma1 (x : Z) : Z := xor3 (rotr 6 x) (rotr 11 x) (rotr 25 x).
Definition smallSigma0 (x : Z) : Z := xor3 (rotr 7 x) (rotr 18 x) (Z.shiftr x 3).
Definition smallSigma1 (x : Z) : Z := xor3 (rotr 17 x) (rotr 19 x) (Z.shiftr x 10).
Definition choose (x y z : Z) : Z := Z.lxor (Z.land x y) (Z.land (not32 x) z).
Definition majority (x y z : Z) : Z := xor3 (Z.land x y) (Z.land x z) (Z.land y z).

(** The first [n] primes from [candidate] on. *)
Fixpoint primesFrom (fuel n : nat) (candidate : Z) (found : list Z) : list Z :=
  match fuel, n with
  | S fuel, S n' =>
      if forallb (fun p => negb (candidate mod p =? 0)) found
      then primesFrom fuel n' (candidate + 1) (found ++ [candidate])
      else primesFrom fuel n (candidate + 1) found
  | _, _ => found
  end.

Definition firstPrimes (n : nat) : list Z := primesFrom 400 n 2 [].

(** The cube root rounded down of a number below [2 ^ 108]. *)
Definition cubeRoot (n : Z) : Z :=
  foldl (fun r i => let r' := r + Z.shiftl 1 (Z.of_nat i) in if r' * r' * r' <=? n then r' else r) 0 (rev (seq 0 36)).

(** The first 32 bits of the fractional parts of the primes' cube roots. *)
Definition roundConstants : list Z :=
  Eval vm_compute in (fun p => Z.land (cubeRoot (Z.shiftl p 96)) mask32) <$> firstPrimes 64.

(** The same of their square roots. *)
Definition initialHash : list Z :=
  Eval vm_compute in (fun p => Z.land (Z.sqrt (Z.shiftl p 64)) mask32) <$> firstPrimes 8.

Definition bigEndian (n : nat) (x : Z) : bytes :=
  (fun i => Z.land (Z.shiftr x (8 * Z.of_nat i)) 255) <$> rev (seq 0 n).

(** The message followed by 0x80, zeroes and its length in bits. *)
Definition padMessage (m : bytes) : bytes :=
  let zeroes := Z.to_nat ((55 - Z.of_nat (length m)) mod 64) in
  m ++ [128] ++ replicate zeroes 0 ++ bigEndian 8 (8 * Z.of_nat (length m)).

Fixpoint words (m : bytes) : list Z :=
  match m with
  | a :: b :: c :: d :: rest => (((a * 256 + b) * 256 + c) * 256 + d) :: words rest
  | _ => []
  end.

(** The message schedule, most recent word first. *)
Fixpoint schedule (n : nat) (w : list Z) : list Z :=
  match n with
  | O => w
  | S n =>
      let at_ i := nth i w 0 in
      schedule n (add32 (add32 (smallSigma1 (at_ 1%nat)) (at_ 6%nat)) (add32 (smallSigma0 (at_ 14%nat)) (at_ 15%nat)) :: w)
  end.

Definition compressRound (h : list Z) (kw : Z * Z) : list Z :=
  match h with
  | [a; b; c; d; e; f; g; h] =>
      let t1 := add32 (add32 (add32 h (bigSigma1 e)) (add32 (choose e f g) (fst kw))) (snd kw) in
      let t2 := add32 (bigSigma0 a) (majority a b c) in
      [add32 t1 t2; a; b; c; add32 d t1; e; f; g]
  | _ => h
  end.

Definition compressBlock (h block : list Z) : list Z :=
  zip_with add32 h (foldl compressRound h (zip roundConstants (rev (schedule 48 (rev block))))).

Fixpoint blocks (fuel : nat) (w h : list Z) : list Z :=
  match fuel, w with
  | S fuel, _ :: _ => blocks fuel (drop 16 w) (compressBlock h (take 16 w))
  | _, _ => h
  end.

(** [sha256.Sum256]. *)
Definition Sum256 (m : bytes) : bytes :=
  let w := words (padMessage m) in mjoin (bigEndian 4 <$> blocks (length w) w initialHash).

Definition hexDigit (n : Z) : Ascii.ascii :=
  default Ascii.zero (String.get (Z.to_nat n) "0123456789abcdef").

(** [hex.EncodeToString]. *)
Definition hexString (m : bytes) : string :=
  String.string_of_list_ascii (mjoin ((fun b => [hexDigit (b / 16); hexDigit (b mod 16)]) <$> m)).

Definition stringBytes (s : string) : bytes :=
  (fun c => Z.of_N (Ascii.N_of_ascii c)) <$> String.list_ascii_of_string s.

Definition sha256Hex (s : string) : string := hexString (Sum256 (stringBytes s)).

Example sha256_abc : sha256Hex "abc" = "ba7816bf8f01cfea414140de5dae2223b00361a396177a9cb410ff61f20015ad".
Proof. vm_compute. reflexivity. Qed.

Example sha256_two_blocks : sha256Hex "abcdbcdecdefdefgefghfghighijhijkijkljklmklmnlmnomnopnopq"
  = "248d6a61d20638b8e5c026930c3e6039a33ce45964ff2167f6ecedd419db06c1".
Proof. vm_compute. reflexivity. Qed.

Example sha256_empty : sha256Hex "" = "e3b0c44298fc1c149afbf4c8996fb92427ae41e4649b934ca495991b7852b855".
Proof. vm_compute. reflexivity. Qed.
