(* ===== verification/HistoryStore.v ===== *)
(** * The acquired history store (src/internal/client/history_store.go, history_unavailable.go, history_window.go)

    The directory of acquired SYNCMSG pages, the edits and deletions known of
    their messages and the intervals the server has nothing for.  The directory
    is part of the state: a map from file name to file for each kind of file.
    The environment of an operation gives the clock, the outcome of each write
    and read, and the order in which Go iterates a map of pages. *)

From stdpp Require Import pretty.
From S2P Require Import Prelude.
From S2P Require Import Bson Events Delivery Sha256.
From S2P Require PrivateJson SyncMsg.

#[local] Open Scope string_scope.
#[local] Open Scope list_scope.
#[local] Open Scope Z_scope.

(** A request is a map key in Go. *)
#[export] Instance Request_eq_dec : EqDecision SyncMsg.Request.
Proof. solve_decision. Defined.

#[export] Instance Request_countable : Countable SyncMsg.Request.
Proof.
  refine (inj_countable' (fun r => (SyncMsg.ChatID r, SyncMsg.Cur r, SyncMsg.Max r, SyncMsg.Count r))
    (fun '(a, b, c, d) => SyncMsg.mkRequest a b c d) _). by intros [].
Defined.

(** ** Data *)

(** [historyTarget]: a chat and a log ID. *)
Record historyTarget := mkTarget { ht_chatID : Z; ht_logID : Z }.

#[global] Instance historyTarget_eq_dec : EqDecision historyTarget.
Proof. solve_decision. Defined.
#[global] Instance historyTarget_countable : Countable historyTarget.
Proof.
  apply (inj_countable' (fun t => (ht_chatID t, ht_logID t)) (fun '(chat, log) => mkTarget chat log)). by intros [].
Defined.

Record historyStoreHeader := mkStoreHeader { sh_Version : Z; sh_Binding : string }.

(** Instants are counted in nanoseconds; [ZeroTime] is Go's zero [time.Time]. *)
Record HistoryUnavailable := mkUnavailable { hu_MinLogID : Z; ObservedAt : Z; RetryAfter : Z }.

Record historyUnavailableRecord := mkUnavailableRecord {
  ur_Version : Z; ur_Binding : string; ur_Request : SyncMsg.Request; Observation : HistoryUnavailable }.

Record historyBulkProgress := mkBulkProgress { bp_Version : Z; bp_Binding : string; Cursors : gmap Z Z }.

Record acquiredPageRef := mkPageRef { request : SyncMsg.Request; last : Z; name : string }.

Definition ZeroTime : Z := -62135596800000000000.
Definition historyUnavailableFreshness : Z := 300000000000.
Definition historyUnavailableMaximum : nat := 1024.

Section Data.
Context `{Bson}.

Record acquiredPage := mkAcquiredPage {
  ap_Version : Z; ap_Binding : string; Request : SyncMsg.Request; Response : SyncMsg.Response }.

(** [Replacement] is [None] when it has no bytes. *)
Record historyMutation := mkMutation {
  Version : Z;
  Binding : string;
  ChatID : Z;
  TargetID : Z;
  Sequence : Z;
  Revision : Z;
  Deleted : bool;
  Acquired : bool;
  Replacement : option Raw;
}.

(** Go's zero value, which an absent map key reads as. *)
Definition zeroMutation : historyMutation := mkMutation 0 "" 0 0 0 0 false false None.

(** The directory: its files by kind and name; [others] are the remaining
    names. *)
Record historyDir := mkDir {
  headerFile : PrivateJson.File historyStoreHeader;
  bulkFile : PrivateJson.File historyBulkProgress;
  pageFiles : gmap string (PrivateJson.File acquiredPage);
  targetFiles : gmap string (PrivateJson.File historyMutation);
  unavailableFiles : gmap string (PrivateJson.File historyUnavailableRecord);
  others : list string;
}.

Record historyStore := mkHistoryStore {
  dir : historyDir;
  binding : string;
  pages : gmap string acquiredPageRef;
  mutations : gmap historyTarget historyMutation;
  failed : option ClientError;
  targets : gset historyTarget;
  bulkCursors : gmap Z Z;
  unavailable : gmap SyncMsg.Request historyUnavailableRecord;
}.

Definition set_dir v s := mkHistoryStore v (binding s) (pages s) (mutations s) (failed s) (targets s) (bulkCursors s) (unavailable s).
Definition set_pages v s := mkHistoryStore (dir s) (binding s) v (mutations s) (failed s) (targets s) (bulkCursors s) (unavailable s).
Definition set_mutations v s := mkHistoryStore (dir s) (binding s) (pages s) v (failed s) (targets s) (bulkCursors s) (unavailable s).
Definition set_failed v s := mkHistoryStore (dir s) (binding s) (pages s) (mutations s) v (targets s) (bulkCursors s) (unavailable s).
Definition set_targets v s := mkHistoryStore (dir s) (binding s) (pages s) (mutations s) (failed s) v (bulkCursors s) (unavailable s).
Definition set_bulkCursors v s := mkHistoryStore (dir s) (binding s) (pages s) (mutations s) (failed s) (targets s) v (unavailable s).
Definition set_unavailable v s := mkHistoryStore (dir s) (binding s) (pages s) (mutations s) (failed s) (targets s) (bulkCursors s) v.

(** The directory after the file [n] became [f]. *)
Definition putFile {T} (n : string) (f : PrivateJson.File T) (files : gmap string (PrivateJson.File T))
  : gmap string (PrivateJson.File T) :=
  match f with PrivateJson.Missing => delete n files | _ => <[n := f]> files end.

Definition set_pageFile n f (d : historyDir) := mkDir (headerFile d) (bulkFile d) (putFile n f (pageFiles d)) (targetFiles d) (unavailableFiles d) (others d).
Definition set_targetFile n f (d : historyDir) := mkDir (headerFile d) (bulkFile d) (pageFiles d) (putFile n f (targetFiles d)) (unavailableFiles d) (others d).
Definition set_unavailableFiles m (d : historyDir) := mkDir (headerFile d) (bulkFile d) (pageFiles d) (targetFiles d) m (others d).
Definition set_bulkFile f (d : historyDir) := mkDir (headerFile d) f (pageFiles d) (targetFiles d) (unavailableFiles d) (others d).
Definition set_headerFile f (d : historyDir) := mkDir f (bulkFile d) (pageFiles d) (targetFiles d) (unavailableFiles d) (others d).

(** What an operation meets: the clock, the outcome of writing a file given
    what the directory holds by then, of reading and of removing one, and the
    order in which [range s.pages] visits the pages. *)
Record StoreEnv := mkStoreEnv {
  now : Z;
  onWrite : historyDir -> string -> PrivateJson.WriteEnv;
  onRead : string -> PrivateJson.ReadEnv;
  onRemove : string -> bool;
  rangePages : list acquiredPageRef -> list acquiredPageRef;
}.
End Data.

(** A file is absent when no name has it. *)
Definition fileAt {T} (files : gmap string (PrivateJson.File T)) (n : string) : PrivateJson.File T :=
  default PrivateJson.Missing (files !! n).

(** How the directory's documents are spelled in JSON: no field of theirs is
    dropped, so each decodes to the value encoded. *)
Class HistoryJSON `{Bson} := {
  header_JSON :: PrivateJson.JSON historyStoreHeader;
  page_JSON :: PrivateJson.JSON acquiredPage;
  mutation_JSON :: PrivateJson.JSON historyMutation;
  unavailable_JSON :: PrivateJson.JSON historyUnavailableRecord;
  bulk_JSON :: PrivateJson.JSON historyBulkProgress;
  header_wire (h : historyStoreHeader) : PrivateJson.json_wire h = h;
  page_wire (p : acquiredPage) : PrivateJson.json_wire p = p;
  mutation_wire (m : historyMutation) : PrivateJson.json_wire m = m;
  unavailable_wire (r : historyUnavailableRecord) : PrivateJson.json_wire r = r;
  bulk_wire (p : historyBulkProgress) : PrivateJson.json_wire p = p;
}.

(** ** Names *)

Definition historyDigest (value : string) : string := sha256Hex value.

(** [fmt.Sprintf("%d", n)]. *)
Definition decimal (n : Z) : string := pretty n.

Definition historyPageName (req : SyncMsg.Request) : string :=
  "page-" +:+ historyDigest (decimal (SyncMsg.ChatID req) +:+ "/" +:+ decimal (SyncMsg.Cur req) +:+ "/" +:+
                             decimal (SyncMsg.Max req)) +:+ ".json".

Definition historyMutationName (target : historyTarget) : string :=
  "target-" +:+ historyDigest (decimal (ht_chatID target) +:+ "/" +:+ decimal (ht_logID target)) +:+ ".json".

(** [historyPageName(req)[5:]]. *)
Definition unavailableName (req : SyncMsg.Request) : string :=
  "unavailable-" +:+ String.substring 5 (String.length (historyPageName req) - 5) (historyPageName req).

(** A payload that is a [TextMessage]: its author and time. *)
Class TextContent `{EventContent} := { textPayload : Payload -> option (Z * Z) }.

Section Store.
Context `{TextContent} `{!HistoryJSON}.
Implicit Types (s : historyStore) (env : StoreEnv).

(** ** Pages *)

Record HistoryPage := mkHistoryPage { hp_Events : list Event; Next : Z; Complete : bool }.

(** The loop of [decodeHistoryPage], the events and the cursor so far. *)
Fixpoint decodeLogs (req : SyncMsg.Request) (limit : nat) (evs : list Event) (next : Z) (logs : list Raw)
  : res ClientError (list Event * Z) :=
  match logs with
  | [] => Ok (evs, next)
  | raw :: logs =>
      match SyncMsg.LogID raw with
      | Err _ => Err ErrProtocol
      | Ok logID =>
          if logID <? SyncMsg.Cur req then Err ErrProtocol
          else if (logID =? SyncMsg.Cur req) || (SyncMsg.Max req <? logID) then decodeLogs req limit evs next logs
          else
            match DecodeChatLog (SyncMsg.ChatID req) raw with
            | Err e => Err (ErrEvent e)
            | Ok event =>
                match MessagePosition event with
                | Some (chatID, position) =>
                    if negb (chatID =? SyncMsg.ChatID req) || negb (position =? logID) then Err ErrProtocol
                    else if (length evs <? limit)%nat then decodeLogs req limit (evs ++ [event]) logID logs
                    else decodeLogs req limit evs next logs
                | None => Err ErrProtocol
                end
            end
      end
  end.

Definition decodeHistoryPage (req : SyncMsg.Request) (response : SyncMsg.Response) (limit : nat)
  : res ClientError HistoryPage :=
  let! (evs, next) := decodeLogs req limit [] (SyncMsg.Cur req) (SyncMsg.ChatLogs response) in
  match evs with
  | [] =>
      match SyncMsg.ChatLogs response with
      | [] => if SyncMsg.Max req <? SyncMsg.MinLogID response then Err (Joined ErrGapUnresolved ErrHistoryBelowFloor)
              else Err (Joined ErrGapUnresolved ErrHistoryNonProgressing)
      | _ => Err (Joined ErrGapUnresolved ErrHistoryNonProgressing)
      end
  | _ => Ok (mkHistoryPage evs next (next =? SyncMsg.Max req))
  end.

(** The logs of a page are valid documents in ascending order. *)
Fixpoint ascendingLogs (previous : Z) (logs : list Raw) : option ClientError :=
  match logs with
  | [] => None
  | raw :: logs =>
      if negb (Validate raw) then Some ErrHistoryStoreCorrupt else
      match SyncMsg.LogID raw with
      | Err _ => Some ErrHistoryStoreCorrupt
      | Ok id => if (0 <? previous) && (id <=? previous) then Some ErrHistoryStoreCorrupt else ascendingLogs id logs
      end
  end.

Definition validateAcquiredPage (req : SyncMsg.Request) (response : SyncMsg.Response) : res ClientError Z :=
  if negb (SyncMsg.Count req =? 0) then Err ErrProtocol else
  match SyncMsg.Request_MarshalBSON req with
  | Err e => Err (ErrSync e)
  | Ok _ =>
      match ascendingLogs 0 (SyncMsg.ChatLogs response) with
      | Some e => Err e
      | None =>
          let! page := decodeHistoryPage req response (Nat.max 1 (length (SyncMsg.ChatLogs response))) in
          Ok (Next page)
      end
  end.

(** The bound of [writeHistoryObject] before the atomic write. *)
Definition writeHistoryObject {T} `{PrivateJson.JSON T} (wenv : PrivateJson.WriteEnv) (file : PrivateJson.File T) (value : T)
  : PrivateJson.File T * option ClientError :=
  if PrivateJson.MaxSize <? PrivateJson.json_size value + 1 then (file, Some ErrHistoryStoreCapacity)
  else let '(file, err) := PrivateJson.WriteAtomic wenv file value in (file, ErrStoreFile <$> err).

(** ** Mutations *)

Definition validateMutation s (m : historyMutation) : option ClientError :=
  if negb (Version m =? 1) || negb (String.eqb (Binding m) (binding s)) || (ChatID m <=? 0) || (TargetID m <=? 0)
     || (Sequence m <? 0) || (Revision m <? 0)
     || (negb (Deleted m) && (Revision m =? 0) && bool_decide (Replacement m = None))
  then Some ErrHistoryStoreCorrupt else
  match Replacement m with
  | None => None
  | Some replacement =>
      match DecodeChatLog (ChatID m) replacement with
      | Err _ => Some ErrHistoryStoreCorrupt
      | Ok event =>
          match MessagePosition event with
          | Some (chat, id) =>
              if negb (chat =? ChatID m) || negb (id =? TargetID m) || (Int64OrZero replacement ["revision"] <? Revision m)
              then Some ErrHistoryStoreCorrupt else None
          | None => Some ErrHistoryStoreCorrupt
          end
      end
  end.

Definition writeMutation env s (m : historyMutation) : historyStore * option ClientError :=
  let m := if bool_decide (Replacement m = None) then m
           else mkMutation (Version m) (Binding m) (ChatID m) (TargetID m) (Sequence m) (Revision m) (Deleted m) true (Replacement m) in
  match validateMutation s m with
  | Some e => (s, Some e)
  | None =>
      let n := historyMutationName (mkTarget (ChatID m) (TargetID m)) in
      let '(file, err) := writeHistoryObject (onWrite env (dir s) n) (fileAt (targetFiles (dir s)) n) m in
      let s := set_dir (set_targetFile n file (dir s)) s in
      match err with
      | Some e => (set_failed (Some e) s, Some e)
      | None =>
          let s := set_mutations (<[mkTarget (ChatID m) (TargetID m) := m]> (mutations s)) s in
          (if Acquired m then set_targets ({[mkTarget (ChatID m) (TargetID m)]} ∪ targets s) s else s, None)
      end
  end.

Definition mutationOf s (target : historyTarget) : historyMutation := default zeroMutation (mutations s !! target).

(** A fresh mutation of [target], marked as the old one. *)
Definition observed s (target : historyTarget) (old : historyMutation) (seq rev : Z) (deleted : bool)
    (replacement : option Raw) : historyMutation :=
  mkMutation 1 (binding s) (ht_chatID target) (ht_logID target) seq rev deleted (Acquired old) replacement.

Definition observe env s (event : Event) (replacement : option Raw) : historyStore * option ClientError :=
  match event with
  | MessageDeleted chat logID _ _ target _ =>
      let old := mutationOf s (mkTarget chat target) in
      if Deleted old then (s, None)
      else writeMutation env s (observed s (mkTarget chat target) old logID (Revision old) true (Replacement old))
  | DeletedMessage chat logID _ _ _ =>
      let old := mutationOf s (mkTarget chat logID) in
      if Deleted old then (s, None)
      else writeMutation env s (observed s (mkTarget chat logID) old logID (Revision old) true (Replacement old))
  | MessageEdited chat logID _ _ target revision _ =>
      let old := mutationOf s (mkTarget chat target) in
      if Deleted old then (s, None)
      else if (logID <? Sequence old) || (revision <? Revision old) then (s, None)
      else
        let kept := if Revision old =? revision then Replacement old else None in
        let m := observed s (mkTarget chat target) old logID revision false
                   (match replacement with Some r => Some r | None => kept end) in
        if (logID =? Sequence old) && (revision =? Revision old) && bool_decide (replacement = None) then (s, None)
        else writeMutation env s m
  | _ => (s, None)
  end.

(** The second half of an iteration of [observeRecords]: the record's own
    content as the target's replacement. *)
Definition observeRecord env s (chatID : Z) (raw : Raw) : historyStore * option ClientError :=
  match SyncMsg.LogID raw with
  | Err e => (s, Some (ErrSync e))
  | Ok id =>
      let revision := Int64OrZero raw ["revision"] in
      let old := mutationOf s (mkTarget chatID id) in
      let '(s, err) :=
        if Deleted old && bool_decide (Replacement old = None) then
          writeMutation env s (mkMutation (Version old) (Binding old) (ChatID old) (TargetID old) (Sequence old)
            (Revision old) true (Acquired old) (Some raw))
        else (s, None) in
      match err with
      | Some e => (s, Some e)
      | None =>
          if negb (Deleted old) && (Revision old <=? revision) then
            writeMutation env s (mkMutation 1 (binding s) chatID id (Sequence old) revision false (Acquired old) (Some raw))
          else (s, None)
      end
  end.

Fixpoint observeRecords env s (chatID : Z) (logs : list Raw) : historyStore * option ClientError :=
  match logs with
  | [] => (s, None)
  | raw :: logs =>
      match DecodeChatLog chatID raw with
      | Err e => (s, Some (ErrEvent e))
      | Ok event =>
          match observe env s event None with
          | (s, Some e) => (s, Some e)
          | (s, None) =>
              match observeRecord env s chatID raw with
              | (s, Some e) => (s, Some e)
              | (s, None) => observeRecords env s chatID logs
              end
          end
      end
  end.

Definition targetsOf (chatID : Z) (logs : list Raw) : gset historyTarget :=
  list_to_set ((fun raw => mkTarget chatID (SyncMsg.logIDof raw)) <$> logs).

Definition observePacket env s (packet : Packet) (event : Event) : historyStore * option ClientError :=
  let replacement :=
    match event with
    | MessageEdited _ _ _ _ _ _ _ =>
        match LookupErr (Body packet) "modifiedChatLog" with Some (VDocument d) => Some d | _ => None end
    | _ => None
    end in
  match failed s with Some e => (s, Some e) | None => observe env s event replacement end.

Definition observeCurrentRecords env s (chatID : Z) (logs : list Raw) : historyStore * option ClientError :=
  match failed s with
  | Some e => (s, Some e)
  | None =>
      match observeRecords env s chatID logs with
      | (s, Some e) => (set_failed (Some e) s, Some e)
      | (s, None) => (set_targets (targetsOf chatID logs ∪ targets s) s, None)
      end
  end.

(** ** Intervals the server has nothing for *)

Definition validUnavailable env s (r : historyUnavailableRecord) : bool :=
  let o := Observation r in
  match SyncMsg.Request_MarshalBSON (ur_Request r) with
  | Err _ => false
  | Ok _ =>
      (SyncMsg.Count (ur_Request r) =? 0) && (ur_Version r =? 1) && String.eqb (ur_Binding r) (binding s) &&
      (SyncMsg.Max (ur_Request r) <? hu_MinLogID o) && negb (ObservedAt o =? ZeroTime) &&
      negb (now env + 60000000000 <? ObservedAt o) && (RetryAfter o =? ObservedAt o + historyUnavailableFreshness)
  end.

(** [os.Remove]: the files afterwards and whether it succeeded or the file was
    not there. *)
Definition removeFile {T} (ok : bool) (n : string) (files : gmap string (PrivateJson.File T))
  : gmap string (PrivateJson.File T) * bool :=
  match files !! n with
  | None => (files, true)
  | Some _ => if ok then (delete n files, true) else (files, false)
  end.

(** The records that have expired are removed, one by one. *)
Fixpoint dropExpired env s (records : list (SyncMsg.Request * historyUnavailableRecord)) : historyStore * option ClientError :=
  match records with
  | [] => (s, None)
  | (old, r) :: records =>
      if RetryAfter (Observation r) <=? now env then
        let n := unavailableName old in
        let '(files, ok) := removeFile (onRemove env n) n (unavailableFiles (dir s)) in
        let s := set_dir (set_unavailableFiles files (dir s)) s in
        if ok then dropExpired env (set_unavailable (delete old (unavailable s)) s) records
        else (set_failed (Some ErrRemove) s, Some ErrRemove)
      else dropExpired env s records
  end.

Definition saveUnavailable env s (req : SyncMsg.Request) (response : SyncMsg.Response) : historyStore * option ClientError :=
  match SyncMsg.Request_MarshalBSON req with
  | Err e => (s, Some (ErrSync e))
  | Ok _ =>
      if negb (SyncMsg.Count req =? 0) || negb (bool_decide (SyncMsg.ChatLogs response = [])) ||
         (SyncMsg.MinLogID response <=? SyncMsg.Max req) then (s, Some ErrProtocol) else
      match failed s with
      | Some e => (s, Some e)
      | None =>
          match dropExpired env s (map_to_list (unavailable s)) with
          | (s, Some e) => (s, Some e)
          | (s, None) =>
              if bool_decide (unavailable s !! req = None) && (historyUnavailableMaximum <=? size (unavailable s))%nat
              then (s, Some ErrHistoryStoreCapacity) else
              let o := mkUnavailable (SyncMsg.MinLogID response) (now env) (now env + historyUnavailableFreshness) in
              let r := mkUnavailableRecord 1 (binding s) req o in
              let n := unavailableName req in
              let '(file, err) := writeHistoryObject (onWrite env (dir s) n) (fileAt (unavailableFiles (dir s)) n) r in
              let s := set_dir (set_unavailableFiles (putFile n file (unavailableFiles (dir s))) (dir s)) s in
              match err with
              | Some e => (set_failed (Some e) s, Some e)
              | None => (set_unavailable (<[req := r]> (unavailable s)) s, Some (Delivery.HistoryUnavailable (hu_MinLogID o)))
              end
          end
      end
  end.

(** A fresh observation of exactly this interval. *)
Definition unavailableLocked env s (req : SyncMsg.Request) : historyStore * res ClientError (option HistoryUnavailable) :=
  match unavailable s !! req with
  | None => (s, Ok None)
  | Some _ =>
      let n := unavailableName req in
      match PrivateJson.Read (onRead env n) (fileAt (unavailableFiles (dir s)) n) with
      | Ok (Some r) =>
          if negb (bool_decide (ur_Request r = req)) || negb (validUnavailable env s r)
          then (set_failed (Some ErrHistoryStoreCorrupt) s, Err ErrHistoryStoreCorrupt)
          else if now env <? ObservedAt (Observation r) then (s, Err ErrHistoryStoreCorrupt)
          else if RetryAfter (Observation r) <=? now env then (s, Ok None)
          else (s, Ok (Some (Observation r)))
      | _ => (set_failed (Some ErrHistoryStoreCorrupt) s, Err ErrHistoryStoreCorrupt)
      end
  end.

(** ** Saving a page *)

Definition selectedLogs (req : SyncMsg.Request) (logs : list Raw) : list Raw :=
  filter (fun raw => SyncMsg.Cur req < SyncMsg.logIDof raw <= SyncMsg.Max req) logs.

Definition raiseCursor (id n : Z) (m : gmap Z Z) : gmap Z Z := <[id := Z.max (default 0 (m !! id)) n]> m.

Definition save env s (req : SyncMsg.Request) (response : SyncMsg.Response) : historyStore * option ClientError :=
  if bool_decide (SyncMsg.ChatLogs response = []) && (SyncMsg.Max req <? SyncMsg.MinLogID response)
  then saveUnavailable env s req response else
  match validateAcquiredPage req response with
  | Err e => (s, Some e)
  | Ok last =>
      match failed s with
      | Some e => (s, Some e)
      | None =>
          let selected := SyncMsg.mkResponse (selectedLogs req (SyncMsg.ChatLogs response)) (SyncMsg.MinLogID response) false in
          match observeRecords env s (SyncMsg.ChatID req) (SyncMsg.ChatLogs selected) with
          | (s, Some e) => (set_failed (Some e) s, Some e)
          | (s, None) =>
              let n := historyPageName req in
              let page := mkAcquiredPage 1 (binding s) req selected in
              let '(file, err) := writeHistoryObject (onWrite env (dir s) n) (fileAt (pageFiles (dir s)) n) page in
              let s := set_dir (set_pageFile n file (dir s)) s in
              match err with
              | Some e => (set_failed (Some e) s, Some e)
              | None =>
                  let s := set_pages (<[n := mkPageRef req last n]> (pages s)) s in
                  let s := set_bulkCursors (raiseCursor (SyncMsg.ChatID req) last (bulkCursors s)) s in
                  (set_targets (targetsOf (SyncMsg.ChatID req) (SyncMsg.ChatLogs selected) ∪ targets s) s, None)
              end
          end
      end
  end.

(** ** Reading *)

(** [type] of a deleted message, in place of every [type] of the document. *)
Definition markDeleted (raw : Raw) (doc : list (string * Value Raw)) : list (string * Value Raw) :=
  if existsb (fun el => String.eqb (fst el) "type") doc then
    (fun el => if String.eqb (fst el) "type"
               then (fst el, VInt32 (Z.lor (wrap32 (Int64OrZero raw ["type"])) DeletedAllChatTypeFlag)) else el) <$> doc
  else doc ++ [("type", VInt32 DeletedAllChatTypeFlag)].

Definition apply s (raw : Raw) (chatID : Z) : res ClientError Raw :=
  match SyncMsg.LogID raw with
  | Err e => Err (ErrSync e)
  | Ok id =>
      match mutations s !! mkTarget chatID id with
      | None => Ok raw
      | Some mutation =>
          if Deleted mutation then
            match Elements raw with
            | None => Err ErrHistoryStoreCorrupt
            | Some doc => Ok (Marshal (markDeleted raw doc))
            end
          else match Replacement mutation with
               | None => Err ErrHistoryTargetUnresolved
               | Some replacement => Ok replacement
               end
      end
  end.

Definition pageRefs s : list acquiredPageRef := snd <$> map_to_list (pages s).

(** One pass of the coverage loop over the pages. *)
Definition extend (req : SyncMsg.Request) (refs : list acquiredPageRef) (end_ : Z) : Z :=
  foldl (fun next ref =>
           if (SyncMsg.ChatID (request ref) =? SyncMsg.ChatID req) && (SyncMsg.Cur (request ref) <=? end_) && (end_ <? last ref)
           then Z.max next (Z.min (last ref) (SyncMsg.Max req)) else next) end_ refs.

Fixpoint coverLoop (fuel : nat) (req : SyncMsg.Request) (refs : list acquiredPageRef) (end_ : Z) : option Z :=
  match fuel with
  | O => None
  | S fuel => let next := extend req refs end_ in
              if next =? end_ then Some end_ else coverLoop fuel req refs next
  end.

(** Each turn that moves passes the end of a page, except the last. *)
Definition coverFuel s : nat := S (S (length (pageRefs s))).

Definition coveredThroughLocked s (req : SyncMsg.Request) : option Z :=
  coverLoop (coverFuel s) req (pageRefs s) (SyncMsg.Cur req).

(** A page file that must still be what the reference names. *)
Definition readPage env s (ref : acquiredPageRef) : option acquiredPage :=
  match PrivateJson.Read (onRead env (name ref)) (fileAt (pageFiles (dir s)) (name ref)) with
  | Ok (Some page) =>
      if negb (ap_Version page =? 1) || negb (String.eqb (ap_Binding page) (binding s)) ||
         negb (String.eqb (historyPageName (Request page)) (name ref)) then None else
      match validateAcquiredPage (Request page) (Response page) with Ok _ => Some page | Err _ => None end
  | _ => None
  end.

(** The rows of the pages visited, and the highest floor they name. *)
Fixpoint collectRows env s (keep : Z -> bool) (visit : acquiredPageRef -> bool) (refs : list acquiredPageRef)
    (rows : gmap Z Raw) (floor : Z) : res ClientError (gmap Z Raw * Z) :=
  match refs with
  | [] => Ok (rows, floor)
  | ref :: refs =>
      if visit ref then
        match readPage env s ref with
        | None => Err ErrHistoryStoreCorrupt
        | Some page =>
            let rows := foldl (fun rows raw => if keep (SyncMsg.logIDof raw) then <[SyncMsg.logIDof raw := raw]> rows else rows)
                          rows (SyncMsg.ChatLogs (Response page)) in
            collectRows env s keep visit refs rows (Z.max floor (SyncMsg.MinLogID (Response page)))
        end
      else collectRows env s keep visit refs rows floor
  end.

(** The mutations of the interval: the first unresolved target and the rows
    with the known replacements in place. *)
Definition overlay s (chatID cur end_ : Z) (acc : Z * gmap Z Raw) : Z * gmap Z Raw :=
  foldl (fun '(barrier, rows) '(mkTarget chat log, mutation) =>
           if negb (chat =? chatID) || (log <=? cur) || (end_ <? log) then (barrier, rows) else
           let barrier := if negb (Deleted mutation) && bool_decide (Replacement mutation = None) &&
                             bool_decide (mkTarget chat log ∈ targets s) && ((barrier =? 0) || (log <? barrier))
                          then log else barrier in
           (barrier, match Replacement mutation with Some r => <[log := r]> rows | None => rows end))
        acc (map_to_list (mutations s)).

(** [slices.Sort] of the keys. *)
Definition sortedIDs (rows : gmap Z Raw) : list Z := merge_sort Z.le (fst <$> map_to_list rows).

(** The rows in order, up to the first that cannot be shown. *)
Fixpoint projectRows s (chatID barrier : Z) (rows : gmap Z Raw) (ids : list Z) : res ClientError (list Raw) :=
  match ids with
  | [] => Ok []
  | id :: ids =>
      if (0 <? barrier) && (barrier <=? id) then Ok [] else
      match rows !! id with
      | None => Ok [] (* the IDs are the map's keys *)
      | Some raw =>
          match apply s raw chatID with
          | Err ErrHistoryTargetUnresolved => Ok []
          | Err e => Err e
          | Ok projected => let! out := projectRows s chatID barrier rows ids in Ok (projected :: out)
          end
      end
  end.

Definition lookup env s (req : SyncMsg.Request) : historyStore * res ClientError (option SyncMsg.Response) :=
  match failed s with
  | Some e => (s, Err e)
  | None =>
      match coveredThroughLocked s req with
      | None => (s, Err ErrSession) (* out of fuel *)
      | Some end_ =>
          let cur := SyncMsg.Cur req in
          if end_ =? cur then
            match unavailableLocked env s req with
            | (s, Err e) => (s, Err e)
            | (s, Ok (Some observation)) => (s, Err (Delivery.HistoryUnavailable (hu_MinLogID observation)))
            | (s, Ok None) => (s, Ok None)
            end
          else
            let visit ref := (SyncMsg.ChatID (request ref) =? SyncMsg.ChatID req) && (SyncMsg.Cur (request ref) <? end_) &&
                             (cur <? last ref) in
            let keep id := (cur <? id) && (id <=? end_) in
            match collectRows env s keep visit (rangePages env (pageRefs s)) ∅ 0 with
            | Err e => (set_failed (Some e) s, Err e)
            | Ok (rows, floor) =>
                let '(barrier, rows) := overlay s (SyncMsg.ChatID req) cur end_ (0, rows) in
                match projectRows s (SyncMsg.ChatID req) barrier rows (sortedIDs rows) with
                | Err e => (s, Err e)
                | Ok [] => (s, Ok None)
                | Ok out => (s, Ok (Some (SyncMsg.mkResponse out floor false)))
                end
            end
      end
  end.

(** [event.(events.TextMessage)]. *)
Definition textMessage (event : Event) : option (Z * Z) :=
  match event with ContentMessage _ _ payload => textPayload payload | _ => None end.

(** An event as the store knows its message now. *)
Definition project s (event : Event) : res ClientError Event :=
  match MessagePosition event with
  | None => Ok event
  | Some (chat, id) =>
      match failed s with
      | Some e => Err e
      | None =>
          match mutations s !! mkTarget chat id with
          | None => Ok event
          | Some mutation =>
              match Replacement mutation with
              | None =>
                  if Deleted mutation then
                    match textMessage event with
                    | Some (authorID, sentAt) => Ok (DeletedMessage chat id authorID sentAt 1)
                    | None => Err ErrHistoryTargetUnresolved
                    end
                  else Err ErrHistoryTargetUnresolved
              | Some replacement =>
                  let! raw := apply s replacement chat in
                  match DecodeChatLog chat raw with Ok event => Ok event | Err e => Err (ErrEvent e) end
              end
          end
      end
  end.

(** ** Bulk progress *)

Definition bulkSnapshot s : gmap Z Z :=
  map_imap (fun id high => coveredThroughLocked s (SyncMsg.mkRequest id 0 high 0)) (bulkCursors s).

Fixpoint raiseCursors (cursors : list (Z * Z)) (next : gmap Z Z) : option (gmap Z Z) :=
  match cursors with
  | [] => Some next
  | (id, cursor) :: cursors =>
      if (id <=? 0) || (cursor <? 0) then None else raiseCursors cursors (raiseCursor id cursor next)
  end.

Definition commitBulk env s (cursors : gmap Z Z) : historyStore * option ClientError :=
  match failed s with
  | Some e => (s, Some e)
  | None =>
      match raiseCursors (map_to_list cursors) (bulkCursors s) with
      | None => (s, Some ErrProtocol)
      | Some next =>
          let '(file, err) := writeHistoryObject (onWrite env (dir s) "bulk.json") (bulkFile (dir s))
                                (mkBulkProgress 1 (binding s) next) in
          let s := set_dir (set_bulkFile file (dir s)) s in
          match err with
          | Some e => (set_failed (Some e) s, Some e)
          | None => (set_bulkCursors next s, None)
          end
      end
  end.

(** ** Opening *)

(** What [openHistoryStore] meets besides the files: the modes of the parent
    and of the directory, whether [os.Mkdir] and [os.ReadDir] succeed, and the
    first write of the header. *)
Record OpenEnv := mkOpenEnv {
  o_parent : PrivateJson.LstatResult;
  o_mkdir : bool; (* made, or already there *)
  o_dir : PrivateJson.LstatResult;
  o_readdir : bool;
  o_header : PrivateJson.ReadEnv;
  o_initial : PrivateJson.InitialEnv historyStoreHeader;
}.

Definition isMissing {T} (f : PrivateJson.File T) : bool :=
  match f with PrivateJson.Missing => true | _ => false end.

Definition dirEmpty (d : historyDir) : bool :=
  isMissing (headerFile d) && isMissing (bulkFile d) &&
  bool_decide (pageFiles d = ∅) && bool_decide (targetFiles d = ∅) && bool_decide (unavailableFiles d = ∅) &&
  bool_decide (others d = []).

(** Records that no longer hold are removed; the rest are loaded. *)
Fixpoint loadUnavailable env s (files : list string) : historyStore * option ClientError :=
  match files with
  | [] => (s, None)
  | n :: files =>
      match PrivateJson.Read (onRead env n) (fileAt (unavailableFiles (dir s)) n) with
      | Ok (Some r) =>
          if negb (validUnavailable env s r) || negb (String.eqb n (unavailableName (ur_Request r)))
          then (s, Some ErrHistoryStoreCorrupt)
          else if RetryAfter (Observation r) <=? now env then
            if onRemove env n
            then loadUnavailable env (set_dir (set_unavailableFiles (delete n (unavailableFiles (dir s))) (dir s)) s) files
            else (s, Some ErrRemove)
          else if (historyUnavailableMaximum <=? size (unavailable s))%nat then (s, Some ErrHistoryStoreCapacity)
          else loadUnavailable env (set_unavailable (<[ur_Request r := r]> (unavailable s)) s) files
      | _ => (s, Some ErrHistoryStoreCorrupt)
      end
  end.

Definition loadBulk env s : historyStore * option ClientError :=
  match bulkFile (dir s) with
  | PrivateJson.Missing => (s, None)
  | file =>
      match PrivateJson.Read (onRead env "bulk.json") file with
      | Ok (Some progress) =>
          if negb (bp_Version progress =? 1) || negb (String.eqb (bp_Binding progress) (binding s))
          then (s, Some ErrHistoryStoreCorrupt)
          else match raiseCursors (map_to_list (Cursors progress)) (bulkCursors s) with
               | None => (s, Some ErrHistoryStoreCorrupt)
               | Some next => (set_bulkCursors next s, None)
               end
      | _ => (s, Some ErrHistoryStoreCorrupt)
      end
  end.

(** [pageCursors] is the highest log ID of each chat's pages. *)
Fixpoint loadPages env s (pageCursors : gmap Z Z) (files : list string) : historyStore * res ClientError (gmap Z Z) :=
  match files with
  | [] => (s, Ok pageCursors)
  | n :: files =>
      match PrivateJson.Read (onRead env n) (fileAt (pageFiles (dir s)) n) with
      | Ok (Some page) =>
          if negb (ap_Version page =? 1) || negb (String.eqb (ap_Binding page) (binding s)) ||
             negb (String.eqb n (historyPageName (Request page))) then (s, Err ErrHistoryStoreCorrupt) else
          match validateAcquiredPage (Request page) (Response page) with
          | Err _ => (s, Err ErrHistoryStoreCorrupt)
          | Ok last =>
              let chat := SyncMsg.ChatID (Request page) in
              let s := set_pages (<[n := mkPageRef (Request page) last n]> (pages s)) s in
              let s := set_bulkCursors (raiseCursor chat last (bulkCursors s)) s in
              let s := set_targets (targetsOf chat (SyncMsg.ChatLogs (Response page)) ∪ targets s) s in
              loadPages env s (raiseCursor chat last pageCursors) files
          end
      | _ => (s, Err ErrHistoryStoreCorrupt)
      end
  end.

Fixpoint loadTargets env s (files : list string) : historyStore * option ClientError :=
  match files with
  | [] => (s, None)
  | n :: files =>
      match PrivateJson.Read (onRead env n) (fileAt (targetFiles (dir s)) n) with
      | Ok (Some m) =>
          if bool_decide (validateMutation s m <> None) || negb (String.eqb n (historyMutationName (mkTarget (ChatID m) (TargetID m))))
          then (s, Some ErrHistoryStoreCorrupt)
          else
            let s := set_mutations (<[mkTarget (ChatID m) (TargetID m) := m]> (mutations s)) s in
            let s := if Acquired m || negb (bool_decide (Replacement m = None))
                     then set_targets ({[mkTarget (ChatID m) (TargetID m)]} ∪ targets s) s else s in
            loadTargets env s files
      | _ => (s, Some ErrHistoryStoreCorrupt)
      end
  end.

Definition hidden (n : string) : bool := String.prefix "." n.

(** The files are loaded by kind: the order of [os.ReadDir] decides only which
    of several errors is returned. *)
Definition loadFiles env s : historyStore * option ClientError :=
  if negb (forallb hidden (others (dir s))) then (s, Some ErrHistoryStoreCorrupt) else
  match loadBulk env s with
  | (s, Some e) => (s, Some e)
  | (s, None) =>
      match loadPages env s ∅ (fst <$> map_to_list (pageFiles (dir s))) with
      | (s, Err e) => (s, Some e)
      | (s, Ok pageCursors) =>
          match loadTargets env s (fst <$> map_to_list (targetFiles (dir s))) with
          | (s, Some e) => (s, Some e)
          | (s, None) =>
              match loadUnavailable env s (fst <$> map_to_list (unavailableFiles (dir s))) with
              | (s, Some e) => (s, Some e)
              | (s, None) =>
                  if bool_decide (map_Forall (fun id cursor => cursor <= default 0 (pageCursors !! id)) (bulkCursors s))
                  then (s, None) else (s, Some ErrHistoryStoreCorrupt)
              end
          end
      end
  end.

(** The directory afterwards, and the store or the error. *)
Definition openHistoryStore env (oenv : OpenEnv) (d : historyDir) (accountID : Z) (deviceID : string)
  : historyDir * res ClientError historyStore :=
  if (accountID <=? 0) || String.eqb deviceID "" then (d, Err ErrProtocol) else
  match PrivateJson.ValidatePrivateDir (o_parent oenv) with
  | Some e => (d, Err (ErrStoreFile e))
  | None =>
      if negb (o_mkdir oenv) then (d, Err ErrHistoryStoreCorrupt) else
      match PrivateJson.ValidatePrivateDir (o_dir oenv) with
      | Some e => (d, Err (ErrStoreFile e))
      | None =>
          if negb (o_readdir oenv) then (d, Err ErrHistoryStoreCorrupt) else
          let b := historyDigest (decimal accountID +:+ "/" +:+ deviceID) in
          let fresh d := mkHistoryStore d b ∅ ∅ None ∅ ∅ ∅ in
          let load d :=
            match loadFiles env (fresh d) with
            | (s, Some e) => (dir s, Err e)
            | (s, None) => (dir s, Ok s)
            end in
          match PrivateJson.Read (o_header oenv) (headerFile d) with
          | Err e => (d, Err (ErrStoreFile e))
          | Ok None =>
              if negb (dirEmpty d) then (d, Err ErrHistoryStoreCorrupt) else
              let '(file, err) := PrivateJson.WriteInitial (o_initial oenv) (headerFile d) (mkStoreHeader 1 b) in
              let d := set_headerFile file d in
              match err with
              | Some e => (d, Err (ErrStoreFile e))
              | None => load d
              end
          | Ok (Some header) =>
              if negb (sh_Version header =? 1) || negb (String.eqb (sh_Binding header) b)
              then (d, Err ErrHistoryStoreCorrupt) else load d
          end
      end
  end.

(** ** Windows (history_window.go) *)

Record StoredHistoryRequest := mkStoredRequest {
  sr_ChatID : Z; After : Z; Through : Z; Limit : Z; ExcludeThrough : bool }.

Record StoredHistoryPage := mkStoredPage {
  sp_Events : list Event;
  CoveredThrough : Z;
  MissingThrough : Z;
  CachedSuffix : bool;
  HasMore : bool;
  Unavailable : option HistoryUnavailable;
  sp_Complete : bool;
}.

(** One pass of the suffix loop: the first ID after which the pages connect to
    the ceiling. *)
Definition extendDown (req : StoredHistoryRequest) (refs : list acquiredPageRef) (after : Z) : Z :=
  foldl (fun next ref =>
           if (SyncMsg.ChatID (request ref) =? sr_ChatID req) && (after <=? last ref) && (SyncMsg.Cur (request ref) <? after)
           then Z.min next (Z.max (After req) (SyncMsg.Cur (request ref))) else next) after refs.

Fixpoint suffixLoop (fuel : nat) (req : StoredHistoryRequest) (refs : list acquiredPageRef) (after : Z) : option Z :=
  match fuel with
  | O => None
  | S fuel => let next := extendDown req refs after in
              if next =? after then Some after else suffixLoop fuel req refs next
  end.

Definition missingThrough (req : StoredHistoryRequest) (refs : list acquiredPageRef) (covered : Z) : Z :=
  foldl (fun missing ref =>
           if (SyncMsg.ChatID (request ref) =? sr_ChatID req) && (covered <? SyncMsg.Cur (request ref))
           then Z.min missing (SyncMsg.Cur (request ref)) else missing) (Through req) refs.

(** The events of the chosen rows. *)
Fixpoint windowEvents s (chatID : Z) (rows : gmap Z Raw) (ids : list Z) : res ClientError (list Event) :=
  match ids with
  | [] => Ok []
  | id :: ids =>
      match rows !! id with
      | None => Ok [] (* the IDs are the map's keys *)
      | Some raw =>
          let! raw := apply s raw chatID in
          match DecodeChatLog chatID raw with
          | Err e => Err (ErrEvent e)
          | Ok event => let! out := windowEvents s chatID rows ids in Ok (event :: out)
          end
      end
  end.

Definition window env s (req : StoredHistoryRequest) : historyStore * res ClientError StoredHistoryPage :=
  match failed s with
  | Some e => (s, Err e)
  | None =>
      let interval := SyncMsg.mkRequest (sr_ChatID req) (After req) (Through req) 0 in
      match coveredThroughLocked s interval, suffixLoop (coverFuel s) req (pageRefs s) (Through req) with
      | Some covered, Some suffixAfter =>
          let visit ref := (SyncMsg.ChatID (request ref) =? sr_ChatID req) && (After req <? last ref) &&
                           (SyncMsg.Cur (request ref) <? Through req) in
          let keep id := (After req <? id) && (id <=? Through req) && (negb (ExcludeThrough req) || negb (id =? Through req)) in
          match collectRows env s keep visit (rangePages env (pageRefs s)) ∅ 0 with
          | Err e => (set_failed (Some e) s, Err e)
          | Ok (rows, _) =>
              let ids := filter (fun id => ((suffixAfter <? Through req) && (id <=? suffixAfter)) = false) (sortedIDs rows) in
              let complete := Through req <=? covered in
              let suffix := (suffixAfter <? Through req) && negb (length ids =? 0)%nat in
              let hasMore := (Limit req <? Z.of_nat (length ids)) || (suffix && negb complete) in
              match (if negb complete && (length ids =? 0)%nat then unavailableLocked env s interval else (s, Ok None)) with
              | (s, Err e) => (s, Err e)
              | (s, Ok observation) =>
                  let shown := drop (length ids - Z.to_nat (Limit req)) ids in
                  match windowEvents s (sr_ChatID req) rows shown with
                  | Err e => (s, Err e)
                  | Ok evs =>
                      (s, Ok (mkStoredPage evs covered (missingThrough req (pageRefs s) covered) suffix hasMore observation complete))
                  end
              end
          end
      | _, _ => (s, Err ErrSession) (* out of fuel *)
      end
  end.

Definition ReadStoredHistory env (closed : bool) (store : option historyStore) (req : StoredHistoryRequest)
  : option historyStore * res ClientError StoredHistoryPage :=
  if (Limit req <? 1) || (SyncMsg.MaxPageSize <? Limit req) then (store, Err ErrProtocol) else
  match SyncMsg.Request_MarshalBSON (SyncMsg.mkRequest (sr_ChatID req) (After req) (Through req) 0) with
  | Err e => (store, Err (ErrSync e))
  | Ok _ =>
      if closed then (store, Err ErrClientClosed) else
      match store with
      | None => (None, Err ErrProtocol)
      | Some s => let '(s, page) := window env s req in (Some s, page)
      end
  end.
End Store.
