(* ===== verification/HistoryStoreFacts.v ===== *)
(** * Lemmas about the acquired history store

    Coverage by connected pages, the mutations a store keeps and what each
    operation does to them (src/internal/client/history_store.go). *)

From S2P Require Import Prelude.
From S2P Require Import Bson Events Delivery ProtocolTheorems HistoryStore.
From S2P Require PrivateJson SyncMsg.

#[local] Open Scope string_scope.
#[local] Open Scope list_scope.
#[local] Open Scope Z_scope.

(** ** Coverage *)

(** A page of the request's chat. *)
Definition ofChat (req : SyncMsg.Request) (ref : acquiredPageRef) : Prop :=
  SyncMsg.ChatID (request ref) = SyncMsg.ChatID req.

Section Coverage.
Context (req : SyncMsg.Request).

(** The pages that extend a prefix ending at [e]. *)
Definition extends (e : Z) (ref : acquiredPageRef) : Prop :=
  ofChat req ref /\ SyncMsg.Cur (request ref) <= e < last ref.

#[export] Instance extends_dec e ref : Decision (extends e ref).
Proof. unfold extends, ofChat. apply _. Defined.

Lemma extend_fold refs e : forall next, e <= next ->
  let next' := foldl (fun next ref =>
       if (SyncMsg.ChatID (request ref) =? SyncMsg.ChatID req) && (SyncMsg.Cur (request ref) <=? e) && (e <? last ref)
       then Z.max next (Z.min (last ref) (SyncMsg.Max req)) else next) next refs in
  next <= next' /\
  (next' = next \/ exists ref, ref ∈ refs /\ extends e ref /\ next' = Z.min (last ref) (SyncMsg.Max req)) /\
  Forall (fun ref => extends e ref -> Z.min (last ref) (SyncMsg.Max req) <= next') refs.
Proof.
  induction refs as [|ref refs IH]; intros next Hle; [simpl; split_and!; [lia | by left | constructor]|].
  cbn [foldl]. destruct (_ && _ && _) eqn:E.
  - assert (Hx : extends e ref) by (unfold extends, ofChat; lia).
    destruct (IH (Z.max next (Z.min (last ref) (SyncMsg.Max req))) ltac:(lia)) as (H1 & H2 & H3).
    split_and!; [lia| |].
    + destruct H2 as [->|(r & Hr & Hr2 & ->)].
      * destruct (Z.max_spec next (Z.min (last ref) (SyncMsg.Max req))) as [[? ->]|[? ->]]; [right|by left].
        exists ref. split; [by left|done].
      * right. exists r. split; [by right|done].
    + constructor; [intros _; lia|done].
  - destruct (IH next Hle) as (H1 & H2 & H3). split_and!; [done| |].
    + destruct H2 as [?|(r & Hr & Hr2)]; [by left|]. right. exists r. split; [by right|done].
    + constructor; [|done]. unfold extends, ofChat. intros. lia.
Qed.

Lemma extend_spec refs e :
  e <= extend req refs e /\
  (extend req refs e = e \/ exists ref, ref ∈ refs /\ extends e ref /\ extend req refs e = Z.min (last ref) (SyncMsg.Max req)) /\
  (forall ref, ref ∈ refs -> extends e ref -> Z.min (last ref) (SyncMsg.Max req) <= extend req refs e).
Proof.
  destruct (extend_fold refs e e ltac:(lia)) as (H1 & H2 & H3). split_and!; [done|done|].
  intros ref Hr. by apply (proj1 (Forall_forall _ _) H3).
Qed.

(** A turn that moves either reaches the ceiling or passes the end of a page. *)
Definition beyond (e : Z) (refs : list acquiredPageRef) : nat := length (filter (fun ref => e < last ref) refs).

Lemma beyond_mono e e' refs : e <= e' -> (beyond e' refs <= beyond e refs)%nat.
Proof.
  intros Hle. unfold beyond. induction refs as [|r refs IH]; [done|]. rewrite !filter_cons.
  destruct (decide (e' < last r)), (decide (e < last r)); simpl; lia.
Qed.

Lemma beyond_passed e e' refs ref : ref ∈ refs -> e < last ref <= e' -> (beyond e' refs < beyond e refs)%nat.
Proof.
  intros Hr Hle. induction Hr as [r0 refs|r0 r' refs Hr IH].
  - unfold beyond. rewrite !filter_cons, decide_False, decide_True by lia. simpl.
    pose proof (beyond_mono e e' refs ltac:(lia)). unfold beyond in *. lia.
  - specialize (IH Hle). unfold beyond in *. rewrite !filter_cons.
    destruct (decide (e' < last r')), (decide (e < last r')); simpl; lia.
Qed.

(** The connected prefix: every position up to the end lies in a page, and no
    page that touches the end goes further, short of the ceiling. *)
Definition prefix_of (refs : list acquiredPageRef) (from e : Z) : Prop :=
  from <= e /\ (from < e -> e <= SyncMsg.Max req) /\
  (forall x, from < x <= e -> exists ref, ref ∈ refs /\ ofChat req ref /\ SyncMsg.Cur (request ref) < x <= last ref).

Lemma coverLoop_spec refs from : forall (fuel : nat) (e : Z), prefix_of refs from e ->
  (beyond e refs + (if (e <? SyncMsg.Max req)%Z then 1 else 0) < fuel)%nat ->
  exists e', coverLoop fuel req refs e = Some e' /\ prefix_of refs from e' /\
    (forall ref, ref ∈ refs -> extends e' ref -> SyncMsg.Max req <= e').
Proof.
  induction fuel as [|fuel IH]; intros e Hp Hf; [lia|]. cbn [coverLoop].
  destruct (extend_spec refs e) as (H1 & H2 & H3).
  destruct (extend req refs e =? e) eqn:Ee.
  - exists e. split_and!; try done. intros ref Hr Hx. specialize (H3 ref Hr Hx). destruct Hx as [_ ?]. lia.
  - destruct H2 as [?|(ref & Hr & [Hc Hx] & Hm)]; [lia|].
    assert (Hp' : prefix_of refs from (extend req refs e)).
    { destruct Hp as (P1 & P2 & P3). split_and!; [lia|lia|]. intros x Hx'. destruct (decide (x <= e)) as [?|Hn].
      - apply P3. lia.
      - exists ref. split_and!; [done|done|lia|lia]. }
    apply IH; [done|]. destruct (decide (last ref <= extend req refs e)) as [Hle|Hgt].
    + pose proof (beyond_passed e (extend req refs e) refs ref Hr ltac:(lia)).
      destruct (e <? SyncMsg.Max req) eqn:?, (extend req refs e <? SyncMsg.Max req) eqn:?; lia.
    + pose proof (beyond_mono e (extend req refs e) refs ltac:(lia)).
      destruct (e <? SyncMsg.Max req) eqn:?, (extend req refs e <? SyncMsg.Max req) eqn:?; lia.
Qed.
End Coverage.

Lemma covered_connected `{TextContent} (s : historyStore) req :
  exists e, coveredThroughLocked s req = Some e /\ prefix_of req (pageRefs s) (SyncMsg.Cur req) e /\
    (forall ref, ref ∈ pageRefs s -> extends req e ref -> SyncMsg.Max req <= e).
Proof.
  apply coverLoop_spec.
  - split_and!; [lia|lia|]. intros x Hx. lia.
  - unfold coverFuel, beyond. pose proof (length_filter (fun ref => SyncMsg.Cur req < last ref) (pageRefs s)).
    destruct (_ <? _); lia.
Qed.

(** ** What the store knows of its targets *)

Section Mutations.
Context `{TextContent} `{!HistoryJSON}.
Implicit Types (s : historyStore) (env : StoreEnv) (m : historyMutation).

(** Every mutation is filed under its own target and passes the store's
    validation. *)
Definition store_ok s : Prop :=
  forall k m, mutations s !! k = Some m -> k = mkTarget (ChatID m) (TargetID m) /\ validateMutation s m = None.

(** A target's knowledge never regresses: a deletion is final, the revision
    never falls, and the sequence never falls before the deletion. *)
Definition advances m m' : Prop :=
  Revision m <= Revision m' /\ (Deleted m = true -> Deleted m' = true) /\
  (Deleted m' = false -> Sequence m <= Sequence m').

#[export] Instance advances_preorder : PreOrder advances.
Proof.
  split; [by intros m|]. intros a b c (A1 & A2 & A3) (B1 & B2 & B3). split_and!; [lia|tauto|].
  intros Hc. destruct (Deleted b) eqn:Eb; [by rewrite B2 in Hc|]. pose proof (A3 eq_refl). pose proof (B3 Hc). lia.
Qed.

(** A target is learned or advanced, none is forgotten, and the binding and the
    acquired pages stay. *)
Definition learns s s' : Prop :=
  binding s' = binding s /\
  (forall k m, mutations s !! k = Some m -> exists m', mutations s' !! k = Some m' /\ advances m m').

#[export] Instance learns_preorder : PreOrder learns.
Proof.
  split; [intros s; split; [done|]; intros k m Hm; by exists m|].
  intros a b c [A1 A2] [B1 B2]. split; [congruence|]. intros k m Hm.
  destruct (A2 k m Hm) as (m' & Hm' & Ha). destruct (B2 k m' Hm') as (m'' & Hm'' & Hb).
  exists m''. split; [done|]. by transitivity m'.
Qed.

Lemma store_ok_same s s' : mutations s' = mutations s -> binding s' = binding s -> store_ok s -> store_ok s'.
Proof.
  unfold store_ok. intros -> E Hs k m Hm. destruct (Hs k m Hm) as [? Hv]. split; [done|].
  unfold validateMutation in *. by rewrite E.
Qed.

Lemma learns_same s s' : mutations s' = mutations s -> binding s' = binding s -> learns s s'.
Proof. intros E1 E2. split; [done|]. rewrite E1. intros k m Hm. by exists m. Qed.

(** [m] with [Acquired] set when it has a replacement. *)
Definition acquiring m : historyMutation :=
  if bool_decide (Replacement m = None) then m
  else mkMutation (Version m) (Binding m) (ChatID m) (TargetID m) (Sequence m) (Revision m) (Deleted m) true (Replacement m).

Lemma acquiring_same m :
  Version (acquiring m) = Version m /\ Binding (acquiring m) = Binding m /\ ChatID (acquiring m) = ChatID m /\
  TargetID (acquiring m) = TargetID m /\ Sequence (acquiring m) = Sequence m /\ Revision (acquiring m) = Revision m /\
  Deleted (acquiring m) = Deleted m /\ Replacement (acquiring m) = Replacement m.
Proof. unfold acquiring. by destruct (bool_decide _). Qed.

Lemma writeMutation_cases env s m : let '(s', err) := writeMutation env s m in
  binding s' = binding s /\ pages s' = pages s /\
  match err with
  | Some e => mutations s' = mutations s
  | None => mutations s' = <[(mkTarget (ChatID m) (TargetID m)) := acquiring m]> (mutations s) /\
            validateMutation s (acquiring m) = None /\ failed s' = failed s
  end.
Proof.
  unfold writeMutation. fold (acquiring m). destruct (acquiring_same m) as (_ & _ & Ec & Et & _).
  destruct (validateMutation s (acquiring m)) as [e|] eqn:Ev; [done|].
  destruct (writeHistoryObject _ _ _) as [file err]. destruct err; [done|]. rewrite Ec, Et.
  destruct (Acquired _); done.
Qed.

Lemma writeMutation_ok env s m : store_ok s -> store_ok (fst (writeMutation env s m)).
Proof.
  intros Hs. pose proof (writeMutation_cases env s m) as Hc. destruct (writeMutation env s m) as [s' [e|]]; simpl in *.
  - destruct Hc as (E1 & _ & E2). by eapply store_ok_same.
  - destruct Hc as (E1 & _ & E2 & Hv & _). intros k m' Hm'. rewrite E2 in Hm'.
    destruct (acquiring_same m) as (_ & _ & Ec & Et & _).
    assert (Hval : validateMutation s' m' = validateMutation s m') by (unfold validateMutation; by rewrite E1).
    rewrite Hval. apply lookup_insert_Some in Hm' as [[<- <-]|[_ Hm']]; [by rewrite Ec, Et|by apply Hs].
Qed.

(** Writing a mutation that advances the one the store has of its target. *)
Lemma writeMutation_learns env s m :
  (forall m0, mutations s !! (mkTarget (ChatID m) (TargetID m)) = Some m0 -> advances m0 m) -> learns s (fst (writeMutation env s m)).
Proof.
  intros Ha. pose proof (writeMutation_cases env s m) as Hc. destruct (writeMutation env s m) as [s' [e|]]; simpl in *.
  - destruct Hc as (E1 & _ & E2). by apply learns_same.
  - destruct Hc as (E1 & _ & E2 & _). split; [done|]. intros k m0 Hm. rewrite E2.
    destruct (decide (k = (mkTarget (ChatID m) (TargetID m)))) as [->|Hne].
    + exists (acquiring m). rewrite lookup_insert_eq. split; [done|].
      destruct (acquiring_same m) as (_ & _ & _ & _ & Es & Er & Ed & _). unfold advances. rewrite Es, Er, Ed. by apply Ha.
    + exists m0. by rewrite lookup_insert_ne.
Qed.

Lemma mutationOf_some s k m : mutations s !! k = Some m -> mutationOf s k = m.
Proof. intros E. unfold mutationOf. by rewrite E. Qed.

Lemma observe_ok env s event r : store_ok s -> store_ok (fst (observe env s event r)) /\ learns s (fst (observe env s event r)).
Proof.
  intros Hs.
  assert (Hw : forall m, (forall m0, mutations s !! (mkTarget (ChatID m) (TargetID m)) = Some m0 -> advances m0 m) ->
    store_ok (fst (writeMutation env s m)) /\ learns s (fst (writeMutation env s m)))
    by (intros m Ha; split; [by apply writeMutation_ok | by apply writeMutation_learns]).
  assert (Hn : store_ok s /\ learns s s) by done.
  assert (Hdel : forall target seq, Deleted (mutationOf s target) = false ->
     store_ok (fst (writeMutation env s (observed s target (mutationOf s target) seq (Revision (mutationOf s target)) true
       (Replacement (mutationOf s target))))) /\
     learns s (fst (writeMutation env s (observed s target (mutationOf s target) seq (Revision (mutationOf s target)) true
       (Replacement (mutationOf s target)))))).
  { intros [c t] seq Hd. apply Hw. simpl. intros m0 Hm0. rewrite (mutationOf_some _ _ _ Hm0). by split_and!. }
  destruct event; cbn [observe]; try exact Hn.
  - destruct (Deleted _) eqn:Ed; [exact Hn|]. by apply Hdel.
  - destruct (Deleted _) eqn:Ed; [exact Hn|]. by apply Hdel.
  - destruct (Deleted _) eqn:Ed; [exact Hn|]. destruct (_ || _) eqn:El; [exact Hn|].
    destruct (_ && bool_decide _); [exact Hn|]. apply Hw. simpl. intros m0 Hm0.
    rewrite (mutationOf_some _ _ _ Hm0) in El, Ed. split_and!; simpl; [lia|congruence|lia].
Qed.

Lemma observeRecord_ok env s chatID raw : store_ok s ->
  store_ok (fst (observeRecord env s chatID raw)) /\ learns s (fst (observeRecord env s chatID raw)).
Proof.
  intros Hs. unfold observeRecord. destruct (SyncMsg.LogID raw) as [id|]; [|done].
  set (old := mutationOf s (mkTarget chatID id)). set (revision := Int64OrZero raw _).
  destruct (Deleted old && bool_decide (Replacement old = None)) eqn:E1.
  - apply andb_true_iff in E1 as [Ed Er].
    set (m := mkMutation (Version old) _ _ _ _ _ true _ _).
    assert (Hlearn : store_ok (fst (writeMutation env s m)) /\ learns s (fst (writeMutation env s m))).
    { split; [by apply writeMutation_ok|]. apply writeMutation_learns. unfold m; simpl. intros m0 Hm0.
      assert (Em : mutations s !! mkTarget chatID id = Some old).
      { unfold old, mutationOf in *. by destruct (mutations s !! mkTarget chatID id). }
      destruct (Hs _ _ Em) as [Hk _]. rewrite <- Hk, Em in Hm0. injection Hm0 as <-. split_and!; simpl; [lia|done|done]. }
    destruct (writeMutation env s m) as [s1 [e|]]; simpl in *; [done|]. by rewrite Ed.
  - destruct (negb (Deleted old) && (Revision old <=? revision)) eqn:E2; [|done].
    assert (Ed : Deleted old = false) by (destruct (Deleted old); [done|done]).
    split; [by apply writeMutation_ok|]. apply writeMutation_learns. simpl. intros m0 Hm0.
    unfold old in *. rewrite (mutationOf_some _ _ _ Hm0) in *. rewrite Ed in E2. simpl in E2.
    split_and!; simpl; [lia|congruence|lia].
Qed.

Lemma observeRecords_ok env chatID logs : forall s, store_ok s ->
  store_ok (fst (observeRecords env s chatID logs)) /\ learns s (fst (observeRecords env s chatID logs)).
Proof.
  induction logs as [|raw logs IH]; intros s Hs; cbn [observeRecords]; [done|].
  destruct (DecodeChatLog chatID raw) as [event|]; [|done].
  destruct (observe_ok env s event None Hs) as [K1 L1]. destruct (observe env s event None) as [s1 [e|]]; [done|].
  simpl in *. destruct (observeRecord_ok env s1 chatID raw K1) as [K2 L2].
  destruct (observeRecord env s1 chatID raw) as [s2 [e|]]; simpl in *; [split; [done|by transitivity s1]|].
  destruct (IH s2 K2) as [K3 L3]. split; [done|]. transitivity s1; [done|]. by transitivity s2.
Qed.
End Mutations.

(** ** What the store shows *)

Section Shown.
Context `{TextContent} `{!HistoryJSON}.
Implicit Types (s : historyStore) (env : StoreEnv).

(** The row's type carries the deleted-for-everyone flag. *)
Definition shownDeleted (raw : Raw) : Prop := Z.testbit (Int64OrZero raw ["type"]) 14 = true.

(** A row as the store knows its message: deleted if known deleted, otherwise
    the known replacement. *)
Definition current s (chatID : Z) (raw out : Raw) : Prop :=
  match mutations s !! mkTarget chatID (SyncMsg.logIDof out) with
  | None => out = raw
  | Some m => if Deleted m then shownDeleted out else Replacement m = Some out
  end.

Lemma LogID_logIDof raw id : SyncMsg.LogID raw = Ok id -> SyncMsg.logIDof raw = id /\ 0 < id.
Proof.
  intros E. unfold SyncMsg.logIDof. rewrite E. split; [done|]. unfold SyncMsg.LogID in E.
  destruct (Int64 _ _ _) as [[n|]|]; try done. destruct (n <=? 0) eqn:En; [done|]. injection E as <-. lia.
Qed.

Lemma known_replacement s k m r : store_ok s -> mutations s !! k = Some m -> Replacement m = Some r ->
  SyncMsg.LogID r = Ok (ht_logID k).
Proof.
  intros Hs Hm Hr. destruct (Hs k m Hm) as [-> Hv]. unfold validateMutation in Hv. rewrite Hr in Hv.
  destruct (_ || _); [done|]. destruct (DecodeChatLog (ChatID m) r) as [event|] eqn:Ed; [|done].
  destruct (DecodeChatLog_position _ _ _ Ed) as (_ & id & Hid & Hp). rewrite Hp in Hv.
  destruct (_ || _) eqn:E; [done|]. simpl. rewrite Hid. f_equal. lia.
Qed.

Lemma assoc_map {A} (f : string * A -> A) k (l : list (string * A)) :
  assoc k ((fun el => if String.eqb (fst el) k then (fst el, f el) else el) <$> l)
    = match assoc k l with Some a => Some (f (k, a)) | None => None end.
Proof.
  induction l as [|[k' a] l IH]; [done|]. simpl. destruct (String.eqb_spec k' k) as [->|Hne]; simpl.
  - by rewrite String.eqb_refl.
  - destruct (String.eqb_spec k k'); [congruence|done].
Qed.

Lemma assoc_map_ne {A} (f : string * A -> A) k k' (l : list (string * A)) : k <> k' ->
  assoc k ((fun el => if String.eqb (fst el) k' then (fst el, f el) else el) <$> l) = assoc k l.
Proof.
  intros Hne. induction l as [|[k2 a] l IH]; [done|]. rewrite fmap_cons. cbn [fst].
  destruct (String.eqb_spec k2 k') as [E2|]; cbn [assoc]; rewrite IH; [|done].
  destruct (String.eqb_spec k k2); [congruence|done].
Qed.

Lemma assoc_app_ne {A} k k' (a : A) l : k <> k' -> assoc k (l ++ [(k', a)]) = assoc k l.
Proof.
  intros Hne. induction l as [|[k2 b] l IH]; simpl.
  - destruct (String.eqb_spec k k'); [congruence|done].
  - by rewrite IH.
Qed.

Lemma assoc_exists {A} k (l : list (string * A)) :
  existsb (fun el => String.eqb (fst el) k) l = true <-> is_Some (assoc k l).
Proof.
  induction l as [|[k' a] l IH]; simpl; [split; [done|by intros [? ?]]|].
  rewrite (String.eqb_sym k' k). destruct (String.eqb k k'); simpl; [split; [by eexists|done]|done].
Qed.

Lemma assoc_app_new {A} k (a : A) l : assoc k l = None -> assoc k (l ++ [(k, a)]) = Some a.
Proof.
  induction l as [|[k' b] l IH]; simpl; [by rewrite String.eqb_refl|]. by destruct (String.eqb k k').
Qed.

Lemma flagged n : Z.testbit (Z.lor n DeletedAllChatTypeFlag) 14 = true.
Proof. rewrite Z.lor_spec. by rewrite orb_true_r. Qed.

Lemma markDeleted_shown raw doc : Elements raw = Some doc ->
  shownDeleted (Marshal (markDeleted raw doc)) /\ SyncMsg.LogID (Marshal (markDeleted raw doc)) = SyncMsg.LogID raw.
Proof.
  intros Hd. unfold shownDeleted, Int64OrZero, SyncMsg.LogID. rewrite !Int64_one by done.
  rewrite !Marshal_lookup, (Elements_lookup raw doc) by done. unfold markDeleted.
  destruct (existsb _ doc) eqn:Ex.
  - rewrite (assoc_map (fun _ => VInt32 (Z.lor (wrap32 (Int64OrZero raw ["type"])) DeletedAllChatTypeFlag))).
    rewrite (assoc_map_ne (fun _ => VInt32 (Z.lor (wrap32 (Int64OrZero raw ["type"])) DeletedAllChatTypeFlag))) by done.
    split; [|done]. apply assoc_exists in Ex as [v ->]. simpl. apply flagged.
  - rewrite assoc_app_new, assoc_app_ne; [split; [by vm_compute|done]|done|].
    destruct (assoc "type" doc) eqn:E; [|done].
    assert (Hx : existsb (fun el : string * Value Raw => String.eqb (fst el) "type") doc = true) by (apply assoc_exists; by eexists).
    congruence.
Qed.

Lemma apply_current s raw chatID id out : store_ok s -> SyncMsg.LogID raw = Ok id -> apply s raw chatID = Ok out ->
  SyncMsg.LogID out = Ok id /\ current s chatID raw out.
Proof.
  intros Hs Hid. unfold apply, current. rewrite Hid. destruct (mutations s !! mkTarget chatID id) as [m|] eqn:Em.
  - destruct (Deleted m) eqn:Ed.
    + destruct (Elements raw) as [doc|] eqn:El; [|done]. intros [= <-].
      destruct (markDeleted_shown raw doc El) as [Hsh Hl]. rewrite Hl. split; [done|].
      assert (Hof : SyncMsg.logIDof (Marshal (markDeleted raw doc)) = id) by (unfold SyncMsg.logIDof; by rewrite Hl, Hid).
      by rewrite Hof, Em, Ed.
    + destruct (Replacement m) as [r|] eqn:Er; [|done]. intros [= <-].
      pose proof (known_replacement s _ m r Hs Em Er) as Hr. simpl in Hr. split; [done|].
      destruct (LogID_logIDof r id Hr) as [-> _]. by rewrite Em, Ed.
  - intros [= <-]. split; [done|]. destruct (LogID_logIDof raw id Hid) as [-> _]. by rewrite Em.
Qed.

(** The rows of a page: their log IDs are their keys and are kept. *)
Definition rows_ok (keep : Z -> bool) (rows : gmap Z Raw) : Prop :=
  forall id raw, rows !! id = Some raw -> SyncMsg.LogID raw = Ok id /\ keep id = true.

Lemma ascendingLogs_valid logs : forall previous, ascendingLogs previous logs = None ->
  Forall (fun raw => SyncMsg.LogID raw = Ok (SyncMsg.logIDof raw)) logs.
Proof.
  induction logs as [|raw logs IH]; intros previous; simpl; [constructor|].
  destruct (negb _); [done|]. destruct (SyncMsg.LogID raw) as [id|] eqn:Eid; [|done].
  destruct (_ && _); [done|]. intros E. constructor; [|by eapply IH].
  destruct (LogID_logIDof raw id Eid) as [-> _]. done.
Qed.

Lemma validateAcquiredPage_logs req response last : validateAcquiredPage req response = Ok last ->
  Forall (fun raw => SyncMsg.LogID raw = Ok (SyncMsg.logIDof raw)) (SyncMsg.ChatLogs response).
Proof.
  unfold validateAcquiredPage. destruct (negb _); [done|]. destruct (SyncMsg.Request_MarshalBSON req); [|done].
  destruct (ascendingLogs 0 _) eqn:E; [done|]. intros _. by eapply ascendingLogs_valid.
Qed.

Lemma collectRows_ok env s keep visit refs : forall rows floor rows' floor',
  rows_ok keep rows -> collectRows env s keep visit refs rows floor = Ok (rows', floor') -> rows_ok keep rows'.
Proof.
  induction refs as [|ref refs IH]; intros rows floor rows' floor' Hr; cbn [collectRows]; [by intros [= <- _]|].
  destruct (visit ref); [|by apply IH]. destruct (readPage env s ref) as [page|] eqn:Ep; [|done].
  apply IH. assert (Hlogs : Forall (fun raw => SyncMsg.LogID raw = Ok (SyncMsg.logIDof raw)) (SyncMsg.ChatLogs (Response page))).
  { unfold readPage in Ep. destruct (PrivateJson.Read _ _) as [[p|]|]; try done. destruct (_ || _); [done|].
    destruct (validateAcquiredPage _ _) eqn:Ev; [|done]. injection Ep as <-. by eapply validateAcquiredPage_logs. }
  clear Ep IH floor. revert rows Hr. induction Hlogs as [|raw logs Hraw _ IH]; intros rows Hr; simpl; [done|].
  apply IH. destruct (keep (SyncMsg.logIDof raw)) eqn:Ek; [|done].
  intros id r [[<- <-]|[_ ?]]%lookup_insert_Some; [done|by apply Hr].
Qed.
Lemma overlay_fold s chatID cur end_ keep l : store_ok s -> (forall id, cur < id <= end_ -> keep id = true) ->
  (forall k m, (k, m) ∈ l -> mutations s !! k = Some m) ->
  forall barrier rows, rows_ok keep rows ->
  rows_ok keep (snd (foldl (fun '(barrier, rows) '(mkTarget chat log, mutation) =>
           if negb (chat =? chatID) || (log <=? cur) || (end_ <? log) then (barrier, rows) else
           let barrier := if negb (Deleted mutation) && bool_decide (Replacement mutation = None) &&
                             bool_decide (mkTarget chat log ∈ targets s) && ((barrier =? 0) || (log <? barrier))
                          then log else barrier in
           (barrier, match Replacement mutation with Some r => <[log := r]> rows | None => rows end))
        (barrier, rows) l)).
Proof.
  intros Hs Hk. induction l as [|[[chat log] m] l IH]; intros Hl barrier rows Hr; [done|]. cbn [foldl].
  assert (Hl' : forall k m, (k, m) ∈ l -> mutations s !! k = Some m) by (intros k m' Hin; apply Hl; by right).
  destruct (_ || _) eqn:E; [by apply IH|]. apply IH; [done|].
  destruct (Replacement m) as [r|] eqn:Er; [|done].
  intros id raw [[<- <-]|[_ ?]]%lookup_insert_Some; [|by apply Hr].
  split; [|apply Hk; lia]. exact (known_replacement s (mkTarget chat log) m r Hs (Hl _ _ ltac:(by left)) Er).
Qed.

Lemma overlay_ok s chatID cur end_ keep acc : store_ok s -> (forall id, cur < id <= end_ -> keep id = true) ->
  rows_ok keep (snd acc) -> rows_ok keep (snd (overlay s chatID cur end_ acc)).
Proof.
  intros Hs Hk Hr. destruct acc as [barrier rows]. unfold overlay. apply overlay_fold; [done|done| |done].
  intros k m Hin. by apply elem_of_map_to_list.
Qed.

Lemma sortedIDs_sorted (rows : gmap Z Raw) :
  StronglySorted Z.lt (sortedIDs rows) /\ forall id, id ∈ sortedIDs rows <-> is_Some (rows !! id).
Proof.
  unfold sortedIDs. set (l := fst <$> map_to_list rows).
  pose proof (merge_sort_Permutation Z.le l) as Hp.
  assert (Hn : NoDup (merge_sort Z.le l)) by (rewrite Hp; apply NoDup_fst_map_to_list).
  assert (Hsort : StronglySorted Z.le (merge_sort Z.le l)) by (apply StronglySorted_merge_sort; [intros ?; lia|intros ??; lia]).
  split.
  - revert Hn Hsort. generalize (merge_sort Z.le l). clear. intros l Hn Hs.
    induction Hs as [|x l Hs IH Hall]; [constructor|]. apply NoDup_cons in Hn as [Hx Hn]. constructor; [by apply IH|].
    apply Forall_forall. intros y Hy. rewrite Forall_forall in Hall. specialize (Hall y Hy).
    destruct (decide (x = y)) as [->|]; [done|lia].
  - intros id. rewrite Hp. unfold l. rewrite list_elem_of_fmap. split.
    + intros ([i raw] & -> & Hin%elem_of_map_to_list). by eexists.
    + intros [raw Hraw]. exists (id, raw). split; [done|]. by apply elem_of_map_to_list.
Qed.

Lemma projectRows_spec s chatID barrier rows keep : store_ok s -> rows_ok keep rows -> forall ids,
  StronglySorted Z.lt ids -> forall out, projectRows s chatID barrier rows ids = Ok out ->
  StronglySorted Z.lt (SyncMsg.logIDof <$> out) /\
  Forall (fun row => SyncMsg.logIDof row ∈ ids /\ keep (SyncMsg.logIDof row) = true /\
    (0 < barrier -> SyncMsg.logIDof row < barrier) /\
    exists raw, rows !! SyncMsg.logIDof row = Some raw /\ current s chatID raw row) out.
Proof.
  intros Hs Hr. induction ids as [|id ids IH]; intros Hsort out E; cbn [projectRows] in E.
  { injection E as <-. by split; constructor. }
  destruct (_ && _) eqn:Eb; [injection E as <-; by split; constructor|].
  destruct (rows !! id) as [raw|] eqn:Eraw; [|injection E as <-; by split; constructor].
  destruct (Hr id raw Eraw) as [Hid Hk].
  apply StronglySorted_inv in Hsort as [Hsort Hall].
  destruct (apply s raw chatID) as [row|e] eqn:Ea; [|destruct e; try done; injection E as <-; by split; constructor].
  destruct (projectRows s chatID barrier rows ids) as [rest|] eqn:Ep; [|done]. injection E as <-.
  destruct (apply_current s raw chatID id row Hs Hid Ea) as [Hrow Hc].
  destruct (LogID_logIDof row id Hrow) as [Hof Hpos]. destruct (IH Hsort rest eq_refl) as [IH1 IH2]. split.
  - rewrite fmap_cons. constructor; [done|]. rewrite Hof. apply Forall_fmap.
    eapply Forall_impl; [exact IH2|]. intros x [Hx _]. rewrite Forall_forall in Hall. by apply Hall.
  - constructor.
    + rewrite Hof. split_and!; [by left|done|lia|by exists raw].
    + eapply Forall_impl; [exact IH2|]. intros x (Hx & ?). split; [by right|done].
Qed.

(** The rows a lookup returns. *)
Lemma lookup_rows env s req s' response : store_ok s -> lookup env s req = (s', Ok (Some response)) ->
  s' = s /\ exists e, coveredThroughLocked s req = Some e /\ SyncMsg.Cur req <> e /\
    StronglySorted Z.lt (SyncMsg.logIDof <$> SyncMsg.ChatLogs response) /\
    Forall (fun row => SyncMsg.Cur req < SyncMsg.logIDof row <= e /\
      exists raw, current s (SyncMsg.ChatID req) raw row) (SyncMsg.ChatLogs response).
Proof.
  intros Hs. unfold lookup. destruct (failed s); [done|].
  destruct (coveredThroughLocked s req) as [e|]; [|done]. destruct (e =? SyncMsg.Cur req) eqn:Ee.
  { unfold unavailableLocked. destruct (unavailable s !! req); [|done].
    destruct (PrivateJson.Read _ _) as [[r|]|]; try done. destruct (_ || _); [done|]. destruct (_ <? _); [done|].
    by destruct (_ <=? _). }
  destruct (collectRows _ _ _ _ _ _ _) as [[rows floor]|] eqn:Ec; [|done].
  set (keep := fun id => (SyncMsg.Cur req <? id) && (id <=? e)) in Ec.
  assert (Hr : rows_ok keep rows) by (eapply collectRows_ok; [|exact Ec]; intros ? ?; by rewrite lookup_empty).
  pose proof (overlay_ok s (SyncMsg.ChatID req) (SyncMsg.Cur req) e keep (0, rows) Hs
    ltac:(intros; unfold keep; lia) Hr) as Hov.
  destruct (overlay _ _ _ _ _) as [barrier rows']. simpl in Hov.
  destruct (projectRows _ _ _ _ _) as [[|row out]|] eqn:Ep; try done. intros [= <- <-].
  split; [done|]. exists e. split; [done|]. split; [lia|].
  destruct (projectRows_spec s _ barrier rows' keep Hs Hov _ (proj1 (sortedIDs_sorted rows')) _ Ep) as [P1 P2].
  split; [exact P1|]. eapply Forall_impl; [exact P2|]. simpl. intros x (_ & Hk & _ & raw & _ & Hc).
  split; [unfold keep in Hk; lia|by exists raw].
Qed.
End Shown.
