(* ===== verification/HistoryDisk.v ===== *)
(** * The directory of the acquired history store

    What the files hold while the store is in use, and that opening the
    directory again restores it (src/internal/client/history_store.go). *)

From S2P Require Import Prelude.
From S2P Require Import Bson Events Delivery ProtocolTheorems HistoryStore HistoryStoreFacts.
From S2P Require PrivateJson SyncMsg.

#[local] Open Scope string_scope.
#[local] Open Scope list_scope.
#[local] Open Scope Z_scope.

Section Disk.
Context `{TextContent} `{!HistoryJSON}.
Implicit Types (s : historyStore) (env : StoreEnv).

(** ** A page keeps its validity when only the selected records are kept *)

Definition inInterval (req : SyncMsg.Request) (raw : Raw) : Prop :=
  SyncMsg.Cur req < SyncMsg.logIDof raw <= SyncMsg.Max req.

#[export] Instance inInterval_dec req raw : Decision (inInterval req raw).
Proof. unfold inInterval. apply _. Defined.

Lemma ascendingLogs_filter (P : Raw -> Prop) `{!forall x, Decision (P x)} logs : forall p q, 0 <= q <= p ->
  ascendingLogs p logs = None -> ascendingLogs q (filter P logs) = None.
Proof.
  induction logs as [|raw logs IH]; intros p q Hle E; [done|]. cbn [ascendingLogs] in E.
  destruct (Validate raw) eqn:Ev; [|done]. cbn [negb] in E. destruct (SyncMsg.LogID raw) as [id|] eqn:Eid; [|done].
  destruct (LogID_logIDof raw id Eid) as [_ Hpos]. destruct (_ && _) eqn:Eb; [done|].
  rewrite filter_cons. destruct (decide (P raw)).
  - cbn [ascendingLogs]. rewrite Ev, Eid. cbn [negb]. replace ((0 <? q) && (id <=? q)) with false by lia.
    apply (IH id id); [lia|done].
  - apply (IH id q); [|done]. destruct (0 <? p) eqn:E0; lia.
Qed.

Lemma decodeLogs_selected req logs : forall limit limit' evs next evs' next',
  (length evs + length logs <= limit)%nat -> (length evs + length (selectedLogs req logs) <= limit')%nat ->
  decodeLogs req limit evs next logs = Ok (evs', next') ->
  decodeLogs req limit' evs next (selectedLogs req logs) = Ok (evs', next').
Proof.
  induction logs as [|raw logs IH]; intros limit limit' evs next evs' next' Hl Hl' E; [done|].
  cbn [decodeLogs length] in E, Hl. unfold selectedLogs in *. rewrite filter_cons in Hl' |- *.
  destruct (SyncMsg.LogID raw) as [id|] eqn:Eid; [|done].
  destruct (LogID_logIDof raw id Eid) as [Hof _]. rewrite Hof in Hl' |- *.
  destruct (id <? SyncMsg.Cur req) eqn:E1; [done|]. destruct (_ || _) eqn:E2.
  - rewrite decide_False in Hl' |- * by lia. apply (IH limit); [lia|done|done].
  - rewrite decide_True in Hl' |- * by lia. cbn [decodeLogs length] in Hl' |- *. rewrite Eid, E1, E2.
    destruct (DecodeChatLog _ raw) as [event|]; [|done].
    destruct (MessagePosition event) as [[c p]|]; [|done]. destruct (negb _ || negb _); [done|].
    replace (length evs <? limit)%nat with true in E by lia. replace (length evs <? limit')%nat with true by lia.
    apply (IH limit); [rewrite length_app; simpl; lia | rewrite length_app; simpl; lia | done].
Qed.

Lemma validate_selected req logs floor ok ok' last :
  validateAcquiredPage req (SyncMsg.mkResponse logs floor ok) = Ok last ->
  validateAcquiredPage req (SyncMsg.mkResponse (selectedLogs req logs) floor ok') = Ok last.
Proof.
  unfold validateAcquiredPage. cbn [SyncMsg.ChatLogs]. destruct (negb _); [done|].
  destruct (SyncMsg.Request_MarshalBSON req); [|done].
  destruct (ascendingLogs 0 logs) eqn:Ea; [done|]. unfold selectedLogs.
  rewrite (ascendingLogs_filter _ logs 0 0) by done. fold (selectedLogs req logs).
  unfold decodeHistoryPage. cbn [SyncMsg.ChatLogs SyncMsg.MinLogID].
  destruct (decodeLogs req _ [] _ logs) as [[evs next]|] eqn:Ed; [|done].
  rewrite (decodeLogs_selected req logs (Nat.max 1 (length logs)) (Nat.max 1 (length (selectedLogs req logs))) [] (SyncMsg.Cur req)
    evs next ltac:(cbn [length]; lia) ltac:(cbn [length]; lia) Ed).
  destruct evs; [|done]. destruct logs; [by destruct (_ <? _)|done].
Qed.

(** ** What the files hold *)

(** A file that reads as the document. *)
Definition holds {T} (f : PrivateJson.File T) (v : T) : Prop :=
  PrivateJson.Read PrivateJson.readOk f = Ok (Some v).

Lemma writeHistoryObject_holds {T} `{PrivateJson.JSON T} wenv (f : PrivateJson.File T) (v : T) f' :
  PrivateJson.json_wire v = v -> writeHistoryObject wenv f v = (f', None) -> holds f' v.
Proof.
  intros Hw. unfold writeHistoryObject. destruct (_ <? _) eqn:E; [done|].
  destruct (PrivateJson.WriteAtomic wenv f v) as [f1 err] eqn:Ew. intros [= <- He]. destruct err; [done|].
  rewrite (PrivateJson.WriteAtomic_ok _ _ _ _ Ew). unfold holds. rewrite PrivateJson.Read_encoded, Hw.
  by replace (_ <=? _) with true by lia.
Qed.

Lemma Read_absent {T} renv (v : T) : PrivateJson.Read renv PrivateJson.Missing <> Ok (Some v).
Proof. destruct renv as [[] []]; done. Qed.

Lemma holds_put {T} n (f : PrivateJson.File T) (v : T) files :
  holds f v -> putFile n f files = <[n := f]> files.
Proof. by destruct f. Qed.

(** The page behind a reference. *)
Definition page_of s (n : string) (ref : acquiredPageRef) (page : acquiredPage) : Prop :=
  ap_Version page = 1 /\ ap_Binding page = binding s /\ n = historyPageName (Request page) /\
  ref = mkPageRef (Request page) (last ref) n /\ validateAcquiredPage (Request page) (Response page) = Ok (last ref).

(** Every page and mutation is in its file, and there are no other such files. *)
Record disk_ok s : Prop := {
  dk_pages n : match pages s !! n with
               | Some ref => exists f page, pageFiles (dir s) !! n = Some f /\ holds f page /\ page_of s n ref page
               | None => pageFiles (dir s) !! n = None
               end;
  dk_target k m : mutations s !! k = Some m ->
    exists f, targetFiles (dir s) !! historyMutationName k = Some f /\ holds f m;
  dk_targets n f : targetFiles (dir s) !! n = Some f -> exists k, is_Some (mutations s !! k) /\ n = historyMutationName k;
}.

(** No two targets of the store have files of the same name. *)
Definition distinctNames s : Prop :=
  forall k k', is_Some (mutations s !! k) -> is_Some (mutations s !! k') ->
    historyMutationName k = historyMutationName k' -> k = k'.

Lemma distinct_before s s' : learns s s' -> distinctNames s' -> distinctNames s.
Proof.
  intros [_ L] Hd k k' [m Hm] [m' Hm']. destruct (L _ _ Hm) as (? & ? & _), (L _ _ Hm') as (? & ? & _).
  apply Hd; by eexists.
Qed.
(** The pages, the mutations and their files: what the remaining operations
    leave alone. *)
Definition same_core s s' : Prop :=
  pages s' = pages s /\ mutations s' = mutations s /\ binding s' = binding s /\
  pageFiles (dir s') = pageFiles (dir s) /\ targetFiles (dir s') = targetFiles (dir s).

#[export] Instance same_core_preorder : PreOrder same_core.
Proof. split; [done|]. unfold same_core. intros a b c (-> & -> & -> & -> & ->). done. Qed.

Lemma dropExpired_core env records : forall s,
  same_core s (fst (dropExpired env s records)).
Proof.
  induction records as [|[old r] records IH]; intros s; cbn [dropExpired]; [done|].
  destruct (_ <=? _); [|by apply IH]. destruct (removeFile _ _ _) as [files ok]. destruct ok; [|done].
  etransitivity; [|apply IH]. done.
Qed.

Lemma saveUnavailable_core env s req response :
  same_core s (fst (saveUnavailable env s req response)).
Proof.
  unfold saveUnavailable. destruct (SyncMsg.Request_MarshalBSON req); [|done]. destruct (_ || _); [done|].
  destruct (failed s); [done|]. pose proof (dropExpired_core env (map_to_list (unavailable s)) s) as Hd.
  destruct (dropExpired _ _ _) as [s1 [e|]]; cbn [fst] in Hd |- *; [done|]. destruct (_ && _); [done|].
  destruct (writeHistoryObject _ _ _) as [file [e|]]; (etransitivity; [exact Hd|done]).
Qed.

Lemma commitBulk_core env s cursors :
  same_core s (fst (commitBulk env s cursors)).
Proof.
  unfold commitBulk. destruct (failed s); [done|]. destruct (raiseCursors _ _); [|done].
  by destruct (writeHistoryObject _ _ _) as [file [e|]].
Qed.

Lemma unavailableLocked_core env s req :
  same_core s (fst (unavailableLocked env s req)).
Proof.
  unfold unavailableLocked. destruct (unavailable s !! req); [|done].
  destruct (PrivateJson.Read _ _) as [[r|]|]; try done. destruct (_ || _); [done|]. destruct (_ <? _); [done|].
  by destruct (_ <=? _).
Qed.

Lemma lookup_core env s req :
  same_core s (fst (lookup env s req)).
Proof.
  unfold lookup. destruct (failed s); [done|]. destruct (coveredThroughLocked _ _); [|done].
  destruct (_ =? _).
  - pose proof (unavailableLocked_core env s req) as Hu. by destruct (unavailableLocked _ _ _) as [s1 [[o|]|e]].
  - destruct (collectRows _ _ _ _ _ _ _) as [[rows floor]|]; [|done]. destruct (overlay _ _ _ _ _).
    by destruct (projectRows _ _ _ _ _) as [[|]|].
Qed.

Lemma window_core env s req :
  same_core s (fst (window env s req)).
Proof.
  unfold window. destruct (failed s); [done|]. destruct (coveredThroughLocked _ _) as [covered|]; [|done].
  destruct (suffixLoop _ _ _ _); [|done]. destruct (collectRows _ _ _ _ _ _ _) as [[rows floor]|]; [|done].
  set (ids := filter _ _). set (interval := SyncMsg.mkRequest _ _ _ _).
  assert (Hu : forall b : bool, same_core s (fst (if b then unavailableLocked env s interval else (s, Ok None))))
    by (intros []; [apply unavailableLocked_core|done]).
  specialize (Hu (negb (Through req <=? covered) && (length ids =? 0)%nat)).
  destruct (if negb (Through req <=? covered) && (length ids =? 0)%nat then unavailableLocked env s interval
            else (s, Ok None)) as [s1 [o|]]; [|done].
  by destruct (windowEvents _ _ _ _).
Qed.

Lemma disk_same s s' : same_core s s' -> disk_ok s -> disk_ok s'.
Proof.
  intros (E1 & E2 & E3 & E4 & E5) [K1 K2 K3]. constructor.
  - intros n. specialize (K1 n). rewrite E1, E4. destruct (pages s !! n) as [ref|]; [|done].
    destruct K1 as (f & page & Hf & Hp & Hpage). exists f, page. split; [done|]. split; [done|].
    unfold page_of in *. by rewrite E3.
  - rewrite E2, E5. exact K2.
  - rewrite E2, E5. exact K3.
Qed.

Lemma writeMutation_disk env s m s' : disk_ok s -> distinctNames s' -> writeMutation env s m = (s', None) -> disk_ok s'.
Proof.
  intros [K1 K2 K3] Hd. unfold writeMutation. fold (acquiring m). set (a := acquiring m).
  destruct (validateMutation s a); [done|]. set (k := (mkTarget (ChatID a) (TargetID a))). set (n := historyMutationName k).
  destruct (writeHistoryObject _ _ a) as [file [e|]] eqn:Ew; [done|]. apply writeHistoryObject_holds in Ew; [|apply mutation_wire]. intros E.
  assert (Hcore : mutations s' = <[k := a]> (mutations s) /\ pages s' = pages s /\ binding s' = binding s /\
    pageFiles (dir s') = pageFiles (dir s) /\ targetFiles (dir s') = <[n := file]> (targetFiles (dir s))).
  { rewrite <- (holds_put n file a (targetFiles (dir s)) Ew). destruct (Acquired a); injection E as <-; done. }
  destruct Hcore as (E1 & E2 & E3 & E4 & E5). constructor.
  - intros n'. specialize (K1 n'). rewrite E2, E4. destruct (pages s !! n') as [ref|]; [|done].
    unfold page_of in *. by rewrite E3.
  - rewrite E1, E5. intros k' m' [[<- <-]|[Hne Hm']]%lookup_insert_Some.
    + exists file. by rewrite lookup_insert_eq.
    + destruct (K2 k' m' Hm') as (f & Hf & Hh). exists f. rewrite lookup_insert_ne; [done|]. intros Heq. apply Hne.
      apply Hd; [rewrite E1, lookup_insert_eq; by eexists| |exact Heq]. rewrite E1, lookup_insert_ne by done. by eexists.
  - rewrite E1, E5. intros n' f [[<- <-]|[Hne Hf]]%lookup_insert_Some.
    + exists k. by rewrite lookup_insert_eq.
    + destruct (K3 n' f Hf) as (k' & [m' Hm'] & ->). exists k'. split; [|done].
      destruct (decide (k = k')) as [->|]; [rewrite lookup_insert_eq; by eexists|]. rewrite lookup_insert_ne by done. by eexists.
Qed.

Lemma observe_disk env s event r s' : disk_ok s -> distinctNames s' -> observe env s event r = (s', None) -> disk_ok s'.
Proof.
  intros Hk Hd E. destruct event; cbn [observe] in E; try (injection E as <-; exact Hk);
    repeat (match type of E with (if ?b then _ else _) = _ => destruct b; [injection E as <-; exact Hk|] end);
    by eapply writeMutation_disk.
Qed.

Lemma observeRecord_disk env s chatID raw s' : disk_ok s -> distinctNames s' ->
  observeRecord env s chatID raw = (s', None) -> disk_ok s'.
Proof.
  intros Hk Hd. unfold observeRecord. destruct (SyncMsg.LogID raw) as [id|]; [|done].
  set (old := mutationOf s _). destruct (Deleted old) eqn:Ed; cbn [negb andb].
  - destruct (bool_decide _); [|by intros [= <-]].
    destruct (writeMutation _ _ _) as [s1 [e|]] eqn:E; [done|]. intros [= <-]. by eapply writeMutation_disk.
  - destruct (_ <=? _); [|by intros [= <-]]. intros E. by eapply writeMutation_disk.
Qed.

Lemma observeRecords_disk env chatID logs : forall s s', store_ok s -> disk_ok s -> distinctNames s' ->
  observeRecords env s chatID logs = (s', None) -> disk_ok s'.
Proof.
  induction logs as [|raw logs IH]; intros s s' Hs Hk Hd; cbn [observeRecords]; [by intros [= <-]|].
  destruct (DecodeChatLog chatID raw) as [event|]; [|done].
  destruct (observe_ok env s event None Hs) as [K1 L1]. destruct (observe env s event None) as [s1 [e|]] eqn:E1; [done|].
  simpl in K1, L1. destruct (observeRecord_ok env s1 chatID raw K1) as [K2 L2].
  destruct (observeRecord env s1 chatID raw) as [s2 [e|]] eqn:E2; [done|]. simpl in K2, L2.
  destruct (observeRecords_ok env chatID logs s2 K2) as [_ L3]. intros E3. rewrite E3 in L3. simpl in L3.
  apply (IH s2); [done| |done|done].
  assert (Hd2 : distinctNames s2) by by eapply distinct_before.
  eapply observeRecord_disk; [|exact Hd2|exact E2]. eapply observe_disk; [exact Hk| |exact E1].
  by eapply distinct_before.
Qed.
Lemma save_disk env s req response : store_ok s -> disk_ok s -> failed s = None ->
  failed (fst (save env s req response)) = None -> distinctNames (fst (save env s req response)) ->
  disk_ok (fst (save env s req response)).
Proof.
  intros Hs Hk Hf0. unfold save. destruct (_ && _).
  { intros _ _. eapply disk_same, Hk. apply saveUnavailable_core. }
  destruct (validateAcquiredPage req response) as [last|] eqn:Ev; [|done]. rewrite Hf0. cbn [SyncMsg.ChatLogs].
  destruct response as [logs floor ok]. cbn [SyncMsg.ChatLogs SyncMsg.MinLogID].
  set (selected := SyncMsg.mkResponse (selectedLogs req logs) floor false).
  destruct (observeRecords env s (SyncMsg.ChatID req) (selectedLogs req logs)) as [s1 [e|]] eqn:Eo; [done|].
  destruct (writeHistoryObject _ _ _) as [file [e|]] eqn:Ew; [done|]. apply writeHistoryObject_holds in Ew; [|apply page_wire].
  cbn [fst]. intros _ Hd.
  assert (Hd1 : distinctNames s1) by exact Hd.
  destruct (observeRecords_disk env _ _ s s1 Hs Hk Hd1 Eo) as [K1 K2 K3]. constructor; [|exact K2|exact K3].
  intros n. cbn [pages dir set_targets set_bulkCursors set_pages set_dir binding pageFiles set_pageFile].
  rewrite (holds_put _ _ _ _ Ew).
  destruct (decide (historyPageName req = n)) as [<-|Hne].
  - rewrite !lookup_insert_eq. eexists file, _. split; [done|]. split; [exact Ew|].
    split_and!; [done|done|done|done|]. simpl. by eapply validate_selected.
  - rewrite !lookup_insert_ne by done. apply K1.
Qed.

Lemma observePacket_disk env s packet event : disk_ok s -> failed s = None ->
  failed (fst (observePacket env s packet event)) = None -> distinctNames (fst (observePacket env s packet event)) ->
  disk_ok (fst (observePacket env s packet event)).
Proof.
  intros Hk Hf0. unfold observePacket. rewrite Hf0. set (r := match event with MessageEdited _ _ _ _ _ _ _ => _ | _ => _ end).
  clearbody r. intros Hf Hd. destruct (observe env s event r) as [s' [e|]] eqn:E; simpl in Hf, Hd |- *; [|by eapply observe_disk].
  (* an error that did not fail the store left it as it was *)
  assert (Hw : forall m, writeMutation env s m = (s', Some e) -> disk_ok s').
  { intros m. unfold writeMutation. destruct (validateMutation _ _); [by intros [= <- _]|].
    destruct (writeHistoryObject _ _ _) as [file [e'|]]; [intros [= <- _]; done|done]. }
  destruct event; cbn [observe] in E; try (injection E as <-; done);
    repeat (match type of E with (if ?b then _ else _) = _ => destruct b; [done|] end); by eapply Hw.
Qed.

Lemma observeCurrentRecords_disk env s chatID logs : store_ok s -> disk_ok s -> failed s = None ->
  failed (fst (observeCurrentRecords env s chatID logs)) = None ->
  distinctNames (fst (observeCurrentRecords env s chatID logs)) -> disk_ok (fst (observeCurrentRecords env s chatID logs)).
Proof.
  intros Hs Hk Hf0. unfold observeCurrentRecords. rewrite Hf0.
  destruct (observeRecords env s chatID logs) as [s1 [e|]] eqn:Eo; [done|]. cbn [fst]. intros _ Hd.
  assert (Hd1 : distinctNames s1) by exact Hd. apply (disk_same s1); [done|]. by eapply observeRecords_disk.
Qed.

(** ** Loading *)

(** The environment of a directory that can be read. *)
Definition readable env : Prop := forall n, onRead env n = PrivateJson.readOk.

Lemma loadPages_spec env s (Hrd : readable env) : disk_ok s -> forall files s0 cursors,
  (forall n, n ∈ files -> is_Some (pages s !! n)) -> pageFiles (dir s0) = pageFiles (dir s) -> binding s0 = binding s ->
  (forall id, 0 <= default 0 (cursors !! id)) ->
  exists s1 cursors', loadPages env s0 cursors files = (s1, Ok cursors') /\
    dir s1 = dir s0 /\ binding s1 = binding s0 /\ mutations s1 = mutations s0 /\ failed s1 = failed s0 /\
    unavailable s1 = unavailable s0 /\
    (forall n, pages s1 !! n = if bool_decide (n ∈ files) then pages s !! n else pages s0 !! n) /\
    (forall id v, bulkCursors s1 !! id = Some v -> v <= default 0 (cursors' !! id) \/ bulkCursors s0 !! id = Some v) /\
    (forall id v, cursors !! id = Some v -> v <= default 0 (cursors' !! id)) /\
    (forall n ref, n ∈ files -> pages s !! n = Some ref -> last ref <= default 0 (cursors' !! SyncMsg.ChatID (request ref))) /\
    (forall id, 0 <= default 0 (cursors' !! id)).
Proof.
  intros Hk. induction files as [|n files IH]; intros s0 cursors Hin Hfiles Hb Hpos.
  { exists s0, cursors. split_and!; try done.
    - by right.
    - by intros id v ->.
    - intros n ref Hn. by apply elem_of_nil in Hn. }
  destruct (Hin n ltac:(by left)) as [ref Href]. pose proof (dk_pages s Hk n) as Hn. rewrite Href in Hn.
  destruct Hn as (f & page & Hf & Hh & Hv & Hbind & Hname & Hre & Hval). cbn [loadPages]. unfold fileAt.
  rewrite Hrd, Hfiles, Hf. change (default PrivateJson.Missing (Some f)) with f. rewrite Hh, Hv, Hb, Hbind, <- Hname.
  rewrite String.eqb_refl, String.eqb_refl, Hval. cbn [negb orb Z.eqb Pos.eqb].
  match goal with |- context [loadPages env ?s1 ?c files] => destruct (IH s1 c) as (s2 & cursors' & E & D1 & D2 & D3 & D4 & D5 & D6 & D7 & D8 & D9 & D10) end;
    [intros n' Hn'; apply Hin; by right|done|done| |].
  { intros id. unfold raiseCursor. destruct (decide (SyncMsg.ChatID (Request page) = id)) as [<-|Hne].
    - rewrite lookup_insert_eq. simpl. pose proof (Hpos (SyncMsg.ChatID (Request page))). lia.
    - by rewrite lookup_insert_ne. }
  exists s2, cursors'. split; [exact E|]. cbn [dir binding mutations failed unavailable pages bulkCursors set_targets set_bulkCursors set_pages] in *.
  assert (Hcur : forall id v, raiseCursor (SyncMsg.ChatID (Request page)) (last ref) cursors !! id = Some v ->
    v <= default 0 (cursors' !! id)) by exact D8.
  assert (Hlast : last ref <= default 0 (cursors' !! SyncMsg.ChatID (Request page))).
  { assert (Hx := Hcur (SyncMsg.ChatID (Request page)) _ ltac:(unfold raiseCursor; apply lookup_insert_eq)). lia. }
  split_and!; try done.
  - congruence.
  - intros n'. rewrite D6. destruct (bool_decide_reflect (n' ∈ files)) as [Hx|Hx].
    + by rewrite bool_decide_eq_true_2 by (by right).
    + destruct (decide (n = n')) as [<-|Hne].
      * rewrite bool_decide_eq_true_2 by (by left). by rewrite lookup_insert_eq, <- Hre, Href.
      * rewrite lookup_insert_ne by done. rewrite bool_decide_eq_false_2; [done|]. rewrite elem_of_cons. by intros [?|?].
  - intros id v Hv'. destruct (D7 id v Hv') as [?|Hx]; [by left|]. unfold raiseCursor in Hx.
    apply lookup_insert_Some in Hx as [[<- <-]|[_ ?]]; [|by right].
    destruct (bulkCursors s0 !! SyncMsg.ChatID (Request page)) as [w|] eqn:Ew; simpl.
    + destruct (Z.max_spec w (last ref)) as [[_ ->]|[_ ->]]; [by left|by right].
    + left. pose proof (Hcur (SyncMsg.ChatID (Request page)) _ ltac:(unfold raiseCursor; apply lookup_insert_eq)).
      pose proof (Hpos (SyncMsg.ChatID (Request page))). lia.
  - intros id v Hv'. destruct (decide (SyncMsg.ChatID (Request page) = id)) as [<-|Hne].
    + pose proof (Hcur (SyncMsg.ChatID (Request page)) _ ltac:(unfold raiseCursor; apply lookup_insert_eq)) as Hx.
      rewrite Hv' in Hx. simpl in Hx. lia.
    + apply Hcur. unfold raiseCursor. by rewrite lookup_insert_ne.
  - intros n' ref' [->|Hn']%elem_of_cons Hr'; [|by eapply D9]. rewrite Href in Hr'. injection Hr' as <-.
    rewrite Hre. exact Hlast.
Qed.
Lemma loadTargets_spec env s (Hrd : readable env) : store_ok s -> disk_ok s -> forall files s0,
  (forall n, n ∈ files -> is_Some (targetFiles (dir s) !! n)) -> targetFiles (dir s0) = targetFiles (dir s) ->
  binding s0 = binding s -> mutations s0 ⊆ mutations s ->
  exists s1, loadTargets env s0 files = (s1, None) /\ dir s1 = dir s0 /\ binding s1 = binding s0 /\ pages s1 = pages s0 /\
    failed s1 = failed s0 /\ unavailable s1 = unavailable s0 /\ bulkCursors s1 = bulkCursors s0 /\
    mutations s0 ⊆ mutations s1 /\ mutations s1 ⊆ mutations s /\
    (forall k m, mutations s !! k = Some m -> historyMutationName k ∈ files -> mutations s1 !! k = Some m).
Proof.
  intros Hs Hk. induction files as [|n files IH]; intros s0 Hin Hfiles Hb Hsub.
  { exists s0. split_and!; try done. intros k m _ Hx. by apply elem_of_nil in Hx. }
  destruct (Hin n ltac:(by left)) as [f Hf]. destruct (dk_targets s Hk n f Hf) as (k & [m Hm] & ->).
  destruct (dk_target s Hk k m Hm) as (f' & Hf' & Hh). assert (f' = f) as -> by congruence.
  destruct (Hs k m Hm) as [Hkey Hval]. cbn [loadTargets]. unfold fileAt. rewrite Hrd, Hfiles, Hf.
  change (default PrivateJson.Missing (Some f)) with f. rewrite Hh.
  assert (Hval0 : validateMutation s0 m = None) by (unfold validateMutation in *; by rewrite Hb).
  rewrite Hval0, <- Hkey, String.eqb_refl, bool_decide_eq_false_2 by tauto. cbn [orb negb].
  set (s1 := set_mutations (<[k:=m]> (mutations s0)) s0).
  assert (Hx : exists s2, (if Acquired m || negb (bool_decide (Replacement m = None))
      then set_targets ({[k]} ∪ targets s1) s1 else s1) = s2 /\
      dir s2 = dir s0 /\ binding s2 = binding s0 /\ pages s2 = pages s0 /\ failed s2 = failed s0 /\
      unavailable s2 = unavailable s0 /\ bulkCursors s2 = bulkCursors s0 /\ mutations s2 = <[k:=m]> (mutations s0)).
  { destruct (_ || _); eexists; split_and!; reflexivity. }
  destruct Hx as (s2 & -> & E1 & E2 & E3 & E4 & E5 & E6 & E7).
  destruct (IH s2) as (s3 & E & D1 & D2 & D3 & D4 & D5 & D6 & D7 & D8 & D9); [intros n' Hn'; apply Hin; by right|congruence|congruence| |].
  { rewrite E7. by apply insert_subseteq_l. }
  assert (Hk3 : mutations s3 !! k = Some m) by (eapply lookup_weaken; [|exact D7]; by rewrite E7, lookup_insert_eq).
  exists s3. split; [exact E|]. split_and!; try congruence; try done.
  - apply map_subseteq_spec. intros k' m' Hm'. destruct (decide (k = k')) as [<-|Hne].
    + pose proof (lookup_weaken _ _ _ _ Hm' Hsub) as Hx. congruence.
    + eapply lookup_weaken; [|exact D7]. by rewrite E7, lookup_insert_ne.
  - intros k' m' Hm' [Hn'|Hn']%elem_of_cons; [|by apply D9].
    destruct (dk_target s Hk k' m' Hm') as (f2 & Hf2 & Hh2). rewrite Hn', Hf in Hf2. injection Hf2 as <-.
    assert (m' = m) as -> by (unfold holds in *; congruence). destruct (Hs k' m Hm') as [Hkey' _]. congruence.
Qed.

(** What opening a directory leaves: every page and mutation in its file. *)
Lemma loadPages_disk env files : forall s0 cursors s1 c, loadPages env s0 cursors files = (s1, Ok c) ->
  dir s1 = dir s0 /\ binding s1 = binding s0 /\ mutations s1 = mutations s0 /\
  forall n, match pages s1 !! n with
            | Some ref => pages s0 !! n = Some ref \/ n ∈ files /\ exists f page,
                pageFiles (dir s0) !! n = Some f /\ holds f page /\ page_of s0 n ref page
            | None => ~ (n ∈ files) /\ pages s0 !! n = None
            end.
Proof.
  induction files as [|n files IH]; intros s0 cursors s1 c; cbn [loadPages].
  { intros [= <- <-]. split_and!; try done. intros n. destruct (pages s0 !! n); [by left|]. by split; [apply not_elem_of_nil|]. }
  destruct (PrivateJson.Read _ _) as [[page|]|] eqn:Er; try done. destruct (_ || _) eqn:Eb; [done|].
  destruct (validateAcquiredPage _ _) as [last|] eqn:Ev; [|done]. intros E.
  destruct (IH _ _ _ _ E) as (D1 & D2 & D3 & D4). split_and!; try done. intros n'. specialize (D4 n').
  cbn [pages dir pageFiles binding set_targets set_bulkCursors set_pages] in D4.
  destruct (pages s1 !! n') as [ref|].
  - destruct D4 as [D4|(Hn' & D4)].
    + apply lookup_insert_Some in D4 as [[<- <-]|[_ ?]]; [|by left]. right. split; [by left|].
      unfold fileAt in Er. destruct (pageFiles (dir s0) !! n) as [f|] eqn:Ef.
      * exists f, page. split; [done|]. split; [by eapply PrivateJson.Read_undisturbed|].
        apply orb_false_iff in Eb as [[Eb1 Eb2]%orb_false_iff Eb3]. bool_prop.
        apply String.eqb_eq in Eb2, Eb3. split_and!; try done; lia.
      * by apply Read_absent in Er.
    + right. split; [by right|]. exact D4.
  - destruct D4 as [Hn' Hno]. apply lookup_insert_None in Hno as [Hno Hne]. split; [|done].
    rewrite elem_of_cons. intros [->|?]; done.
Qed.

Lemma loadTargets_disk env files : forall s0 s1, loadTargets env s0 files = (s1, None) ->
  dir s1 = dir s0 /\ binding s1 = binding s0 /\ pages s1 = pages s0 /\
  (forall k m, mutations s1 !! k = Some m -> mutations s0 !! k = Some m \/
     exists f, targetFiles (dir s0) !! historyMutationName k = Some f /\ holds f m) /\
  (forall k, is_Some (mutations s0 !! k) -> is_Some (mutations s1 !! k)) /\
  (forall n, n ∈ files -> exists k, is_Some (mutations s1 !! k) /\ n = historyMutationName k).
Proof.
  induction files as [|n files IH]; intros s0 s1; cbn [loadTargets].
  { intros [= <-]. split_and!; try done; [by left|]. intros n Hn. by apply elem_of_nil in Hn. }
  destruct (PrivateJson.Read _ _) as [[m|]|] eqn:Er; try done. destruct (bool_decide _ || _) eqn:Eb; [done|]. intros E.
  set (k := (mkTarget (ChatID m) (TargetID m))) in *.
  apply orb_false_iff in Eb as [_ Eb]. apply negb_false_iff, String.eqb_eq in Eb.
  assert (Hf : exists f, targetFiles (dir s0) !! n = Some f /\ holds f m).
  { unfold fileAt in Er. destruct (targetFiles (dir s0) !! n) as [f|].
    - exists f. split; [done|]. by eapply PrivateJson.Read_undisturbed.
    - by apply Read_absent in Er. }
  match type of E with loadTargets _ ?s2 _ = _ => assert (Hx : dir s2 = dir s0 /\ binding s2 = binding s0 /\
    pages s2 = pages s0 /\ mutations s2 = <[k := m]> (mutations s0)) by (by destruct (_ || _)); set (s2' := s2) in * end.
  destruct Hx as (E1 & E2 & E3 & E4). destruct (IH s2' s1 E) as (D1 & D2 & D3 & D4 & D5 & D6).
  rewrite E1 in D1, D4. split_and!; try congruence.
  - intros k' m' Hm'. destruct (D4 k' m' Hm') as [Hx|?]; [|by right]. rewrite E4 in Hx.
    apply lookup_insert_Some in Hx as [[<- <-]|[_ ?]]; [right|by left]. by rewrite <- Eb.
  - intros k' Hk'. apply D5. rewrite E4. destruct (decide (k = k')) as [<-|]; [rewrite lookup_insert_eq; by eexists|].
    by rewrite lookup_insert_ne.
  - intros n' [->|Hn']%elem_of_cons; [|by apply D6]. exists k. split; [|done]. apply D5.
    rewrite E4, lookup_insert_eq. by eexists.
Qed.
End Disk.
