(* ===== verification/Session.v ===== *)
(** * The session's request table (src/internal/client/session.go)

    Requests in flight on one carriage: the allocation of packet IDs, the
    correlation of replies by packet ID and method, the receive-header timers,
    the keepalive timer (ping_timer_owner.go) and the buffering of unsolicited
    packets.  Each definition is what the code does while it holds the
    session's mutex; a session is any sequence of them. *)

From S2P Require Import Prelude.
From S2P Require Import Bytes Loco.

#[local] Open Scope list_scope.
#[local] Open Scope Z_scope.

Definition requestLimit : nat := 64.
Definition requestIDMin : Z := 100000000.
Definition requestIDMax : Z := 200000000.

(** ["PING"]. *)
Definition PING : bytes := [80; 73; 78; 71].

Inductive SessionError :=
| ErrClosed
| ErrProtocol
| errReceiveHeaderTimeout
| ReadFailed (code : Z) (* what the wire's read returned *).

(** ** The keepalive timer (ping_timer_owner.go)

    The armed callback is the generation it was made with. *)
Module Ping.
Record pingTimerOwner := mkOwner { timer : option Z; generation : Z; closed : bool }.

Definition newPingTimerOwner : pingTimerOwner := mkOwner None 0 false.

Definition queueSchedule (o : pingTimerOwner) : pingTimerOwner * bool :=
  if closed o then (o, false) else
  let generation := wrapU 64 (generation o + 1) in
  (mkOwner (Some generation) generation false, true).

Definition queueCancel (o : pingTimerOwner) : pingTimerOwner :=
  mkOwner None (wrapU 64 (generation o + 1)) (closed o).

Definition shutdown (o : pingTimerOwner) : pingTimerOwner :=
  if closed o then o else mkOwner None (wrapU 64 (generation o + 1)) true.

(** [fire]: the owner afterwards and whether the callback runs. *)
Definition fire (o : pingTimerOwner) (g : Z) : pingTimerOwner * bool :=
  if closed o || negb (g =? generation o) then (o, false)
  else (mkOwner None (wrapU 64 (generation o + 1)) (closed o), true).
End Ping.

(** ** The session *)

(** A request's result channel is named by a number, a header timer by another;
    [answered] holds what was sent on each channel. *)
Record pendingRequest := mkPending { method : bytes; result : nat }.
Record headerTimer := mkTimer { ht_method : bytes; handle : nat }.

Inductive requestResult :=
| Reply (packet : Packet)
| Failed (err : SessionError).

Record session := mkSession {
  nextID : Z;
  closed : bool;
  closing : bool;
  pending : gmap Z pendingRequest;
  scheduler : option Ping.pingTimerOwner;
  lifecycleStopped : bool;
  timeouts : bool; (* the session has a header clock and a positive timeout *)
  headerTimers : gmap Z headerTimer;
  bootstrapDone : bool;
  bootstrapPushes : list Packet;
  pushes : list Packet;
  pushBuffer : nat;
  pushesClosed : bool;
  closeCause : option SessionError;
  fresh : nat; (* the next channel or timer name *)
  answered : gmap nat requestResult;
}.

Definition with_nextID v s := mkSession v (closed s) (closing s) (pending s) (scheduler s) (lifecycleStopped s) (timeouts s) (headerTimers s) (bootstrapDone s) (bootstrapPushes s) (pushes s) (pushBuffer s) (pushesClosed s) (closeCause s) (fresh s) (answered s).
Definition with_closing v s := mkSession (nextID s) (closed s) v (pending s) (scheduler s) (lifecycleStopped s) (timeouts s) (headerTimers s) (bootstrapDone s) (bootstrapPushes s) (pushes s) (pushBuffer s) (pushesClosed s) (closeCause s) (fresh s) (answered s).
Definition with_pending v s := mkSession (nextID s) (closed s) (closing s) v (scheduler s) (lifecycleStopped s) (timeouts s) (headerTimers s) (bootstrapDone s) (bootstrapPushes s) (pushes s) (pushBuffer s) (pushesClosed s) (closeCause s) (fresh s) (answered s).
Definition with_scheduler v s := mkSession (nextID s) (closed s) (closing s) (pending s) v (lifecycleStopped s) (timeouts s) (headerTimers s) (bootstrapDone s) (bootstrapPushes s) (pushes s) (pushBuffer s) (pushesClosed s) (closeCause s) (fresh s) (answered s).
Definition with_timers v s := mkSession (nextID s) (closed s) (closing s) (pending s) (scheduler s) (lifecycleStopped s) (timeouts s) v (bootstrapDone s) (bootstrapPushes s) (pushes s) (pushBuffer s) (pushesClosed s) (closeCause s) (fresh s) (answered s).
Definition with_pushes boot v s := mkSession (nextID s) (closed s) (closing s) (pending s) (scheduler s) (lifecycleStopped s) (timeouts s) (headerTimers s) (bootstrapDone s) boot v (pushBuffer s) (pushesClosed s) (closeCause s) (fresh s) (answered s).
Definition with_fresh v s := mkSession (nextID s) (closed s) (closing s) (pending s) (scheduler s) (lifecycleStopped s) (timeouts s) (headerTimers s) (bootstrapDone s) (bootstrapPushes s) (pushes s) (pushBuffer s) (pushesClosed s) (closeCause s) v (answered s).
Definition with_answered v s := mkSession (nextID s) (closed s) (closing s) (pending s) (scheduler s) (lifecycleStopped s) (timeouts s) (headerTimers s) (bootstrapDone s) (bootstrapPushes s) (pushes s) (pushBuffer s) (pushesClosed s) (closeCause s) (fresh s) v.

(** [newSession] as [connectSession] fills it in. *)
Definition newSession (owner : option Ping.pingTimerOwner) (timeouts : bool) : session :=
  mkSession 2 false false ∅ owner false timeouts ∅ false [] [] requestLimit false None 0 ∅.

(** ** Lifecycle *)

Definition queueSchedule (s : session) : session :=
  if lifecycleStopped s then s else
  match scheduler s with
  | None => s
  | Some o => with_scheduler (Some (fst (Ping.queueSchedule o))) s
  end.

Definition queueCancelRequest (s : session) : session :=
  if lifecycleStopped s then s else
  match scheduler s with
  | None => s
  | Some o => with_scheduler (Some (Ping.queueCancel o)) s
  end.

Definition stopLifecycle (s : session) : session :=
  if lifecycleStopped s then s else
  mkSession (nextID s) (closed s) (closing s) (pending s) (Ping.shutdown ∘ Ping.queueCancel <$> scheduler s) true
    (timeouts s) (headerTimers s) (bootstrapDone s) (bootstrapPushes s) (pushes s) (pushBuffer s) (pushesClosed s)
    (closeCause s) (fresh s) (answered s).

(** ** Packet IDs *)

(** [s.nextID++] with its wrap at the end of the range. *)
Definition advanceID (id : Z) : Z :=
  let next := wrapU 32 (id + 1) in if requestIDMax <=? next then requestIDMin else next.

(** The loop of [allocateRequestIDLocked]: the ID, if one is free, and the next
    one to try. *)
Fixpoint allocateLoop (fuel : nat) (s : session) (start next : Z) : option (res SessionError Z * Z) :=
  match fuel with
  | O => None
  | S fuel =>
      let id := next in
      let next := advanceID next in
      if negb (bool_decide (is_Some (pending s !! id))) && negb (bool_decide (is_Some (headerTimers s !! id)))
      then Some (Ok id, next)
      else if next =? start then Some (Err ErrProtocol, next)
      else allocateLoop fuel s start next
  end.

(** A turn that continues passes an ID that is pending or armed. *)
Definition allocateFuel (s : session) : nat := S (size (pending s) + size (headerTimers s)).

Definition allocateRequestIDLocked (s : session) : option (session * res SessionError Z) :=
  let start := if (nextID s <? requestIDMin) || (requestIDMax <=? nextID s) then requestIDMin else nextID s in
  match allocateLoop (allocateFuel s) s start start with
  | None => None
  | Some (r, next) => Some (with_nextID next s, r)
  end.

(** ** Requests *)

(** The part of [requestRaw] before the write: the channel and ID of the
    request, registered and with the keepalive cancelled. *)
Definition beginRequest (s : session) (id : Z) (command : bytes) : option (session * res SessionError (Z * nat)) :=
  if bool_decide (command = []) then Some (s, Err ErrProtocol)
  else if closed s || closing s then Some (s, Err ErrClosed)
  else
    match (if id =? 0 then allocateRequestIDLocked s
           else Some (if nextID s <=? id then with_nextID (advanceID id) s else s, Ok id)) with
    | None => None
    | Some (s, Err e) => Some (s, Err e)
    | Some (s, Ok id) =>
        if bool_decide (is_Some (pending s !! id)) then Some (s, Err ErrProtocol)
        else
          let ch := fresh s in
          Some (queueCancelRequest (with_fresh (S ch) (with_pending (<[id := mkPending command ch]> (pending s)) s)),
                Ok (id, ch))
    end.

(** [s.pending[id].result == expected]. *)
Definition isPending (s : session) (id : Z) (ch : nat) : bool :=
  match pending s !! id with Some p => (result p =? ch)%nat | None => false end.

Definition armHeaderTimeout (s : session) (id : Z) (command : bytes) (ch : nat) : session :=
  if negb (timeouts s) || closed s || closing s || negb (isPending s id ch) then s
  else with_fresh (S (fresh s)) (with_timers (<[id := mkTimer command (fresh s)]> (headerTimers s)) s).

Definition removePending (s : session) (id : Z) (ch : nat) : session :=
  if isPending s id ch then with_pending (delete id (pending s)) s else s.

(** A request whose write failed or whose caller gave up; [ended] is whether
    the caller's context had ended. *)
Definition abandon (s : session) (id : Z) (command : bytes) (ch : nat) (ended : bool) : session :=
  let s := removePending s id ch in
  if ended && negb (bool_decide (command = PING)) then queueSchedule s else s.

(** ** Closing *)

Definition Close (s : session) : session :=
  if closed s || closing s then s else stopLifecycle (with_timers ∅ (with_closing true s)).

(** A write that failed after sending bytes. *)
Definition brokenWrite (s : session) : session := stopLifecycle (with_closing true s).

Definition fireHeaderTimeout (s : session) (id : Z) (timer : nat) : session :=
  match headerTimers s !! id with
  | Some t =>
      if negb (handle t =? timer)%nat || closed s || closing s then s
      else
        Close (mkSession (nextID s) (closed s) (closing s) (pending s) (scheduler s) (lifecycleStopped s) (timeouts s)
          (delete id (headerTimers s)) (bootstrapDone s) (bootstrapPushes s) (pushes s) (pushBuffer s) (pushesClosed s)
          (match closeCause s with None => Some errReceiveHeaderTimeout | cause => cause end) (fresh s) (answered s))
  | None => s
  end.

(** Each pending request gets the error. *)
Definition failAll (err : SessionError) (requests : gmap Z pendingRequest) (answered : gmap nat requestResult)
  : gmap nat requestResult :=
  foldr (fun p m => <[result p := Failed err]> m) answered (snd <$> map_to_list requests).

Definition finishRead (s : session) (err : SessionError) : session :=
  if closed s then s else
  let err := default err (closeCause s) in
  let s' := mkSession (nextID s) true (closing s) ∅ (scheduler s) (lifecycleStopped s) (timeouts s) ∅
              (bootstrapDone s) (bootstrapPushes s) (pushes s) (pushBuffer s) true (closeCause s) (fresh s)
              (answered s) in
  let s' := if closing s then s' else Nat.iter (size (pending s)) queueSchedule s' in
  with_answered (failAll err (pending s) (answered s)) (stopLifecycle s').

(** ** Reading *)

(** [disarmHeaderTimeoutLocked]. *)
Definition disarmHeaderTimeoutLocked (s : session) (h : Header) : session :=
  match headerTimers s !! PacketID h with
  | Some t => if bool_decide (ht_method t = Method h) then with_timers (delete (PacketID h) (headerTimers s)) s else s
  | None => s
  end.

Definition dispatchPacket (s : session) (packet : Packet) : session * bool :=
  let s := disarmHeaderTimeoutLocked s (p_Header packet) in
  match pending s !! PacketID (p_Header packet) with
  | Some p =>
      if bool_decide (method p = Method (p_Header packet)) then
        (with_answered (<[result p := Reply packet]> (answered s))
           (queueSchedule (with_pending (delete (PacketID (p_Header packet)) (pending s)) s)), true)
      else (s, false)
  | None => (s, false)
  end.

(** One iteration of [readLoopBody]: the session and whether the loop goes on. *)
Definition readPacket (s : session) (packet : Packet) : session * bool :=
  let '(s, correlated) := dispatchPacket s packet in
  if correlated then (s, true)
  else if negb (bootstrapDone s) then (with_pushes (bootstrapPushes s ++ [packet]) (pushes s) s, true)
  else if (length (pushes s) <? pushBuffer s)%nat then (with_pushes (bootstrapPushes s) (pushes s ++ [packet]) s, true)
  else (finishRead s ErrProtocol, false).

Definition finishBootstrap (s : session) : session * bool :=
  if closed s || closing s then (s, false) else
  (mkSession (nextID s) (closed s) (closing s) (pending s) (scheduler s) (lifecycleStopped s) (timeouts s)
     (headerTimers s) true [] (bootstrapPushes s) (Nat.max requestLimit (length (bootstrapPushes s))) (pushesClosed s)
     (closeCause s) (fresh s) (answered s), true).

(** The consumer of [pushStream] takes the next packet. *)
Definition takePush (s : session) : session * option Packet :=
  match pushes s with
  | [] => (s, None)
  | packet :: rest => (with_pushes (bootstrapPushes s) rest s, Some packet)
  end.
