(* ===== verification/ClientFacts.v ===== *)
(** * A client's journal and its writes

    Shared facts about the checkpoint and the commit queue of a [Client]
    (src/internal/client/client.go): what an admitted checkpoint write does to
    the journal, and what queueing events does to the queue. *)

From S2P Require Import Prelude.
From S2P Require Import Bson Events Continuity ContinuitySpec ContinuityProps ContinuityTheorems.
From S2P Require Import Delivery CatchUp.
From S2P Require PrivateJson.

#[local] Open Scope list_scope.
#[local] Open Scope Z_scope.

(** A client whose checkpoint is open and valid. *)
Definition good (c : Client) : Prop :=
  exists path data file, checkpoint c = sysOf path data file /\ path <> ""%string /\
    wf data /\ gaps_int64 data.

Definition journal (c : Client) : Journal :=
  match sys_store (checkpoint c) with Some st => abs (store_data st) | None => initialJournal end.

(** The parts of a client that a checkpoint write leaves alone. *)
Definition same_queue (c c' : Client) : Prop :=
  pendingCommits c' = pendingCommits c /\ closed c' = closed c.

(** An operation with [int64] arguments, or one that leaves the gaps alone. *)
Lemma good_run_gaps env op c sys' err :
  good c -> op_int64 op \/ (forall j, j_gaps (spec op j) = j_gaps j) ->
  run env op (checkpoint c) = (sys', err) ->
  good (set_checkpoint sys' c) /\
  match err with
  | None => args_ok op = true /\ journal (set_checkpoint sys' c) = spec op (journal c)
  | Some _ => journal (set_checkpoint sys' c) = journal c
  end.
Proof.
  intros (path & data & file & E & Hp & Hc & Hg) Hint Erun. rewrite E in Erun.
  destruct (run_outcome env op path data file Hp Hc Hg) as (data' & file' & err' & Erun' & Hout).
  rewrite Erun' in Erun. injection Erun as <- <-. unfold journal. rewrite E. simpl.
  assert (Hnext : forall n, wf n -> abs n = spec op (abs data) -> gaps_int64 n).
  { intros n Hn En. apply gaps_int64_iff; [done|]. rewrite En. destruct Hint as [Hint|Hkeep].
    - by apply spec_gaps_bound, gaps_int64_iff.
    - intros k f t. rewrite Hkeep. by apply gaps_int64_iff. }
  destruct Hout as [Ha|Ha Hd Hs|env' n e f' Ha Hn En Ew|n Ha Hn En]; split;
    try (eexists _, _, _; split_and!; [reflexivity | auto..]; by apply Hnext); try done.
  by destruct e.
Qed.

Lemma good_run env op c sys' err :
  good c -> op_int64 op -> run env op (checkpoint c) = (sys', err) ->
  good (set_checkpoint sys' c) /\
  match err with
  | None => args_ok op = true /\ journal (set_checkpoint sys' c) = spec op (journal c)
  | Some _ => journal (set_checkpoint sys' c) = journal c
  end.
Proof. intros Hg Hi. apply good_run_gaps; auto. Qed.

Lemma good_write env op c c' err :
  good c -> op_int64 op -> checkpointWrite c (run env op) = (c', err) ->
  good c' /\ same_queue c c' /\
  match err with
  | None => args_ok op = true /\ journal c' = spec op (journal c)
  | Some _ => journal c' = journal c
  end.
Proof.
  intros Hgood Hint. unfold checkpointWrite.
  destruct (closed c); [by intros [= <- <-]|].
  pose proof Hgood as (path & data & file & E & _). rewrite E at 1. cbn [sys_store sysOf].
  destruct (run env op (checkpoint c)) as [sys' e] eqn:Erun. intros [= <- <-].
  destruct (good_run env op c sys' e Hgood Hint Erun) as [Hg Hj]. split; [done|]. split; [done|].
  by destruct e.
Qed.

Lemma good_snapshot c : good c -> wf (snapshot c) /\ abs (snapshot c) = journal c.
Proof.
  intros (path & data & file & E & _ & Hc & _). unfold snapshot, journal. rewrite E. simpl.
  split; [by apply Clone_wf | apply Clone_abs].
Qed.

Lemma wf_journal_pos c : wf c ->
  (forall k m, j_commits (abs c) !! k = Some m -> 0 < m) /\
  (forall k m, j_starts (abs c) !! k = Some m -> 0 < m).
Proof.
  intros Hc. split; intros k m Hm.
  - eapply (slice_map_Forall _ _ (wf_chats _ Hc) ChatCursor_MaxLogID (fun m => 0 < m)); [|exact Hm]. done.
  - eapply (slice_map_Forall _ _ (wf_starts _ Hc) DeliveryStart_FirstLogID (fun m => 0 < m)); [|exact Hm]. done.
Qed.

Lemma peek_nonneg (m : gmap Z Z) k : (forall k v, m !! k = Some v -> 0 < v) -> 0 <= peek m k.
Proof. intros Hm. unfold peek. destruct (m !! k) as [v|] eqn:E; [|done]. simpl. by apply Hm in E; lia. Qed.

Section Queue.
Context `{AcquiredStore}.

(** An event of chat [id] at some position, and the position. *)
Definition at_chat (id : Z) (e : Event) : Prop := exists l, MessagePosition e = Some (id, l).
Definition logOf (e : Event) : Z := match MessagePosition e with Some (_, l) => l | None => 0 end.

Lemma pending_queueCommit c id log k :
  pending (queueCommit c id log) k = if decide (id = k) then pending c k ++ [log] else pending c k.
Proof.
  unfold pending, queueCommit. simpl. destruct (decide (id = k)) as [->|Hne].
  - by rewrite lookup_insert_eq.
  - by rewrite lookup_insert_ne.
Qed.

Lemma queueEvents_app c l1 l2 : queueEvents c (l1 ++ l2) = queueEvents (queueEvents c l1) l2.
Proof. apply foldl_app. Qed.

(** The events of one chat are queued behind what the chat already awaits. *)
Lemma pending_queueEvents id evs : forall c k, Forall (at_chat id) evs ->
  pending (queueEvents c evs) k =
    if decide (id = k) then pending c k ++ (logOf <$> evs) else pending c k.
Proof.
  induction evs as [|e evs IH]; intros c k Hall.
  - simpl. rewrite app_nil_r. by destruct (decide _).
  - apply Forall_cons in Hall as [[l Hl] Hall]. simpl. rewrite Hl. simpl. rewrite (IH _ k Hall).
    rewrite pending_queueCommit. unfold logOf at 2. rewrite Hl.
    destruct (decide (id = k)); [|done]. by rewrite <- app_assoc.
Qed.

Lemma queueEvents_frame evs : forall c,
  checkpoint (queueEvents c evs) = checkpoint c /\ closed (queueEvents c evs) = closed c.
Proof.
  induction evs as [|e evs IH]; intros c; [done|]. simpl.
  destruct (default (0, 0) (MessagePosition e)) as [id log]. by destruct (IH (queueCommit c id log)) as [-> ->].
Qed.

Lemma good_queue evs c : good c -> good (queueEvents c evs) /\ journal (queueEvents c evs) = journal c.
Proof.
  intros Hg. unfold good, journal. destruct (queueEvents_frame evs c) as [-> _]. done.
Qed.

(** Projecting keeps every position. *)
Lemma projectAll_positions s evs : forall out, projectAll s evs = Ok out ->
  MessagePosition <$> out = MessagePosition <$> evs.
Proof.
  induction evs as [|e evs IH]; intros out E; cbn [projectAll] in E; [by injection E as <-|].
  destruct (project s e) as [e'|] eqn:Ee; [|done].
  destruct (projectAll s evs) as [rest|]; [|done]. injection E as <-.
  rewrite !fmap_cons, (project_position _ _ _ Ee). f_equal. by apply IH.
Qed.

Lemma projected_positions store evs out : projectAcquiredEvents store evs = Ok out ->
  MessagePosition <$> out = MessagePosition <$> evs.
Proof.
  destruct store as [s|]; [apply projectAll_positions|]. by intros [= ->].
Qed.

(** Facts about positions carry over to the projected events. *)
Lemma positions_logs (evs out : list Event) : MessagePosition <$> out = MessagePosition <$> evs ->
  logOf <$> out = logOf <$> evs.
Proof.
  intros E. change logOf with ((fun p : option (Z * Z) => match p with Some (_, l) => l | None => 0 end) ∘ MessagePosition).
  by rewrite !list_fmap_compose, E.
Qed.

Lemma positions_Forall (P : option (Z * Z) -> Prop) (evs out : list Event) :
  MessagePosition <$> out = MessagePosition <$> evs ->
  Forall (fun e => P (MessagePosition e)) evs -> Forall (fun e => P (MessagePosition e)) out.
Proof.
  intros E Hall. apply (Forall_fmap MessagePosition P). rewrite E. by apply Forall_fmap.
Qed.
End Queue.

(** ** Committing an event *)

Lemma good_frame c c' : checkpoint c' = checkpoint c -> good c -> good c' /\ journal c' = journal c.
Proof. unfold good, journal. intros ->. done. Qed.

(** A commit moves only its own chat in the journal. *)
Lemma CommitEvent_journal `{EventContent} env c event c' err : good c -> CommitEvent env c event = (c', err) ->
  good c' /\ (err <> None -> journal c' = journal c) /\
  forall k, (forall l, MessagePosition event <> Some (k, l)) ->
    peek (j_commits (journal c')) k = peek (j_commits (journal c)) k /\
    peek (j_starts (journal c')) k = peek (j_starts (journal c)) k.
Proof.
  intros Hg E. unfold CommitEvent in E. destruct (MessagePosition event) as [[id log]|]; [|by simplify_eq].
  destruct (closed c); [by simplify_eq|]. destruct (sys_store (checkpoint c)); [|by simplify_eq].
  destruct (pending c id) as [|head rest]; [by simplify_eq|].
  destruct (negb (head =? log)); [by simplify_eq|].
  destruct (CommitMessage env (checkpoint c) id log) as [[sys a] e] eqn:Em.
  assert (Erun : run env (OpCommit id log) (checkpoint c) = (sys, e)) by (simpl; by rewrite Em).
  destruct (good_run_gaps env (OpCommit id log) c sys e Hg ltac:(right; done) Erun) as [Hg1 Hj1].
  assert (Hout : good (set_checkpoint sys c) /\ (e <> None -> journal (set_checkpoint sys c) = journal c) /\ forall k, (forall l, Some (id, log) <> Some (k, l)) ->
    peek (j_commits (journal (set_checkpoint sys c))) k = peek (j_commits (journal c)) k /\
    peek (j_starts (journal (set_checkpoint sys c))) k = peek (j_starts (journal c)) k).
  { split_and!; [done | by destruct e |]. intros k Hk. assert (Hne : id <> k) by (intros ->; by apply (Hk log)).
    destruct e; [by rewrite Hj1|]. destruct Hj1 as [_ ->]. simpl. unfold peek, raise.
    by simplify_map_eq. }
  destruct e.
  { injection E as <- <-. destruct Hout as (K1 & K2 & K3). split_and!; [done | by intros _; apply K2 | done]. }
  injection E as Ec <-. assert (Hfr : checkpoint c' = sys) by (by rewrite <- Ec; destruct rest).
  destruct (good_frame (set_checkpoint sys c) c' Hfr (proj1 Hout)) as [Hg2 Hj2].
  split; [done|]. rewrite Hj2. split; [by intros K; destruct K | apply Hout].
Qed.
