(* ===== verification/BulkFacts.v ===== *)
(** * Facts about the bulk chain

    What each page does to a room of [CatchUpAll] (src/internal/client/
    bulk_catchup.go), and the invariant of the chain: everything between a
    room's start and its cursor is an event, vacant or skipped. *)

From S2P Require Import Prelude.
From S2P Require Import Bson Events Continuity Delivery CatchUp BulkCatchUp ProtocolTheorems ClientFacts.
From S2P Require SyncMsg MChatLogs.

#[local] Open Scope list_scope.
#[local] Open Scope Z_scope.

Section Facts.
Context `{AcquiredStore} (env : BulkEnv).

(** A log the server returned for chat [id] in some page. *)
Definition served (id : Z) (raw : Raw) : Prop :=
  exists n request payload page, be_exchange env n request = Ok payload /\
    MChatLogs.ParseResponse payload = Ok page /\ raw ∈ MChatLogs.ChatLogs page /\ chatOf raw = id.

(** The server said that nothing is at position [p]: a log after it names a
    predecessor before it. *)
Definition vacant (id p : Z) : Prop :=
  exists raw prev, served id raw /\ SyncMsg.PrevID raw = Some prev /\ prev < p < SyncMsg.logIDof raw.

(** ** The logs of one room on one page *)

Lemma groupRuns_filter since logs : forall runs runs', groupRuns since runs logs = Ok runs' ->
  forall id, default [] (runs' !! id) = default [] (runs !! id) ++
    filter (fun raw => chatOf raw = id /\ default 0 (since !! id) < SyncMsg.logIDof raw) logs.
Proof.
  induction logs as [|raw logs IH]; intros runs runs' E id; cbn [groupRuns] in E.
  - injection E as <-. by rewrite app_nil_r.
  - fold (chatOf raw) in E. destruct (since !! chatOf raw) as [cur|] eqn:Es; [|done].
    destruct (SyncMsg.LogID raw) as [logID|] eqn:El; [|done].
    assert (Hof : SyncMsg.logIDof raw = logID) by (unfold SyncMsg.logIDof; by rewrite El).
    destruct (logID <? cur) eqn:E1; [done|]. destruct (cur <? logID) eqn:E2; rewrite (IH _ _ E id).
    + destruct (decide (chatOf raw = id)) as [<-|Hne].
      * rewrite lookup_insert_eq, Es, filter_cons_True by (simpl; split; [done|]; lia).
        simpl. by rewrite <- app_assoc.
      * rewrite lookup_insert_ne by done. by rewrite filter_cons_False by (by intros [? _]).
    + rewrite filter_cons_False; [done|]. intros [<- Hlt]. rewrite Es in Hlt. simpl in Hlt. lia.
Qed.

Lemma since_lookup (f : Z -> Z) ids : forall m : gmap Z Z, forall id, id ∈ ids ->
  foldl (fun m '(id, since) => <[id := since]> m) m (zip ids (f <$> ids)) !! id = Some (f id).
Proof.
  assert (Hkeep : forall l m id, m !! id = Some (f id) ->
    foldl (fun (m : gmap Z Z) '(id, since) => <[id := since]> m) m (zip l (f <$> l)) !! id = Some (f id)).
  { induction l as [|k l IH]; intros m id Hm; [done|]. simpl. apply IH.
    destruct (decide (k = id)) as [->|]; [by rewrite lookup_insert_eq | by rewrite lookup_insert_ne]. }
  induction ids as [|k ids IH]; intros m id Hin; [by apply elem_of_nil in Hin|]. simpl.
  apply elem_of_cons in Hin as [->|Hin]; [|by apply IH]. apply Hkeep. apply lookup_insert_eq.
Qed.

Lemma sorted_run id logs P `{forall x, Decision (P x)} :
  StronglySorted bulkBefore logs -> (forall x, P x -> chatOf x = id) ->
  StronglySorted Z.lt (SyncMsg.logIDof <$> filter P logs).
Proof.
  intros Hs HP. induction Hs as [|x l Hs IH Hall]; [constructor|].
  destruct (decide (P x)) as [Hx|Hx].
  - rewrite filter_cons_True, fmap_cons by done. constructor; [done|].
    apply Forall_fmap, Forall_forall. intros y [Hy Hin]%list_elem_of_filter.
    rewrite Forall_forall in Hall. destruct (Hall y Hin) as [_ Hlt]. simpl. apply Hlt.
    by rewrite (HP x), (HP y).
  - by rewrite filter_cons_False.
Qed.

(** The run of room [id] whose cursor is [cur]. *)
Definition run_ok (id cur : Z) (run : list Raw) : Prop :=
  StronglySorted Z.lt (SyncMsg.logIDof <$> run) /\
  Forall (fun raw => served id raw /\ cur < SyncMsg.logIDof raw) run.

Lemma bulkRuns_ok n ids (f : Z -> Z) response runs id :
  bulkChatLogs env n (MChatLogs.mkRequest ids (f <$> ids)) = Ok response ->
  bulkRuns (MChatLogs.mkRequest ids (f <$> ids)) response = Ok runs -> id ∈ ids ->
  run_ok id (f id) (default [] (runs !! id)).
Proof.
  unfold bulkChatLogs, bulkRuns. intros Er Eg Hin.
  destruct (MChatLogs.MarshalBSON _); [|done].
  destruct (be_exchange env n _) as [payload|] eqn:Ee; [|done].
  destruct (MChatLogs.ParseResponse payload) as [page|] eqn:Ep; [|done]. injection Er as ->.
  cbn [MChatLogs.ChatIDs MChatLogs.Sinces] in *.
  rewrite (groupRuns_filter _ _ _ _ Eg id), lookup_empty. simpl. rewrite since_lookup by done. simpl.
  split.
  - apply (sorted_run id); [by apply (bulk_parsed payload)|]. by intros x [? _].
  - apply Forall_forall. intros raw [[Hc Hl] Hraw]%list_elem_of_filter. split; [|done].
    by exists n, (MChatLogs.mkRequest ids (f <$> ids)), payload, response.
Qed.

(** ** The events of a run *)

Lemma runEvents_spec id ceiling run : forall previous evs,
  StronglySorted Z.lt (SyncMsg.logIDof <$> run) -> Forall (served id) run ->
  runEvents id ceiling previous run = Ok (Some evs) ->
  Forall (at_chat id) evs /\ StronglySorted Z.lt (logOf <$> evs) /\
  Forall (fun e => logOf e ∈ SyncMsg.logIDof <$> run /\ logOf e <= ceiling) evs /\
  forall p l, previous < p <= ceiling -> l ∈ SyncMsg.logIDof <$> run -> p <= l ->
    p ∈ logOf <$> evs \/ vacant id p.
Proof.
  induction run as [|raw run IH]; intros previous evs Hs Hserved E; cbn [runEvents] in E.
  - injection E as <-. split_and!; [constructor..|]. intros p l _ Hin. by apply elem_of_nil in Hin.
  - rewrite fmap_cons in *. apply StronglySorted_inv in Hs as [Hs Hlt].
    apply Forall_cons in Hserved as [Hraw Hserved].
    destruct (SyncMsg.PrevID raw) as [prev|] eqn:Ep; [|done].
    destruct (prev =? previous) eqn:Epp; [|done]. cbn [negb] in E. bool_prop. subst prev.
    assert (Hvac : forall p, previous < p < SyncMsg.logIDof raw -> vacant id p) by (intros; by exists raw, previous).
    destruct (ceiling <? SyncMsg.logIDof raw) eqn:Ec.
    + destruct (IH _ _ Hs Hserved E) as (K1 & K2 & K3 & K4). split_and!; try done.
      * eapply Forall_impl; [exact K3|]. simpl. intros e [? ?]. split; [by apply list_elem_of_further|done].
      * intros p l Hp _ _. right. apply Hvac. lia.
    + destruct (DecodeChatLog id raw) as [e|] eqn:Ed; [|done].
      destruct (MessagePosition e) as [[chat position]|] eqn:Em; [|done].
      destruct (_ || _) eqn:Eb; [done|]. bool_prop. subst chat position.
      destruct (runEvents id ceiling (SyncMsg.logIDof raw) run) as [[rest|]|] eqn:Er; try done.
      injection E as <-. destruct (IH _ _ Hs Hserved Er) as (K1 & K2 & K3 & K4).
      assert (Hof : logOf e = SyncMsg.logIDof raw) by (unfold logOf; by rewrite Em).
      rewrite fmap_cons, Hof. split_and!.
      * constructor; [by exists (SyncMsg.logIDof raw) | done].
      * constructor; [done|]. apply Forall_fmap. eapply Forall_impl; [exact K3|]. simpl.
        intros x [Hx _]. rewrite Forall_forall in Hlt. by apply Hlt.
      * constructor; [split; [rewrite Hof; by left | lia]|].
        eapply Forall_impl; [exact K3|]. simpl. intros x [? ?]. split; [by apply list_elem_of_further|done].
      * intros p l Hp Hl Hpl. destruct (Z.lt_trichotomy p (SyncMsg.logIDof raw)) as [Hlt'|[->|Hgt]].
        -- right. apply Hvac. lia.
        -- left. by left.
        -- apply elem_of_cons in Hl as [->|Hl]; [lia|].
           destruct (K4 p l ltac:(lia) Hl Hpl); [left; by apply list_elem_of_further | by right].
Qed.

(** ** Rooms *)

(** The parts of a room that pages never change. *)
Definition static (r : chainRoom) : Z * Z * bool * Z := (chatID r, ceiling r, catchUp r, gapStart r).

(** What a catch-up room has acquired so far. *)
Record room_ok (r : chainRoom) : Prop := {
  ro_start : 1 <= gapStart r <= ceiling r;
  ro_cursor : gapStart r - 1 <= cursor r;
  ro_skip : skipFrom r = 0 \/ gapStart r <= skipFrom r <= skipThrough r /\ skipThrough r <= ceiling r /\ skipFrom r <= cursor r + 1;
  ro_chat : Forall (at_chat (chatID r)) (events r);
  ro_sorted : StronglySorted Z.lt (logOf <$> events r);
  ro_range : Forall (fun e => gapStart r <= logOf e <= Z.min (cursor r) (ceiling r)) (events r);
  ro_covered p : gapStart r <= p <= Z.min (cursor r) (ceiling r) ->
    p ∈ logOf <$> events r \/ vacant (chatID r) p \/ 0 < skipFrom r <= p /\ p <= skipThrough r;
}.

Lemma done_ok r : room_ok r -> room_ok (set_done true r).
Proof. intros [? ? ? ? ? ? ?]. by constructor. Qed.

(** Skipping to [first] keeps the invariant and covers what is skipped. *)
Lemma skip_ok first r : room_ok r -> cursor r < first ->
  room_ok (skipTo first r) /\ static (skipTo first r) = static r /\
  cursor (skipTo first r) = cursor r /\ events (skipTo first r) = events r /\
  forall p, cursor r < p <= Z.min first (ceiling r) ->
    0 < skipFrom (skipTo first r) <= p /\ p <= skipThrough (skipTo first r).
Proof.
  intros [? ? Hskip ? ? ? Hcov] Hfirst. unfold skipTo.
  destruct (cursor r + 1 <=? Z.min first (ceiling r)) eqn:E.
  2: { split; [by constructor|]. split_and!; try done. intros p Hp. lia. }
  destruct (skipFrom r =? 0) eqn:E0; bool_prop; (split; [|split_and!; try done; simpl; lia]).
  - constructor; simpl; try done; [right; lia|]. intros p Hp.
    destruct (Hcov p Hp) as [?|[?|?]]; auto. lia.
  - constructor; simpl; try done; [destruct Hskip; [done|right; lia]|]. intros p Hp.
    destruct (Hcov p Hp) as [?|[?|[? ?]]]; auto. right; right. lia.
Qed.

Lemma advance_ok r start run evs last :
  room_ok r -> run_ok (chatID r) (cursor r) run -> cursor r <= start ->
  (forall p, cursor r < p <= Z.min start (ceiling r) -> 0 < skipFrom r <= p /\ p <= skipThrough r) ->
  runEvents (chatID r) (ceiling r) start run = Ok (Some evs) ->
  last ∈ SyncMsg.logIDof <$> run -> Forall (fun l => l <= last) (SyncMsg.logIDof <$> run) ->
  room_ok (advance last evs r).
Proof.
  intros [? ? ? Hchat Hsort Hrange Hcov] [Hs Hrun] Hstart Hskipped E Hlast Hmax.
  apply Forall_and in Hrun as [Hserved Hcur].
  destruct (runEvents_spec _ _ _ _ _ Hs Hserved E) as (K1 & K2 & K3 & K4).
  assert (Hin : forall l, l ∈ SyncMsg.logIDof <$> run -> cursor r < l <= last).
  { intros l Hl. split; [|rewrite Forall_forall in Hmax; by apply Hmax].
    apply list_elem_of_fmap in Hl as (raw & -> & Hl). rewrite Forall_forall in Hcur. by apply Hcur. }
  pose proof (Hin _ Hlast).
  assert (Hnew : Forall (fun e => cursor r < logOf e <= Z.min last (ceiling r)) evs).
  { eapply Forall_impl; [exact K3|]. simpl. intros e [Hl ?]. pose proof (Hin _ Hl). lia. }
  constructor; simpl; try done; try lia.
  - by apply Forall_app.
  - rewrite fmap_app. apply StronglySorted_app_2; [|done|done].
    intros x y Hx Hy. apply list_elem_of_fmap in Hx as (e & -> & He), Hy as (e' & -> & He').
    rewrite Forall_forall in Hrange, Hnew. specialize (Hrange e He). specialize (Hnew e' He'). lia.
  - apply Forall_app. split.
    + eapply Forall_impl; [exact Hrange|]. simpl. intros; lia.
    + eapply Forall_impl; [exact Hnew|]. simpl. intros; lia.
  - intros p Hp. rewrite fmap_app. setoid_rewrite elem_of_app.
    destruct (decide (p <= cursor r)) as [Hle|Hgt].
    + destruct (Hcov p ltac:(lia)) as [?|[?|?]]; auto.
    + destruct (decide (p <= start)); [right; right; apply Hskipped; lia|].
      destruct (K4 p last ltac:(lia) Hlast ltac:(lia)); auto.
Qed.

Lemma last_greatest (run : list Raw) d : StronglySorted Z.lt (SyncMsg.logIDof <$> run) -> run <> [] ->
  SyncMsg.logIDof (List.last run d) ∈ SyncMsg.logIDof <$> run /\
  Forall (fun l => l <= SyncMsg.logIDof (List.last run d)) (SyncMsg.logIDof <$> run).
Proof.
  induction run as [|x [|y run] IH]; intros Hs Hne; [done| |].
  - simpl. split; [by left | by repeat constructor].
  - change (List.last (x :: y :: run) d) with (List.last (y :: run) d).
    rewrite fmap_cons in Hs |- *. apply StronglySorted_inv in Hs as [Hs Hlt].
    destruct (IH Hs ltac:(done)) as [Hin Hmax]. split; [by right|]. constructor; [|done].
    rewrite Forall_forall in Hlt. specialize (Hlt _ Hin). lia.
Qed.

Lemma applyBulkRun_ok store r run store' r' :
  (catchUp r = true -> room_ok r /\ run_ok (chatID r) (cursor r) run) ->
  applyBulkRun store r run = (store', Ok r') ->
  static r' = static r /\ (catchUp r = true -> room_ok r').
Proof.
  intros Hok E. unfold applyBulkRun in E. destruct run as [|head tail].
  { injection E as <- <-. split; [done|]. intros Hc. by apply Hok. }
  destruct (catchUp r) eqn:Ec; cbn [negb] in E.
  2: { destruct (saveRun _ _ _) as [st [e|]]; [done|]. injection E as <- <-. split; [done|]. done. }
  destruct (Hok eq_refl) as [Hr Hrun]. destruct (last_greatest (head :: tail) head (proj1 Hrun) ltac:(done)) as [Hin Hmax].
  assert (Hdone : static (set_done true r) = static r /\ (true = true -> room_ok (set_done true r))).
  { split; [done|]. intros _. by apply done_ok. }
  destruct (SyncMsg.PrevID head) as [first|]; [|injection E as <- <-; exact Hdone].
  destruct (first <? cursor r) eqn:Ef; [injection E as <- <-; exact Hdone|]. clear Hdone.
  set (last := SyncMsg.logIDof (List.last (head :: tail) head)) in *.
  assert (Hgo : exists r1 start, (if cursor r <? first then (skipTo first r, first) else (r, cursor r)) = (r1, start) /\
    room_ok r1 /\ static r1 = static r /\ cursor r1 = cursor r /\ cursor r <= start /\
    forall p, cursor r < p <= Z.min start (ceiling r) -> 0 < skipFrom r1 <= p /\ p <= skipThrough r1).
  { destruct (cursor r <? first) eqn:E1.
    - destruct (skip_ok first r Hr ltac:(lia)) as (K1 & K2 & K3 & _ & K4).
      exists (skipTo first r), first. split_and!; try done. lia.
    - exists r, (cursor r). split_and!; try done; lia. }
  destruct Hgo as (r1 & start & Ego & Hr1 & Hst & Hcur & Hstart & Hskip). rewrite Ego in E.
  injection Hst as Hid Hceil Hcu Hgs. rewrite <- Hid, <- Hcur in Hrun. rewrite <- Hceil, <- Hcur in Hskip.
  destruct (runEvents (chatID r1) (ceiling r1) start (head :: tail)) as [[decoded|]|] eqn:Er; [| |done].
  - destruct (saveRun _ _ _) as [st [e|]]; [done|]. injection E as <- <-. split.
    + unfold static. simpl. by rewrite Hid, Hceil, Hcu, Hgs, Ec.
    + intros _. apply (advance_ok r1 start (head :: tail)); try done. lia.
  - injection E as <- <-. split.
    + unfold static. simpl. by rewrite Hid, Hceil, Hcu, Hgs, Ec.
    + intros _. by apply done_ok.
Qed.

(** ** Pages and the chain *)

Definition rooms_ok (rooms : gmap Z chainRoom) : Prop :=
  map_Forall (fun id r => chatID r = id /\ (catchUp r = true -> room_ok r)) rooms.

Lemma applyRuns_ok runs ids : forall store rooms progressed acquired store' rooms' p' a',
  NoDup ids -> rooms_ok rooms ->
  (forall id r, id ∈ ids -> rooms !! id = Some r -> run_ok id (cursor r) (default [] (runs !! id))) ->
  applyRuns store runs rooms progressed acquired ids = (store', Ok (rooms', p', a')) ->
  rooms_ok rooms' /\ static <$> rooms' = static <$> rooms.
Proof.
  induction ids as [|id ids IH]; intros store rooms progressed acquired store' rooms' p' a' Hnd Hok Hrun E;
    cbn [applyRuns] in E; [by simplify_eq|].
  apply NoDup_cons in Hnd as [Hnin Hnd].
  destruct (rooms !! id) as [r|] eqn:Er.
  2: { eapply IH; [done|done| |exact E]. intros id' r' Hin. apply Hrun. by right. }
  destruct (applyBulkRun store r _) as [st [r'|]] eqn:Ea; [|done].
  destruct (Hok id r Er) as [Hid Hr]. subst id.
  apply applyBulkRun_ok in Ea as [Hst Hr'].
  2: { intros Hc. split; [by apply Hr|]. apply Hrun; [by left | done]. }
  assert (Hs := Hst). injection Hst as Hid Hceil Hcu Hgs.
  apply IH in E as [K1 K2]; [..|done| |].
  - split; [done|]. rewrite K2, fmap_insert, Hs. apply insert_id. by rewrite lookup_fmap, Er.
  - intros id r0 [[<- <-]|[Hne Hr0]]%lookup_insert_Some; [|by apply Hok]. split; [done|].
    intros Hc. apply Hr'. congruence.
  - intros id r0 Hin [[<- _]|[Hne Hr0]]%lookup_insert_Some; [done|]. apply Hrun; [by right | done].
Qed.

(** What a chain keeps while it runs: its rooms and each chat at most once in
    [pending], which only has rooms of the chain. *)
Record chain_ok (ch : Chain) : Prop := {
  co_rooms : rooms_ok (ch_rooms ch);
  co_pending : NoDup (ch_pending ch);
  co_known : Forall (fun id => is_Some (ch_rooms ch !! id)) (ch_pending ch);
}.

Lemma static_known (rooms rooms' : gmap Z chainRoom) id :
  static <$> rooms' = static <$> rooms -> is_Some (rooms !! id) -> is_Some (rooms' !! id).
Proof.
  intros E [r Hr]. assert (Hl : (static <$> rooms') !! id = Some (static r)).
  { by rewrite E, lookup_fmap, Hr. }
  rewrite lookup_fmap in Hl. by destruct (rooms' !! id) as [r'|]; [exists r'|].
Qed.

Lemma NoDup_take {A} n (l : list A) : NoDup l -> NoDup (take n l).
Proof. intros Hl. rewrite <- (take_drop n l) in Hl. by apply NoDup_app in Hl as [? _]. Qed.

Lemma chainPage_ok store ch store' ch' b : chain_ok ch ->
  chainPage env store ch = (store', Ok (ch', b)) ->
  chain_ok ch' /\ static <$> ch_rooms ch' = static <$> ch_rooms ch /\ ch_pages ch' = S (ch_pages ch).
Proof.
  intros [Hrooms Hnd Hknown]. unfold chainPage.
  set (ids := take MChatLogs.MaxChats (ch_pending ch)).
  destruct (bulkChatLogs env (ch_pages ch) _) as [response|] eqn:Er; [|done].
  destruct (bulkRuns _ response) as [runs|] eqn:Eg; [|done].
  destruct (applyRuns store runs _ _ _ _) as [st [[[rooms progressed] acquired]|]] eqn:Ea; [|done].
  apply applyRuns_ok in Ea as [K1 K2]; [|by apply NoDup_take|done|].
  2: { intros id r Hin Hr. pose proof (bulkRuns_ok _ _ _ _ _ id Er Eg Hin) as K. simpl in K. by rewrite Hr in K. }
  assert (Hkn : forall l, (forall id, id ∈ l -> id ∈ ch_pending ch) -> Forall (fun id => is_Some (rooms !! id)) l).
  { intros l Hl. apply Forall_forall. intros id Hin. eapply static_known; [exact K2|].
    rewrite Forall_forall in Hknown. apply Hknown. by apply Hl. }
  destruct (match st with Some s => _ | None => _ end) as [st2 [e|]]; [done|].
  destruct (_ && _); intros [= <- <- <-]; (split; [|done]); constructor; simpl; try done.
  - by apply Hkn.
  - by apply NoDup_filter.
  - apply Hkn. intros id Hin. by apply list_elem_of_filter in Hin as [_ ?].
Qed.

Lemma dropHistory_ok ch : chain_ok ch -> chain_ok (dropHistory ch).
Proof.
  intros [Hrooms Hnd Hknown]. constructor; simpl; [done|by apply NoDup_filter|].
  apply Forall_forall. intros id [_ Hin]%list_elem_of_filter. rewrite Forall_forall in Hknown. by apply Hknown.
Qed.

Lemma chainLoop_ok fuel : forall store ch store' ch', chain_ok ch ->
  chainLoop env fuel store ch = Some (store', Ok ch') ->
  chain_ok ch' /\ static <$> ch_rooms ch' = static <$> ch_rooms ch.
Proof.
  induction fuel as [|fuel IH]; intros store ch store' ch' Hok E; cbn [chainLoop] in E; [done|].
  destruct (_ =? 0)%nat; [by simplify_eq|].
  destruct (historySpent env ch).
  { destruct (IH _ _ _ _ (dropHistory_ok _ Hok) E) as [K1 K2]. done. }
  destruct (_ <=? _)%nat; [by simplify_eq|].
  destruct (chainPage env store ch) as [st [[ch1 [|]]|]] eqn:Ep; try done;
    destruct (chainPage_ok _ _ _ _ _ Hok Ep) as (K1 & K2 & _); [|by simplify_eq].
  destruct (IH _ _ _ _ K1 E) as [K3 K4]. split; [done|]. by rewrite K4.
Qed.

(** The chain ends within its fuel, after at most [maxBulkCatchUpPages] pages. *)
Lemma chainLoop_ends fuel : forall store ch,
  (ch_pages ch <= maxBulkCatchUpPages)%nat ->
  (maxBulkCatchUpPages - ch_pages ch + (match ch_history ch with Some _ => 1 | None => 0 end) < fuel)%nat ->
  exists store' r, chainLoop env fuel store ch = Some (store', r) /\
    match r with Ok ch' => (ch_pages ch' <= maxBulkCatchUpPages)%nat | Err _ => True end.
Proof.
  induction fuel as [|fuel IH]; intros store ch Hp Hf; [lia|]. cbn [chainLoop].
  destruct (_ =? 0)%nat; [by eexists _, _|].
  destruct (historySpent env ch) eqn:Eh.
  { apply IH; [done|]. unfold historySpent in Eh. simpl. destruct (ch_history ch); [lia|done]. }
  destruct (_ <=? _)%nat eqn:Em; [by eexists _, _|].
  destruct (chainPage env store ch) as [st [[ch1 b]|]] eqn:Ep; [|by eexists _, _].
  assert (ch_pages ch1 = S (ch_pages ch) /\ ch_history ch1 = ch_history ch) as [Hpg Hh].
  { revert Ep. unfold chainPage. destruct (bulkChatLogs _ _ _); [|done]. destruct (bulkRuns _ _); [|done].
    destruct (applyRuns _ _ _ _ _ _) as [? [[[? ?] ?]|]]; [|done].
    destruct (match _ with Some s => if bool_decide _ then _ else _ | None => _ end) as [? [?|]]; [done|].
    destruct (_ && _); by intros [= <- <- <-]. }
  destruct b; [apply IH; rewrite ?Hpg, ?Hh; lia|]. eexists _, _. split; [done|]. simpl. lia.
Qed.
End Facts.
