(* ===== verification/Demo.v ===== *)
(** * A concrete session

    The client and environments at which the theorems about delivery and
    catch-up are instantiated. *)

From S2P Require Import Prelude.
From S2P Require Import Bytes Bson Events Continuity ContinuitySpec ContinuityProps ContinuityTheorems.
From S2P Require Import Delivery CatchUp BulkCatchUp ProtocolTheorems ClientFacts.
From S2P Require PrivateJson SyncMsg MChatLogs.

#[local] Open Scope list_scope.
#[local] Open Scope Z_scope.

(** No acquired history; projection changes nothing. *)
#[export, refine] Instance demoStore : @AcquiredStore treeBson demoContent := {
  HistoryStore := unit;
  lookup_store s _ := (s, Ok None);
  save s _ _ := (s, None);
  project _ e := Ok e;
  bulkSnapshot _ := ∅;
  commitBulk s _ := (s, None);
}.
Proof. by intros s e e' [= ->]. Defined.

(** Chat 7 is committed through 10 and known through 30; positions 3 to 5 are
    an unresolved gap. *)
Definition demoClient : Client :=
  let s := fst (InstallSession PrivateJson.writeOk freshSys None None [mkChatTarget 7 30] [] false) in
  let s := fst (fst (CommitMessage PrivateJson.writeOk s 7 10)) in
  mkClient false (fst (RecordGap PrivateJson.writeOk s 7 3 5)) ∅.

Lemma demoClient_good : good demoClient.
Proof.
  eexists _, _, _. split; [vm_compute; reflexivity|]. split; [done|]. split.
  - apply validate_wf. vm_compute. reflexivity.
  - repeat constructor. vm_compute. discriminate.
Qed.

(** The server answers the only page with [logs]. *)
Definition demoBulk (logs : list tree) : @BulkEnv treeBson :=
  @mkBulkEnv treeBson
    (fun _ _ => Ok (Tree [("eof"%string, VBoolean true); ("chatLogs"%string, VArray (MarshalArray (VDocument <$> logs)))]))
    (fun _ => false) false false (Ok tt) (Ok tt) (Ok 0) (Ok []) (fun _ _ => PrivateJson.writeOk).

Definition demoMessage (log : Z) : Packet :=
  mkPacket _ "MSG" (Tree [("chatId"%string, VInt64 7); ("chatLog"%string, VDocument (demoLog log 0 "a"))]).

Definition deliverOk : DeliverEnv := mkDeliverEnv true PrivateJson.writeOk true.

Definition demoEvent (log : Z) : @Event treeBson demoContent :=
  @ContentMessage treeBson demoContent 7 log "a"%string.
