(* ===== verification/ClientSteps.v ===== *)
(** * A client's operations, one critical section at a time
      (src/internal/client/client.go, sync.go, bulk_catchup.go)

    [handlePacket], [CommitEvent], [SeedLastMessage], [CatchUp] and
    [CatchUpAll] of Delivery.v, CatchUp.v and BulkCatchUp.v as programs whose
    atomic steps are the sections that the code runs under [Client.mu],
    [commitMu], the checkpoint's lock or the history store's lock, so that they
    can overlap.  The last section shows that a program that runs alone does what
    those definitions say. *)

From S2P Require Import Prelude.
From S2P Require Import Bson Events Continuity Delivery CatchUp BulkCatchUp BulkFacts.
From S2P Require PrivateJson SyncMsg MChatLogs.

Import Programs.

#[local] Open Scope string_scope.
#[local] Open Scope list_scope.
#[local] Open Scope Z_scope.

Section Steps.
Context `{AcquiredStore}.

(** What the operations share, and two logs of it: every position whose commit
    was queued, with who queued it (the stream's worker is [None], the n-th
    call [Some n]), and every position committed. *)
Record Shared := mkShared {
  sh_client : Client;
  sh_store : option HistoryStore;
  sh_queued : list (option nat * (Z * Z));
  sh_acked : list (Z * Z);
}.

Definition with_client c (s : Shared) := mkShared c (sh_store s) (sh_queued s) (sh_acked s).
Definition with_store st (s : Shared) := mkShared (sh_client s) st (sh_queued s) (sh_acked s).

(** [c.mu]: admission of an operation, and whether there is a checkpoint. *)
Definition admitted (c : Client) : option ClientError :=
  if closed c then Some ErrClientClosed
  else match sys_store (checkpoint c) with None => Some ErrProtocol | Some _ => None end.

Definition admission : prog Shared (option ClientError) := act (fun s => (s, admitted (sh_client s))).

(** [checkpointWrite]: admission, then the write under the checkpoint's lock. *)
Definition writeSteps (fn : Sys -> Sys * option Continuity.Error) : prog Shared (option ClientError) :=
  step! refused := admission in
  match refused with
  | Some e => Done (Some e)
  | None => act (fun s => let '(sys, err) := fn (checkpoint (sh_client s)) in
                          (with_client (set_checkpoint sys (sh_client s)) s, ErrContinuity <$> err))
  end.

(** [queueCommit], under [commitMu]. *)
Definition queueStep (src : option nat) (p : Z * Z) : prog Shared unit :=
  act (fun s => (mkShared (queueCommit (sh_client s) (fst p) (snd p)) (sh_store s)
                   (sh_queued s ++ [(src, p)]) (sh_acked s), tt)).

Fixpoint queueSteps (src : option nat) (evs : list Event) : prog Shared unit :=
  match evs with
  | [] => Done tt
  | event :: evs =>
      step! _ := queueStep src (default (0, 0) (MessagePosition event)) in queueSteps src evs
  end.

Definition closeStep : prog Shared unit := act (fun s => (with_client (interruptTerminal (sh_client s)) s, tt)).

Definition snapshotStep : prog Shared Checkpoint := act (fun s => (s, snapshot (sh_client s))).

(** One call of the history store, under its lock; [absent] without one. *)
Definition storeStep {A} (f : HistoryStore -> HistoryStore * A) (absent : A) : prog Shared A :=
  act (fun s => match sh_store s with
                | Some h => let '(h, a) := f h in (with_store (Some h) s, a)
                | None => (s, absent)
                end).

(** ** The stream's worker *)

Definition packetSteps (env : DeliverEnv) (st : Stream) (packet : Packet)
  : prog Shared (Stream * list Result * bool) :=
  let stop e := step! _ := closeStep in Done (st, emit env (ErrResult e), false) in
  match DecodeForDelivery packet with
  | Err e =>
      if String.eqb (Method packet) "MSG" || match e with ErrUnidentifiableMembership => true | _ => false end
      then stop (DecodeFailed e)
      else Done (st, emit env (ErrResult (DecodeFailed e)), de_emitted env)
  | Ok event =>
      if negb (de_observed env) then stop ObserverFailed else
      let emitEvent st :=
        if isTerminal event
        then step! _ := closeStep in Done (st, emit env (EventResult event), false)
        else Done (st, emit env (EventResult event), de_emitted env) in
      match MessagePosition event with
      | None => emitEvent st
      | Some (chatID, logID) =>
          step! committed :=
            act (fun s => (s, IsCommitted (sys_store (checkpoint (sh_client s))) chatID logID)) in
          if (committed : bool) then Done (st, [], true)
          else if bool_decide ((chatID, logID) ∈ seen st) then Done (st, [], true)
          else
            step! err := act (fun s =>
              let c := sh_client s in
              let '(sys, err) :=
                match sys_store (checkpoint c) with
                | None => (checkpoint c, None)
                | Some _ => RecordDeliveryStart (de_write env) (checkpoint c) chatID logID
                end in
              (with_client (set_checkpoint sys c) s, err)) in
            match err with
            | Some e => stop (PersistFailed e)
            | None =>
                step! _ := queueStep None (chatID, logID) in
                emitEvent (remember st (chatID, logID))
            end
      end
  end.

(** ** Commits and seeding *)

(** [CommitEvent] once admitted, under [commitMu]. *)
Definition commitQueued (env : PrivateJson.WriteEnv) (c : Client) (chatID logID : Z)
  : Client * option ClientError :=
  match pending c chatID with
  | [] => (c, Some errCommitOrder)
  | head :: rest =>
      if negb (head =? logID) then (c, Some errCommitOrder) else
      let '(sys, _, err) := CommitMessage env (checkpoint c) chatID logID in
      let c := set_checkpoint sys c in
      match err with
      | Some e => (c, Some (ErrContinuity e))
      | None =>
          (match rest with
           | [] => set_pending (delete chatID (pendingCommits c)) c
           | _ => set_pending (<[chatID := rest]> (pendingCommits c)) c
           end, None)
      end
  end.

Definition commitSteps (env : PrivateJson.WriteEnv) (event : Event) : prog Shared (option ClientError) :=
  match MessagePosition event with
  | None => Done (Some ErrProtocol)
  | Some (chatID, logID) =>
      step! refused := admission in
      match refused with
      | Some e => Done (Some e)
      | None => act (fun s =>
          let '(c, err) := commitQueued env (sh_client s) chatID logID in
          (mkShared c (sh_store s) (sh_queued s)
             (sh_acked s ++ match err with None => [(chatID, logID)] | Some _ => [] end), err))
      end
  end.

(** The end of [SeedLastMessage], under [commitMu]. *)
Definition seedQueue (src : option nat) (chatID logID : Z) (event : Event) (s : Shared)
  : Shared * res ClientError (option Event) :=
  let c := sh_client s in
  if (0 <? length (pending c chatID))%nat then (s, Ok None)
  else (mkShared (set_pending (<[chatID := [logID]]> (pendingCommits c)) c) (sh_store s)
          (sh_queued s ++ [(src, (chatID, logID))]) (sh_acked s), Ok (Some event)).

Definition seedSteps (src : option nat) (chatID : Z) (last : option Raw) (accept : Event -> bool)
  : prog Shared (res ClientError (option Event)) :=
  if chatID <=? 0 then Done (Err ErrProtocol) else
  match last with
  | None => Done (Ok None)
  | Some lastChatLog =>
      step! refused := admission in
      match refused with
      | Some e => Done (Err e)
      | None =>
          step! state := snapshotStep in
          if (0 <? CommittedMax state chatID) || (0 <? FirstDeliveryStart state chatID) then Done (Ok None)
          else
            match DecodeChatLog chatID lastChatLog with
            | Err e => Done (Err (ErrEvent e))
            | Ok event =>
                match MessagePosition event with
                | Some (chat, logID) =>
                    if negb (chat =? chatID) then Done (Err ErrProtocol)
                    else if negb (accept event) then Done (Ok None)
                    else act (seedQueue src chatID logID event)
                | None => Done (Err ErrProtocol)
                end
            end
      end
  end.

(** ** One chat *)

Fixpoint projectSteps (evs : list Event) : prog Shared (res ClientError (list Event)) :=
  match evs with
  | [] => Done (Ok [])
  | event :: rest =>
      step! current := storeStep (fun h => (h, project h event)) (Ok event) in
      match current with
      | Err e => Done (Err e)
      | Ok current =>
          step! out := projectSteps rest in
          Done (let! out := out in Ok (current :: out))
      end
  end.

(** A lookup and a save of acquired pages. *)
Definition lookupStep (request : SyncMsg.Request) : prog Shared (res ClientError (option SyncMsg.Response)) :=
  storeStep (fun h => lookup_store h request) (Ok None).

Definition saveStep (request : SyncMsg.Request) (response : SyncMsg.Response) : prog Shared (option ClientError) :=
  storeStep (fun h => save h request response) None.

(** [syncMessages] of a client.  [fetch] looks the page up again once it has its
    turn; a closed client is refused, by [ensureSession] where not at once. *)
Definition syncSteps (exchange : nat -> SyncMsg.Request -> res ClientError Raw) (n : nat)
    (request : SyncMsg.Request) : prog Shared (res ClientError SyncMsg.Response) :=
  step! open := act (fun s => (s, (closed (sh_client s), present (sh_store s)))) in
  let '(shut, stored) := open : bool * bool in
  if shut then Done (Err ErrClientClosed) else
  if negb (stored && (SyncMsg.Count request =? 0)) then Done (fetchPage exchange n request) else
  match SyncMsg.Request_MarshalBSON request with
  | Err e => Done (Err (ErrSync e))
  | Ok _ =>
      step! cached := lookupStep request in
      match cached with
      | Err e => Done (Err e)
      | Ok (Some page) => Done (Ok page)
      | Ok None =>
          step! cached := lookupStep request in
          match cached with
          | Err e => Done (Err e)
          | Ok (Some page) => Done (Ok page)
          | Ok None =>
              match fetchPage exchange n request with
              | Err e => Done (Err e)
              | Ok response =>
                  step! err := saveStep request response in
                  match err with
                  | Some e => Done (Err e)
                  | None =>
                      step! projected := lookupStep request in
                      Done (let! projected := projected in
                            match projected with
                            | Some page => Ok page
                            | None => Err ErrHistoryTargetUnresolved
                            end)
                  end
              end
          end
      end
  end.

Section One.
Context (src : option nat) (exchange : nat -> SyncMsg.Request -> res ClientError Raw).
Context (env : PrivateJson.WriteEnv) (state : Checkpoint) (chatID gapStart targetMax : Z).

Definition recordSteps : prog Shared (option ClientError) :=
  writeSteps (fun sys => RecordGap env sys chatID gapStart targetMax).

Definition resolveSteps : prog Shared (option ClientError) :=
  if HasGapThrough state chatID targetMax
  then writeSteps (fun sys => ResolveGapThrough env sys chatID targetMax) else Done None.

Definition unresolvedSteps : prog Shared (res ClientError (list Event)) :=
  step! err := recordSteps in Done (Err (join ErrGapUnresolved err)).

Fixpoint pagesSteps (pages : nat) (current : Z) (result : list Event) : prog Shared (res ClientError (list Event)) :=
  match pages with
  | O => unresolvedSteps
  | S pages =>
      step! page := syncSteps exchange (maxCatchUpPages - S pages) (SyncMsg.mkRequest chatID current targetMax 0) in
      match page with
      | Err e =>
          if isGapUnresolved e then step! persistErr := recordSteps in Done (Err (join e persistErr))
          else Done (Err e)
      | Ok page =>
          match pageLogs chatID targetMax current false result (SyncMsg.ChatLogs page) with
          | Err e => Done (Err e)
          | Ok (current, progressed, result) =>
              if current =? targetMax then
                step! projected := projectSteps result in
                match projected with
                | Err projectionErr =>
                    step! persistErr := recordSteps in
                    Done (Err (join (Joined ErrGapUnresolved projectionErr) persistErr))
                | Ok result =>
                    step! err := resolveSteps in
                    match err with
                    | Some e => Done (Err e)
                    | None => step! _ := queueSteps src result in Done (Ok result)
                    end
                end
              else if negb progressed then unresolvedSteps
              else pagesSteps pages current result
          end
      end
  end.
End One.

Definition catchUpSteps (src : option nat) (exchange : nat -> SyncMsg.Request -> res ClientError Raw)
    (env : PrivateJson.WriteEnv) (chatID targetMax : Z) : prog Shared (res ClientError (list Event)) :=
  if (chatID <=? 0) || (targetMax <=? 0) then Done (Err ErrProtocol) else
  step! refused := admission in
  match refused with
  | Some e => Done (Err e)
  | None =>
      step! state := snapshotStep in
      let current := resumeCursor state chatID in
      if targetMax <=? current then
        step! err := resolveSteps env state chatID targetMax in
        Done (match err with Some e => Err e | None => Ok [] end)
      else pagesSteps src exchange env state chatID (current + 1) targetMax maxCatchUpPages current []
  end.

(** ** All chats *)

Section Bulk.
Context (src : option nat) (env : BulkEnv).

(** Applying a run uses the store once, to save it. *)
Definition runStep (room : chainRoom) (run : list Raw) : prog Shared (res ClientError chainRoom) :=
  act (fun s => let '(store, r) := applyBulkRun (sh_store s) room run in (with_store store s, r)).

Fixpoint runsSteps (runs : gmap Z (list Raw)) (rooms : gmap Z chainRoom) (progressed : bool)
    (acquired : gmap Z Z) (ids : list Z) : prog Shared (res ClientError (gmap Z chainRoom * bool * gmap Z Z)) :=
  match ids with
  | [] => Done (Ok (rooms, progressed, acquired))
  | id :: ids =>
      match rooms !! id with
      | None => runsSteps runs rooms progressed acquired ids
      | Some room =>
          step! applied := runStep room (default [] (runs !! id)) in
          match applied with
          | Err e => Done (Err e)
          | Ok room' =>
              runsSteps runs (<[id := room']> rooms)
                (progressed || (cursor room <? cursor room') || negb (Bool.eqb (done room') (done room)))
                (if (cursor room <? cursor room') && negb (catchUp room')
                 then <[id := cursor room']> acquired else acquired) ids
          end
      end
  end.

Definition pageSteps (ch : Chain) : prog Shared (res ClientError (Chain * bool)) :=
  let ids := take MChatLogs.MaxChats (ch_pending ch) in
  match bulkChatLogs env (ch_pages ch) (pageRequest ch ids) with
  | Err e => Done (Err e)
  | Ok response =>
      match bulkRuns (pageRequest ch ids) response with
      | Err e => Done (Err e)
      | Ok runs =>
          step! applied := runsSteps runs (ch_rooms ch) false ∅ ids in
          match applied with
          | Err e => Done (Err e)
          | Ok (rooms, progressed, acquired) =>
              step! err := (if bool_decide (acquired = ∅) then Done None
                            else storeStep (fun h => commitBulk h acquired) None) in
              match err with
              | Some e => Done (Err e)
              | None =>
                  let retired := retiredIDs response ids in
                  let ch' pending := mkChain rooms pending (ch_history ch) (S (ch_pages ch))
                    (ch_logs ch + length (MChatLogs.ChatLogs response)) (ch_historyPending ch) in
                  if (length retired =? 0)%nat && negb progressed
                  then Done (Ok (ch' (ch_pending ch), false))
                  else Done (Ok (ch' (filter (fun id => isDone rooms id = false /\ id ∉ retired)
                                        (ch_pending ch)), true))
              end
          end
      end
  end.

Fixpoint chainSteps (fuel : nat) (ch : Chain) : prog Shared (option (res ClientError Chain)) :=
  match fuel with
  | O => Done None
  | S fuel =>
      if (length (ch_pending ch) =? 0)%nat then Done (Some (Ok ch))
      else if historySpent env ch then chainSteps fuel (dropHistory ch)
      else if (maxBulkCatchUpPages <=? ch_pages ch)%nat then Done (Some (Ok ch))
      else
        step! page := pageSteps ch in
        match page with
        | Err e => Done (Some (Err e))
        | Ok (ch, true) => chainSteps fuel ch
        | Ok (ch, false) => Done (Some (Ok ch))
        end
  end.

Definition roomSteps (state : Checkpoint) (room : chainRoom) : prog Shared (res ClientError CaughtUpRoom) :=
  let id := chatID room in
  step! out := projectSteps (events room) in
  let '(projected, cursor, skipFrom) :=
    match out with
    | Ok projected => (projected, cursor room, skipFrom room)
    | Err _ => ([], gapStart room - 1, 0)
    end in
  let unresolved := cursor <? ceiling room in
  let skipped := 0 <? skipFrom in
  step! err := (if skipped then recordSteps (be_write env id false) id skipFrom (skipThrough room) else Done None) in
  match err with
  | Some e => Done (Err e)
  | None =>
      step! err := (if unresolved then recordSteps (be_write env id true) id (cursor + 1) (ceiling room)
                    else if negb skipped then resolveSteps (be_write env id true) state id (ceiling room)
                    else Done None) in
      match err with
      | Some e => Done (Err e)
      | None =>
          step! _ := queueSteps src projected in
          Done (Ok (mkCaughtUpRoom id (ceiling room) projected skipped unresolved))
      end
  end.

Fixpoint roomsSteps (state : Checkpoint) (rooms : list chainRoom) : prog Shared (res ClientError (list CaughtUpRoom)) :=
  match rooms with
  | [] => Done (Ok [])
  | room :: rooms =>
      step! out := roomSteps state room in
      match out with
      | Err e => Done (Err e)
      | Ok out =>
          step! outs := roomsSteps state rooms in
          Done (let! outs := outs in Ok (out :: outs))
      end
  end.

(** The turn of a chain among several is the environment's [be_turn]. *)
Definition catchUpAllSteps (options : option StartupHistoryOptions)
  : prog Shared (res ClientError CatchUpResult) :=
  match match options with
        | None => Ok None
        | Some o => match normalized o with Ok o => Ok (Some o) | Err e => Err e end
        end with
  | Err e => Done (Err e)
  | Ok history =>
      step! refused := act (fun s => (s,
        match admitted (sh_client s) with
        | Some e => Some e
        | None => if present history && (negb (present (sh_store s)) || negb (be_admission env))
                  then Some ErrProtocol else None
        end)) in
      match refused with
      | Some e => Done (Err e)
      | None =>
          if be_busy env then Done (Err ErrHistoryBusy) else
          match be_turn env with
          | Err e => Done (Err e)
          | Ok _ =>
              step! state := snapshotStep in
              step! selected := act (fun s => (s, selectBulkRooms env state (sh_store s) history)) in
              match selected with
              | Err e => Done (Err e)
              | Ok rooms =>
                  let pending := filter (fun id => isDone rooms id = false) (sortedIDs rooms) in
                  step! chain := chainSteps chainFuel (mkChain rooms pending history 0 0 0) in
                  match chain with
                  | None => Done (Err ErrProtocol)
                  | Some (Err e) => Done (Err e)
                  | Some (Ok ch) =>
                      step! state := snapshotStep in
                      step! out := roomsSteps state (catchUpRooms (ch_rooms ch)) in
                      Done (let! out := out in
                        Ok (mkCatchUpResult out (ch_pages ch) (ch_logs ch)
                          (ch_historyPending ch + countHistoryRooms (ch_rooms ch) (ch_pending ch))))
                  end
              end
          end
      end
  end.
End Bulk.

(** ** Alone *)

(** [s] with the client, the store and what was queued replaced. *)
Definition left (s : Shared) c store q := mkShared c store (sh_queued s ++ q) (sh_acked s).

Lemma left_same s : left s (sh_client s) (sh_store s) [] = s.
Proof. unfold left. rewrite app_nil_r. by destruct s. Qed.

Lemma left_left s c1 st1 q1 c2 st2 q2 : left (left s c1 st1 q1) c2 st2 q2 = left s c2 st2 (q1 ++ q2).
Proof. unfold left. simpl. by rewrite <- app_assoc. Qed.

(** Alone, [p] does to [s] what is described by [o], and queues something. *)
Definition does {A} (p : prog Shared A) (s : Shared) (o : Client * option HistoryStore * A) : Prop :=
  exists q, run p s = (left s (fst (fst o)) (snd (fst o)) q, snd o).

Lemma does_done {A} (a : A) s : does (Done a) s (sh_client s, sh_store s, a).
Proof. exists []. simpl. by rewrite left_same. Qed.

Lemma does_then {A B} (p : prog Shared A) (f : A -> prog Shared B) s c store a o :
  does p s (c, store, a) -> (forall q, does (f a) (left s c store q) o) -> does (andThen p f) s o.
Proof.
  intros [q1 E1] Hf. destruct (Hf q1) as [q2 E2]. exists (q1 ++ q2). rewrite run_andThen, E1. simpl.
  rewrite E2. by rewrite left_left.
Qed.

Lemma does_write fn s c err : checkpointWrite (sh_client s) fn = (c, err) ->
  does (writeSteps fn) s (c, sh_store s, err).
Proof.
  unfold checkpointWrite, writeSteps, admission. intros E. exists []. rewrite run_act. simpl. unfold admitted.
  destruct (closed (sh_client s)); [injection E as <- <-; simpl; by rewrite left_same|].
  destruct (sys_store _); [|injection E as <- <-; simpl; by rewrite left_same]. simpl.
  destruct (fn (checkpoint (sh_client s))) as [sys e]. injection E as <- <-. simpl.
  unfold left, with_client. by rewrite app_nil_r.
Qed.

Lemma does_queue src evs : forall s, does (queueSteps src evs) s (queueEvents (sh_client s) evs, sh_store s, tt).
Proof.
  induction evs as [|e evs IH]; intros s; [apply does_done|]. cbn [queueSteps queueEvents foldl].
  destruct (default (0, 0) (MessagePosition e)) as [id log].
  eapply (does_then _ _ _ (queueCommit (sh_client s) id log) (sh_store s) tt); [by exists [(src, (id, log))]|].
  intros q. exact (IH (left s _ _ q)).
Qed.

Lemma does_project evs : forall s, does (projectSteps evs) s (sh_client s, sh_store s, projectAcquiredEvents (sh_store s) evs).
Proof.
  induction evs as [|e evs IH]; intros s; [replace (projectAcquiredEvents _ _) with (Ok [] : res ClientError (list Event)) by (by destruct (sh_store s)); apply does_done|].
  cbn [projectSteps]. unfold storeStep, act. destruct (sh_store s) as [h|] eqn:Es; cbn [projectAcquiredEvents projectAll].
  - eapply (does_then _ _ _ (sh_client s) (Some h) (project h e)).
    { exists []. simpl. rewrite Es. simpl. unfold left, with_store. by rewrite app_nil_r. }
    intros q. destruct (project h e) as [current|err]; [|exact (does_done (Err err) (left s _ (Some h) q))].
    eapply does_then; [exact (IH (left s _ (Some h) q))|]. intros q'. simpl. destruct (projectAll h evs); apply (does_done _ (left (left s _ _ _) _ (Some h) q')).
  - eapply (does_then _ _ _ (sh_client s) None (Ok e)).
    { exists []. simpl. rewrite Es. unfold left. rewrite app_nil_r. destruct s. simpl in *. by subst. }
    intros q. eapply does_then; [exact (IH (left s _ None q))|]. intros q'. apply (does_done _ (left (left s _ _ _) _ None q')).
Qed.

Lemma does_read {A} (f : Shared -> A) s : does (act (fun s => (s, f s))) s (sh_client s, sh_store s, f s).
Proof. exists []. simpl. by rewrite left_same. Qed.

Lemma does_if {A} (b : bool) (p q : prog Shared A) s o :
  (b = true -> does p s o) -> (b = false -> does q s o) -> does (if b then p else q) s o.
Proof. destruct b; auto. Qed.

Lemma does_record env id from to s c err : recordGap env (sh_client s) id from to = (c, err) ->
  does (recordSteps env id from to) s (c, sh_store s, err).
Proof. apply does_write. Qed.

Lemma does_resolve env state id to s c err :
  (if HasGapThrough state id to then resolveGap env (sh_client s) id to else (sh_client s, None)) = (c, err) ->
  does (resolveSteps env state id to) s (c, sh_store s, err).
Proof.
  unfold resolveSteps. destruct (HasGapThrough _ _ _); [apply does_write|]. intros [= <- <-]. apply does_done.
Qed.

Lemma does_unresolved env id from to s c e : unresolved env (sh_client s) id from to = (c, e) ->
  does (unresolvedSteps env id from to) s (c, sh_store s, Err e).
Proof.
  unfold unresolved, unresolvedSteps. destruct (recordGap _ _ _ _ _) as [c1 err] eqn:E. intros [= <- <-].
  eapply does_then; [by apply does_record|]. intros q. apply (does_done _ (left s c1 (sh_store s) q)).
Qed.

(** The code looks a page up again when it has its turn to fetch it; alone, nothing
    is found again where nothing was found. *)
Context (lookup_again : forall h request h', lookup_store h request = (h', Ok None) ->
  lookup_store h' request = (h', Ok None)).

Lemma does_lookup request s h h' r : sh_store s = Some h -> lookup_store h request = (h', r) ->
  does (lookupStep request) s (sh_client s, Some h', r).
Proof.
  intros Es E. exists []. unfold lookupStep, storeStep. simpl. rewrite Es, E. unfold left, with_store. by rewrite app_nil_r.
Qed.

Lemma does_save request response s h h' r : sh_store s = Some h -> save h request response = (h', r) ->
  does (saveStep request response) s (sh_client s, Some h', r).
Proof.
  intros Es E. exists []. unfold saveStep, storeStep. simpl. rewrite Es, E. unfold left, with_store. by rewrite app_nil_r.
Qed.

Ltac ends := match goal with |- does (Done ?a) ?s _ => exact (does_done a s) end.

Lemma does_sync exchange n request s :
  closed (sh_client s) = false ->
  does (syncSteps exchange n request) s
    (sh_client s, fst (syncMessages exchange (sh_store s) n request), snd (syncMessages exchange (sh_store s) n request)).
Proof.
  intros Hc. unfold syncSteps, syncMessages.
  eapply does_then; [exact (does_read (fun s => (closed (sh_client s), present (sh_store s))) s)|]. intros q. cbn beta iota.
  rewrite Hc. destruct (sh_store s) as [h|] eqn:Es; cbn [present andb negb]; [|ends].
  destruct (SyncMsg.Count request =? 0); cbn [negb]; [|ends].
  destruct (SyncMsg.Request_MarshalBSON request); [|ends].
  destruct (lookup_store h request) as [h1 [[page|]|e]] eqn:E1;
    (eapply does_then; [by eapply does_lookup|]); intros q1; cbn beta iota; cbn [fst snd]; try ends.
  eapply does_then; [eapply does_lookup; [done|by apply lookup_again in E1]|]. intros q2. cbn beta iota.
  destruct (fetchPage exchange n request) as [response|e]; [|ends].
  destruct (save h1 request response) as [h2 [e|]] eqn:E2; (eapply does_then; [by eapply does_save|]); intros q3;
    cbn beta iota; cbn [fst snd]; [ends|].
  destruct (lookup_store h2 request) as [h3 r] eqn:E3. eapply does_then; [by eapply does_lookup|]. intros q4.
  destruct r as [[page|]|e]; cbn; ends.
Qed.

(** [CatchUp] alone. *)
Lemma does_pages src exchange env state id from to pages : forall current evs s,
  closed (sh_client s) = false ->
  does (pagesSteps src exchange env state id from to pages current evs) s
    (catchUpPages exchange env pages (sh_client s) (sh_store s) state id from to current evs).
Proof.
  induction pages as [|pages IH]; intros current evs s Hc; cbn [pagesSteps catchUpPages].
  { destruct (unresolved _ _ _ _ _) as [c e] eqn:E. by apply does_unresolved. }
  eapply does_then; [by apply does_sync|]. intros q. destruct (syncMessages _ _ _ _) as [st r]. cbn [fst snd].
  destruct r as [page|e].
  2: { destruct (isGapUnresolved e); [|ends]. destruct (recordGap _ _ _ _ _) as [c err] eqn:E.
       eapply does_then; [by apply does_record|]. intros q'. ends. }
  destruct (pageLogs _ _ _ _ _ _) as [[[cur progressed] evs']|e]; [|ends].
  destruct (cur =? to).
  - eapply does_then; [apply does_project|]. intros q1. cbn [sh_store left].
    destruct (projectAcquiredEvents st evs') as [out|pe].
    2: { destruct (recordGap _ _ _ _ _) as [c err] eqn:E. eapply does_then; [by apply does_record|]. intros q2. ends. }
    destruct (if HasGapThrough state id to then _ else _) as [c [e|]] eqn:E;
      (eapply does_then; [by apply does_resolve|]); intros q2; cbn beta iota; [ends|].
    eapply does_then; [apply does_queue|]. intros q3. ends.
  - destruct (negb progressed); [|by apply (IH cur evs' (left s _ st q))].
    destruct (unresolved _ _ _ _ _) as [c e] eqn:E. by apply does_unresolved.
Qed.

Lemma does_admission s : does admission s (sh_client s, sh_store s, admitted (sh_client s)).
Proof. exact (does_read (fun s => admitted (sh_client s)) s). Qed.

Theorem does_CatchUp src exchange env id to s :
  does (catchUpSteps src exchange env id to) s (CatchUp exchange env (sh_client s) (sh_store s) id to).
Proof.
  unfold catchUpSteps, CatchUp. apply does_if; intros E0; rewrite E0; clear E0; [ends|].
  eapply does_then; [apply does_admission|]. intros q. unfold admitted.
  destruct (closed (sh_client s)) eqn:Ec; [ends|]. destruct (sys_store _); [|ends].
  eapply does_then; [exact (does_read (fun s => snapshot (sh_client s)) _)|]. intros q1. cbn [sh_client left].
  destruct (to <=? _).
  - destruct (if HasGapThrough _ id to then _ else _) as [c [e|]] eqn:E;
      (eapply does_then; [by apply does_resolve|]); intros q2; ends.
  - exact (does_pages src exchange env _ id _ to _ _ [] (left (left s _ _ q) _ _ q1) Ec).
Qed.

(** The worker's packet, a commit and a seed, alone. *)
Theorem does_handlePacket env st packet s :
  does (packetSteps env st packet) s
    (let '(c, st, out, go) := handlePacket env (sh_client s) st packet in (c, sh_store s, (st, out, go))).
Proof.
  assert (Hstop : forall s (st : Stream) (out : list Result), does (step! _ := closeStep in Done (st, out, false)) s
    (interruptTerminal (sh_client s), sh_store s, (st, out, false))).
  { intros s' st' out. exists []. simpl. unfold left, with_client. by rewrite app_nil_r. }
  unfold packetSteps, handlePacket. destruct (DecodeForDelivery packet) as [event|e];
    [|destruct (_ || _); [apply Hstop|ends]].
  destruct (negb (de_observed env)); [apply Hstop|].
  destruct (MessagePosition event) as [[id log]|]; [|destruct (isTerminal event); [apply Hstop|ends]].
  eapply does_then;
    [exact (does_read (fun s => IsCommitted (sys_store (checkpoint (sh_client s))) id log) s)|].
  intros q. destruct (IsCommitted _ id log); [ends|].
  destruct (bool_decide _); [ends|].
  destruct (match sys_store (checkpoint (sh_client s)) with None => _ | Some _ => _ end) as [sys err] eqn:E.
  eapply (does_then _ _ _ (set_checkpoint sys (sh_client s)) (sh_store s) err).
  { exists []. simpl. rewrite E. unfold left, with_client. simpl. by rewrite app_nil_r. }
  intros q1. destruct err as [e|]; [exact (Hstop (left (left s _ _ q) _ _ q1) st _)|].
  eapply (does_then _ _ _ (queueCommit (set_checkpoint sys (sh_client s)) id log) (sh_store s) tt);
    [by exists [(None, (id, log))]|].
  intros q2. destruct (isTerminal event); [exact (Hstop (left _ _ _ q2) _ _)|].
  exact (does_done (remember st (id, log), _, _) (left _ _ _ q2)).
Qed.

Theorem does_CommitEvent env event s c err :
  CommitEvent env (sh_client s) event = (c, err) ->
  run (commitSteps env event) s = (mkShared c (sh_store s) (sh_queued s)
    (sh_acked s ++ match err with None => [default (0, 0) (MessagePosition event)] | Some _ => [] end), err).
Proof.
  assert (Hsame : forall e, (s, Some e) = (mkShared (sh_client s) (sh_store s) (sh_queued s)
    (sh_acked s ++ []), Some e : option ClientError)) by (intros e; rewrite app_nil_r; by destruct s).
  unfold commitSteps, CommitEvent. destruct (MessagePosition event) as [[id log]|]; [|intros [= <- <-]; apply Hsame].
  unfold admission. rewrite run_act. cbn [fst snd]. unfold admitted.
  destruct (closed _); [intros [= <- <-]; apply Hsame|].
  destruct (sys_store _); [|intros [= <- <-]; apply Hsame].
  cbn [act run]. change (match pending (sh_client s) id with [] => _ | _ => _ end)
    with (commitQueued env (sh_client s) id log). by intros ->.
Qed.

Theorem does_SeedLastMessage src id last accept s :
  does (seedSteps src id last accept) s
    (let '(c, r) := SeedLastMessage (sh_client s) id last accept in (c, sh_store s, r)).
Proof.
  unfold seedSteps, SeedLastMessage. destruct (id <=? 0); [ends|]. destruct last as [log|]; [|ends].
  eapply does_then; [apply does_admission|]. intros q. unfold admitted.
  destruct (closed _); [ends|]. destruct (sys_store (checkpoint (sh_client s))) as [st|] eqn:Es; [|ends].
  eapply does_then; [exact (does_read (fun s => snapshot (sh_client s)) _)|]. intros q1. cbn [sh_client left].
  replace (snapshot (sh_client s)) with (Snapshot (Some st)) by (unfold snapshot; by rewrite Es).
  destruct (_ || _); [ends|]. destruct (DecodeChatLog id log) as [event|e]; [|ends].
  destruct (MessagePosition event) as [[chat logID]|]; [|ends].
  destruct (negb (chat =? id)); [ends|]. destruct (negb (accept event)); [ends|].
  unfold seedQueue, act, does. simpl. destruct (0 <? length (pending (sh_client s) id))%nat; simpl.
  - exists []. unfold left. simpl. by rewrite !app_nil_r.
  - by exists [(src, (id, logID))].
Qed.

(** [CatchUpAll] alone. *)
Lemma does_runs runs ids : forall rooms progressed acquired s,
  does (runsSteps runs rooms progressed acquired ids) s
    (sh_client s, fst (applyRuns (sh_store s) runs rooms progressed acquired ids),
     snd (applyRuns (sh_store s) runs rooms progressed acquired ids)).
Proof.
  induction ids as [|id ids IH]; intros rooms progressed acquired s; cbn [runsSteps applyRuns]; [ends|].
  destruct (rooms !! id) as [room|]; [|apply IH].
  destruct (applyBulkRun (sh_store s) room (default [] (runs !! id))) as [st r] eqn:E.
  eapply (does_then _ _ _ (sh_client s) st r).
  { exists []. unfold runStep. simpl. rewrite E. unfold left, with_store. by rewrite app_nil_r. }
  intros q. destruct r as [room'|e]; [|ends]. exact (IH _ _ _ (left s _ st q)).
Qed.

Lemma does_page env ch s :
  does (pageSteps env ch) s
    (sh_client s, fst (chainPage env (sh_store s) ch), snd (chainPage env (sh_store s) ch)).
Proof.
  unfold pageSteps, chainPage. destruct (bulkChatLogs _ _ _) as [response|e]; [|ends].
  destruct (bulkRuns _ _) as [runs|e]; [|ends]. eapply does_then; [apply does_runs|]. intros q.
  destruct (applyRuns _ _ _ _ _ _) as [st r]. cbn [fst snd].
  destruct r as [[[rooms progressed] acquired]|e]; [|ends].
  set (o := match st with Some s => _ | None => _ end).
  eapply (does_then _ _ _ (sh_client s) (fst o) (snd o)).
  - subst o. destruct (bool_decide (acquired = ∅)).
    + destruct st; ends.
    + exists []. unfold storeStep, act. simpl. destruct st as [h|]; simpl; [|unfold left; by rewrite !app_nil_r].
      destruct (commitBulk h acquired). simpl. unfold left, with_store. simpl. by rewrite !app_nil_r.
  - intros q1. destruct o as [st2 [e|]]; cbn [fst snd]; [ends|]. apply does_if; intros E; rewrite E; ends.
Qed.

Lemma does_chain env fuel : forall ch s st r,
  chainLoop env fuel (sh_store s) ch = Some (st, r) -> does (chainSteps env fuel ch) s (sh_client s, st, Some r).
Proof.
  induction fuel as [|fuel IH]; intros ch s st r; cbn [chainSteps chainLoop]; [done|].
  destruct (_ =? 0)%nat; [intros [= <- <-]; ends|]. destruct (historySpent _ _); [apply IH|].
  destruct (_ <=? _)%nat; [intros [= <- <-]; ends|].
  pose proof (does_page env ch s) as Hp. destruct (chainPage env (sh_store s) ch) as [st1 r1]. cbn [fst snd] in Hp.
  intros E. eapply does_then; [exact Hp|]. intros q.
  destruct r1 as [[ch1 b]|e]; [destruct b|]; [exact (IH ch1 (left s _ st1 q) st r E)|injection E as <- <-; ends..].
Qed.

Lemma does_room src env state room s :
  does (roomSteps src env state room) s
    (let '(c, r) := finishRoom env (sh_store s) state (sh_client s) room in (c, sh_store s, r)).
Proof.
  unfold roomSteps, finishRoom. eapply does_then; [apply does_project|]. intros q.
  destruct (match projectAcquiredEvents _ _ with Ok p => _ | Err _ => _ end) as [[evs cur] skip].
  destruct (if 0 <? skip then recordGap _ _ _ _ _ else _) as [c1 err1] eqn:E1. eapply (does_then _ _ _ c1 (sh_store s) err1).
  { destruct (0 <? skip); [exact (does_record _ _ _ _ (left s _ _ q) _ _ E1)|]. injection E1 as <- <-. ends. }
  intros q1. destruct err1 as [e|]; [ends|].
  destruct (if cur <? ceiling room then recordGap _ _ _ _ _ else _) as [c2 err2] eqn:E2. eapply (does_then _ _ _ c2 (sh_store s) err2).
  { destruct (cur <? _); [exact (does_record _ _ _ _ (left (left s _ _ q) _ _ q1) _ _ E2)|].
    destruct (negb (0 <? skip)); [exact (does_resolve _ _ _ _ (left (left s _ _ q) _ _ q1) _ _ E2)|].
    injection E2 as <- <-. ends. }
  intros q2. destruct err2 as [e|]; [ends|]. eapply does_then; [apply does_queue|]. intros q3. ends.
Qed.

Lemma does_rooms src env state rooms : forall s,
  does (roomsSteps src env state rooms) s
    (let '(c, r) := finishBulkRooms env (sh_store s) state (sh_client s) rooms in (c, sh_store s, r)).
Proof.
  induction rooms as [|room rooms IH]; intros s; cbn [roomsSteps finishBulkRooms]; [ends|].
  pose proof (does_room src env state room s) as Hr. destruct (finishRoom _ _ _ _ _) as [c1 r1].
  eapply does_then; [exact Hr|]. intros q. destruct r1 as [out|e]; [|ends].
  pose proof (IH (left s c1 (sh_store s) q)) as IH'. cbn [sh_client sh_store left] in IH'.
  destruct (finishBulkRooms _ _ _ c1 rooms) as [c2 r2]. eapply does_then; [exact IH'|]. intros q'.
  destruct r2; ends.
Qed.

Theorem does_CatchUpAll src env options s :
  does (catchUpAllSteps src env options) s (CatchUpAll env (sh_client s) (sh_store s) options).
Proof.
  unfold catchUpAllSteps, CatchUpAll. destruct (match options with Some o => _ | None => _ end) as [history|e]; [|ends].
  eapply does_then; [exact (does_read (fun s => match admitted (sh_client s) with Some e => Some e
    | None => if present history && (negb (present (sh_store s)) || negb (be_admission env))
              then Some ErrProtocol else None end) s)|].
  intros q. unfold admitted. destruct (closed (sh_client s)); [ends|].
  destruct (sys_store (checkpoint (sh_client s))); cbn [present negb orb]; [|ends].
  destruct (present history && _); [ends|]. destruct (be_busy env); [ends|]. destruct (be_turn env); [|ends].
  eapply does_then; [exact (does_read (fun s => snapshot (sh_client s)) _)|]. intros q1. cbn [sh_client left].
  eapply does_then; [exact (does_read (fun s' => selectBulkRooms env (snapshot (sh_client s)) (sh_store s') history) _)|].
  intros q2. cbn [sh_store left]. destruct (selectBulkRooms _ _ _ _) as [rooms|e]; [|ends].
  set (pending := filter _ _).
  destruct (chainLoop_ends env chainFuel (sh_store s) (mkChain rooms pending history 0 0 0)) as (st & r & E & _);
    [simpl; lia|unfold chainFuel; destruct history; simpl; lia|].
  rewrite E. eapply does_then; [exact (does_chain env _ _ (left (left (left s _ _ q) _ _ q1) _ _ q2) _ _ E)|].
  intros q3. destruct r as [ch|e]; [|ends].
  eapply does_then; [exact (does_read (fun s => snapshot (sh_client s)) _)|]. intros q4. cbn [sh_client left].
  destruct (finishBulkRooms _ _ _ _ _) as [c r] eqn:Er.
  eapply (does_then _ _ _ c st r); [|intros q5; destruct r; ends].
  match goal with |- does _ ?s' _ =>
    pose proof (does_rooms src env (snapshot (sh_client s)) (catchUpRooms (ch_rooms ch)) s') as Hr end.
  cbn [sh_client sh_store left] in Hr. rewrite Er in Hr. exact Hr.
Qed.
End Steps.
