(* ===== verification/CommitOrder.v ===== *)
(** * The order of delivery and commits

    A client's session in any interleaving of the stream's worker and of calls
    that commit, seed and catch up, one critical section at a time (the programs
    of ClientSteps.v; src/internal/client/client.go, sync.go, bulk_catchup.go).
    Commits succeed in the order in which positions were queued, which is the
    order in which the worker and each call hand them over, and the stream
    repeats no recent position. *)

From S2P Require Import Prelude.
From S2P Require Import Bson Events Continuity ContinuityTheorems Delivery CatchUp BulkCatchUp ProtocolTheorems ClientFacts Demo.
From S2P Require Import ClientSteps.
From S2P Require PrivateJson SyncMsg ChatLog.

Import Programs.

#[local] Open Scope list_scope.
#[local] Open Scope Z_scope.

Section Order.
Context `{AcquiredStore}.

(** The positions of chat [k] among positions, and those of events. *)
Definition of_chat (k : Z) (l : list (Z * Z)) : list Z := snd <$> filter (fun p => fst p = k) l.
Definition positions (evs : list Event) : list (Z * Z) := omap MessagePosition evs.

Definition resultEvents (out : list Result) : list Event :=
  omap (fun r => match r with EventResult e => Some e | ErrResult _ => None end) out.

(** ** A session *)

(** What the application calls, at any time. *)
Inductive Call :=
| CallCatchUp (exchange : nat -> SyncMsg.Request -> res ClientError Raw) (env : PrivateJson.WriteEnv) (chatID targetMax : Z)
| CallCatchUpAll (env : BulkEnv) (options : option StartupHistoryOptions)
| CallSeed (chatID : Z) (last : option Raw) (accept : Event -> bool)
| CallCommit (env : PrivateJson.WriteEnv) (event : Event)
| CallClose.

(** The n-th call, and the events it hands over when it returns. *)
Definition perform (n : nat) (call : Call) : prog Shared (res ClientError (list Event)) :=
  match call with
  | CallCatchUp exchange env chatID targetMax => catchUpSteps (Some n) exchange env chatID targetMax
  | CallCatchUpAll env options =>
      step! r := catchUpAllSteps (Some n) env options in
      Done (let! result := r in Ok (Rooms result ≫= Events))
  | CallSeed chatID last accept =>
      step! r := seedSteps (Some n) chatID last accept in
      Done (let! event := r in Ok (option_list event))
  | CallCommit env event =>
      step! err := commitSteps env event in
      Done (match err with Some e => Err e | None => Ok [] end)
  | CallClose => step! _ := closeStep in Done (Ok [])
  end.

(** The stream's worker waits for a packet, handles one, or has returned. *)
Inductive Worker :=
| Waiting (st : Stream)
| Busy (p : prog Shared (Stream * list Result * bool))
| Returned.

(** The calls begun, each with what is left of it; [w_emitted] are the positions
    the stream emitted. *)
Record World := mkWorld {
  w_shared : Shared;
  w_worker : Worker;
  w_calls : list (Call * prog Shared (res ClientError (list Event)));
  w_emitted : list (Z * Z);
}.

(** A packet reaches the worker, the worker or a call makes its next step, a
    call begins, or something else writes the history store. *)
Inductive Action :=
| Arrive (env : DeliverEnv) (packet : Packet)
| Work
| Begin (call : Call)
| Next (n : nat)
| StoreWritten (store : option HistoryStore).

Definition happen (w : World) (a : Action) : World :=
  let '(mkWorld s worker calls emitted) := w in
  match a, worker with
  | Arrive env packet, Waiting st => mkWorld s (Busy (packetSteps env st packet)) calls emitted
  | Work, Busy (Done (st, out, go)) =>
      mkWorld s (if go : bool then Waiting st else Returned) calls (emitted ++ positions (resultEvents out))
  | Work, Busy (Atomic next rest) => mkWorld (next s) (Busy (rest s)) calls emitted
  | Begin call, _ => mkWorld s worker (calls ++ [(call, perform (length calls) call)]) emitted
  | Next n, _ =>
      match calls !! n with
      | Some (call, p) =>
          let '(s, p) := advance p s in mkWorld s worker (<[n := (call, p)]> calls) emitted
      | None => w
      end
  | StoreWritten store, _ => mkWorld (with_store store s) worker calls emitted
  | _, _ => w
  end.

(** A session begins with the worker waiting and nothing handed. *)
Definition start (c : Client) (store : option HistoryStore) : World :=
  mkWorld (mkShared c store [] []) (Waiting initialStream) [] [].

(** Whose commits [src] queued, in order, and the position of an event as the
    code takes it, without asking whether it has one. *)
Definition queuedBy (src : option nat) (s : Shared) : list (Z * Z) :=
  snd <$> filter (fun x => fst x = src) (sh_queued s).

Definition handedAt (event : Event) : Z * Z := default (0, 0) (MessagePosition event).

(** ** Lists of positions *)

Lemma of_chat_app k l1 l2 : of_chat k (l1 ++ l2) = of_chat k l1 ++ of_chat k l2.
Proof. unfold of_chat. by rewrite filter_app, fmap_app. Qed.

Lemma positions_app l1 l2 : positions (l1 ++ l2) = positions l1 ++ positions l2.
Proof. apply omap_app. Qed.

Lemma of_chat_one k id log : of_chat k [(id, log)] = if decide (id = k) then [log] else [].
Proof. unfold of_chat. rewrite filter_cons. simpl. by destruct (decide (id = k)). Qed.

(** ** What each operation queues *)

(** [c'] has the queues of [c] and then the positions [l]. *)
Definition queued (c c' : Client) (l : list (Z * Z)) : Prop :=
  forall k, 0 < k -> pending c' k = pending c k ++ of_chat k l.

Lemma queued_refl c c' : pendingCommits c' = pendingCommits c -> queued c c' [].
Proof. intros E k _. unfold pending. by rewrite E, app_nil_r. Qed.

Lemma queued_trans c1 c2 c3 l1 l2 : queued c1 c2 l1 -> queued c2 c3 l2 -> queued c1 c3 (l1 ++ l2).
Proof. intros K1 K2 k Hk. by rewrite K2, K1, of_chat_app, <- app_assoc by done. Qed.

Lemma queueEvents_queued evs : forall c, queued c (queueEvents c evs) (positions evs).
Proof.
  induction evs as [|e evs IH]; intros c; [by apply queued_refl|].
  assert (Hone : queued c (queueEvents c [e]) (positions [e])).
  { intros k Hk. simpl. destruct (MessagePosition e) as [[id log]|]; simpl.
    - rewrite pending_queueCommit, of_chat_one. destruct (decide (id = k)) as [->|]; [done|by rewrite app_nil_r].
    - rewrite pending_queueCommit, decide_False by lia. by rewrite app_nil_r. }
  change (queueEvents c (e :: evs)) with (queueEvents (queueEvents c [e]) evs).
  change (e :: evs) with ([e] ++ evs). rewrite positions_app. by eapply queued_trans.
Qed.

Lemma write_queue c fn c' err : checkpointWrite c fn = (c', err) -> pendingCommits c' = pendingCommits c.
Proof.
  unfold checkpointWrite. destruct (closed c); [by intros [= <- <-]|].
  destruct (sys_store _); [|by intros [= <- <-]]. destruct (fn (checkpoint c)). by intros [= <- <-].
Qed.

Lemma unresolved_queue env c id from to c' e : unresolved env c id from to = (c', e) ->
  pendingCommits c' = pendingCommits c.
Proof.
  unfold unresolved. destruct (recordGap env c id from to) as [c1 err] eqn:E. intros [= <- <-].
  by eapply write_queue.
Qed.

Definition queues_result (c c' : Client) (r : res ClientError (list Event)) : Prop :=
  queued c c' (match r with Ok evs => positions evs | Err _ => [] end).

Lemma maybe_resolve_queue (b : bool) env c id to c' err :
  (if b then resolveGap env c id to else (c, None)) = (c', err) -> pendingCommits c' = pendingCommits c.
Proof. destruct b; [apply write_queue | by intros [= <- <-]]. Qed.

Lemma catchUpPages_queued exchange env state id from to pages : forall c store current evs c' store' r,
  catchUpPages exchange env pages c store state id from to current evs = (c', store', r) -> queues_result c c' r.
Proof.
  induction pages as [|pages IH]; intros c store current evs c' store' r; cbn [catchUpPages].
  { destruct (unresolved _ _ _ _ _) as [c1 e] eqn:E. intros [= <- <- <-]. by eapply queued_refl, unresolved_queue. }
  destruct (syncMessages _ _ _ _) as [st [page|e]].
  2: { destruct (isGapUnresolved e); [|intros [= <- <- <-]; by apply queued_refl].
       destruct (recordGap _ _ _ _ _) as [c1 err] eqn:E. intros [= <- <- <-]. by eapply queued_refl, write_queue. }
  destruct (pageLogs _ _ _ _ _ _) as [[[cur p] evs']|e]; [|intros [= <- <- <-]; by apply queued_refl].
  destruct (cur =? to).
  - destruct (projectAcquiredEvents st evs') as [out|e].
    2: { destruct (recordGap _ _ _ _ _) as [c1 err] eqn:E. intros [= <- <- <-]. by eapply queued_refl, write_queue. }
    destruct (if HasGapThrough _ _ _ then _ else _) as [c1 [e|]] eqn:E; apply maybe_resolve_queue in E;
      intros [= <- <- <-]; [by apply queued_refl|].
    intros k Hk. rewrite (queueEvents_queued out c1 k Hk). unfold pending. by rewrite E.
  - destruct (negb p); [|apply IH].
    destruct (unresolved _ _ _ _ _) as [c1 e] eqn:E. intros [= <- <- <-]. by eapply queued_refl, unresolved_queue.
Qed.

Lemma CatchUp_queued exchange env c store id to c' store' r :
  CatchUp exchange env c store id to = (c', store', r) -> queues_result c c' r.
Proof.
  unfold CatchUp. destruct (_ || _); [intros [= <- <- <-]; by apply queued_refl|].
  destruct (closed c); [intros [= <- <- <-]; by apply queued_refl|].
  destruct (sys_store _); [|intros [= <- <- <-]; by apply queued_refl].
  destruct (to <=? _); [|apply catchUpPages_queued].
  destruct (if HasGapThrough _ _ _ then _ else _) as [c1 [e|]] eqn:E; apply maybe_resolve_queue in E;
    intros [= <- <- <-]; by apply queued_refl.
Qed.

Lemma finishRoom_queued env store state c room c' out :
  finishRoom env store state c room = (c', Ok out) -> queued c c' (positions (Events out)).
Proof.
  unfold finishRoom. destruct (match projectAcquiredEvents _ _ with Ok p => _ | Err _ => _ end) as [[evs cur] skip].
  destruct (if 0 <? skip then _ else _) as [c1 [e|]] eqn:E1; [done|].
  destruct (if cur <? ceiling room then _ else _) as [c2 [e|]] eqn:E2; [done|]. intros [= <- <-].
  assert (Q1 : pendingCommits c1 = pendingCommits c).
  { destruct (0 <? skip); [by eapply write_queue | by injection E1 as <-]. }
  assert (Q2 : pendingCommits c2 = pendingCommits c1).
  { destruct (cur <? _); [by eapply write_queue | by eapply maybe_resolve_queue]. }
  intros k Hk. rewrite (queueEvents_queued evs c2 k Hk). unfold pending. by rewrite Q2, Q1.
Qed.

Lemma finishBulkRooms_queued env store state rooms : forall c c' outs,
  finishBulkRooms env store state c rooms = (c', Ok outs) -> queued c c' (positions (outs ≫= Events)).
Proof.
  induction rooms as [|room rooms IH]; intros c c' outs; cbn [finishBulkRooms].
  { intros [= <- <-]. by apply queued_refl. }
  destruct (finishRoom _ _ _ _ _) as [c1 [out|e]] eqn:E1; [|done].
  destruct (finishBulkRooms _ _ _ _ _) as [c2 [rest|e]] eqn:E2; [|done]. intros [= <- <-].
  change ((out :: rest) ≫= Events) with (Events out ++ (rest ≫= Events)). rewrite positions_app.
  eapply queued_trans; [by eapply finishRoom_queued | by apply IH].
Qed.

Lemma CatchUpAll_queued env c store options c' store' result :
  CatchUpAll env c store options = (c', store', Ok result) -> queued c c' (positions (Rooms result ≫= Events)).
Proof.
  unfold CatchUpAll. destruct (match options with Some o => _ | None => _ end); [|done].
  destruct (closed c); [done|]. destruct (_ || _); [done|]. destruct (be_busy env); [done|].
  destruct (be_turn env); [|done]. destruct (selectBulkRooms _ _ _ _); [|done].
  destruct (chainLoop _ _ _ _) as [[st [ch|]]|]; [|done..].
  destruct (finishBulkRooms _ _ _ _ _) as [c1 [outs|]] eqn:E; [|done]. intros [= <- <- <-].
  by eapply finishBulkRooms_queued.
Qed.

(** One packet queues at most one position, not seen before, which is the one
    it emits unless the result was dropped. *)
Lemma handlePacket_queued env c st packet c' st' out go :
  handlePacket env c st packet = (c', st', out, go) ->
  exists l, queued c c' l /\ (positions (resultEvents out) = l \/ de_emitted env = false /\ positions (resultEvents out) = []) /\
    ((l = [] /\ st' = st) \/ (exists p, l = [p] /\ ~ (p ∈ seen st) /\ st' = remember st p)) /\
    (go = true -> positions (resultEvents out) = l).
Proof.
  assert (Hterm : forall c0 k, pending (interruptTerminal c0) k = pending c0 k) by done.
  assert (Hnone : forall r, resultEvents (emit env (ErrResult r)) = []) by (intros r; unfold emit; by destruct (de_emitted env)).
  assert (Hev : forall e, positions (resultEvents (emit env (EventResult e))) = positions [e] \/
    de_emitted env = false /\ positions (resultEvents (emit env (EventResult e))) = []).
  { intros e. unfold emit. destruct (de_emitted env); [by left | by right]. }
  unfold handlePacket. destruct (DecodeForDelivery packet) as [event|e].
  2: { destruct (_ || _); intros [= <- <- <- <-]; exists []; rewrite Hnone; (split; [by apply queued_refl|]);
       split_and!; auto. }
  destruct (negb (de_observed env)).
  { intros [= <- <- <- <-]. exists []. rewrite Hnone. split; [by apply queued_refl|]. split_and!; auto. }
  destruct (MessagePosition event) as [[id log]|] eqn:Epos.
  2: { assert (Hn : positions (resultEvents (emit env (EventResult event))) = []).
       { destruct (Hev event) as [->|[_ ->]]; [|done]. simpl. by rewrite Epos. }
       destruct (isTerminal event); intros [= <- <- <- <-]; exists []; rewrite Hn;
         (split; [by apply queued_refl|]); split_and!; auto. }
  destruct (IsCommitted _ id log).
  { intros [= <- <- <- <-]. exists []. split; [by apply queued_refl|]. split_and!; auto. }
  destruct (bool_decide ((id, log) ∈ seen st)) eqn:Eseen.
  { intros [= <- <- <- <-]. exists []. split; [by apply queued_refl|]. split_and!; auto. }
  apply bool_decide_eq_false in Eseen.
  destruct (match sys_store (checkpoint c) with None => _ | Some _ => _ end) as [sys [e|]].
  { intros [= <- <- <- <-]. exists []. rewrite Hnone. split; [by apply queued_refl|]. split_and!; auto. }
  assert (Hp : positions [event] = [(id, log)]) by (simpl; by rewrite Epos).
  assert (Hq : queued c (queueCommit (set_checkpoint sys c) id log) [(id, log)]).
  { intros k Hk. rewrite pending_queueCommit, of_chat_one. destruct (decide (id = k)); [done|by rewrite app_nil_r]. }
  destruct (isTerminal event); intros [= <- <- <- <-]; exists [(id, log)]; rewrite <- Hp at 2.
  - split; [exact Hq|]. split_and!; [apply Hev | right; by exists (id, log) | done].
  - split; [exact Hq|]. split_and!; [apply Hev | right; by exists (id, log) |].
    intros Hem. unfold emit. rewrite Hem. by rewrite <- Hp.
Qed.

(** A successful commit takes its position off the front of its chat's queue. *)
Lemma CommitEvent_queue env c event c' err : CommitEvent env c event = (c', err) ->
  forall k, match err with
            | None => pending c k = of_chat k (positions [event]) ++ pending c' k
            | Some _ => pending c' k = pending c k
            end.
Proof.
  unfold CommitEvent. intros E k. destruct (MessagePosition event) as [[id log]|] eqn:Epos; [|by simplify_eq].
  destruct (closed c); [by simplify_eq|]. destruct (sys_store _); [|by simplify_eq].
  destruct (pending c id) as [|head rest] eqn:Ep; [by simplify_eq|].
  destruct (negb (head =? log)) eqn:Eh; [by simplify_eq|]. bool_prop. subst head.
  destruct (CommitMessage _ _ _ _) as [[sys a] [e|]]; [by simplify_eq|]. injection E as <- <-.
  assert (Hpos : positions [event] = [(id, log)]) by (simpl; by rewrite Epos). rewrite Hpos, of_chat_one.
  destruct (decide (id = k)) as [->|Hne].
  - rewrite Ep. unfold pending. destruct rest; simpl; by simplify_map_eq.
  - unfold pending. destruct rest; simpl; by simplify_map_eq.
Qed.

(** ** What a program queues *)

(** Commits succeeded and pending are what was queued, chat by chat. *)
Definition ledger (s : Shared) : Prop :=
  forall k, of_chat k (sh_acked s) ++ pending (sh_client s) k = of_chat k (snd <$> sh_queued s).

(** From [s] to [s'], [src] queues [l]. *)
Definition posts (src : option nat) (l : list (Z * Z)) (s s' : Shared) : Prop :=
  sh_queued s' = sh_queued s ++ (pair src <$> l) /\ (ledger s -> ledger s').

(** [src] has queued [q]; the steps of [p] queue more in its name only, so that
    [Q] relates all it queued to the answer. *)
Fixpoint traces {A} (src : option nat) (q : list (Z * Z)) (p : prog Shared A) (Q : list (Z * Z) -> A -> Prop) : Prop :=
  match p with
  | Done a => Q q a
  | Atomic next rest => forall s, exists l, posts src l s (next s) /\ traces src (q ++ l) (rest s) Q
  end.

Lemma traces_then {A B} src q (p : prog Shared A) (f : A -> prog Shared B) P Q :
  traces src q p P -> (forall q a, P q a -> traces src q (f a) Q) -> traces src q (andThen p f) Q.
Proof.
  intros Hp Hf. revert q Hp. induction p as [a|next rest IH]; intros q Hp; simpl in *; [by apply Hf|].
  intros s. destruct (Hp s) as (l & Hl & Hr). exists l. split; [done|by apply IH].
Qed.

Lemma traces_done {A} src q (a : A) (Q : list (Z * Z) -> A -> Prop) : Q q a -> traces src q (Done a) Q.
Proof. done. Qed.

(** Every program ends, wherever it is now. *)
Lemma traces_ends {A} src (p : prog Shared A) Q (s : Shared) : forall q, traces src q p Q -> exists l a, Q (q ++ l) a.
Proof.
  induction p as [a|next rest IH]; intros q Hp; [exists [], a; by rewrite app_nil_r|].
  destruct (Hp s) as (l & _ & Hr). apply IH in Hr as (l' & a & Ha). exists (l ++ l'), a. by rewrite app_assoc.
Qed.

(** A program that queues nothing. *)
Definition quiet {A} (p : prog Shared A) : Prop := forall src q, traces src q p (fun q' _ => q' = q).

Lemma posts_same src s s' : sh_queued s' = sh_queued s -> (ledger s -> ledger s') -> posts src [] s s'.
Proof. intros E Hl. split; [by rewrite E, app_nil_r|done]. Qed.

Lemma ledger_pending s c store : pendingCommits c = pendingCommits (sh_client s) -> ledger s ->
  ledger (mkShared c store (sh_queued s) (sh_acked s)).
Proof. intros E Hl k. specialize (Hl k). unfold pending in *. simpl. by rewrite E. Qed.

Lemma quiet_done {A} (a : A) : quiet (Done a).
Proof. by intros src q. Qed.

Lemma quiet_act {A} (f : Shared -> Shared * A) :
  (forall s, sh_queued (fst (f s)) = sh_queued s /\ (ledger s -> ledger (fst (f s)))) -> quiet (act f).
Proof.
  intros Hf src q s. exists []. destruct (Hf s) as [E Hl]. split; [by apply posts_same|]. by rewrite app_nil_r.
Qed.

Lemma quiet_read {A} (f : Shared -> A) : quiet (act (fun s => (s, f s))).
Proof. by apply quiet_act. Qed.

Lemma quiet_then {A B} (p : prog Shared A) (f : A -> prog Shared B) :
  quiet p -> (forall a, quiet (f a)) -> quiet (andThen p f).
Proof. intros Hp Hf src q. eapply traces_then; [apply Hp|]. intros q' a ->. apply Hf. Qed.

Lemma quiet_branch {A} (b : bool) (p p' : prog Shared A) : quiet p -> quiet p' -> quiet (if b then p else p').
Proof. by destruct b. Qed.

Lemma traces_quiet {A B} src q (p : prog Shared A) (f : A -> prog Shared B) Q :
  quiet p -> (forall a, traces src q (f a) Q) -> traces src q (andThen p f) Q.
Proof. intros Hp Hf. eapply traces_then; [apply Hp|]. intros q' a ->. apply Hf. Qed.

#[local] Hint Resolve quiet_done quiet_read : go.

Ltac quiet_cases :=
  repeat first
    [ solve [auto with go]
    | apply quiet_branch
    | apply quiet_then; [|intros ?]
    | match goal with |- quiet (match ?x with _ => _ end) => destruct x end ].

Lemma quiet_write fn : quiet (writeSteps fn).
Proof.
  unfold writeSteps, admission. quiet_cases. apply quiet_act. intros s.
  destruct (fn _) as [sys err]. split; [done|]. by apply ledger_pending.
Qed.

Lemma quiet_close : quiet closeStep.
Proof. apply quiet_act. intros s. split; [done|]. by apply ledger_pending. Qed.

Lemma quiet_store {A} f (a : A) : quiet (storeStep f a).
Proof. apply quiet_act. intros s. destruct (sh_store s); [|done]. by destruct (f _). Qed.

#[local] Hint Resolve quiet_write quiet_close quiet_store : go.

Lemma quiet_record env id from to : quiet (recordSteps env id from to).
Proof. apply quiet_write. Qed.

Lemma quiet_resolve env state id to : quiet (resolveSteps env state id to).
Proof. unfold resolveSteps. quiet_cases. Qed.

Lemma quiet_project evs : quiet (projectSteps evs).
Proof. induction evs as [|e evs IH]; cbn [projectSteps]; quiet_cases. Qed.

#[local] Hint Resolve quiet_record quiet_resolve quiet_project : go.

Lemma quiet_sync exchange n request : quiet (syncSteps exchange n request).
Proof. unfold syncSteps, lookupStep, saveStep. quiet_cases. Qed.

Lemma quiet_runs runs ids : forall rooms progressed acquired, quiet (runsSteps runs rooms progressed acquired ids).
Proof.
  induction ids as [|id ids IH]; intros; cbn [runsSteps]; quiet_cases.
  apply quiet_act. intros s. by destruct (applyBulkRun _ _ _).
Qed.

#[local] Hint Resolve quiet_sync quiet_runs : go.

Lemma quiet_page env ch : quiet (pageSteps env ch).
Proof. unfold pageSteps. quiet_cases. Qed.

#[local] Hint Resolve quiet_page : go.

Lemma quiet_chain env fuel : forall ch, quiet (chainSteps env fuel ch).
Proof. induction fuel as [|fuel IH]; intros ch; cbn [chainSteps]; quiet_cases. Qed.

(** Queueing a position appends it to its chat's pending commits. *)
Lemma posts_queue src s p (c : Client) :
  (forall k, pending c k = pending (sh_client s) k ++ of_chat k [p]) ->
  posts src [p] s (mkShared c (sh_store s) (sh_queued s ++ [(src, p)]) (sh_acked s)).
Proof.
  intros Hc. split; [done|]. intros Hl k. simpl. by rewrite Hc, app_assoc, Hl, fmap_app, of_chat_app.
Qed.

Lemma of_chat_single k p : of_chat k [p] = if decide (fst p = k) then [snd p] else [].
Proof. destruct p. apply of_chat_one. Qed.

Lemma traces_queue src q p : traces src q (queueStep src p) (fun q' _ => q' = q ++ [p]).
Proof.
  intros s. exists [p]. split; [|done]. apply posts_queue. intros k.
  rewrite pending_queueCommit, of_chat_single. destruct (decide _); [done|by rewrite app_nil_r].
Qed.

Lemma traces_queues src evs : forall q, traces src q (queueSteps src evs) (fun q' _ => q' = q ++ (handedAt <$> evs)).
Proof.
  induction evs as [|e evs IH]; intros q; cbn [queueSteps]; [apply traces_done; by rewrite app_nil_r|].
  eapply traces_then; [apply traces_queue|]. intros q' _ ->. specialize (IH (q ++ [handedAt e])).
  by rewrite <- app_assoc in IH.
Qed.

(** A call that succeeds queued what it hands over; one that fails nothing. *)
Definition hands (q q' : list (Z * Z)) (r : res ClientError (list Event)) : Prop :=
  match r with Ok evs => q' = q ++ (handedAt <$> evs) | Err _ => q' = q end.

Lemma traces_unresolved src q env id from to : traces src q (unresolvedSteps env id from to) (hands q).
Proof. unfold unresolvedSteps. apply traces_quiet; [apply quiet_record|done]. Qed.

Lemma traces_pages src exchange env state id from to pages : forall q current evs,
  traces src q (pagesSteps src exchange env state id from to pages current evs) (hands q).
Proof.
  induction pages as [|pages IH]; intros q current evs; cbn [pagesSteps]; [apply traces_unresolved|].
  apply traces_quiet; [apply quiet_sync|]. intros [page|e].
  2: { destruct (isGapUnresolved e); [|done]. apply traces_quiet; [apply quiet_record|done]. }
  destruct (pageLogs _ _ _ _ _ _) as [[[cur progressed] evs']|e]; [|done].
  destruct (cur =? to).
  - apply traces_quiet; [apply quiet_project|]. intros [out|e].
    2: { apply traces_quiet; [apply quiet_record|done]. }
    apply traces_quiet; [apply quiet_resolve|]. intros [e|]; [done|].
    eapply traces_then; [apply traces_queues|]. by intros q' _ ->.
  - destruct (negb progressed); [apply traces_unresolved|apply IH].
Qed.

Lemma traces_catchUp src q exchange env id to : traces src q (catchUpSteps src exchange env id to) (hands q).
Proof.
  assert (Hnil : hands q q (Ok [])) by (simpl; by rewrite app_nil_r).
  unfold catchUpSteps. destruct (_ || _); [done|]. apply traces_quiet; [apply quiet_read|]. intros [e|]; [done|].
  apply traces_quiet; [apply quiet_read|]. intros state. destruct (to <=? _); [|apply traces_pages].
  apply traces_quiet; [apply quiet_resolve|]. by intros [e|].
Qed.

Lemma traces_room src q env state room :
  traces src q (roomSteps src env state room)
    (fun q' r => match r with Ok out => q' = q ++ (handedAt <$> Events out) | Err _ => q' = q end).
Proof.
  unfold roomSteps. apply traces_quiet; [apply quiet_project|]. intros out.
  destruct (match out with Ok p => _ | Err _ => _ end) as [[evs cur] skip].
  apply traces_quiet; [by apply quiet_branch; auto with go|]. intros [e|]; [done|].
  apply traces_quiet; [by repeat apply quiet_branch; auto with go|]. intros [e|]; [done|].
  eapply traces_then; [apply traces_queues|]. by intros q' _ ->.
Qed.

Lemma traces_rooms src env state rooms : forall q,
  traces src q (roomsSteps src env state rooms)
    (fun q' r => match r with Ok outs => q' = q ++ (handedAt <$> (outs ≫= Events)) | Err _ => True end).
Proof.
  induction rooms as [|room rooms IH]; intros q; cbn [roomsSteps]; [apply traces_done; by rewrite app_nil_r|].
  eapply traces_then; [apply traces_room|]. intros q1 [out|e]; [|done]. cbn beta iota. intros ->.
  eapply traces_then; [apply IH|]. intros q2 [outs|e]; [|done]. cbn beta iota. intros ->. apply traces_done.
  change ((out :: outs) ≫= Events) with (Events out ++ (outs ≫= Events)). by rewrite fmap_app, app_assoc.
Qed.

Lemma traces_catchUpAll src q env options :
  traces src q (catchUpAllSteps src env options)
    (fun q' r => match r with Ok result => q' = q ++ (handedAt <$> (Rooms result ≫= Events)) | Err _ => True end).
Proof.
  unfold catchUpAllSteps. destruct (match options with Some o => _ | None => _ end); [|done].
  apply traces_quiet; [apply quiet_read|]. intros [e|]; [done|]. destruct (be_busy env); [done|].
  destruct (be_turn env); [|done]. apply traces_quiet; [apply quiet_read|]. intros state.
  apply traces_quiet; [apply quiet_read|]. intros [rooms|e]; [|done].
  apply traces_quiet; [apply quiet_chain|]. intros [[ch|e]|]; [|done..].
  apply traces_quiet; [apply quiet_read|]. intros state2.
  eapply traces_then; [apply traces_rooms|]. intros q' [outs|e]; [|done]. by intros ->.
Qed.

Lemma traces_seed src q id last accept :
  traces src q (seedSteps src id last accept)
    (fun q' r => match r with Ok event => q' = q ++ (handedAt <$> option_list event) | Err _ => q' = q end).
Proof.
  assert (Hnil : q = q ++ (handedAt <$> option_list None)) by (simpl; by rewrite app_nil_r).
  unfold seedSteps. destruct (id <=? 0); [done|]. destruct last as [log|]; [|done].
  apply traces_quiet; [apply quiet_read|]. intros [e|]; [done|]. apply traces_quiet; [apply quiet_read|]. intros state.
  destruct (_ || _); [done|]. destruct (DecodeChatLog id log) as [event|e]; [|done].
  destruct (MessagePosition event) as [[chat logID]|] eqn:Epos; [|done].
  destruct (negb (chat =? id)) eqn:Ec; [done|]. bool_prop. subst chat. destruct (negb (accept event)); [done|].
  intros s. cbn [act fst]. unfold seedQueue. destruct (0 <? length (pending (sh_client s) id))%nat eqn:El; cbn [fst snd].
  - exists []. split; [by apply posts_same|]. rewrite app_nil_r. by apply traces_done.
  - exists [(id, logID)]. split.
    + apply posts_queue. intros k. unfold pending at 1. simpl. rewrite of_chat_one. destruct (decide (id = k)) as [->|Hne].
      * rewrite lookup_insert_eq. by destruct (pending _ k).
      * rewrite lookup_insert_ne by done. by rewrite app_nil_r.
    + apply traces_done. simpl. unfold handedAt. by rewrite Epos.
Qed.

Lemma commitQueued_queue env c id log c' err : commitQueued env c id log = (c', err) ->
  forall k, match err with
            | None => pending c k = of_chat k [(id, log)] ++ pending c' k
            | Some _ => pending c' k = pending c k
            end.
Proof.
  unfold commitQueued. intros E k. destruct (pending c id) as [|head rest] eqn:Ep; [by simplify_eq|].
  destruct (negb (head =? log)) eqn:Eh; [by simplify_eq|]. bool_prop. subst head.
  destruct (CommitMessage _ _ _ _) as [[sys a] [e|]]; [by simplify_eq|]. injection E as <- <-. rewrite of_chat_one.
  destruct (decide (id = k)) as [->|Hne]; unfold pending in *; destruct rest; simpl; simplify_map_eq; by rewrite ?Ep.
Qed.

Lemma quiet_commit env event : quiet (commitSteps env event).
Proof.
  unfold commitSteps, admission. quiet_cases. apply quiet_act. intros s.
  destruct (commitQueued _ _ _ _) as [c err] eqn:E. split; [done|]. intros Hl k. specialize (Hl k).
  pose proof (commitQueued_queue _ _ _ _ _ _ E k) as Hq. cbn [sh_acked sh_client sh_queued fst].
  destruct err; [by rewrite app_nil_r, Hq|]. by rewrite of_chat_app, <- app_assoc, <- Hq.
Qed.

(** What the n-th call queued when it returns. *)
Definition handed (call : Call) (q : list (Z * Z)) (r : res ClientError (list Event)) : Prop :=
  match r, call with
  | Ok evs, _ => q = handedAt <$> evs
  | Err _, CallCatchUpAll _ _ => True
  | Err _, _ => q = []
  end.

Lemma traces_mono {A} src (p : prog Shared A) (P Q : list (Z * Z) -> A -> Prop) : forall q,
  (forall q a, P q a -> Q q a) -> traces src q p P -> traces src q p Q.
Proof.
  induction p as [a|next rest IH]; intros q HPQ Hp; simpl in *; [by apply HPQ|].
  intros s. destruct (Hp s) as (l & Hl & Hr). exists l. split; [done|by apply IH].
Qed.

Lemma traces_perform n call : traces (Some n) [] (perform n call) (handed call).
Proof.
  destruct call; cbn [perform].
  - eapply traces_mono; [|apply traces_catchUp]. by intros q [evs|e].
  - eapply traces_then; [apply traces_catchUpAll|]. by intros q [result|e].
  - eapply traces_then; [apply traces_seed|]. by intros q [event|e].
  - apply traces_quiet; [apply quiet_commit|]. by intros [e|].
  - by apply traces_quiet; [apply quiet_close|].
Qed.

(** One packet queues at most one position, not seen before, which is the one
    it emits unless the worker ends first. *)
Definition worked (st : Stream) (q q' : list (Z * Z)) (a : Stream * list Result * bool) : Prop :=
  let '(st', out, go) := a in
  exists new, q' = q ++ new /\
    (new = [] /\ st' = st \/ exists p, new = [p] /\ ~ (p ∈ seen st) /\ st' = remember st p) /\
    (positions (resultEvents out) = new \/ go = false /\ positions (resultEvents out) = []).

Lemma emit_error env e : resultEvents (emit env (ErrResult e)) = [].
Proof. unfold emit. by destruct (de_emitted env). Qed.

Lemma worked_error st q env e go : worked st q q (st, emit env (ErrResult e), go).
Proof. exists []. rewrite emit_error, app_nil_r. auto. Qed.

Lemma worked_none st q go : worked st q q (st, [], go).
Proof. exists []. rewrite app_nil_r. auto. Qed.

(** The end of a packet whose event's positions are [new]. *)
Lemma traces_emit env st st' q new event :
  (new = [] /\ st' = st \/ exists p, new = [p] /\ ~ (p ∈ seen st) /\ st' = remember st p) ->
  positions [event] = new ->
  traces None (q ++ new)
    (if isTerminal event then step! _ := closeStep in Done (st', emit env (EventResult event), false)
     else Done (st', emit env (EventResult event), de_emitted env)) (worked st q).
Proof.
  intros Hst Hp.
  assert (Hout : forall go, go = false \/ go = de_emitted env -> worked st q (q ++ new) (st', emit env (EventResult event), go)).
  { intros go Hgo. exists new. split_and!; [done|done|]. unfold emit. destruct (de_emitted env); [by left|].
    right. split; [|done]. by destruct Hgo. }
  destruct (isTerminal event); [apply traces_quiet; [apply quiet_close|]; intros _|]; apply traces_done, Hout; auto.
Qed.

Lemma traces_packet env st packet q : traces None q (packetSteps env st packet) (worked st q).
Proof.
  assert (Hstop : forall e, traces None q (step! _ := closeStep in Done (st, emit env (ErrResult e), false)) (worked st q)).
  { intros e. apply traces_quiet; [apply quiet_close|]. intros _. apply traces_done, worked_error. }
  unfold packetSteps. destruct (DecodeForDelivery packet) as [event|e];
    [|destruct (_ || _); [apply Hstop|apply traces_done, worked_error]].
  destruct (negb (de_observed env)); [apply Hstop|].
  destruct (MessagePosition event) as [[id log]|] eqn:Epos.
  2: { rewrite <- (app_nil_r q) at 1. apply traces_emit; [by left|]. simpl. by rewrite Epos. }
  apply traces_quiet; [apply quiet_read|]. intros [|]; [apply traces_done, worked_none|].
  destruct (bool_decide _) eqn:Eseen; [apply traces_done, worked_none|]. apply bool_decide_eq_false in Eseen.
  apply traces_quiet.
  { apply quiet_act. intros s. destruct (match sys_store _ with None => _ | Some _ => _ end). split; [done|].
    by apply ledger_pending. }
  intros [e|]; [apply Hstop|]. eapply traces_then; [apply traces_queue|]. intros q' _ ->.
  apply traces_emit; [right; by exists (id, log)|]. simpl. by rewrite Epos.
Qed.


(** ** Duplicates *)

(** The last positions of [l], at most the limit. *)
Definition recent (l : list (Z * Z)) : list (Z * Z) := drop (length l - observedPositionLimit) l.

(** The worker remembers exactly the recent positions. *)
Record remembers (st : Stream) (l : list (Z * Z)) : Prop := {
  rm_order : order st = recent l;
  rm_seen : seen st = list_to_set (order st);
  rm_NoDup : NoDup (order st);
}.

(** Equal positions are more than the limit apart. *)
Definition spaced (l : list (Z * Z)) : Prop :=
  forall i j p, l !! i = Some p -> l !! j = Some p -> (i < j)%nat -> (observedPositionLimit < j - i)%nat.

Lemma limit_pos : (0 < observedPositionLimit)%nat.
Proof. apply Nat.ltb_lt. reflexivity. Qed.

Lemma length_recent l : length (recent l) = Nat.min (length l) observedPositionLimit.
Proof. unfold recent. rewrite length_drop. lia. Qed.

Lemma remember_recent st l p : remembers st l -> p ∉ seen st -> remembers (remember st p) (l ++ [p]).
Proof.
  intros [Ho Hs Hnd] Hp. pose proof limit_pos as Hpos. pose proof (length_recent l) as Hlen. rewrite <- Ho in Hlen.
  assert (Hnew : NoDup (order st ++ [p])).
  { apply NoDup_app. split_and!; [done | | by apply NoDup_singleton].
    intros x Hx ->%list_elem_of_singleton. apply Hp. rewrite Hs. by apply elem_of_list_to_set. }
  assert (Hset : seen st ∪ {[p]} = list_to_set (order st ++ [p])).
  { rewrite Hs, list_to_set_app_L. simpl. by rewrite (right_id_L ∅ (∪)). }
  unfold remember. destruct (observedPositionLimit <? length (order st ++ [p]))%nat eqn:E; rewrite length_app in E;
    simpl in E; bool_prop.
  - assert (Hl : (observedPositionLimit <= length l)%nat) by lia.
    destruct (order st) as [|oldest rest] eqn:Eo; [simpl in *; lia|]. simpl app in Hnew, Hset |- *.
    apply NoDup_cons in Hnew as [Hnin Hnew]. constructor; simpl.
    + unfold recent in Ho |- *. rewrite length_app. simpl.
      replace (length l + 1 - observedPositionLimit)%nat with (S (length l - observedPositionLimit)) by lia.
      rewrite drop_app_le by lia. f_equal.
      transitivity (drop 1 (drop (length l - observedPositionLimit) l)); [by rewrite <- Ho|].
      rewrite drop_drop. f_equal. lia.
    + rewrite Hset. simpl. apply set_eq. intros x. rewrite elem_of_difference, elem_of_union, elem_of_singleton.
      rewrite elem_of_list_to_set. split; [by intros [[?|?] ?]|]. intros Hx. split; [by right|]. by intros ->.
    + done.
  - constructor; simpl; [|done|done]. unfold recent in Ho |- *. rewrite length_app. simpl.
    replace (length l - observedPositionLimit)%nat with 0%nat in Ho by lia.
    replace (length l + 1 - observedPositionLimit)%nat with 0%nat by lia. by rewrite Ho.
Qed.

Lemma spaced_snoc st l p : remembers st l -> p ∉ seen st -> spaced l -> spaced (l ++ [p]).
Proof.
  intros [Ho Hs _] Hp Hl i j q Hi Hj Hij.
  assert (Hjl : (j < length (l ++ [p]))%nat) by by eapply lookup_lt_Some.
  rewrite length_app in Hjl. simpl in Hjl. rewrite lookup_app_l in Hi by lia.
  destruct (decide (j < length l)%nat).
  - rewrite lookup_app_l in Hj by lia. by eapply Hl.
  - assert (j = length l) as -> by lia. rewrite list_lookup_middle in Hj by done. injection Hj as <-.
    destruct (decide (observedPositionLimit < length l - i)%nat) as [|Hn]; [done|]. exfalso. apply Hp.
    rewrite Hs, Ho. apply elem_of_list_to_set. unfold recent.
    apply (list_elem_of_lookup_2 _ (i - (length l - observedPositionLimit))).
    rewrite lookup_drop. rewrite <- Hi. f_equal. lia.
Qed.

(** ** Every interleaving *)

Lemma queuedBy_posts src l s s' : posts src l s s' ->
  queuedBy src s' = queuedBy src s ++ l /\ forall src', src' <> src -> queuedBy src' s' = queuedBy src' s.
Proof.
  intros [E _]. unfold queuedBy. rewrite E. clear E. split; [|intros src' Hne]; rewrite filter_app, fmap_app; f_equal.
  - induction l as [|x l IH]; [done|]. rewrite fmap_cons, filter_cons_True by done. by rewrite fmap_cons, IH.
  - rewrite <- (app_nil_r (snd <$> _)) at 2. f_equal.
    induction l as [|x l IH]; [done|]. rewrite fmap_cons, filter_cons_False; [done|]. simpl. congruence.
Qed.

(** What the worker queued and what the stream emitted. *)
Definition worker_ok (w : World) : Prop :=
  let q := queuedBy None (w_shared w) in
  let e := w_emitted w in
  match w_worker w with
  | Waiting st => q = e /\ remembers st e
  | Busy p => exists st late, remembers st e /\ q = e ++ late /\ traces None q p (worked st e)
  | Returned => exists late, q = e ++ late /\ (length late <= 1)%nat
  end.

Record sound (w : World) : Prop := {
  so_ledger : ledger (w_shared w);
  so_calls n call p : w_calls w !! n = Some (call, p) ->
    traces (Some n) (queuedBy (Some n) (w_shared w)) p (handed call);
  so_fresh n : w_calls w !! n = None -> queuedBy (Some n) (w_shared w) = [];
  so_worker : worker_ok w;
  so_spaced : spaced (w_emitted w);
}.

Lemma start_sound c store : pendingCommits c = ∅ -> sound (start c store).
Proof.
  intros Hp. constructor; simpl; try done.
  - intros k. unfold pending. simpl. by rewrite Hp, lookup_empty.
  - split; [done|]. constructor; simpl; [by unfold recent; rewrite drop_nil|done|constructor].
Qed.

(** The worker takes a step of a packet. *)
Lemma work_sound s next rest calls emitted :
  sound (mkWorld s (Busy (Atomic next rest)) calls emitted) -> sound (mkWorld (next s) (Busy (rest s)) calls emitted).
Proof.
  intros [K1 K2 K3 (st & late & K4 & K5 & K6) K7]. simpl in *. destruct (K6 s) as (l & Hl & Hr).
  destruct (queuedBy_posts _ _ _ _ Hl) as [Hown Hother]. constructor; simpl; try done.
  - by apply Hl.
  - intros n call p Hn. rewrite Hother by done. by apply K2.
  - intros n Hn. rewrite Hother by done. by apply K3.
  - exists st, (late ++ l). unfold worker_ok. simpl. rewrite Hown. split_and!; [done|by rewrite K5, app_assoc|done].
Qed.

(** It emits the packet's result and goes on or ends. *)
Lemma emit_sound s st out go calls emitted :
  sound (mkWorld s (Busy (Done (st, out, go))) calls emitted) ->
  sound (mkWorld s (if go : bool then Waiting st else Returned) calls (emitted ++ positions (resultEvents out))).
Proof.
  intros [K1 K2 K3 (st0 & late & K4 & K5 & new & K6 & Hnew & Hout) K7]. simpl in *.
  assert (Hl : spaced (emitted ++ new) /\ remembers st (emitted ++ new) /\ (length new <= 1)%nat).
  { destruct Hnew as [[-> ->]|(p & -> & Hp & ->)]; [rewrite app_nil_r; by split_and!; auto|].
    split_and!; [by eapply spaced_snoc|by apply remember_recent|done]. }
  destruct Hl as (Hsp & Hrem & Hlen). constructor; simpl; try done.
  - unfold worker_ok. simpl. rewrite K6. destruct go; [destruct Hout as [->|[? _]]; done|].
    destruct Hout as [->|[_ ->]]; [exists []|exists new]; rewrite ?app_nil_r; (split; [done|]); [simpl; lia|done].
  - destruct Hout as [->|[_ ->]]; [done|by rewrite app_nil_r].
Qed.

Lemma begin_sound s worker calls emitted call :
  sound (mkWorld s worker calls emitted) ->
  sound (mkWorld s worker (calls ++ [(call, perform (length calls) call)]) emitted).
Proof.
  intros [K1 K2 K3 K4 K5]. simpl in *. constructor; simpl; try done.
  - intros n call' p. intros [Hn|[Hn E]]%lookup_app_Some; [by apply K2|].
    apply list_lookup_singleton_Some in E as [E0 [= <- <-]]. assert (n = length calls) as -> by lia.
    rewrite K3 by (by apply lookup_ge_None). apply traces_perform.
  - intros n Hn. apply K3. apply lookup_ge_None in Hn. rewrite length_app in Hn. apply lookup_ge_None. lia.
Qed.

(** A call takes a step. *)
Lemma next_sound s worker calls emitted n call next rest :
  calls !! n = Some (call, Atomic next rest) -> sound (mkWorld s worker calls emitted) ->
  sound (mkWorld (next s) worker (<[n := (call, rest s)]> calls) emitted).
Proof.
  intros En [K1 K2 K3 K4 K5]. simpl in *. destruct (K2 _ _ _ En s) as (l & Hl & Hr).
  destruct (queuedBy_posts _ _ _ _ Hl) as [Hown Hother]. constructor; simpl; try done.
  - by apply Hl.
  - intros m call' p. destruct (decide (m = n)) as [->|Hne].
    + rewrite list_lookup_insert_eq by (by eapply lookup_lt_Some). intros [= <- <-]. by rewrite Hown.
    + rewrite list_lookup_insert_ne by done. intros Hm. rewrite Hother by congruence. by apply K2.
  - intros m Hm. destruct (decide (m = n)) as [->|Hne].
    + apply lookup_ge_None in Hm. rewrite length_insert in Hm. apply lookup_lt_Some in En. lia.
    + rewrite list_lookup_insert_ne in Hm by done. rewrite Hother by congruence. by apply K3.
  - unfold worker_ok in *. simpl in *. by rewrite Hother.
Qed.

Lemma happen_sound w a : sound w -> sound (happen w a).
Proof.
  intros Hw. destruct w as [s worker calls emitted]. destruct a as [env packet| |call|n|store]; cbn [happen].
  - destruct worker as [st|p|]; [|done..]. destruct Hw as [K1 K2 K3 [K4 K6] K5]. simpl in *.
    constructor; simpl; try done. exists st, []. rewrite app_nil_r. split_and!; [done|done|]. simpl. rewrite K4.
    apply traces_packet.
  - destruct worker as [st|[[[st out] go]|next rest]|]; [done|by apply emit_sound|by apply work_sound|done].
  - destruct worker; by apply begin_sound.
  - destruct (calls !! n) as [[call [r|next rest]]|] eqn:En; cbn [Programs.advance].
    + rewrite list_insert_id by done. by destruct worker.
    + destruct worker; by eapply next_sound.
    + by destruct worker.
  - assert (Hs : sound (mkWorld (with_store store s) worker calls emitted)); [|by destruct worker].
    destruct Hw as [K1 K2 K3 K4 K5]. by constructor.
Qed.

Lemma session_sound c store actions : pendingCommits c = ∅ -> sound (foldl happen (start c store) actions).
Proof.
  intros Hp. pose proof (start_sound c store Hp) as Hs. revert Hs. generalize (start c store).
  induction actions as [|a actions IH]; intros w Hw; [done|]. simpl. apply IH. by apply happen_sound.
Qed.

(** C6: in every session, however packets, commits, seeds, catch-ups of one or
    all chats, the end of the session and writes of the history store interleave:
    (1) each chat's commits that succeeded, followed by those it still awaits, are
    the positions queued for it, in that order, so that no commit is skipped,
    lost or made twice;
    (2) the stream hands over what its worker queued, in that order; only the
    position of the packet being handled, or of the last result when the worker
    ended, may not have been handed over;
    (3) a call that succeeded hands over exactly the events whose commits it
    queued, in that order, and one that failed queued none.  The exception is a
    [CatchUpAll] that fails while finishing its rooms: the rooms before the one
    that failed have their commits queued, and nobody is handed their events. *)
Theorem commits_follow_delivery c store actions :
  pendingCommits c = ∅ ->
  let w := foldl happen (start c store) actions in
  let s := w_shared w in
  (forall k, of_chat k (sh_acked s) ++ pending (sh_client s) k = of_chat k (snd <$> sh_queued s)) /\
  (exists late, queuedBy None s = w_emitted w ++ late /\ (length late <= 1)%nat /\
     match w_worker w with Waiting _ => late = [] | _ => True end) /\
  (forall n call r, w_calls w !! n = Some (call, Done r) ->
     match r, call with
     | Ok evs, _ => queuedBy (Some n) s = handedAt <$> evs
     | Err _, CallCatchUpAll _ _ => True
     | Err _, _ => queuedBy (Some n) s = []
     end).
Proof.
  intros Hp w s. destruct (session_sound c store actions Hp) as [K1 K2 _ K4 _]. fold w in K1, K2, K4. fold s in K1, K2.
  split_and!; [exact K1| |intros n call r Hn; exact (K2 _ _ _ Hn)].
  unfold worker_ok in K4. fold s in K4. destruct (w_worker w) as [st|p|].
  - destruct K4 as [K4 _]. exists []. split_and!; [by rewrite app_nil_r|simpl; lia|done].
  - destruct K4 as (st & late & _ & Hq & Ht). exists late. split_and!; [done| |done].
    apply (traces_ends _ _ _ s) in Ht as (l & [[st' out] go] & new & E & Hnew & _).
    rewrite Hq, <- app_assoc in E. apply app_inv_head in E. apply (f_equal length) in E. rewrite length_app in E.
    destruct Hnew as [[-> _]|(p' & -> & _)]; simpl in E; lia.
  - destruct K4 as (late & Hq & Hl). by exists late.
Qed.

(** In every session the positions of any [observedPositionLimit] + 1
    consecutive emissions of the event stream are distinct. *)
Theorem stream_never_repeats c store actions n :
  pendingCommits c = ∅ ->
  NoDup (take (S observedPositionLimit) (drop n (w_emitted (foldl happen (start c store) actions)))).
Proof.
  intros Hp. destruct (session_sound c store actions Hp) as [_ _ _ _ Hs]. apply NoDup_alt. intros i j p Hi Hj.
  apply lookup_take_Some in Hi as [Hi Hil], Hj as [Hj Hjl]. rewrite lookup_drop in Hi, Hj.
  destruct (Nat.lt_trichotomy i j) as [Hlt|[->|Hlt]]; [|done|]; exfalso.
  - specialize (Hs _ _ _ Hi Hj ltac:(lia)). lia.
  - specialize (Hs _ _ _ Hj Hi ltac:(lia)). lia.
Qed.
End Order.

(** ** Witnesses *)

(** Chat 7 is caught up through 30; the packet of message 31 arrives when the
    commit of 20 is queued and that of 30 is not yet.  Then 20 is committed. *)
Definition demoAnswer (_ : nat) (_ : SyncMsg.Request) : res ClientError (@Raw treeBson) :=
  Ok (Tree [("chatLogs"%string, VArray (MarshalArray (VDocument <$> [demoLog 20 10 "a"; demoLog 30 20 "b"])))]).

Definition demoActions : list (@Action treeBson demoContent demoStore) :=
  Begin (CallCatchUp demoAnswer PrivateJson.writeOk 7 30) :: replicate 8 (Next 0) ++
  Arrive deliverOk (demoMessage 31) :: replicate 4 Work ++
  [Next 0; Arrive deliverOk (demoMessage 31); Work; Work; Work;
   Begin (CallCommit PrivateJson.writeOk (demoEvent 20)); Next 1; Next 1;
   Begin (CallCommit PrivateJson.writeOk (demoEvent 30)); Next 2; Next 2].

Definition demoEnd : World := foldl happen (start demoClient None) demoActions.

Lemma demo_end :
  w_emitted demoEnd = [(7, 31)] /\ (snd <$> sh_queued (w_shared demoEnd)) = [(7, 20); (7, 31); (7, 30)] /\
  sh_acked (w_shared demoEnd) = [(7, 20)] /\
  (match w_calls demoEnd with
   | [(_, Done (Ok evs)); (_, Done (Ok [])); (_, Done (Err errCommitOrder))] => handedAt <$> evs
   | _ => []
   end) = [(7, 20); (7, 30)].
Proof. by vm_compute. Qed.

Lemma commits_follow_delivery_witness :
  of_chat 7 (sh_acked (w_shared demoEnd)) ++ pending (sh_client (w_shared demoEnd)) 7 =
    of_chat 7 (snd <$> sh_queued (w_shared demoEnd)) /\
  sh_acked (w_shared demoEnd) = [(7, 20)] /\
  (snd <$> sh_queued (w_shared demoEnd)) = [(7, 20); (7, 31); (7, 30)].
Proof.
  destruct demo_end as (_ & Hq & Ha & _). split; [|split; [exact Ha|exact Hq]].
  apply (commits_follow_delivery demoClient None demoActions). reflexivity.
Defined.

Lemma stream_never_repeats_witness :
  w_emitted demoEnd = [(7, 31)] /\
  NoDup (take (S observedPositionLimit) (drop 0 (w_emitted demoEnd))).
Proof.
  split; [apply demo_end|]. apply (stream_never_repeats demoClient None demoActions 0). reflexivity.
Defined.
