(* ===== verification/DeliveryTheorems.v ===== *)
(** * Theorems about delivery and commits

    Positions are committed in the order they were queued, no message is
    delivered twice within the session's window, and everything delivered but
    not committed is asked for again after a restart. *)

From S2P Require Import Prelude.
From S2P Require Import Bson Events Continuity ContinuitySpec ContinuityProps ContinuityTheorems.
From S2P Require Import Delivery CatchUp ProtocolTheorems ClientFacts Demo.
From S2P Require PrivateJson SyncMsg ChatLog.

(** ** A store's memory and its file *)

Section Sync.
Context (IsAbs : string -> bool) (Clean : string -> string) (path : string).
Context (Q : Journal -> Prop) (allowed : Op -> Prop).
Hypothesis Hspec : forall op j, allowed op -> args_ok op = true -> Q j -> Q (spec op j).
Hypothesis Hpath : Clean path <> ""%string.

(** If memory has the property then so has the file. *)
Definition synced (sys : Sys) : Prop :=
  match sys_store sys with
  | Some st => Q (abs (store_data st)) -> file_ok Q (sys_file sys)
  | None => True
  end.

Lemma op_synced env op sys : op_int64 op -> allowed op ->
  sys_ok Clean path (fun _ => True) sys -> synced sys -> synced (fst (run env op sys)).
Proof.
  intros Hint Hall [Hs _] Hsync. destruct sys as [[[p c]|] file].
  - destruct Hs as (Hc & Hg & _ & Hp). simpl in Hc, Hg, Hp. subst p.
    destruct (run_outcome env op (Clean path) c file Hpath Hc Hg) as (c' & file' & err & Erun & Hout).
    unfold sysOf in Erun. rewrite Erun. unfold synced in *. cbn [fst sys_store sys_file store_data] in *.
    assert (Hnext : forall n, args_ok op = true -> wf n -> abs n = spec op (abs c) -> gaps_int64 n).
    { intros n Ha Hn E. apply gaps_int64_iff; [done|]. rewrite E.
      apply spec_gaps_bound, gaps_int64_iff; done. }
    destruct Hout as [|Ha _ E|env' n e f' Ha Hn E Ew|n Ha Hn E]; try done; intros HQ.
    + destruct (PrivateJson.WriteAtomic_atomic env' file n) as [Hw|Hw]; rewrite Ew in Hw;
        simpl in Hw; subst f'; [auto|].
      apply (encoded_ok Q PrivateJson.privateFile n); auto. rewrite E. auto.
    + by apply (encoded_ok Q PrivateJson.privateFile n); eauto.
  - by rewrite run_closed.
Qed.

Lemma Open_synced env file file' r : file_ok (fun _ => True) file -> partial_ok (o_initial env) ->
  Open IsAbs Clean env path file = (file', r) -> synced (mkSys (opened r) file').
Proof.
  intros Hf Hpart. unfold Open. intros E.
  destruct (_ || _); [simplify_eq; exact I|]. destruct (translate _); [simplify_eq; exact I|].
  destruct (PrivateJson.Read _ file) as [[v|]|e] eqn:Er; [| |simplify_eq; exact I].
  - destruct (proj2 Hf _ _ Er) as [Hg _].
    destruct (migrate v) as [[d m]|e] eqn:Em; [|simplify_eq; exact I].
    pose proof (migrate_wf _ _ _ Em) as Hwf. pose proof (migrate_gaps _ _ _ Em Hg) as Hgd.
    destruct m.
    + destruct (PrivateJson.WriteAtomic _ _ _) as [f e] eqn:Ew.
      destruct e as [e|]; [destruct e; simpl in E; simplify_eq; exact I|].
      apply PrivateJson.WriteAtomic_ok in Ew as ->. simpl in E. simplify_eq. intros HQ.
      by apply (encoded_ok Q PrivateJson.privateFile d).
    + simplify_eq. intros HQ. simpl in HQ |- *. split.
      * intros ->. by destruct (o_read env) as [[] ?].
      * intros renv v' Er'. pose proof (PrivateJson.Read_same _ _ _ _ _ Er Er') as ->.
        split; [done|]. intros d' m' Em'. rewrite Em in Em'. injection Em' as <- <-. exact HQ.
  - pose proof (PrivateJson.Read_missing _ _ Er) as ->.
    destruct (PrivateJson.WriteInitial _ _ _) as [f e] eqn:Ew.
    destruct e as [e|]; [destruct e; simpl in E; simplify_eq; exact I|]. simpl in E. simplify_eq. intros HQ.
    rewrite (PrivateJson.WriteInitial_ok _ _ _ _ Ew).
    apply (encoded_ok Q PrivateJson.privateFile); [apply initial_wf | by constructor | done].
Qed.

Lemma steps_synced sys sys' : steps IsAbs Clean path allowed sys sys' ->
  sys_ok Clean path (fun _ => True) sys -> synced sys -> synced sys'.
Proof.
  induction 1 as [|a b c Hstep Hrest IH]; [done|]. intros Hok Hsync.
  assert (Hok' : sys_ok Clean path (fun _ => True) b).
  { eapply (steps_ok IsAbs Clean path _ allowed); [| |by apply rtc_once|]; done. }
  apply IH; [done|]. destruct Hstep as [env file file' r Hp HO | env op s Hi Ha | s].
  - destruct Hok as [_ Hf]. by apply (Open_synced env file).
  - by apply op_synced.
  - exact I.
Qed.
End Sync.

(** A chat whose delivery from [log] on is recorded: something was committed,
    or the first live admission is at or below [log]. *)
Definition admitted (id log : Z) (j : Journal) : Prop :=
  0 < peek (j_commits j) id \/ 0 < peek (j_starts j) id <= log.

Lemma spec_admitted id log op j : keeps id op -> args_ok op = true ->
  admitted id log j -> admitted id log (spec op j).
Proof.
  intros Hk Ha Hj. unfold admitted, peek in *.
  destruct op; cbn [keeps args_ok] in Hk, Ha; bool_prop; simpl; try exact Hj.
  - rewrite (forget_other j_commits), (forget_other j_starts) by done. exact Hj.
  - destruct (j_commits j !! id0) as [m|] eqn:Em; [exact Hj|]. simpl.
    destruct Hj as [Hj|Hj]; [by left|]. right.
    destruct (decide (id0 = id)) as [->|]; [|by rewrite lookup_insert_ne].
    rewrite lookup_insert_eq. simpl. destruct (j_starts j !! id); simpl in *; lia.
  - rewrite raise_lookup. destruct (decide (id0 = id)) as [->|]; [left; simpl; lia|].
    by rewrite lookup_delete_ne.
Qed.

Lemma admission_admitted id log j : 0 < log ->
  (forall k m, j_commits j !! k = Some m -> 0 < m) -> (forall k m, j_starts j !! k = Some m -> 0 < m) ->
  admitted id log (spec (OpDeliveryStart id log) j).
Proof.
  intros Hlog Hpos Hs. unfold admitted. simpl. destruct (j_commits j !! id) as [m|] eqn:Em.
  - left. unfold peek. rewrite Em. by apply (Hpos id).
  - right. simpl. unfold peek. rewrite lookup_insert_eq. simpl.
    destruct (j_starts j !! id) as [s|] eqn:Es; [pose proof (Hs _ _ Es)|]; lia.
Qed.

Section Resume.
Context (IsAbs : string -> bool) (Clean : string -> string) (path : string).
Hypothesis Hpath : Clean path <> ""%string.
Context (file : PrivateJson.File Checkpoint).
Hypothesis Hfile : typed_file file.

Lemma admission_recorded env s id log s1 :
  steps IsAbs Clean path (keeps id) (mkSys None file) s -> int64 id -> int64 log ->
  RecordDeliveryStart env s id log = (s1, None) ->
  0 < id /\ 0 < log /\ sys_ok Clean path (admitted id log) s1.
Proof.
  intros Hsteps Hid Hlog E.
  assert (Hok : sys_ok Clean path (fun _ => True) s).
  { eapply (steps_ok IsAbs Clean path _ (keeps id)); [| |exact Hsteps|]; done. }
  assert (Hsync : synced (admitted id log) s).
  { eapply (steps_synced IsAbs Clean path _ (keeps id)); [| |exact Hsteps|..]; [|done|done|exact I].
    intros op j. apply spec_admitted. }
  pose proof (op_synced Clean path (admitted id log) (keeps id)
    ltac:(intros op j; apply spec_admitted) Hpath env (OpDeliveryStart id log) s (conj Hid Hlog) I Hok Hsync) as Hsync1.
  pose proof (op_ok Clean path (fun _ => True) (keeps id) ltac:(done) Hpath env
    (OpDeliveryStart id log) s (conj Hid Hlog) I Hok) as Hok1.
  simpl in Hsync1, Hok1. rewrite E in Hsync1, Hok1. simpl in Hsync1, Hok1.
  destruct s as [[[p c]|] f].
  - destruct Hok as [(Hc & Hg & _ & Hp) _]. simpl in Hc, Hg, Hp. subst p.
    destruct (run_outcome env (OpDeliveryStart id log) (Clean path) c f Hpath Hc Hg)
      as (c' & file' & err & Erun & Hout). unfold sysOf in Erun. simpl in Erun. rewrite E in Erun.
    injection Erun as -> Herr.
    assert (HQ : args_ok (OpDeliveryStart id log) = true /\ admitted id log (abs c')).
    { destruct (wf_journal_pos c Hc) as [H1 H2].
      destruct Hout as [|Ha _ Hs|env' n e f' Ha Hn Habs Ew|n Ha Hn Habs];
        [done | split; [done|] | by destruct e | split; [done|]];
        [rewrite <- Hs | rewrite Habs]; simpl in Ha; apply admission_admitted; try done; lia. }
    destruct HQ as [Ha HQ]. simpl in Ha. split_and!; [lia | lia |]. split.
    + destruct Hok1 as [(? & ? & _ & ?) _]. by split_and!.
    + apply Hsync1. exact HQ.
  - unfold RecordDeliveryStart in E. destruct (_ || _); [done|]. simpl in E. done.
Qed.

(** C25: once live admission of a message was recorded, every store opened
    later, whatever fails in between, either has the message committed or has
    its chat selected for catch-up, starting at or below the position before
    the message, as soon as the login inventory reaches the message; until a
    session installs the chat as deleted. *)
Theorem admitted_is_resumable env s id log s1 s2 st target :
  steps IsAbs Clean path (keeps id) (mkSys None file) s -> int64 id -> int64 log ->
  RecordDeliveryStart env s id log = (s1, None) ->
  steps IsAbs Clean path (keeps id) s1 s2 -> sys_store s2 = Some st ->
  target ∈ InitialSyncTargets (store_data st) -> SyncMsg.Target_ChatID target = id ->
  log <= SyncMsg.Target_MaxLogID target ->
  IsCommitted (Some st) id log = true \/
  (target ∈ ResumeTargets (store_data st) /\ resumeCursor (store_data st) id < log).
Proof.
  intros Hsteps Hid Hlog E Hsteps2 Hst Ht Hchat Hreach.
  destruct (admission_recorded _ _ _ _ _ Hsteps Hid Hlog E) as (Hpid & Hplog & Hok1).
  assert (Hok2 : sys_ok Clean path (admitted id log) s2).
  { eapply (steps_ok IsAbs Clean path _ (keeps id)); [| |exact Hsteps2|]; [|done|done].
    intros op j. apply spec_admitted. }
  destruct Hok2 as [Hs2 _]. rewrite Hst in Hs2. destruct Hs2 as (Hc & _ & HQ & _).
  destruct st as [p c]. cbn [store_data] in Hc, HQ, Ht |- *. rewrite (IsCommitted_abs c Hc p id log).
  unfold ResumeTargets, needsCatchUp, resumeCursor.
  destruct (log <=? peek (j_commits (abs c)) id) eqn:El; [left; lia|right].
  rewrite list_elem_of_filter, Hchat, (CommittedMax_abs c Hc), (FirstDeliveryStart_abs c Hc).
  assert (Hnn : 0 <= peek (j_commits (abs c)) id).
  { unfold peek. destruct (_ !! id) as [m|] eqn:Em; simpl; [|lia].
    pose proof (proj1 (wf_journal_pos c Hc) _ _ Em). lia. }
  unfold admitted in HQ. split; [split; [|done]|].
  - destruct HQ; lia.
  - destruct (_ =? 0) eqn:E0; [|lia]. destruct (0 <? peek (j_starts (abs c)) id) eqn:E1; destruct HQ; lia.
Qed.
End Resume.

(** ** One packet, one commit *)

Section Client.
Context `{AcquiredStore}.

(** The stream emits a message event only if its position was neither
    committed nor emitted recently; when it does, the position's admission is
    recorded in the checkpoint and its commit is queued last for its chat. *)
Theorem emitted_is_recorded env c st packet c' st' out go e id log :
  good c -> int64 id -> int64 log ->
  handlePacket env c st packet = (c', st', out, go) ->
  EventResult e ∈ out -> MessagePosition e = Some (id, log) ->
  IsCommitted (sys_store (checkpoint c)) id log = false /\ ~ ((id, log) ∈ seen st) /\
  st' = remember st (id, log) /\
  0 < id /\ 0 < log /\ admitted id log (journal c') /\ pending c' id = pending c id ++ [log].
Proof.
  intros Hg Hid Hlog E Hin Hpos. unfold handlePacket in E.
  assert (Hnoerr : forall r, EventResult e ∉ emit env (ErrResult r)).
  { intros r. unfold emit. destruct (de_emitted env); [by intros ?%list_elem_of_singleton | by intros ?%elem_of_nil]. }
  assert (Hsame : forall ev, EventResult e ∈ emit env (EventResult ev) -> ev = e).
  { intros ev. unfold emit. destruct (de_emitted env); [by intros [= ->]%list_elem_of_singleton | by intros ?%elem_of_nil]. }
  destruct (DecodeForDelivery packet) as [ev|de] eqn:Ed.
  2: { destruct (_ || _); injection E as <- <- <- <-; by apply Hnoerr in Hin. }
  destruct (negb (de_observed env)); [injection E as <- <- <- <-; by apply Hnoerr in Hin|].
  destruct (MessagePosition ev) as [[i l]|] eqn:Ep.
  2: { destruct (isTerminal ev); injection E as <- <- <- <-; apply Hsame in Hin; congruence. }
  destruct (IsCommitted _ i l) eqn:Ec; [injection E as <- <- <- <-; by apply elem_of_nil in Hin|].
  destruct (bool_decide _) eqn:Eb; [injection E as <- <- <- <-; by apply elem_of_nil in Hin|].
  apply bool_decide_eq_false in Eb.
  pose proof Hg as (path & data & file & Ek & _). rewrite Ek in E at 1. cbn [sys_store sysOf] in E.
  destruct (RecordDeliveryStart (de_write env) (checkpoint c) i l) as [sys [err|]] eqn:Er.
  { injection E as <- <- <- <-. by apply Hnoerr in Hin. }
  assert (ev = e /\ st' = remember st (i, l) /\ journal c' = journal (set_checkpoint sys c) /\
    pending c' i = pending c i ++ [l]) as (-> & -> & Hj & Hq).
  { destruct (isTerminal ev); injection E as <- <- <- <-; (split; [by apply Hsame|]); (split; [done|]);
      (split; [done|]); change (pending (queueCommit (set_checkpoint sys c) i l) i = pending c i ++ [l]);
      by rewrite pending_queueCommit, decide_True. }
  rewrite Hpos in Ep. injection Ep as <- <-. rewrite Hj.
  destruct (good_run (de_write env) (OpDeliveryStart id log) c sys None Hg (conj Hid Hlog) Er) as [_ [Ha ->]].
  simpl in Ha. destruct (good_snapshot c Hg) as [Hwf Habs]. destruct (wf_journal_pos _ Hwf) as [H2 H3].
  rewrite Habs in H2, H3. split_and!; try done; try lia.
  apply admission_admitted; try done; lia.
Qed.

(** A commit succeeds exactly for the event at the head of its chat's
    queue, on an open client, when the checkpoint is written; then the position
    is committed, the journal changed by that commit only and the queue
    advanced.  Any failure leaves the journal and the queues as they were. *)
Theorem CommitEvent_outcome env c event c' err :
  good c -> (forall id log, MessagePosition event = Some (id, log) -> int64 id /\ int64 log) ->
  CommitEvent env c event = (c', err) ->
  match err with
  | None => exists id log, MessagePosition event = Some (id, log) /\ closed c = false /\
      pending c id = log :: pending c' id /\
      (forall k, k <> id -> pending c' k = pending c k) /\
      IsCommitted (sys_store (checkpoint c')) id log = true /\
      journal c' = spec (OpCommit id log) (journal c)
  | Some e =>
      pendingCommits c' = pendingCommits c /\ journal c' = journal c /\
      (e = errCommitOrder -> exists id log, MessagePosition event = Some (id, log) /\ hd_error (pending c id) <> Some log)
  end.
Proof.
  intros Hg Hint E. unfold CommitEvent in E.
  destruct (MessagePosition event) as [[id log]|] eqn:Epos; [|injection E as <- <-; by split_and!].
  destruct (Hint id log eq_refl) as [Hid Hlog].
  destruct (closed c); [injection E as <- <-; by split_and!|].
  pose proof Hg as (path & data & file & Ek & _). rewrite Ek in E at 1. cbn [sys_store sysOf] in E.
  destruct (pending c id) as [|head rest] eqn:Ep.
  { injection E as <- <-. split_and!; [done..|]. intros _. exists id, log. by rewrite Ep. }
  destruct (negb (head =? log)) eqn:Eh; bool_prop.
  { injection E as <- <-. split_and!; [done..|]. intros _. exists id, log. rewrite Ep. split; [done|].
    intros [= ->]. done. }
  subst head. destruct (CommitMessage env (checkpoint c) id log) as [[sys a] e] eqn:Ec.
  assert (Erun : run env (OpCommit id log) (checkpoint c) = (sys, e)) by (simpl; by rewrite Ec).
  destruct (good_run env (OpCommit id log) c sys e Hg (conj Hid Hlog) Erun) as [Hg' Hj].
  destruct e as [e|]; injection E as <- <-; [by split_and!|].
  destruct Hj as [Ha Hj]. simpl in Ha. exists id, log.
  set (c1 := match rest with [] => _ | _ => _ end).
  assert (Hc1 : checkpoint c1 = sys /\ journal c1 = journal (set_checkpoint sys c) /\ pending c1 id = rest /\
    forall k, k <> id -> pending c1 k = pending c k).
  { unfold c1, pending. destruct rest; simpl; split_and!; try done; try (intros k Hk); by simplify_map_eq. }
  clearbody c1. destruct Hc1 as (Hck & Hjk & Hp & Hother). split_and!; try done.
  - by rewrite Hp.
  - destruct Hg' as (path' & data' & file' & E' & _ & Hc' & _). simpl in E'. rewrite Hck, E'. cbn [sys_store sysOf].
    rewrite (IsCommitted_abs data' Hc'). unfold journal in Hj. simpl in Hj. rewrite E' in Hj. simpl in Hj.
    rewrite Hj. simpl. rewrite raise_peek, decide_True by done. lia.
  - by rewrite Hjk.
Qed.

(** A MSG packet whose identity cannot be established stops the session:
    its error is the last result, the checkpoint and the queues are kept, and
    from then on nothing can be committed or written. *)
Theorem unidentifiable_message_stops env c st packet :
  Method packet = "MSG"%string -> ~ (exists id, identifiable (Body packet) id) ->
  exists c', handlePacket env c st packet =
    (c', st, emit env (ErrResult (DecodeFailed ErrUnidentifiableMessage)), false) /\
  checkpoint c' = checkpoint c /\ pendingCommits c' = pendingCommits c /\
  (forall env' event, exists e, CommitEvent env' c' event = (c', Some e)) /\
  (forall fn, checkpointWrite c' fn = (c', Some ErrClientClosed)).
Proof.
  intros Hm Hid. exists (interruptTerminal c). pose proof (delivery_identity packet) as K.
  unfold isMessageMethod in K. rewrite Hm in K. specialize (K eq_refl). unfold handlePacket. rewrite Hm.
  destruct (DecodeForDelivery packet) as [e|e].
  { destruct K as (i & Hi & _). exfalso. apply Hid. by exists i. }
  destruct K as [-> _]. split_and!; try done. intros env' event. unfold CommitEvent. simpl.
  destruct (MessagePosition event) as [[? ?]|]; by eexists.
Qed.

(** An edit or delete push whose identity cannot be established does not
    stop delivery: its error is emitted and the session goes on unchanged. *)
Theorem unidentifiable_edit_continues env c st packet :
  Method packet = "SYNCMODMSG"%string \/ Method packet = "SYNCDLMSG"%string ->
  ~ (exists id, identifiable (Body packet) id) -> de_emitted env = true ->
  handlePacket env c st packet = (c, st, [ErrResult (DecodeFailed ErrUnidentifiableMessage)], true).
Proof.
  intros Hm Hid Hem. pose proof (delivery_identity packet) as K. unfold handlePacket, emit. rewrite Hem.
  destruct Hm as [Hm|Hm]; rewrite Hm in *; specialize (K eq_refl);
    (destruct (DecodeForDelivery packet) as [e|e];
      [destruct K as (i & Hi & _); exfalso; apply Hid; by exists i | by destruct K as [-> _]]).
Qed.
End Client.

(** ** Witnesses *)

(** Live admission of message 20 is recorded for a chat with nothing committed,
    then the process restarts. *)
Definition wLogin : Sys :=
  fst (InstallSession PrivateJson.writeOk freshSys None None [mkChatTarget 7 30] [] false).
Definition wAdmitted : Sys := fst (RecordDeliveryStart PrivateJson.writeOk wLogin 7 20).

Lemma admitted_is_resumable_witness :
  match sys_store (reopen wAdmitted) with
  | Some st => IsCommitted (Some st) 7 20 = true \/
      (SyncMsg.mkTarget 7 30 ∈ ResumeTargets (store_data st) /\ resumeCursor (store_data st) 7 < 20)
  | None => False
  end.
Proof.
  refine (admitted_is_resumable everyPath samePath "/p" _ PrivateJson.Missing fresh_typed PrivateJson.writeOk
    wLogin 7 20 wAdmitted (reopen wAdmitted) _ (SyncMsg.mkTarget 7 30) _ _ _ _ _ _ _ _ _).
  - discriminate.
  - eapply rtc_l; [|apply rtc_once]; [|by apply (step_op _ _ _ _ PrivateJson.writeOk
      (OpInstall None None [mkChatTarget 7 30] [] false) freshSys); [|set_solver]].
    apply (step_open _ _ _ _ openOk PrivateJson.Missing _
      (snd (Open everyPath samePath openOk "/p" PrivateJson.Missing))); [by left | reflexivity].
  - vm_compute. split; discriminate.
  - vm_compute. split; discriminate.
  - vm_compute. reflexivity.
  - apply reopen_steps. constructor.
  - vm_compute. reflexivity.
  - vm_compute. left.
  - reflexivity.
  - vm_compute. discriminate.
Defined.

Definition wDelivered := handlePacket deliverOk demoClient initialStream (demoMessage 21).

Lemma emitted_is_recorded_witness :
  pending (fst (fst (fst wDelivered))) 7 = pending demoClient 7 ++ [21].
Proof.
  refine (proj2 (proj2 (proj2 (proj2 (proj2 (proj2 (emitted_is_recorded deliverOk demoClient initialStream
    (demoMessage 21) (fst (fst (fst wDelivered))) (snd (fst (fst wDelivered)))
    (snd (fst wDelivered)) (snd wDelivered) (demoEvent 21) 7 21 demoClient_good _ _ _ _ _))))))).
  - vm_compute. split; discriminate.
  - vm_compute. split; discriminate.
  - fold wDelivered. by destruct wDelivered as [[[? ?] ?] ?].
  - assert (E : snd (fst wDelivered) = [EventResult (demoEvent 21)]) by reflexivity.
    rewrite E. left.
  - reflexivity.
Defined.

(** The same client with commits 21 and 22 pending. *)
Definition wPending : Client := queueCommit (queueCommit demoClient 7 21) 7 22.

Lemma CommitEvent_outcome_witness :
  (exists id log, MessagePosition (demoEvent 21) = Some (id, log) /\
    pending wPending id = log :: pending (fst (CommitEvent PrivateJson.writeOk wPending (demoEvent 21))) id) /\
  snd (CommitEvent PrivateJson.writeOk wPending (demoEvent 22)) = Some errCommitOrder.
Proof.
  split; [|vm_compute; reflexivity].
  destruct (CommitEvent_outcome PrivateJson.writeOk wPending (demoEvent 21)
    (fst (CommitEvent PrivateJson.writeOk wPending (demoEvent 21))) None) as (id & log & Hp & _ & Hq & _).
  - destruct demoClient_good as (path & data & file & E & K). by exists path, data, file.
  - intros id log [= <- <-]. vm_compute. by split; split.
  - vm_compute. reflexivity.
  - by exists id, log.
Defined.

(** A MSG packet without a chat. *)
Definition wNameless : Packet := mkPacket _ "MSG" (Tree [("chatLog"%string, VDocument (demoLog 20 0 "a"))]).

Lemma unidentifiable_message_stops_witness :
  exists c', handlePacket deliverOk demoClient initialStream wNameless =
    (c', initialStream, [ErrResult (DecodeFailed ErrUnidentifiableMessage)], false) /\
  checkpoint c' = checkpoint demoClient.
Proof.
  destruct (unidentifiable_message_stops deliverOk demoClient initialStream wNameless) as (c' & E & K & _).
  - reflexivity.
  - intros (id & E & _). vm_compute in E. discriminate.
  - by exists c'.
Defined.

(** A delete push without a chat. *)
Definition wNamelessDelete : Packet := mkPacket _ "SYNCDLMSG" (Body wNameless).

Lemma unidentifiable_edit_continues_witness :
  handlePacket deliverOk demoClient initialStream wNamelessDelete =
    (demoClient, initialStream, [ErrResult (DecodeFailed ErrUnidentifiableMessage)], true).
Proof.
  refine (unidentifiable_edit_continues deliverOk demoClient initialStream wNamelessDelete _ _ _).
  - right. reflexivity.
  - intros (id & E & _). vm_compute in E. discriminate.
  - reflexivity.
Defined.
