(* ===== verification/CatchUpTheorems.v ===== *)
(** * Theorems about catch-up

    What [CatchUp] and [CatchUpAll] (src/internal/client/sync.go,
    bulk_catchup.go) account for: every position of a missed interval is
    delivered, known vacant, or recorded as a gap. *)

From S2P Require Import Prelude.
From S2P Require Import Bytes Bson Events Continuity SortedSlices ContinuitySpec ContinuityProps ContinuityTheorems.
From S2P Require Import Delivery CatchUp BulkCatchUp ProtocolTheorems ClientFacts BulkFacts Demo.
From S2P Require PrivateJson SyncMsg MChatLogs ChatLog.

#[local] Open Scope list_scope.
#[local] Open Scope Z_scope.

(** ** Gaps of the journal *)

Lemma recordGap_covers id from to j p : from <= p <= to -> covered (spec (OpRecordGap id from to) j) id p.
Proof.
  intros Hp. unfold covered. simpl. rewrite lookup_insert_eq.
  destruct (j_gaps j !! id) as [[f t]|]; eexists _, _; (split; [done|]); lia.
Qed.

Section Gaps.
Context (c : Client) (Hgood : good c).

(** A recorded gap covers its interval; no other coverage is lost. *)
Lemma recordGap_ok env id from to c' : int64 id -> int64 from -> int64 to ->
  recordGap env c id from to = (c', None) ->
  good c' /\ same_queue c c' /\ (forall p, from <= p <= to -> covered (journal c') id p) /\
  (forall k p, covered (journal c) k p -> covered (journal c') k p).
Proof.
  intros Hid Hfrom Hto E. apply (good_write env (OpRecordGap id from to)) in E as (Hg & Hq & _ & Hj); [|done..].
  split_and!; try done; rewrite Hj.
  - intros p. apply recordGap_covers.
  - intros k p. by apply leaves_gap.
Qed.

Lemma recordGap_good env id from to c' err : int64 id -> int64 from -> int64 to ->
  recordGap env c id from to = (c', err) -> good c' /\ same_queue c c'.
Proof. intros Hid Hfrom Hto E. by apply (good_write env (OpRecordGap id from to)) in E as (? & ? & _). Qed.

Lemma resolveGap_ok env id through c' : int64 id -> int64 through ->
  resolveGap env c id through = (c', None) ->
  good c' /\ same_queue c c' /\
  (forall k p, (k = id -> through < p) -> covered (journal c) k p -> covered (journal c') k p).
Proof.
  intros Hid Hto E. apply (good_write env (OpResolveGap id through)) in E as (Hg & Hq & _ & Hj); [|done..].
  split_and!; try done. intros k p Hkp. rewrite Hj. apply leaves_gap. simpl. intros ->. by apply Hkp.
Qed.
End Gaps.

(** ** Selection *)

Section Bulk.
Context `{AcquiredStore} (env : BulkEnv).

Lemma resume_range state target : wf state -> target ∈ ResumeTargets state ->
  0 <= resumeCursor state (SyncMsg.Target_ChatID target) < SyncMsg.Target_MaxLogID target.
Proof.
  intros Hwf [Hn _]%list_elem_of_filter. unfold needsCatchUp, resumeCursor in *.
  rewrite (CommittedMax_abs _ Hwf), (FirstDeliveryStart_abs _ Hwf) in *.
  pose proof (peek_nonneg (j_commits (abs state)) (SyncMsg.Target_ChatID target)
    (proj1 (wf_journal_pos _ Hwf))).
  destruct (_ =? 0) eqn:E0; [destruct (0 <? peek (j_starts _) _) eqn:E1|]; lia.
Qed.

Lemma ascending_lt {T} `{ChatKeyed T} p (l : list T) : ascending p l ->
  StronglySorted Z.lt (Continuity.chatID <$> l).
Proof.
  revert p. induction l as [|x l IH]; intros p Ha; [constructor|].
  rewrite fmap_cons. destruct Ha as [_ Ha]. constructor; [by eapply IH|].
  apply Forall_fmap, Forall_forall. intros y Hy. simpl. by eapply ascending_bound.
Qed.

Lemma StronglySorted_filter {A} (R : A -> A -> Prop) (P : A -> Prop) `{forall x, Decision (P x)} l :
  StronglySorted R l -> StronglySorted R (filter P l).
Proof.
  induction 1 as [|x l Hs IH Hall]; [constructor|]. destruct (decide (P x)).
  - rewrite filter_cons_True by done. constructor; [done|].
    apply Forall_forall. intros y [_ Hy]%list_elem_of_filter. rewrite Forall_forall in Hall. by apply Hall.
  - by rewrite filter_cons_False.
Qed.

Lemma sorted_keys {A B} (f : A -> B) (R : B -> B -> Prop) l :
  StronglySorted R (f <$> l) <-> StronglySorted (fun a b => R (f a) (f b)) l.
Proof.
  induction l as [|x l IH]; split; intros Hs; try constructor; rewrite ?fmap_cons in *;
    apply StronglySorted_inv in Hs as [Hs Hall]; try (by apply IH); by apply Forall_fmap.
Qed.

(** The resumed chats are in ascending order. *)
Lemma resume_ascending state : wf state ->
  StronglySorted Z.lt (SyncMsg.Target_ChatID <$> ResumeTargets state).
Proof.
  intros Hwf. apply sorted_keys. unfold ResumeTargets, InitialSyncTargets.
  apply StronglySorted_filter, (sorted_keys SyncMsg.Target_ChatID). rewrite <- list_fmap_compose.
  change (SyncMsg.Target_ChatID ∘ toTarget) with (@Continuity.chatID ChatTarget _).
  apply sorted_keys, StronglySorted_filter, (sorted_keys Continuity.chatID). eapply ascending_lt, (wf_known _ Hwf).
Qed.

Lemma StronglySorted_NoDup_lt (l : list Z) : StronglySorted Z.lt l -> NoDup l.
Proof.
  induction 1 as [|x l Hs IH Hall]; [constructor|]. constructor; [|done].
  intros Hin. rewrite Forall_forall in Hall. apply Hall in Hin. lia.
Qed.

Lemma sorted_lt_unique (l1 l2 : list Z) : StronglySorted Z.lt l1 -> StronglySorted Z.lt l2 ->
  (forall x, x ∈ l1 <-> x ∈ l2) -> l1 = l2.
Proof.
  assert (Hle : forall l, StronglySorted Z.lt l -> StronglySorted Z.le l).
  { induction 1 as [|x l Hs IH Hall]; constructor; try done. eapply Forall_impl; [exact Hall|]. simpl. lia. }
  intros K1 K2 Heq. apply (StronglySorted_unique Z.le); [by apply Hle..|].
  apply NoDup_Permutation; [by apply StronglySorted_NoDup_lt..|done].
Qed.

Lemma targetRooms_lookup state floor targets : forall m : gmap Z chainRoom,
  StronglySorted Z.lt (SyncMsg.Target_ChatID <$> targets) ->
  let rooms := foldl (fun rooms t => <[SyncMsg.Target_ChatID t := targetRoom state floor t]> rooms) m targets in
  (forall t, t ∈ targets -> rooms !! SyncMsg.Target_ChatID t = Some (targetRoom state floor t)) /\
  (forall id r, rooms !! id = Some r -> m !! id = Some r \/
    exists t, t ∈ targets /\ SyncMsg.Target_ChatID t = id /\ r = targetRoom state floor t) /\
  (forall id, id ∉ SyncMsg.Target_ChatID <$> targets -> rooms !! id = m !! id).
Proof.
  induction targets as [|t targets IH]; intros m Hs; simpl.
  { split_and!; [intros t Ht; by apply elem_of_nil in Ht | by left | done]. }
  rewrite fmap_cons in Hs. apply StronglySorted_inv in Hs as [Hs Hlt].
  assert (Hnin : SyncMsg.Target_ChatID t ∉ SyncMsg.Target_ChatID <$> targets).
  { intros Hin. rewrite Forall_forall in Hlt. apply Hlt in Hin. lia. }
  destruct (IH (<[SyncMsg.Target_ChatID t := targetRoom state floor t]> m) Hs) as (K1 & K2 & K3).
  split_and!.
  - intros t' [->|Hin]%elem_of_cons; [|by apply K1]. rewrite K3 by done. apply lookup_insert_eq.
  - intros id r Hr. destruct (K2 id r Hr) as [Hm|(t' & Hin & ? & ?)].
    + apply lookup_insert_Some in Hm as [[<- <-]|[_ Hm]]; [right; exists t|by left].
      split_and!; [by left | done | done].
    + right. exists t'. split_and!; [by right | done | done].
  - intros id [Hne Hid]%not_elem_of_cons. rewrite K3 by done. by rewrite lookup_insert_ne.
Qed.

Lemma selectChat_keeps cursors floor chat rooms id r :
  rooms !! id = Some r -> selectChat cursors floor rooms chat !! id = Some r.
Proof.
  intros Hr. unfold selectChat. destruct (bool_decide (is_Some (rooms !! cd_ChatID chat))) eqn:Eb; [done|].
  apply bool_decide_eq_false in Eb. destruct (_ || _); [done|]. destruct (_ && _); [|done].
  apply lookup_insert_Some. right. split; [|done]. intros <-. apply Eb. by exists r.
Qed.

Lemma selectChat_adds cursors floor chat rooms id r :
  selectChat cursors floor rooms chat !! id = Some r -> rooms !! id = Some r \/ chatID r = id /\ catchUp r = false.
Proof.
  unfold selectChat. destruct (_ || _); [by left|]. destruct (_ && _); [|by left].
  intros [[<- <-]|[_ ?]]%lookup_insert_Some; [by right | by left].
Qed.

(** The chain starts with the resumed chats at their cursors, and possibly
    others that do not catch up. *)
Definition selected (state : Checkpoint) (rooms : gmap Z chainRoom) : Prop :=
  exists floor,
  (forall t, t ∈ ResumeTargets state -> rooms !! SyncMsg.Target_ChatID t = Some (targetRoom state floor t)) /\
  (forall id r, rooms !! id = Some r -> chatID r = id /\ catchUp r = false \/
    exists t, t ∈ ResumeTargets state /\ SyncMsg.Target_ChatID t = id /\ r = targetRoom state floor t).

Lemma selectBulkRooms_selected state store history rooms : wf state ->
  selectBulkRooms env state store history = Ok rooms -> selected state rooms.
Proof.
  intros Hwf. unfold selectBulkRooms. destruct (be_inventory env); [|done].
  destruct (be_floor env) as [floor|]; [|done].
  destruct (targetRooms_lookup state floor (ResumeTargets state) ∅ (resume_ascending _ Hwf)) as (K1 & K2 & _).
  fold (targetRooms state floor (ResumeTargets state)) in K1, K2.
  set (rooms0 := targetRooms _ _ _) in *.
  assert (Hbase : forall id r, rooms0 !! id = Some r -> chatID r = id /\ catchUp r = false \/
    exists t, t ∈ ResumeTargets state /\ SyncMsg.Target_ChatID t = id /\ r = targetRoom state floor t).
  { intros id r Hr. destruct (K2 id r Hr) as [Hm|?]; [by rewrite lookup_empty in Hm | by right]. }
  clearbody rooms0. clear K2. intros E. exists floor.
  assert (Hsel : rooms = rooms0 \/ exists cursors chats, rooms = foldl (selectChat cursors floor) rooms0 chats).
  { destruct history, store; try (injection E as <-; by left).
    destruct (be_chats env) as [chats|]; [|done]. injection E as <-. right. by eexists _, _. }
  destruct Hsel as [->|(cursors & chats & ->)]; [done|]. clear E.
  revert rooms0 K1 Hbase. induction chats as [|chat chats IH]; intros rooms0 K1 Hbase; [done|]. simpl. apply IH.
  - intros t Ht. by apply selectChat_keeps, K1.
  - intros id r Hr. apply selectChat_adds in Hr as [Hr|Hr]; [by apply Hbase | by left].
Qed.

Lemma targetRoom_ok state floor t : wf state -> t ∈ ResumeTargets state ->
  room_ok env (targetRoom state floor t) /\
  gapStart (targetRoom state floor t) = resumeCursor state (SyncMsg.Target_ChatID t) + 1.
Proof.
  intros Hwf Ht. pose proof (resume_range _ _ Hwf Ht) as Hr.
  assert (Hcur : cursor (targetRoom state floor t) = resumeCursor state (SyncMsg.Target_ChatID t)).
  { unfold targetRoom, resumeCursor in *. simpl. destruct (_ =? 0) eqn:E; [|done].
    destruct (0 <? FirstDeliveryStart _ _) eqn:E1; [done|]. exfalso.
    apply list_elem_of_filter in Ht as [Hn _]. unfold needsCatchUp in Hn.
    rewrite (FirstDeliveryStart_abs _ Hwf) in *.
    pose proof (peek_nonneg (j_starts (abs state)) (SyncMsg.Target_ChatID t) (proj2 (wf_journal_pos _ Hwf))). lia. }
  split; [|by rewrite <- Hcur]. constructor; simpl; try lia; try constructor.
  all: unfold targetRoom in Hcur; simpl in Hcur; rewrite ?Hcur; lia || done || idtac.
Qed.

(** ** Finishing *)

(** What a caught-up room promises about [from..Ceiling] in the client [c]. *)
Definition room_complete (c : Client) (from : Z) (room : CaughtUpRoom) : Prop :=
  StronglySorted Z.lt (logOf <$> Events room) /\
  Forall (fun e => at_chat (ChatID room) e /\ from < logOf e <= Ceiling room) (Events room) /\
  forall p, from < p <= Ceiling room ->
    p ∈ logOf <$> Events room \/ vacant env (ChatID room) p \/
    (Skipped room = true \/ Unresolved room = true) /\ covered (journal c) (ChatID room) p.

Definition room_int64 (r : chainRoom) : Prop := int64 (chatID r) /\ int64 (ceiling r).

Lemma Z_int64 lo x hi : 1 <= lo <= x -> x <= hi -> int64 hi -> int64 x.
Proof. unfold_ints. lia. Qed.

(** The gap of a room whose interval is not complete, then the rest. *)
Lemma finish_gaps state c id skip through unres from ceil c1 c2 w1 w2 :
  good c -> int64 id -> int64 ceil ->
  (0 < skip -> 1 <= skip <= through /\ through <= ceil) -> (unres = true -> 1 <= from <= ceil) ->
  (if 0 <? skip then recordGap w1 c id skip through else (c, None)) = (c1, None) ->
  (if unres then recordGap w2 c1 id from ceil
   else if negb (0 <? skip) && HasGapThrough state id ceil then resolveGap w2 c1 id ceil else (c1, None)) = (c2, None) ->
  good c2 /\ same_queue c c2 /\
  (forall p, (0 < skip <= p /\ p <= through) \/ (unres = true /\ from <= p <= ceil) -> covered (journal c2) id p) /\
  (forall k p, k <> id -> covered (journal c) k p -> covered (journal c2) k p).
Proof.
  intros Hg Hid Hceil Hskip Hunres E1 E2.
  assert (K1 : good c1 /\ same_queue c c1 /\ (forall p, 0 < skip <= p /\ p <= through -> covered (journal c1) id p) /\
    (forall k p, covered (journal c) k p -> covered (journal c1) k p)).
  { destruct (0 <? skip) eqn:Es.
    - assert (Hs := Hskip ltac:(lia)). apply (recordGap_ok c Hg) in E1 as (K1 & K2 & K3 & K4); try done;
        try (eapply (Z_int64 1 _ ceil); [lia | lia | done]).
      split_and!; try done. intros p Hp. apply K3. lia.
    - injection E1 as <-. split_and!; try done. intros p Hp. lia. }
  destruct K1 as (Hg1 & [Hq1 Hq1'] & K1 & K2).
  destruct unres.
  - assert (Hu := Hunres eq_refl). apply (recordGap_ok c1 Hg1) in E2 as (Hg2 & [Hq2 Hq2'] & K3 & K4); try done.
    2: { eapply (Z_int64 1 _ ceil); [lia | lia | done]. }
    split_and!; try done; [split; congruence | | by auto].
    intros p [Hp|[_ Hp]]; [by apply K4, K1 | by apply K3].
  - destruct (negb (0 <? skip) && _) eqn:En.
    + apply (resolveGap_ok c1 Hg1) in E2 as (Hg2 & [Hq2 Hq2'] & K3); try done.
      split_and!; try done; [split; congruence | |].
      * intros p [Hp|[? _]]; [lia|done].
      * intros k p Hk Hc. apply K3; [done|]. by apply K2.
    + injection E2 as <-. split_and!; try done; [|by auto].
      intros p [Hp|[? _]]; [by apply K1|done].
Qed.

Lemma finishRoom_complete store state c r c' out :
  good c -> room_ok env r -> room_int64 r ->
  finishRoom env store state c r = (c', Ok out) ->
  good c' /\ ChatID out = chatID r /\ Ceiling out = ceiling r /\
  room_complete c' (gapStart r - 1) out /\
  (forall k, pending c' k = if decide (chatID r = k) then pending c k ++ (logOf <$> Events out) else pending c k) /\
  (forall k p, k <> chatID r -> covered (journal c) k p -> covered (journal c') k p).
Proof.
  intros Hg [Hstart Hcursor Hskip Hchat Hsort Hrange Hcov] [Hid Hceil] E. unfold finishRoom in E.
  assert (Hpr : exists projected cur skip,
    (match projectAcquiredEvents store (events r) with
     | Ok projected => (projected, cursor r, skipFrom r) | Err _ => ([], gapStart r - 1, 0) end)
      = (projected, cur, skip) /\ gapStart r - 1 <= cur /\
    (0 < skip -> 1 <= skip <= skipThrough r /\ skipThrough r <= ceiling r) /\
    Forall (at_chat (chatID r)) projected /\ StronglySorted Z.lt (logOf <$> projected) /\
    Forall (fun l => gapStart r <= l <= ceiling r) (logOf <$> projected) /\
    forall p, gapStart r <= p <= Z.min cur (ceiling r) ->
      p ∈ logOf <$> projected \/ vacant env (chatID r) p \/ 0 < skip <= p /\ p <= skipThrough r).
  { destruct (projectAcquiredEvents store (events r)) as [projected|] eqn:Ep.
    - pose proof (projected_positions _ _ _ Ep) as Hpos.
      pose proof (positions_logs _ _ Hpos) as Hlogs.
      exists projected, (cursor r), (skipFrom r). rewrite Hlogs. split_and!; try done; try lia.
      + by apply (positions_Forall (fun p => exists l, p = Some (chatID r, l)) (events r)).
      + apply Forall_fmap. eapply Forall_impl; [exact Hrange|]. simpl. lia.
    - exists [], (gapStart r - 1), 0. split_and!; try done; try lia; constructor. }
  destruct Hpr as (projected & cur & skip & Epr & Hcur & Hskip' & K1 & K2 & K3 & K4).
  rewrite Epr in E. clear Epr.
  destruct (if 0 <? skip then _ else _) as [c1 [e|]] eqn:E1; [done|].
  destruct (if cur <? ceiling r then _ else _) as [c2 [e|]] eqn:E2; [done|]. injection E as <- <-.
  destruct (finish_gaps state c (chatID r) skip (skipThrough r) (cur <? ceiling r) (cur + 1) (ceiling r) c1 c2 _ _
    Hg Hid Hceil Hskip' ltac:(lia) E1 E2) as (Hg2 & [Hq Hq'] & K5 & K6).
  destruct (good_queue projected c2 Hg2) as [Hg3 Hj]. split_and!; try done; simpl.
  - split_and!; [done | |].
    + apply Forall_fmap in K3. simpl. apply Forall_and. split; [done|].
      eapply Forall_impl; [exact K3|]. simpl. lia.
    + simpl. rewrite Hj. intros p Hp. destruct (decide (p <= cur)) as [Hle|Hgt].
      * destruct (K4 p ltac:(lia)) as [?|[?|?]]; auto. right; right. split; [left; lia|].
        apply K5. by left.
      * right; right. split; [right; lia|]. apply K5. right. lia.
  - intros k. rewrite (pending_queueEvents (chatID r)) by done. unfold pending. by rewrite Hq.
  - intros k p. rewrite Hj. apply K6.
Qed.

(** Finishing the other rooms keeps what a room was promised. *)
Lemma room_complete_mono c c' from room :
  (forall p, covered (journal c) (ChatID room) p -> covered (journal c') (ChatID room) p) ->
  room_complete c from room -> room_complete c' from room.
Proof.
  intros Hc (K1 & K2 & K3). split_and!; try done. intros p Hp.
  destruct (K3 p Hp) as [?|[?|[? ?]]]; auto.
Qed.

Lemma finishBulkRooms_complete store state rooms : forall c c' outs,
  good c -> NoDup (chatID <$> rooms) -> Forall (fun r => room_ok env r /\ room_int64 r) rooms ->
  finishBulkRooms env store state c rooms = (c', Ok outs) ->
  good c' /\
  Forall2 (fun r out => ChatID out = chatID r /\ Ceiling out = ceiling r /\
    room_complete c' (gapStart r - 1) out /\
    pending c' (chatID r) = pending c (chatID r) ++ (logOf <$> Events out)) rooms outs /\
  (forall k, k ∉ chatID <$> rooms -> pending c' k = pending c k) /\
  (forall k p, k ∉ chatID <$> rooms -> covered (journal c) k p -> covered (journal c') k p).
Proof.
  induction rooms as [|r rooms IH]; intros c c' outs Hg Hnd Hall E; cbn [finishBulkRooms] in E.
  { injection E as <- <-. split_and!; done. }
  rewrite fmap_cons in Hnd |- *. apply NoDup_cons in Hnd as [Hnin Hnd].
  apply Forall_cons in Hall as [[Hr Hi] Hall].
  destruct (finishRoom env store state c r) as [c1 [out|]] eqn:E1; [|done].
  destruct (finishBulkRooms env store state c1 rooms) as [c2 [rest|]] eqn:E2; [|done]. injection E as <- <-.
  destruct (finishRoom_complete _ _ _ _ _ _ Hg Hr Hi E1) as (Hg1 & K1 & K2 & K3 & K4 & K5).
  destruct (IH _ _ _ Hg1 Hnd Hall E2) as (Hg2 & K6 & K7 & K8). split_and!; [done | | |].
  - constructor.
    + split_and!; try done.
      * eapply room_complete_mono; [|exact K3]. intros p. rewrite K1. by apply K8.
      * rewrite K7, K4 by done. by rewrite decide_True.
    + assert (Hin : Forall (fun x => chatID x <> chatID r) rooms).
      { apply Forall_forall. intros x Hx Heq. apply Hnin. rewrite <- Heq. by apply list_elem_of_fmap_2. }
      revert K6 Hin. clear -K4. induction 1 as [|x o l l' (L1 & L2 & L3 & L4) _ IHl]; intros Hin; [constructor|].
      apply Forall_cons in Hin as [Hne Hin]. constructor; [|by apply IHl]. split_and!; try done.
      by rewrite L4, K4, decide_False.
  - intros k [Hne Hk]%not_elem_of_cons. by rewrite K7, K4, decide_False.
  - intros k p [Hne Hk]%not_elem_of_cons Hc. by apply K8, K5.
Qed.

(** ** The whole call *)

Lemma sortedIDs_spec (rooms : gmap Z chainRoom) :
  StronglySorted Z.lt (sortedIDs rooms) /\ forall id, id ∈ sortedIDs rooms <-> is_Some (rooms !! id).
Proof.
  assert (Hin : forall id, id ∈ (fst <$> map_to_list rooms) <-> is_Some (rooms !! id)).
  { intros id. rewrite list_elem_of_fmap. split.
    - intros ([k r] & -> & Hr). apply elem_of_map_to_list in Hr. by eexists.
    - intros [r Hr]. exists (id, r). split; [done|]. by apply elem_of_map_to_list. }
  assert (Hp : sortedIDs rooms ≡ₚ fst <$> map_to_list rooms) by apply merge_sort_Permutation.
  split; [|intros id; by rewrite Hp].
  assert (Hs : StronglySorted Z.le (sortedIDs rooms)) by (apply StronglySorted_merge_sort; apply _).
  assert (Hnd : NoDup (sortedIDs rooms)) by (rewrite Hp; apply NoDup_fst_map_to_list).
  revert Hs Hnd. clear. induction 1 as [|x l Hs IH Hall]; intros Hnd; [constructor|].
  apply NoDup_cons in Hnd as [Hnin Hnd]. constructor; [by apply IH|].
  apply Forall_forall. intros y Hy. rewrite Forall_forall in Hall. specialize (Hall y Hy).
  assert (x <> y) by (by intros ->). lia.
Qed.

Lemma catchUpRooms_spec rooms : map_Forall (fun id r => chatID r = id) rooms ->
  StronglySorted Z.lt (chatID <$> catchUpRooms rooms) /\
  forall r, r ∈ catchUpRooms rooms <-> catchUp r = true /\ rooms !! chatID r = Some r.
Proof.
  intros Hids. destruct (sortedIDs_spec rooms) as [Hs Hin]. unfold catchUpRooms. split.
  - apply sorted_keys, StronglySorted_filter.
    clear Hin. induction Hs as [|id l Hs IH Hall]; [constructor|]. simpl.
    destruct (rooms !! id) as [r|] eqn:Er; [|done]. constructor; [done|].
    apply Forall_forall. intros y (id' & Hid' & Hy)%list_elem_of_omap.
    rewrite Forall_forall in Hall. rewrite (Hids _ _ Er), (Hids _ _ Hy). by apply Hall.
  - intros r. rewrite list_elem_of_filter, list_elem_of_omap. split.
    + intros [Hc (id & _ & Hr)]. split; [done|]. by rewrite (Hids _ _ Hr).
    + intros [Hc Hr]. split; [done|]. exists (chatID r). split; [|done]. apply Hin. by eexists.
Qed.

(** A chain that ran keeps the rooms it selected, each with its target. *)
Lemma chain_rooms state store history rooms fuel store' ch :
  wf state -> selectBulkRooms env state store history = Ok rooms ->
  chainLoop env fuel store (mkChain rooms (filter (fun id => isDone rooms id = false) (sortedIDs rooms)) history 0 0 0)
    = Some (store', Ok ch) ->
  rooms_ok env (ch_rooms ch) /\
  chatID <$> catchUpRooms (ch_rooms ch) = SyncMsg.Target_ChatID <$> ResumeTargets state /\
  forall r, r ∈ catchUpRooms (ch_rooms ch) -> exists t, t ∈ ResumeTargets state /\
    SyncMsg.Target_ChatID t = chatID r /\ SyncMsg.Target_MaxLogID t = ceiling r /\
    gapStart r = resumeCursor state (chatID r) + 1.
Proof.
  intros Hwf Esel Eloop. destruct (selectBulkRooms_selected _ _ _ _ Hwf Esel) as (floor & K1 & K2).
  destruct (sortedIDs_spec rooms) as [Hsort Hin].
  assert (Hok0 : chain_ok env (mkChain rooms (filter (fun id => isDone rooms id = false) (sortedIDs rooms)) history 0 0 0)).
  { constructor; simpl.
    - intros id r Hr. destruct (K2 id r Hr) as [[? Hc]|(t & Ht & <- & ->)]; [by rewrite Hc|].
      split; [done|]. intros _. by apply targetRoom_ok.
    - apply NoDup_filter. by apply (StronglySorted_NoDup_lt).
    - apply Forall_forall. intros id [_ Hid]%list_elem_of_filter. by apply Hin. }
  destruct (chainLoop_ok _ _ _ _ _ _ Hok0 Eloop) as [[Hrooms _ _] Hst]. cbn [ch_rooms] in Hst.
  assert (Hids : map_Forall (fun id r => chatID r = id) (ch_rooms ch)) by (intros id r Hr; by apply (Hrooms id r)).
  destruct (catchUpRooms_spec _ Hids) as [Hs Hmem].
  assert (Hback : forall id r, ch_rooms ch !! id = Some r ->
    exists r0, rooms !! id = Some r0 /\ static r0 = static r).
  { intros id r Hr. assert (E : (static <$> rooms) !! id = Some (static r)) by (by rewrite <- Hst, lookup_fmap, Hr).
    rewrite lookup_fmap in E. destruct (rooms !! id) as [r0|]; [|done]. injection E as E. exists r0. split; [done|].
    unfold static. congruence. }
  assert (Htarget : forall r, r ∈ catchUpRooms (ch_rooms ch) -> exists t, t ∈ ResumeTargets state /\
    SyncMsg.Target_ChatID t = chatID r /\ SyncMsg.Target_MaxLogID t = ceiling r /\
    gapStart r = resumeCursor state (chatID r) + 1).
  { intros r [Hc Hr]%Hmem. destruct (Hback _ _ Hr) as (r0 & Hr0 & E). injection E as E1 E2 E3 E4.
    destruct (K2 _ _ Hr0) as [[_ Hc0]|(t & Ht & Hid & ->)]; [congruence|].
    exists t. split_and!; try done. rewrite <- E4.
    destruct (targetRoom_ok state floor t Hwf Ht) as [_ ->]. by rewrite Hid. }
  split_and!; [done | | done]. apply sorted_lt_unique; [done | by apply resume_ascending|].
  intros id. rewrite !list_elem_of_fmap. split.
  - intros (r & -> & Hr). destruct (Htarget r Hr) as (t & Ht & Hid & _). by exists t.
  - intros (t & -> & Ht). specialize (K1 t Ht).
    assert (E : (static <$> ch_rooms ch) !! SyncMsg.Target_ChatID t = Some (static (targetRoom state floor t)))
      by (by rewrite Hst, lookup_fmap, K1).
    rewrite lookup_fmap in E. destruct (ch_rooms ch !! _) as [r|] eqn:Er; [|done]. injection E as E1 E2 E3 E4.
    exists r. split; [done|]. apply Hmem. split; [done|]. by rewrite (Hids _ _ Er).
Qed.

(** The finished rooms against the targets they came from. *)
Lemma rooms_targets state c c' rooms outs : wf state ->
  chatID <$> rooms = SyncMsg.Target_ChatID <$> ResumeTargets state ->
  (forall r, r ∈ rooms -> exists t, t ∈ ResumeTargets state /\
    SyncMsg.Target_ChatID t = chatID r /\ SyncMsg.Target_MaxLogID t = ceiling r /\
    gapStart r = resumeCursor state (chatID r) + 1) ->
  Forall2 (fun r out => ChatID out = chatID r /\ Ceiling out = ceiling r /\
    room_complete c' (gapStart r - 1) out /\
    pending c' (chatID r) = pending c (chatID r) ++ (logOf <$> Events out)) rooms outs ->
  Forall2 (fun t room =>
    ChatID room = SyncMsg.Target_ChatID t /\ Ceiling room = SyncMsg.Target_MaxLogID t /\
    room_complete c' (resumeCursor state (ChatID room)) room /\
    pending c' (ChatID room) = pending c (ChatID room) ++ (logOf <$> Events room)) (ResumeTargets state) outs.
Proof.
  intros Hwf Hids Htarget Houts. apply Forall2_same_length_lookup. split.
  { apply Forall2_length in Houts. rewrite <- Houts, <- (length_fmap chatID), Hids. by rewrite length_fmap. }
  intros i t out Ht Hout. destruct (Forall2_lookup_r _ _ _ _ _ Houts Hout) as (r & Hr & E1 & E2 & E3 & E4).
  assert (Hid : chatID r = SyncMsg.Target_ChatID t).
  { assert (E : (chatID <$> rooms) !! i = Some (chatID r)) by (by rewrite list_lookup_fmap, Hr).
    rewrite Hids, list_lookup_fmap, Ht in E. by injection E. }
  destruct (Htarget r ltac:(by eapply list_elem_of_lookup_2)) as (t' & Ht' & Hid' & Hc' & Hgs).
  assert (t' = t) as ->.
  { apply list_elem_of_lookup in Ht' as [j Hj].
    assert (Hkeys : forall n x, ResumeTargets state !! n = Some x ->
      (SyncMsg.Target_ChatID <$> ResumeTargets state) !! n = Some (SyncMsg.Target_ChatID x)).
    { intros n x Hx. by rewrite list_lookup_fmap, Hx. }
    pose proof (StronglySorted_NoDup_lt _ (resume_ascending _ Hwf)) as Hnd.
    assert (i = j) as <- by (eapply NoDup_lookup; [exact Hnd|apply Hkeys, Ht|]; rewrite <- Hid, <- Hid'; by apply Hkeys).
    congruence. }
  replace (gapStart r - 1) with (resumeCursor state (chatID r)) in E3 by lia.
  rewrite E1. split_and!; try done. by rewrite E2.
Qed.

(** C1: a successful [CatchUpAll] returns exactly the resumed chats, in
    ascending order.  For each of them every position after the resume cursor
    through the login ceiling is the position of a returned event, vacant by
    the server's own predecessor chain, or covered by a recorded gap that the
    room reports; its events are in ascending order within that interval, and
    exactly their commits are queued, in that order, behind the chat's other
    pending commits. *)
Theorem CatchUpAll_accounts c store options c' store' result :
  good c ->
  Forall (fun t => int64 (SyncMsg.Target_ChatID t) /\ int64 (SyncMsg.Target_MaxLogID t)) (ResumeTargets (snapshot c)) ->
  CatchUpAll env c store options = (c', store', Ok result) ->
  Forall2 (fun t room =>
    ChatID room = SyncMsg.Target_ChatID t /\ Ceiling room = SyncMsg.Target_MaxLogID t /\
    room_complete c' (resumeCursor (snapshot c) (ChatID room)) room /\
    pending c' (ChatID room) = pending c (ChatID room) ++ (logOf <$> Events room))
    (ResumeTargets (snapshot c)) (Rooms result) /\
  (forall k, k ∉ ChatID <$> Rooms result -> pending c' k = pending c k).
Proof.
  intros Hg Hint. destruct (good_snapshot c Hg) as [Hwf _]. unfold CatchUpAll.
  destruct (match options with Some o => _ | None => _ end) as [history|]; [|done].
  destruct (closed c); [done|]. destruct (_ || _); [done|]. destruct (be_busy env); [done|].
  destruct (be_turn env); [|done].
  destruct (selectBulkRooms env (snapshot c) store history) as [rooms|] eqn:Esel; [|done].
  destruct (chainLoop _ _ _ _) as [[st [ch|]]|] eqn:Eloop; [|done..].
  destruct (chain_rooms _ _ _ _ _ _ _ Hwf Esel Eloop) as (Hrooms & Hids & Htarget).
  destruct (finishBulkRooms _ _ _ _ _) as [c1 [outs|]] eqn:Efin; [|done]. intros [= <- <- <-].
  assert (Hall : forall r, r ∈ catchUpRooms (ch_rooms ch) -> room_ok env r).
  { intros r Hr. assert (Hi : map_Forall (fun id r => chatID r = id) (ch_rooms ch)) by (intros id x Hx; by apply (Hrooms id x)).
    apply catchUpRooms_spec in Hr as [Hc Hr]; [|done]. by apply (Hrooms _ _ Hr). }
  apply finishBulkRooms_complete in Efin as (_ & K1 & K2 & _); [|done| |].
  2: { rewrite Hids. by apply StronglySorted_NoDup_lt, resume_ascending. }
  2: { apply Forall_forall. intros r Hr. split; [by apply Hall|]. destruct (Htarget r Hr) as (t & Ht & Hid & Hc & _).
       rewrite Forall_forall in Hint. destruct (Hint t Ht). split; congruence. }
  assert (Houts : ChatID <$> outs = chatID <$> catchUpRooms (ch_rooms ch)).
  { clear -K1. induction K1 as [|r o l l' (E & _) _ IH]; [done|]. by rewrite !fmap_cons, E, IH. }
  cbn [Rooms]. split; [|intros k Hk; apply K2; by rewrite <- Houts].
  eapply rooms_targets; [exact Hwf | exact Hids | exact Htarget | exact K1].
Qed.
End Bulk.

(** ** One chat *)

Section One.
Context `{AcquiredStore}.
Context (exchange : nat -> SyncMsg.Request -> res ClientError Raw) (env : PrivateJson.WriteEnv).
Context (id targetMax from : Z).

(** The events collected up to [current]. *)
Record collected (current : Z) (evs : list Event) : Prop := {
  cl_chat : Forall (fun e => at_chat id e /\ from < logOf e <= current) evs;
  cl_sorted : StronglySorted Z.lt (logOf <$> evs);
  cl_last : List.last (logOf <$> evs) from = current;
}.

Lemma collected_snoc current evs e l : collected current evs -> MessagePosition e = Some (id, l) ->
  from <= current < l -> collected l (evs ++ [e]).
Proof.
  intros [Hc Hs Hl] He Hlt. assert (Hof : logOf e = l) by (unfold logOf; by rewrite He). constructor.
  - apply Forall_app. split.
    + eapply Forall_impl; [exact Hc|]. simpl. intros x [? ?]. split; [done|lia].
    + repeat constructor; [by exists l | rewrite Hof; lia..].
  - rewrite fmap_app. apply StronglySorted_app_2; [|done|by repeat constructor].
    intros x y Hx Hy. apply list_elem_of_fmap in Hx as (x' & -> & Hx). apply list_elem_of_singleton in Hy as ->.
    rewrite Forall_forall in Hc. destruct (Hc x' Hx). simpl. rewrite Hof. lia.
  - rewrite fmap_app. simpl. by rewrite List.last_last.
Qed.

Lemma pageLogs_collected logs : forall current progressed evs current' p' evs',
  collected current evs -> from <= current <= targetMax ->
  pageLogs id targetMax current progressed evs logs = Ok (current', p', evs') ->
  collected current' evs' /\ from <= current' <= targetMax.
Proof.
  induction logs as [|raw logs IH]; intros current progressed evs current' p' evs' Hc Hr E; cbn [pageLogs] in E;
    [by simplify_eq|].
  destruct (SyncMsg.LogID raw) as [logID|] eqn:El; [|done].
  destruct (logID <? current) eqn:E1; [done|]. destruct (targetMax <? logID) eqn:E2; [by eapply IH|].
  destruct (logID =? current) eqn:E3; [by eapply IH|].
  destruct (DecodeChatLog id raw) as [e|] eqn:Ed; [|done].
  destruct (DecodeChatLog_position _ _ _ Ed) as (_ & l & El' & Hpos). rewrite El in El'. injection El' as <-.
  eapply IH; [| |exact E]; [|lia]. apply (collected_snoc current); [done|done|lia].
Qed.

(** The position a page takes the call to. *)
Definition reached (current : Z) (logs : list Raw) : Z :=
  foldl (fun current raw => match SyncMsg.LogID raw with
                            | Ok l => if l <=? targetMax then Z.max current l else current
                            | Err _ => current
                            end) current logs.

(** The pages a call reads: the n-th request asks for what follows the position
    that the pages before it reached, and was answered, by the server or from
    the acquired store, with the n-th page. *)
Inductive pagesRead : option HistoryStore -> nat -> Z -> option HistoryStore -> list SyncMsg.Response -> Prop :=
| read_none store n current : pagesRead store n current store []
| read_page store n current store1 page store2 pages :
    syncMessages exchange store n (SyncMsg.mkRequest id current targetMax 0) = (store1, Ok page) ->
    pagesRead store1 (S n) (reached current (SyncMsg.ChatLogs page)) store2 pages ->
    pagesRead store n current store2 (page :: pages).

(** A log of a page. *)
Definition logIn (pages : list SyncMsg.Response) (raw : Raw) : Prop :=
  exists page, page ∈ pages /\ raw ∈ SyncMsg.ChatLogs page.

(** [evs] are the events of the logs that [P] holds of, one for each position
    after [current] through [targetMax]. *)
Record gathered (P : Raw -> Prop) (current : Z) (evs : list Event) : Prop := {
  ga_decoded : Forall (fun e => exists raw, P raw /\ DecodeChatLog id raw = Ok e) evs;
  ga_after raw l : P raw -> SyncMsg.LogID raw = Ok l -> current <= l;
  ga_all raw l : P raw -> SyncMsg.LogID raw = Ok l -> current < l <= targetMax -> l ∈ logOf <$> evs;
}.

Lemma pageLogs_gathered logs : forall current progressed evs current' p' evs',
  current <= targetMax -> pageLogs id targetMax current progressed evs logs = Ok (current', p', evs') ->
  current' = reached current logs /\
  exists new, evs' = evs ++ new /\ gathered (fun raw => raw ∈ logs) current new /\
    (current' = current \/ current' ∈ logOf <$> new) /\ current <= current' <= targetMax.
Proof.
  induction logs as [|raw logs IH]; intros current progressed evs current' p' evs' Hc E; cbn [pageLogs] in E.
  { injection E as <- <- <-. split; [done|]. exists []. rewrite app_nil_r.
    split_and!; [done| |by left|lia|done]. constructor; [constructor|..]; by intros raw l ?%elem_of_nil. }
  unfold reached. cbn [foldl]. destruct (SyncMsg.LogID raw) as [logID|] eqn:El; [|done].
  destruct (logID <? current) eqn:E1; [done|]. bool_prop.
  assert (Hskip : (targetMax < logID \/ logID = current) ->
    pageLogs id targetMax current progressed evs logs = Ok (current', p', evs') ->
    current' = reached current logs /\
    exists new, evs' = evs ++ new /\ gathered (fun raw' => raw' ∈ raw :: logs) current new /\
      (current' = current \/ current' ∈ logOf <$> new) /\ current <= current' <= targetMax).
  { intros Hl E'. apply IH in E' as (Hr & new & -> & [G1 G2 G3] & Hin & Hle); [|done].
    split; [done|]. exists new. split_and!; try done; try lia. constructor.
    - eapply Forall_impl; [exact G1|]. intros e (raw' & Hraw & He). exists raw'. split; [by apply list_elem_of_further|done].
    - intros raw' l [->|Hraw]%elem_of_cons; [|by apply G2]. rewrite El. intros [= <-]. lia.
    - intros raw' l [->|Hraw]%elem_of_cons; [|by apply G3]. rewrite El. intros [= <-]. lia. }
  destruct (targetMax <? logID) eqn:E2; bool_prop.
  { rewrite (proj2 (Z.leb_gt _ _)) by lia. apply Hskip; [by left|done]. }
  rewrite (proj2 (Z.leb_le _ _)) by lia. rewrite Z.max_r by lia.
  destruct (logID =? current) eqn:E3; bool_prop; [subst logID; apply Hskip; [by right|done]|].
  destruct (DecodeChatLog id raw) as [e|] eqn:Ed; [|done].
  destruct (DecodeChatLog_position _ _ _ Ed) as (_ & l & El' & Hpos). rewrite El in El'. injection El' as <-.
  assert (Hof : logOf e = logID) by (unfold logOf; by rewrite Hpos).
  apply IH in E as (Hr & new & -> & [G1 G2 G3] & Hin & Hle); [|lia]. split; [done|]. exists (e :: new).
  rewrite <- app_assoc. split_and!; [done| | |lia|lia].
  - constructor.
    + constructor; [exists raw; split; [apply list_elem_of_here|done]|]. eapply Forall_impl; [exact G1|].
      intros x (raw' & Hraw & Hx). exists raw'. split; [by apply list_elem_of_further|done].
    + intros raw' l [->|Hraw]%elem_of_cons Hl; [rewrite El in Hl; injection Hl as <-; lia|].
      specialize (G2 _ _ Hraw Hl). lia.
    + intros raw' l [->|Hraw]%elem_of_cons Hl Hcl; rewrite fmap_cons, Hof, elem_of_cons.
      * rewrite El in Hl. injection Hl as <-. by left.
      * destruct (decide (l = logID)) as [->|Hne]; [by left|]. right. apply (G3 _ _ Hraw Hl).
        specialize (G2 _ _ Hraw Hl). lia.
  - right. rewrite fmap_cons, Hof, elem_of_cons. destruct Hin as [->|Hin]; [by left|by right].
Qed.

(** A page, then those read after it. *)
Lemma gathered_app page read current current' new more :
  gathered (fun raw => raw ∈ SyncMsg.ChatLogs page) current new ->
  (current' = current \/ current' ∈ logOf <$> new) -> current <= current' <= targetMax ->
  gathered (logIn read) current' more -> gathered (logIn (page :: read)) current (new ++ more).
Proof.
  intros [G1 G2 G3] Hin Hle [K1 K2 K3].
  assert (Hcase : forall raw, logIn (page :: read) raw -> raw ∈ SyncMsg.ChatLogs page \/ logIn read raw).
  { intros raw (page' & [->|Hp]%elem_of_cons & Hraw); [by left|right; by exists page']. }
  constructor.
  - apply Forall_app. split; (eapply Forall_impl; [eassumption|]); intros e (raw & Hraw & He); exists raw; (split; [|done]).
    + exists page. split; [apply list_elem_of_here|done].
    + destruct Hraw as (page' & Hp & Hraw). exists page'. split; [by apply list_elem_of_further|done].
  - intros raw l [Hraw|Hraw]%Hcase Hl; [by eapply G2|]. specialize (K2 _ _ Hraw Hl). lia.
  - intros raw l [Hraw|Hraw]%Hcase Hl Hcl; rewrite fmap_app, elem_of_app; [left; by eapply G3|].
    specialize (K2 _ _ Hraw Hl). destruct (decide (l = current')) as [->|Hne].
    + left. destruct Hin as [->|Hin]; [lia|done].
    + right. apply (K3 _ _ Hraw Hl). lia.
Qed.

(** What a call that succeeds has read, from a page on. *)
Lemma catchUpPages_read c0 state gapStart pages : forall store current evs c' store' out,
  current <= targetMax -> (pages <= maxCatchUpPages)%nat ->
  catchUpPages exchange env pages c0 store state id gapStart targetMax current evs = (c', store', Ok out) ->
  exists read new, pagesRead store (maxCatchUpPages - pages) current store' read /\ (length read <= pages)%nat /\
    projectAcquiredEvents store' (evs ++ new) = Ok out /\ gathered (logIn read) current new.
Proof.
  induction pages as [|pages IH]; intros store current evs c' store' out Hc Hn E; cbn [catchUpPages] in E.
  { by destruct (unresolved _ _ _ _ _). }
  destruct (syncMessages _ _ _ _) as [st [page|e]] eqn:Es.
  2: { by destruct (isGapUnresolved e); [destruct (recordGap _ _ _ _ _)|]. }
  destruct (pageLogs _ _ _ _ _ _) as [[[current' progressed] evs']|e] eqn:Ep; [|done].
  apply pageLogs_gathered in Ep as (Hr & new & -> & [G1 G2 G3] & Hin & Hle); [|done].
  destruct (current' =? targetMax) eqn:Et; bool_prop.
  - destruct (projectAcquiredEvents st _) as [out'|pe] eqn:Eproj; [|by destruct (recordGap _ _ _ _ _)].
    destruct (if HasGapThrough _ _ _ then _ else _) as [c1 [e|]]; [done|]. injection E as _ <- <-.
    exists [page], new. split_and!; [|simpl; lia|done|].
    + eapply read_page; [exact Es|apply read_none].
    + constructor.
      * eapply Forall_impl; [exact G1|]. intros x (raw & Hraw & Hx). exists raw. split; [|done].
        exists page. split; [apply list_elem_of_here|done].
      * intros raw l (page' & ->%list_elem_of_singleton & Hraw). by apply G2.
      * intros raw l (page' & ->%list_elem_of_singleton & Hraw). by apply G3.
  - destruct (negb progressed); [by destruct (unresolved _ _ _ _ _)|].
    apply IH in E as (read & more & Hread & Hlen & Hproj & Hg); [|lia..].
    exists (page :: read), (new ++ more). split_and!; [|simpl; lia|by rewrite app_assoc|].
    + eapply read_page; [exact Es|]. rewrite <- Hr.
      by replace (S (maxCatchUpPages - S pages)) with (maxCatchUpPages - pages)%nat by lia.
    + by eapply gathered_app.
Qed.

(** A failure queues nothing.  An unresolved gap is recorded, unless the write of
    the record failed as the error says; any other failure records nothing. *)
Definition failed_ok (c c' : Client) (e : ClientError) : Prop :=
  pendingCommits c' = pendingCommits c /\
  if isGapUnresolved e then
    (forall p, from < p <= targetMax -> covered (journal c') id p) \/
    exists e0 err, e = Joined e0 err /\ recordGap env c id (from + 1) targetMax = (c', Some err)
  else journal c' = journal c.

Definition outcome_ok (c c' : Client) (r : res ClientError (list Event)) : Prop :=
  match r with
  | Ok evs => collected targetMax evs /\
      forall k, pending c' k = if decide (id = k) then pending c k ++ (logOf <$> evs) else pending c k
  | Err e => failed_ok c c' e
  end.

Context (c : Client) (Hgood : good c) (Hid : int64 id) (Hmax : int64 targetMax) (Hfrom : 0 <= from < targetMax).

(** Every exit of the loop that records the interval. *)
Lemma recorded_ok c' err e : isGapUnresolved e = true -> recordGap env c id (from + 1) targetMax = (c', err) ->
  failed_ok c c' (join e err).
Proof.
  assert (Hf : int64 (from + 1)) by (unfold_ints; lia). intros He E. unfold failed_ok. destruct err as [err|]; simpl.
  - rewrite He. pose proof E as E2. apply (recordGap_good c Hgood) in E as [_ [Hq _]]; [|done..]. split; [done|].
    right. by exists e, err.
  - rewrite He. apply (recordGap_ok c Hgood) in E as (_ & [Hq _] & K & _); [|done..]. split; [done|].
    left. intros p Hp. apply K. lia.
Qed.

Lemma unrecorded_ok e : isGapUnresolved e = false -> failed_ok c c e.
Proof. intros He. split; [done|]. by rewrite He. Qed.

Lemma resolveGap_pending c' k err : resolveGap env c id targetMax = (c', err) -> pending c' k = pending c k.
Proof.
  intros E. apply (good_write env (OpResolveGap id targetMax)) in E as (_ & [Hq _] & _); [|done..].
  unfold pending. by rewrite Hq.
Qed.

Lemma resolveGap_failed c' e : resolveGap env c id targetMax = (c', Some e) -> failed_ok c c' e.
Proof.
  intros E. assert (He : isGapUnresolved e = false).
  { revert E. unfold resolveGap, checkpointWrite. destruct (closed c); [by intros [= _ <-]|].
    destruct (sys_store _); [|by intros [= _ <-]].
    destruct (ResolveGapThrough _ _ _ _) as [sys1 [err|]]; [by intros [= _ <-]|done]. }
  apply (good_write env (OpResolveGap id targetMax)) in E as (_ & [Hq _] & Hj); [|done..].
  split; [done|]. by rewrite He.
Qed.

Lemma pageLogs_error logs : forall current progressed evs e,
  pageLogs id targetMax current progressed evs logs = Err e -> isGapUnresolved e = false.
Proof.
  induction logs as [|raw logs IH]; intros current progressed evs e; cbn [pageLogs]; [done|].
  destruct (SyncMsg.LogID raw); [|by intros [= <-]]. destruct (_ <? current); [by intros [= <-]|].
  destruct (targetMax <? _); [apply IH|]. destruct (_ =? current); [apply IH|].
  destruct (DecodeChatLog id raw); [apply IH | by intros [= <-]].
Qed.

Lemma catchUpPages_outcome state pages : forall store current evs c' store' r,
  collected current evs -> from <= current < targetMax ->
  catchUpPages exchange env pages c store state id (from + 1) targetMax current evs = (c', store', r) ->
  outcome_ok c c' r.
Proof.
  assert (Hun : forall c1 e, unresolved env c id (from + 1) targetMax = (c1, e) -> outcome_ok c c1 (Err e)).
  { unfold unresolved. intros c1 e. destruct (recordGap _ _ _ _ _) as [c2 err] eqn:E. intros [= <- <-].
    by apply recorded_ok. }
  induction pages as [|pages IH]; intros store current evs c' store' r Hcol Hcur E; cbn [catchUpPages] in E.
  { destruct (unresolved _ _ _ _ _) as [c1 e] eqn:Eu. injection E as <- <- <-. by apply Hun. }
  destruct (syncMessages exchange store _ _) as [st [page|e]].
  2: { destruct (isGapUnresolved e) eqn:Eg.
       - destruct (recordGap _ _ _ _ _) as [c1 err] eqn:Er. injection E as <- <- <-. by apply recorded_ok.
       - injection E as <- <- <-. by apply unrecorded_ok. }
  destruct (pageLogs _ _ _ _ _ _) as [[[current' progressed] evs']|e] eqn:Ep.
  2: { injection E as <- <- <-. apply unrecorded_ok. by apply pageLogs_error in Ep. }
  apply pageLogs_collected in Ep as [Hcol' Hcur']; [|done|lia].
  destruct (current' =? targetMax) eqn:Et; bool_prop.
  - subst current'. destruct (projectAcquiredEvents st evs') as [out|pe] eqn:Eproj.
    2: { destruct (recordGap _ _ _ _ _) as [c1 err] eqn:Er. injection E as <- <- <-. by apply recorded_ok. }
    pose proof (projected_positions _ _ _ Eproj) as Hpos.
    assert (Hout : collected targetMax out).
    { pose proof (positions_logs _ _ Hpos) as Hlogs. destruct Hcol' as [K1 K2 K3].
      constructor; rewrite ?Hlogs; try done.
      by apply (positions_Forall (fun p => (exists l, p = Some (id, l)) /\
        from < match p with Some (_, l) => l | None => 0 end <= targetMax) evs'). }
    assert (Hat : Forall (at_chat id) out) by (eapply Forall_impl; [apply Hout|]; simpl; tauto).
    destruct (if HasGapThrough state id targetMax then _ else _) as [c1 [e|]] eqn:Er; injection E as <- <- <-;
      (destruct (HasGapThrough state id targetMax); [|simplify_eq]).
    + by apply resolveGap_failed.
    + split; [done|]. intros k. rewrite (pending_queueEvents id) by done. by rewrite (resolveGap_pending _ k _ Er).
    + split; [done|]. intros k. by rewrite (pending_queueEvents id) by done.
  - destruct progressed; cbn [negb] in E.
    + eapply IH; [exact Hcol' | lia | exact E].
    + destruct (unresolved _ _ _ _ _) as [c1 e] eqn:Eu. injection E as <- <- <-. by apply Hun.
Qed.
End One.

(** C29: [CatchUp] of a chat through [targetMax] has one of these outcomes.

    It succeeds.  Then it read the pages [read], at most [maxCatchUpPages] of
    them, each the answer (of the server or of the acquired store) to a request
    for what follows the position that the pages before it reached.  The events
    returned are the projections of decoded logs of these pages, and every log
    of them after the resume cursor through [targetMax] is at the position of a
    returned event: none is dropped and none made up.  They ascend strictly, the
    last is at [targetMax] (nothing is asked or returned when the cursor is
    already there), and exactly their commits are queued, in that order.

    Or it fails and queues nothing.  An error that is an unresolved gap
    ([isGapUnresolved]: no progress, too many pages, failed projection, or an
    answer that says so) comes with the whole interval recorded as a gap, unless
    that write failed, which the error then says.  After any other error (a
    refused call, a failed request, a malformed log, a failed write) nothing is
    recorded. *)
Theorem CatchUp_outcome `{AcquiredStore} exchange env c store id targetMax c' store' r :
  good c -> int64 id -> int64 targetMax ->
  CatchUp exchange env c store id targetMax = (c', store', r) ->
  let from := resumeCursor (snapshot c) id in
  match r with
  | Ok evs =>
      (exists read decoded,
         pagesRead exchange id targetMax store 0 from store' read /\ (length read <= maxCatchUpPages)%nat /\
         projectAcquiredEvents store' decoded = Ok evs /\
         Forall (fun e => exists raw, logIn read raw /\ DecodeChatLog id raw = Ok e) decoded /\
         forall raw l, logIn read raw -> SyncMsg.LogID raw = Ok l -> from < l <= targetMax -> l ∈ logOf <$> evs) /\
      Forall (fun e => at_chat id e /\ from < logOf e <= targetMax) evs /\
      StronglySorted Z.lt (logOf <$> evs) /\
      (if targetMax <=? from then evs = [] else List.last (logOf <$> evs) from = targetMax) /\
      forall k, pending c' k = if decide (id = k) then pending c k ++ (logOf <$> evs) else pending c k
  | Err e =>
      pendingCommits c' = pendingCommits c /\
      if isGapUnresolved e then
        (forall p, from < p <= targetMax -> covered (journal c') id p) \/
        exists e0 err, e = Joined e0 err /\ recordGap env c id (from + 1) targetMax = (c', Some err)
      else journal c' = journal c
  end.
Proof.
  intros Hg Hid Hmax E from. destruct (good_snapshot c Hg) as [Hwf _]. unfold CatchUp in E.
  assert (Hfail : forall e, isGapUnresolved e = false -> failed_ok env id targetMax from c c e)
    by (intros e; apply unrecorded_ok).
  destruct (_ || _) eqn:Eb; [injection E as <- <- <-; by apply Hfail|].
  destruct (closed c); [injection E as <- <- <-; by apply Hfail|].
  destruct (sys_store (checkpoint c)); [|injection E as <- <- <-; by apply Hfail].
  fold from in E. destruct (targetMax <=? from) eqn:Et.
  - assert (Hnone : exists read decoded, pagesRead exchange id targetMax store 0 from store read /\
      (length read <= maxCatchUpPages)%nat /\ projectAcquiredEvents store decoded = Ok [] /\
      Forall (fun e => exists raw, logIn read raw /\ DecodeChatLog id raw = Ok e) decoded /\
      forall raw l, logIn read raw -> SyncMsg.LogID raw = Ok l -> from < l <= targetMax -> l ∈ logOf <$> []).
    { exists [], []. split_and!; [constructor|simpl; lia|by destruct store|constructor|].
      by intros raw l (page & ?%elem_of_nil & _). }
    destruct (if HasGapThrough _ _ _ then _ else _) as [c1 [e|]] eqn:Er; injection E as <- <- <-;
      (destruct (HasGapThrough _ _ _); [|simplify_eq]).
    + by eapply (resolveGap_failed env id targetMax from c Hg).
    + split_and!; [done|constructor|constructor|done|]. intros k. rewrite app_nil_r.
      rewrite (resolveGap_pending env id targetMax c Hg Hid Hmax _ k _ Er). by destruct (decide _).
    + split_and!; [done|constructor|constructor|done|]. intros k. rewrite app_nil_r. by destruct (decide _).
  - assert (Hfrom : 0 <= from).
    { unfold from, resumeCursor. rewrite (CommittedMax_abs _ Hwf), (FirstDeliveryStart_abs _ Hwf).
      pose proof (peek_nonneg (j_commits (abs (snapshot c))) id (proj1 (wf_journal_pos _ Hwf))).
      destruct (_ =? 0); [destruct (0 <? peek (j_starts _) _) eqn:?|]; lia. }
    pose proof E as Eread.
    eapply (catchUpPages_outcome exchange env id targetMax from c Hg Hid Hmax ltac:(lia)) in E;
      [|constructor; [constructor | constructor | done]|lia].
    destruct r as [evs|e]; [|done]. destruct E as [[K1 K2 K3] K4]. split_and!; try done.
    apply catchUpPages_read in Eread as (read & decoded & Hread & Hlen & Hproj & [G1 _ G3]); [|lia|done].
    exists read, decoded. split_and!; [done|done|done|exact G1|]. intros raw l Hraw Hl Hin.
    rewrite (positions_logs _ _ (projected_positions _ _ _ Hproj)). by eapply G3.
Qed.

(** The MCHATLOGS chain always ends: within the fuel of [CatchUpAll] the
    loop returns, having sent at most [maxBulkCatchUpPages] requests. *)
Theorem chain_ends `{AcquiredStore} env store rooms pending history :
  exists store' r,
    chainLoop env chainFuel store (mkChain rooms pending history 0 0 0) = Some (store', r) /\
    match r with Ok ch => (ch_pages ch <= maxBulkCatchUpPages)%nat | Err _ => True end.
Proof.
  apply chainLoop_ends; simpl ch_pages; simpl ch_history; [lia|].
  unfold chainFuel. destruct history; lia.
Qed.

(** ** Witnesses *)

(** The server skipped positions 11 to 15. *)
Definition skipping : @BulkEnv treeBson := demoBulk [demoLog 20 15 "a"; demoLog 30 20 "b"].

(** Whether a run succeeded. *)
Definition succeeded {A B C} (r : A * B * res C CatchUpResult) : bool :=
  match snd r with Ok _ => true | Err _ => false end.

Lemma CatchUpAll_accounts_witness :
  match CatchUpAll skipping demoClient None None with
  | (c', _, Ok result) =>
      Forall2 (fun t room =>
        ChatID room = SyncMsg.Target_ChatID t /\ Ceiling room = SyncMsg.Target_MaxLogID t /\
        room_complete skipping c' (resumeCursor (snapshot demoClient) (ChatID room)) room /\
        pending c' (ChatID room) = pending demoClient (ChatID room) ++ (logOf <$> Events room))
        (ResumeTargets (snapshot demoClient)) (Rooms result)
  | _ => False
  end.
Proof.
  assert (Hok : succeeded (CatchUpAll skipping demoClient None None) = true) by (vm_compute; reflexivity).
  destruct (CatchUpAll skipping demoClient None None) as [[c' s'] [result|e]] eqn:E; [|discriminate Hok].
  refine (proj1 (CatchUpAll_accounts skipping demoClient None None c' s' result demoClient_good _ E)).
  repeat constructor; vm_compute; discriminate.
Defined.

(** One SYNCMSG page, then nothing more before the target. *)
Definition demoExchange (logs : list tree) (n : nat) (_ : SyncMsg.Request) : res ClientError (@Raw treeBson) :=
  match n with
  | O => Ok (Tree [("chatLogs"%string, VArray (MarshalArray (VDocument <$> logs)))])
  | _ => Ok (Tree [])
  end.

Definition isGap {A} (r : A * res ClientError (list (@Event treeBson demoContent))) : bool :=
  match snd r with Err ErrGapUnresolved => true | _ => false end.

Definition catchUpTo (last : list tree) :=
  CatchUp (demoExchange (demoLog 20 10 "a" :: last)) PrivateJson.writeOk demoClient None 7 30.

(** One page that stops at 20 leaves a recorded gap; one that reaches 30 is
    delivered through 30. *)
Lemma CatchUp_outcome_witness :
  match catchUpTo [], catchUpTo [demoLog 30 20 "b"] with
  | (c1, _, Err ErrGapUnresolved), (_, _, Ok evs) => covered (journal c1) 7 25 /\ List.last (logOf <$> evs) (resumeCursor (snapshot demoClient) 7) = 30
  | _, _ => False
  end.
Proof.
  assert (Hgap : isGap (catchUpTo []) = true) by (vm_compute; reflexivity).
  assert (Hok : match snd (catchUpTo [demoLog 30 20 "b"]) with Ok _ => true | Err _ => false end = true)
    by (vm_compute; reflexivity).
  destruct (catchUpTo []) as [[c1 s1] r1] eqn:E1. destruct (catchUpTo [demoLog 30 20 "b"]) as [[c2 s2] r2] eqn:E2.
  pose proof (CatchUp_outcome (demoExchange [demoLog 20 10 "a"]) PrivateJson.writeOk demoClient None 7 30
    c1 s1 r1 demoClient_good ltac:(vm_compute; split; discriminate) ltac:(vm_compute; split; discriminate) E1) as K1.
  pose proof (CatchUp_outcome (demoExchange [demoLog 20 10 "a"; demoLog 30 20 "b"]) PrivateJson.writeOk demoClient None 7 30
    c2 s2 r2 demoClient_good ltac:(vm_compute; split; discriminate) ltac:(vm_compute; split; discriminate) E2) as K2.
  destruct r1 as [evs|[]]; try discriminate Hgap. destruct r2 as [evs|e]; [|discriminate Hok]. split.
  - destruct K1 as [_ [K1|(e0 & err & [=] & _)]]. apply K1. vm_compute. split; [reflexivity | discriminate].
  - assert (Hfrom : (30 <=? resumeCursor (snapshot demoClient) 7) = false) by (vm_compute; reflexivity).
    destruct K2 as [_ [_ [_ [Hlast _]]]]. rewrite Hfrom in Hlast. exact Hlast.
Defined.

(** ** A gap forgotten *)

(** The server returns everything after position 10. *)
Definition complete : @BulkEnv treeBson := demoBulk [demoLog 20 10 "a"; demoLog 30 20 "b"].
Definition completeRun := CatchUpAll complete demoClient None None.

Lemma complete_served id raw : served complete id raw -> 10 < SyncMsg.logIDof raw.
Proof.
  intros (n & request & payload & page & E & Ep & Hin & _). injection E as <-.
  assert (Hall : Forall (fun raw => 10 < SyncMsg.logIDof raw) (MChatLogs.ChatLogs page));
    [|rewrite Forall_forall in Hall; by apply Hall].
  apply (f_equal (fun r => match r with Ok p => forallb (fun raw => 10 <? SyncMsg.logIDof raw) (MChatLogs.ChatLogs p)
    | Err _ => true end)) in Ep.
  assert (K : forallb (fun raw => 10 <? SyncMsg.logIDof raw) (MChatLogs.ChatLogs page) = true).
  { rewrite <- Ep. vm_compute. reflexivity. }
  apply Forall_forall. intros x Hx. apply list_elem_of_In in Hx.
  rewrite forallb_forall in K. specialize (K x Hx). simpl in K. lia.
Qed.

(** A complete recovery of what follows the commit cursor also forgets a gap
    before the cursor, of which the server returned nothing. *)
Theorem recovery_forgets_earlier_gap :
  covered (journal demoClient) 7 4 /\ resumeCursor (snapshot demoClient) 7 = 10 /\
  (forall id raw, served complete id raw -> 10 < SyncMsg.logIDof raw) /\
  succeeded completeRun = true /\ j_gaps (journal (fst (fst completeRun))) !! 7 = None.
Proof.
  split; [|split; [vm_compute; reflexivity|split; [exact complete_served|split]]].
  - exists 3, 5. split; [vm_compute; reflexivity | lia].
  - vm_compute. reflexivity.
  - vm_compute. reflexivity.
Qed.
