(* ===== verification/ReadState.v ===== *)
(** * Read acknowledgement (src/internal/client/read_state.go)

    [MarkRead] acknowledges a chat as read through a watermark by SYNCMSG
    requests, persisting only positions the server confirmed; it always ends. *)

From S2P Require Import Prelude.
From S2P Require Import Bson Events Continuity ContinuitySpec ContinuityProps ContinuityTheorems.
From S2P Require Import Delivery CatchUp ProtocolTheorems ClientFacts Demo.
From S2P Require PrivateJson SyncMsg.

#[local] Open Scope list_scope.
#[local] Open Scope Z_scope.

Definition readSyncHeldCap : Z := 300.

Section ReadState.
Context `{Bson}.

(** The environment of a call: what the caller holds when asked for the n-th
    time, the payload answering the n-th request and the system calls of the
    n-th checkpoint write. *)
Record ReadEnv := mkReadEnv {
  re_held : nat -> Z -> Z -> Z -> res ClientError (Z * Z);
  re_exchange : nat -> SyncMsg.Request -> res ClientError Raw;
  re_write : nat -> PrivateJson.WriteEnv;
}.

Section Loop.
Context (env : ReadEnv) (chatID watermark : Z).

(** The maximum and count that a request after [cur] declares. *)
Definition declared (cur : Z) (held : Z * Z) : Z * Z :=
  let '(maxLogID, count) := held in
  if (count <=? 0) || (maxLogID <=? cur) || (watermark <? maxLogID) then (watermark, 0) else (maxLogID, count).

(** The session's SYNCMSG call with a [ReadRequest]. *)
Definition readPage (n : nat) (request : SyncMsg.Request) : res ClientError SyncMsg.Response :=
  match SyncMsg.ReadRequest_MarshalBSON request with
  | Err e => Err (ErrSync e)
  | Ok _ =>
      let! raw := re_exchange env n request in
      match SyncMsg.ParseResponse raw with Ok page => Ok page | Err e => Err (ErrSync e) end
  end.

(** The confirmed position is persisted when there is a checkpoint. *)
Definition confirm (n : nat) (c : Client) (maxLogID : Z) : Client * option ClientError :=
  match sys_store (checkpoint c) with
  | None => (c, None)
  | Some _ =>
      let '(sys, _, err) := CommitReadWatermark (re_write env n) (checkpoint c) chatID maxLogID in
      (set_checkpoint sys c, ErrContinuity <$> err)
  end.

(** Where the acknowledgement continues after a page that confirmed nothing. *)
Definition continueFrom (cur maxLogID : Z) (page : SyncMsg.Response) : option Z :=
  match List.rev (SyncMsg.ChatLogs page) with
  | [] => None
  | last :: _ =>
      match SyncMsg.LogID last with
      | Ok l => if (cur <? l) && (l <=? maxLogID) then Some l else None
      | Err _ => None
      end
  end.

(** The loop, [n] requests done; [None] is the end of the fuel. *)
Fixpoint markReadLoop (fuel : nat) (n : nat) (c : Client) (cur : Z)
  : option (Client * res ClientError SyncMsg.Response) :=
  match fuel with
  | O => None
  | S fuel =>
      match re_held env n cur watermark readSyncHeldCap with
      | Err e => Some (c, Err e)
      | Ok held =>
          let '(maxLogID, count) := declared cur held in
          match readPage n (SyncMsg.mkRequest chatID cur maxLogID (wrap32 (Z.min count readSyncHeldCap))) with
          | Err e => Some (c, Err e)
          | Ok page =>
              if SyncMsg.IsOK page then
                match confirm n c maxLogID with
                | (c, Some e) => Some (c, Err e)
                | (c, None) =>
                    if (readSyncHeldCap <=? count) && (maxLogID <? watermark)
                    then markReadLoop fuel (S n) c maxLogID
                    else Some (c, Ok page)
                end
              else
                match continueFrom cur maxLogID page with
                | Some last => markReadLoop fuel (S n) c last
                | None => Some (c, Ok page)
                end
          end
      end
  end.
End Loop.

Definition emptyResponse : SyncMsg.Response := SyncMsg.mkResponse [] 0 false.

(** Each turn moves the position towards the watermark; the last one is at it. *)
Definition markReadFuel (cur watermark : Z) : nat := S (Z.to_nat (watermark - cur)).

(** [MarkRead]; the outer [None] is the end of the fuel. *)
Definition MarkRead (env : ReadEnv) (c : Client) (chatID watermark : Z)
  : option (Client * res ClientError SyncMsg.Response) :=
  match SyncMsg.Request_MarshalBSON (SyncMsg.mkRequest chatID (wrap64 (watermark - 1)) watermark 0) with
  | Err e => Some (c, Err (ErrSync e))
  | Ok _ =>
      if closed c then Some (c, Err ErrClientClosed) else
      let cur := ReadWatermark (sys_store (checkpoint c)) chatID in
      if cur <? watermark then markReadLoop env chatID watermark (markReadFuel cur watermark) 0 c cur
      else Some (c, Ok emptyResponse)
  end.
End ReadState.

(** ** Theorems *)

Section Read.
Context `{Bson} (env : ReadEnv) (chatID watermark : Z).

Lemma declared_range cur held maxLogID count : cur <= watermark ->
  declared watermark cur held = (maxLogID, count) ->
  cur <= maxLogID <= watermark /\ (cur < watermark -> cur < maxLogID) /\ 0 <= count.
Proof.
  unfold declared. destruct held as [m n]. intros Hc.
  destruct (_ || _) eqn:E; intros [= <- <-]; lia.
Qed.

Lemma continueFrom_range cur maxLogID page l : continueFrom cur maxLogID page = Some l -> cur < l <= maxLogID.
Proof.
  unfold continueFrom. destruct (List.rev _) as [|last rest]; [done|].
  destruct (SyncMsg.LogID last); [|done]. destruct (_ && _) eqn:E; [|done]. intros [= <-]. lia.
Qed.

Lemma markReadLoop_ends fuel : forall n c cur, cur <= watermark -> (Z.to_nat (watermark - cur) < fuel)%nat ->
  exists r, markReadLoop env chatID watermark fuel n c cur = Some r.
Proof.
  induction fuel as [|fuel IH]; intros n c cur Hcur Hf; [lia|]. cbn [markReadLoop].
  destruct (re_held env n cur watermark readSyncHeldCap) as [held|]; [|by eexists].
  destruct (declared watermark cur held) as [maxLogID count] eqn:Ed.
  destruct (declared_range _ _ _ _ Hcur Ed) as (Hm & Hlt & _).
  destruct (readPage env n _) as [page|]; [|by eexists]. destruct (SyncMsg.IsOK page).
  - destruct (confirm _ _ _ _ _) as [c1 [e|]]; [by eexists|].
    destruct ((readSyncHeldCap <=? count) && (maxLogID <? watermark)) eqn:E; [|by eexists].
    apply IH; lia.
  - destruct (continueFrom cur maxLogID page) as [l|] eqn:El; [|by eexists].
    apply continueFrom_range in El. apply IH; lia.
Qed.

(** The server confirmed position [m] of the chat, in answer to a request from
    a position at or after [from]. *)
Definition confirmed (from m : Z) : Prop :=
  exists n request page, readPage env n request = Ok page /\ SyncMsg.IsOK page = true /\
    SyncMsg.ChatID request = chatID /\ SyncMsg.Max request = m /\ from <= SyncMsg.Cur request <= m.

(** From [c] to [c'] at most the chat's read watermark was raised, to a
    confirmed position. *)
Record raised (from : Z) (c c' : Client) : Prop := {
  ra_good : good c';
  ra_queue : pendingCommits c' = pendingCommits c;
  ra_commits : j_commits (journal c') = j_commits (journal c);
  ra_gaps : j_gaps (journal c') = j_gaps (journal c);
  ra_starts : j_starts (journal c') = j_starts (journal c);
  ra_others k : k <> chatID -> j_reads (journal c') !! k = j_reads (journal c) !! k;
  ra_mark : peek (j_reads (journal c')) chatID = peek (j_reads (journal c)) chatID \/
    peek (j_reads (journal c)) chatID < peek (j_reads (journal c')) chatID <= watermark /\
    confirmed from (peek (j_reads (journal c')) chatID);
}.

Lemma raised_refl from c : good c -> raised from c c.
Proof. intros Hg. constructor; auto. Qed.

Lemma raised_trans from from' c1 c2 c3 : from <= from' -> raised from c1 c2 -> raised from' c2 c3 -> raised from c1 c3.
Proof.
  intros Hle [K1 K2 K3 K4 K5 K6 K7] [L1 L2 L3 L4 L5 L6 L7]. constructor; try congruence; try done.
  - intros k Hk. by rewrite L6, K6.
  - destruct L7 as [->|[Hl (n & request & page & ? & ? & ? & ? & ?)]]; [exact K7|].
    right. split; [destruct K7 as [<-|[? _]]; lia|]. exists n, request, page. split_and!; try done; lia.
Qed.

Lemma confirm_raised n c cur maxLogID page count c' err :
  good c -> 0 < chatID -> int64 chatID -> int64 watermark -> 0 <= cur <= maxLogID -> maxLogID <= watermark ->
  readPage env n (SyncMsg.mkRequest chatID cur maxLogID count) = Ok page -> SyncMsg.IsOK page = true ->
  confirm env chatID n c maxLogID = (c', err) -> raised cur c c'.
Proof.
  intros Hg Hpos Hid Hw Hc Hm Er Hok. unfold confirm.
  pose proof Hg as (path & data & file & Ek & _). rewrite Ek at 1. cbn [sys_store sysOf].
  destruct (CommitReadWatermark (re_write env n) (checkpoint c) chatID maxLogID) as [[sys a] e] eqn:Ec.
  intros [= <- <-].
  assert (Erun : run (re_write env n) (OpCommitRead chatID maxLogID) (checkpoint c) = (sys, e)) by (simpl; by rewrite Ec).
  apply good_run in Erun as [Hg' Hj]; [|done|split; [done|unfold_ints; lia]].
  destruct e as [e|]; [constructor; try done; rewrite Hj; auto|].
  destruct Hj as [Ha Hj]. simpl in Ha. constructor; try done; rewrite Hj; simpl; try done.
  - intros k Hk. by rewrite raise_lookup, decide_False by done.
  - rewrite raise_peek, decide_True by done.
    destruct (decide (maxLogID <= peek (j_reads (journal c)) chatID)); [left; lia|]. right. split; [lia|].
    rewrite Z.max_l by lia. exists n, (SyncMsg.mkRequest chatID cur maxLogID count), page.
    split_and!; try done; simpl; lia.
Qed.

Lemma markReadLoop_raised fuel : forall n c cur c' r,
  good c -> 0 < chatID -> int64 chatID -> int64 watermark -> 0 <= cur <= watermark ->
  markReadLoop env chatID watermark fuel n c cur = Some (c', r) -> raised cur c c'.
Proof.
  induction fuel as [|fuel IH]; intros n c cur c' r Hg Hpos Hid Hw Hcur E; cbn [markReadLoop] in E; [done|].
  destruct (re_held env n cur watermark readSyncHeldCap) as [held|]; [|simplify_eq; by apply raised_refl].
  destruct (declared watermark cur held) as [maxLogID count] eqn:Ed.
  destruct (declared_range _ _ _ _ (proj2 Hcur) Ed) as (Hm & _ & _).
  destruct (readPage env n _) as [page|] eqn:Er; [|simplify_eq; by apply raised_refl].
  destruct (SyncMsg.IsOK page) eqn:Eok.
  - destruct (confirm env chatID n c maxLogID) as [c1 err] eqn:Ec.
    assert (Hr : raised cur c c1) by (by eapply confirm_raised; [..|exact Er|exact Eok|exact Ec]; try lia).
    destruct err as [e|]; [by simplify_eq|]. destruct (_ && _); [|by simplify_eq].
    eapply raised_trans; [|exact Hr|eapply IH; [apply Hr|..|exact E]]; done || lia.
  - destruct (continueFrom cur maxLogID page) as [l|] eqn:El; [|simplify_eq; by apply raised_refl].
    apply continueFrom_range in El. eapply raised_trans; [|by apply raised_refl|eapply IH; [exact Hg|..|exact E]]; done || lia.
Qed.
End Read.

(** [MarkRead] always returns: every turn of its loop moves the position
    towards the watermark, whatever the caller holds and the server answers. *)
Theorem MarkRead_ends `{Bson} env c chatID watermark : exists r, MarkRead env c chatID watermark = Some r.
Proof.
  unfold MarkRead. destruct (SyncMsg.Request_MarshalBSON _); [|by eexists]. destruct (closed c); [by eexists|].
  destruct (_ <? watermark) eqn:E; [|by eexists]. apply markReadLoop_ends; [lia|]. unfold markReadFuel. lia.
Qed.

(** Whatever its outcome, [MarkRead] changes nothing of the checkpoint but
    the chat's read watermark, which it only raises, at most to the requested
    watermark, and only to a position the server confirmed. *)
Theorem MarkRead_confirmed `{Bson} env c chatID watermark c' r :
  good c -> int64 chatID -> int64 watermark ->
  MarkRead env c chatID watermark = Some (c', r) ->
  good c' /\ pendingCommits c' = pendingCommits c /\
  j_commits (journal c') = j_commits (journal c) /\ j_gaps (journal c') = j_gaps (journal c) /\
  j_starts (journal c') = j_starts (journal c) /\
  (forall k, k <> chatID -> j_reads (journal c') !! k = j_reads (journal c) !! k) /\
  (peek (j_reads (journal c')) chatID = peek (j_reads (journal c)) chatID \/
   peek (j_reads (journal c)) chatID < peek (j_reads (journal c')) chatID <= watermark /\
   confirmed env chatID (peek (j_reads (journal c)) chatID) (peek (j_reads (journal c')) chatID)).
Proof.
  intros Hg Hid Hw E. set (from := peek (j_reads (journal c)) chatID).
  enough (Hr : raised env chatID watermark from c c') by (destruct Hr; by split_and!).
  unfold MarkRead in E. destruct (SyncMsg.Request_MarshalBSON _) eqn:Em; [|simplify_eq; by apply raised_refl].
  destruct (closed c); [simplify_eq; by apply raised_refl|].
  assert (Hpos : 0 < chatID).
  { unfold SyncMsg.Request_MarshalBSON, SyncMsg.marshal in Em. destruct (_ <=? SyncMsg.Cur _); [done|].
    destruct (_ || _) eqn:Eb; [done|]. simpl in Eb. lia. }
  assert (Hfrom : ReadWatermark (sys_store (checkpoint c)) chatID = from /\ 0 <= from).
  { destruct Hg as (path & data & file & Ek & _ & Hc & _). unfold from, journal. rewrite Ek. cbn [sys_store sysOf store_data].
    split; [by apply ReadWatermark_abs|]. apply peek_nonneg. intros k v Hv.
    eapply (slice_map_Forall _ _ (wf_reads _ Hc) ReadWatermark_Watermark (fun m => 0 < m)); [|exact Hv]. done. }
  destruct Hfrom as [Hf Hnn]. rewrite Hf in E. destruct (from <? watermark) eqn:Ec; [|simplify_eq; by apply raised_refl].
  eapply markReadLoop_raised; [done..| |exact E]. lia.
Qed.

(** ** Witness *)

(** Three messages are held after the cursor; the server first returns a log,
    then confirms. *)
Definition demoRead : @ReadEnv treeBson := @mkReadEnv treeBson
  (fun _ _ _ _ => Ok (25, 3))
  (fun n _ => match n with
              | O => Ok (Tree [("chatLogs"%string, VArray (MarshalArray [VDocument (demoLog 20 10 "a")]))])
              | _ => Ok (Tree [("isOK"%string, VBoolean true)])
              end)
  (fun _ => PrivateJson.writeOk).

Lemma MarkRead_confirmed_witness :
  match MarkRead demoRead demoClient 7 30 with
  | Some (c', _) => peek (j_reads (journal c')) 7 = 25 /\ confirmed demoRead 7 0 25
  | None => False
  end.
Proof.
  assert (Hmark : match MarkRead demoRead demoClient 7 30 with
                  | Some (c', _) => peek (j_reads (journal c')) 7 | None => 0 end = 25) by (vm_compute; reflexivity).
  destruct (MarkRead demoRead demoClient 7 30) as [[c' r]|] eqn:E; [|discriminate Hmark].
  split; [exact Hmark|].
  pose proof (MarkRead_confirmed demoRead demoClient 7 30 c' r demoClient_good
    ltac:(vm_compute; split; discriminate) ltac:(vm_compute; split; discriminate) E)
    as (_ & _ & _ & _ & _ & _ & [K|[_ K]]); rewrite Hmark in K.
  - vm_compute in K. discriminate K.
  - exact K.
Defined.
