(* ===== verification/HistoryStoreTheorems.v ===== *)
(** * Theorems about the acquired history store

    A store opened from its directory and used through its operations never
    forgets what it learned of a message, shows only connected coverage, keeps
    positions, and is restored by opening its directory again; it implements
    what catch-up relies on (src/internal/client/history_store.go). *)

From S2P Require Import Prelude.
From S2P Require Import Bson Events Delivery CatchUp ProtocolTheorems HistoryStore HistoryStoreFacts HistoryDisk.
From S2P Require PrivateJson SyncMsg.

#[local] Open Scope string_scope.
#[local] Open Scope list_scope.
#[local] Open Scope Z_scope.

Section Theorems.
Context `{TextContent} `{!HistoryJSON}.
Implicit Types (s : historyStore) (env : StoreEnv).

(** ** The operations keep the store well formed *)

Lemma same_core_ok s s' : same_core s s' -> store_ok s -> store_ok s' /\ learns s s'.
Proof. intros (_ & E1 & E2 & _) Hs. split; [by eapply store_ok_same | by apply learns_same]. Qed.

Lemma save_ok env s req response : store_ok s ->
  store_ok (fst (save env s req response)) /\ learns s (fst (save env s req response)).
Proof.
  intros Hs. unfold save. destruct (_ && _).
  { apply same_core_ok, Hs. apply saveUnavailable_core. }
  destruct (validateAcquiredPage _ _); [|done]. destruct (failed s); [done|].
  destruct (observeRecords_ok env (SyncMsg.ChatID req) (selectedLogs req (SyncMsg.ChatLogs response)) s Hs) as [K1 K2].
  cbn [SyncMsg.ChatLogs]. destruct (observeRecords _ _ _ _) as [s1 [e|]]; simpl in K1, K2.
  - split; [by eapply store_ok_same, K1 | by etransitivity; [exact K2 | apply learns_same]].
  - destruct (writeHistoryObject _ _ _) as [file [e|]];
      (split; [by eapply store_ok_same, K1 | by etransitivity; [exact K2 | apply learns_same]]).
Qed.

Lemma observePacket_ok env s packet event : store_ok s ->
  store_ok (fst (observePacket env s packet event)) /\ learns s (fst (observePacket env s packet event)).
Proof. intros Hs. unfold observePacket. destruct (failed s); [done|]. by apply observe_ok. Qed.

Lemma observeCurrentRecords_ok env s chatID logs : store_ok s ->
  store_ok (fst (observeCurrentRecords env s chatID logs)) /\ learns s (fst (observeCurrentRecords env s chatID logs)).
Proof.
  intros Hs. unfold observeCurrentRecords. destruct (failed s); [done|].
  destruct (observeRecords_ok env chatID logs s Hs) as [K1 K2].
  destruct (observeRecords _ _ _ _) as [s1 [e|]]; simpl in K1, K2;
    (split; [by eapply store_ok_same, K1 | by etransitivity; [exact K2 | apply learns_same]]).
Qed.

(** One operation on the store. *)
Inductive store_step : historyStore -> historyStore -> Prop :=
| st_save env s req response : store_step s (fst (save env s req response))
| st_packet env s packet event : store_step s (fst (observePacket env s packet event))
| st_records env s chatID logs : store_step s (fst (observeCurrentRecords env s chatID logs))
| st_commit env s cursors : store_step s (fst (commitBulk env s cursors))
| st_lookup env s req : store_step s (fst (lookup env s req))
| st_window env s req : store_step s (fst (window env s req)).

Lemma store_step_ok s s' : store_step s s' -> store_ok s -> store_ok s' /\ learns s s'.
Proof.
  destruct 1; intros Hs.
  - by apply save_ok.
  - by apply observePacket_ok.
  - by apply observeCurrentRecords_ok.
  - apply same_core_ok, Hs. apply commitBulk_core.
  - apply same_core_ok, Hs. apply lookup_core.
  - apply same_core_ok, Hs. apply window_core.
Qed.

Lemma store_steps_ok s s' : rtc store_step s s' -> store_ok s -> store_ok s' /\ learns s s'.
Proof.
  induction 1 as [|s s1 s2 Hst _ IH]; intros Hs; [done|].
  destruct (store_step_ok _ _ Hst Hs) as [K1 L1]. destruct (IH K1) as [K2 L2]. split; [done|by transitivity s1].
Qed.
(** ** Opening *)

Lemma loadUnavailable_same env files : forall s,
  mutations (fst (loadUnavailable env s files)) = mutations s /\ binding (fst (loadUnavailable env s files)) = binding s.
Proof.
  induction files as [|n files IH]; intros s; cbn [loadUnavailable]; [done|].
  destruct (PrivateJson.Read _ _) as [[r|]|]; try done. destruct (_ || _); [done|].
  destruct (_ <=? _).
  - destruct (onRemove env n); [|done]. match goal with |- context [loadUnavailable env ?s1 files] => destruct (IH s1) as [-> ->] end. done.
  - destruct (_ <=? _)%nat; [done|]. match goal with |- context [loadUnavailable env ?s1 files] => destruct (IH s1) as [-> ->] end. done.
Qed.

Lemma loadBulk_same env s : mutations (fst (loadBulk env s)) = mutations s /\ binding (fst (loadBulk env s)) = binding s.
Proof.
  unfold loadBulk. destruct (bulkFile (dir s)); [done|]. destruct (PrivateJson.Read _ _) as [[r|]|]; try done.
  destruct (_ || _); [done|]. by destruct (raiseCursors _ _).
Qed.

Lemma loadPages_same env files : forall s cursors,
  mutations (fst (loadPages env s cursors files)) = mutations s /\ binding (fst (loadPages env s cursors files)) = binding s.
Proof.
  induction files as [|n files IH]; intros s cursors; cbn [loadPages]; [done|].
  destruct (PrivateJson.Read _ _) as [[page|]|]; try done. destruct (_ || _); [done|].
  destruct (validateAcquiredPage _ _); [|done].
  match goal with |- context [loadPages env ?s1 ?c files] => destruct (IH s1 c) as [-> ->] end. done.
Qed.

Lemma loadTargets_ok env files : forall s, store_ok s -> store_ok (fst (loadTargets env s files)).
Proof.
  induction files as [|n files IH]; intros s Hs; cbn [loadTargets]; [done|].
  destruct (PrivateJson.Read _ _) as [[m|]|]; try done. destruct (bool_decide_reflect (validateMutation s m <> None)) as [|Hv]; [done|].
  destruct (negb _); [done|]. apply IH. apply dec_stable in Hv.
  assert (Hok : store_ok (set_mutations (<[(mkTarget (ChatID m) (TargetID m)):=m]> (mutations s)) s)).
  { intros k m' Hm'. cbn [mutations set_mutations] in Hm'. apply lookup_insert_Some in Hm' as [[<- <-]|[_ Hm']]; [done|].
    by apply Hs. }
  by destruct (_ || _).
Qed.

Lemma loadFiles_ok env s : store_ok s -> store_ok (fst (loadFiles env s)).
Proof.
  intros Hs. unfold loadFiles. destruct (negb _); [done|].
  destruct (loadBulk_same env s) as [E1 E2]. destruct (loadBulk env s) as [s1 [e|]]; simpl in E1, E2;
    (assert (K1 : store_ok s1) by by eapply store_ok_same); [done|].
  destruct (loadPages_same env (fst <$> map_to_list (pageFiles (dir s1))) s1 ∅) as [E3 E4].
  destruct (loadPages _ _ _ _) as [s2 [cursors|e]]; simpl in E3, E4;
    (assert (K2 : store_ok s2) by by eapply store_ok_same); [|done].
  pose proof (loadTargets_ok env (fst <$> map_to_list (targetFiles (dir s2))) s2 K2) as K3.
  destruct (loadTargets _ _ _) as [s3 [e|]]; simpl in K3; [done|].
  destruct (loadUnavailable_same env (fst <$> map_to_list (unavailableFiles (dir s3))) s3) as [E5 E6].
  destruct (loadUnavailable _ _ _) as [s4 [e|]]; simpl in E5, E6;
    (assert (K4 : store_ok s4) by by eapply store_ok_same); [done|]. by destruct (bool_decide _).
Qed.

Lemma open_ok env oenv d accountID deviceID d' s :
  openHistoryStore env oenv d accountID deviceID = (d', Ok s) -> store_ok s.
Proof.
  unfold openHistoryStore. destruct (_ || _); [done|]. destruct (PrivateJson.ValidatePrivateDir _); [done|].
  destruct (negb _); [done|]. destruct (PrivateJson.ValidatePrivateDir _); [done|]. destruct (negb _); [done|].
  set (b := historyDigest _).
  assert (Hload : forall d0, match loadFiles env (mkHistoryStore d0 b ∅ ∅ None ∅ ∅ ∅) with
      | (s, Some e) => (dir s, Err e) | (s, None) => (dir s, Ok s) end = (d', Ok s) -> store_ok s).
  { intros d0. pose proof (loadFiles_ok env (mkHistoryStore d0 b ∅ ∅ None ∅ ∅ ∅) ltac:(intros k m Hm; simpl in Hm; by rewrite lookup_empty in Hm)) as Hk.
    destruct (loadFiles _ _) as [s1 [e|]]; [done|]. by intros [= <- <-]. }
  destruct (PrivateJson.Read _ _) as [[header|]|]; [| |done].
  - destruct (_ || _); [done|]. apply Hload.
  - destruct (negb _); [done|]. destruct (PrivateJson.WriteInitial _ _ _) as [file [e|]]; [done|]. apply Hload.
Qed.

(** A store in use: opened, then used through its operations. *)
Definition in_use s : Prop :=
  exists env oenv d accountID deviceID d' s0,
    openHistoryStore env oenv d accountID deviceID = (d', Ok s0) /\ rtc store_step s0 s.

Lemma in_use_ok s : in_use s -> store_ok s.
Proof.
  intros (env & oenv & d & a & dev & d' & s0 & Ho & Hr). apply open_ok in Ho. by apply (store_steps_ok _ _ Hr).
Qed.

(** ** What a store shows *)

Lemma replacement_revision s k m r : store_ok s -> mutations s !! k = Some m -> Replacement m = Some r ->
  Revision m <= Int64OrZero r ["revision"].
Proof.
  intros Hs Hm Hr. destruct (Hs k m Hm) as [_ Hv]. unfold validateMutation in Hv. rewrite Hr in Hv.
  destruct (_ || _); [done|]. destruct (DecodeChatLog _ r) as [event|]; [|done].
  destruct (MessagePosition event) as [[c i]|]; [|done]. destruct (_ || _) eqn:E; [done|]. lia.
Qed.

(** C7: a store never shows a message older than it knows it: whatever the store
    did since, in whatever order pages, edits and deletions reached it, a row of
    a lookup whose message was known deleted is shown deleted, and one whose
    message was known edited is shown with at least that revision or deleted. *)
Theorem lookup_never_stale s s' id m env req s'' response (Hs : in_use s) (Hr : rtc store_step s s')
  (Hm : mutations s !! mkTarget (SyncMsg.ChatID req) id = Some m) (Hl : lookup env s' req = (s'', Ok (Some response))) :
  Forall (fun row => SyncMsg.logIDof row = id ->
    if Deleted m then shownDeleted row else shownDeleted row \/ Revision m <= Int64OrZero row ["revision"])
    (SyncMsg.ChatLogs response).
Proof.
  apply in_use_ok in Hs. destruct (store_steps_ok _ _ Hr Hs) as [Hs' [_ L]].
  destruct (L _ _ Hm) as (m' & Hm' & Hrev & Hdel & _).
  destruct (lookup_rows env s' req s'' response Hs' Hl) as (_ & e & _ & _ & _ & Hrows).
  eapply Forall_impl; [exact Hrows|]. simpl. intros row (_ & raw & Hc) Hid. unfold current in Hc.
  rewrite Hid, Hm' in Hc. destruct (Deleted m) eqn:Ed; [by rewrite Hdel in Hc|].
  destruct (Deleted m') eqn:Ed'; [by left|]. right. pose proof (replacement_revision s' _ m' row Hs' Hm' Hc). lia.
Qed.

(** A lookup answers from connected acquired pages only: its rows ascend
    strictly, and every position from the request's start to a row's own lies
    in an acquired page of the chat, so a row never hides a gap before it. *)
Theorem lookup_connected s env req s'' response (Hs : in_use s) (Hl : lookup env s req = (s'', Ok (Some response))) :
  StronglySorted Z.lt (SyncMsg.logIDof <$> SyncMsg.ChatLogs response) /\
  Forall (fun row => SyncMsg.Cur req < SyncMsg.logIDof row <= SyncMsg.Max req /\
    forall x, SyncMsg.Cur req < x <= SyncMsg.logIDof row ->
      exists ref, ref ∈ pageRefs s /\ ofChat req ref /\ SyncMsg.Cur (request ref) < x <= last ref)
    (SyncMsg.ChatLogs response).
Proof.
  destruct (lookup_rows env s req s'' response (in_use_ok s Hs) Hl) as (_ & e & He & Hne & Hsort & Hrows).
  split; [done|]. destruct (covered_connected s req) as (e' & He' & (P1 & P2 & P3) & _).
  assert (e' = e) as -> by congruence. eapply Forall_impl; [exact Hrows|]. simpl. intros row (Hrow & _).
  split; [lia|]. intros x Hx. apply P3. lia.
Qed.

(** The coverage loop always ends, with the longest connected prefix: every
    position up to it lies in an acquired page of the chat, it stays within the
    request's ceiling, and no page that touches it goes further. *)
Theorem coverage_is_maximal s req :
  exists e, coveredThroughLocked s req = Some e /\ SyncMsg.Cur req <= e /\
    (SyncMsg.Cur req < e -> e <= SyncMsg.Max req) /\
    (forall x, SyncMsg.Cur req < x <= e ->
       exists ref, ref ∈ pageRefs s /\ ofChat req ref /\ SyncMsg.Cur (request ref) < x <= last ref) /\
    (forall ref, ref ∈ pageRefs s -> ofChat req ref -> SyncMsg.Cur (request ref) <= e < last ref -> SyncMsg.Max req <= e).
Proof.
  destruct (covered_connected s req) as (e & He & (P1 & P2 & P3) & P4). exists e. split_and!; try done.
  intros ref Hr Hc Hx. by apply (P4 ref Hr).
Qed.

(** *** Projection *)

Lemma project_keeps s event event' : store_ok s -> project s event = Ok event' -> MessagePosition event' = MessagePosition event.
Proof.
  intros Hs. unfold project. destruct (MessagePosition event) as [[chat id]|] eqn:Ep; [|by intros [= <-]].
  destruct (failed s); [done|]. destruct (mutations s !! mkTarget chat id) as [m|] eqn:Em; [|by intros [= <-]].
  destruct (Replacement m) as [r|] eqn:Er.
  - pose proof (known_replacement s _ m r Hs Em Er) as Hr. destruct (apply s r chat) as [raw|] eqn:Ea; [|done].
    destruct (apply_current s r chat id raw Hs Hr Ea) as [Hraw _].
    destruct (DecodeChatLog chat raw) as [ev|] eqn:Ed; [|done]. intros [= <-].
    destruct (DecodeChatLog_position _ _ _ Ed) as (_ & l & Hl & ->). congruence.
  - destruct (Deleted m); [|done]. destruct (textMessage event) as [[a t]|]; [|done]. by intros [= <-].
Qed.
(** *** The directory *)

Lemma step_disk s s' : store_step s s' -> store_ok s -> disk_ok s -> failed s' = None -> distinctNames s' -> disk_ok s'.
Proof.
  destruct 1; intros Hs Hk Hf Hd; try (eapply disk_same, Hk;
    first [apply commitBulk_core | apply lookup_core | apply window_core]).
  - destruct (failed s) eqn:E; [|by apply save_disk]. unfold save in *. destruct (_ && _).
    { eapply disk_same, Hk. apply saveUnavailable_core. }
    destruct (validateAcquiredPage _ _); [|done]. by rewrite E in *.
  - destruct (failed s) eqn:E; [|by apply observePacket_disk]. unfold observePacket in *. by rewrite E in *.
  - destruct (failed s) eqn:E; [|by apply observeCurrentRecords_disk]. unfold observeCurrentRecords in *. by rewrite E in *.
Qed.

Lemma saveUnavailable_failed env s req response e : failed s = Some e -> failed (fst (saveUnavailable env s req response)) = Some e.
Proof.
  intros E. unfold saveUnavailable. destruct (SyncMsg.Request_MarshalBSON req); [|done]. destruct (_ || _); [done|].
  by rewrite E.
Qed.

(** A failed store stays failed. *)
Lemma step_failed s s' e : store_step s s' -> failed s = Some e -> failed s' = Some e.
Proof.
  destruct 1; intros E.
  - unfold save. destruct (_ && _); [by apply saveUnavailable_failed|]. destruct (validateAcquiredPage _ _); [|done]. by rewrite E.
  - unfold observePacket. by rewrite E.
  - unfold observeCurrentRecords. by rewrite E.
  - unfold commitBulk. by rewrite E.
  - unfold lookup. by rewrite E.
  - unfold window. by rewrite E.
Qed.

Lemma steps_failed s s' : rtc store_step s s' -> failed s' = None -> failed s = None.
Proof.
  induction 1 as [|s s1 s2 Hst _ IH]; intros E; [done|]. destruct (failed s) as [e|] eqn:Es; [|done].
  rewrite (step_failed _ _ _ Hst Es) in IH. by specialize (IH E).
Qed.

Lemma steps_disk s s' : rtc store_step s s' -> store_ok s -> disk_ok s -> failed s' = None -> distinctNames s' -> disk_ok s'.
Proof.
  induction 1 as [|s s1 s2 Hst Hr IH]; intros Hs Hk Hf Hd; [done|]. destruct (store_step_ok _ _ Hst Hs) as [K1 L1].
  destruct (store_steps_ok _ _ Hr K1) as [_ L2]. apply IH; [done| |done|done].
  eapply step_disk; [exact Hst|done|done|by eapply steps_failed|by eapply distinct_before].
Qed.

Lemma loadUnavailable_core env files : forall s, same_core s (fst (loadUnavailable env s files)).
Proof.
  induction files as [|n files IH]; intros s; cbn [loadUnavailable]; [done|].
  destruct (PrivateJson.Read _ _) as [[r|]|]; try done. destruct (_ || _); [done|].
  destruct (_ <=? _).
  - destruct (onRemove env n); [|done]. etransitivity; [|apply IH]. done.
  - destruct (_ <=? _)%nat; [done|]. etransitivity; [|apply IH]. done.
Qed.

Lemma loadBulk_core env s : same_core s (fst (loadBulk env s)).
Proof.
  unfold loadBulk. destruct (bulkFile (dir s)); [done|]. destruct (PrivateJson.Read _ _) as [[r|]|]; try done.
  destruct (_ || _); [done|]. by destruct (raiseCursors _ _).
Qed.

Lemma elem_of_names {A} (files : gmap string A) n : n ∈ fst <$> map_to_list files <-> is_Some (files !! n).
Proof.
  rewrite list_elem_of_fmap. split.
  - intros ([n' f] & -> & Hf%elem_of_map_to_list). by eexists.
  - intros [f Hf]. exists (n, f). split; [done|]. by apply elem_of_map_to_list.
Qed.

Lemma loadFiles_disk env d b s : loadFiles env (mkHistoryStore d b ∅ ∅ None ∅ ∅ ∅) = (s, None) -> disk_ok s.
Proof.
  unfold loadFiles. destruct (negb _); [done|]. set (s0 := mkHistoryStore d b _ _ _ _ _ _).
  assert (Hs0 : pages s0 = ∅ /\ mutations s0 = ∅) by done. destruct Hs0 as [Hs0 Hm0]. clearbody s0.
  pose proof (loadBulk_core env s0) as Hb. destruct (loadBulk env s0) as [s1 [e|]]; [done|]. cbn [fst] in Hb.
  destruct (loadPages env s1 ∅ _) as [s2 [c|]] eqn:Ep; [|done].
  destruct (loadPages_disk _ _ _ _ _ _ Ep) as (D1 & D2 & D3 & D4).
  destruct (loadTargets env s2 _) as [s3 [e|]] eqn:Et; [done|].
  destruct (loadTargets_disk _ _ _ _ Et) as (F1 & F2 & F3 & F4 & F5 & F6).
  pose proof (loadUnavailable_core env (fst <$> map_to_list (unavailableFiles (dir s3))) s3) as Hu.
  destruct (loadUnavailable _ _ _) as [s4 [e|]]; [done|]. cbn [fst] in Hu. destruct (bool_decide _); [|done]. intros [= <-].
  apply (disk_same s3); [done|]. destruct Hb as (B1 & B2 & B3 & B4 & B5).
  constructor.
  - intros n. specialize (D4 n). rewrite F3, F1, D1, B4. destruct (pages s2 !! n) as [ref|].
    + destruct D4 as [D4|(_ & f & page & Hf & Hh & Hp)]; [by rewrite B1, Hs0 in D4|].
      exists f, page. rewrite B4 in Hf. split; [done|]. split; [done|]. unfold page_of in *. by rewrite F2, D2.
    + destruct D4 as [D4 _]. rewrite elem_of_names, B4 in D4. by apply eq_None_not_Some.
  - intros k m Hm. destruct (F4 k m Hm) as [Hx|(f & Hf & Hh)].
    + by rewrite D3, B2, Hm0 in Hx.
    + exists f. rewrite F1. by rewrite D1 in Hf |- *.
  - intros n f Hf. rewrite F1 in Hf. apply F6, elem_of_names. by eexists.
Qed.

Lemma open_disk env oenv d accountID deviceID d' s :
  openHistoryStore env oenv d accountID deviceID = (d', Ok s) -> disk_ok s.
Proof.
  unfold openHistoryStore. destruct (_ || _); [done|]. destruct (PrivateJson.ValidatePrivateDir _); [done|].
  destruct (negb _); [done|]. destruct (PrivateJson.ValidatePrivateDir _); [done|]. destruct (negb _); [done|].
  set (b := historyDigest _).
  assert (Hload : forall d0, match loadFiles env (mkHistoryStore d0 b ∅ ∅ None ∅ ∅ ∅) with
      | (s, Some e) => (dir s, Err e) | (s, None) => (dir s, Ok s) end = (d', Ok s) -> disk_ok s).
  { intros d0. destruct (loadFiles _ _) as [s1 [e|]] eqn:E; [done|]. intros [= <- <-]. by eapply loadFiles_disk. }
  destruct (PrivateJson.Read _ _) as [[header|]|]; [| |done].
  - destruct (_ || _); [done|]. apply Hload.
  - destruct (negb _); [done|]. destruct (PrivateJson.WriteInitial _ _ _) as [file [e|]]; [done|]. apply Hload.
Qed.

(** The bulk progress on disk: legible, and no further than the chat's pages. *)
Definition progress_backed s : Prop :=
  bulkFile (dir s) = PrivateJson.Missing \/
  exists progress, holds (bulkFile (dir s)) progress /\ bp_Version progress = 1 /\ bp_Binding progress = binding s /\
    forall id cursor, Cursors progress !! id = Some cursor -> 0 < id /\ 0 <= cursor /\
      (0 < cursor -> exists ref, ref ∈ pageRefs s /\ SyncMsg.ChatID (request ref) = id /\ cursor <= last ref).

Lemma raiseCursors_spec cursors : forall next, (forall id c, (id, c) ∈ cursors -> 0 < id /\ 0 <= c) ->
  exists next', raiseCursors cursors next = Some next' /\
    forall id v, next' !! id = Some v -> next !! id = Some v \/ (id, v) ∈ cursors.
Proof.
  induction cursors as [|[i c] cursors IH]; intros next Hc; cbn [raiseCursors].
  { exists next. split; [done|]. intros id v Hv. by left. }
  destruct (Hc i c ltac:(by left)) as [Hi Hpos]. replace ((i <=? 0) || (c <? 0)) with false by lia.
  destruct (IH (raiseCursor i c next)) as (next' & E & Hn); [intros id c' Hin; apply Hc; by right|].
  exists next'. split; [exact E|]. intros id v Hv. destruct (Hn id v Hv) as [Hx|?]; [|right; by right].
  unfold raiseCursor in Hx. apply lookup_insert_Some in Hx as [[<- <-]|[_ ?]]; [|by left].
  destruct (next !! i) as [w|]; simpl.
  - destruct (Z.max_spec w c) as [[_ ->]|[_ ->]]; [right; by left|by left].
  - right. rewrite Z.max_r by done. by left.
Qed.

Lemma loadBulk_spec env s0 s : readable env -> progress_backed s -> dir s0 = dir s -> binding s0 = binding s ->
  bulkCursors s0 = ∅ ->
  exists s1, loadBulk env s0 = (s1, None) /\ dir s1 = dir s0 /\ binding s1 = binding s0 /\ pages s1 = pages s0 /\
    mutations s1 = mutations s0 /\ failed s1 = failed s0 /\ unavailable s1 = unavailable s0 /\
    forall id v, bulkCursors s1 !! id = Some v -> v <= 0 \/
      exists ref, ref ∈ pageRefs s /\ SyncMsg.ChatID (request ref) = id /\ v <= last ref.
Proof.
  intros Hrd Hp Hd Hb Hc. unfold loadBulk. rewrite Hd. destruct Hp as [Hm|(progress & Hh & Hv & Hbind & Hcur)].
  { rewrite Hm. exists s0. split_and!; try done. intros id v. by rewrite Hc. }
  unfold holds in Hh. rewrite Hrd. destruct (bulkFile (dir s)) eqn:Ef; [done|]. rewrite Hh, Hv, Hbind, Hb, String.eqb_refl.
  cbn [negb orb Z.eqb Pos.eqb]. rewrite Hc.
  destruct (raiseCursors_spec (map_to_list (Cursors progress)) ∅) as (next & E & Hn).
  { intros id c Hin%elem_of_map_to_list. by destruct (Hcur id c Hin) as (? & ? & _). }
  rewrite E. eexists. split; [reflexivity|]. split_and!; try done. simpl. intros id v Hv'.
  destruct (Hn id v Hv') as [Hx|Hin%elem_of_map_to_list]; [done|].
  destruct (Hcur id v Hin) as (_ & H00 & Hback). destruct (decide (0 < v)) as [Hpos|]; [right; by apply Hback|left; lia].
Qed.

(** C11: what was acquired is durable: a store in use whose writes succeeded is
    restored by loading its directory again, with the same pages and the same
    knowledge of every message; the directory is left as it was.  The bulk
    progress on disk must not exceed the pages, no unavailable interval be
    recorded and no two targets have files of the same name. *)
Theorem reopening_restores s env (Hs : in_use s) (Hf : failed s = None) (Hd : distinctNames s) (Hrd : readable env)
  (Hu : unavailableFiles (dir s) = ∅) (Ho : forallb hidden (others (dir s)) = true) (Hb : progress_backed s) :
  exists s', loadFiles env (mkHistoryStore (dir s) (binding s) ∅ ∅ None ∅ ∅ ∅) = (s', None) /\
    pages s' = pages s /\ mutations s' = mutations s /\ dir s' = dir s /\ failed s' = None.
Proof.
  assert (Hok : store_ok s) by by apply in_use_ok.
  assert (Hk : disk_ok s).
  { destruct Hs as (env0 & oenv & d & a & dev & d' & s0 & Hopen & Hr).
    eapply (steps_disk _ _ Hr); [by eapply open_ok| |done|done]. by eapply open_disk. }
  unfold loadFiles. cbn [dir]. rewrite Ho. cbn [negb]. set (s0 := mkHistoryStore _ _ _ _ _ _ _ _).
  destruct (loadBulk_spec env s0 s Hrd Hb eq_refl eq_refl eq_refl) as (s1 & -> & B1 & B2 & B3 & B4 & B5 & B6 & B7).
  destruct (loadPages_spec env s Hrd Hk (fst <$> map_to_list (pageFiles (dir s1))) s1 ∅)
    as (s2 & cursors & -> & D1 & D2 & D3 & D4 & D5 & D6 & D7 & D8 & D9 & D10).
  { intros n [f Hn]%elem_of_names. rewrite B1 in Hn. simpl in Hn. pose proof (dk_pages s Hk n) as Hx.
    destruct (pages s !! n); [by eexists|congruence]. }
  { by rewrite B1. } { by rewrite B2. } { intros id. by rewrite lookup_empty. }
  destruct (loadTargets_spec env s Hrd Hok Hk (fst <$> map_to_list (targetFiles (dir s2))) s2)
    as (s3 & -> & F1 & F2 & F3 & F4 & F5 & F6 & F7 & F8 & F9).
  { intros n Hn%elem_of_names. by rewrite D1, B1 in Hn. }
  { by rewrite D1, B1. } { by rewrite D2, B2. } { rewrite D3, B4. simpl. apply map_empty_subseteq. }
  rewrite F1, D1, B1. cbn [dir s0]. rewrite Hu, map_to_list_empty. cbn [fmap list_fmap loadUnavailable].
  rewrite bool_decide_eq_true_2.
  - exists s3. split; [done|]. split_and!; try congruence.
    + apply map_eq. intros n. rewrite F3, D6, B1. cbn [dir s0]. pose proof (dk_pages s Hk n) as Hx.
      destruct (pages s !! n) as [ref|] eqn:En.
      * rewrite bool_decide_eq_true_2; [done|]. apply elem_of_names. destruct Hx as (f & page & Hf' & _). by eexists.
      * destruct (bool_decide _); [done|]. by rewrite B3.
    + apply map_eq. intros k. apply option_eq. intros m. split; [intros Hm; by eapply lookup_weaken|]. intros Hm.
      apply F9; [done|]. apply elem_of_names. rewrite D1, B1. cbn [dir s0]. destruct (dk_target s Hk k m Hm) as (f & Hf' & _). by eexists.
    + by rewrite F1, D1, B1.
    + by rewrite F4, D4, B5.
  - intros id v Hv. rewrite F6 in Hv. destruct (D7 id v Hv) as [?|Hv0]; [done|].
    destruct (B7 id v Hv0) as [Hneg|(ref & Hin & <- & Hle)]; [pose proof (D10 id); lia|].
    apply list_elem_of_fmap in Hin as ([n ref'] & -> & Hn%elem_of_map_to_list). simpl in *.
    pose proof (dk_pages s Hk n) as Hx. rewrite Hn in Hx. destruct Hx as (f & page & Hf' & _).
    specialize (D9 n ref'). etransitivity; [exact Hle|]. apply D9; [|done]. apply elem_of_names. rewrite B1. by eexists.
Qed.
End Theorems.

(** ** A store in use

    The directory is new; a page of chat 7 with logs 20 and 30 is acquired,
    then 20 is deleted. *)

#[export] Instance demoText : @TextContent treeBson demoContent := { textPayload _ := Some (0, 0) }.

#[export, refine] Instance demoHistoryJSON : @HistoryJSON treeBson := {
  header_JSON := PrivateJson.Build_JSON _ (fun _ => 100) id;
  page_JSON := PrivateJson.Build_JSON _ (fun _ => 1000) id;
  mutation_JSON := PrivateJson.Build_JSON _ (fun _ => 500) id;
  unavailable_JSON := PrivateJson.Build_JSON _ (fun _ => 300) id;
  bulk_JSON := PrivateJson.Build_JSON _ (fun _ => 200) id;
}.
Proof. all: done. Defined.

Definition storeOk : StoreEnv :=
  mkStoreEnv 0 (fun _ _ => PrivateJson.writeOk) (fun _ => PrivateJson.readOk) (fun _ => true) id.

Definition openOk : OpenEnv :=
  mkOpenEnv (PrivateJson.LstatInfo PrivateJson.privateDir) true (PrivateJson.LstatInfo PrivateJson.privateDir) true
    PrivateJson.readOk PrivateJson.initialOk.

Definition newDir : historyDir := mkDir PrivateJson.Missing PrivateJson.Missing ∅ ∅ ∅ [].

Definition demoOpened : historyStore :=
  match snd (openHistoryStore storeOk openOk newDir 1 "device") with
  | Ok s => s
  | Err _ => mkHistoryStore newDir "" ∅ ∅ None ∅ ∅ ∅
  end.

Definition demoRequest : SyncMsg.Request := SyncMsg.mkRequest 7 10 30 0.

Definition demoSaved : historyStore :=
  fst (save storeOk demoOpened demoRequest (SyncMsg.mkResponse [demoLog 20 10 "a"; demoLog 30 20 "b"] 0 true)).

Definition demoDeletion : @Event treeBson demoContent := @MessageDeleted treeBson demoContent 7 31 1 0 20 false.

Definition demoUsed : historyStore := fst (observePacket storeOk demoSaved (mkPacket _ "SYNCDLMSG" (Tree [])) demoDeletion).

Lemma demoSaved_in_use : in_use demoSaved.
Proof.
  assert (C : match snd (openHistoryStore storeOk openOk newDir 1 "device") with Ok _ => true | Err _ => false end = true)
    by (vm_compute; reflexivity).
  exists storeOk, openOk, newDir, 1, "device".
  destruct (openHistoryStore storeOk openOk newDir 1 "device") as [d' [s|e]] eqn:E; [|discriminate].
  exists d', demoOpened. split; [unfold demoOpened; by rewrite E|]. apply rtc_once. apply st_save.
Qed.

Lemma demo_steps : rtc store_step demoSaved demoUsed.
Proof. apply rtc_once. apply st_packet. Qed.

Lemma demoUsed_in_use : in_use demoUsed.
Proof.
  destruct demoSaved_in_use as (env & oenv & d & a & dev & d' & s0 & Ho & Hr).
  exists env, oenv, d, a, dev, d', s0. split; [exact Ho|]. etransitivity; [exact Hr|exact demo_steps].
Qed.

(** The IDs a lookup shows, with whether each is shown deleted. *)
Definition shownIDs (r : historyStore * res ClientError (option SyncMsg.Response)) : list (Z * bool) :=
  match snd r with
  | Ok (Some page) => (fun raw => (SyncMsg.logIDof raw, Z.testbit (Int64OrZero raw ["type"]) 14)) <$> SyncMsg.ChatLogs page
  | _ => []
  end.

Example demo_shown : shownIDs (lookup storeOk demoUsed demoRequest) = [(20, true); (30, false)].
Proof. vm_compute. reflexivity. Qed.

Lemma demo_keys : fst <$> map_to_list (mutations demoUsed) = [mkTarget 7 20; mkTarget 7 30] \/
  fst <$> map_to_list (mutations demoUsed) = [mkTarget 7 30; mkTarget 7 20].
Proof. first [left; vm_compute; reflexivity | right; vm_compute; reflexivity]. Qed.

Lemma demo_distinct : distinctNames demoUsed.
Proof.
  assert (Hk : forall k, is_Some (mutations demoUsed !! k) -> k = mkTarget 7 20 \/ k = mkTarget 7 30).
  { intros k [m Hm]. assert (Hin : k ∈ fst <$> map_to_list (mutations demoUsed)).
    { apply list_elem_of_fmap. exists (k, m). split; [done|]. by apply elem_of_map_to_list. }
    destruct demo_keys as [E|E]; rewrite E in Hin; rewrite !elem_of_cons, elem_of_nil in Hin; tauto. }
  assert (Hne : historyMutationName (mkTarget 7 20) <> historyMutationName (mkTarget 7 30)).
  { assert (C : String.eqb (historyMutationName (mkTarget 7 20)) (historyMutationName (mkTarget 7 30)) = false) by (vm_compute; reflexivity).
    exact (proj1 (String.eqb_neq _ _) C). }
  intros k k' H1 H2 E. destruct (Hk k H1) as [-> | ->], (Hk k' H2) as [-> | ->];
    [reflexivity | destruct (Hne E) | destruct (Hne (eq_sym E)) | reflexivity].
Qed.

Lemma lookup_never_stale_witness : exists s'' response,
  lookup storeOk demoUsed demoRequest = (s'', Ok (Some response)) /\
  Forall (fun row => SyncMsg.logIDof row = 20 -> shownDeleted row) (SyncMsg.ChatLogs response).
Proof.
  assert (C : match mutations demoUsed !! mkTarget 7 20 with Some m => Deleted m | None => false end = true) by (vm_compute; reflexivity).
  assert (C' : match snd (lookup storeOk demoUsed demoRequest) with Ok (Some _) => true | _ => false end = true)
    by (vm_compute; reflexivity).
  destruct (mutations demoUsed !! mkTarget 7 20) as [m|] eqn:Em; [|discriminate C].
  destruct (lookup storeOk demoUsed demoRequest) as [s'' [[response|]|]] eqn:El; [|discriminate C'|discriminate C'].
  exists s'', response. split; [reflexivity|].
  pose proof (lookup_never_stale demoUsed demoUsed 20 m storeOk demoRequest s'' response demoUsed_in_use
    (rtc_refl store_step demoUsed) Em El) as Hf.
  rewrite C in Hf. exact Hf.
Defined.

Lemma lookup_connected_witness : exists s'' response,
  lookup storeOk demoUsed demoRequest = (s'', Ok (Some response)) /\
  StronglySorted Z.lt (SyncMsg.logIDof <$> SyncMsg.ChatLogs response).
Proof.
  assert (C' : match snd (lookup storeOk demoUsed demoRequest) with Ok (Some _) => true | _ => false end = true)
    by (vm_compute; reflexivity).
  destruct (lookup storeOk demoUsed demoRequest) as [s'' [[response|]|]] eqn:El; [|discriminate C'|discriminate C'].
  exists s'', response. split; [reflexivity|].
  exact (proj1 (lookup_connected demoUsed storeOk demoRequest s'' response demoUsed_in_use El)).
Defined.

Lemma reopening_restores_witness : exists s',
  loadFiles storeOk (mkHistoryStore (dir demoUsed) (binding demoUsed) ∅ ∅ None ∅ ∅ ∅) = (s', None) /\
  mutations s' = mutations demoUsed.
Proof.
  destruct (reopening_restores demoUsed storeOk demoUsed_in_use ltac:(vm_compute; reflexivity) demo_distinct
    (fun _ => eq_refl) ltac:(vm_compute; reflexivity) ltac:(vm_compute; reflexivity) ltac:(left; vm_compute; reflexivity))
    as (s' & E & _ & Em & _).
  exists s'. split; [exact E|exact Em].
Defined.
