(* ===== verification/AcquiredHistory.v ===== *)
(** * The acquired history store behind catch-up

    [HistoryStore] implements the interface [AcquiredStore] that [CatchUp] and
    [CatchUpAll] are verified against, so their theorems hold of the client as
    it is composed (client.go: [historyStore]).  A store in use carries the
    outcomes of its coming calls. *)

From S2P Require Import Prelude.
From S2P Require Import Bson Events Continuity Delivery CatchUp ProtocolTheorems ClientFacts Demo.
From S2P Require Import HistoryStore HistoryStoreFacts HistoryDisk HistoryStoreTheorems.
From S2P Require PrivateJson SyncMsg.

#[local] Open Scope string_scope.
#[local] Open Scope list_scope.
#[local] Open Scope Z_scope.

Section Acquired.
Context `{TextContent} `{!HistoryJSON}.

(** A well-formed store, the environments of its calls and their number. *)
Record acquired := mkAcquired {
  the_store : historyStore;
  the_store_ok : store_ok the_store;
  outcomes : nat -> StoreEnv;
  calls : nat;
}.

(** The state after a call that left the store as [s]. *)
Definition called (a : acquired) (s : historyStore) (Hs : store_ok s) : acquired :=
  mkAcquired s Hs (outcomes a) (S (calls a)).

Definition outcome (a : acquired) : StoreEnv := outcomes a (calls a).

Lemma lookup_keeps a req : store_ok (fst (HistoryStore.lookup (outcome a) (the_store a) req)).
Proof. apply (store_step_ok (the_store a)); [apply st_lookup | apply the_store_ok]. Qed.

Lemma save_keeps a req response : store_ok (fst (HistoryStore.save (outcome a) (the_store a) req response)).
Proof. apply (store_step_ok (the_store a)); [apply st_save | apply the_store_ok]. Qed.

Lemma commitBulk_keeps a cursors : store_ok (fst (HistoryStore.commitBulk (outcome a) (the_store a) cursors)).
Proof. apply (store_step_ok (the_store a)); [apply st_commit | apply the_store_ok]. Qed.

#[export] Instance historyAcquired : AcquiredStore := {
  CatchUp.HistoryStore := acquired;
  lookup_store a req := (called a _ (lookup_keeps a req), snd (HistoryStore.lookup (outcome a) (the_store a) req));
  CatchUp.save a req response :=
    (called a _ (save_keeps a req response), snd (HistoryStore.save (outcome a) (the_store a) req response));
  CatchUp.project a event := HistoryStore.project (the_store a) event;
  CatchUp.bulkSnapshot a := HistoryStore.bulkSnapshot (the_store a);
  CatchUp.commitBulk a cursors :=
    (called a _ (commitBulk_keeps a cursors), snd (HistoryStore.commitBulk (outcome a) (the_store a) cursors));
  CatchUp.project_position a e e' := project_keeps (the_store a) e e' (the_store_ok a);
}.

(** The store of a client only changes by the store's own operations. *)
Lemma called_step (a a' : acquired) :
  (exists req, a' = fst (lookup_store a req)) \/ (exists req response, a' = fst (CatchUp.save a req response)) \/
  (exists cursors, a' = fst (CatchUp.commitBulk a cursors)) -> store_step (the_store a) (the_store a').
Proof. intros [[req ->]|[(req & response & ->)|[cursors ->]]]; [apply st_lookup | apply st_save | apply st_commit]. Qed.

(** Projection keeps the positions, number and order of the events, so the
    commits queued for them are those of the events fetched. *)
Lemma projected_events_keep_positions (a : acquired) evs evs' :
  projectAcquiredEvents (Some (a : CatchUp.HistoryStore)) evs = Ok evs' -> MessagePosition <$> evs' = MessagePosition <$> evs.
Proof. exact (projected_positions (Some (a : CatchUp.HistoryStore)) evs evs'). Qed.

(** ** Deleted content *)

(** No supported message type carries the deleted-for-everyone flag
    (message.go: [messageDecoders], messagetype.go). *)
Definition unflaggedDecoders : Prop := forall t, is_Some (messageDecoders t) -> Z.testbit t 14 = false.

Definition hasContent (event : Event) : bool := match event with ContentMessage _ _ _ => true | _ => false end.

Lemma decodeFeed_content c l log e : decodeFeed c l log = Ok e -> hasContent e = false.
Proof.
  unfold decodeFeed. destruct (membershipMessageMembers log true); [by intros [= <-]|].
  destruct (membershipMessageMembers log false) as [[|m ms]|]; [|by intros [= <-]|];
    (destruct (requiredString _ _); [|done]; destruct (parseFeed _) as [feed|]; [|done];
     destruct (fj_FeedType feed), (fj_LogID feed); try done; destruct (_ || _); [done|];
     cbv zeta; destruct (_ =? 14); [by intros [= <-]|]; destruct (_ =? 25); [|done];
     destruct (fj_TargetRevision feed); [|done]; destruct (_ <=? 0); [done|]; by intros [= <-]).
Qed.

Lemma DecodeChatLog_deleted chatID raw e : unflaggedDecoders -> DecodeChatLog chatID raw = Ok e -> shownDeleted raw ->
  hasContent e = false.
Proof.
  intros Hun Hd Hsh. revert Hd. unfold DecodeChatLog.
  destruct (match LookupErr raw "chatId" with Some _ => _ | None => _ end); [done|]. unfold chatLogPacket.
  destruct (Encodable raw); [|done].
  pose proof (Marshal_lookup [("chatId", VInt64 chatID); ("chatLog", VDocument raw)]) as Hbody.
  set (body := Marshal _) in *. unfold DecodeForDelivery. cbn [Method isMessageMethod]. simpl negb. cbv iota.
  destruct (messageDeliveryEnvelope _) as [[[[c l] t] log]|]; [|done]. cbv zeta iota beta.
  destruct (_ || _); [done|]. destruct (disagrees _ _); [done|]. destruct (disagrees _ _); [done|].
  destruct (hasAnyDuplicateExcept _ _ || _); [by intros [= <-]|]. unfold Decode. cbn [Body Method]. simpl String.eqb. cbv iota.
  destruct (decodeMessage body) as [e'|] eqn:Ed; [|by intros [= <-]]. intros [= <-]. revert Ed. unfold decodeMessage.
  destruct (ChatLog.Decode body) as [env|] eqn:Ec; [|done]. cbv zeta.
  assert (Ht : Z.testbit (ChatLog.Type_ env) 14 = true).
  { revert Ec. unfold ChatLog.Decode. destruct (ChatLog.DecodeIdentity body) as [ident|] eqn:Eid; [|done].
    assert (Hlog : ChatLog.Log ident = raw).
    { revert Eid. unfold ChatLog.DecodeIdentity. destruct (negb _); [done|].
      destruct (Int64 _ body _) as [[n|]|]; try done. destruct (n <=? 0); [done|]. rewrite Hbody. simpl.
      destruct (ChatLog.envelopeLogID body raw) as [[l' inner]|]; [|done]. destruct (l' <=? 0); [done|]. by intros [= <-]. }
    rewrite Hlog. unfold shownDeleted, Int64OrZero in Hsh.
    destruct (Int64 ChatLog.fields raw ["type"]) as [[t'|]|] eqn:Et; [|done..].
    rewrite (Int64_found ChatLog.fields zeroReader _ _ _ eq_refl eq_refl Et) in Hsh.
    destruct (_ || _); [done|]. by intros [= <-]. }
  destruct (_ =? Feed); [apply decodeFeed_content|]. destruct (deletedFlagged _); [by intros [= <-]|].
  destruct (messageDecoders (ChatLog.Type_ env)) as [dec|] eqn:Edec; [|by intros [= <-]].
  rewrite (Hun (ChatLog.Type_ env)) in Ht; [done|by eexists].
Qed.

(** C30: the content of a message known deleted is never delivered again: once
    any store operation has recorded the deletion, projecting an event at the
    message's position, however much later, yields an event without content. *)
Theorem deleted_content_never_delivered s s' m event event' chat id (Hun : unflaggedDecoders) (Hs : in_use s)
  (Hr : rtc store_step s s') (Hm : mutations s !! mkTarget chat id = Some m) (Hdel : Deleted m = true)
  (Hp : MessagePosition event = Some (chat, id)) (E : HistoryStore.project s' event = Ok event') :
  hasContent event' = false /\ MessagePosition event' = Some (chat, id).
Proof.
  apply in_use_ok in Hs. destruct (store_steps_ok _ _ Hr Hs) as [Hs' [_ L]].
  destruct (L _ _ Hm) as (m' & Hm' & _ & Hd & _). specialize (Hd Hdel).
  split; [|rewrite <- Hp; by eapply project_keeps]. revert E. unfold HistoryStore.project. rewrite Hp.
  destruct (failed s'); [done|]. rewrite Hm'. destruct (Replacement m') as [r|] eqn:Er.
  - destruct (apply s' r chat) as [raw|] eqn:Ea; [|done].
    destruct (DecodeChatLog chat raw) as [e|] eqn:Ed; [|done]. intros [= <-].
    eapply DecodeChatLog_deleted; [exact Hun|exact Ed|].
    pose proof (known_replacement s' _ m' r Hs' Hm' Er) as Hr'. simpl in Hr'.
    destruct (apply_current s' r chat id raw Hs' Hr' Ea) as [Hl Hc]. unfold current in Hc.
    destruct (LogID_logIDof _ _ Hl) as [Hof _]. by rewrite Hof, Hm', Hd in Hc.
  - rewrite Hd. destruct (textMessage event) as [[a t]|]; [|done]. by intros [= <-].
Qed.
End Acquired.

(** ** Catching up through the store *)

Definition demoAcquired : acquired := mkAcquired demoUsed (in_use_ok _ demoUsed_in_use) (fun _ => storeOk) 0.

(** Chat 7 from 10 to 30 is answered by the acquired pages, without a request;
    20 is delivered as deleted. *)
Example served_locally :
  match snd (@CatchUp treeBson demoContent historyAcquired (fun _ _ => Err ErrSession) PrivateJson.writeOk demoClient
    (Some demoAcquired) 7 30) with
  | Ok evs => evs
  | Err _ => []
  end = [@DeletedMessage treeBson demoContent 7 20 0 0 1; @ContentMessage treeBson demoContent 7 30 "b"].
Proof. vm_compute. reflexivity. Qed.

Lemma demo_unflagged : unflaggedDecoders.
Proof.
  intros t [d Hd]. unfold messageDecoders, demoContent in Hd. destruct (t =? 1) eqn:E; [|done].
  apply Z.eqb_eq in E as ->. reflexivity.
Qed.

Lemma deleted_content_never_delivered_witness : exists event',
  HistoryStore.project demoUsed (demoEvent 20) = Ok event' /\ hasContent event' = false.
Proof.
  assert (C : match mutations demoUsed !! mkTarget 7 20 with Some m => Deleted m | None => false end = true) by (vm_compute; reflexivity).
  destruct (mutations demoUsed !! mkTarget 7 20) as [m|] eqn:Em; [|discriminate C].
  assert (C' : match HistoryStore.project demoUsed (demoEvent 20) with Ok _ => true | Err _ => false end = true)
    by (vm_compute; reflexivity).
  destruct (HistoryStore.project demoUsed (demoEvent 20)) as [event'|] eqn:E; [|discriminate C'].
  exists event'. split; [reflexivity|].
  exact (proj1 (deleted_content_never_delivered demoUsed demoUsed m (demoEvent 20) event' 7 20 demo_unflagged demoUsed_in_use
    (rtc_refl store_step demoUsed) Em C eq_refl E)).
Defined.
