(* ===== verification/SessionTheorems.v ===== *)
(** * Theorems about the session's request table

    Packet IDs are unique among the requests in flight; a reply reaches the
    request it answers and no other, exactly once; a closed session leaves no
    request waiting; unsolicited packets keep their order
    (src/internal/client/session.go). *)

From S2P Require Import Prelude.
From S2P Require Import Bytes Loco Session.

#[local] Open Scope list_scope.
#[local] Open Scope Z_scope.

(** ** Allocation *)

Section Allocate.
Context (s : session).

Definition inRange (id : Z) : Prop := requestIDMin <= id < requestIDMax.
Definition reserved (id : Z) : Prop := is_Some (pending s !! id) \/ is_Some (headerTimers s !! id).

(** The i-th ID tried from [start]. *)
Definition idAt (start : Z) (i : nat) : Z :=
  requestIDMin + (start - requestIDMin + Z.of_nat i) mod (requestIDMax - requestIDMin).

Lemma idAt_range start i : inRange (idAt start i).
Proof.
  unfold inRange, idAt. pose proof (Z.mod_pos_bound (start - requestIDMin + Z.of_nat i)
    (requestIDMax - requestIDMin) ltac:(done)). lia.
Qed.

Lemma idAt_0 start : inRange start -> idAt start 0 = start.
Proof. unfold inRange, idAt. intros H. rewrite Z.mod_small; lia. Qed.

Lemma idAt_S start i : advanceID (idAt start i) = idAt start (S i).
Proof.
  unfold advanceID, idAt. rewrite Nat2Z.inj_succ.
  set (n := requestIDMax - requestIDMin). set (a := start - requestIDMin + Z.of_nat i).
  replace (start - requestIDMin + Z.succ (Z.of_nat i)) with (a + 1) by lia.
  assert (Hn : n = 100000000) by reflexivity.
  pose proof (Z.mod_pos_bound a n ltac:(lia)) as Hb. pose proof (Z.div_mod a n ltac:(lia)) as Hd.
  assert (Hw : wrapU 32 (requestIDMin + a mod n + 1) = requestIDMin + a mod n + 1).
  { apply Z.mod_small. unfold n, requestIDMin, requestIDMax in *. lia. }
  rewrite Hw. destruct (requestIDMax <=? requestIDMin + a mod n + 1) eqn:E.
  - assert (a mod n = n - 1) by (unfold n in *; lia).
    rewrite <- (Zmod_unique (a + 1) n (a / n + 1) 0); lia.
  - rewrite <- (Zmod_unique (a + 1) n (a / n) (a mod n + 1)); unfold n in *; lia.
Qed.

Lemma idAt_eq start i j : inRange start -> (i <= j)%nat -> idAt start i = idAt start j -> idAt start (j - i) = start.
Proof.
  intros Hs Hij E. unfold idAt in *. rewrite Nat2Z.inj_sub by done.
  set (n := requestIDMax - requestIDMin) in *.
  assert (Hn : n = 100000000) by reflexivity.
  assert (E' : (start - requestIDMin + Z.of_nat i) mod n = (start - requestIDMin + Z.of_nat j) mod n) by lia.
  pose proof (Z.div_mod (start - requestIDMin + Z.of_nat i) n ltac:(lia)) as D1.
  pose proof (Z.div_mod (start - requestIDMin + Z.of_nat j) n ltac:(lia)) as D2.
  set (qi := (start - requestIDMin + Z.of_nat i) / n) in *. set (qj := (start - requestIDMin + Z.of_nat j) / n) in *.
  unfold inRange in Hs. rewrite <- (Zmod_unique _ n (qj - qi) (start - requestIDMin)); unfold n in *; lia.
Qed.

Lemma reserved_dec id :
  negb (bool_decide (is_Some (pending s !! id))) && negb (bool_decide (is_Some (headerTimers s !! id))) = false <->
  reserved id.
Proof.
  unfold reserved. destruct (bool_decide_reflect (is_Some (pending s !! id))),
    (bool_decide_reflect (is_Some (headerTimers s !! id))); simpl; split; intros Hx; try done; (by left) || (by right) || by destruct Hx.
Qed.

(** As many IDs are reserved as were passed, all different. *)
Lemma passed_bound start i : inRange start ->
  (forall j, (j < i)%nat -> reserved (idAt start j)) ->
  (forall j, (0 < j < i)%nat -> idAt start j <> start) ->
  (i <= size (pending s) + size (headerTimers s))%nat.
Proof.
  intros Hs Hres Hne.
  assert (Hsub : list_to_set (idAt start <$> seq 0 i) ⊆ dom (pending s) ∪ dom (headerTimers s)).
  { intros id Hid. apply elem_of_list_to_set, list_elem_of_fmap in Hid as (j & -> & Hj).
    apply elem_of_seq in Hj. rewrite elem_of_union, !elem_of_dom. apply Hres. lia. }
  apply subseteq_size in Hsub. rewrite size_list_to_set in Hsub.
  - rewrite length_fmap, length_seq in Hsub. etransitivity; [exact Hsub|].
    rewrite size_union_alt, size_difference_alt, !size_dom. lia.
  - apply NoDup_alt. intros a b id Ha Hb.
    apply list_lookup_fmap_Some in Ha as (x & -> & Ha), Hb as (y & Hy & Hb).
    apply lookup_seq in Ha as [-> Ha], Hb as [-> Hb]. simpl in Hy.
    destruct (Nat.lt_trichotomy a b) as [Hlt|[->|Hlt]]; [|done|]; exfalso.
    + apply (Hne (b - a)%nat); [lia|]. apply idAt_eq; [done|lia|done].
    + apply (Hne (a - b)%nat); [lia|]. apply idAt_eq; [done|lia|done].
Qed.

Lemma allocateLoop_spec start fuel : inRange start -> forall i,
  (i + fuel = allocateFuel s)%nat ->
  (forall j, (j < i)%nat -> reserved (idAt start j)) ->
  (forall j, (0 < j <= i)%nat -> idAt start j <> start) ->
  exists r next, allocateLoop fuel s start (idAt start i) = Some (r, next) /\ inRange next /\
    match r with
    | Ok id => inRange id /\ ~ reserved id
    | Err e => e = ErrProtocol /\ forall id, inRange id -> reserved id
    end.
Proof.
  intros Hs. induction fuel as [|fuel IH]; intros i Hf Hres Hne; cbn [allocateLoop].
  - exfalso. pose proof (passed_bound start i Hs Hres ltac:(intros; apply Hne; lia)) as Hb.
    unfold allocateFuel in Hf. lia.
  - rewrite idAt_S. destruct (_ && _) eqn:E.
    + eexists _, _. split; [done|]. split; [apply idAt_range|]. split; [apply idAt_range|].
      intros Hr. apply reserved_dec in Hr. congruence.
    + apply reserved_dec in E.
      assert (Hres' : forall j, (j < S i)%nat -> reserved (idAt start j)).
      { intros j Hj. destruct (decide (j = i)) as [->|]; [done|]. apply Hres. lia. }
      destruct (idAt start (S i) =? start) eqn:Et; bool_prop.
      * eexists _, _. split; [done|]. split; [apply idAt_range|]. split; [done|]. intros id Hid.
        assert (HN : (Z.to_nat ((id - start) mod (requestIDMax - requestIDMin)) < S i)%nat).
        { unfold idAt in Et. rewrite Nat2Z.inj_succ in Et. unfold inRange, requestIDMin, requestIDMax in *.
          pose proof (Z.mod_pos_bound (id - start) (200000000 - 100000000) ltac:(lia)).
          pose proof (Z.div_mod (start - 100000000 + Z.succ (Z.of_nat i)) (200000000 - 100000000) ltac:(lia)) as D.
          set (q := (start - 100000000 + Z.succ (Z.of_nat i)) / (200000000 - 100000000)) in *.
          assert (0 < q) by nia. nia. }
        specialize (Hres' _ HN).
        replace (idAt start (Z.to_nat ((id - start) mod (requestIDMax - requestIDMin)))) with id in Hres'; [done|].
        unfold idAt. rewrite Z2Nat.id by (apply Z.mod_pos_bound; done).
        rewrite Zplus_mod_idemp_r. replace (start - requestIDMin + (id - start)) with (id - requestIDMin) by lia.
        unfold inRange in Hid. rewrite Z.mod_small; lia.
      * apply IH; [lia|done|]. intros j Hj. destruct (decide (j = S i)) as [->|]; [done|]. apply Hne. lia.
Qed.

End Allocate.

(** Allocation always ends, with an ID of the official range that no request
    in flight and no armed timer has; it fails only when every ID of the range
    is taken. *)
Theorem allocate_fresh s :
  exists next r, allocateRequestIDLocked s = Some (with_nextID next s, r) /\ inRange next /\
    match r with
    | Ok id => inRange id /\ pending s !! id = None /\ headerTimers s !! id = None
    | Err e => e = ErrProtocol /\ forall id, inRange id -> reserved s id
    end.
Proof.
  unfold allocateRequestIDLocked.
  set (start := if _ || _ then requestIDMin else nextID s).
  assert (Hs : inRange start).
  { unfold start, inRange. destruct (_ || _) eqn:E; [done|]. unfold requestIDMin, requestIDMax in *. lia. }
  destruct (allocateLoop_spec s start (allocateFuel s) Hs 0 eq_refl ltac:(lia) ltac:(lia)) as (r & next & E & Hn & Hr).
  rewrite idAt_0 in E by done. rewrite E. exists next, r. split; [done|]. split; [done|].
  destruct r as [id|]; [|done]. destruct Hr as [Hid Hr]. split; [done|]. unfold reserved in Hr.
  split; apply eq_None_not_Some; tauto.
Qed.

(** ** A session's history

    [registered] names the ID and method each result channel was registered
    with, [given_up] the channels whose caller stopped waiting; [unsolicited]
    are the packets read that answered no request, [taken] those the consumer
    took, each in order. *)
Record History := mkHistory {
  h_session : session;
  registered : gmap nat (Z * bytes);
  given_up : gset nat;
  unsolicited : list Packet;
  taken : list Packet;
}.

Definition on_session (h : History) (s : session) : History :=
  mkHistory s (registered h) (given_up h) (unsolicited h) (taken h).

Inductive session_step : History -> History -> Prop :=
| ss_begin h id command s id' ch :
    beginRequest (h_session h) id command = Some (s, Ok (id', ch)) ->
    session_step h (mkHistory s (<[ch := (id', command)]> (registered h)) (given_up h) (unsolicited h) (taken h))
| ss_refused h id command s e :
    beginRequest (h_session h) id command = Some (s, Err e) -> session_step h (on_session h s)
| ss_arm h id command ch :
    registered h !! ch = Some (id, command) ->
    session_step h (on_session h (armHeaderTimeout (h_session h) id command ch))
| ss_abandon h id command ch ended :
    registered h !! ch = Some (id, command) ->
    session_step h (mkHistory (abandon (h_session h) id command ch ended) (registered h) ({[ch]} ∪ given_up h)
                      (unsolicited h) (taken h))
| ss_read h packet s correlated :
    closed (h_session h) = false -> dispatchPacket (h_session h) packet = (s, correlated) ->
    session_step h (mkHistory (fst (readPacket (h_session h) packet)) (registered h) (given_up h)
                      (unsolicited h ++ (if correlated || negb (snd (readPacket (h_session h) packet))
                                         then [] else [packet])) (taken h))
| ss_read_error h code : session_step h (on_session h (finishRead (h_session h) (ReadFailed code)))
| ss_broken_write h : session_step h (on_session h (brokenWrite (h_session h)))
| ss_fire h id timer : session_step h (on_session h (fireHeaderTimeout (h_session h) id timer))
| ss_close h : session_step h (on_session h (Close (h_session h)))
| ss_bootstrap h : bootstrapDone (h_session h) = false ->
    session_step h (on_session h (fst (finishBootstrap (h_session h))))
| ss_take h s packet : takePush (h_session h) = (s, Some packet) ->
    session_step h (mkHistory s (registered h) (given_up h) (unsolicited h) (taken h ++ [packet]))
| ss_tick h o g : scheduler (h_session h) = Some o ->
    session_step h (on_session h (with_scheduler (Some (fst (Ping.fire o g))) (h_session h))).

Definition newHistory (owner : option Ping.pingTimerOwner) (timeouts : bool) : History :=
  mkHistory (newSession owner timeouts) ∅ ∅ [] [].

Definition history (h : History) : Prop := exists owner timeouts, rtc session_step (newHistory owner timeouts) h.

(** *** The request table of a session *)

(** What the operations on timers, lifecycle and closing leave alone. *)
Definition same_table (s s' : session) : Prop :=
  pending s' = pending s /\ answered s' = answered s /\ closed s' = closed s /\ (fresh s <= fresh s')%nat.

Definition same_stream (s s' : session) : Prop :=
  bootstrapDone s' = bootstrapDone s /\ bootstrapPushes s' = bootstrapPushes s /\ pushes s' = pushes s.

Lemma queueSchedule_same s : same_table s (queueSchedule s) /\ same_stream s (queueSchedule s) /\
  headerTimers (queueSchedule s) = headerTimers s.
Proof. unfold queueSchedule. destruct (lifecycleStopped s), (scheduler s); done. Qed.

Lemma queueCancel_same s : same_table s (queueCancelRequest s) /\ same_stream s (queueCancelRequest s).
Proof. unfold queueCancelRequest. destruct (lifecycleStopped s), (scheduler s); done. Qed.

Lemma stopLifecycle_same s : same_table s (stopLifecycle s) /\ same_stream s (stopLifecycle s).
Proof. unfold stopLifecycle. destruct (lifecycleStopped s); done. Qed.

Lemma iter_schedule_same n s : same_table s (Nat.iter n queueSchedule s) /\ same_stream s (Nat.iter n queueSchedule s).
Proof.
  induction n as [|n [[? [? [? ?]]] [? [? ?]]]]; [done|]. simpl.
  destruct (queueSchedule_same (Nat.iter n queueSchedule s)) as [(K1 & K2 & K3 & K4) [(K5 & K6 & K7) _]].
  split; split_and!; try congruence; lia.
Qed.

Lemma Close_same s : same_table s (Close s) /\ same_stream s (Close s).
Proof.
  unfold Close. destruct (_ || _); [done|]. destruct (stopLifecycle_same (with_timers ∅ (with_closing true s))) as [? ?]. done.
Qed.

Lemma fire_same s id timer : same_table s (fireHeaderTimeout s id timer) /\ same_stream s (fireHeaderTimeout s id timer).
Proof.
  unfold fireHeaderTimeout. destruct (headerTimers s !! id); [|done]. destruct (_ || _); [done|].
  match goal with |- context [Close ?s1] => destruct (Close_same s1) as [? ?] end. done.
Qed.

Lemma arm_same s id command ch : same_table s (armHeaderTimeout s id command ch) /\ same_stream s (armHeaderTimeout s id command ch).
Proof. unfold armHeaderTimeout. destruct (_ || _); [done|]. split; [|done]. split_and!; simpl; try done. lia. Qed.

Lemma disarm_same s h : same_table s (disarmHeaderTimeoutLocked s h) /\ same_stream s (disarmHeaderTimeoutLocked s h).
Proof. unfold disarmHeaderTimeoutLocked. destruct (_ !! _); [|done]. by destruct (bool_decide _). Qed.

Lemma beginRequest_cases s id command s' r : beginRequest s id command = Some (s', r) ->
  match r with
  | Err _ => same_table s s' /\ same_stream s s'
  | Ok (id', ch) => closed s = false /\ ch = fresh s /\ fresh s' = S ch /\ pending s !! id' = None /\
      pending s' = <[id' := mkPending command ch]> (pending s) /\ answered s' = answered s /\ closed s' = false /\
      same_stream s s'
  end.
Proof.
  unfold beginRequest. destruct (bool_decide (command = [])); [by intros [= <- <-]|].
  destruct (closed s) eqn:Ec; [by intros [= <- <-]|]. destruct (closing s); [by intros [= <- <-]|]. simpl.
  assert (Hal : forall s1 r1, (if id =? 0 then allocateRequestIDLocked s
      else Some (if nextID s <=? id then with_nextID (advanceID id) s else s, Ok id))
      = Some (s1, r1) -> exists next, s1 = with_nextID next s \/ s1 = s).
  { intros s1 r1. destruct (id =? 0).
    - unfold allocateRequestIDLocked. destruct (allocateLoop _ _ _ _) as [[r2 n]|]; [|done]. intros [= <- _]. exists n. by left.
    - intros [= <- _]. destruct (nextID s <=? id); [eexists; by left | exists 0; by right]. }
  destruct (if id =? 0 then _ else _) as [[s1 [i|e]]|] eqn:E; [| |done];
    destruct (Hal _ _ eq_refl) as [next Hs1]; clear Hal E.
  - destruct (bool_decide _) eqn:Eb; [intros [= <- <-]; by destruct Hs1 as [-> | ->]|].
    apply bool_decide_eq_false, eq_None_not_Some in Eb. intros [= <- <-].
    set (s2 := with_fresh _ _). destruct (queueCancel_same s2) as [(-> & -> & -> & _) (? & ? & ?)].
    assert (Hf : fresh (queueCancelRequest s2) = fresh s2).
    { unfold queueCancelRequest. by destruct (lifecycleStopped s2), (scheduler s2). }
    rewrite Hf. unfold same_stream. destruct Hs1 as [-> | ->]; split_and!; done.
  - intros [= <- <-]. by destruct Hs1 as [-> | ->].
Qed.

(** *** Invariant *)

Record table_ok (h : History) : Prop := {
  tk_pending id p : pending (h_session h) !! id = Some p ->
    registered h !! result p = Some (id, method p) /\ answered (h_session h) !! result p = None;
  tk_reply ch packet : answered (h_session h) !! ch = Some (Reply packet) ->
    registered h !! ch = Some (PacketID (p_Header packet), Method (p_Header packet));
  tk_fresh ch x : registered h !! ch = Some x -> (ch < fresh (h_session h))%nat;
  tk_settled ch id m : registered h !! ch = Some (id, m) -> ch ∉ given_up h ->
    (exists p, pending (h_session h) !! id = Some p /\ result p = ch) \/ is_Some (answered (h_session h) !! ch);
  tk_closed : closed (h_session h) = true -> pending (h_session h) = ∅;
  tk_answered ch x : answered (h_session h) !! ch = Some x -> is_Some (registered h !! ch);
}.

Lemma same_ok h s : table_ok h -> same_table (h_session h) s -> table_ok (on_session h s).
Proof.
  intros [K1 K2 K3 K4 K5 K6] (E1 & E2 & E3 & E4). constructor; simpl; rewrite ?E1, ?E2, ?E3; try done.
  intros ch x Hx. apply K3 in Hx. lia.
Qed.

Lemma failAll_lookup err requests m ch :
  failAll err requests m !! ch =
    if decide (exists id p, requests !! id = Some p /\ result p = ch) then Some (Failed err) else m !! ch.
Proof.
  unfold failAll.
  assert (Hl : forall l : list pendingRequest, foldr (fun p m => <[result p := Failed err]> m) m l !! ch =
    if decide (ch ∈ result <$> l) then Some (Failed err) else m !! ch).
  { induction l as [|p l IH]; [done|]. simpl. destruct (decide (result p = ch)) as [<-|Hne].
    - rewrite lookup_insert_eq. rewrite decide_True; [done|]. by left.
    - rewrite lookup_insert_ne, IH by done. apply decide_ext. rewrite elem_of_cons.
      split; [by right|]. by intros [Heq|?]; [destruct Hne|]. }
  rewrite Hl. apply decide_ext. rewrite !list_elem_of_fmap. split.
  - intros (p & -> & ([id p'] & -> & Hp)%list_elem_of_fmap).
    apply elem_of_map_to_list in Hp. by exists id, p'.
  - intros (id & p & Hp & <-). exists p. split; [done|]. apply list_elem_of_fmap.
    exists (id, p). split; [done|]. by apply elem_of_map_to_list.
Qed.

Lemma begin_ok h id command s id' ch : table_ok h ->
  beginRequest (h_session h) id command = Some (s, Ok (id', ch)) ->
  table_ok (mkHistory s (<[ch := (id', command)]> (registered h)) (given_up h) (unsolicited h) (taken h)).
Proof.
  intros [K1 K2 K3 K4 K5 K6] E.
  destruct (beginRequest_cases _ _ _ _ _ E) as (Hcl & Hch & Hf & Hno & Ep & Ea & Ec & _).
  assert (Hnew : registered h !! ch = None).
  { destruct (registered h !! ch) as [x|] eqn:Ex; [|done]. apply K3 in Ex. lia. }
  assert (Hans : answered (h_session h) !! ch = None).
  { destruct (answered (h_session h) !! ch) as [x|] eqn:Ex; [|done]. apply K6 in Ex as [? ?]. congruence. }
  constructor; simpl; rewrite ?Ep, ?Ea, ?Ec, ?Hf; try done.
  - intros i p [[<- <-]|[Hne Hp]]%lookup_insert_Some; simpl; [by rewrite lookup_insert_eq|].
    destruct (K1 i p Hp) as [Hr Ha]. split; [|done]. rewrite lookup_insert_ne; [done|]. congruence.
  - intros ch' packet Hc. apply K2 in Hc. rewrite lookup_insert_ne; [done|]. congruence.
  - intros ch' x [[<- _]|[_ Hx]]%lookup_insert_Some; [lia|]. apply K3 in Hx. lia.
  - intros ch' i m [[<- [= <- <-]]|[Hne Hr]]%lookup_insert_Some Hg.
    + left. exists (mkPending command ch). by rewrite lookup_insert_eq.
    + destruct (K4 ch' i m Hr Hg) as [(p & Hp & <-)|?]; [left|by right].
      exists p. split; [|done]. rewrite lookup_insert_ne; [done|]. intros <-. congruence.
  - intros ch' x Hx. apply K6 in Hx. destruct (decide (ch = ch')) as [->|]; [by rewrite lookup_insert_eq|].
    by rewrite lookup_insert_ne.
Qed.

Lemma abandon_ok h id command ch ended : table_ok h -> registered h !! ch = Some (id, command) ->
  table_ok (mkHistory (abandon (h_session h) id command ch ended) (registered h) ({[ch]} ∪ given_up h)
              (unsolicited h) (taken h)).
Proof.
  intros [K1 K2 K3 K4 K5 K6] Hr. set (s := h_session h) in *.
  assert (Hrem : same_table (removePending s id ch) (abandon s id command ch ended)).
  { unfold abandon. destruct (_ && _); [apply queueSchedule_same | done]. }
  destruct Hrem as (E1 & E2 & E3 & E4).
  assert (Hp : forall i p, pending (removePending s id ch) !! i = Some p -> pending s !! i = Some p).
  { unfold removePending. intros i p. destruct (isPending s id ch); [|done]. simpl. by intros [_ ?]%lookup_delete_Some. }
  assert (Hsame : answered (removePending s id ch) = answered s /\ closed (removePending s id ch) = closed s /\
    fresh (removePending s id ch) = fresh s).
  { unfold removePending. by destruct (isPending s id ch). }
  destruct Hsame as (A1 & A2 & A3). constructor; simpl; rewrite ?E1, ?E2, ?E3, ?A1, ?A2; try done.
  - intros i p Hi. apply K1. by apply Hp.
  - intros c x Hx. apply K3 in Hx. lia.
  - intros c i m Hc Hg. apply not_elem_of_union in Hg as [Hne Hg]. rewrite not_elem_of_singleton in Hne.
    destruct (K4 c i m Hc Hg) as [(p & Hi & Hres)|?]; [left|by right]. exists p. split; [|done].
    unfold removePending. destruct (isPending s id ch) eqn:Eip; [|done]. simpl.
    rewrite lookup_delete_ne; [done|]. intros <-. unfold isPending in Eip. rewrite Hi in Eip. apply Nat.eqb_eq in Eip. congruence.
  - intros Hc. specialize (K5 Hc). unfold removePending. destruct (isPending s id ch); [|done]. simpl. by rewrite K5, delete_empty.
Qed.

Lemma finishRead_ok h err : table_ok h -> table_ok (on_session h (finishRead (h_session h) err)).
Proof.
  intros Hok. pose proof Hok as [K1 K2 K3 K4 K5 K6]. unfold finishRead.
  destruct (closed (h_session h)) eqn:Ec; [apply same_ok; [done|]; by rewrite ?Ec|].
  set (e := default err (closeCause (h_session h))). set (s1 := mkSession _ true _ _ _ _ _ _ _ _ _ _ _ _ _ _).
  set (s2 := if closing (h_session h) then s1 else Nat.iter (size (pending (h_session h))) queueSchedule s1).
  assert (Hs : same_table s1 (stopLifecycle s2)).
  { assert (H2 : same_table s1 s2) by (unfold s2; destruct (closing _); [done | apply iter_schedule_same]).
    destruct (stopLifecycle_same s2) as [(E1 & E2 & E3 & E4) _], H2 as (F1 & F2 & F3 & F4).
    split_and!; try congruence. lia. }
  destruct Hs as (E1 & E2 & E3 & E4). constructor; simpl; rewrite ?E1, ?E3; try done.
  - intros ch packet. rewrite failAll_lookup. destruct (decide _); [done|]. apply K2.
  - intros ch x Hx. apply K3 in Hx. simpl in E4. lia.
  - intros ch id m Hr Hg. right. rewrite failAll_lookup. destruct (decide _) as [|Hn]; [done|].
    destruct (K4 ch id m Hr Hg) as [(p & Hp & Hres)|?]; [|done]. destruct Hn. by exists id, p.
  - intros ch x. rewrite failAll_lookup. destruct (decide _) as [(id & p & Hp & <-)|]; [|apply K6].
    intros _. apply K1 in Hp as [Hp _]. by eexists.
Qed.

Lemma dispatch_ok h packet s b : table_ok h -> dispatchPacket (h_session h) packet = (s, b) ->
  table_ok (on_session h s).
Proof.
  intros Hok E. unfold dispatchPacket in E.
  destruct (disarm_same (h_session h) (p_Header packet)) as [Hd _].
  set (s1 := disarmHeaderTimeoutLocked _ _) in *.
  assert (Hok1 : table_ok (on_session h s1)) by by apply same_ok.
  destruct (pending s1 !! PacketID (p_Header packet)) as [p|] eqn:Ep; [|by simplify_eq].
  destruct (bool_decide _) eqn:Em; [|by simplify_eq]. injection E as <- <-. apply bool_decide_eq_true in Em.
  destruct Hok1 as [K1 K2 K3 K4 K5 K6]. simpl in K1, K2, K3, K4, K5, K6.
  set (s2 := with_pending _ s1). destruct (queueSchedule_same s2) as [(E1 & E2 & E3 & E4) _].
  destruct (K1 _ _ Ep) as [Hreg Hans].
  constructor; simpl; rewrite ?E1, ?E2, ?E3; simpl; try done.
  - intros i q [Hne Hq]%lookup_delete_Some. destruct (K1 i q Hq) as [Hr Ha]. split; [done|].
    rewrite lookup_insert_ne; [done|]. intros Heq. rewrite Heq in Hreg. congruence.
  - intros ch q [[<- [= <-]]|[_ Hq]]%lookup_insert_Some; [by rewrite <- Em|by apply K2].
  - intros ch x Hx. apply K3 in Hx. simpl in E4. lia.
  - intros ch id m Hr Hg. destruct (K4 ch id m Hr Hg) as [(q & Hq & Hres)|Ha].
    + destruct (decide (id = PacketID (p_Header packet))) as [->|Hne].
      * right. rewrite Ep in Hq. injection Hq as <-. rewrite Hres, lookup_insert_eq. by eexists.
      * left. exists q. by rewrite lookup_delete_ne.
    + right. apply lookup_insert_is_Some. destruct (decide (result p = ch)); [by left|by right].
  - intros Hc. rewrite (K5 Hc). apply delete_empty.
  - intros ch x [[<- _]|[_ Hx]]%lookup_insert_Some; [by eexists|by eapply K6].
Qed.

(** ** Every step keeps the table *)

Lemma readPacket_dispatch s packet :
  readPacket s packet =
    let '(s', correlated) := dispatchPacket s packet in
    if correlated then (s', true)
    else if negb (bootstrapDone s') then (with_pushes (bootstrapPushes s' ++ [packet]) (pushes s') s', true)
    else if (length (pushes s') <? pushBuffer s')%nat
    then (with_pushes (bootstrapPushes s') (pushes s' ++ [packet]) s', true)
    else (finishRead s' ErrProtocol, false).
Proof. done. Qed.

Lemma table_ok_ghost h u t : table_ok h -> table_ok (mkHistory (h_session h) (registered h) (given_up h) u t).
Proof. by intros [K1 K2 K3 K4 K5 K6]. Qed.

Lemma read_ok h packet : table_ok h -> table_ok (on_session h (fst (readPacket (h_session h) packet))).
Proof.
  intros Hok. rewrite readPacket_dispatch. destruct (dispatchPacket _ packet) as [s b] eqn:E.
  pose proof (dispatch_ok _ _ _ _ Hok E) as Hs.
  destruct b; [done|]. destruct (negb _); [by apply (same_ok _ _ Hs)|].
  destruct (_ <? _)%nat; [by apply (same_ok _ _ Hs)|]. apply (finishRead_ok _ ErrProtocol Hs).
Qed.

Lemma step_ok h h' : session_step h h' -> table_ok h -> table_ok h'.
Proof.
  destruct 1 as [h id command s id' ch E|h id command s e E|h id command ch Hr|h id command ch ended Hr
    |h packet s c Hc E|h code|h|h id timer|h|h Hb|h s packet E|h o g Ho]; intros Hok.
  - by eapply begin_ok.
  - apply beginRequest_cases in E as [? _]. by apply same_ok.
  - apply same_ok; [done|]. apply arm_same.
  - by apply abandon_ok.
  - apply (table_ok_ghost _ _ _ (read_ok _ packet Hok)).
  - by apply finishRead_ok.
  - apply same_ok; [done|]. unfold brokenWrite. apply (stopLifecycle_same (with_closing true (h_session h))).
  - apply same_ok; [done|]. apply fire_same.
  - apply same_ok; [done|]. apply Close_same.
  - apply same_ok; [done|]. unfold finishBootstrap. by destruct (_ || _).
  - unfold takePush in E. destruct (pushes _); simplify_eq. apply (table_ok_ghost (on_session h _)). by apply same_ok.
  - by apply same_ok.
Qed.

Lemma history_ok h : history h -> table_ok h.
Proof.
  intros (owner & ts & Hr). assert (H0 : table_ok (newHistory owner ts)).
  { constructor; simpl; try done; intros *; by rewrite ?lookup_empty. }
  revert H0. induction Hr; [done|]. eauto using step_ok.
Qed.

(** *** A concrete session

    [LOGINLIST] is sent with packet ID 2 and its timer armed, a push arrives,
    then the reply. *)

Definition LOGINLIST : bytes := [76; 79; 71; 73; 78; 76; 73; 83; 84].

Definition demoPacket (id : Z) (command : bytes) : Packet := mkPacket (mkHeader id 0 command 0 0) [].

Definition demoOpen : History := newHistory (Some Ping.newPingTimerOwner) true.

Definition demoBegun : History :=
  mkHistory (match beginRequest (h_session demoOpen) 2 LOGINLIST with Some (s, _) => s | None => h_session demoOpen end)
    (<[0%nat := (2, LOGINLIST)]> (registered demoOpen)) ∅ [] [].

Definition demoArmed : History := on_session demoBegun (armHeaderTimeout (h_session demoBegun) 2 LOGINLIST 0).

Definition demoRead (h : History) (packet : Packet) (kept : list Packet) : History :=
  mkHistory (fst (readPacket (h_session h) packet)) (registered h) (given_up h) (unsolicited h ++ kept) (taken h).

Definition demoPushed : History := demoRead demoArmed (demoPacket 0 PING) [demoPacket 0 PING].
Definition demoReplied : History := demoRead demoPushed (demoPacket 2 LOGINLIST) [].
Definition demoClosed : History := on_session demoReplied (Close (h_session demoReplied)).

Lemma demoArmed_history : history demoArmed.
Proof.
  exists (Some Ping.newPingTimerOwner), true. apply (rtc_l _ _ demoBegun).
  - apply (ss_begin demoOpen 2 LOGINLIST (h_session demoBegun) 2 0). reflexivity.
  - apply rtc_once. by apply ss_arm.
Qed.

Lemma demo_read_step h packet kept : closed (h_session h) = false ->
  (if snd (dispatchPacket (h_session h) packet) || negb (snd (readPacket (h_session h) packet)) then [] else [packet]) = kept ->
  session_step h (demoRead h packet kept).
Proof. intros Hc <-. exact (ss_read h packet _ _ Hc (surjective_pairing _)). Qed.

Lemma demoReplied_history : history demoReplied.
Proof.
  destruct demoArmed_history as (owner & ts & Hr). exists owner, ts. etransitivity; [exact Hr|].
  apply (rtc_l _ _ demoPushed); [|apply rtc_once]; apply demo_read_step; vm_compute; reflexivity.
Qed.

Lemma demoClosed_history : history demoClosed.
Proof.
  destruct demoReplied_history as (owner & ts & Hr). exists owner, ts. eapply rtc_r; [exact Hr|]. apply ss_close.
Qed.

(** *** The stream of unsolicited packets *)

Definition stream_ok (h : History) : Prop :=
  if bootstrapDone (h_session h)
  then bootstrapPushes (h_session h) = [] /\ unsolicited h = taken h ++ pushes (h_session h)
  else unsolicited h = bootstrapPushes (h_session h) /\ pushes (h_session h) = [] /\ taken h = [].

Lemma same_stream_ok h s r g : same_stream (h_session h) s -> stream_ok h ->
  stream_ok (mkHistory s r g (unsolicited h) (taken h)).
Proof. unfold stream_ok. intros (E1 & E2 & E3). simpl. by rewrite E1, E2, E3. Qed.

Lemma finishRead_same s err : same_stream s (finishRead s err).
Proof.
  unfold finishRead. destruct (closed s); [done|].
  set (s1 := mkSession _ true _ _ _ _ _ _ _ _ _ _ _ _ _ _).
  set (s2 := if closing s then s1 else _). simpl.
  assert (H2 : same_stream s1 s2) by (unfold s2; destruct (closing _); [done | apply iter_schedule_same]).
  destruct (stopLifecycle_same s2) as [_ (E1 & E2 & E3)], H2 as (F1 & F2 & F3). unfold same_stream. simpl.
  by rewrite E1, E2, E3, F1, F2, F3.
Qed.

Lemma dispatch_same s packet : same_stream s (fst (dispatchPacket s packet)).
Proof.
  unfold dispatchPacket. destruct (disarm_same s (p_Header packet)) as [_ Hd].
  destruct (pending _ !! _); [|done]. destruct (bool_decide _); [|done]. simpl.
  match goal with |- context [queueSchedule ?s2] => destruct (queueSchedule_same s2) as [_ [(E1 & E2 & E3) _]] end.
  destruct Hd as (F1 & F2 & F3). unfold same_stream. simpl. by rewrite E1, E2, E3.
Qed.

Lemma step_stream h h' : session_step h h' -> stream_ok h -> stream_ok h'.
Proof.
  destruct 1 as [h id command s id' ch E|h id command s e E|h id command ch Hr|h id command ch ended Hr
    |h packet s c Hc E|h code|h|h id timer|h|h Hb|h s packet E|h o g Ho]; intros Hok.
  - apply same_stream_ok; [|done]. apply beginRequest_cases in E. tauto.
  - apply same_stream_ok; [|done]. apply beginRequest_cases in E. tauto.
  - apply same_stream_ok; [|done]. apply arm_same.
  - apply same_stream_ok; [|done]. unfold abandon, removePending. destruct (isPending _ _ _), (_ && _); try done;
    match goal with |- same_stream _ (queueSchedule ?s2) => apply (queueSchedule_same s2) end.
  - rewrite readPacket_dispatch, E. pose proof (dispatch_same (h_session h) packet) as Hs. rewrite E in Hs.
    simpl in Hs. destruct c; [rewrite app_nil_r; by apply same_stream_ok|].
    apply (same_stream_ok h s ∅ ∅ Hs) in Hok. unfold stream_ok in *. simpl in Hok.
    destruct (bootstrapDone s) eqn:Eb; cbn [negb].
    + destruct (_ <? _)%nat; simpl.
      * rewrite Eb. destruct Hok as [-> ->]. by rewrite app_assoc.
      * destruct (finishRead_same s ErrProtocol) as (E1 & E2 & E3). rewrite E1, E2, E3, Eb, app_nil_r. done.
    + simpl. rewrite Eb. by destruct Hok as (-> & -> & ->).
  - apply same_stream_ok; [|done]. apply finishRead_same.
  - apply same_stream_ok; [|done]. unfold brokenWrite. apply (stopLifecycle_same (with_closing true (h_session h))).
  - apply same_stream_ok; [|done]. apply fire_same.
  - apply same_stream_ok; [|done]. apply Close_same.
  - unfold stream_ok in *. rewrite Hb in Hok. destruct Hok as (Hu & Hp & Ht). unfold finishBootstrap.
    destruct (_ || _); simpl; [by rewrite Hb|]. by rewrite Ht.
  - unfold takePush in E. unfold stream_ok in *. destruct (pushes (h_session h)) as [|q rest] eqn:Ep; [done|].
    injection E as <- ->. simpl. destruct (bootstrapDone (h_session h)).
    + destruct Hok as [-> ->]. by rewrite <- app_assoc.
    + by destruct Hok as (_ & ? & _).
  - by apply same_stream_ok.
Qed.

(** No unsolicited packet is lost, duplicated or reordered: those the reader
    kept are, in the order they were read, the ones the consumer has taken
    followed by those still buffered, the packets that arrived during bootstrap
    first. *)
Theorem pushes_in_order h (Hh : history h) :
  unsolicited h = taken h ++ (bootstrapPushes (h_session h) ++ pushes (h_session h)).
Proof.
  assert (Hok : stream_ok h).
  { destruct Hh as (owner & ts & Hr). assert (H0 : stream_ok (newHistory owner ts)) by done.
    revert H0. induction Hr; [done|]. eauto using step_stream. }
  unfold stream_ok in Hok. destruct (bootstrapDone _).
  - by destruct Hok as [-> ->].
  - destruct Hok as (-> & -> & ->). by rewrite app_nil_r.
Qed.

Lemma pushes_in_order_witness :
  unsolicited demoReplied = taken demoReplied ++ (bootstrapPushes (h_session demoReplied) ++ pushes (h_session demoReplied)) /\
  unsolicited demoReplied = [demoPacket 0 PING].
Proof. split; [exact (pushes_in_order demoReplied demoReplied_history)|reflexivity]. Defined.

(** *** Replies *)

(** What the dispatch of a packet does to the answers, in terms of the table
    before it. *)
Lemma readPacket_reply s packet p :
  pending s !! PacketID (p_Header packet) = Some p -> method p = Method (p_Header packet) ->
  (readPacket s packet).2 = true /\
  answered (readPacket s packet).1 = <[result p := Reply packet]> (answered s) /\
  pending (readPacket s packet).1 = delete (PacketID (p_Header packet)) (pending s).
Proof.
  intros Hp Hm. rewrite readPacket_dispatch. unfold dispatchPacket.
  destruct (disarm_same s (p_Header packet)) as [(E1 & E2 & _) _]. rewrite E1, Hp, bool_decide_true by done.
  simpl. rewrite E2. split_and!; [done|done|].
  match goal with |- context [queueSchedule ?s2] => destruct (queueSchedule_same s2) as [(E3 & _) _] end. by rewrite E3.
Qed.

Lemma readPacket_other s packet ch r :
  (forall p, pending s !! PacketID (p_Header packet) = Some p -> method p <> Method (p_Header packet)) ->
  answered (readPacket s packet).1 !! ch = Some (Reply r) -> answered s !! ch = Some (Reply r).
Proof.
  intros Hp. rewrite readPacket_dispatch. unfold dispatchPacket.
  destruct (disarm_same s (p_Header packet)) as [(E1 & E2 & _) _]. rewrite E1.
  set (s1 := disarmHeaderTimeoutLocked _ _) in *. rewrite <-E2.
  assert (Hd : forall c, answered (if c : bool then (s1, true) else
      if negb (bootstrapDone s1) then (with_pushes (bootstrapPushes s1 ++ [packet]) (pushes s1) s1, true)
      else if (length (pushes s1) <? pushBuffer s1)%nat
      then (with_pushes (bootstrapPushes s1) (pushes s1 ++ [packet]) s1, true) else (finishRead s1 ErrProtocol, false)).1
      !! ch = Some (Reply r) -> answered s1 !! ch = Some (Reply r)).
  { intros [|]; [done|]. destruct (negb _); [done|]. destruct (_ <? _)%nat; [done|]. simpl. unfold finishRead.
    destruct (closed s1); [done|]. simpl. rewrite failAll_lookup. by destruct (decide _). }
  destruct (pending s !! _) as [p|] eqn:Ep; [|apply (Hd false)].
  rewrite bool_decide_false by (by apply Hp). apply (Hd false).
Qed.

(** C10: a reply reaches the request it answers and no other.  When a packet is
    read whose ID and method are those a request was registered with, and its
    caller still waits for it without an answer, that request's channel and no other is
    answered, with this packet, the request leaves the table and reading goes on;
    a packet that matches no request in flight answers none.  What a channel is
    answered with is either the error of the closed session or a packet with
    the ID and method the channel's request was registered with; two requests
    in flight never share a channel; and once the session is closed every
    request its caller still waits for has its answer. *)
Theorem replies_correlate h (Hh : history h) :
  (forall packet ch, registered h !! ch = Some (PacketID (p_Header packet), Method (p_Header packet)) ->
     ch ∉ given_up h -> answered (h_session h) !! ch = None ->
     let '(s, continues) := readPacket (h_session h) packet in
     continues = true /\ answered s = <[ch := Reply packet]> (answered (h_session h)) /\
     pending s = delete (PacketID (p_Header packet)) (pending (h_session h))) /\
  (forall packet ch r,
     (forall p, pending (h_session h) !! PacketID (p_Header packet) = Some p -> method p <> Method (p_Header packet)) ->
     answered (readPacket (h_session h) packet).1 !! ch = Some (Reply r) -> answered (h_session h) !! ch = Some (Reply r)) /\
  (forall ch packet, answered (h_session h) !! ch = Some (Reply packet) ->
     registered h !! ch = Some (PacketID (p_Header packet), Method (p_Header packet))) /\
  (forall i p j q, pending (h_session h) !! i = Some p -> pending (h_session h) !! j = Some q ->
     result p = result q -> i = j) /\
  (closed (h_session h) = true -> forall ch request, registered h !! ch = Some request -> ~ (ch ∈ given_up h) ->
     is_Some (answered (h_session h) !! ch)).
Proof.
  apply history_ok in Hh as [K1 K2 K3 K4 K5 K6]. split_and!; [| |done| |].
  - intros packet ch Hr Hg Ha. destruct (K4 _ _ _ Hr Hg) as [(p & Hp & <-)|[? Hx]]; [|congruence].
    destruct (K1 _ _ Hp) as [Hreg _]. rewrite Hr in Hreg. injection Hreg as Hm.
    destruct (readPacket_reply _ packet p Hp) as (E1 & E2 & E3); [done|]. by destruct (readPacket _ _).
  - intros packet ch r. apply readPacket_other.
  - intros i p j q Hp Hq Heq. apply K1 in Hp as [Hp _], Hq as [Hq _]. congruence.
  - intros Hc ch [id m] Hr Hg. destruct (K4 ch id m Hr Hg) as [(p & Hp & _)|?]; [|done].
    rewrite (K5 Hc), lookup_empty in Hp. done.
Qed.

Lemma replies_correlate_witness :
  answered (readPacket (h_session demoArmed) (demoPacket 2 LOGINLIST)).1 = {[0%nat := Reply (demoPacket 2 LOGINLIST)]} /\
  registered demoReplied !! 0%nat = Some (2, LOGINLIST).
Proof.
  destruct (replies_correlate demoArmed demoArmed_history) as (Ha & _).
  destruct (replies_correlate demoReplied demoReplied_history) as (_ & _ & Hr & _). split.
  - specialize (Ha (demoPacket 2 LOGINLIST) 0%nat eq_refl (not_elem_of_empty _) eq_refl).
    destruct (readPacket _ _) as [s continues]. destruct Ha as (_ & Ha & _). exact Ha.
  - exact (Hr 0%nat (demoPacket 2 LOGINLIST) eq_refl).
Defined.

Lemma finishRead_answered s err ch x :
  (forall id p, pending s !! id = Some p -> answered s !! result p = None) ->
  answered s !! ch = Some x -> answered (finishRead s err) !! ch = Some x.
Proof.
  intros Hp Ha. unfold finishRead. destruct (closed s); [done|]. simpl. rewrite failAll_lookup.
  destruct (decide _) as [(id & p & Hi & <-)|]; [|done]. rewrite (Hp id p Hi) in Ha. done.
Qed.

Lemma dispatch_answered s packet ch x :
  (forall id p, pending s !! id = Some p -> answered s !! result p = None) ->
  answered s !! ch = Some x -> answered (fst (dispatchPacket s packet)) !! ch = Some x.
Proof.
  intros Hp Ha. unfold dispatchPacket.
  destruct (disarm_same s (p_Header packet)) as [(E1 & E2 & _) _]. rewrite E1.
  destruct (pending s !! _) as [p|] eqn:Ep; [|by simpl; rewrite E2].
  destruct (bool_decide _); [|by simpl; rewrite E2]. cbn [fst with_answered answered].
  rewrite lookup_insert_ne; [by rewrite E2|]. intros Heq. rewrite <- Heq, (Hp _ _ Ep) in Ha. done.
Qed.

Lemma step_answered h h' ch x : table_ok h -> session_step h h' ->
  answered (h_session h) !! ch = Some x -> answered (h_session h') !! ch = Some x.
Proof.
  intros Hok Hs.
  assert (Hfree : forall id p, pending (h_session h) !! id = Some p -> answered (h_session h) !! result p = None)
    by (intros id p Hi; apply (tk_pending _ Hok) in Hi; tauto).
  destruct Hs as [h id command s id' ch' E|h id command s e E|h id command ch' Hr|h id command ch' ended Hr
    |h packet s c Hc E|h code|h|h id timer|h|h Hb|h s packet E|h o g Ho]; intros Ha; cbn [h_session on_session].
  - apply beginRequest_cases in E as (_ & _ & _ & _ & _ & -> & _). done.
  - apply beginRequest_cases in E as [(_ & -> & _) _]. done.
  - destruct (arm_same (h_session h) id command ch') as [(_ & -> & _) _]. done.
  - unfold abandon, removePending. destruct (isPending _ _ _), (_ && _); try exact Ha;
    match goal with |- context [queueSchedule ?s2] => destruct (queueSchedule_same s2) as [(_ & -> & _) _] end; done.
  - rewrite readPacket_dispatch.
    pose proof (dispatch_answered _ packet _ _ Hfree Ha) as Hd.
    pose proof (dispatch_ok h packet s c Hok E) as Hok'. rewrite E in *. simpl in Hd.
    destruct c; [done|]. destruct (negb _); [done|]. destruct (_ <? _)%nat; [done|]. simpl.
    apply finishRead_answered; [|done]. intros i p Hi. by apply (tk_pending _ Hok') in Hi as [_ ?].
  - by apply finishRead_answered.
  - unfold brokenWrite. by destruct (stopLifecycle_same (with_closing true (h_session h))) as [(_ & -> & _) _].
  - destruct (fire_same (h_session h) id timer) as [(_ & -> & _) _]. done.
  - destruct (Close_same (h_session h)) as [(_ & -> & _) _]. done.
  - unfold finishBootstrap. by destruct (_ || _).
  - unfold takePush in E. by destruct (pushes _); simplify_eq.
  - done.
Qed.

(** An answer is final: what was sent on a request's channel is never
    replaced, whatever the session does afterwards. *)
Theorem answers_final h h' ch x (Hh : history h) (Hr : rtc session_step h h')
  (Ha : answered (h_session h) !! ch = Some x) : answered (h_session h') !! ch = Some x.
Proof.
  induction Hr as [|h h1 h2 Hs _ IH]; [done|]. apply IH.
  - destruct Hh as (owner & ts & Hr). exists owner, ts. by eapply rtc_r.
  - by eapply step_answered; [apply history_ok|..].
Qed.

Lemma answers_final_witness : answered (h_session demoClosed) !! 0%nat = Some (Reply (demoPacket 2 LOGINLIST)).
Proof.
  exact (answers_final demoReplied demoClosed 0%nat _ demoReplied_history (rtc_once _ _ (ss_close demoReplied)) eq_refl).
Defined.

(** *** Closing and the receive-header timeout *)

(** A stopped lifecycle has released its keepalive timer. *)
Definition released (s : session) : Prop :=
  lifecycleStopped s = true -> forall o, scheduler s = Some o -> Ping.closed o = true /\ Ping.timer o = None.

(** What the flags of two sessions have in common. *)
Definition same_flags (s s' : session) : Prop :=
  lifecycleStopped s' = lifecycleStopped s /\ closing s' = closing s /\ closed s' = closed s /\ closeCause s' = closeCause s.

(** A session that closes has stopped its lifecycle, and only closing sets a
    cause. *)
Definition stopped_ok (s : session) : Prop :=
  released s /\ (closing s || closed s = true -> lifecycleStopped s = true) /\
  (closeCause s = None \/ closing s = true).

Lemma same_flags_ok s s' : same_flags s s' -> (released s -> released s') -> stopped_ok s -> stopped_ok s'.
Proof. intros (E1 & E2 & E3 & E4) Hr (K1 & K2 & K3). unfold stopped_ok. rewrite E1, E2, E3, E4. tauto. Qed.

Lemma queueSchedule_keeps s : same_flags s (queueSchedule s) /\ (released s -> released (queueSchedule s)).
Proof.
  unfold queueSchedule. destruct (lifecycleStopped s) eqn:El; [done|].
  destruct (scheduler s); [|done]. unfold released. simpl. by rewrite El.
Qed.

Lemma queueCancel_keeps s : same_flags s (queueCancelRequest s) /\ (released s -> released (queueCancelRequest s)).
Proof.
  unfold queueCancelRequest. destruct (lifecycleStopped s) eqn:El; [done|].
  destruct (scheduler s); [|done]. unfold released. simpl. by rewrite El.
Qed.

Lemma iter_schedule_keeps n s :
  same_flags s (Nat.iter n queueSchedule s) /\ (released s -> released (Nat.iter n queueSchedule s)).
Proof.
  induction n as [|n [(E1 & E2 & E3 & E4) IH]]; [done|]. simpl.
  destruct (queueSchedule_keeps (Nat.iter n queueSchedule s)) as [(F1 & F2 & F3 & F4) Hr].
  split; [split_and!; congruence|tauto].
Qed.

Lemma stopLifecycle_stops s : released s ->
  released (stopLifecycle s) /\ lifecycleStopped (stopLifecycle s) = true /\ closing (stopLifecycle s) = closing s /\
  closed (stopLifecycle s) = closed s /\ closeCause (stopLifecycle s) = closeCause s.
Proof.
  intros Hs. unfold stopLifecycle. destruct (lifecycleStopped s) eqn:El; [done|]. split; [|done].
  intros _ o Ho. simpl in Ho. destruct (scheduler s) as [o'|]; [|done].
  simpl in Ho. injection Ho as <-. unfold Ping.shutdown, Ping.queueCancel. simpl. by destruct (Ping.closed o') eqn:E.
Qed.

Lemma Close_stopped s : released s -> (closing s || closed s = true -> stopped_ok s) -> stopped_ok (Close s).
Proof.
  intros K1 K2. unfold Close. rewrite orb_comm. destruct (closing s || closed s) eqn:E; [by apply K2|].
  destruct (stopLifecycle_stops (with_timers ∅ (with_closing true s)) K1) as (H1 & H2 & H3 & H4 & H5).
  split_and!; [done|done|by right].
Qed.

Lemma finishRead_stopped s err : stopped_ok s -> stopped_ok (finishRead s err).
Proof.
  intros Hs. unfold finishRead. destruct (closed s); [done|]. destruct Hs as (K1 & K2 & K3).
  set (s1 := mkSession _ true _ _ _ _ _ _ _ _ _ _ _ _ _ _). set (s2 := if closing s then s1 else _).
  assert (Hk : closing s2 = closing s /\ closeCause s2 = closeCause s /\ released s2).
  { unfold s2. destruct (closing s) eqn:Ec; [done|].
    destruct (iter_schedule_keeps (size (pending s)) s1) as [(E1 & E2 & E3 & E4) Hr]. rewrite E2, E4. split_and!; [done..|].
    apply Hr. exact K1. }
  destruct Hk as (E1 & E2 & Hr). destruct (stopLifecycle_stops s2 Hr) as (H1 & H2 & H3 & H4 & H5).
  split_and!; [exact H1|done|]. simpl. rewrite H3, H5, E1, E2. exact K3.
Qed.

Lemma dispatch_stopped s packet : stopped_ok s -> stopped_ok (fst (dispatchPacket s packet)).
Proof.
  intros Hs. unfold dispatchPacket. set (s1 := disarmHeaderTimeoutLocked _ _).
  assert (H1 : stopped_ok s1).
  { unfold s1, disarmHeaderTimeoutLocked. destruct (_ !! _); [|done]. by destruct (bool_decide _). }
  destruct (pending s1 !! _); [|done]. destruct (bool_decide _); [|done].
  destruct (queueSchedule_keeps (with_pending (delete (PacketID (p_Header packet)) (pending s1)) s1)) as [Hf Hr].
  exact (same_flags_ok _ _ Hf Hr H1).
Qed.

Lemma begin_stopped s id command s' r : beginRequest s id command = Some (s', r) -> stopped_ok s -> stopped_ok s'.
Proof.
  unfold beginRequest. intros E Hs. destruct (bool_decide (command = [])); [by simplify_eq|].
  destruct (_ || _); [by simplify_eq|].
  assert (Hal : forall s1 r1, (if id =? 0 then allocateRequestIDLocked s
      else Some (if nextID s <=? id then with_nextID (advanceID id) s else s, Ok id)) = Some (s1, r1) -> stopped_ok s1).
  { intros s1 r1. destruct (id =? 0).
    - unfold allocateRequestIDLocked. destruct (allocateLoop _ _ _ _) as [[? ?]|]; [|done]. by intros [= <- _].
    - intros [= <- _]. by destruct (_ <=? _). }
  destruct (if id =? 0 then _ else _) as [[s1 [i|e]]|] eqn:E1; [|by simplify_eq; eapply Hal|done].
  specialize (Hal _ _ eq_refl). destruct (bool_decide _); [by simplify_eq|]. injection E as <- _.
  match goal with |- stopped_ok (queueCancelRequest ?s2) => destruct (queueCancel_keeps s2) as [Hf Hr] end.
  exact (same_flags_ok _ _ Hf Hr Hal).
Qed.

Lemma read_stopped s packet : stopped_ok s -> stopped_ok (fst (readPacket s packet)).
Proof.
  intros Hs. rewrite readPacket_dispatch. pose proof (dispatch_stopped s packet Hs) as Hd.
  destruct (dispatchPacket s packet) as [s1 c]. simpl in Hd. destruct c; [done|].
  destruct (negb _); [done|]. destruct (_ <? _)%nat; [done|]. by apply finishRead_stopped.
Qed.

Lemma step_stopped h h' : session_step h h' -> stopped_ok (h_session h) -> stopped_ok (h_session h').
Proof.
  destruct 1 as [h id command s id' ch E|h id command s e E|h id command ch Hr|h id command ch ended Hr
    |h packet s c Hc E|h code|h|h id timer|h|h Hb|h s packet E|h o g Ho]; intros Hs; cbn [h_session on_session].
  - by eapply begin_stopped.
  - by eapply begin_stopped.
  - unfold armHeaderTimeout. by destruct (_ || _).
  - unfold abandon. assert (H1 : stopped_ok (removePending (h_session h) id ch)) by (unfold removePending; by destruct (isPending _ _ _)).
    destruct (_ && _); [|done]. destruct (queueSchedule_keeps (removePending (h_session h) id ch)) as [Hf Hq].
    exact (same_flags_ok _ _ Hf Hq H1).
  - by apply read_stopped.
  - by apply finishRead_stopped.
  - destruct Hs as (K1 & K2 & K3). destruct (stopLifecycle_stops (with_closing true (h_session h)) K1) as (H1 & H2 & H3 & H4 & H5).
    split_and!; [done|done|by right].
  - unfold fireHeaderTimeout. destruct (_ !! _); [|done]. destruct (_ || _) eqn:E; [done|].
    apply Close_stopped; [apply Hs|]. simpl. intros Hc. rewrite <- orb_assoc, (orb_comm (closed _)) in E.
    apply orb_false_iff in E as [_ E]. congruence.
  - apply Close_stopped; [apply Hs|done].
  - unfold finishBootstrap. by destruct (_ || _).
  - unfold takePush in E. by destruct (pushes _); simplify_eq.
  - destruct Hs as (K1 & K2 & K3). split_and!; [|done|done]. intros Hl o' Ho'. simpl in Ho'. injection Ho' as <-.
    destruct (K1 Hl o Ho) as [Hc Ht]. unfold Ping.fire. by rewrite Hc.
Qed.

Lemma history_stopped h : history h -> stopped_ok (h_session h).
Proof.
  intros (owner & ts & Hr). assert (H0 : stopped_ok (h_session (newHistory owner ts))) by (split_and!; [done|done|by left]).
  revert H0. induction Hr; [done|]. eauto using step_stopped.
Qed.

(** Once the session is closing or closed its keepalive is dead: the timer's
    owner is shut down with no timer armed, no armed callback of any generation
    runs, and queueing another one arms nothing. *)
Theorem closing_never_pings h o (Hh : history h) (Hc : closing (h_session h) || closed (h_session h) = true)
  (Ho : scheduler (h_session h) = Some o) :
  Ping.timer o = None /\ (forall g, Ping.fire o g = (o, false)) /\ Ping.queueSchedule o = (o, false).
Proof.
  destruct (history_stopped h Hh) as (K1 & K2 & _). destruct (K1 (K2 Hc) o Ho) as [Hcl Ht].
  split; [done|]. unfold Ping.fire, Ping.queueSchedule. rewrite Hcl. done.
Qed.

Lemma closing_never_pings_witness : exists o, scheduler (h_session demoClosed) = Some o /\ Ping.timer o = None.
Proof.
  eexists. split; [reflexivity|].
  exact (proj1 (closing_never_pings demoClosed _ demoClosed_history eq_refl eq_refl)).
Defined.

(** C27: a silent carriage does not hang its callers: when the receive-header
    timer of any written request fires, the session closes, and as soon as the
    reader then ends every request in flight is answered with the
    receive-header timeout, whatever error the reader ended with. *)
Theorem timeout_fails_requests h id t code (Hh : history h)
  (Hopen : closing (h_session h) || closed (h_session h) = false)
  (Ht : headerTimers (h_session h) !! id = Some t) :
  let s := finishRead (fireHeaderTimeout (h_session h) id (handle t)) (ReadFailed code) in
  closed s = true /\ pending s = ∅ /\ pushesClosed s = true /\
  forall i p, pending (h_session h) !! i = Some p -> answered s !! result p = Some (Failed errReceiveHeaderTimeout).
Proof.
  destruct (history_stopped h Hh) as (_ & _ & K3).
  apply orb_false_iff in Hopen as [H1 H2]. destruct K3 as [Hcause|]; [|congruence].
  assert (Hf : closeCause (fireHeaderTimeout (h_session h) id (handle t)) = Some errReceiveHeaderTimeout /\
               closing (fireHeaderTimeout (h_session h) id (handle t)) = true).
  { unfold fireHeaderTimeout. rewrite Ht, Nat.eqb_refl, H1, H2, Hcause. unfold Close. simpl.
    unfold stopLifecycle. by destruct (lifecycleStopped _). }
  destruct (fire_same (h_session h) id (handle t)) as [(E1 & E2 & E3 & _) _], Hf as [E4 E5].
  set (f := fireHeaderTimeout _ _ _) in *. unfold finishRead. rewrite E3, H2, E4, E5, E1.
  match goal with |- context [stopLifecycle ?s3] => destruct (stopLifecycle_same s3) as [(F1 & _ & F3 & _) _] end.
  simpl. rewrite F1, F3. split_and!; try done.
  - unfold stopLifecycle. by destruct (lifecycleStopped _).
  - intros i p Hp. rewrite failAll_lookup. rewrite decide_True; [done|]. by exists i, p.
Qed.

Lemma timeout_fails_requests_witness :
  answered (finishRead (fireHeaderTimeout (h_session demoArmed) 2 1) (ReadFailed 0)) !! 0%nat
    = Some (Failed errReceiveHeaderTimeout).
Proof.
  exact (proj2 (proj2 (proj2 (timeout_fails_requests demoArmed 2 (mkTimer LOGINLIST 1) 0 demoArmed_history eq_refl eq_refl)))
    2 (mkPending LOGINLIST 0) eq_refl).
Defined.
