(* ===== verification/Handling.v ===== *)
(** * Handling one source event (src/internal/bridge/connector/client.go)

    [handleEvent] bridges one event of the session to Matrix and commits its
    position.  The bridge framework, its database and the connector's handlers
    of membership, reactions and receipts are the class [Bridge]: each operation
    is a transition of an abstract [World].  The session's client is the
    [Client] of Delivery.v, so a commit is a commit. *)

From S2P Require Import Prelude.
From S2P Require Import Bson Events Continuity Delivery.
From S2P Require PrivateJson SyncMsg Identifiers.

#[local] Open Scope string_scope.
#[local] Open Scope list_scope.
#[local] Open Scope Z_scope.

(** [bridgev2.EventHandlingResult]. *)
Record EventHandlingResult := mkHandled {
  Success : bool;
  Queued : bool;
  Ignored : bool;
  Failed : bool; (* Error != nil *)
}.

(** Whether the bridge finished handling an event. *)
Definition committable (result : EventHandlingResult) : bool :=
  Success result && negb (Queued result) && negb (Failed result).

(** The bridge states that delivery reports. *)
Inductive BridgeState :=
| stateConnected
| stateGroupAccessRemoved
| stateGroupMembershipPending
| stateChatDeliveryPaused
| stateGroupCreateUnresolved.

(** [errSourceAccessRemoved] and [errMembershipPending]. *)
Inductive SourceBlock := SourceAccessRemoved | MembershipPending.

Record membershipFeed := mkMembershipChange { invitees : list Z; leaver : Z }.

(** [bridgev2.RemoteEvent], by the interfaces the connector looks at: a message
    with its ID and, when it is made of several parts, their IDs; any other
    event; each with the portal it belongs to. *)
Inductive RemoteEvent `{EventContent} :=
| RemoteMessage (portalID messageID : string) (source : Event)
| RemoteOther (portalID : string) (source : Event).

Definition portalOf `{EventContent} (remote : RemoteEvent) : string :=
  match remote with RemoteMessage p _ _ | RemoteOther p _ => p end.

Class Bridge `{EventContent} := {
  World : Type;
  (** The environment: the system calls of the next checkpoint write, the
      server's answers to the next history requests, the clock. *)
  checkpointIO : state World PrivateJson.WriteEnv;
  historyExchange : state World (nat -> SyncMsg.Request -> res ClientError Raw);
  Now : state World Z;
  sendState : BridgeState -> state World unit;
  (** [kc.login.QueueRemoteEvent], and the rows of a bridged message. *)
  queue : RemoteEvent -> state World EventHandlingResult;
  messageParts : string -> state World (option (list string));
  (** The part IDs of a message converted to several parts. *)
  ExpectedPartIDs : Event -> option (list string);
  noteMessageAuthor : Event -> state World unit;
  (** [kc.sourceBlocked], and the rest of source access. *)
  sourceBlocked : World -> list SourceBlock;
  recordSourceRemoval : Z -> state World bool;
  applySourceLeave : Z -> state World bool;
  verifySourceLeave : Z -> state World bool;
  checkSourceAccess : Z -> state World bool;
  checkUnresolvedGroupCreates : state World bool;
  managedMembershipChange : Z -> bool -> membershipFeed -> state World (bool * bool);
  prepareMemberDiscovery : Event -> state World bool;
  observeReactionRevision : Z -> Z -> state World unit;
  applyReactionChange : Event -> state World (option bool);
  reactionPushFailure : Event -> state World bool;
  handleReadState : Event -> state World bool;
  GetMessages : Z -> list Z -> state World (option (list Event));
  deletedFromMatrix : string -> state World bool;
  targetAlreadyDeleted : Event -> state World bool;
  (** [rosterFallback] (client.go) and [isSeedMessage] (seed.go). *)
  rosterFallback : Z -> state World unit;
  isSeedMessage : Event -> bool;
  (** [applyMetadataRefresh] (metadata_refresh.go): whether the connection
      failed, and a chat whose paused membership converged. *)
  applyMetadataRefresh : state World (bool * option Z);
}.

Section Handling.
Context `{Bridge}.
(** The account's user ID and login ID. *)
Context (userID : Z) (login : string).

(** The session's client and everything else. *)
Record Conn := mkConn { source : Client; world : World }.

Definition lift {A} (m : state World A) : state Conn A :=
  fun kc => let '(w, a) := m (world kc) in (mkConn (source kc) w, a).

(** [makePortalKey(chatID, login).ID]. *)
Definition portalID (chatID : Z) : string :=
  Identifiers.PortalID (Identifiers.makePortalKey chatID login).

(** ** Bridge events (convert.go) *)

Definition message (chatID logID : Z) (evt : Event) : state Conn (option RemoteEvent) :=
  lift (noteMessageAuthor evt);*
  ret (Some (RemoteMessage (portalID chatID) (Identifiers.makeMessageID chatID logID) evt)).

(** An event built by [messageMeta] that is no message: an edit or a removal. *)
Definition messageChange (chatID : Z) (evt : Event) : state Conn (option RemoteEvent) :=
  lift (noteMessageAuthor evt);* ret (Some (RemoteOther (portalID chatID) evt)).

Definition remoteEventFor (evt : Event) : state Conn (option RemoteEvent) :=
  match evt with
  | ContentMessage chatID logID _ | UnsupportedMessage chatID logID _ _ _
  | DeletedMessage chatID logID _ _ _ | MessageGap chatID logID _ _ _ _ => message chatID logID evt
  | MessageEdited chatID _ _ _ _ _ _ | MessageDeleted chatID _ _ _ _ _ => messageChange chatID evt
  | MemberAdded chatID _ _ | MemberRemoved chatID _ _
  | ChatStatusChanged chatID _ _ _ | ChatMoimMetaChanged chatID _
  | ChatMetaChanged chatID _ _ _ _ _ | ChatLeft chatID _ => ret (Some (RemoteOther (portalID chatID) evt))
  | ChatMCMetaChanged chatID _ type _ _ _ =>
      if String.eqb type "name" || String.eqb type "imagePath"
      then ret (Some (RemoteOther (portalID chatID) evt))
      else ret None
  | _ => ret None
  end.

(** ** Source access (client.go) *)

Definition removedChatOf (evt : Event) : Z :=
  match evt with
  | ChatLeft chatID _ => chatID
  | MemberRemoved chatID _ member => if UserID member =? userID then chatID else 0
  | _ => 0
  end.

Definition beginSourceRemoval (chatID : Z) : state Conn bool :=
  lift (sendState stateGroupAccessRemoved);*
  lift (recordSourceRemoval chatID).

Definition applyRemovedSource (chatID : Z) : state Conn bool :=
  let* departed := lift (applySourceLeave chatID) in
  if negb departed then ret false else lift (verifySourceLeave chatID).

(** The chat whose access gates an event: [Err] is an unparsable portal, the
    boolean whether the event is gated at all. *)
Definition sourceChatOf (evt : Event) (remote : option RemoteEvent) : res Identifiers.Error (Z * bool) :=
  match evt, remote with
  | ReactionChanged chatID _ _ _ _ _, _ => Ok (chatID, true)
  | ReadStateChanged chatID _ _, _ => Ok (chatID, true)
  | _, None => Ok (0, false)
  | _, Some remote => let! chatID := Identifiers.parseChatID (portalOf remote) in Ok (chatID, true)
  end.

(** ** Commits *)

Definition commitIfPositioned (evt : Event) : state Conn bool :=
  match MessagePosition evt with
  | None => ret true
  | Some _ =>
      let* env := lift checkpointIO in
      fun kc => let '(c, err) := CommitEvent env (source kc) evt in
                (mkConn c (world kc), match err with None => true | Some _ => false end)
  end.

(** A message the framework ignored authorizes progress only when it is
    already mapped, every expected part of it. *)
Definition ignoredMessageHasMapping (messageID : string) (evt : Event) : state Conn bool :=
  let* parts := lift (messageParts messageID) in
  match parts with
  | None | Some [] => ret false
  | Some parts =>
      match ExpectedPartIDs evt with
      | None => ret true
      | Some [] => ret false
      | Some expected => ret (forallb (fun part => bool_decide (part ∈ parts)) expected)
      end
  end.

Definition deliverRemote (evt : Event) (remote : option RemoteEvent) : state Conn bool :=
  match remote with
  | None => ret true
  | Some remote =>
      let* result := lift (queue remote) in
      if negb (committable result) then ret false else
      let* mapped :=
        match remote with
        | RemoteMessage _ messageID source =>
            if Ignored result then ignoredMessageHasMapping messageID source else ret true
        | RemoteOther _ _ => ret true
        end in
      if negb mapped then ret false else commitIfPositioned evt
  end.

(** ** Edits delivered without their message (edits.go) *)

Definition setModified (evt modified : Event) : Event :=
  match evt with
  | MessageEdited chatID logID authorID sentAt target revision _ =>
      MessageEdited chatID logID authorID sentAt target revision (Some modified)
  | _ => evt
  end.

Definition completeEdit (edit : Event) : state Conn (option Event) :=
  match edit with
  | MessageEdited chatID _ _ _ target _ None =>
      let* got := lift (GetMessages chatID [target]) in
      match got with
      | None => ret None
      | Some got =>
          ret (Some (foldl (fun edit evt =>
                 if bool_decide (MessagePosition evt = Some (chatID, target)) then setModified edit evt
                 else edit) edit got))
      end
  | _ => ret (Some edit)
  end.

(** ** Membership (group_membership.go) *)

Definition handleMembershipEvent (evt : Event) : state Conn (bool * bool) :=
  match evt with
  | MemberAdded chatID _ members =>
      lift (managedMembershipChange chatID true (mkMembershipChange (UserID <$> members) 0))
  | MemberRemoved chatID _ member =>
      lift (managedMembershipChange chatID true (mkMembershipChange [] (UserID member)))
  | _ => ret (false, false)
  end.

(** ** One event *)

Definition handleEvent (evt : Event) : state Conn bool :=
  let removedChat := removedChatOf evt in
  let* begun := if 0 <? removedChat then beginSourceRemoval removedChat else ret true in
  if negb begun then ret false else
  let* unresolved := lift checkUnresolvedGroupCreates in
  if unresolved then lift (sendState stateGroupCreateUnresolved);* ret false else
  if 0 <? removedChat then
    let* applied := applyRemovedSource removedChat in
    if applied then commitIfPositioned evt else ret false
  else
  let* (handled, success) := handleMembershipEvent evt in
  if handled then if success then commitIfPositioned evt else ret false else
  let* remote := remoteEventFor evt in
  match sourceChatOf evt remote with
  | Err _ => ret false
  | Ok (chatID, guarded) =>
      let* access := if guarded then lift (checkSourceAccess chatID) else ret true in
      if negb access then ret false else
      match evt with
      | ReactionChanged chatID _ _ revision _ _ =>
          lift (observeReactionRevision chatID revision);*
          let* handled := lift (applyReactionChange evt) in
          match handled with
          | None => lift (reactionPushFailure evt)
          | Some handled => ret handled
          end
      | ReadStateChanged _ _ _ => lift (handleReadState evt)
      | MessageEdited _ _ _ _ _ _ None =>
          let* completed := completeEdit evt in
          match completed with
          | None => ret false
          | Some completed =>
              let* remote := remoteEventFor completed in
              deliverRemote completed remote
          end
      | DeletedMessage chatID logID _ _ _ =>
          let* deleted := lift (deletedFromMatrix (Identifiers.makeMessageID chatID logID)) in
          if deleted then commitIfPositioned evt else deliverRemote evt remote
      | MessageDeleted _ _ _ _ _ _ =>
          let* deleted := lift (targetAlreadyDeleted evt) in
          if deleted then commitIfPositioned evt else deliverRemote evt remote
      | MemberAdded _ _ _ =>
          let* prepared := lift (prepareMemberDiscovery evt) in
          if negb prepared then ret false else deliverRemote evt remote
      | _ => deliverRemote evt remote
      end
  end.
End Handling.
