(* ===== verification/Holds.v ===== *)
(** * Held chats (src/internal/bridge/connector/delivery_hold.go)

    A chat whose event cannot be delivered is held: its events are buffered in
    order while other chats keep flowing, retried on a schedule and then paused
    until something resumes it.  The bootstrap and then the event pump own this
    state; each definition is a transition of it.  Durations and times are
    nanoseconds. *)

From S2P Require Import Prelude.
From S2P Require Import Bson Events Continuity Delivery CatchUp Handling.
From S2P Require PrivateJson SyncMsg.

#[local] Open Scope list_scope.
#[local] Open Scope Z_scope.

Definition maxHeldEvents : nat := 1024.

Definition second : Z := 1000000000.

Definition heldChatRetryDelays : list Z := (fun s => s * second) <$> [5; 10; 20; 40; 60].

Record heldChat `{EventContent} := mkHeld {
  events : list Event;
  attempts : nat;
  due : option Z; (* None: the zero time *)
  paused : bool;
  missedThrough : Z;
}.

(** The chat whose delivery order an event belongs to. *)
Definition heldChatOf `{EventContent} (evt : Event) : option Z :=
  match MessagePosition evt with
  | Some (chatID, _) => Some chatID
  | None =>
      match evt with
      | ReactionChanged chatID _ _ _ _ _ | ReadStateChanged chatID _ _ | ChatLeft chatID _
      | ChatStatusChanged chatID _ _ _ | ChatMetaChanged chatID _ _ _ _ _
      | ChatMoimMetaChanged chatID _ | UnsupportedLogMeta chatID _ _ => Some chatID
      | _ => None
      end
  end.

Section Holds.
Context `{EventContent} {AS : AcquiredStore} {BR : Bridge}.
Context (userID : Z) (login : string).
Context (deliveryRetryDelays : list Z).

Definition newHeld : heldChat := mkHeld _ _ [] 0 None false 0.
Definition set_events evts (h : heldChat) : heldChat :=
  mkHeld _ _ evts (attempts h) (due h) (paused h) (missedThrough h).
Definition set_attempts n (h : heldChat) : heldChat :=
  mkHeld _ _ (events h) n (due h) (paused h) (missedThrough h).
Definition set_due t (h : heldChat) : heldChat :=
  mkHeld _ _ (events h) (attempts h) t (paused h) (missedThrough h).
Definition set_paused b (h : heldChat) : heldChat :=
  mkHeld _ _ (events h) (attempts h) (due h) b (missedThrough h).
Definition set_missed m (h : heldChat) : heldChat :=
  mkHeld _ _ (events h) (attempts h) (due h) (paused h) m.

(** The delivery state of [KakaoClient]: the session's client with its acquired
    history and the world, [kc.holds.chats], [kc.pausedDeliveries] and whether
    [kc.deliveryResume] holds a request. *)
Record KakaoClient := mkKakao {
  conn : Conn;
  acquired : option HistoryStore;
  holds : gmap Z heldChat;
  pausedDeliveries : Z;
  deliveryResume : bool;
}.

Definition set_holds m kc := mkKakao (conn kc) (acquired kc) m (pausedDeliveries kc) (deliveryResume kc).
Definition set_pausedDeliveries n kc := mkKakao (conn kc) (acquired kc) (holds kc) n (deliveryResume kc).
Definition set_resume b kc := mkKakao (conn kc) (acquired kc) (holds kc) (pausedDeliveries kc) b.

Definition onConn {A} (m : state Conn A) : state KakaoClient A :=
  fun kc => let '(c, a) := m (conn kc) in
            (mkKakao c (acquired kc) (holds kc) (pausedDeliveries kc) (deliveryResume kc), a).
Definition onWorld {A} (m : state World A) : state KakaoClient A := onConn (lift m).

Definition putHeld (chatID : Z) (held : heldChat) : state KakaoClient unit :=
  modify (fun kc => set_holds (<[chatID := held]> (holds kc)) kc).

(** [sendReadyState] (group_access.go). *)
Definition sendReadyState : state KakaoClient unit :=
  let* blocked := gets (fun kc => sourceBlocked (world (conn kc))) in
  let* n := gets pausedDeliveries in
  onWorld (sendState
    (if existsb (fun b => match b with SourceAccessRemoved => true | MembershipPending => false end) blocked
     then stateGroupAccessRemoved
     else match blocked with
          | _ :: _ => stateGroupMembershipPending
          | [] => if 0 <? n then stateChatDeliveryPaused else stateConnected
          end)).

(** ** Holding *)

Definition add (h : heldChat) (evt : Event) : heldChat :=
  if (missedThrough h =? 0) && (length (events h) <? maxHeldEvents)%nat
  then set_events (events h ++ [evt]) h
  else match MessagePosition evt with
       | Some (_, logID) => set_missed (Z.max (missedThrough h) logID) h
       | None => h
       end.

(** The next timed retry of a held chat, or its pause. *)
Definition scheduleHeld (chatID : Z) (held : heldChat) : state KakaoClient unit :=
  let held := set_due None held in
  let* access := onWorld (checkSourceAccess chatID) in
  if negb access then putHeld chatID held else
  match deliveryRetryDelays !! attempts held with
  | Some delay =>
      let* now := onWorld Now in
      putHeld chatID (set_due (Some (now + delay)) held)
  | None =>
      if paused held then putHeld chatID held else
      putHeld chatID (set_paused true held);*
      modify (fun kc => set_pausedDeliveries (pausedDeliveries kc + 1) kc);*
      sendReadyState
  end.

Definition hold (chatID : Z) (pending : list Event) : state KakaoClient unit :=
  let held := foldl add newHeld pending in
  putHeld chatID held;*
  scheduleHeld chatID held.

Definition deliver (evt : Event) : state KakaoClient bool :=
  let scoped := heldChatOf evt in
  let* chats := gets holds in
  match (chatID ← scoped; (fun held => (chatID, held)) <$> chats !! chatID) with
  | Some (chatID, held) => putHeld chatID (add held evt);* ret true
  | None =>
      let* handled := onConn (handleEvent userID login evt) in
      if handled then ret true else
      match scoped with
      | None => ret false
      | Some chatID => hold chatID [evt];* ret true
      end
  end.

(** ** Retrying *)

(** The inner loop of [retryHeld]: what is left once an event fails. *)
Fixpoint drain (evts : list Event) : state KakaoClient (list Event) :=
  match evts with
  | [] => ret []
  | evt :: rest =>
      let* handled := onConn (handleEvent userID login evt) in
      if handled then drain rest else ret evts
  end.

(** [c.CatchUp(ctx, chatID, held.missedThrough)]. *)
Definition readMissed (chatID through : Z) : state KakaoClient (res ClientError (list Event)) :=
  let* exchange := onWorld historyExchange in
  let* env := onWorld checkpointIO in
  fun kc =>
    let '(c, store, r) := CatchUp exchange env (source (conn kc)) (acquired kc) chatID through in
    (mkKakao (mkConn c (world (conn kc))) store (holds kc) (pausedDeliveries kc) (deliveryResume kc), r).

Definition release (chatID : Z) (held : heldChat) : state KakaoClient unit :=
  modify (fun kc => set_holds (delete chatID (holds kc)) kc);*
  if paused held then
    modify (fun kc => set_pausedDeliveries (pausedDeliveries kc - 1) kc);*
    let* n := gets pausedDeliveries in
    if n =? 0 then sendReadyState else ret tt
  else ret tt.

Fixpoint retryLoop (fuel : nat) (chatID : Z) (held : heldChat) : state KakaoClient unit :=
  match fuel with
  | O => ret tt
  | S fuel =>
      let* rest := drain (events held) in
      match rest with
      | _ :: _ => scheduleHeld chatID (set_attempts (S (attempts held)) (set_events rest held))
      | [] =>
          if missedThrough held =? 0 then release chatID held else
          let* caught := readMissed chatID (missedThrough held) in
          match caught with
          | Err _ => scheduleHeld chatID (set_attempts (S (attempts held)) (set_events [] held))
          | Ok missed => retryLoop fuel chatID (set_missed 0 (set_events missed held))
          end
      end
  end.

(** The second iteration starts with nothing missed: two are enough. *)
Definition retryFuel : nat := 2.

Definition retryHeld (chatID : Z) : state KakaoClient unit :=
  let* chats := gets holds in
  match chats !! chatID with
  | None => ret tt
  | Some held => retryLoop retryFuel chatID held
  end.

(** The earliest timed retry. *)
Definition nextHeldRetry (chats : gmap Z heldChat) : option Z :=
  foldr (fun '(_, held) next =>
           match due held, next with
           | Some d, Some n => Some (if d <? n then d else n)
           | Some d, None => Some d
           | None, _ => next
           end) None (map_to_list chats).

Definition whenHeld (chatID : Z) (ready : heldChat -> bool) (act : heldChat -> state KakaoClient unit)
  : state KakaoClient unit :=
  let* chats := gets holds in
  match chats !! chatID with
  | Some held => if ready held then act held else ret tt
  | None => ret tt
  end.

(** [range kc.holds.chats] visits the chats in [order]. *)
Fixpoint forEach (order : list Z) (body : Z -> state KakaoClient unit) : state KakaoClient unit :=
  match order with
  | [] => ret tt
  | chatID :: order => body chatID;* forEach order body
  end.

Definition isDue (now : Z) (held : heldChat) : bool :=
  match due held with Some d => d <=? now | None => false end.

Definition waits (held : heldChat) : bool := match due held with None => true | Some _ => false end.

Definition retryDueHolds (order : list Z) (now : Z) : state KakaoClient unit :=
  forEach order (fun chatID => whenHeld chatID (isDue now) (fun _ => retryHeld chatID)).

Definition resumeHeld (order : list Z) (only : Z) : state KakaoClient unit :=
  forEach order (fun chatID =>
    whenHeld chatID (fun held => ((only =? 0) || (chatID =? only)) && waits held)
      (fun held => putHeld chatID (set_attempts 0 held);* retryHeld chatID)).

Definition requestDeliveryResume : state KakaoClient bool :=
  let* n := gets pausedDeliveries in
  if n =? 0 then ret false else modify (set_resume true);* ret true.
End Holds.
