(* ===== verification/Pump.v ===== *)
(** * The session's event pump (src/internal/bridge/connector/client.go, seed.go, lifecycle.go)

    What the connector does with one session: the bootstrap that recovers what
    was missed before it subscribes ([connectAndSubscribe]), and the loop that
    consumes the event stream until the session ends ([run]). *)

From S2P Require Import Prelude.
From S2P Require Import Bson Events Continuity Delivery CatchUp BulkCatchUp ClientFacts Handling Holds.
From S2P Require PrivateJson SyncMsg Identifiers.

#[local] Open Scope string_scope.
#[local] Open Scope list_scope.
#[local] Open Scope Z_scope.

(** ** Why a connection failed *)

(** An error as [retryableRecoveryError] and the bridge states see it;
    [FromClient] is one of the client's that none of them names. *)
Inductive SourceError :=
| ErrSignedOut
| StatusError (command : string) (status : Z)
| ErrLogin
| ErrCredentialRenewal
| ErrTransport (* ErrClosed, EOF, net.ErrClosed or a net.Error *)
| ErrUnidentifiable
| errSourceAccessRemoved
| errMembershipPending
| errGroupCreateUnresolved
| errDeliveryNotConfirmed
| FromClient (e : ClientError).

(** [bootstrapFailure]: the stage and its error. *)
Record bootstrapFailure := mkFailure { stage : string; failure : SourceError }.

Fixpoint isUnidentifiable (e : ClientError) : bool :=
  match e with
  | ErrEvent ErrUnidentifiableMessage => true
  | Joined a b => isUnidentifiable a || isUnidentifiable b
  | _ => false
  end.

Definition sourceError (e : ClientError) : SourceError :=
  if isUnidentifiable e then ErrUnidentifiable else
  match e with ErrSession => ErrTransport | _ => FromClient e end.

(** A chat of the login inventory, as [seedLastMessages] reads it. *)
Record InventoryChat `{Bson} := mkInventory {
  ic_ChatID : Z;
  ic_LinkID : Z;
  ic_Type : string;
  ic_ChatHide : bool;
  ic_LastChatLog : option Raw;
  ic_NewMessageCount : Z;
}.

Definition seedable `{Bson} (chat : InventoryChat) : bool :=
  (ic_LinkID chat =? 0) && negb (ic_ChatHide chat)
  && (String.eqb (ic_Type chat) "DirectChat" || String.eqb (ic_Type chat) "MultiChat").

(** The other steps of the bootstrap, each of which may fail.  [Client.Connect]
    logs in and records the login in the checkpoint; it queues no commit. *)
Class Startup `{Bridge} := {
  Connect : Client -> state World (Client * option SourceError);
  Connect_client c w : let '(c', _) := (Connect c w).2 in
    pendingCommits c' = pendingCommits c /\ (good c -> good c');
  historyEnabled : bool;
  chainEnv : state World (@BulkEnv _);
  resumeGroupCreates : state World (option SourceError);
  discoverGroups : state World (option SourceError);
  personalRevisionDemand : state World unit;
  ListChats : state World (res SourceError (list InventoryChat));
  holdInventoryRoom : Z -> state World (option SourceError);
  releaseInventoryRoom : Z -> state World unit;
  checkStartupHistoryDelivery : state World (option SourceError);
  Subscribe : state World (option SourceError);
}.

Section Pump.
Context `{EventContent} {AS : AcquiredStore} {BR : Bridge} {SU : Startup}.
Context (userID : Z) (login : string) (deliveryRetryDelays : list Z).

Definition onClient {A} (f : Client -> option HistoryStore -> Client * option HistoryStore * A)
  : state KakaoClient A :=
  fun kc =>
    let '(c, store, a) := f (source (conn kc)) (acquired kc) in
    (mkKakao (mkConn c (world (conn kc))) store (holds kc) (pausedDeliveries kc) (deliveryResume kc), a).

(** ** The chain (client.go) *)

Definition catchUpChain (history : option StartupHistoryOptions)
  : state KakaoClient (res SourceError CatchUpResult) :=
  let* env := onWorld chainEnv in
  let* result := onClient (fun c store => CatchUpAll env c store history) in
  ret match result with Ok caught => Ok caught | Err e => Err (sourceError e) end.

Definition gapNotice (chatID targetMax : Z) : RemoteEvent :=
  RemoteMessage (portalID login chatID)
    ("gap:" ++ Identifiers.FormatInt chatID ++ ":" ++ Identifiers.FormatInt targetMax)%string
    (UnknownPacket "gap").

Definition notice (room : CaughtUpRoom) : state KakaoClient (option SourceError) :=
  let* result := onWorld (queue (gapNotice (ChatID room) (Ceiling room))) in
  ret (if committable result then None else Some errDeliveryNotConfirmed).

(** The room's events in order; on a failure the rest is held. *)
Definition deliverRoom (chatID : Z) (evts : list Event) : state KakaoClient unit :=
  let* rest := drain userID login evts in
  match rest with [] => ret tt | _ :: _ => hold deliveryRetryDelays chatID rest end.

Definition catchUpRoom (room : CaughtUpRoom) : state KakaoClient (option SourceError) :=
  let* failed := if Skipped room then notice room else ret None in
  match failed with
  | Some e => ret (Some e)
  | None =>
      deliverRoom (ChatID room) (Events room);*
      let* failed := if Unresolved room && negb (Skipped room) then notice room else ret None in
      match failed with
      | Some e => ret (Some e)
      | None =>
          (if Skipped room || Unresolved room then onWorld (rosterFallback (ChatID room)) else ret tt);*
          ret None
      end
  end.

Fixpoint catchUpRooms (rooms : list CaughtUpRoom) : state KakaoClient (option SourceError) :=
  match rooms with
  | [] => ret None
  | room :: rooms =>
      let* failed := catchUpRoom room in
      match failed with Some e => ret (Some e) | None => catchUpRooms rooms end
  end.

Fixpoint rosterFallbacks (targets : list SyncMsg.Target) : state KakaoClient unit :=
  match targets with
  | [] => ret tt
  | target :: targets => onWorld (rosterFallback (SyncMsg.Target_ChatID target));* rosterFallbacks targets
  end.

Definition catchUp (caught : CatchUpResult) : state KakaoClient (option SourceError) :=
  let* c := gets (fun kc => source (conn kc)) in
  match sys_store (checkpoint c) with
  | None => ret (Some (FromClient ErrProtocol))
  | Some _ =>
      rosterFallbacks (UndeliveredTargets (snapshot c));*
      catchUpRooms (Rooms caught)
  end.

(** ** Seeding (seed.go) *)

Definition seedChat (chat : InventoryChat) : state KakaoClient (option SourceError) :=
  if negb (seedable chat) then ret None else
  let* seeded := onClient (fun c store =>
    let '(c, r) := SeedLastMessage c (ic_ChatID chat) (ic_LastChatLog chat) isSeedMessage in (c, store, r)) in
  match seeded with
  | Err _ | Ok None => ret None
  | Ok (Some evt) =>
      let* failed := onWorld (holdInventoryRoom (ic_ChatID chat)) in
      match failed with
      | Some e => ret (Some e)
      | None =>
          let* delivered := onConn (handleEvent userID login evt) in
          onWorld (releaseInventoryRoom (ic_ChatID chat));*
          if negb delivered then hold deliveryRetryDelays (ic_ChatID chat) [evt];* ret None
          else match MessagePosition evt with
               | Some (_, logID) =>
                   if ic_NewMessageCount chat =? 0
                   then onWorld (handleReadState (ReadStateChanged (ic_ChatID chat) userID logID));* ret None
                   else ret None
               | None => ret None
               end
      end
  end.

Fixpoint seedChats (chats : list InventoryChat) : state KakaoClient (option SourceError) :=
  match chats with
  | [] => ret None
  | chat :: chats =>
      let* failed := seedChat chat in
      match failed with Some e => ret (Some e) | None => seedChats chats end
  end.

Definition seedLastMessages : state KakaoClient (option SourceError) :=
  let* chats := onWorld ListChats in
  match chats with Err e => ret (Some e) | Ok chats => seedChats chats end.

(** ** The bootstrap *)

(** A stage, and the rest once it succeeds. *)
Definition atStage (name : string) (m : state KakaoClient (option SourceError))
    (k : state KakaoClient (option bootstrapFailure)) : state KakaoClient (option bootstrapFailure) :=
  let* failed := m in
  match failed with Some e => ret (Some (mkFailure name e)) | None => k end.

Definition withChain (history : option StartupHistoryOptions)
    (k : CatchUpResult -> state KakaoClient (option bootstrapFailure)) :=
  let* result := catchUpChain history in
  match result with Err e => ret (Some (mkFailure "catch-up" e)) | Ok caught => k caught end.

Definition connectClient : state KakaoClient (option SourceError) := fun kc =>
  let '(w, (c, failed)) := Connect (source (conn kc)) (world (conn kc)) in
  (mkKakao (mkConn c w) (acquired kc) (holds kc) (pausedDeliveries kc) (deliveryResume kc), failed).

Definition connectAndSubscribe : state KakaoClient (option bootstrapFailure) :=
  modify (fun kc => set_pausedDeliveries 0 (set_holds ∅ kc));*
  atStage "connect" connectClient (
  let middle (k : state KakaoClient (option bootstrapFailure)) :=
    atStage "group-create-recovery" (onWorld resumeGroupCreates) (
    atStage "group-discovery" (onWorld discoverGroups) (
    onWorld personalRevisionDemand;*
    atStage "last-messages" seedLastMessages (
    atStage "startup-history-delivery" (onWorld checkStartupHistoryDelivery) k))) in
  let finish caught := atStage "catch-up" (catchUp caught) (atStage "events" (onWorld Subscribe) (ret None)) in
  if historyEnabled
  then withChain (Some (mkStartup 0 0)) (fun caught => middle (finish caught))
  else middle (withChain None finish)).

(** ** The loop of [run] *)

Inductive Terminal := TerminalMembership | TerminalMessage.

(** Its local variables, and whether the loop goes on. *)
Record RunState := mkRun {
  kick : option Event;
  changeServer : bool;
  deliveryFailed : bool;
  terminalErr : option Terminal;
  running : bool;
}.

Definition initialRun : RunState := mkRun None false false None true.
Definition stopRun (r : RunState) : RunState :=
  mkRun (kick r) (changeServer r) (deliveryFailed r) (terminalErr r) false.
Definition terminalRun t (r : RunState) : RunState :=
  mkRun (kick r) (changeServer r) (deliveryFailed r) (Some t) false.
Definition failRun (r : RunState) : RunState := mkRun (kick r) (changeServer r) true (terminalErr r) false.
Definition kickedOut (r : RunState) : bool := match kick r with Some _ => true | None => false end.
Definition noticed (r : RunState) : bool := kickedOut r || changeServer r.

(** What one iteration's [select] takes. *)
Inductive Selected :=
| HeldRetry (now : Z) (order : list Z)
| DeliveryResume (order : list Z)
| MetadataResult (order : list Z)
| FromStream (next : option Result). (* None: the stream is closed *)

(** A terminal notice marks the run before it is delivered. *)
Definition noteTerminal (evt : Event) (r : RunState) : RunState :=
  match evt with
  | Kickout _ _ _ _ => mkRun (Some evt) (changeServer r) (deliveryFailed r) (terminalErr r) (running r)
  | ChangeServer => mkRun (kick r) true (deliveryFailed r) (terminalErr r) (running r)
  | _ => r
  end.

Definition runResult (r : RunState) (result : Result) : state KakaoClient RunState :=
  if noticed r then ret r else
  match result with
  | ErrResult (DecodeFailed ErrUnidentifiableMembership) => ret (terminalRun TerminalMembership r)
  | ErrResult (DecodeFailed ErrUnidentifiableMessage) => ret (terminalRun TerminalMessage r)
  | ErrResult _ => ret r
  | EventResult evt =>
      let r := noteTerminal evt r in
      let* delivered := deliver userID login deliveryRetryDelays evt in
      ret (if negb delivered && negb (noticed r) then failRun r else r)
  end.

Definition runStep (r : RunState) (selected : Selected) : state KakaoClient RunState :=
  match selected with
  | HeldRetry now order =>
      if noticed r then ret r else retryDueHolds userID login deliveryRetryDelays order now;* ret r
  | DeliveryResume order =>
      modify (set_resume false);*
      if noticed r then ret r else resumeHeld userID login deliveryRetryDelays order 0;* ret r
  | MetadataResult order =>
      if noticed r then ret r else
      let* (failed, converged) := onWorld applyMetadataRefresh in
      match converged with
      | Some chatID => resumeHeld userID login deliveryRetryDelays order chatID
      | None => ret tt
      end;*
      ret (if failed then stopRun r else r)
  | FromStream None => ret (stopRun r)
  | FromStream (Some result) => runResult r result
  end.
End Pump.
