(* ===== verification/BridgeDemo.v ===== *)
(** * A concrete bridge

    The world at which the theorems about the connector are instantiated: Matrix
    accepts or refuses each event as a list says, time advances a second at a
    time, and the server answers a history request with the given logs. *)

From S2P Require Import Prelude.
From S2P Require Import Bytes Bson Events Continuity Delivery CatchUp BulkCatchUp ProtocolTheorems ClientFacts Demo.
From S2P Require Import Handling Holds Pump.
From S2P Require PrivateJson SyncMsg Identifiers.

#[local] Open Scope list_scope.
#[local] Open Scope Z_scope.

Record DemoWorld := mkDemo {
  d_refusals : list bool; (* whether Matrix refuses the coming events *)
  d_logs : list tree; (* what history requests return *)
  d_clock : Z;
  d_reported : list BridgeState;
}.

(** Matrix's answer to the next event. *)
Definition nextAnswer : state DemoWorld EventHandlingResult := fun w =>
  match d_refusals w with
  | true :: rest => (mkDemo rest (d_logs w) (d_clock w) (d_reported w), mkHandled false false false true)
  | false :: rest => (mkDemo rest (d_logs w) (d_clock w) (d_reported w), mkHandled true false false false)
  | [] => (w, mkHandled true false false false)
  end.

#[export, refine] Instance demoBridge : @Bridge treeBson demoContent := {
  World := DemoWorld;
  checkpointIO := ret PrivateJson.writeOk;
  historyExchange := fun w =>
    (w, fun _ _ => Ok (Tree [("isOK"%string, VBoolean true);
                             ("chatLogs"%string, VArray (MarshalArray (VDocument <$> d_logs w)))]));
  Now := fun w => (mkDemo (d_refusals w) (d_logs w) (d_clock w + second) (d_reported w), d_clock w);
  sendState s := modify (fun w => mkDemo (d_refusals w) (d_logs w) (d_clock w) (d_reported w ++ [s]));
  queue _ := nextAnswer;
  messageParts _ := ret None;
  ExpectedPartIDs _ := None;
  noteMessageAuthor _ := ret tt;
  sourceBlocked _ := [];
  recordSourceRemoval _ := ret true;
  applySourceLeave _ := ret true;
  verifySourceLeave _ := ret true;
  checkSourceAccess _ := ret true;
  checkUnresolvedGroupCreates := ret false;
  managedMembershipChange _ _ _ := ret (false, false);
  prepareMemberDiscovery _ := ret true;
  observeReactionRevision _ _ := ret tt;
  applyReactionChange _ := ret (Some true);
  reactionPushFailure _ := ret false;
  handleReadState _ := ret true;
  GetMessages _ _ := ret (Some []);
  deletedFromMatrix _ := ret false;
  targetAlreadyDeleted _ := ret false;
  rosterFallback _ := ret tt;
  isSeedMessage _ := true;
  applyMetadataRefresh := ret (false, None);
}.
Proof. Defined.

#[export, refine] Instance demoStartup : @Startup treeBson demoContent demoBridge := {
  Connect c := ret (c, None);
  historyEnabled := false;
  chainEnv := fun w => (w, demoBulk (d_logs w));
  resumeGroupCreates := ret None;
  discoverGroups := ret None;
  personalRevisionDemand := ret tt;
  ListChats := ret (Ok []);
  holdInventoryRoom _ := ret None;
  releaseInventoryRoom _ := ret tt;
  checkStartupHistoryDelivery := ret None;
  Subscribe := ret None;
}.
Proof. by intros c w. Defined.

Definition demoConn (refusals : list bool) (logs : list tree) (c : Client) : Conn :=
  @mkConn treeBson demoContent demoBridge c (mkDemo refusals logs 0 []).
