(* ===== verification/HandlingTheorems.v ===== *)
(** * Theorems about handling one event

    [handleEvent] (src/internal/bridge/connector/client.go) touches the session's
    client only to commit the event it was given, at most once, when the bridge
    has delivered it ([authorized]), and reports success for a positioned event
    exactly when that commit succeeded. *)

From S2P Require Import Prelude.
From S2P Require Import Bytes Bson Events Continuity Delivery ProtocolTheorems Demo Handling Holds BridgeDemo.
From S2P Require PrivateJson Identifiers ChatLog.

#[local] Open Scope string_scope.
#[local] Open Scope list_scope.
#[local] Open Scope Z_scope.

Section Handled.
Context `{EventContent} {BR : Bridge} (userID : Z) (login : string).

(** What handling [evt] may do to the client. *)
Definition committed (evt : Event) (c c' : Client) (ok : bool) : Prop :=
  match MessagePosition evt with
  | None => c' = c
  | Some _ =>
      if ok then exists env, CommitEvent env c evt = (c', None)
      else c' = c \/ exists env e, CommitEvent env c evt = (c', Some e)
  end.

(** A computation that leaves the client alone, and one that handles [evt]. *)
Definition keeps {A} (m : state Conn A) : Prop := forall kc, source (m kc).1 = source kc.
Definition handles (evt : Event) (m : state Conn bool) : Prop :=
  forall kc, committed evt (source kc) (source (m kc).1) (m kc).2.

Lemma keeps_lift {A} (m : state World A) : keeps (lift m).
Proof. intros kc. unfold lift. by destruct (m (world kc)). Qed.

Lemma keeps_ret {A} (a : A) : keeps (ret a).
Proof. done. Qed.

Lemma keeps_bind {A B} (m : state Conn A) (k : A -> state Conn B) :
  keeps m -> (forall a, keeps (k a)) -> keeps (bind m k).
Proof.
  intros Hm Hk kc. unfold bind. specialize (Hm kc). destruct (m kc) as [kc1 a].
  rewrite (Hk a kc1). exact Hm.
Qed.

(** The second computation may rely on what the first can return. *)
Lemma handles_bind' {A} evt (m : state Conn A) (k : A -> state Conn bool) :
  keeps m -> (forall kc, handles evt (k (m kc).2)) -> handles evt (bind m k).
Proof.
  intros Hm Hk kc. unfold bind. specialize (Hm kc). specialize (Hk kc).
  destruct (m kc) as [kc1 a]. simpl in Hm, Hk. rewrite <- Hm. apply Hk.
Qed.

Lemma handles_bind {A} evt (m : state Conn A) (k : A -> state Conn bool) :
  keeps m -> (forall a, handles evt (k a)) -> handles evt (bind m k).
Proof. intros Hm Hk. by apply handles_bind'. Qed.

Lemma handles_false evt : handles evt (ret false).
Proof. intros kc. unfold committed. destruct (MessagePosition evt); simpl; auto. Qed.

(** An event without a position needs no commit. *)
Lemma handles_unpositioned evt m : MessagePosition evt = None -> keeps m -> handles evt m.
Proof. intros E Hm kc. unfold committed. by rewrite E, Hm. Qed.

Lemma handles_commit evt : handles evt (commitIfPositioned evt).
Proof.
  intros kc. unfold commitIfPositioned, committed. destruct (MessagePosition evt) eqn:E; [|done].
  unfold bind, lift. destruct (checkpointIO (world kc)) as [w env]. cbn [source world].
  destruct (CommitEvent env (source kc) evt) as [c [e|]] eqn:Ec; simpl; eauto.
Qed.

#[local] Hint Resolve keeps_lift keeps_ret keeps_bind handles_bind handles_false handles_commit : go.

Lemma keeps_remote evt : keeps (remoteEventFor login evt).
Proof. destruct evt; simpl; try destruct (_ || _); unfold Handling.message, messageChange; auto with go. Qed.

(** Every event with a position has a bridge event. *)
Lemma remote_some evt kc : MessagePosition evt <> None -> (remoteEventFor login evt kc).2 <> None.
Proof.
  destruct evt; simpl; try done; intros _; unfold Handling.message, messageChange, bind, lift;
    by destruct (noteMessageAuthor _ _).
Qed.

Lemma handles_deliverRemote evt remote :
  (MessagePosition evt <> None -> remote <> None) -> handles evt (deliverRemote evt remote).
Proof.
  intros Hr. unfold deliverRemote. destruct remote as [remote|].
  - apply handles_bind; [auto with go|]. intros result. destruct (negb _); [auto with go|].
    apply handles_bind; [|intros []; auto with go].
    destruct remote; [|auto with go]. destruct (Ignored result); [|auto with go].
    unfold ignoredMessageHasMapping. apply keeps_bind; [auto with go|].
    intros [[|]|]; try (by auto with go). destruct (ExpectedPartIDs _) as [[|]|]; auto with go.
  - destruct (MessagePosition evt) eqn:E; [by destruct Hr|]. apply handles_unpositioned; auto with go.
Qed.

(** *** Edits *)

Lemma completed_position evt m : MessagePosition (setModified evt m) = MessagePosition evt.
Proof. by destruct evt. Qed.

Lemma completed_positions got (test : Event -> bool) : forall evt,
  MessagePosition (foldl (fun edit e => if test e then setModified edit e else edit) evt got) = MessagePosition evt.
Proof.
  induction got as [|e got IH]; intros evt; simpl; [done|]. rewrite IH.
  destruct (test e); [apply completed_position|done].
Qed.

Lemma keeps_completeEdit evt : keeps (completeEdit evt).
Proof.
  destruct evt as [| | | |? ? ? ? ? ? [|]| | | | | | | | | | | | | |]; simpl; auto with go.
  apply keeps_bind; [auto with go|]. intros [|]; auto with go.
Qed.

Lemma completeEdit_position evt kc edited :
  (completeEdit evt kc).2 = Some edited -> MessagePosition edited = MessagePosition evt.
Proof.
  destruct evt as [| | | |chatID logID authorID sentAt target revision [|]| | | | | | | | | | | | | |];
    simpl; try (by intros [= <-]).
  unfold bind, lift. destruct (GetMessages _ _ _) as [w [got|]]; simpl; [|done].
  intros [= <-]. apply completed_positions.
Qed.

Lemma CommitEvent_position env c e1 e2 :
  MessagePosition e1 = MessagePosition e2 -> CommitEvent env c e1 = CommitEvent env c e2.
Proof. intros E. unfold CommitEvent. by rewrite E. Qed.

Lemma handles_same e1 e2 m : MessagePosition e1 = MessagePosition e2 -> handles e1 m -> handles e2 m.
Proof.
  intros E Hm kc. specialize (Hm kc). unfold committed in *. rewrite E in Hm.
  destruct (MessagePosition e2) eqn:Ep; [|done].
  assert (E' : MessagePosition e1 = MessagePosition e2) by congruence.
  destruct (m kc).2.
  - destruct Hm as [env Hm]. exists env. by rewrite <- (CommitEvent_position env _ _ _ E').
  - destruct Hm as [?|(env & e & Hm)]; [by left|]. right. exists env, e.
    by rewrite <- (CommitEvent_position env _ _ _ E').
Qed.

(** [deliverRemote] of what [remoteEventFor] made of the event. *)
Lemma handles_remote evt (k : option RemoteEvent -> state Conn bool) :
  (forall remote, (MessagePosition evt <> None -> remote <> None) -> handles evt (k remote)) ->
  handles evt (bind (remoteEventFor login evt) k).
Proof.
  intros Hk. apply handles_bind'; [apply keeps_remote|]. intros kc. apply Hk, remote_some.
Qed.

Lemma handles_edit evt :
  handles evt (let* completed := completeEdit evt in
               match completed with
               | None => ret false
               | Some completed => let* remote := remoteEventFor login completed in deliverRemote completed remote
               end).
Proof.
  apply handles_bind'; [apply keeps_completeEdit|]. intros kc.
  pose proof (completeEdit_position evt kc) as Hc.
  destruct (completeEdit evt kc).2 as [edited|]; [|apply handles_false].
  apply (handles_same edited); [by apply Hc|]. apply handles_remote, handles_deliverRemote.
Qed.

Lemma handles_event evt : handles evt (handleEvent userID login evt).
Proof.
  unfold handleEvent.
  apply handles_bind. { unfold beginSourceRemoval. destruct (0 <? _); auto with go. }
  intros [|]; cbn [negb]; [|auto with go].
  apply handles_bind; [auto with go|]. intros [|]; [auto with go|].
  destruct (0 <? removedChatOf userID evt).
  { apply handles_bind; [|intros [|]; auto with go]. unfold applyRemovedSource.
    apply keeps_bind; [auto with go|]. intros [|]; simpl; auto with go. }
  apply handles_bind. { unfold handleMembershipEvent. destruct evt; auto with go. }
  intros [[|] success]; [destruct success; auto with go|].
  apply handles_remote. intros remote Hr. destruct (sourceChatOf evt remote) as [[chatID guarded]|]; [|auto with go].
  apply handles_bind; [destruct guarded; auto with go|]. intros [|]; cbn [negb]; [|auto with go].
  pose proof (handles_deliverRemote evt remote Hr) as Hd.
  destruct evt as [| | | |? ? ? ? ? ? [modified|]| | | | | | | | | | | | | |]; try exact Hd.
  - (* DeletedMessage *) apply handles_bind; [auto with go|]. intros [|]; auto with go.
  - (* MessageDeleted *) apply handles_bind; [auto with go|]. intros [|]; auto with go.
  - (* MessageEdited *) by apply handles_edit.
  - (* MemberAdded *) apply handles_bind; [auto with go|]. intros [|]; simpl; auto with go.
  - (* ReactionChanged *) apply handles_unpositioned; [done|]. apply keeps_bind; [auto with go|]. intros _.
    apply keeps_bind; [auto with go|]. intros [|]; auto with go.
  - (* ReadStateChanged *) apply handles_unpositioned; auto with go.
Qed.

(** ** What authorizes a commit

    Said of what the bridge answered, not of how the code classifies it. *)

(** The framework took the event: it succeeded, was not put off and did not
    fail; a message it ignored is one whose rows are there, every expected part of
    it. *)
Definition accepted (remote : RemoteEvent) (w w' : World) : Prop :=
  exists w1 result, queue remote w = (w1, result) /\
    Success result = true /\ Queued result = false /\ Failed result = false /\
    match remote with
    | RemoteMessage _ messageID source =>
        if Ignored result then
          exists parts, messageParts messageID w1 = (w', Some parts) /\ parts <> [] /\
            forall expected, ExpectedPartIDs source = Some expected ->
              expected <> [] /\ forall part, part ∈ expected -> part ∈ parts
        else w' = w1
    | RemoteOther _ _ => w' = w1
    end.

Definition carries (evt : Event) (remote : RemoteEvent) : Prop :=
  match remote with RemoteMessage _ _ e | RemoteOther _ e => e = evt end.

(** The source lets the chat of a bridge event forward. *)
Definition allowed (remote : RemoteEvent) (w w' : World) : Prop :=
  exists chatID, Identifiers.parseChatID (portalOf remote) = Ok chatID /\ checkSourceAccess chatID w = (w', true).

(** What a commit of [evt] follows. *)
Inductive authorized (evt : Event) : World -> Prop :=
| auth_left chatID w1 w2 w3 :
    removedChatOf userID evt = chatID -> 0 < chatID ->
    applySourceLeave chatID w1 = (w2, true) -> verifySourceLeave chatID w2 = (w3, true) -> authorized evt w3
| auth_membership feed chatID w1 w2 :
    match evt with
    | MemberAdded chat _ members => chat = chatID /\ feed = mkMembershipChange (UserID <$> members) 0
    | MemberRemoved chat _ member => chat = chatID /\ feed = mkMembershipChange [] (UserID member)
    | _ => False
    end ->
    managedMembershipChange chatID true feed w1 = (w2, (true, true)) -> authorized evt w2
| auth_deleted remote w1 w2 w3 chatID logID authorID sentAt typ :
    evt = DeletedMessage chatID logID authorID sentAt typ -> carries evt remote -> allowed remote w1 w2 ->
    deletedFromMatrix (Identifiers.makeMessageID chatID logID) w2 = (w3, true) -> authorized evt w3
| auth_target remote w1 w2 w3 :
    carries evt remote -> allowed remote w1 w2 ->
    match evt with MessageDeleted _ _ _ _ _ _ => True | _ => False end ->
    targetAlreadyDeleted evt w2 = (w3, true) -> authorized evt w3
| auth_delivered remote w1 w2 w3 w4 :
    carries evt remote -> allowed remote w1 w2 ->
    match evt with
    | MemberAdded _ _ _ => prepareMemberDiscovery evt w2 = (w3, true)
    | DeletedMessage chatID logID _ _ _ => deletedFromMatrix (Identifiers.makeMessageID chatID logID) w2 = (w3, false)
    | MessageDeleted _ _ _ _ _ _ => targetAlreadyDeleted evt w2 = (w3, false)
    | MessageEdited _ _ _ _ _ _ None => False
    | _ => w3 = w2
    end ->
    accepted remote w3 w4 -> authorized evt w4
| auth_edit remote completed whole chatID logID authorID sentAt target revision got w1 w2 w3 w4 w5 :
    evt = MessageEdited chatID logID authorID sentAt target revision None -> carries evt remote -> allowed remote w1 w2 ->
    GetMessages chatID [target] w2 = (w3, Some got) ->
    completed = foldl (fun edit e => if bool_decide (MessagePosition e = Some (chatID, target)) then setModified edit e
                                     else edit) evt got ->
    carries completed whole -> noteMessageAuthor completed w3 = (w4, tt) -> accepted whole w4 w5 -> authorized evt w5.

(** From a world in [R], nothing or one commit of [evt], in an authorized world. *)
Definition outcome (evt : Event) (kc : Conn) (r : Conn * bool) : Prop :=
  match MessagePosition evt with
  | None => True
  | Some _ =>
      r.2 = false /\ source r.1 = source kc \/
      exists w env err, authorized evt w /\ checkpointIO w = (world r.1, env) /\
        CommitEvent env (source kc) evt = (source r.1, err) /\ (r.2 = true <-> err = None)
  end.
Definition spec (R : World -> Prop) (evt : Event) (m : state Conn bool) : Prop :=
  forall kc, R (world kc) -> outcome evt kc (m kc).

Lemma spec_false R evt : spec R evt (ret false).
Proof. intros kc _. unfold outcome. destruct (MessagePosition evt); [by left|done]. Qed.

Lemma spec_lift {A} R evt (op : state World A) (k : A -> state Conn bool) :
  (forall a, spec (fun w' => exists w, R w /\ op w = (w', a)) evt (k a)) -> spec R evt (bind (lift op) k).
Proof.
  intros Hk kc HR. unfold bind, lift. destruct (op (world kc)) as [w a] eqn:E.
  exact (Hk a (mkConn (source kc) w) (ex_intro _ (world kc) (conj HR E))).
Qed.

Lemma spec_assoc {A B} R evt (m : state Conn A) (k : A -> state Conn B) (f : B -> state Conn bool) :
  spec R evt (bind m (fun a => bind (k a) f)) -> spec R evt (bind (bind m k) f).
Proof. intros Hs kc Hw. specialize (Hs kc Hw). unfold bind in *. by destruct (m kc). Qed.

(** Past a computation that leaves the client alone. *)
Lemma spec_keeps {A} R evt (m : state Conn A) (k : A -> state Conn bool) :
  keeps m -> (forall a, spec (fun _ => True) evt (k a)) -> spec R evt (bind m k).
Proof.
  intros Hm Hk kc _. unfold bind. specialize (Hm kc). destruct (m kc) as [kc1 a].
  specialize (Hk a kc1 I). unfold outcome in *. simpl in Hm. by rewrite Hm in Hk.
Qed.

Lemma spec_commit R evt e :
  MessagePosition e = MessagePosition evt -> (forall w, R w -> authorized evt w) -> spec R evt (commitIfPositioned e).
Proof.
  intros Hp HR kc Hw. unfold outcome, commitIfPositioned. rewrite Hp. destruct (MessagePosition evt) eqn:Ep; [|done].
  unfold bind, lift. destruct (checkpointIO (world kc)) as [w env] eqn:E. cbn [Handling.source Handling.world].
  rewrite (CommitEvent_position env (source kc) e evt) by congruence.
  destruct (CommitEvent env (source kc) evt) as [c err] eqn:Ec. right. exists (world kc), env, err. simpl.
  split_and!; [by apply HR|done|done|]. by destruct err.
Qed.

(** What a commit of a bridge event follows, from worlds in [R]. *)
Lemma spec_deliver (R : World -> Prop) evt e remote :
  MessagePosition e = MessagePosition evt -> carries e remote ->
  (forall w w', R w -> accepted remote w w' -> authorized evt w') -> spec R evt (deliverRemote e (Some remote)).
Proof.
  intros Hp Hc HR. unfold deliverRemote. apply spec_lift. intros result. unfold committable.
  destruct (Success result) eqn:Es, (Queued result) eqn:Eq, (Failed result) eqn:Ef; cbn [negb andb]; try apply spec_false.
  destruct remote as [p id e'|p e']; simpl in Hc; subst e'.
  2: { apply (spec_commit _ evt e Hp). intros w' (w & Hw & E). apply (HR w w' Hw). by exists w', result. }
  destruct (Ignored result) eqn:Ei.
  2: { apply (spec_commit _ evt e Hp). intros w' (w & Hw & E). apply (HR w w' Hw). exists w', result. by rewrite Ei. }
  assert (Hgo : forall b R', (b = true -> forall w, R' w -> authorized evt w) ->
    spec R' evt (if negb b then ret false else commitIfPositioned e)).
  { intros [|] R' HR'; [by apply spec_commit; auto|apply spec_false]. }
  unfold ignoredMessageHasMapping.
  apply spec_assoc, spec_lift. intros parts.
  assert (Hacc : forall parts w, (exists w0, (exists w, R w /\ queue (RemoteMessage p id e) w = (w0, result)) /\ messageParts id w0 = (w, Some parts)) ->
    parts <> [] -> (forall expected, ExpectedPartIDs e = Some expected -> expected <> [] /\ forall part, part ∈ expected -> part ∈ parts) ->
    authorized evt w).
  { intros ps w (w1 & (w0 & Hw & E1) & E2) Hne Hex. apply (HR w0 w Hw). exists w1, result. rewrite Ei. split_and!; try done. by exists ps. }
  destruct parts as [[|x parts]|]; [apply (Hgo false); done| |apply (Hgo false); done].
  destruct (ExpectedPartIDs e) as [[|y expected]|] eqn:Ex; [apply (Hgo false); done| |].
  - refine (Hgo (forallb (fun part => bool_decide (part ∈ x :: parts)) (y :: expected)) _ _).
    intros Hall w Hw. apply (Hacc _ w Hw); [done|]. intros ? [= <-]. split; [done|].
    intros part Hin. rewrite forallb_forall in Hall. apply list_elem_of_In in Hin. by apply Hall, bool_decide_eq_true in Hin.
  - apply (Hgo true). intros _ w Hw. by apply (Hacc _ w Hw).
Qed.

Lemma spec_remote R evt (k : option RemoteEvent -> state Conn bool) :
  MessagePosition evt <> None ->
  (forall remote, carries evt remote ->
     spec (fun w' => R w' \/ exists w, R w /\ noteMessageAuthor evt w = (w', tt)) evt (k (Some remote))) ->
  spec R evt (bind (remoteEventFor login evt) k).
Proof.
  intros Hp Hk.
  assert (Hm : forall remote, carries evt remote ->
    spec R evt (bind (bind (lift (noteMessageAuthor evt)) (fun _ => ret (Some remote))) k)).
  { intros remote Hc kc Hw. unfold bind, lift, ret. destruct (noteMessageAuthor evt (world kc)) as [w []] eqn:E.
    apply (Hk _ Hc (mkConn (source kc) w)). right. by exists (world kc). }
  assert (Hr : forall remote, carries evt remote -> spec R evt (bind (ret (Some remote)) k)).
  { intros remote Hc kc Hw. apply (Hk _ Hc kc). by left. }
  destruct evt; simpl in Hp; try done; simpl; unfold Handling.message, messageChange; try (by apply Hm); by apply Hr.
Qed.

(** The end of [handleEvent], for a chat that may forward. *)
Lemma spec_forward evt remote :
  MessagePosition evt <> None -> carries evt remote ->
  spec (fun w' => exists w, allowed remote w w') evt
    match evt with
    | MessageEdited _ _ _ _ _ _ None =>
        let* completed := completeEdit evt in
        match completed with
        | None => ret false
        | Some completed => let* remote := remoteEventFor login completed in deliverRemote completed remote
        end
    | DeletedMessage chatID logID _ _ _ =>
        let* deleted := lift (deletedFromMatrix (Identifiers.makeMessageID chatID logID)) in
        if deleted then commitIfPositioned evt else deliverRemote evt (Some remote)
    | MessageDeleted _ _ _ _ _ _ =>
        let* deleted := lift (targetAlreadyDeleted evt) in
        if deleted then commitIfPositioned evt else deliverRemote evt (Some remote)
    | MemberAdded _ _ _ =>
        let* prepared := lift (prepareMemberDiscovery evt) in
        if negb prepared then ret false else deliverRemote evt (Some remote)
    | _ => deliverRemote evt (Some remote)
    end.
Proof.
  intros Hp Hc.
  destruct evt as [| | | |chatID logID authorID sentAt target revision [modified|]| | | | | | | | | | | | | |]; try done;
    try (apply spec_deliver; [done|exact Hc|]; intros w w' [w0 Ha] Hd; eapply auth_delivered; [exact Hc|exact Ha|reflexivity|exact Hd]).
  - apply spec_lift. intros [|].
    + apply spec_commit; [done|]. intros w' (w & (w0 & Ha) & E). by eapply auth_deleted.
    + apply spec_deliver; [done|exact Hc|]. intros w w' (w1 & (w0 & Ha) & E) Hd. by eapply auth_delivered.
  - apply spec_lift. intros [|].
    + apply spec_commit; [done|]. intros w' (w & (w0 & Ha) & E). by eapply auth_target.
    + apply spec_deliver; [done|exact Hc|]. intros w w' (w1 & (w0 & Ha) & E) Hd. by eapply auth_delivered.
  - unfold completeEdit. apply spec_assoc, spec_lift. intros [got|]; [|apply spec_false].
    set (edit := MessageEdited _ _ _ _ _ _ _) in *. set (completed := foldl _ edit got).
    change (spec ?R edit (bind (ret (Some completed)) ?k)) with (spec R edit (k (Some completed))). cbv beta iota.
    assert (Hpos : MessagePosition completed = MessagePosition edit) by apply completed_positions.
    assert (Hed : exists m, completed = MessageEdited chatID logID authorID sentAt target revision m).
    { assert (Hg : forall evs m, exists m', foldl (fun edit e => if bool_decide (MessagePosition e = Some (chatID, target))
        then setModified edit e else edit) (MessageEdited chatID logID authorID sentAt target revision m) evs =
        MessageEdited chatID logID authorID sentAt target revision m').
      { induction evs as [|e evs IH]; intros m; simpl; [by eexists|]. destruct (bool_decide _); apply IH. }
      apply Hg. }
    destruct Hed as [m Em]. rewrite Em at 1. unfold remoteEventFor, messageChange. apply spec_assoc. rewrite <- Em.
    apply spec_lift. intros []. apply spec_deliver; [done|simpl; done|].
    intros w w' (w1 & (w2 & (w0 & Ha) & E1) & E2) Hd. eapply auth_edit; [reflexivity|exact Hc|exact Ha|exact E1|reflexivity| |exact E2|exact Hd].
    done.
  - apply spec_lift. intros [|]; [|apply spec_false]. cbn [negb].
    apply spec_deliver; [done|exact Hc|]. intros w w' (w1 & (w0 & Ha) & E) Hd. by eapply auth_delivered.
Qed.

(** The handler past the guard of unresolved group creations. *)
Lemma spec_body evt :
  MessagePosition evt <> None ->
  spec (fun _ => True) evt
    (if 0 <? removedChatOf userID evt then
       let* applied := applyRemovedSource (removedChatOf userID evt) in
       if applied then commitIfPositioned evt else ret false
     else
     let* (handled, success) := handleMembershipEvent evt in
     if handled then if success then commitIfPositioned evt else ret false else
     let* remote := remoteEventFor login evt in
     match sourceChatOf evt remote with
     | Err _ => ret false
     | Ok (chatID, guarded) =>
         let* access := if guarded then lift (checkSourceAccess chatID) else ret true in
         if negb access then ret false else
         match evt with
         | ReactionChanged chatID _ _ revision _ _ =>
             lift (observeReactionRevision chatID revision);*
             let* handled := lift (applyReactionChange evt) in
             match handled with
             | None => lift (reactionPushFailure evt)
             | Some handled => ret handled
             end
         | ReadStateChanged _ _ _ => lift (handleReadState evt)
         | MessageEdited _ _ _ _ _ _ None =>
             let* completed := completeEdit evt in
             match completed with
             | None => ret false
             | Some completed => let* remote := remoteEventFor login completed in deliverRemote completed remote
             end
         | DeletedMessage chatID logID _ _ _ =>
             let* deleted := lift (deletedFromMatrix (Identifiers.makeMessageID chatID logID)) in
             if deleted then commitIfPositioned evt else deliverRemote evt remote
         | MessageDeleted _ _ _ _ _ _ =>
             let* deleted := lift (targetAlreadyDeleted evt) in
             if deleted then commitIfPositioned evt else deliverRemote evt remote
         | MemberAdded _ _ _ =>
             let* prepared := lift (prepareMemberDiscovery evt) in
             if negb prepared then ret false else deliverRemote evt remote
         | _ => deliverRemote evt remote
         end
     end).
Proof.
  intros Hp. destruct (0 <? removedChatOf userID evt) eqn:Er.
  { apply Z.ltb_lt in Er. unfold applyRemovedSource. apply spec_assoc, spec_lift. intros [|]; cbn [negb]; [|apply spec_false].
    apply spec_lift. intros [|]; [|apply spec_false]. apply spec_commit; [done|].
    intros w (w2 & (w1 & _ & E1) & E2). by eapply auth_left. }
  assert (Hrest : forall k,
    (forall success, spec (fun w => exists chatID feed w1,
       match evt with
       | MemberAdded chat _ members => chat = chatID /\ feed = mkMembershipChange (UserID <$> members) 0
       | MemberRemoved chat _ member => chat = chatID /\ feed = mkMembershipChange [] (UserID member)
       | _ => False
       end /\ managedMembershipChange chatID true feed w1 = (w, (true, success))) evt (k (true, success))) ->
    (forall success, spec (fun _ => True) evt (k (false, success))) ->
    spec (fun _ => True) evt (bind (handleMembershipEvent evt) k)).
  { intros k Hm Hf. destruct evt; simpl; try exact (Hf false); apply spec_lift; intros [[|] success];
      try (intros kc _; exact (Hf success kc I)); intros kc (w & _ & E); apply Hm; by eauto 6. }
  apply Hrest; cbv beta iota.
  - intros [|]; [|intros kc _; apply (spec_false (fun _ => True) evt kc I)].
    apply spec_commit; [done|]. intros w (chatID & feed & w1 & Hf & E). by eapply auth_membership.
  - intros _. apply spec_remote; [done|]. intros remote Hc.
    assert (Hs : sourceChatOf evt (Some remote) = let! chatID := Identifiers.parseChatID (portalOf remote) in Ok (chatID, true)).
    { by destruct evt; simpl in Hp. }
    rewrite Hs. destruct (Identifiers.parseChatID (portalOf remote)) as [chatID|err] eqn:Ep; [|apply spec_false].
    apply spec_lift. intros [|]; cbn [negb]; [|apply spec_false].
    pose proof (spec_forward evt remote Hp Hc) as Hf.
    assert (Ha : forall kc, (exists w, (True \/ exists w0, True /\ noteMessageAuthor evt w0 = (w, tt)) /\ checkSourceAccess chatID w = (world kc, true)) ->
      exists w, allowed remote w (world kc)).
    { intros kc (w & _ & E). exists w. by exists chatID. }
    destruct evt; simpl in Hp; try done; intros kc Hw; apply (Hf kc (Ha kc Hw)).
Qed.

Lemma bind_run {S A B} (m : state S A) (k : A -> state S B) s : bind m k s = let '(s', a) := m s in k a s'.
Proof. done. Qed.

(** C3: delivery alone authorizes the progress of a positioned event.  The
    handler either refuses it and leaves the session's client as it was, or it
    found no unresolved group creation, commits exactly this event exactly once
    and last, and reports that commit's own result.  A commit follows one of the
    acts of [authorized]: the departure of the account from the chat was
    applied and verified, the membership handlers took the change with success, the
    chat's source access was granted and either the message is known to be removed from
    Matrix already or the framework accepted the bridge event of
    this very event (of a bare edit, completed by the message it edits) -
    success, not queued, no error, and if it ignored a message then its parts
    are mapped, every expected one.  An event without a position leaves the client
    alone. *)
Theorem handled_is_committed evt kc kc' ok :
  handleEvent userID login evt kc = (kc', ok) ->
  match MessagePosition evt with
  | None => source kc' = source kc
  | Some _ =>
      ok = false /\ source kc' = source kc \/
      (exists w w', checkUnresolvedGroupCreates w = (w', false)) /\
      exists w env err, authorized evt w /\ checkpointIO w = (world kc', env) /\
        CommitEvent env (source kc) evt = (source kc', err) /\ (ok = true <-> err = None)
  end.
Proof.
  intros E. destruct (MessagePosition evt) as [position|] eqn:Ep.
  2: { pose proof (handles_event evt kc) as K. rewrite E in K. unfold committed in K. by rewrite Ep in K. }
  assert (Hp : MessagePosition evt <> None) by congruence.
  unfold handleEvent in E. rewrite bind_run in E.
  match type of E with context [?b kc] => assert (Hb : keeps b) end.
  { unfold beginSourceRemoval. destruct (0 <? _); [apply keeps_bind; intros; apply keeps_lift|apply keeps_ret]. }
  specialize (Hb kc). match type of E with context [?b kc] => destruct (b kc) as [kc1 []] end; simpl in Hb; cbn [negb] in E.
  2: { injection E as <- <-. by left. }
  rewrite bind_run in E. unfold lift at 1 in E. destruct (checkUnresolvedGroupCreates (world kc1)) as [w1 []] eqn:Eu.
  - unfold bind, lift, ret in E. simpl in E. destruct (sendState _ w1) as [w2 []]. injection E as <- <-. left. by rewrite <- Hb.
  - pose proof (spec_body evt Hp (mkConn (source kc1) w1) I) as K. rewrite E in K. unfold outcome in K. rewrite Ep in K.
    cbn [fst snd Handling.source Handling.world] in K. rewrite Hb in K.
    destruct K as [K|K]; [by left|right]. split; [by eauto|exact K].
Qed.
End Handled.

(** ** A handled message *)

Definition awaiting : Client := queueCommit demoClient 7 11.

Definition handledRun := handleEvent 1 "1" (demoEvent 11) (demoConn [] [] awaiting).

Lemma handled_is_committed_witness :
  exists kc', handledRun = (kc', true) /\
    exists w env, authorized 1 (demoEvent 11) w /\ checkpointIO w = (world kc', env) /\
      CommitEvent env awaiting (demoEvent 11) = (source kc', None).
Proof.
  assert (C : snd handledRun = true) by (vm_compute; reflexivity).
  destruct handledRun as [kc' ok] eqn:E. cbn [snd] in C. rewrite C in E |- *. exists kc'. split; [done|].
  destruct (handled_is_committed 1 "1" (demoEvent 11) (demoConn [] [] awaiting) kc' true E)
    as [[? _]|[_ (w & env & err & Ha & Hw & Hc & Hok)]]; [done|].
  exists w, env. split; [exact Ha|]. split; [exact Hw|]. by rewrite <- (proj1 Hok eq_refl).
Defined.
