(* ===== verification/PumpFacts.v ===== *)
(** * Facts about held chats and the event pump

    What each operation of src/internal/bridge/connector/delivery_hold.go does
    to the client's commit queue and to the table of held chats. *)

From S2P Require Import Prelude.
From S2P Require Import Bson Events Continuity Delivery CatchUp BulkCatchUp ProtocolTheorems ClientFacts Demo CommitOrder.
From S2P Require Import Handling Holds Pump BridgeDemo HandlingTheorems.
From S2P Require PrivateJson SyncMsg.

#[local] Open Scope list_scope.
#[local] Open Scope Z_scope.

(** ** The number of paused chats *)

Definition b2z (b : bool) : Z := if b then 1 else 0.

Section Count.
Context `{EventContent}.

Definition count : gmap Z heldChat -> Z := total (fun h => b2z (paused h)).

Lemma count_new m k h : m !! k = None -> count (<[k := h]> m) = count m + b2z (paused h).
Proof. apply (total_new (fun h => b2z (paused h))). Qed.

Lemma count_delete m k h : m !! k = Some h -> count (delete k m) = count m - b2z (paused h).
Proof. apply (total_delete (fun h => b2z (paused h))). Qed.

Lemma count_replace m k h h' : m !! k = Some h ->
  count (<[k := h']> m) = count m + b2z (paused h') - b2z (paused h).
Proof. apply (total_replace (fun h => b2z (paused h))). Qed.

Lemma count_nonneg m : 0 <= count m.
Proof. apply total_nonneg. intros k h _. by destruct (paused h). Qed.
End Count.

(** ** Chats of events *)

Section Chats.
Context `{EventContent}.

Lemma heldChat_position (e : Event) id log : MessagePosition e = Some (id, log) -> heldChatOf e = Some id.
Proof. intros E. unfold heldChatOf. by rewrite E. Qed.

Lemma of_chat_scoped k (evts : list Event) : Forall (fun e => heldChatOf e = Some k) evts ->
  forall j, j <> k -> of_chat j (positions evts) = [].
Proof.
  induction 1 as [|e evts He _ IH]; intros j Hj; [done|].
  change (e :: evts) with ([e] ++ evts). rewrite positions_app, of_chat_app, IH, app_nil_r by done.
  simpl. destruct (MessagePosition e) as [[id log]|] eqn:E; [|done].
  rewrite (heldChat_position _ _ _ E) in He. injection He as ->. by rewrite of_chat_one, decide_False.
Qed.

Lemma at_chat_scoped k (e : Event) : at_chat k e -> heldChatOf e = Some k.
Proof. intros [l E]. by apply (heldChat_position _ _ l). Qed.
End Chats.

Section Facts.
Context `{EventContent} {AS : AcquiredStore} {BR : Bridge}.
Context (userID : Z) (login : string) (delays : list Z).

Abbreviation clientOf kc := (source (conn kc)).

(** The hold table and its count are as before; so is the client. *)
Definition same_table (kc kc' : KakaoClient) : Prop :=
  holds kc' = holds kc /\ pausedDeliveries kc' = pausedDeliveries kc.
Definition quiet {A} (m : state KakaoClient A) : Prop :=
  forall kc, clientOf (m kc).1 = clientOf kc /\ same_table kc (m kc).1.

Lemma quiet_world {A} (m : state World A) : quiet (onWorld m).
Proof. intros kc. unfold onWorld, onConn, lift. by destruct (m _). Qed.

Lemma quiet_ready : quiet sendReadyState.
Proof. intros kc. unfold sendReadyState, bind, gets. apply quiet_world. Qed.

(** Handling consumes the event's position exactly when it succeeds. *)
Lemma handle_pending evt kc kc' ok : onConn (handleEvent userID login evt) kc = (kc', ok) ->
  (forall k, pending (clientOf kc) k
     = (if ok then of_chat k (positions [evt]) else []) ++ pending (clientOf kc') k) /\
  same_table kc kc'.
Proof.
  unfold onConn. pose proof (handles_event userID login evt (conn kc)) as Hh.
  destruct (handleEvent userID login evt (conn kc)) as [c b]. intros [= <- <-]. split; [|done].
  cbn [fst snd conn] in *. intros k. unfold committed in Hh. destruct (MessagePosition evt) as [[id log]|] eqn:E.
  - destruct b.
    + destruct Hh as [env Hc]. pose proof (CommitEvent_queue _ _ _ _ _ Hc k) as Q. cbn beta iota in Q. exact Q.
    + destruct Hh as [->|(env & e & Hc)]; [done|].
      pose proof (CommitEvent_queue _ _ _ _ _ Hc k) as Q. cbn beta iota in Q. by rewrite Q.
  - rewrite Hh. destruct b; [|done]. unfold positions. cbn [omap list_omap]. by rewrite E.
Qed.

Lemma drain_spec evts : forall kc kc' rest, drain userID login evts kc = (kc', rest) ->
  exists delivered, evts = delivered ++ rest /\
    (forall k, pending (clientOf kc) k = of_chat k (positions delivered) ++ pending (clientOf kc') k) /\
    same_table kc kc'.
Proof.
  induction evts as [|e evts IH]; intros kc kc' rest; cbn [drain].
  { intros [= <- <-]. by exists []. }
  unfold bind. destruct (onConn (handleEvent userID login e) kc) as [kc1 ok] eqn:E1.
  destruct (handle_pending _ _ _ _ E1) as [Hp [Hh Hn]]. destruct ok.
  - intros E2. destruct (IH _ _ _ E2) as (delivered & -> & Hq & Hh2 & Hn2).
    exists (e :: delivered). split_and!; [done | | split; congruence].
    intros k. change (e :: delivered) with ([e] ++ delivered).
    by rewrite positions_app, of_chat_app, Hp, Hq, app_assoc.
  - intros [= <- <-]. exists []. split_and!; try done.
Qed.

(** ** Scheduling *)

(** [h'] is [h] scheduled: a timer within the schedule, or a wait. *)
Record scheduled (h h' : heldChat) : Prop := {
  sc_events : events h' = events h;
  sc_missed : missedThrough h' = missedThrough h;
  sc_attempts : attempts h' = attempts h;
  sc_timer : is_Some (due h') -> (attempts h' < length delays)%nat;
  sc_paused : paused h = true -> paused h' = true;
}.

Lemma scheduleHeld_spec id h kc kc' u : scheduleHeld delays id h kc = (kc', u) ->
  clientOf kc' = clientOf kc /\
  exists h', holds kc' = <[id := h']> (holds kc) /\ scheduled h h' /\
    pausedDeliveries kc' = pausedDeliveries kc + b2z (paused h') - b2z (paused h).
Proof.
  unfold scheduleHeld, putHeld, bind, modify.
  destruct (quiet_world (checkSourceAccess id) kc) as [Hc [Hh Hn]].
  destruct (onWorld (checkSourceAccess id) kc) as [kc1 access]. simpl in Hc, Hh, Hn.
  destruct (negb access).
  { intros [= <- <-]. simpl. rewrite Hc, Hh, Hn. split; [done|]. eexists. split_and!; [done|..].
    - constructor; try done. by intros [? ?].
    - simpl. lia. }
  cbn [set_due attempts paused]. destruct (delays !! attempts h) as [delay|] eqn:Ed.
  { destruct (quiet_world Now kc1) as [Hc2 [Hh2 Hn2]].
    destruct (onWorld Now kc1) as [kc2 now]. simpl in Hc2, Hh2, Hn2.
    intros [= <- <-]. simpl. rewrite Hc2, Hc, Hh2, Hh, Hn2, Hn. split; [done|]. eexists. split_and!; [done|..].
    - constructor; try done. intros _. simpl. by apply lookup_lt_Some in Ed.
    - simpl. lia. }
  destruct (paused h) eqn:Ep.
  { intros [= <- <-]. simpl. rewrite Hc, Hh, Hn. split; [done|]. eexists. split_and!; [done|..].
    - constructor; try done. by intros [? ?].
    - simpl. rewrite Ep. simpl. lia. }
  match goal with |- context [sendReadyState ?x] => pose proof (quiet_ready x) as [Hc2 [Hh2 Hn2]] end.
  intros E. rewrite E in Hc2, Hh2, Hn2. simpl in Hc2, Hh2, Hn2.
  rewrite Hc2, Hc, Hh2, Hh, Hn2, Hn. split; [done|]. eexists. split_and!; [done|..].
  - constructor; try done. by intros [? ?].
  - simpl. lia.
Qed.

(** ** The table *)

(** The count of paused chats is right, and no timer outlives the schedule. *)
Record books (kc : KakaoClient) : Prop := {
  bk_count : pausedDeliveries kc = count (holds kc);
  bk_timers : map_Forall (fun _ h => is_Some (due h) -> (attempts h < length delays)%nat) (holds kc);
}.

Lemma books_same kc kc' : same_table kc kc' -> books kc -> books kc'.
Proof. intros [E1 E2] [K1 K2]. constructor; [by rewrite E2, E1 | by rewrite E1]. Qed.

Lemma books_schedule id h kc kc' u : scheduleHeld delays id h kc = (kc', u) ->
  books kc -> (match holds kc !! id with Some h0 => paused h0 | None => false end) = paused h -> books kc'.
Proof.
  intros E [K1 K2] Hp. destruct (scheduleHeld_spec _ _ _ _ _ E) as (_ & h' & Eh & Hs & Ep).
  constructor.
  - rewrite Ep, Eh, K1. destruct (holds kc !! id) as [h0|] eqn:E0.
    + rewrite (count_replace _ _ _ h' E0). congruence.
    + rewrite (count_new _ _ h' E0). rewrite <- Hp. simpl. lia.
  - rewrite Eh. apply map_Forall_insert_2; [by apply Hs|done].
Qed.

Lemma foldl_add_events evts : forall h, paused (foldl add h evts) = paused h.
Proof.
  induction evts as [|e evts IH]; intros h; simpl; [done|]. rewrite IH. unfold add.
  destruct (_ && _); [done|]. by destruct (MessagePosition e) as [[]|].
Qed.

Lemma books_put id h h0 kc : holds kc !! id = Some h0 ->
  paused h = paused h0 -> attempts h = attempts h0 -> due h = due h0 -> books kc ->
  books (set_holds (<[id := h]> (holds kc)) kc).
Proof.
  intros E Hp Ha Hd [K1 K2]. constructor; simpl.
  - rewrite (count_replace _ _ _ h E), Hp, K1. lia.
  - apply map_Forall_insert_2; [|done]. rewrite Hd, Ha. by apply (K2 id).
Qed.

Lemma hold_books id evts kc kc' u : hold delays id evts kc = (kc', u) ->
  holds kc !! id = None -> books kc -> books kc'.
Proof.
  unfold hold, bind, putHeld, modify. intros E Hnone [K1 K2].
  eapply books_schedule; [exact E| |].
  - constructor; simpl.
    + rewrite count_new, foldl_add_events, K1 by done. simpl. lia.
    + apply map_Forall_insert_2; [|done]. intros [d Hd]. exfalso. revert Hd.
      assert (forall h, due (foldl add h evts) = due h) as ->; [|done].
      clear. induction evts as [|e evts IH]; intros h; simpl; [done|]. rewrite IH. unfold add.
      destruct (_ && _); [done|]. by destruct (MessagePosition e) as [[]|].
  - simpl. by rewrite lookup_insert_eq.
Qed.

(** ** Retrying *)

Lemma release_spec id h kc kc' u : release id h kc = (kc', u) ->
  clientOf kc' = clientOf kc /\ holds kc' = delete id (holds kc) /\
  pausedDeliveries kc' = pausedDeliveries kc - b2z (paused h).
Proof.
  unfold release, bind, modify, gets. destruct (paused h); cbn [set_holds set_pausedDeliveries pausedDeliveries].
  - destruct (pausedDeliveries kc - 1 =? 0); [|by intros [= <- <-]].
    match goal with |- context [sendReadyState ?x] => pose proof (quiet_ready x) as [Hc [Hh Hn]] end.
    intros E. rewrite E in Hc, Hh, Hn. cbn [fst] in Hc, Hh, Hn. rewrite Hc, Hh, Hn. done.
  - intros [= <- <-]. simpl. split_and!; try done. lia.
Qed.

Lemma readMissed_spec id through kc kc' r : readMissed id through kc = (kc', r) ->
  queued (clientOf kc) (clientOf kc') (match r with Ok evs => positions evs | Err _ => [] end) /\
  same_table kc kc'.
Proof.
  unfold readMissed, bind.
  destruct (quiet_world historyExchange kc) as [Hc1 [Hh1 Hn1]].
  destruct (onWorld historyExchange kc) as [kc1 exchange]. cbn [fst] in Hc1, Hh1, Hn1.
  destruct (quiet_world checkpointIO kc1) as [Hc2 [Hh2 Hn2]].
  destruct (onWorld checkpointIO kc1) as [kc2 env]. cbn [fst] in Hc2, Hh2, Hn2.
  destruct (CatchUp exchange env (clientOf kc2) (acquired kc2) id through) as [[c store] r'] eqn:E.
  intros [= <- <-]. cbn [conn source]. split; [|split; cbn [holds pausedDeliveries]; congruence].
  rewrite <- Hc1, <- Hc2. by eapply CatchUp_queued.
Qed.

Lemma retryLoop_books fuel id : forall h h0 kc kc' u,
  holds kc !! id = Some h0 -> paused h = paused h0 -> books kc ->
  retryLoop userID login delays fuel id h kc = (kc', u) -> books kc'.
Proof.
  induction fuel as [|fuel IH]; intros h h0 kc kc' u E0 Hp Hb; cbn [retryLoop]; [by intros [= <- _]|].
  unfold bind at 1. destruct (drain userID login (events h) kc) as [kc1 rest] eqn:Ed.
  destruct (drain_spec _ _ _ _ Ed) as (delivered & _ & _ & Ht). pose proof (books_same _ _ Ht Hb) as Hb1.
  assert (E1 : holds kc1 !! id = Some h0) by (destruct Ht as [-> _]; done).
  destruct rest as [|e rest].
  2: { intros E. eapply books_schedule; [exact E | done |]. by rewrite E1. }
  destruct (missedThrough h =? 0).
  { intros E. destruct (release_spec _ _ _ _ _ E) as (_ & Eh & En). destruct Hb1 as [K1 K2].
    constructor; rewrite Eh.
    - rewrite En, K1, (count_delete _ _ _ E1). congruence.
    - by apply map_Forall_delete. }
  unfold bind at 1. destruct (readMissed id (missedThrough h) kc1) as [kc2 [missed|e]] eqn:Er.
  - destruct (readMissed_spec _ _ _ _ _ Er) as [_ Ht2]. apply (IH _ h0); [|done|by eapply books_same].
    destruct Ht2 as [-> _]. done.
  - destruct (readMissed_spec _ _ _ _ _ Er) as [_ Ht2]. intros E.
    eapply books_schedule; [exact E | by eapply books_same |]. destruct Ht2 as [-> _]. by rewrite E1.
Qed.

Lemma retryHeld_books id kc kc' u : retryHeld userID login delays id kc = (kc', u) -> books kc -> books kc'.
Proof.
  unfold retryHeld, bind, gets. destruct (holds kc !! id) as [h|] eqn:E; [|by intros [= <- _]].
  intros Er Hb. by eapply retryLoop_books.
Qed.

(** A property of the state kept by every step of a loop over chats. *)
Lemma forEach_keeps (P : KakaoClient -> Prop) body order : forall kc kc' u,
  (forall id kc kc' u, body id kc = (kc', u) -> P kc -> P kc') ->
  forEach order body kc = (kc', u) -> P kc -> P kc'.
Proof.
  induction order as [|id order IH]; intros kc kc' u Hbody; cbn [forEach]; [by intros [= <- _]|].
  unfold bind. destruct (body id kc) as [kc1 u1] eqn:E1. intros E2 Hp.
  eapply IH; [exact Hbody | exact E2 | by eapply Hbody].
Qed.

Lemma retryDue_keeps (P : KakaoClient -> Prop) order now kc kc' u :
  (forall id kc kc' u, retryHeld userID login delays id kc = (kc', u) -> P kc -> P kc') ->
  retryDueHolds userID login delays order now kc = (kc', u) -> P kc -> P kc'.
Proof.
  intros Hr. apply forEach_keeps. intros id k k' v. unfold whenHeld, bind, gets.
  destruct (holds k !! id) as [h|]; [|by intros [= <- _]]. destruct (isDue now h); [|by intros [= <- _]].
  by apply Hr.
Qed.

Lemma resume_keeps (P : KakaoClient -> Prop) order only kc kc' u :
  (forall id kc kc' u, retryHeld userID login delays id kc = (kc', u) -> P kc -> P kc') ->
  (forall id h kc, holds kc !! id = Some h -> due h = None ->
     P kc -> P (set_holds (<[id := set_attempts 0 h]> (holds kc)) kc)) ->
  resumeHeld userID login delays order only kc = (kc', u) -> P kc -> P kc'.
Proof.
  intros Hr Hput. apply forEach_keeps. intros id k k' v. unfold whenHeld, bind, gets.
  destruct (holds k !! id) as [h|] eqn:E; [|by intros [= <- _]].
  destruct (_ && waits h) eqn:Ew; [|by intros [= <- _]]. apply andb_true_iff in Ew as [_ Ew].
  unfold putHeld, modify. intros E2 Hp. eapply Hr; [exact E2|]. apply Hput; [done| |done].
  unfold waits in Ew. by destruct (due h).
Qed.

Lemma deliver_books evt kc kc' ok : deliver userID login delays evt kc = (kc', ok) -> books kc -> books kc'.
Proof.
  unfold deliver, bind, gets. destruct (heldChatOf evt) as [id|]; simpl.
  - destruct (holds kc !! id) as [h|] eqn:E; simpl.
    { intros [= <- _]. apply books_put with h; try done; unfold add;
        destruct (_ && _); try done; by destruct (MessagePosition evt) as [[]|]. }
    destruct (onConn _ kc) as [kc1 b] eqn:E1. destruct (handle_pending _ _ _ _ E1) as [_ Ht].
    destruct b; [intros [= <- _]; by apply books_same|].
    destruct (hold delays id [evt] kc1) as [kc2 u] eqn:E2. intros [= <- _] Hb.
    eapply hold_books; [exact E2 | by destruct Ht as [-> _] | by eapply books_same].
  - destruct (onConn _ kc) as [kc1 b] eqn:E1. destruct (handle_pending _ _ _ _ E1) as [_ Ht].
    destruct b; intros [= <- _]; by apply books_same.
Qed.
End Facts.
