(* ===== verification/PumpOrder.v ===== *)
(** * The order of held events

    No step of the pump loses or reorders a chat's events: the client's commit
    queue of a chat stays the chat's buffer followed by what has not been
    delivered yet (src/internal/bridge/connector/delivery_hold.go). *)

From S2P Require Import Prelude.
From S2P Require Import Bytes Bson Events Continuity ContinuitySpec ContinuityProps ContinuityTheorems.
From S2P Require Import Delivery CatchUp BulkCatchUp ProtocolTheorems ClientFacts BulkFacts Demo CommitOrder CatchUpTheorems.
From S2P Require Import Handling Holds Pump BridgeDemo HandlingTheorems PumpFacts.
From S2P Require PrivateJson SyncMsg MChatLogs ChatLog.

#[local] Open Scope list_scope.
#[local] Open Scope Z_scope.

Section Aligned.
Context `{EventContent} {AS : AcquiredStore} {BR : Bridge}.
Context (userID : Z) (login : string) (delays : list Z).

Abbreviation clientOf kc := (source (conn kc)).

(** The positions of chat [k] that wait in its buffer. *)
Definition heldLogs (m : gmap Z heldChat) (k : Z) : list Z :=
  match m !! k with Some h => of_chat k (positions (events h)) | None => [] end.

(** Each chat's commit queue is its buffer followed by [f]. *)
Definition aligned (kc : KakaoClient) (f : Z -> list Z) : Prop :=
  forall k, 0 < k -> pending (clientOf kc) k = heldLogs (holds kc) k ++ f k.

(** Buffers hold their own chat's events only, all of them, with room left. *)
Record own_held (k : Z) (h : heldChat) : Prop := {
  oh_chat : Forall (fun e => heldChatOf e = Some k) (events h);
  oh_missed : missedThrough h = 0;
}.
Definition own (kc : KakaoClient) : Prop := map_Forall own_held (holds kc).
Definition isFull (h : heldChat) : bool := (maxHeldEvents <=? length (events h))%nat.
Definition anyFull (m : gmap Z heldChat) : bool := existsb (fun p => isFull (snd p)) (map_to_list m).

Lemma anyFull_lookup m k h : anyFull m = false -> m !! k = Some h -> isFull h = false.
Proof.
  intros Hf E. destruct (isFull h) eqn:Eh; [|done].
  assert (anyFull m = true); [|congruence].
  apply existsb_exists. exists (k, h). split; [|done]. by apply list_elem_of_In, elem_of_map_to_list.
Qed.

Lemma aligned_ext kc f g : (forall k, 0 < k -> f k = g k) -> aligned kc f -> aligned kc g.
Proof. intros E Ha k Hk. by rewrite Ha, E. Qed.

(** ** One retry *)

Lemma retryHeld_aligned id f kc kc' u : retryHeld userID login delays id kc = (kc', u) ->
  own kc -> aligned kc f -> own kc' /\ aligned kc' f.
Proof.
  unfold retryHeld, bind at 1, gets. destruct (holds kc !! id) as [h|] eqn:Eh; [|by intros [= <- _]].
  intros E Ho Ha. destruct (Ho _ _ Eh) as [Hch Hm]. unfold retryFuel in E. cbn [retryLoop] in E.
  unfold bind at 1 in E. destruct (drain userID login (events h) kc) as [kc1 rest] eqn:Ed.
  destruct (drain_spec _ _ _ _ _ _ Ed) as (delivered & Ev & Hp & [Ht _]).
  rewrite Ev, Forall_app in Hch. destruct Hch as [Hd Hrest].
  assert (Hq : forall k, 0 < k ->
    pending (clientOf kc1) k = (if decide (k = id) then of_chat id (positions rest) else heldLogs (holds kc) k) ++ f k).
  { intros k Hk. pose proof (Ha k Hk) as A. rewrite Hp in A. destruct (decide (k = id)) as [->|Hne].
    - unfold heldLogs in A. rewrite Eh, Ev, positions_app, of_chat_app, <- app_assoc in A.
      by apply app_inv_head in A.
    - by rewrite (of_chat_scoped id) in A. }
  destruct rest as [|e rest].
  - rewrite Hm in E. cbn [Z.eqb] in E. destruct (release_spec _ _ _ _ _ E) as (Hc & Hh & _).
    unfold own, aligned. rewrite Hh, Hc, Ht. split; [by apply map_Forall_delete|].
    intros k Hk. rewrite Hq by done. unfold heldLogs. destruct (decide (k = id)) as [->|Hne].
    + by rewrite lookup_delete_eq.
    + by rewrite lookup_delete_ne by done.
  - destruct (scheduleHeld_spec _ _ _ _ _ _ E) as (Hc & h' & Hh & [Hev Hms _ _ _] & _).
    cbn [events set_attempts set_events missedThrough] in Hev, Hms.
    unfold own, aligned. rewrite Hh, Hc, Ht. split.
    + apply map_Forall_insert_2; [|done]. constructor; [by rewrite Hev | by rewrite Hms].
    + intros k Hk. rewrite Hq by done. unfold heldLogs. destruct (decide (k = id)) as [->|Hne].
      * by rewrite lookup_insert_eq, Hev.
      * by rewrite lookup_insert_ne by done.
Qed.

(** ** Holding *)

Lemma foldl_add_room evts : forall h, missedThrough h = 0 ->
  (length (events h) + length evts <= maxHeldEvents)%nat ->
  events (foldl add h evts) = events h ++ evts /\ missedThrough (foldl add h evts) = 0.
Proof.
  induction evts as [|e evts IH]; intros h Hm Hl; simpl; [by rewrite app_nil_r|].
  simpl in Hl. assert (E : add h e = set_events (events h ++ [e]) h).
  { unfold add. rewrite Hm, (proj2 (Nat.ltb_lt _ _)) by lia. done. }
  destruct (IH (add h e)) as [K1 K2].
  - by rewrite E.
  - rewrite E. simpl. rewrite length_app. simpl. lia.
  - rewrite K1, K2, E. simpl. by rewrite <- app_assoc.
Qed.

(** A buffer that does not end up full took everything. *)
Lemma foldl_add_full evts : forall h, (length (events h) <= length (events (foldl add h evts)))%nat.
Proof.
  induction evts as [|e evts IH]; intros h; simpl; [lia|]. etrans; [|apply IH]. unfold add.
  destruct (_ && _); simpl; [rewrite length_app; lia|]. by destruct (MessagePosition e) as [[]|].
Qed.

Lemma foldl_add_all evts : forall h, missedThrough h = 0 -> isFull (foldl add h evts) = false ->
  events (foldl add h evts) = events h ++ evts /\ missedThrough (foldl add h evts) = 0.
Proof.
  induction evts as [|e evts IH]; intros h Hm Hf; cbn [foldl] in *; [by rewrite app_nil_r|].
  assert (Hl : (length (events h) < maxHeldEvents)%nat).
  { unfold isFull in Hf. apply Nat.leb_gt in Hf.
    pose proof (foldl_add_full (e :: evts) h) as Hle. cbn [foldl] in Hle. lia. }
  assert (E : add h e = set_events (events h ++ [e]) h).
  { unfold add. rewrite Hm, (proj2 (Nat.ltb_lt _ _)) by lia. done. }
  destruct (IH (add h e)) as [K1 K2]; [by rewrite E | done|].
  rewrite K1, K2, E. cbn [events set_events]. by rewrite <- app_assoc.
Qed.

Lemma hold_aligned id evts f kc kc' u : hold delays id evts kc = (kc', u) ->
  holds kc !! id = None -> Forall (fun e => heldChatOf e = Some id) evts -> anyFull (holds kc') = false ->
  own kc -> aligned kc (fun k => of_chat k (positions evts) ++ f k) -> own kc' /\ aligned kc' f.
Proof.
  unfold hold, bind, putHeld, modify. intros E Hnone Hev Hfull Ho Ha.
  destruct (scheduleHeld_spec _ _ _ _ _ _ E) as (Hc & h' & Hh & [Hevs Hms _ _ _] & _).
  cbn [holds set_holds conn] in Hh, Hc. rewrite insert_insert_eq in Hh.
  assert (Hf : isFull (foldl add newHeld evts) = false).
  { assert (Hf : isFull h' = false) by (eapply anyFull_lookup; [exact Hfull | rewrite Hh; apply lookup_insert_eq]).
    unfold isFull in *. by rewrite <- Hevs. }
  destruct (foldl_add_all evts newHeld eq_refl Hf) as [K1 K2]. rewrite K1 in Hevs. rewrite K2 in Hms.
  unfold own, aligned. rewrite Hh, Hc. split.
  - apply map_Forall_insert_2; [|done]. constructor; [by rewrite Hevs | done].
  - intros k Hk. pose proof (Ha k Hk) as A. cbn beta in A. rewrite A. unfold heldLogs.
    destruct (decide (k = id)) as [->|Hne].
    + by rewrite Hnone, lookup_insert_eq, Hevs.
    + rewrite lookup_insert_ne by done. by rewrite (of_chat_scoped id evts Hev k Hne).
Qed.

(** ** One event *)

Lemma unscoped_position (e : Event) : heldChatOf e = None -> MessagePosition e = None.
Proof. unfold heldChatOf. by destruct (MessagePosition e) as [[]|]. Qed.

Lemma deliver_aligned evt f kc kc' ok : deliver userID login delays evt kc = (kc', ok) ->
  anyFull (holds kc) = false -> anyFull (holds kc') = false -> own kc ->
  aligned kc (fun k => of_chat k (positions [evt]) ++ f k) -> own kc' /\ aligned kc' f.
Proof.
  unfold deliver, bind at 1, gets. intros E Hfull Hfull' Ho Ha. destruct (heldChatOf evt) as [id|] eqn:Es; simpl in E.
  - destruct (holds kc !! id) as [h|] eqn:Eh; simpl in E.
    + unfold bind, putHeld, modify, ret in E. injection E as <- _.
      destruct (Ho _ _ Eh) as [Hch Hm]. pose proof (anyFull_lookup _ _ _ Hfull Eh) as Hlen.
      unfold isFull in Hlen. apply Nat.leb_gt in Hlen.
      assert (Ea : add h evt = set_events (events h ++ [evt]) h).
      { unfold add. by rewrite Hm, (proj2 (Nat.ltb_lt _ _)) by lia. }
      unfold own, aligned. cbn [holds set_holds conn]. rewrite Ea. split.
      * apply map_Forall_insert_2; [|done]. constructor; cbn [events set_events missedThrough]; [|done].
        apply Forall_app. split; [done|]. by constructor.
      * intros k Hk. rewrite (Ha k Hk). unfold heldLogs. destruct (decide (k = id)) as [->|Hne].
        -- rewrite Eh, lookup_insert_eq. cbn [events set_events].
           by rewrite positions_app, of_chat_app, <- app_assoc.
        -- rewrite lookup_insert_ne by done. by rewrite (of_chat_scoped id [evt]) by (done || by constructor).
    + unfold bind in E. destruct (onConn (handleEvent userID login evt) kc) as [kc1 b] eqn:E1.
      destruct (handle_pending _ _ _ _ _ _ E1) as [Hp [Hh _]].
      assert (Ho1 : own kc1) by (unfold own; by rewrite Hh).
      destruct b.
      * injection E as <- _. split; [done|]. intros k Hk. pose proof (Ha k Hk) as A. cbn beta in A.
        rewrite Hp in A. unfold heldLogs in *. rewrite Hh. destruct (decide (k = id)) as [->|Hne].
        -- rewrite Eh in A |- *. rewrite app_nil_l in A |- *. by apply app_inv_head in A.
        -- rewrite (of_chat_scoped id [evt]) in A by (done || by constructor). done.
      * destruct (hold delays id [evt] kc1) as [kc2 u] eqn:E2. injection E as <- _.
        eapply hold_aligned; [exact E2 | by rewrite Hh | by constructor | done | done |].
        intros k Hk. rewrite Hh, <- (Ha k Hk), (Hp k). done.
  - unfold bind in E. destruct (onConn (handleEvent userID login evt) kc) as [kc1 b] eqn:E1.
    destruct (handle_pending _ _ _ _ _ _ E1) as [Hp [Hh _]].
    assert (Hnil : forall k, of_chat k (positions [evt]) = []).
    { intros k. unfold positions. cbn [omap list_omap]. by rewrite (unscoped_position _ Es). }
    assert (Hres : own kc1 /\ aligned kc1 f).
    { split; [unfold own; by rewrite Hh|]. intros k Hk. pose proof (Ha k Hk) as A. cbn beta in A.
      rewrite Hp, Hnil in A. rewrite Hh. by destruct b; cbn [app] in A. }
    by destruct b; injection E as <- _.
Qed.
End Aligned.

(** ** The loop *)

Section Loop.
Context `{EventContent} {AS : AcquiredStore} {BR : Bridge}.
Context (userID : Z) (login : string) (delays : list Z).

Abbreviation clientOf kc := (source (conn kc)).

Lemma own_put id h kc f : holds kc !! id = Some h ->
  own kc -> aligned kc f -> own (set_holds (<[id := set_attempts 0 h]> (holds kc)) kc) /\
    aligned (set_holds (<[id := set_attempts 0 h]> (holds kc)) kc) f.
Proof.
  intros E Ho Ha. destruct (Ho _ _ E). unfold own, aligned. cbn [holds set_holds conn]. split.
  - by apply map_Forall_insert_2.
  - intros k Hk. rewrite (Ha k Hk). unfold heldLogs. destruct (decide (k = id)) as [->|Hne].
    + by rewrite E, lookup_insert_eq.
    + by rewrite lookup_insert_ne.
Qed.

Lemma retries_aligned order now f kc kc' u : retryDueHolds userID login delays order now kc = (kc', u) ->
  own kc -> aligned kc f -> own kc' /\ aligned kc' f.
Proof.
  intros E Ho Ha.
  apply (retryDue_keeps userID login delays (fun kc => own kc /\ aligned kc f) order now kc kc' u); [|done|done].
  intros id k k' v Er [? ?]. by eapply retryHeld_aligned.
Qed.

Lemma resumes_aligned order only f kc kc' u : resumeHeld userID login delays order only kc = (kc', u) ->
  own kc -> aligned kc f -> own kc' /\ aligned kc' f.
Proof.
  intros E Ho Ha.
  apply (resume_keeps userID login delays (fun kc => own kc /\ aligned kc f) order only kc kc' u); [| |done|done].
  - intros id k k' v Er [? ?]. by eapply retryHeld_aligned.
  - intros id h k Eh _ [? ?]. by apply own_put.
Qed.

(** What the loop takes off the stream. *)
Definition taken (selected : Selected) : list Result :=
  match selected with FromStream (Some result) => [result] | _ => [] end.

Lemma runStep_aligned r selected f kc kc' r' : runStep userID login delays r selected kc = (kc', r') ->
  noticed r = false -> anyFull (holds kc) = false -> anyFull (holds kc') = false ->
  own kc -> aligned kc (fun k => of_chat k (positions (resultEvents (taken selected))) ++ f k) ->
  own kc' /\ aligned kc' f.
Proof.
  intros E Hn Hf Hf' Ho Ha. destruct selected as [now order|order|order|[result|]]; cbn [runStep] in E.
  - rewrite Hn in E. unfold bind in E. destruct (retryDueHolds _ _ _ order now kc) as [kc1 u] eqn:E1.
    injection E as <- _. by eapply retries_aligned.
  - unfold bind at 1, modify in E. rewrite Hn in E. unfold bind in E.
    destruct (resumeHeld _ _ _ order 0 _) as [kc1 u] eqn:E1. injection E as <- _.
    by eapply resumes_aligned; [exact E1|..].
  - rewrite Hn in E. unfold bind at 1 in E.
    destruct (quiet_world applyMetadataRefresh kc) as [Hc [Hh _]].
    destruct (onWorld applyMetadataRefresh kc) as [kc1 [failed converged]]. cbn [fst] in Hc, Hh.
    assert (K : own kc1 /\ aligned kc1 f) by (unfold own, aligned; rewrite Hc, Hh; done). destruct K as [K1 K2].
    unfold bind in E. destruct converged as [id|].
    + destruct (resumeHeld _ _ _ order id kc1) as [kc2 u] eqn:E2. injection E as <- _. by eapply resumes_aligned.
    + by injection E as <- _.
  - unfold runResult in E. rewrite Hn in E. destruct result as [evt|e].
    + unfold bind in E. destruct (deliver userID login delays evt kc) as [kc1 ok] eqn:E1. injection E as <- _.
      by eapply deliver_aligned.
    + assert (kc' = kc) as ->; [|done]. by destruct e as [[]| |]; injection E as <- _.
  - by injection E as <- _.
Qed.

Lemma runStep_books r selected kc kc' r' : runStep userID login delays r selected kc = (kc', r') ->
  books delays kc -> books delays kc'.
Proof.
  assert (Hresume : forall order only k k' u, resumeHeld userID login delays order only k = (k', u) ->
    books delays k -> books delays k').
  { intros order only k k' u E. apply (resume_keeps userID login delays (books delays) order only k k' u); [| |done].
    - apply retryHeld_books.
    - intros id h k0 Eh Hd [K1 K2]. constructor; simpl.
      + rewrite (count_replace _ _ _ _ Eh). simpl. rewrite K1. lia.
      + apply map_Forall_insert_2; [|done]. simpl. rewrite Hd. by intros [? ?]. }
  intros E Hb. destruct selected as [now order|order|order|[result|]]; cbn [runStep] in E.
  - destruct (noticed r); [by injection E as <- _|]. unfold bind in E.
    destruct (retryDueHolds _ _ _ order now kc) as [kc1 u] eqn:E1. injection E as <- _.
    eapply retryDue_keeps; [apply retryHeld_books | exact E1 | done].
  - unfold bind at 1, modify in E. assert (Hb1 : books delays (set_resume false kc)) by (destruct Hb; by constructor).
    destruct (noticed r); [by injection E as <- _|]. unfold bind in E.
    destruct (resumeHeld _ _ _ order 0 _) as [kc1 u] eqn:E1. injection E as <- _. by eapply Hresume.
  - destruct (noticed r); [by injection E as <- _|]. unfold bind at 1 in E.
    destruct (quiet_world applyMetadataRefresh kc) as [_ Ht].
    destruct (onWorld applyMetadataRefresh kc) as [kc1 [failed converged]]. cbn [fst] in Ht.
    pose proof (books_same _ _ _ Ht Hb) as Hb1. unfold bind in E. destruct converged as [id|].
    + destruct (resumeHeld _ _ _ order id kc1) as [kc2 u] eqn:E2. injection E as <- _. by eapply Hresume.
    + by injection E as <- _.
  - unfold runResult in E. destruct (noticed r); [by injection E as <- _|]. destruct result as [evt|e].
    + unfold bind in E. destruct (deliver userID login delays evt kc) as [kc1 ok] eqn:E1. injection E as <- _.
      by eapply deliver_books.
    + assert (kc' = kc) as ->; [|done]. by destruct e as [[]| |]; injection E as <- _.
  - by injection E as <- _.
Qed.

(** A terminal notice is never taken back. *)
Lemma runStep_noticed r selected kc kc' r' : runStep userID login delays r selected kc = (kc', r') ->
  noticed r' = false -> noticed r = false.
Proof.
  intros E. destruct (noticed r) eqn:Hn; [|done]. intros Hn'.
  destruct selected as [now order|order|order|[result|]]; cbn [runStep] in E.
  all: try (rewrite Hn in E; injection E as _ <-; congruence).
  - unfold runResult in E. rewrite Hn in E. injection E as _ <-. congruence.
  - injection E as _ <-. unfold noticed, kickedOut in *. simpl in *. congruence.
Qed.
End Loop.
