(* ===== verification/BootstrapFacts.v ===== *)
(** * The bootstrap of a session

    When [connectAndSubscribe] succeeds (src/internal/bridge/connector/client.go,
    seed.go), each chat's commit queue is exactly what the bootstrap holds for
    it: everything else it seeded or recovered is committed. *)

From S2P Require Import Prelude.
From S2P Require Import Bytes Bson Events Continuity SortedSlices ContinuitySpec ContinuityProps ContinuityTheorems.
From S2P Require Import Delivery CatchUp BulkCatchUp ProtocolTheorems ClientFacts BulkFacts Demo CommitOrder CatchUpTheorems.
From S2P Require Import Handling Holds Pump BridgeDemo HandlingTheorems PumpFacts PumpOrder.
From S2P Require PrivateJson SyncMsg MChatLogs ChatLog.

#[local] Open Scope string_scope.
#[local] Open Scope list_scope.
#[local] Open Scope Z_scope.

(** ** The recovered rooms *)

Section Rooms.
Context `{AcquiredStore}.

Lemma finishRoom_events env store state c r c' out : room_ok env r ->
  finishRoom env store state c r = (c', Ok out) ->
  ChatID out = chatID r /\ Forall (at_chat (ChatID out)) (Events out).
Proof.
  intros Hr. unfold finishRoom.
  destruct (match projectAcquiredEvents store (BulkCatchUp.events r) with Ok p => _ | Err _ => _ end) as [[evs cur] skip] eqn:E0.
  destruct (if 0 <? skip then _ else _) as [c1 [e|]]; [done|].
  destruct (if cur <? ceiling r then _ else _) as [c2 [e|]]; [done|]. intros [= <- <-]. cbn [ChatID Events].
  split; [done|]. destruct (projectAcquiredEvents store (BulkCatchUp.events r)) as [projected|] eqn:Ep; injection E0 as <- _ _; [|done].
  apply (positions_Forall (fun p => exists l, p = Some (chatID r, l)) (BulkCatchUp.events r)); [|apply Hr].
  by eapply projected_positions.
Qed.

Lemma finishBulkRooms_events env store state rooms : forall c c' outs, Forall (room_ok env) rooms ->
  finishBulkRooms env store state c rooms = (c', Ok outs) ->
  ChatID <$> outs = chatID <$> rooms /\ Forall (fun out => Forall (at_chat (ChatID out)) (Events out)) outs.
Proof.
  induction rooms as [|r rooms IH]; intros c c' outs Hr; cbn [finishBulkRooms]; [by intros [= <- <-]|].
  apply Forall_cons in Hr as [Hr Hrs].
  destruct (finishRoom env store state c r) as [c1 [out|]] eqn:E1; [|done].
  destruct (finishBulkRooms env store state c1 rooms) as [c2 [rest|]] eqn:E2; [|done]. intros [= <- <-].
  destruct (finishRoom_events _ _ _ _ _ _ _ Hr E1) as [K1 K2]. destruct (IH _ _ _ Hrs E2) as [K3 K4].
  split; [by rewrite !fmap_cons, K1, K3 | by constructor].
Qed.

Lemma resumed_positive state id : wf state ->
  id ∈ SyncMsg.Target_ChatID <$> ResumeTargets state -> 0 < id.
Proof.
  intros Hwf (t & -> & Ht)%list_elem_of_fmap. apply list_elem_of_filter in Ht as [_ Ht].
  apply list_elem_of_fmap in Ht as (t0 & -> & Ht). apply list_elem_of_filter in Ht as [_ Ht].
  exact (ascending_bound _ _ _ (proj1 (wf_known _ Hwf)) Ht).
Qed.

(** The rooms are the resumed chats, each once, with their own events. *)
Lemma CatchUpAll_rooms env c store options c' store' result : good c ->
  CatchUpAll env c store options = (c', store', Ok result) ->
  ChatID <$> Rooms result = SyncMsg.Target_ChatID <$> ResumeTargets (snapshot c) /\
  NoDup (ChatID <$> Rooms result) /\
  Forall (fun room => 0 < ChatID room /\ Forall (at_chat (ChatID room)) (Events room)) (Rooms result).
Proof.
  intros Hg. destruct (good_snapshot c Hg) as [Hwf _]. unfold CatchUpAll.
  destruct (match options with Some o => _ | None => _ end) as [history|]; [|done].
  destruct (closed c); [done|]. destruct (_ || _); [done|]. destruct (be_busy env); [done|].
  destruct (be_turn env); [|done].
  destruct (selectBulkRooms env (snapshot c) store history) as [rooms|] eqn:Esel; [|done].
  destruct (chainLoop _ _ _ _) as [[st [ch|]]|] eqn:Eloop; [|done..].
  destruct (chain_rooms env _ _ _ _ _ _ _ Hwf Esel Eloop) as (Hrooms & Hids & _).
  destruct (finishBulkRooms _ _ _ _ _) as [c1 [outs|]] eqn:Efin; [|done]. intros [= <- <- <-].
  assert (Hall : Forall (room_ok env) (BulkCatchUp.catchUpRooms (ch_rooms ch))).
  { apply Forall_forall. intros r Hr.
    assert (Hi : map_Forall (fun id r => chatID r = id) (ch_rooms ch)) by (intros id x Hx; by apply (Hrooms id x)).
    apply catchUpRooms_spec in Hr as [Hc Hr]; [|done]. by apply (Hrooms _ _ Hr). }
  destruct (finishBulkRooms_events _ _ _ _ _ _ _ Hall Efin) as [K1 K2]. cbn [Rooms].
  rewrite K1, Hids. split_and!; [done | by apply StronglySorted_NoDup_lt, resume_ascending |].
  apply Forall_forall. intros room Hroom. rewrite Forall_forall in K2. split; [|by apply K2].
  apply (resumed_positive _ _ Hwf). rewrite <- Hids, <- K1. by apply list_elem_of_fmap_2.
Qed.

(** A chat with nothing committed and nothing admitted is not resumed. *)
Lemma resumed_known c k : good c ->
  peek (j_commits (journal c)) k = 0 -> peek (j_starts (journal c)) k = 0 ->
  k ∉ SyncMsg.Target_ChatID <$> ResumeTargets (snapshot c).
Proof.
  intros Hg Hc Hs (t & -> & Ht)%list_elem_of_fmap. destruct (good_snapshot c Hg) as [Hwf Habs].
  unfold ResumeTargets in Ht. apply list_elem_of_filter in Ht as [Hn _]. unfold needsCatchUp in Hn.
  rewrite (CommittedMax_abs _ Hwf), (FirstDeliveryStart_abs _ Hwf), Habs, Hc, Hs in Hn. done.
Qed.
End Rooms.

(** ** Steps of the bootstrap *)

Section Boot.
Context `{EventContent} {AS : AcquiredStore} {BR : Bridge} {SU : Startup}.
Context (userID : Z) (login : string) (delays : list Z).

Abbreviation clientOf kc := (source (conn kc)).

(** Chats that are not held wait for what is still [todo]; a held chat waits for
    its buffer only. *)
Record boot (kc : KakaoClient) (todo : Z -> list Z) : Prop := {
  bt_free k : 0 < k -> holds kc !! k = None -> pending (clientOf kc) k = todo k;
  bt_held k h : holds kc !! k = Some h ->
    0 < k /\ pending (clientOf kc) k <> [] /\ todo k = [] /\
    (isFull h = false -> own_held k h /\ pending (clientOf kc) k = of_chat k (positions (events h)));
  bt_books : books delays kc;
}.

Lemma boot_frame kc kc' todo : clientOf kc' = clientOf kc -> same_table kc kc' ->
  boot kc todo -> boot kc' todo.
Proof.
  intros Hc [Hh Hn] [K1 K2 K3]. constructor; rewrite ?Hh, ?Hc; [exact K1 | exact K2 |].
  by eapply books_same.
Qed.

Lemma boot_quiet {A} (m : state KakaoClient A) kc todo : quiet m -> boot kc todo -> boot (m kc).1 todo.
Proof. intros Hm. destruct (Hm kc). by apply boot_frame. Qed.

Lemma boot_ext kc f g : (forall k, f k = g k) -> boot kc f -> boot kc g.
Proof.
  intros E [K1 K2 K3]. constructor; [|by intros k h Hk; rewrite <- E; apply K2 | done].
  intros k Hk Hn. rewrite <- E. by apply K1.
Qed.

(** Holding what is left of a chat that is not held yet. *)
Lemma hold_boot id evts todo kc kc' u : hold delays id evts kc = (kc', u) ->
  0 < id -> evts <> [] -> Forall (at_chat id) evts -> todo id = [] -> holds kc !! id = None ->
  boot kc (fun k => of_chat k (positions evts) ++ todo k) -> boot kc' todo.
Proof.
  intros E Hid Hne Hat Htodo Hnone [K1 K2 K3].
  assert (Hsc : Forall (fun e => heldChatOf e = Some id) evts).
  { eapply Forall_impl; [exact Hat|]. intros e. apply at_chat_scoped. }
  pose proof (hold_books delays id evts kc kc' u E Hnone K3) as Hbooks.
  unfold hold, bind, putHeld, modify in E.
  destruct (scheduleHeld_spec _ _ _ _ _ _ E) as (Hc & h' & Hh' & [Hev Hm _ _ _] & _).
  cbn [holds set_holds conn] in Hc, Hh'. rewrite insert_insert_eq in Hh'.
  assert (Hpend : pending (clientOf kc) id = of_chat id (positions evts)).
  { rewrite (K1 id Hid Hnone), Htodo. apply app_nil_r. }
  constructor; rewrite ?Hc; [| |exact Hbooks].
  - intros k Hk. rewrite Hh'. destruct (decide (k = id)) as [->|Hk']; [by rewrite lookup_insert_eq|].
    rewrite lookup_insert_ne by done. intros Hk0. rewrite (K1 k Hk Hk0). by rewrite (of_chat_scoped id evts Hsc k Hk').
  - intros k h. rewrite Hh'. destruct (decide (k = id)) as [->|Hk'].
    + rewrite lookup_insert_eq. intros [= <-]. rewrite Hpend, Htodo. split_and!; [done| |done|].
      * destruct evts as [|e evts]; [done|]. apply Forall_cons in Hat as [[l He] _].
        change (e :: evts) with ([e] ++ evts). rewrite positions_app, of_chat_app.
        assert (positions [e] = [(id, l)]) as -> by (unfold positions; cbn [omap list_omap]; by rewrite He).
        by rewrite of_chat_one, decide_True.
      * intros Hf. assert (Hf' : isFull (foldl add newHeld evts) = false) by (unfold isFull in *; by rewrite <- Hev).
        destruct (foldl_add_all evts newHeld eq_refl Hf') as [L1 L2]. rewrite L1 in Hev. rewrite L2 in Hm.
        split; [constructor; [by rewrite Hev | done]|]. by rewrite Hev.
    + rewrite lookup_insert_ne by done. intros Hk. destruct (K2 _ _ Hk) as (L0 & L1 & L2 & L3).
      rewrite (of_chat_scoped id evts Hsc k Hk') in L2. done.
Qed.

(** Events of a chat that is not held: delivered in order, the rest held. *)
Lemma deliverRoom_boot id evts todo kc kc' u : deliverRoom userID login delays id evts kc = (kc', u) ->
  0 < id -> Forall (at_chat id) evts -> todo id = [] -> (evts <> [] -> holds kc !! id = None) ->
  boot kc (fun k => of_chat k (positions evts) ++ todo k) -> boot kc' todo.
Proof.
  intros E Hid Hat Htodo Hfree Hb. unfold deliverRoom, bind in E.
  destruct (drain userID login evts kc) as [kc1 rest] eqn:Ed.
  destruct (drain_spec _ _ _ _ _ _ Ed) as (delivered & -> & Hp & Hs). destruct Hs as [Hh Hn].
  apply Forall_app in Hat as [Hd Hrest].
  assert (Hsc : forall l, Forall (at_chat id) l -> Forall (fun e => heldChatOf e = Some id) l).
  { intros l Hl. eapply Forall_impl; [exact Hl|]. intros e. apply at_chat_scoped. }
  assert (Hother : forall k l, k <> id -> Forall (at_chat id) l -> of_chat k (positions l) = []).
  { intros k l Hk Hl. apply (of_chat_scoped id); [by apply Hsc | done]. }
  assert (Hb1 : boot kc1 (fun k => of_chat k (positions rest) ++ todo k)).
  { destruct Hb as [K1 K2 K3]. constructor.
    - intros k Hk Hnone. rewrite Hh in Hnone. specialize (K1 k Hk Hnone). rewrite Hp in K1.
      destruct (decide (k = id)) as [->|Hne].
      + rewrite positions_app, of_chat_app, <- app_assoc in K1. by apply app_inv_head in K1.
      + rewrite (Hother k delivered), (Hother k (delivered ++ rest)) in K1 by (done || by apply Forall_app).
        by rewrite (Hother k rest).
    - intros k h Hk. rewrite Hh in Hk. destruct (K2 _ _ Hk) as (K0 & K4 & K5 & K6).
      destruct (decide (k = id)) as [->|Hne].
      { destruct (delivered ++ rest) as [|e l] eqn:El; [|by rewrite Hfree in Hk].
        apply app_eq_nil in El as [-> ->]. rewrite Hp in K4, K6. done. }
      rewrite Hp, (Hother k delivered), app_nil_l in K4, K6 by done.
      rewrite (Hother k rest) by done. rewrite (Hother k) in K5 by (done || by apply Forall_app). done.
    - eapply books_same; [split|exact K3]; done. }
  destruct rest as [|e rest].
  { injection E as <- _. exact Hb1. }
  eapply hold_boot; [exact E | done.. | |exact Hb1]. rewrite Hh. apply Hfree. by destruct delivered.
Qed.

(** *** The recovered rooms *)

Definition roomLogs (rooms : list CaughtUpRoom) (k : Z) : list Z := of_chat k (positions (rooms ≫= Events)).

Lemma quiet_bind {A B} (m : state KakaoClient A) (k : A -> state KakaoClient B) :
  quiet m -> (forall a, quiet (k a)) -> quiet (bind m k).
Proof.
  intros Hm Hk kc. unfold bind. destruct (Hm kc) as [Hc [Hh Hn]]. destruct (m kc) as [kc1 a]. simpl in *.
  destruct (Hk a kc1) as [Hc2 [Hh2 Hn2]]. split; [congruence|]. split; congruence.
Qed.

Lemma quiet_ret {A} (a : A) : quiet (@ret KakaoClient A a).
Proof. done. Qed.

Lemma quiet_notice room : quiet (notice login room).
Proof. apply quiet_bind; [apply quiet_world|]. intros r. apply quiet_ret. Qed.

Lemma quiet_if {A} (b : bool) (m1 m2 : state KakaoClient A) : quiet m1 -> quiet m2 -> quiet (if b then m1 else m2).
Proof. by destruct b. Qed.

#[local] Hint Resolve quiet_world quiet_ret quiet_notice quiet_bind quiet_if : go.

(** What follows a quiet step sees the same client and table. *)
Lemma boot_bind {A B} (m : state KakaoClient A) (k : A -> state KakaoClient B) todo kc kc' b :
  quiet m -> boot kc todo -> bind m k kc = (kc', b) ->
  exists a kc1, boot kc1 todo /\ clientOf kc1 = clientOf kc /\ holds kc1 = holds kc /\ k a kc1 = (kc', b).
Proof.
  intros Hm Hb E. unfold bind in E. pose proof (boot_quiet m kc todo Hm Hb) as Hb1.
  destruct (Hm kc) as [Hc [Hh _]]. destruct (m kc) as [kc1 a]. by exists a, kc1.
Qed.

Lemma catchUpRoom_boot room todo kc kc' : catchUpRoom userID login delays room kc = (kc', None) ->
  0 < ChatID room -> Forall (at_chat (ChatID room)) (Events room) -> todo (ChatID room) = [] ->
  boot kc (fun k => of_chat k (positions (Events room)) ++ todo k) -> boot kc' todo.
Proof.
  intros E Hid Hat Htodo Hb. unfold catchUpRoom in E.
  apply (boot_bind _ _ (fun k => of_chat k (positions (Events room)) ++ todo k)) in E as (failed & kc1 & Hb1 & _ & _ & E);
    [|auto with go|done].
  destruct failed; [done|]. unfold bind at 1 in E.
  destruct (deliverRoom userID login delays (ChatID room) (Events room) kc1) as [kc2 u] eqn:Ed.
  assert (Hb2 : boot kc2 todo).
  { eapply deliverRoom_boot; [exact Ed | done..| |exact Hb1]. intros Hne.
    destruct (holds kc1 !! ChatID room) as [h|] eqn:Eh; [|done].
    destruct (bt_held _ _ Hb1 _ _ Eh) as (_ & _ & K & _). exfalso. revert Hne K.
    destruct (Events room) as [|e l]; [done|]. intros _. apply Forall_cons in Hat as [[x Hx] _].
    change (e :: l) with ([e] ++ l). rewrite positions_app, of_chat_app.
    assert (positions [e] = [(ChatID room, x)]) as -> by (unfold positions; cbn [omap list_omap]; by rewrite Hx).
    by rewrite of_chat_one, decide_True. }
  clear -Hb2 E.
  apply (boot_bind _ _ todo) in E as (failed & kc3 & Hb3 & _ & _ & E); [|auto with go|done].
  destruct failed; [done|].
  apply (boot_bind _ _ todo) in E as (? & kc4 & Hb4 & _ & _ & E); [|auto with go|done].
  by injection E as <-.
Qed.

Lemma catchUpRooms_boot rooms : forall kc kc', catchUpRooms userID login delays rooms kc = (kc', None) ->
  NoDup (ChatID <$> rooms) -> Forall (fun room => 0 < ChatID room /\ Forall (at_chat (ChatID room)) (Events room)) rooms ->
  boot kc (roomLogs rooms) -> boot kc' (fun _ => []).
Proof.
  induction rooms as [|room rooms IH]; intros kc kc' E Hnd Hat Hb; cbn [catchUpRooms] in E; [by injection E as <-|].
  rewrite fmap_cons in Hnd. apply NoDup_cons in Hnd as [Hnin Hnd]. apply Forall_cons in Hat as [[Hid Hroom] Hat].
  unfold bind in E. destruct (catchUpRoom userID login delays room kc) as [kc1 [e|]] eqn:E1; [done|].
  apply (IH _ _ E Hnd Hat). eapply catchUpRoom_boot; [exact E1 | done | done | |].
  - unfold roomLogs. clear -Hnin Hat. induction Hat as [|r rs [_ Hr] _ IH]; [done|].
    rewrite fmap_cons in Hnin. apply not_elem_of_cons in Hnin as [Hne Hnin].
    change ((r :: rs) ≫= Events) with (Events r ++ (rs ≫= Events)). rewrite positions_app, of_chat_app, IH by done.
    rewrite app_nil_r. apply (of_chat_scoped (ChatID r)); [|done]. eapply Forall_impl; [exact Hr|].
    intros x. apply at_chat_scoped.
  - eapply boot_ext; [|exact Hb]. intros k. unfold roomLogs.
    change ((room :: rooms) ≫= Events) with (Events room ++ (rooms ≫= Events)). by rewrite positions_app, of_chat_app.
Qed.

Lemma rosterFallbacks_quiet targets : quiet (rosterFallbacks targets).
Proof. induction targets as [|t targets IH]; cbn [rosterFallbacks]; auto with go. Qed.

Lemma catchUp_boot caught kc kc' : catchUp userID login delays caught kc = (kc', None) ->
  NoDup (ChatID <$> Rooms caught) ->
  Forall (fun room => 0 < ChatID room /\ Forall (at_chat (ChatID room)) (Events room)) (Rooms caught) ->
  boot kc (roomLogs (Rooms caught)) -> boot kc' (fun _ => []).
Proof.
  intros E Hnd Hat Hb. unfold catchUp, bind at 1, gets in E.
  destruct (sys_store _); [|done].
  apply (boot_bind _ _ (roomLogs (Rooms caught))) in E as (? & kc1 & Hb1 & _ & _ & E); [|apply rosterFallbacks_quiet|done].
  by eapply catchUpRooms_boot.
Qed.

(** *** Seeds *)

(** Held chats are unknown to the checkpoint: none is resumed. *)
Record fresh (kc : KakaoClient) : Prop := {
  fr_good : good (clientOf kc);
  fr_held k h : holds kc !! k = Some h ->
    peek (j_commits (journal (clientOf kc))) k = 0 /\ peek (j_starts (journal (clientOf kc))) k = 0;
}.

Lemma fresh_frame kc kc' : clientOf kc' = clientOf kc -> holds kc' = holds kc -> fresh kc -> fresh kc'.
Proof. intros Hc Hh [K1 K2]. constructor; rewrite Hc; [done|]. intros k h. rewrite Hh. apply K2. Qed.

Lemma seed_outcome c id last accept c' r : SeedLastMessage c id last accept = (c', r) ->
  match r with
  | Ok (Some evt) => 0 < id /\ (exists log, MessagePosition evt = Some (id, log) /\
      pendingCommits c' = <[id := [log]]> (pendingCommits c)) /\ pending c id = [] /\
      checkpoint c' = checkpoint c /\
      CommittedMax (snapshot c) id <= 0 /\ FirstDeliveryStart (snapshot c) id <= 0
  | _ => c' = c
  end.
Proof.
  unfold SeedLastMessage. destruct (id <=? 0) eqn:Eid; [by intros [= <- <-]|].
  destruct last as [log|]; [|by intros [= <- <-]]. destruct (closed c); [by intros [= <- <-]|].
  destruct (sys_store (checkpoint c)) as [st|] eqn:Es; [|by intros [= <- <-]].
  destruct ((0 <? CommittedMax _ id) || _) eqn:Ek; [by intros [= <- <-]|].
  destruct (DecodeChatLog id log) as [evt|]; [|by intros [= <- <-]].
  destruct (MessagePosition evt) as [[chat logID]|] eqn:Ep; [|by intros [= <- <-]].
  destruct (negb (chat =? id)) eqn:Ec; [by intros [= <- <-]|].
  destruct (negb (accept evt)); [by intros [= <- <-]|].
  destruct (0 <? length (pending c id))%nat eqn:El; [by intros [= <- <-]|].
  intros [= <- <-]. bool_prop. subst chat. unfold snapshot. rewrite Es.
  assert (pending c id = []) by (destruct (pending c id); [done|simpl in El; lia]).
  split_and!; try done; try lia. by exists logID.
Qed.

Lemma onClient_spec {A} (f : Client -> option HistoryStore -> Client * option HistoryStore * A) kc kc' a :
  onClient f kc = (kc', a) ->
  exists store, f (clientOf kc) (acquired kc) = (clientOf kc', store, a) /\ same_table kc kc'.
Proof.
  unfold onClient. destruct (f (clientOf kc) (acquired kc)) as [[c store] b]. intros [= <- <-].
  exists store. done.
Qed.

(** Committing or failing to commit at chat [id] keeps the others unknown. *)
Lemma handle_fresh id log evt kc kc' ok : MessagePosition evt = Some (id, log) ->
  onConn (handleEvent userID login evt) kc = (kc', ok) -> holds kc !! id = None -> fresh kc ->
  fresh kc' /\ (ok = false -> journal (clientOf kc') = journal (clientOf kc)).
Proof.
  intros Hp E Hnone [K1 K2]. destruct (handle_pending _ _ _ _ _ _ E) as [_ [Hh _]].
  assert (Hj : good (clientOf kc') /\ (ok = false -> journal (clientOf kc') = journal (clientOf kc)) /\
    forall k, k <> id -> peek (j_commits (journal (clientOf kc'))) k = peek (j_commits (journal (clientOf kc))) k /\
      peek (j_starts (journal (clientOf kc'))) k = peek (j_starts (journal (clientOf kc))) k).
  { unfold onConn in E. pose proof (handles_event userID login evt (conn kc)) as Hc.
    destruct (handleEvent userID login evt (conn kc)) as [c b]. injection E as <- <-. unfold committed in Hc.
    rewrite Hp in Hc. cbn [fst snd conn] in *.
    assert (Hother : forall env err, CommitEvent env (clientOf kc) evt = (source c, err) ->
      good (source c) /\ (err <> None -> journal (source c) = journal (clientOf kc)) /\
      forall k, k <> id -> peek (j_commits (journal (source c))) k = peek (j_commits (journal (clientOf kc))) k /\
        peek (j_starts (journal (source c))) k = peek (j_starts (journal (clientOf kc))) k).
    { intros env err Ec. destruct (CommitEvent_journal _ _ _ _ _ K1 Ec) as (G & Hf & Ho).
      split_and!; [done..|]. intros k Hk. apply Ho. intros l [= ? ?]%(eq_trans (eq_sym Hp)). congruence. }
    destruct b.
    - destruct Hc as [env Hc]. destruct (Hother _ _ Hc) as (? & _ & ?). done.
    - destruct Hc as [->|(env & e & Hc)]; [done|]. destruct (Hother _ _ Hc) as (? & Hf & ?).
      split_and!; [done | intros _; by apply Hf | done]. }
  destruct Hj as (G & Hf & Ho). split; [|done]. constructor; [done|].
  intros k h. rewrite Hh. intros Hk. assert (Hne : k <> id) by (intros ->; congruence).
  destruct (Ho k Hne) as [-> ->]. by eapply K2.
Qed.

Lemma hold_table id evts kc kc' u : hold delays id evts kc = (kc', u) ->
  clientOf kc' = clientOf kc /\ exists h, holds kc' = <[id := h]> (holds kc).
Proof.
  unfold hold, bind, putHeld, modify. intros E.
  destruct (scheduleHeld_spec _ _ _ _ _ _ E) as (Hc & h' & Hh & _). cbn [holds set_holds conn] in Hc, Hh.
  split; [done|]. exists h'. by rewrite Hh, insert_insert_eq.
Qed.

(** What seeding queued: the event's position, nothing else. *)
Lemma seeded_boot id log evt last todo kc kc1 : 0 < id ->
  SeedLastMessage (clientOf kc) id last isSeedMessage = (clientOf kc1, Ok (Some evt)) -> same_table kc kc1 ->
  MessagePosition evt = Some (id, log) -> boot kc todo ->
  holds kc1 !! id = None /\ todo id = [] /\
  boot kc1 (fun k => of_chat k (positions [evt]) ++ todo k) /\
  (fresh kc -> fresh kc1 /\ peek (j_commits (journal (clientOf kc1))) id = 0 /\
    peek (j_starts (journal (clientOf kc1))) id = 0).
Proof.
  intros Hid Eseed [Hh Hn] Hp Hb.
  destruct (seed_outcome _ _ _ _ _ _ Eseed) as (_ & (log' & Hp' & Hq) & Hnil & Hck & Hcm & Hst).
  rewrite Hp in Hp'. injection Hp' as <-.
  assert (Hnone : holds kc !! id = None).
  { destruct (holds kc !! id) eqn:Eh; [|done]. by destruct (bt_held _ _ Hb _ _ Eh) as (_ & ? & _). }
  assert (Htodo : todo id = []) by (rewrite <- (bt_free _ _ Hb id Hid Hnone); exact Hnil).
  assert (Hpos : positions [evt] = [(id, log)]) by (unfold positions; cbn [omap list_omap]; by rewrite Hp).
  assert (Hpend : forall k, pending (clientOf kc1) k = if decide (k = id) then [log] else pending (clientOf kc) k).
  { intros k. unfold pending. rewrite Hq. destruct (decide (k = id)) as [->|]; by simplify_map_eq. }
  split_and!; [by rewrite Hh | done | |].
  - destruct Hb as [K1 K2 K3]. constructor.
    + intros k Hk Hk0. rewrite Hh in Hk0. rewrite Hpend, Hpos, of_chat_one. destruct (decide (k = id)) as [->|Hne].
      * by rewrite decide_True, Htodo.
      * rewrite decide_False by done. by apply K1.
    + intros k h Hk. rewrite Hh in Hk. assert (Hne : k <> id) by (intros ->; congruence).
      rewrite Hpend, Hpos, of_chat_one, !decide_False by done. by apply K2.
    + eapply books_same; [split|exact K3]; done.
  - intros [G1 G2]. destruct (good_frame (clientOf kc) (clientOf kc1) Hck G1) as [G3 G4].
    destruct (good_snapshot _ G1) as [Hwf Habs]. destruct (wf_journal_pos _ Hwf) as [P1 P2].
    rewrite (CommittedMax_abs _ Hwf) in Hcm. rewrite (FirstDeliveryStart_abs _ Hwf) in Hst.
    pose proof (peek_nonneg _ id P1). pose proof (peek_nonneg _ id P2). rewrite Habs in *.
    split_and!; [|rewrite G4; lia..]. constructor; [done|]. intros k h. rewrite Hh, G4. apply G2.
Qed.

(** Handling one event of a chat that is not held. *)
Lemma handle_boot id evt todo kc kc' ok : onConn (handleEvent userID login evt) kc = (kc', ok) ->
  0 < id -> at_chat id evt -> todo id = [] -> holds kc !! id = None ->
  boot kc (fun k => of_chat k (positions [evt]) ++ todo k) ->
  boot kc' (fun k => (if ok then [] else of_chat k (positions [evt])) ++ todo k).
Proof.
  intros E Hid Hat Htodo Hnone Hb. destruct ok.
  - eapply boot_ext; [by intros k; rewrite app_nil_l|].
    eapply (deliverRoom_boot id [evt]); [| done | by constructor | done | by intros _ | exact Hb].
    unfold deliverRoom, bind at 1. cbn [drain]. unfold bind at 1. by rewrite E.
  - destruct (handle_pending _ _ _ _ _ _ E) as [P1 [P2 P3]]. destruct Hb as [K1 K2 K3]. constructor.
    + intros k Hk Hk0. rewrite P2 in Hk0. rewrite <- (K1 k Hk Hk0), (P1 k). done.
    + intros k h Hk. rewrite P2 in Hk. pose proof (K2 _ _ Hk) as L. rewrite (P1 k) in L. exact L.
    + eapply books_same; [split|exact K3]; done.
Qed.

Lemma handleSeed_boot id log chat evt todo kc kc' : id = ic_ChatID chat -> 0 < id ->
  MessagePosition evt = Some (id, log) -> todo id = [] -> holds kc !! id = None ->
  boot kc (fun k => of_chat k (positions [evt]) ++ todo k) ->
  (let* delivered := onConn (handleEvent userID login evt) in
   onWorld (releaseInventoryRoom (ic_ChatID chat));*
   if negb delivered then hold delays (ic_ChatID chat) [evt];* ret None
   else match MessagePosition evt with
        | Some (_, logID) =>
            if ic_NewMessageCount chat =? 0
            then onWorld (handleReadState (ReadStateChanged (ic_ChatID chat) userID logID));* ret None
            else ret None
        | None => ret None
        end) kc = (kc', @None SourceError) ->
  boot kc' todo /\
  (fresh kc -> peek (j_commits (journal (clientOf kc))) id = 0 -> peek (j_starts (journal (clientOf kc))) id = 0 ->
   fresh kc').
Proof.
  intros -> Hid Hp Htodo Hnone Hb E. unfold bind at 1 in E. set (id := ic_ChatID chat) in *.
  destruct (onConn (handleEvent userID login evt) kc) as [kc1 ok] eqn:E1.
  assert (Hat : at_chat id evt) by (by exists log).
  pose proof (handle_boot _ _ _ _ _ _ E1 Hid Hat Htodo Hnone Hb) as Hb1.
  assert (Hf1 : fresh kc -> fresh kc1 /\ (ok = false -> journal (clientOf kc1) = journal (clientOf kc)))
    by (by eapply handle_fresh).
  assert (Hn1 : holds kc1 !! id = None) by (by rewrite (proj1 (proj2 (handle_pending _ _ _ _ _ _ E1)))).
  apply (boot_bind _ _ _ _ _ _ (quiet_world _) Hb1) in E as (? & kc2 & Hb2 & Hc2 & Hh2 & E).
  destruct ok; cbn [negb] in E.
  - rewrite Hp in E. assert (Hf2 : fresh kc -> fresh kc2) by (intros Hf; apply (fresh_frame kc1); [done..|by apply Hf1]).
    destruct (ic_NewMessageCount chat =? 0); [|injection E as <-; split; [done|]; intros Hf _ _; by apply Hf2].
    apply (boot_bind _ _ _ _ _ _ (quiet_world _) Hb2) in E as (? & kc3 & Hb3 & Hc3 & Hh3 & E).
    injection E as <-. split; [done|]. intros Hf _ _. by apply (fresh_frame kc2), Hf2.
  - unfold bind in E. destruct (hold delays id [evt] kc2) as [kc3 u] eqn:E3. injection E as <-. split.
    + eapply hold_boot; [exact E3 | done | done | by constructor | done | by rewrite Hh2 | exact Hb2].
    + intros Hf Z1 Z2. destruct (Hf1 Hf) as [[G1 G2] F2]. specialize (F2 eq_refl).
      destruct (hold_table _ _ _ _ _ E3) as [Hc3 [h Hh3]].
      constructor; rewrite Hc3, Hc2; [done|]. intros k h'. rewrite Hh3, Hh2.
      intros [[<- _]|[_ Hk]]%lookup_insert_Some; [by rewrite F2|]. by eapply G2.
Qed.

Lemma seedChat_boot chat todo kc kc' : seedChat userID login delays chat kc = (kc', None) ->
  boot kc todo -> boot kc' todo /\ (fresh kc -> fresh kc').
Proof.
  intros E Hb. unfold seedChat in E. destruct (negb (seedable chat)); [by injection E as <-|].
  unfold bind at 1 in E. destruct (onClient _ kc) as [kc1 seeded] eqn:E1.
  destruct (onClient_spec _ _ _ _ E1) as (store & Es & Ht). clear E1.
  destruct (SeedLastMessage _ _ _ _) as [c r] eqn:Eseed. injection Es as -> _ ->.
  pose proof (seed_outcome _ _ _ _ _ _ Eseed) as Ho.
  assert (Hsame : clientOf kc1 = clientOf kc -> boot kc1 todo /\ (fresh kc -> fresh kc1)).
  { intros Hc. split; [by eapply boot_frame|]. apply fresh_frame; [done | apply Ht]. }
  destruct seeded as [[evt|]|]; [|by injection E as <-; apply Hsame..]. clear Hsame.
  destruct Ho as (Hid & (log & Hp & _) & _).
  destruct (seeded_boot _ _ _ _ _ _ _ Hid Eseed Ht Hp Hb) as (Hnone & Htodo & Hb1 & Hf1).
  apply (boot_bind _ _ _ _ _ _ (quiet_world _) Hb1) in E as (failed & kc2 & Hb2 & Hc2 & Hh2 & E).
  destruct failed; [done|].
  eapply handleSeed_boot in E as [K1 K2]; [|done..|by rewrite Hh2|exact Hb2]. split; [done|].
  intros Hf. destruct (Hf1 Hf) as (F1 & F2 & F3). apply K2; [by apply (fresh_frame kc1)|by rewrite Hc2..].
Qed.

Lemma seedLastMessages_boot todo kc kc' : seedLastMessages userID login delays kc = (kc', None) ->
  boot kc todo -> boot kc' todo /\ (fresh kc -> fresh kc').
Proof.
  intros E Hb. unfold seedLastMessages in E.
  apply (boot_bind _ _ _ _ _ _ (quiet_world _) Hb) in E as (chats & kc1 & Hb1 & Hc1 & Hh1 & E).
  destruct chats as [chats|]; [|done].
  assert (K : boot kc' todo /\ (fresh kc1 -> fresh kc')).
  { clear -E Hb1. revert kc1 E Hb1. induction chats as [|chat chats IH]; intros kc1 E Hb; cbn [seedChats] in E.
    { by injection E as <-. }
    unfold bind in E. destruct (seedChat userID login delays chat kc1) as [kc2 [e|]] eqn:E2; [done|].
    destruct (seedChat_boot _ _ _ _ E2 Hb) as [Hb2 Hf2]. destruct (IH _ E Hb2). auto. }
  destruct K as [K1 K2]. split; [done|]. intros Hf. by apply K2, (fresh_frame kc).
Qed.

(** *** The chain and the whole bootstrap *)

Lemma catchUpChain_boot history kc kc' caught : catchUpChain history kc = (kc', Ok caught) ->
  fresh kc -> boot kc (fun _ => []) ->
  boot kc' (roomLogs (Rooms caught)) /\ NoDup (ChatID <$> Rooms caught) /\
  Forall (fun room => 0 < ChatID room /\ Forall (at_chat (ChatID room)) (Events room)) (Rooms caught).
Proof.
  intros E Hf Hb. unfold catchUpChain, bind at 1 in E.
  destruct (quiet_world chainEnv kc) as [Hc1 [Hh1 Hn1]].
  pose proof (boot_quiet _ _ _ (quiet_world chainEnv) Hb) as Hb1.
  destruct (onWorld chainEnv kc) as [kc1 env]. cbn [fst] in *.
  assert (Hf1 : fresh kc1) by (by apply (fresh_frame kc)).
  unfold bind in E. destruct (onClient _ kc1) as [kc2 r] eqn:E2.
  destruct (onClient_spec _ _ _ _ E2) as (store & Es & Ht).
  destruct r as [result|]; [|done]. injection E as <- <-.
  destruct (CatchUpAll_rooms _ _ _ _ _ _ _ (fr_good _ Hf1) Es) as (K1 & K2 & K3). split_and!; [|done..].
  pose proof (CatchUpAll_queued _ _ _ _ _ _ _ Es) as Hq. destruct Ht as [Hh2 Hn2], Hb1 as [L1 L2 L3].
  assert (Hout : forall k, k ∉ ChatID <$> Rooms result -> roomLogs (Rooms result) k = []).
  { clear -K3. intros k. unfold roomLogs. induction K3 as [|r rs [_ Hr] _ IH]; [done|].
    rewrite fmap_cons. intros [Hne Hk]%not_elem_of_cons.
    change ((r :: rs) ≫= Events) with (Events r ++ (rs ≫= Events)). rewrite positions_app, of_chat_app, IH by done.
    rewrite app_nil_r. apply (of_chat_scoped (ChatID r)); [|done]. eapply Forall_impl; [exact Hr|].
    intros x. apply at_chat_scoped. }
  assert (Hheld : forall k h, holds kc1 !! k = Some h -> roomLogs (Rooms result) k = []).
  { intros k h Hk. apply Hout. rewrite K1. destruct (fr_held _ Hf1 _ _ Hk).
    apply resumed_known; [apply Hf1 | done..]. }
  constructor.
  - intros k Hk Hk0. rewrite Hh2 in Hk0. by rewrite (Hq k Hk), (L1 k Hk Hk0).
  - intros k h Hk. rewrite Hh2 in Hk. destruct (L2 _ _ Hk) as (M0 & M1 & _ & M3).
    assert (Hsame : pending (clientOf kc2) k = pending (clientOf kc1) k).
    { rewrite (Hq k M0). pose proof (Hheld _ _ Hk) as E0. unfold roomLogs in E0. by rewrite E0, app_nil_r. }
    rewrite Hsame. split_and!; [done | done | by eapply Hheld | done].
  - eapply books_same; [split|exact L3]; done.
Qed.

Lemma connected_boot kc : pendingCommits (clientOf kc) = ∅ -> good (clientOf kc) ->
  holds kc = ∅ -> pausedDeliveries kc = 0 -> boot kc (fun _ => []) /\ fresh kc.
Proof.
  intros Hp Hg Hh Hn. split.
  - constructor; rewrite ?Hh.
    + intros k _ _. unfold pending. by rewrite Hp.
    + intros k h. by rewrite lookup_empty.
    + constructor; rewrite Hh; [done | apply map_Forall_empty].
  - constructor; [done|]. intros k h. by rewrite Hh, lookup_empty.
Qed.

Lemma atStage_ok name m k kc kc' : atStage name m k kc = (kc', None) ->
  exists kc1, m kc = (kc1, None) /\ k kc1 = (kc', None).
Proof.
  unfold atStage, bind. destruct (m kc) as [kc1 [e|]]; [done|]. intros E. by exists kc1.
Qed.

Lemma atStage_quiet name (m : state World (option SourceError)) k todo kc kc' :
  atStage name (onWorld m) k kc = (kc', None) -> boot kc todo ->
  exists kc1, boot kc1 todo /\ (fresh kc -> fresh kc1) /\ k kc1 = (kc', None).
Proof.
  intros (kc1 & E1 & E2)%atStage_ok Hb. pose proof (boot_quiet _ _ _ (quiet_world m) Hb) as Hb1.
  destruct (quiet_world m kc) as [Hc [Hh _]]. rewrite E1 in *. cbn [fst] in *.
  exists kc1. split_and!; [done| |done]. by apply fresh_frame.
Qed.

(** The steps between logging in and delivering what was caught up. *)
Lemma middle_boot k todo kc kc' :
  atStage "group-create-recovery" (onWorld resumeGroupCreates) (
    atStage "group-discovery" (onWorld discoverGroups) (
    onWorld personalRevisionDemand;*
    atStage "last-messages" (seedLastMessages userID login delays) (
    atStage "startup-history-delivery" (onWorld checkStartupHistoryDelivery) k))) kc = (kc', None) ->
  boot kc todo -> exists kc1, boot kc1 todo /\ (fresh kc -> fresh kc1) /\ k kc1 = (kc', None).
Proof.
  intros E Hb. apply (atStage_quiet _ _ _ _ _ _ E) in Hb as (kc1 & Hb1 & F1 & E1). clear E.
  apply (atStage_quiet _ _ _ _ _ _ E1) in Hb1 as (kc2 & Hb2 & F2 & E2). clear E1.
  apply (boot_bind _ _ _ _ _ _ (quiet_world _) Hb2) in E2 as (? & kc3 & Hb3 & Hc3 & Hh3 & E3).
  apply atStage_ok in E3 as (kc4 & E4 & E5). destruct (seedLastMessages_boot _ _ _ E4 Hb3) as [Hb4 F4].
  apply (atStage_quiet _ _ _ _ _ _ E5) in Hb4 as (kc5 & Hb5 & F5 & E6).
  exists kc5. split_and!; [done| |done]. intros Hf. apply F5, F4, (fresh_frame kc2); [done..|]. auto.
Qed.

(** Delivering what was caught up, and subscribing. *)
Lemma finish_boot caught kc kc' :
  atStage "catch-up" (catchUp userID login delays caught) (atStage "events" (onWorld Subscribe) (ret None)) kc
    = (kc', None) ->
  NoDup (ChatID <$> Rooms caught) ->
  Forall (fun room => 0 < ChatID room /\ Forall (at_chat (ChatID room)) (Events room)) (Rooms caught) ->
  boot kc (roomLogs (Rooms caught)) -> boot kc' (fun _ => []).
Proof.
  intros (kc1 & E1 & E2)%atStage_ok Hnd Hat Hb. pose proof (catchUp_boot _ _ _ E1 Hnd Hat Hb) as Hb1.
  apply (atStage_quiet _ _ _ _ _ _ E2) in Hb1 as (kc2 & Hb2 & _ & E3). by injection E3 as <-.
Qed.

Lemma connectAndSubscribe_boot kc kc' : connectAndSubscribe userID login delays kc = (kc', None) ->
  pendingCommits (clientOf kc) = ∅ -> good (clientOf kc) -> boot kc' (fun _ => []).
Proof.
  intros E Hp Hg. unfold connectAndSubscribe, bind at 1, modify in E.
  apply atStage_ok in E as (kc1 & E1 & E).
  assert (Hstart : boot kc1 (fun _ => []) /\ fresh kc1).
  { unfold connectClient in E1. cbn [conn set_pausedDeliveries set_holds] in E1.
    pose proof (Connect_client (clientOf kc) (world (conn kc))) as Hlaw.
    destruct (Connect (clientOf kc) (world (conn kc))) as [w [c failed]]. injection E1 as <- _.
    destruct Hlaw as [L1 L2]. apply connected_boot; simpl; [congruence | by apply L2 | done | done]. }
  destruct Hstart as [Hb Hf]. clear E1. cbv zeta in E. destruct historyEnabled.
  - unfold withChain, bind at 1 in E. destruct (catchUpChain _ kc1) as [kc2 [caught|e]] eqn:E2; [|done].
    destruct (catchUpChain_boot _ _ _ _ E2 Hf Hb) as (Hb2 & Hnd & Hat).
    apply (middle_boot _ _ _ _ E) in Hb2 as (kc3 & Hb3 & _ & E3). by eapply finish_boot.
  - apply (middle_boot _ _ _ _ E) in Hb as (kc2 & Hb2 & Hf2 & E2).
    unfold withChain, bind at 1 in E2. destruct (catchUpChain _ kc2) as [kc3 [caught|e]] eqn:E3; [|done].
    destruct (catchUpChain_boot _ _ _ _ E3 (Hf2 Hf) Hb2) as (Hb3 & Hnd & Hat). by eapply finish_boot.
Qed.
End Boot.
