(* ===== verification/PumpTheorems.v ===== *)
(** * Theorems about the event pump

    A session of the connector as a transition system: packets arrive, and the
    pump takes what the stream gives it, retries held chats and resumes them
    (src/internal/bridge/connector/lifecycle.go, delivery_hold.go).  Nothing of
    a chat is handed to Matrix out of the order its commits were queued in. *)

From S2P Require Import Prelude.
From S2P Require Import Bytes Bson Events Continuity ContinuitySpec ContinuityProps ContinuityTheorems.
From S2P Require Import Delivery CatchUp BulkCatchUp ProtocolTheorems ClientFacts Demo CommitOrder.
From S2P Require Import Handling Holds Pump BridgeDemo HandlingTheorems PumpFacts PumpOrder BootstrapFacts.
From S2P Require PrivateJson SyncMsg.

#[local] Open Scope string_scope.
#[local] Open Scope list_scope.
#[local] Open Scope Z_scope.

Section Session.
Context `{EventContent} {AS : AcquiredStore} {BR : Bridge} {SU : Startup}.
Context (userID : Z) (login : string) (delays : list Z).

Abbreviation clientOf kc := (source (conn kc)).

(** The connector's state, the stream's worker and whether it still runs, what
    it emitted and the pump has not taken, the pump's loop, and whether some
    held chat's buffer has been full at any time. *)
Record Session := mkSession {
  s_kc : KakaoClient;
  s_stream : Stream;
  s_live : bool;
  s_chan : list Result;
  s_run : RunState;
  s_full : bool;
}.

Definition withClient (c : Client) (kc : KakaoClient) : KakaoClient :=
  mkKakao (mkConn c (world (conn kc))) (acquired kc) (holds kc) (pausedDeliveries kc) (deliveryResume kc).

(** What the pump's [select] may take, and what is left on the stream. *)
Definition takes (s : Session) (selected : Selected) (chan : list Result) : Prop :=
  match selected with
  | FromStream (Some result) => s_chan s = result :: chan
  | FromStream None => s_chan s = [] /\ chan = [] /\ s_live s = false
  | _ => chan = s_chan s
  end.

Inductive session_step : Session -> Session -> Prop :=
| step_arrive env packet s c st out go :
    s_live s = true ->
    handlePacket env (clientOf (s_kc s)) (s_stream s) packet = (c, st, out, go) ->
    session_step s (mkSession (withClient c (s_kc s)) st go (s_chan s ++ out) (s_run s) (s_full s))
| step_pump selected s chan kc r :
    running (s_run s) = true -> takes s selected chan ->
    runStep userID login delays (s_run s) selected (s_kc s) = (kc, r) ->
    session_step s (mkSession kc (s_stream s) (s_live s) chan r (s_full s || anyFull (holds kc))).

(** A session as its bootstrap leaves it. *)
Definition subscribed (kc : KakaoClient) : Session :=
  mkSession kc initialStream true [] initialRun (anyFull (holds kc)).

(** *** The commit queues *)

Definition chanLogs (s : Session) (k : Z) : list Z := of_chat k (positions (resultEvents (s_chan s))).

Record ordered (s : Session) : Prop := {
  or_full : anyFull (holds (s_kc s)) = false;
  or_own : own (s_kc s);
  or_aligned : exists rest, aligned (s_kc s) (fun k => chanLogs s k ++ rest k) /\
    (s_live s = true -> forall k, rest k = []);
}.

Definition session_inv (s : Session) : Prop :=
  books delays (s_kc s) /\
  (s_full s = false -> anyFull (holds (s_kc s)) = false) /\
  (s_full s = false -> noticed (s_run s) = false -> ordered s).

Lemma subscribed_inv kc : boot delays kc (fun _ => []) -> session_inv (subscribed kc).
Proof.
  intros [K1 K2 K3]. split_and!; [done | done |]. cbn [s_full subscribed]. intros Hf _.
  assert (Hown : forall k h, holds kc !! k = Some h ->
    own_held k h /\ pending (clientOf kc) k = of_chat k (positions (events h))).
  { intros k h Hk. destruct (K2 _ _ Hk) as (_ & _ & _ & K). apply K. by eapply anyFull_lookup. }
  constructor; [done | intros k h Hk; by apply Hown |]. exists (fun _ => []). split; [|done].
  intros k Hk. unfold chanLogs, heldLogs. simpl. rewrite app_nil_r.
  destruct (holds kc !! k) as [h|] eqn:Eh; [by apply Hown | by apply K1].
Qed.

Lemma resultEvents_app l1 l2 : resultEvents (l1 ++ l2) = resultEvents l1 ++ resultEvents l2.
Proof. apply omap_app. Qed.

Lemma arrive_ordered env packet s c st out go :
  s_live s = true -> handlePacket env (clientOf (s_kc s)) (s_stream s) packet = (c, st, out, go) ->
  ordered s -> ordered (mkSession (withClient c (s_kc s)) st go (s_chan s ++ out) (s_run s) (s_full s)).
Proof.
  intros Hlive E [Hf Ho (rest & Ha & Hrest)]. constructor; [done | done |].
  destruct (handlePacket_queued _ _ _ _ _ _ _ _ E) as (l & Hq & Hout & _ & Hgo).
  assert (Hal : forall f, (forall k, of_chat k (positions (resultEvents out)) ++ f k = of_chat k l) ->
    aligned (withClient c (s_kc s)) (fun k => chanLogs (mkSession (withClient c (s_kc s)) st go
      (s_chan s ++ out) (s_run s) (s_full s)) k ++ f k)).
  { intros f Hl k Hk. cbn [withClient conn source holds].
    rewrite (Hq k Hk), (Ha k Hk), (Hrest Hlive k), app_nil_r, <- app_assoc. unfold chanLogs. cbn [s_chan].
    by rewrite resultEvents_app, positions_app, of_chat_app, <- app_assoc, Hl. }
  destruct Hout as [Hout|[_ Hout]].
  - exists (fun _ => []). split; [|done]. apply Hal. intros k. by rewrite Hout, app_nil_r.
  - exists (fun k => of_chat k l). split; [apply Hal; intros k; by rewrite Hout|].
    cbn [s_live]. intros Hg k. by rewrite <- (Hgo Hg), Hout.
Qed.

Lemma arrive_inv env packet s c st out go :
  s_live s = true -> handlePacket env (clientOf (s_kc s)) (s_stream s) packet = (c, st, out, go) ->
  session_inv s -> session_inv (mkSession (withClient c (s_kc s)) st go (s_chan s ++ out) (s_run s) (s_full s)).
Proof.
  intros Hlive E (Hb & Hf & Ho). split_and!.
  - eapply books_same; [|exact Hb]. done.
  - exact Hf.
  - intros F N. eapply arrive_ordered; [done | exact E | by apply Ho].
Qed.

Lemma pump_inv selected s chan kc r :
  takes s selected chan -> runStep userID login delays (s_run s) selected (s_kc s) = (kc, r) ->
  session_inv s -> session_inv (mkSession kc (s_stream s) (s_live s) chan r (s_full s || anyFull (holds kc))).
Proof.
  intros Ht E (Hb & Hf & Ho). split_and!.
  - by eapply runStep_books.
  - cbn [s_full s_kc]. by intros [_ ?]%orb_false_iff.
  - cbn [s_full s_run]. intros [F1 F2]%orb_false_iff N.
    pose proof (runStep_noticed _ _ _ _ _ _ _ _ E N) as N0.
    destruct (Ho F1 N0) as [_ Hown (rest & Ha & Hrest)].
    assert (Hchan : forall k, chanLogs s k = of_chat k (positions (resultEvents (taken selected))) ++
      of_chat k (positions (resultEvents chan))).
    { intros k. unfold chanLogs. destruct selected as [? ?|?|?|[result|]]; simpl in Ht |- *.
      1-3: by rewrite Ht.
      - rewrite Ht. change (result :: chan) with ([result] ++ chan).
        by rewrite resultEvents_app, positions_app, of_chat_app.
      - by destruct Ht as (-> & -> & _). }
    destruct (runStep_aligned _ _ _ _ _ (fun k => of_chat k (positions (resultEvents chan)) ++ rest k) _ _ _ E N0
      (Hf F1) F2 Hown) as [Hown' Ha'].
    + eapply aligned_ext; [|exact Ha]. intros k _. cbn beta. by rewrite Hchan, <- app_assoc.
    + constructor; [done | done |]. by exists rest.
Qed.

Lemma session_steps_inv s s' : rtc session_step s s' -> session_inv s -> session_inv s'.
Proof.
  induction 1 as [|s1 s2 s3 Hs _ IH]; [done|]. intros Hi. apply IH.
  destruct Hs; [by eapply arrive_inv | by eapply pump_inv].
Qed.

(** C2: whatever fails and is retried, a session hands each chat's events to
    Matrix in the order their commits were queued, and no commit is refused for
    its order.  From a successful bootstrap on, while no held chat's buffer has
    been full and no terminal notice has come, a chat's queue of awaited commits
    begins with its held events followed by its events still on the stream, and
    is exactly these while the stream's worker runs. *)
Theorem pump_keeps_order kc0 kc s k :
  connectAndSubscribe userID login delays kc0 = (kc, None) ->
  pendingCommits (clientOf kc0) = ∅ -> good (clientOf kc0) ->
  rtc session_step (subscribed kc) s ->
  s_full s = false -> noticed (s_run s) = false -> 0 < k ->
  exists rest : list Z,
    pending (clientOf (s_kc s)) k = heldLogs (holds (s_kc s)) k ++ chanLogs s k ++ rest /\
    (s_live s = true -> rest = []) /\
    (forall evt log env c, MessagePosition evt = Some (k, log) ->
       head (heldLogs (holds (s_kc s)) k ++ chanLogs s k) = Some log ->
       CommitEvent env (clientOf (s_kc s)) evt <> (c, Some errCommitOrder)).
Proof.
  intros E Hp Hg Hsteps Hf Hn Hk.
  pose proof (subscribed_inv _ (connectAndSubscribe_boot _ _ _ _ _ E Hp Hg)) as Hi.
  destruct (session_steps_inv _ _ Hsteps Hi) as (_ & _ & Ho). destruct (Ho Hf Hn) as [_ _ (rest & Ha & Hrest)].
  exists (rest k). split_and!; [by apply Ha | intros Hl; by apply Hrest |].
  intros evt log env c Hpos Hhead Hc. pose proof (Ha k Hk) as Hq. cbn beta in Hq. rewrite app_assoc in Hq.
  unfold CommitEvent in Hc. rewrite Hpos in Hc. destruct (closed _); [done|]. destruct (sys_store _); [|done].
  rewrite Hq in Hc. destruct (heldLogs _ k ++ chanLogs s k) as [|x l]; [done|]. simpl in Hhead, Hc.
  injection Hhead as ->. rewrite Z.eqb_refl in Hc. simpl in Hc.
  by destruct (CommitMessage _ _ _ _) as [[sys a] [e|]].
Qed.

(** The count of paused chats that the bridge state reports is the number of
    held chats that are paused, and a held chat is retried on a timer only
    within the retry schedule, whatever happens in the session. *)
Theorem pauses_are_counted kc0 kc s :
  connectAndSubscribe userID login delays kc0 = (kc, None) ->
  pendingCommits (clientOf kc0) = ∅ -> good (clientOf kc0) ->
  rtc session_step (subscribed kc) s ->
  pausedDeliveries (s_kc s) = count (holds (s_kc s)) /\
  forall k h, holds (s_kc s) !! k = Some h -> is_Some (due h) -> (attempts h < length delays)%nat.
Proof.
  intros E Hp Hg Hsteps.
  pose proof (subscribed_inv _ (connectAndSubscribe_boot _ _ _ _ _ E Hp Hg)) as Hi.
  destruct (session_steps_inv _ _ Hsteps Hi) as ([K1 K2] & _). split; [done|]. intros k h Hk. by apply (K2 k).
Qed.
End Session.

(** ** An overflowed chat *)

Section Overflow.
Context `{EventContent} {AS : AcquiredStore} {BR : Bridge}.
Context (userID : Z) (login : string) (delays : list Z).

Abbreviation clientOf kc := (source (conn kc)).

Lemma released_run id h kc kc' u missed :
  retryLoop userID login delays 1 id (set_missed 0 (set_events missed h)) kc = (kc', u) ->
  holds kc' !! id = None ->
  forall k, pending (clientOf kc) k = of_chat k (positions missed) ++ pending (clientOf kc') k.
Proof.
  intros E Hnone k. cbn [retryLoop events set_missed set_events missedThrough] in E. unfold bind in E.
  destruct (drain userID login missed kc) as [kc1 rest] eqn:Ed.
  destruct (drain_spec _ _ _ _ _ _ Ed) as (delivered & -> & Hp & _). destruct rest as [|e rest].
  - destruct (release_spec _ _ _ _ _ E) as (-> & _). by rewrite app_nil_r.
  - destruct (scheduleHeld_spec _ _ _ _ _ _ E) as (_ & h' & Hh & _). by rewrite Hh, lookup_insert_eq in Hnone.
Qed.

(** C24: a chat whose buffer overflowed is not really resumed by the catch-up
    that reads its dropped interval.  The dropped positions still await their
    commits from when the stream emitted them, and [CatchUp] queues them again;
    when the retry has delivered and committed everything and released the chat,
    the first set of them remains queued, and the commit of any later message of
    the chat is refused, so the chat is held again and stays so for the rest of
    the session. *)
Theorem overflowed_chat_stays_blocked id h dropped kc kc' u evt log env :
  holds kc !! id = Some h -> 0 < id -> 0 < missedThrough h ->
  pending (clientOf kc) id = of_chat id (positions (events h)) ++ dropped ->
  dropped <> [] -> Forall (fun l => l <= missedThrough h) dropped ->
  retryHeld userID login delays id kc = (kc', u) -> holds kc' !! id = None ->
  MessagePosition evt = Some (id, log) -> missedThrough h < log ->
  pending (clientOf kc') id ≡ₚ dropped /\ (CommitEvent env (clientOf kc') evt).2 <> None.
Proof.
  intros Eh Hid Hm Hpend Hne Hall E Hnone Hpos Hlog.
  assert (Hperm : pending (clientOf kc') id ≡ₚ dropped).
  { unfold retryHeld, bind at 1, gets in E. rewrite Eh in E. unfold retryFuel in E.
    cbn [retryLoop] in E. unfold bind at 1 in E.
    destruct (drain userID login (events h) kc) as [kc1 rest] eqn:Ed.
    destruct (drain_spec _ _ _ _ _ _ Ed) as (delivered & Ev & Hp & Ht).
    destruct rest as [|e rest].
    2: { destruct (scheduleHeld_spec _ _ _ _ _ _ E) as (_ & h' & Hh & _). by rewrite Hh, lookup_insert_eq in Hnone. }
    rewrite app_nil_r in Ev. subst delivered. rewrite Hp in Hpend. apply app_inv_head in Hpend.
    rewrite (proj2 (Z.eqb_neq _ _)) in E by lia. unfold bind at 1 in E.
    destruct (readMissed id (missedThrough h) kc1) as [kc2 [missed|e]] eqn:Er;
      destruct (readMissed_spec _ _ _ _ _ Er) as [Hq Ht2].
    2: { destruct (scheduleHeld_spec _ _ _ _ _ _ E) as (_ & h' & Hh & _). by rewrite Hh, lookup_insert_eq in Hnone. }
    pose proof (released_run _ _ _ _ _ _ E Hnone id) as Hr. rewrite (Hq id Hid), Hpend in Hr.
    eapply (Permutation_app_inv_l (of_chat id (positions missed))). rewrite <- Hr. apply Permutation_app_comm. }
  split; [done|]. unfold CommitEvent. rewrite Hpos. destruct (closed _); [done|]. destruct (sys_store _); [|done].
  destruct (pending (clientOf kc') id) as [|x l]; [done|].
  assert (Hx : x <= missedThrough h).
  { rewrite Forall_forall in Hall. apply Hall. rewrite <- Hperm. by left. }
  by rewrite (proj2 (Z.eqb_neq x log)) by lia.
Qed.
End Overflow.

(** ** A concrete session

    The first recovered message of chat 7 is refused by Matrix, so the chat is
    held with both; a live message joins them, and the retry delivers all. *)

#[local] Existing Instances demoStore demoBridge demoStartup.

Definition demoKakao (refusals : list bool) (logs : list tree) : KakaoClient :=
  mkKakao (demoConn refusals logs demoClient) None ∅ 0 false.

Definition demoBoot : KakaoClient * option bootstrapFailure :=
  connectAndSubscribe 1 "1" heldChatRetryDelays (demoKakao [true] [demoLog 20 10 "a"; demoLog 30 20 "b"]).

(** One packet, then what the pump takes. *)
Definition arrived (log : Z) (s : Session) : Session :=
  let '(c, st, out, go) := handlePacket deliverOk (source (conn (s_kc s))) (s_stream s) (demoMessage log) in
  mkSession (withClient c (s_kc s)) st go (s_chan s ++ out) (s_run s) (s_full s).

Definition pumped (selected : Selected) (s : Session) : Session :=
  let chan := match selected with FromStream (Some _) => tail (s_chan s) | _ => s_chan s end in
  let '(kc, r) := runStep 1 "1" heldChatRetryDelays (s_run s) selected (s_kc s) in
  mkSession kc (s_stream s) (s_live s) chan r (s_full s || anyFull (holds kc)).

Definition nextResult (s : Session) : Selected := FromStream (head (s_chan s)).

Definition booted : KakaoClient := demoBoot.1.

#[local] Strategy expand [booted demoBoot].

Definition s0 : Session := subscribed booted.
Definition s1 : Session := arrived 31 s0.
Definition s2 : Session := pumped (nextResult s1) s1.
Definition s3 : Session := arrived 32 s2.
Definition s4 : Session := pumped (HeldRetry (5 * second) [7]) s3.

Lemma arrived_step log s : s_live s = true -> session_step 1 "1" heldChatRetryDelays s (arrived log s).
Proof.
  intros Hl. unfold arrived.
  destruct (handlePacket deliverOk (source (conn (s_kc s))) (s_stream s) (demoMessage log)) as [[[c st] out] go] eqn:E.
  by eapply step_arrive.
Qed.

Lemma pumped_step selected s : running (s_run s) = true ->
  match selected with
  | FromStream None => False
  | FromStream (Some result) => s_chan s = result :: tail (s_chan s)
  | _ => True
  end -> session_step 1 "1" heldChatRetryDelays s (pumped selected s).
Proof.
  intros Hr Ht. unfold pumped. destruct (runStep _ _ _ _ _ _) as [kc r] eqn:E.
  eapply step_pump; [done | | exact E]. by destruct selected as [| | |[]].
Qed.

Lemma demo_s4 : rtc (session_step 1 "1" heldChatRetryDelays) (subscribed booted) s4.
Proof.
  change (subscribed booted) with s0.
  eapply rtc_l; [apply (arrived_step 31); vm_compute; reflexivity|].
  eapply rtc_l; [apply (pumped_step (nextResult s1)); vm_compute; reflexivity|].
  eapply rtc_l; [apply (arrived_step 32); vm_compute; reflexivity|].
  apply rtc_once, (pumped_step (HeldRetry (5 * second) [7])); [vm_compute; reflexivity | done].
Qed.

Lemma demo_s2 : rtc (session_step 1 "1" heldChatRetryDelays) (subscribed booted) s2.
Proof.
  change (subscribed booted) with s0.
  eapply rtc_l; [apply (arrived_step 31); vm_compute; reflexivity|].
  apply rtc_once, (pumped_step (nextResult s1)); vm_compute; reflexivity.
Qed.

(** Chat 7 is held with three messages in [s2]; in [s4] the retry has delivered
    them and only message 32 is still on the stream. *)
Example demo_pending :
  pending (source (conn (s_kc s2))) 7 = [20; 30; 31] /\ heldLogs (holds (s_kc s2)) 7 = [20; 30; 31] /\
  pending (source (conn (s_kc s4))) 7 = [32] /\ holds (s_kc s4) !! 7 = None /\ chanLogs s4 7 = [32].
Proof. split_and!; vm_compute; reflexivity. Qed.

Lemma demoKakao_ready refusals logs :
  pendingCommits (source (conn (demoKakao refusals logs))) = ∅ /\ good (source (conn (demoKakao refusals logs))).
Proof. split; [reflexivity | apply demoClient_good]. Qed.

Lemma succeeded (p : KakaoClient * option bootstrapFailure) kc :
  p.1 = kc -> match p.2 with None => true | Some _ => false end = true -> p = (kc, None).
Proof. by destruct p as [? [?|]]; simpl; intros ->. Qed.

Lemma demoBoot_ok :
  connectAndSubscribe 1 "1" heldChatRetryDelays (demoKakao [true] [demoLog 20 10 "a"; demoLog 30 20 "b"]) =
  (booted, None).
Proof. unfold booted, demoBoot. apply succeeded; [reflexivity | vm_compute; reflexivity]. Qed.

Lemma s2_runs : s_full s2 = false /\ noticed (s_run s2) = false.
Proof. split; vm_compute; reflexivity. Qed.

Lemma pump_keeps_order_witness :
  exists rest : list Z, pending (source (conn (s_kc s2))) 7 = heldLogs (holds (s_kc s2)) 7 ++ chanLogs s2 7 ++ rest.
Proof.
  destruct (demoKakao_ready [true] [demoLog 20 10 "a"; demoLog 30 20 "b"]) as [K1 K2].
  destruct s2_runs as [F R].
  destruct (pump_keeps_order 1 "1" heldChatRetryDelays _ booted s2 7 demoBoot_ok K1 K2 demo_s2 F R ltac:(lia))
    as (rest & Hq & _).
  exists rest. exact Hq.
Defined.

Lemma pauses_are_counted_witness : pausedDeliveries (s_kc s4) = count (holds (s_kc s4)).
Proof.
  destruct (demoKakao_ready [true] [demoLog 20 10 "a"; demoLog 30 20 "b"]) as [K1 K2].
  exact (proj1 (pauses_are_counted 1 "1" heldChatRetryDelays _ booted s4 demoBoot_ok K1 K2 demo_s4)).
Defined.

(** A full buffer drops the events after the 1024th. *)
Example overflow_drops :
  let h := foldl add newHeld (demoEvent <$> seqZ 11 1026) in
  length (events h) = maxHeldEvents /\ missedThrough h = 1036.
Proof. split; vm_compute; reflexivity. Qed.

(** Messages 20 and 30 of chat 7 were dropped; the retry reads and delivers them
    again, and message 31 can no longer be committed. *)
Definition overflowed : KakaoClient :=
  mkKakao (demoConn [] [demoLog 20 10 "a"; demoLog 30 20 "b"]
             (queueCommit (queueCommit demoClient 7 20) 7 30))
    None {[7 := mkHeld _ _ [] 5 None true 30]} 1 false.

Definition overflowRetry : KakaoClient * unit := retryHeld 1 "1" heldChatRetryDelays 7 overflowed.

Lemma overflow_facts :
  holds overflowed !! 7 = Some (mkHeld _ _ [] 5 None true 30) /\
  pending (source (conn overflowed)) 7 = [20; 30] /\
  holds overflowRetry.1 !! 7 = None.
Proof. split_and!; vm_compute; reflexivity. Qed.

Lemma overflowed_chat_stays_blocked_witness :
  pending (source (conn overflowRetry.1)) 7 ≡ₚ [20; 30] /\
  (CommitEvent PrivateJson.writeOk (source (conn overflowRetry.1)) (demoEvent 31)).2 <> None.
Proof.
  destruct overflow_facts as (H1 & H2 & H3).
  refine (overflowed_chat_stays_blocked 1 "1" heldChatRetryDelays 7 _ [20; 30] overflowed overflowRetry.1
    overflowRetry.2 (demoEvent 31) 31 PrivateJson.writeOk H1 _ _ H2 _ _ (surjective_pairing _) H3 _ _);
    [lia | cbn; lia | done | repeat constructor; cbn; lia | vm_compute; reflexivity | cbn; lia].
Defined.
