(* ===== verification/RecoverySchedule.v ===== *)
(** * The recovery schedule (src/internal/bridge/connector/recovery_schedule.go)

    An episode of login attempts: the first attempt starts it, a failed one is
    repeated after a fixed delay, and a watchdog ends it.  Times and durations
    are nanoseconds. *)

From S2P Require Import Prelude.

#[local] Open Scope list_scope.
#[local] Open Scope Z_scope.

Definition millisecond : Z := 1000000.

Definition firstRecoveryDelay : Z := 100 * millisecond.
Definition episodeRetryDelay : Z := 10 * 1000 * millisecond.
Definition episodeWatchdog : Z := 600 * 1000 * millisecond.

Record recoverySchedule := mkSchedule {
  episodeAt : option Z; (* None: the zero time *)
  attempt : nat;
  gaveUp : bool;
}.

Definition noSchedule : recoverySchedule := mkSchedule None 0 false.

Definition active (s : recoverySchedule) : bool :=
  match episodeAt s with Some _ => true | None => false end.

(** The new state, and whether the attempt starts an episode. *)
Definition begin (now : Z) (s : recoverySchedule) : recoverySchedule * bool :=
  match episodeAt s with
  | Some _ => (s, false)
  | None => (mkSchedule (Some now) 0 (gaveUp s), true)
  end.

Definition succeeded (s : recoverySchedule) : recoverySchedule := mkSchedule None 0 (gaveUp s).

(** The delay before the next attempt; [None] leaves the episode to its watchdog. *)
Definition failed (now : Z) (s : recoverySchedule) : recoverySchedule * option Z :=
  let s := (begin now s).1 in
  let s := mkSchedule (episodeAt s) (S (attempt s)) (gaveUp s) in
  match episodeAt s with
  | Some at_ =>
      if negb (now + episodeRetryDelay <? at_ + episodeWatchdog) then (s, None)
      else (s, Some episodeRetryDelay)
  | None => (s, None) (* [begin] has set it *)
  end.

(** Until the watchdog of the running episode. *)
Definition watchdogDelay (now : Z) (s : recoverySchedule) : Z :=
  match episodeAt s with
  | Some at_ => Z.max (at_ + episodeWatchdog - now) 0
  | None => Z.max (episodeWatchdog - now) 0
  end.

(** ** An episode *)

(** Attempts that failed at the given times, all granted another one. *)
Fixpoint granted (s : recoverySchedule) (failures : list Z) : option recoverySchedule :=
  match failures with
  | [] => Some s
  | now :: failures =>
      match failed now s with
      | (s, Some _) => granted s failures
      | (_, None) => None
      end
  end.

(** Each attempt fails no sooner than it was scheduled. *)
Fixpoint spaced (from : Z) (failures : list Z) : Prop :=
  match failures with
  | [] => True
  | now :: failures => from <= now /\ spaced (now + episodeRetryDelay) failures
  end.

Lemma failed_running at_ n g now :
  failed now (mkSchedule (Some at_) n g) =
  (mkSchedule (Some at_) (S n) g,
   if now + episodeRetryDelay <? at_ + episodeWatchdog then Some episodeRetryDelay else None).
Proof. unfold failed. cbn. by destruct (_ <? _). Qed.

Lemma granted_bound at_ n g failures s from :
  granted (mkSchedule (Some at_) n g) failures = Some s ->
  at_ + Z.of_nat n * episodeRetryDelay <= from -> spaced from failures ->
  (n < 60)%nat ->
  s = mkSchedule (Some at_) (n + length failures) g /\ (n + length failures < 60)%nat /\
  Forall (fun now => now + episodeRetryDelay < at_ + episodeWatchdog) failures.
Proof.
  revert n from. induction failures as [|now failures IH]; intros n from E Hf Hs Hn.
  - injection E as <-. simpl. rewrite Nat.add_0_r. done.
  - cbn [granted] in E. rewrite failed_running in E. destruct Hs as [Hs1 Hs2].
    destruct (now + episodeRetryDelay <? at_ + episodeWatchdog) eqn:Hd; [|done].
    assert (n < 59)%nat by (unfold episodeRetryDelay, episodeWatchdog, millisecond in *; lia).
    destruct (IH (S n) (now + episodeRetryDelay) E) as (-> & Hb & Hall); [lia | done | lia |].
    simpl. rewrite <- plus_n_Sm. split_and!; [done | simpl in Hb; lia |]. constructor; [lia | done].
Qed.

(** A recovery episode is bounded: after its first attempt at [t0] at most 59
    failed attempts are granted another one, every granted attempt starts before
    the watchdog, and the watchdog is due within 600 s whatever was tried. *)
Theorem episode_bounded t0 g failures s now :
  granted (begin t0 (mkSchedule None 0 g)).1 failures = Some s -> spaced t0 failures -> t0 <= now ->
  attempt s = length failures /\ (length failures <= 59)%nat /\
  Forall (fun t => t + episodeRetryDelay < t0 + episodeWatchdog) failures /\
  active s = true /\ 0 <= watchdogDelay now s <= episodeWatchdog.
Proof.
  intros E Hs Hnow. cbn in E.
  destruct (granted_bound t0 0 g failures s t0 E) as (-> & Hb & Hall); [lia | done | lia |].
  unfold watchdogDelay. cbn. split_and!; [done | lia | done | done | lia |].
  unfold episodeWatchdog, millisecond. lia.
Qed.

(** An attempt that fails as late as it may still be granted one more: 59 failures
    10 s apart, and none after. *)
Definition demoFailures : list Z := (fun i => i * episodeRetryDelay) <$> seqZ 0 59.

Lemma episode_bounded_witness : exists s : recoverySchedule,
  granted (begin 0 noSchedule).1 demoFailures = Some s /\ attempt s = 59%nat /\
  (failed (59 * episodeRetryDelay) s).2 = None.
Proof.
  assert (E : granted (begin 0 noSchedule).1 demoFailures = Some (mkSchedule (Some 0) 59 false))
    by (vm_compute; reflexivity).
  assert (Hs : spaced 0 demoFailures) by (vm_compute; repeat split; discriminate).
  destruct (episode_bounded 0 false demoFailures _ 0 E Hs ltac:(lia)) as (Ha & _).
  exists (mkSchedule (Some 0) 59 false). split_and!; [exact E | exact Ha | vm_compute; reflexivity].
Defined.
