(* ===== verification/Lifecycle.v ===== *)
(** * The connection lifecycle (src/internal/bridge/connector/lifecycle.go)

    Goroutines share the fields of [connLifecycle] under one mutex.  Each is
    modelled as a thread at a program point, and [threadStep] is what it does
    there: one critical section, or one blocking call whose outcome is an
    argument, and whatever it does between.  [step] interleaves them.

    A context is a reason for a call to fail: cancelled or not, the model lets
    every wait and every blocking call fail at any time, so it has every behaviour
    of the code.  The joins of Disconnect wait with a timeout and change nothing.
    The profile lease (client/lease_unix.go) admits one open client; a client
    holds it from [open] until a Shutdown succeeds.  Counters are unbounded: the
    code's have 64 bits and are incremented once per attempt. *)

From S2P Require Import Prelude.
From S2P Require Import Pump RecoverySchedule.

#[local] Open Scope string_scope.
#[local] Open Scope list_scope.
#[local] Open Scope nat_scope.

(** ** Errors *)

(** [errors.Is(err, errDeliveryNotConfirmed)] and the like of a bootstrap failure. *)
Definition isDeliveryNotConfirmed (f : bootstrapFailure) : bool :=
  match failure f with errDeliveryNotConfirmed => true | _ => false end.

Definition retryableRecoveryError (f : bootstrapFailure) : bool :=
  match failure f with
  | ErrSignedOut => false
  | e =>
      if String.eqb (stage f) "catch-up" then isDeliveryNotConfirmed f else
      match e with
      | StatusError command status => negb (String.eqb command "LOGINLIST") || negb (Z.eqb status (-445))
      | ErrLogin | ErrCredentialRenewal | ErrTransport => true
      | _ => false
      end
  end.

(** The bridge states that the lifecycle reports. *)
Inductive Report :=
| Connecting
| Ready (* what sendReadyState sends *)
| ProfileUnavailable
| ConnectFailed
| GroupAccessRemoved
| GroupMembershipPending
| GroupCreateUnresolved
| UnidentifiableMsg
| GroupMembershipInvalid
| KickedOutReport
| ChangeServerReport
| DeliveryPaused
| Disconnected
| RecoveryStopped.

(** ** State *)

(** An opened client, by the order of opening.  Its event pump's channel [done]
    is named by the client, which has at most one. *)
Abbreviation Owner := nat (only parsing).

(** [worker]: whether it runs, and the number of its latest start or stop. *)
Record worker := mkWorker { running : bool; id : nat }.

Record ownerCleanup := mkCleanup {
  pumpDone : option Owner;
  cleanupDone : bool; (* the channel [done] exists *)
  busy : bool;
}.

Record connLifecycle := mkLifecycle {
  client : option Owner; (* the connected session *)
  done : option Owner; (* its pump's channel *)
  cleanup : option Owner; (* the profile owner *)
  retained : ownerCleanup;
  generation : nat;
  connecting : bool;
  connectingGeneration : nat;
  stopping : bool;
  lifecycle : bool; (* its context exists *)
  retry : worker;
  schedule : recoverySchedule;
  watchdog : option nat; (* the armed timer *)
  connectedAt : Z;
  cleanupRetry : worker;
  cleanupRetryAttempts : nat;
}.

Definition set_client v s := mkLifecycle v (done s) (cleanup s) (retained s) (generation s) (connecting s)
  (connectingGeneration s) (stopping s) (lifecycle s) (retry s) (schedule s) (watchdog s) (connectedAt s)
  (cleanupRetry s) (cleanupRetryAttempts s).
Definition set_done v s := mkLifecycle (client s) v (cleanup s) (retained s) (generation s) (connecting s)
  (connectingGeneration s) (stopping s) (lifecycle s) (retry s) (schedule s) (watchdog s) (connectedAt s)
  (cleanupRetry s) (cleanupRetryAttempts s).
Definition set_cleanup v s := mkLifecycle (client s) (done s) v (retained s) (generation s) (connecting s)
  (connectingGeneration s) (stopping s) (lifecycle s) (retry s) (schedule s) (watchdog s) (connectedAt s)
  (cleanupRetry s) (cleanupRetryAttempts s).
Definition set_retained v s := mkLifecycle (client s) (done s) (cleanup s) v (generation s) (connecting s)
  (connectingGeneration s) (stopping s) (lifecycle s) (retry s) (schedule s) (watchdog s) (connectedAt s)
  (cleanupRetry s) (cleanupRetryAttempts s).
Definition set_generation v s := mkLifecycle (client s) (done s) (cleanup s) (retained s) v (connecting s)
  (connectingGeneration s) (stopping s) (lifecycle s) (retry s) (schedule s) (watchdog s) (connectedAt s)
  (cleanupRetry s) (cleanupRetryAttempts s).
Definition set_connecting v s := mkLifecycle (client s) (done s) (cleanup s) (retained s) (generation s) v
  (connectingGeneration s) (stopping s) (lifecycle s) (retry s) (schedule s) (watchdog s) (connectedAt s)
  (cleanupRetry s) (cleanupRetryAttempts s).
Definition set_connectingGeneration v s := mkLifecycle (client s) (done s) (cleanup s) (retained s)
  (generation s) (connecting s) v (stopping s) (lifecycle s) (retry s) (schedule s) (watchdog s) (connectedAt
  s) (cleanupRetry s) (cleanupRetryAttempts s).
Definition set_stopping v s := mkLifecycle (client s) (done s) (cleanup s) (retained s) (generation s)
  (connecting s) (connectingGeneration s) v (lifecycle s) (retry s) (schedule s) (watchdog s) (connectedAt s)
  (cleanupRetry s) (cleanupRetryAttempts s).
Definition set_lifecycle v s := mkLifecycle (client s) (done s) (cleanup s) (retained s) (generation s)
  (connecting s) (connectingGeneration s) (stopping s) v (retry s) (schedule s) (watchdog s) (connectedAt s)
  (cleanupRetry s) (cleanupRetryAttempts s).
Definition set_retry v s := mkLifecycle (client s) (done s) (cleanup s) (retained s) (generation s)
  (connecting s) (connectingGeneration s) (stopping s) (lifecycle s) v (schedule s) (watchdog s) (connectedAt
  s) (cleanupRetry s) (cleanupRetryAttempts s).
Definition set_schedule v s := mkLifecycle (client s) (done s) (cleanup s) (retained s) (generation s)
  (connecting s) (connectingGeneration s) (stopping s) (lifecycle s) (retry s) v (watchdog s) (connectedAt s)
  (cleanupRetry s) (cleanupRetryAttempts s).
Definition set_watchdog v s := mkLifecycle (client s) (done s) (cleanup s) (retained s) (generation s)
  (connecting s) (connectingGeneration s) (stopping s) (lifecycle s) (retry s) (schedule s) v (connectedAt s)
  (cleanupRetry s) (cleanupRetryAttempts s).
Definition set_connectedAt v s := mkLifecycle (client s) (done s) (cleanup s) (retained s) (generation s)
  (connecting s) (connectingGeneration s) (stopping s) (lifecycle s) (retry s) (schedule s) (watchdog s) v
  (cleanupRetry s) (cleanupRetryAttempts s).
Definition set_cleanupRetry v s := mkLifecycle (client s) (done s) (cleanup s) (retained s) (generation s)
  (connecting s) (connectingGeneration s) (stopping s) (lifecycle s) (retry s) (schedule s) (watchdog s)
  (connectedAt s) v (cleanupRetryAttempts s).
Definition set_cleanupRetryAttempts v s := mkLifecycle (client s) (done s) (cleanup s) (retained s)
  (generation s) (connecting s) (connectingGeneration s) (stopping s) (lifecycle s) (retry s) (schedule s)
  (watchdog s) (connectedAt s) (cleanupRetry s) v.

(** What the lifecycle shares with the rest: the profile lease, the pumps that
    have closed their channel, the gate of Disconnect, the persisted KICKOUT, and
    the states sent so far. *)
Record Life := mkLife {
  lc : connLifecycle;
  leased : option Owner;
  nextOwner : Owner;
  ended : gset Owner;
  disconnectGate : bool;
  kickedOut : bool;
  nextTimer : nat;
  reports : list Report;
}.

Definition on_lc (f : connLifecycle -> connLifecycle) (s : Life) : Life :=
  mkLife (f (lc s)) (leased s) (nextOwner s) (ended s) (disconnectGate s) (kickedOut s) (nextTimer s) (reports s).
Definition set_leased v s :=
  mkLife (lc s) v (nextOwner s) (ended s) (disconnectGate s) (kickedOut s) (nextTimer s) (reports s).
Definition set_nextOwner v s :=
  mkLife (lc s) (leased s) v (ended s) (disconnectGate s) (kickedOut s) (nextTimer s) (reports s).
Definition set_ended v s :=
  mkLife (lc s) (leased s) (nextOwner s) v (disconnectGate s) (kickedOut s) (nextTimer s) (reports s).
Definition set_gate v s :=
  mkLife (lc s) (leased s) (nextOwner s) (ended s) v (kickedOut s) (nextTimer s) (reports s).
Definition set_kickedOut v s :=
  mkLife (lc s) (leased s) (nextOwner s) (ended s) (disconnectGate s) v (nextTimer s) (reports s).
Definition set_nextTimer v s :=
  mkLife (lc s) (leased s) (nextOwner s) (ended s) (disconnectGate s) (kickedOut s) v (reports s).
Definition sendState r s :=
  mkLife (lc s) (leased s) (nextOwner s) (ended s) (disconnectGate s) (kickedOut s) (nextTimer s) (reports s ++ [r]).

Definition initial : Life :=
  mkLife (mkLifecycle None None None (mkCleanup None false false) 0 false 0 false false (mkWorker false 0)
            noSchedule None 0%Z (mkWorker false 0) 0)
    None 0 ∅ false false 0 [].

(** ** Workers and the retained owner *)

(** [worker.start]; the goroutine it starts is the caller's new thread. *)
Definition worker_start (w : worker) : worker := mkWorker true (S (id w)).
Definition worker_stop (w : worker) : worker := mkWorker false (S (id w)).
Definition worker_exit (run : nat) (w : worker) : worker :=
  if id w =? run then mkWorker false (id w) else w.

(** [ownerCleanup.begin]. *)
Definition beginCleanup (o : ownerCleanup) : ownerCleanup := mkCleanup (pumpDone o) true true.

Definition retain (c : Owner) (s : connLifecycle) : connLifecycle :=
  set_retained (mkCleanup None false false) (set_cleanup (Some c) s).

Definition owns (c : Owner) (s : connLifecycle) : bool :=
  match cleanup s with Some c' => c =? c' | None => false end.

Definition release (c : Owner) (ok : bool) (s : connLifecycle) : connLifecycle :=
  if negb (owns c s) then s else
  let pump := pumpDone (retained s) in
  let s := set_retained (mkCleanup pump false false) s in
  if ok then set_retained (mkCleanup None false false) (set_cleanup None s) else s.

(** [c.Shutdown]: a success gives the lease up. *)
Definition shutdown (c : Owner) (ok : bool) (s : Life) : Life :=
  if ok then match leased s with
             | Some c' => if c =? c' then set_leased None s else s
             | None => s
             end
  else s.

Definition isSome {A} (o : option A) : bool := match o with Some _ => true | None => false end.

Definition isCurrent (g : nat) (ctx : bool) (s : connLifecycle) : bool :=
  (generation s =? g) && negb (stopping s) && ctx.

(** ** Watchdog and episodes *)

Definition stopWatchdogLocked : connLifecycle -> connLifecycle := set_watchdog None.

Definition endEpisode (g : nat) (s : connLifecycle) : connLifecycle :=
  if generation s =? g then stopWatchdogLocked (set_schedule (succeeded (schedule s)) s) else s.

(** ** Disconnect *)

Record stopPlan := mkPlan { owner : option Owner; planPump : option Owner; ownedByOther : bool }.

Definition beginStop (s : connLifecycle) : connLifecycle * stopPlan :=
  let s := set_lifecycle false s in
  let s := set_cleanupRetry (worker_stop (cleanupRetry s)) (set_retry (worker_stop (retry s)) s) in
  let s := set_generation (S (generation s)) s in
  let s := match client s, done s with
           | Some _, Some d => set_retained (mkCleanup (Some d) (cleanupDone (retained s)) (busy (retained s))) s
           | _, _ => s
           end in
  let c := match client s with Some c => Some c | None => cleanup s end in
  let pump := match client s with Some _ => done s | None => pumpDone (retained s) end in
  let plan := mkPlan c pump (isSome c && busy (retained s)) in
  let s := set_done None (set_client None (set_stopping true s)) in
  match c with
  | None => (s, plan)
  | Some c =>
      let s := if busy (retained s) then s else set_retained (beginCleanup (retained s)) s in
      (set_cleanup (Some c) s, plan)
  end.

(** ** Commands (lifecycle.go, reconnect_command.go) *)

(** [metadataClient]: the client that may serve metadata requests. *)
Definition metadataClient (s : connLifecycle) : option Owner :=
  if stopping s then None else
  match client s with
  | Some c => Some c
  | None => if connecting s then cleanup s else None
  end.

Inductive Detached := errDetachedKickedOut | errDetachedRecoveryStopped | errDetachedRetryPending | errDetachedBusy.

(** [openDetached] before it opens a client: [None] admits it. *)
Definition detachedRefusal (s : Life) : option Detached :=
  let l := lc s in
  if kickedOut s then Some errDetachedKickedOut
  else if gaveUp (schedule l) then Some errDetachedRecoveryStopped
  else if running (retry l) || active (schedule l) then Some errDetachedRetryPending
  else if stopping l || connecting l || isSome (cleanup l) then Some errDetachedBusy
  else None.

Inductive reconnectResult :=
| reconnectStarted
| reconnectAlreadyConnected
| reconnectPending
| reconnectKickedOut
| reconnectResumingDelivery.

(** [operatorReconnect]; [resumed] is what requestDeliveryResume reports.  Only
    [reconnectStarted] calls Disconnect, and then Connect. *)
Definition operatorReconnect (resumed : bool) (s : Life) : reconnectResult :=
  let connected := isSome (client (lc s)) in
  if kickedOut s then reconnectKickedOut
  else if connected && resumed then reconnectResumingDelivery
  else if connected then reconnectAlreadyConnected
  else if connecting (lc s) || running (retry (lc s)) then reconnectPending
  else reconnectStarted.

(** ** Threads *)

(** An attempt is run by Connect or by a recovery worker. *)
Inductive origin := Explicit | Recovery (run : nat).

(** Disconnect is called by the bridge or an operator, or by the watchdog. *)
Inductive caller := Operator | Expired.

(** How the event pump's loop ended ([Pump.RunState]). *)
Record Exit := mkExit { kicked : bool; serverChanged : bool; undelivered : bool; terminal : option Terminal }.

Inductive Thread :=
(** Connect and connectOnce of a generation. *)
| Opening (g : nat) (o : origin)
| Refused (g : nat) (o : origin)
| Opened (g : nat) (o : origin) (c : Owner)
| Stale (g : nat) (o : origin) (c : Owner)
| Retaining (g : nat) (o : origin) (c : Owner)
| Booting (g : nat) (o : origin) (c : Owner)
| Booted (g : nat) (o : origin) (c : Owner)
| Installed (g : nat) (o : origin) (c : Owner)
| Failed (g : nat) (o : origin) (f : bootstrapFailure)
| Reporting (g : nat) (o : origin) (r : Report) (f : bootstrapFailure)
| EndingEpisode (g : nat) (o : origin) (f : bootstrapFailure)
| Finishing (g : nat) (o : origin)
(** shutdownBootstrap, and the failure it goes on with. *)
| Claiming (g : nat) (o : origin) (c : Owner) (force : bool) (f : option bootstrapFailure)
| BootClosing (g : nat) (o : origin) (c : Owner) (f : option bootstrapFailure)
| BootClosed (g : nat) (o : origin) (c : Owner) (ok : bool) (f : option bootstrapFailure)
(** startRetryLocked. *)
| RetryWaiting (g run : nat)
| RetryExiting (run : nat)
(** run and sessionEnded. *)
| Pumping (g : nat) (c : Owner)
| PumpStopped (g : nat) (c : Owner) (x : Exit)
| PumpReporting (g : nat) (c : Owner) (x : Exit) (stopped : bool)
| SessionEnded (g : nat) (c : Owner) (x : Exit)
| PumpClosing (g : nat) (c : Owner) (recover : bool)
| PumpClosed (g : nat) (c : Owner) (ok recover : bool)
| PumpCleaning (g : nat) (c : Owner) (recover : bool)
| Recovering (g : nat)
(** scheduleCleanupRetry. *)
| CleanWaiting (g : nat) (c : Owner) (recover : bool) (run : nat)
| CleanClosing (g : nat) (c : Owner) (recover : bool) (run : nat)
| CleanClosed (g : nat) (c : Owner) (ok recover : bool) (run : nat)
| CleanRecovering (g run : nat)
| CleanExiting (run : nat)
(** Disconnect. *)
| Entering (k : caller)
| Stopping (k : caller)
| Planned (k : caller) (c : Owner) (pump : option Owner) (other : bool)
| DiscClosing (k : caller) (c : Owner) (pump : option Owner)
| DiscJoining (k : caller) (c : Owner) (pump : option Owner)
| DiscClosed (k : caller) (c : Owner) (ok : bool)
| Leaving (k : caller)
| GivingUp
(** episodeExpired's timer. *)
| Armed (g timer : nat).

(** What the step is told: whether its blocking call succeeds, its context is
    live, the time, and the results of the bootstrap, LoginCompleted and the pump. *)
Record External := mkExternal {
  x_ok : bool;
  x_live : bool;
  x_now : Z;
  x_failure : bootstrapFailure;
  x_login : bool;
  x_exit : Exit;
}.

(** [report]: a superseded or stopped attempt sends nothing. *)
Definition report (g : nat) (x : External) (r : Report) (s : Life) : Life :=
  if isCurrent g (x_live x) (lc s) then sendState r s else s.

(** [scheduleRecovery]: the state, whether the generation is current, and the
    worker started. *)
Definition scheduleRecovery (g : nat) (next : recoverySchedule -> recoverySchedule * option Z) (s : Life)
  : Life * bool * list Thread :=
  if stopping (lc s) || negb (generation (lc s) =? g) then (s, false, []) else
  let '(sched, delay) := next (schedule (lc s)) in
  let s := on_lc (set_schedule sched) s in
  match delay with
  | None => (s, true, [])
  | Some _ => let w := worker_start (retry (lc s)) in
              (on_lc (set_retry w) s, true, [RetryWaiting g (id w)])
  end.

Definition recoverSession (g : nat) (s : Life) : Life * list Thread :=
  let '(s, _, started) := scheduleRecovery g (fun sched => (sched, Some firstRecoveryDelay)) s in (s, started).

(** After shutdownBootstrap. *)
Definition afterBootstrap (g : nat) (o : origin) (f : option bootstrapFailure) : Thread :=
  match f with None => Finishing g o | Some f => Failed g o f end.

(** [connectOnce] once the failed bootstrap's client is closed. *)
Definition bootstrapFailed (g : nat) (o : origin) (f : bootstrapFailure) (x : External) (s : Life)
  : Life * list Thread :=
  let retry :=
    if retryableRecoveryError f then
      let '(s', current, started) := scheduleRecovery g (failed (x_now x)) s in
      if current
      then (s', (if isDeliveryNotConfirmed f then Reporting g o DeliveryPaused f else EndingEpisode g o f) :: started)
      else (s, [Reporting g o ConnectFailed f])
    else (s, [Reporting g o ConnectFailed f]) in
  match failure f with
  | errSourceAccessRemoved => (s, [Reporting g o GroupAccessRemoved f])
  | errMembershipPending => (s, [Reporting g o GroupMembershipPending f])
  | errGroupCreateUnresolved => (s, [Reporting g o GroupCreateUnresolved f])
  | ErrUnidentifiable => (s, [Reporting g o UnidentifiableMsg f])
  | _ => retry
  end.

Definition install (c : Owner) (x : External) (l : connLifecycle) : connLifecycle :=
  let l := set_connectedAt (x_now x) (set_done (Some c) (set_client (Some c) l)) in
  let l := if x_login x then stopWatchdogLocked (set_schedule (succeeded (schedule l)) l) else l in
  set_cleanupRetryAttempts 0 l.

(** [run]'s last state. *)
Definition exitReport (x : Exit) : Report :=
  match terminal x with
  | Some TerminalMembership => GroupMembershipInvalid
  | Some TerminalMessage => UnidentifiableMsg
  | None => if kicked x then KickedOutReport
            else if serverChanged x then ChangeServerReport
            else if undelivered x then DeliveryPaused else Disconnected
  end.

Definition sendExit (x : Exit) (s : Life) : Life :=
  sendState (exitReport x)
    (if negb (isSome (terminal x)) && kicked x then set_kickedOut true s else s).

(** The deferred end of Connect, and the end of a worker's attempt. *)
Definition finish (g : nat) (o : origin) (l : connLifecycle) : connLifecycle :=
  let mine := connecting l && (connectingGeneration l =? g) in
  let clears := match o with Explicit => (generation l =? g) || mine | Recovery _ => mine end in
  if clears then set_connecting false l else l.

Definition scheduleCleanupRetry (g : nat) (c : Owner) (recover : bool) (s : Life) : Life * list Thread :=
  let l := lc s in
  if negb (owns c l) || stopping l || running (cleanupRetry l) || (1 <=? cleanupRetryAttempts l) then (s, []) else
  let w := worker_start (cleanupRetry l) in
  (on_lc (fun l => set_cleanupRetry w (set_cleanupRetryAttempts (S (cleanupRetryAttempts l)) l)) s,
   [CleanWaiting g c recover (id w)]).

(** ** Steps

    One step of a thread: the state and what becomes of the thread, with the
    goroutines it starts. *)

(** [connectOnce], and the deferred end of Connect. *)
Definition connectOnceStep (t : Thread) (x : External) (s : Life) : Life * list Thread :=
  let l := lc s in
  match t with
  | Opening g o =>
      let s := sendState Connecting s in
      if x_ok x && negb (isSome (leased s))
      then (set_nextOwner (S (nextOwner s)) (set_leased (Some (nextOwner s)) s), [Opened g o (nextOwner s)])
      else (s, [Refused g o])
  | Refused g o =>
      (report g x (match o with Explicit => ProfileUnavailable | Recovery _ => ConnectFailed end) s, [Finishing g o])
  | Opened g o c => (s, [if isCurrent g (x_live x) l then Retaining g o c else Stale g o c])
  | Stale g o c =>
      (if isSome (cleanup l) then s else on_lc (retain c) s, [Claiming g o c true None])
  | Retaining g o c =>
      let l := retain c l in
      let '(sched, starts) := begin (x_now x) (schedule l) in
      let l := set_schedule sched l in
      if starts
      then (set_nextTimer (S (nextTimer s)) (on_lc (fun _ => set_watchdog (Some (nextTimer s)) l) s),
            [Booting g o c; Armed g (nextTimer s)])
      else (on_lc (fun _ => l) s, [Booting g o c])
  | Booting g o c => (s, [if x_ok x then Booted g o c else Claiming g o c false (Some (x_failure x))])
  | Booted g o c =>
      if stopping l || negb (generation l =? g) || negb (owns c l)
      then (s, [Claiming g o c true None])
      else (on_lc (install c x) s, [Installed g o c])
  | Installed g o c => (sendState Ready s, [Finishing g o; Pumping g c])
  | Failed g o f => bootstrapFailed g o f x s
  | Reporting g o r f => (report g x r s, [EndingEpisode g o f])
  | EndingEpisode g o f =>
      (if retryableRecoveryError f then s else on_lc (endEpisode g) s, [Finishing g o])
  | Finishing g o =>
      (on_lc (finish g o) s, match o with Explicit => [] | Recovery run => [RetryExiting run] end)
  | _ => (s, [t])
  end.

(** [shutdownBootstrap]. *)
Definition shutdownBootstrapStep (t : Thread) (x : External) (s : Life) : Life * list Thread :=
  let l := lc s in
  match t with
  | Claiming g o c force f =>
      if owns c l && negb (busy (retained l)) && (force || negb (stopping l))
      then (on_lc (fun l => set_retained (beginCleanup (retained l)) l) s, [BootClosing g o c f])
      else (s, [afterBootstrap g o f])
  | BootClosing g o c f => (shutdown c (x_ok x) s, [BootClosed g o c (x_ok x) f])
  | BootClosed g o c ok f => (on_lc (release c ok) s, [afterBootstrap g o f])
  | _ => (s, [t])
  end.

(** The worker of [startRetryLocked]. *)
Definition startRetryLockedStep (t : Thread) (x : External) (s : Life) : Life * list Thread :=
  let l := lc s in
  match t with
  | RetryWaiting g run =>
      if negb (x_ok x) || stopping l || negb (generation l =? g) || isSome (client l) || isSome (cleanup l)
         || negb (id (retry l) =? run)
      then (s, [RetryExiting run])
      else (on_lc (fun l => set_connectingGeneration g (set_connecting true l)) s, [Opening g (Recovery run)])
  | RetryExiting run => (on_lc (fun l => set_retry (worker_exit run (retry l)) l) s, [])
  | _ => (s, [t])
  end.

(** [run], whose loop is Pump.v's. *)
Definition pumpStep (t : Thread) (x : External) (s : Life) : Life * list Thread :=
  let l := lc s in
  match t with
  | Pumping g c => (s, [PumpStopped g c (x_exit x)])
  | PumpStopped g c e => (s, [PumpReporting g c e (stopping l)])
  | PumpReporting g c e stopped =>
      let s := if stopped then s else sendExit e s in
      (set_ended ({[c]} ∪ ended s) s, [SessionEnded g c e])
  | _ => (s, [t])
  end.

(** [sessionEnded]. *)
Definition sessionEndedStep (t : Thread) (x : External) (s : Life) : Life * list Thread :=
  let l := lc s in
  match t with
  | SessionEnded g c e =>
      if negb (generation l =? g) || negb (match client l with Some c' => c =? c' | None => false end)
      then (s, [])
      else
        let l' := set_done None (set_client None l) in
        if stopping l then (on_lc (fun _ => l') s, [])
        else (on_lc (fun _ => let l := retain c l' in set_retained (beginCleanup (retained l)) l) s,
              [PumpClosing g c (negb (kicked e || isSome (terminal e)))])
  | PumpClosing g c recover => (shutdown c (x_ok x) s, [PumpClosed g c (x_ok x) recover])
  | PumpClosed g c ok recover =>
      let s := on_lc (release c ok) s in
      let canRecover := ok && negb (stopping (lc s)) && (generation (lc s) =? g) in
      (s, if negb ok then [PumpCleaning g c recover]
          else if canRecover && recover then [Recovering g] else [])
  | PumpCleaning g c recover => scheduleCleanupRetry g c recover s
  | Recovering g => recoverSession g s
  | _ => (s, [t])
  end.

(** The worker of [scheduleCleanupRetry]. *)
Definition cleanupRetryStep (t : Thread) (x : External) (s : Life) : Life * list Thread :=
  let l := lc s in
  match t with
  | CleanWaiting g c recover run =>
      if negb (x_ok x) || negb (owns c l) || stopping l || negb (id (cleanupRetry l) =? run)
      then (s, [CleanExiting run])
      else (on_lc (fun l => set_retained (beginCleanup (retained l)) l) s, [CleanClosing g c recover run])
  | CleanClosing g c recover run => (shutdown c (x_ok x) s, [CleanClosed g c (x_ok x) recover run])
  | CleanClosed g c ok recover run =>
      let s := on_lc (release c ok) s in
      let canRecover := ok && negb (stopping (lc s)) && (generation (lc s) =? g) in
      (s, [if canRecover && recover then CleanRecovering g run else CleanExiting run])
  | CleanRecovering g run => let '(s, started) := recoverSession g s in (s, CleanExiting run :: started)
  | CleanExiting run => (on_lc (fun l => set_cleanupRetry (worker_exit run (cleanupRetry l)) l) s, [])
  | _ => (s, [t])
  end.

(** [Disconnect] with [enterDisconnect] and [shutdownWithDeadline]. *)
Definition disconnectStep (t : Thread) (x : External) (s : Life) : Life * list Thread :=
  let l := lc s in
  match t with
  | Entering k =>
      if x_ok x && negb (disconnectGate s) then (set_gate true s, [Stopping k])
      else (s, match k with Operator => [] | Expired => [GivingUp] end)
  | Stopping k =>
      let '(l, plan) := beginStop l in
      (on_lc (fun _ => l) s,
       [match owner plan with None => Leaving k | Some c => Planned k c (planPump plan) (ownedByOther plan) end])
  | Planned k c pump other =>
      (s, [if other && busy (retained l) && owns c l && cleanupDone (retained l) then Leaving k
           else DiscClosing k c pump])
  | DiscClosing k c pump =>
      (shutdown c (x_ok x) s,
       [if x_ok x && isSome pump then DiscJoining k c pump else DiscClosed k c (x_ok x)])
  | DiscJoining k c pump =>
      (s, [DiscClosed k c (x_ok x && match pump with Some d => bool_decide (d ∈ ended s) | None => true end)])
  | DiscClosed k c ok => (on_lc (release c ok) s, [Leaving k])
  | Leaving k => (set_gate false s, match k with Operator => [] | Expired => [GivingUp] end)
  | _ => (s, [t])
  end.

(** [episodeExpired], before and after its Disconnect. *)
Definition episodeExpiredStep (t : Thread) (x : External) (s : Life) : Life * list Thread :=
  let l := lc s in
  match t with
  | GivingUp =>
      (sendState RecoveryStopped (on_lc (set_schedule (mkSchedule None 0 true)) s), [])
  | Armed g timer =>
      if negb (match watchdog l with Some w => w =? timer | None => false end) || stopping l
         || negb (generation l =? g) || negb (active (schedule l))
      then (s, [])
      else (on_lc stopWatchdogLocked s, [Entering Expired])
  | _ => (s, [t])
  end.

Definition threadStep (t : Thread) (x : External) (s : Life) : Life * list Thread :=
  match t with
  | Opening _ _ | Refused _ _ | Opened _ _ _ | Stale _ _ _ | Retaining _ _ _ | Booting _ _ _
  | Booted _ _ _ | Installed _ _ _ | Failed _ _ _ | Reporting _ _ _ _ | EndingEpisode _ _ _
  | Finishing _ _ => connectOnceStep t x s
  | Claiming _ _ _ _ _ | BootClosing _ _ _ _ | BootClosed _ _ _ _ _ => shutdownBootstrapStep t x s
  | RetryWaiting _ _ | RetryExiting _ => startRetryLockedStep t x s
  | Pumping _ _ | PumpStopped _ _ _ | PumpReporting _ _ _ _ => pumpStep t x s
  | SessionEnded _ _ _ | PumpClosing _ _ _ | PumpClosed _ _ _ _ | PumpCleaning _ _ _ | Recovering _ => sessionEndedStep t x s
  | CleanWaiting _ _ _ _ | CleanClosing _ _ _ _ | CleanClosed _ _ _ _ _ | CleanRecovering _ _
  | CleanExiting _ => cleanupRetryStep t x s
  | Entering _ | Stopping _ | Planned _ _ _ _ | DiscClosing _ _ _ | DiscJoining _ _ _ | DiscClosed _ _ _
  | Leaving _ => disconnectStep t x s
  | GivingUp | Armed _ _ => episodeExpiredStep t x s
  end.

(** Connect's critical section. *)
Definition Connect (s : Life) : Life * list Thread :=
  let l := lc s in
  if isSome (client l) || isSome (cleanup l) || connecting l then (s, [])
  else if kickedOut s then (sendState KickedOutReport s, [])
  else
    let g := S (generation l) in
    let l := set_generation g (set_lifecycle true (set_stopping false l)) in
    let l := set_schedule noSchedule (stopWatchdogLocked l) in
    (on_lc (fun _ => set_connectingGeneration g (set_connecting true l)) s, [Opening g Explicit]).

(** ** Interleaving *)

Record System := mkSystem { life : Life; threads : list Thread }.

Inductive step : System -> System -> Prop :=
| step_connect s ts s' new :
    Connect s = (s', new) -> step (mkSystem s ts) (mkSystem s' (ts ++ new))
| step_disconnect s ts : step (mkSystem s ts) (mkSystem s (ts ++ [Entering Operator]))
| step_thread s before t after x s' new :
    threadStep t x s = (s', new) ->
    step (mkSystem s (before ++ t :: after)) (mkSystem s' (before ++ new ++ after)).

(** The attempt is over but for its last critical sections. *)
Definition tail (t : Thread) : bool :=
  match t with
  | Refused _ _ | Reporting _ _ _ _ | EndingEpisode _ _ _ | Finishing _ _ => true
  | _ => false
  end.

(** An attempt that schedules a recovery returns within its delay, which is at
    least [firstRecoveryDelay]: when a worker's wait ends, no attempt is still in
    its last statements. *)
Inductive prompt_step : System -> System -> Prop :=
| prompt_connect s ts s' new :
    Connect s = (s', new) -> prompt_step (mkSystem s ts) (mkSystem s' (ts ++ new))
| prompt_disconnect s ts : prompt_step (mkSystem s ts) (mkSystem s (ts ++ [Entering Operator]))
| prompt_thread s before t after x s' new :
    threadStep t x s = (s', new) ->
    (forall g run, t = RetryWaiting g run -> x_ok x = true -> existsb tail (before ++ after) = false) ->
    prompt_step (mkSystem s (before ++ t :: after)) (mkSystem s' (before ++ new ++ after)).

Lemma prompt_is_step a b : prompt_step a b -> step a b.
Proof. destruct 1; by econstructor. Qed.
