(* ===== verification/LifecycleFacts.v ===== *)
(** * What every step of the connection lifecycle keeps

    The invariant of the interleaved threads of Lifecycle.v, and what one step of
    a thread may change of the fields and of what is known about the others. *)

From S2P Require Import Prelude.
From S2P Require Import Pump RecoverySchedule Lifecycle.

#[local] Open Scope list_scope.
#[local] Open Scope nat_scope.

(** ** What a thread stands for *)

(** The generation it was started for. *)
Definition gen (t : Thread) : option nat :=
  match t with
  | Opening g _ | Refused g _ | Opened g _ _ | Stale g _ _ | Retaining g _ _ | Booting g _ _ | Booted g _ _
  | Installed g _ _ | Failed g _ _ | Reporting g _ _ _ | EndingEpisode g _ _ | Finishing g _
  | Claiming g _ _ _ _ | BootClosing g _ _ _ | BootClosed g _ _ _ _ | RetryWaiting g _
  | Pumping g _ | PumpStopped g _ _ | PumpReporting g _ _ _ | SessionEnded g _ _
  | PumpClosing g _ _ | PumpClosed g _ _ _ | PumpCleaning g _ _ | Recovering g
  | CleanWaiting g _ _ _ | CleanClosing g _ _ _ | CleanClosed g _ _ _ _ | CleanRecovering g _ => Some g
  | _ => None
  end.

(** The client it handles. *)
Definition handles (t : Thread) : option Owner :=
  match t with
  | Opened _ _ c | Stale _ _ c | Retaining _ _ c | Booting _ _ c | Booted _ _ c | Installed _ _ c
  | Claiming _ _ c _ _ | BootClosing _ _ c _ | BootClosed _ _ c _ _
  | Pumping _ c | PumpStopped _ c _ | PumpReporting _ c _ _ | SessionEnded _ c _
  | PumpClosing _ c _ | PumpClosed _ c _ _ | PumpCleaning _ c _
  | CleanWaiting _ c _ _ | CleanClosing _ c _ _ | CleanClosed _ c _ _ _
  | Planned _ c _ _ | DiscClosing _ c _ | DiscJoining _ c _ | DiscClosed _ c _ => Some c
  | _ => None
  end.

(** An attempt to connect, until it has cleared its mark. *)
Definition attempting (t : Thread) : bool :=
  match t with
  | Opening _ _ | Refused _ _ | Opened _ _ _ | Stale _ _ _ | Retaining _ _ _ | Booting _ _ _ | Booted _ _ _
  | Installed _ _ _ | Failed _ _ _ | Reporting _ _ _ _ | EndingEpisode _ _ _ | Finishing _ _
  | Claiming _ _ _ _ _ | BootClosing _ _ _ _ | BootClosed _ _ _ _ _ => true
  | _ => false
  end.

(** An attempt before it has retained its client. *)
Definition early (t : Thread) : bool :=
  match t with Opening _ _ | Opened _ _ _ | Stale _ _ _ | Retaining _ _ _ => true | _ => false end.

Definition holding (t : Thread) : option Owner :=
  match t with Opened _ _ c | Stale _ _ c | Retaining _ _ c => Some c | _ => None end.

(** An attempt whose client may become the session. *)
Definition booting (t : Thread) : option (nat * Owner) :=
  match t with Booting g _ c | Booted g _ c => Some (g, c) | _ => None end.

(** A session's pump until it has left the session. *)
Definition pumping (t : Thread) : option (nat * Owner) :=
  match t with
  | Installed g _ c | Pumping g c | PumpStopped g c _ | PumpReporting g c _ _ | SessionEnded g c _ => Some (g, c)
  | _ => None
  end.

(** It will release its client. *)
Definition closing (t : Thread) : option Owner :=
  match t with
  | BootClosing _ _ c _ | BootClosed _ _ c _ _ | PumpClosing _ c _ | PumpClosed _ c _ _
  | CleanClosing _ c _ _ | CleanClosed _ c _ _ _
  | Planned _ c _ false | DiscClosing _ c _ | DiscJoining _ c _ | DiscClosed _ c _ => Some c
  | _ => None
  end.

(** It closes, or may come to close, a client that is no session's any more. *)
Definition ending (t : Thread) : option Owner :=
  match t with
  | PumpCleaning _ c _ | CleanWaiting _ c _ _ | Planned _ c _ _ => Some c
  | _ => closing t
  end.

(** Its client's Shutdown has succeeded. *)
Definition released (t : Thread) : option Owner :=
  match t with
  | BootClosed _ _ c true _ | PumpClosed _ c true _ | CleanClosed _ c true _ _
  | DiscJoining _ c _ | DiscClosed _ c true => Some c
  | _ => None
  end.

(** The client of a thread that is past the bootstrap. *)
Definition spent (t : Thread) : option Owner :=
  match pumping t with Some (_, c) => Some c | None => ending t end.

(** It leads the current generation to its next attempt. *)
Definition driving (s : connLifecycle) (t : Thread) : bool :=
  match t with
  | RetryWaiting g run => (g =? generation s) && (run =? id (retry s))
  | CleanWaiting g _ _ run => (g =? generation s) && (run =? id (cleanupRetry s))
  | _ => negb (tail t) && match gen t with Some g => g =? generation s | None => false end
  end.

(** ** Counting threads *)

Definition cnt (p : Thread -> bool) (ts : list Thread) : nat :=
  length (List.filter p ts).

Lemma cnt_app p a b : cnt p (a ++ b) = cnt p a + cnt p b.
Proof. unfold cnt. by rewrite List.filter_app, length_app. Qed.

Lemma cnt_cons p t ts : cnt p (t :: ts) = (if p t then 1 else 0) + cnt p ts.
Proof. unfold cnt. simpl. by destruct (p t). Qed.

Lemma cnt_none p ts : cnt p ts = 0 -> forall t, t ∈ ts -> p t = false.
Proof.
  induction ts as [|t ts IH]; [intros _ t Ht; by apply elem_of_nil in Ht|]. rewrite cnt_cons.
  intros E t' [->|Ht]%elem_of_cons; [by destruct (p t) | apply IH; [lia | done]].
Qed.

Lemma cnt_none' p ts : (forall t, t ∈ ts -> p t = false) -> cnt p ts = 0.
Proof.
  induction ts as [|t ts IH]; intros Hp; [done|]. rewrite cnt_cons, (Hp t) by set_solver.
  rewrite IH; [done|]. intros t' Ht. apply Hp. set_solver.
Qed.

Lemma cnt_unique p ts : cnt p ts <= 1 ->
  forall t t', t ∈ ts -> t' ∈ ts -> p t = true -> p t' = true -> t = t'.
Proof.
  induction ts as [|x ts IH]; intros Hc t t' Ht; [by apply elem_of_nil in Ht|]. rewrite cnt_cons in Hc.
  apply elem_of_cons in Ht as [->|Ht]; intros [->|Ht']%elem_of_cons Hp Hp'; [done| | |apply IH; (done || lia)].
  - rewrite Hp in Hc. by rewrite (cnt_none p ts ltac:(lia) _ Ht') in Hp'.
  - rewrite Hp' in Hc. by rewrite (cnt_none p ts ltac:(lia) _ Ht) in Hp.
Qed.

Lemma cnt_mono p q ts : (forall t, t ∈ ts -> p t = true -> q t = true) -> cnt p ts <= cnt q ts.
Proof.
  induction ts as [|t ts IH]; intros Hpq; [done|]. rewrite !cnt_cons.
  specialize (IH ltac:(intros; apply Hpq; [by right | done])).
  destruct (p t) eqn:E; [rewrite (Hpq t) by (done || by left); lia | destruct (q t); lia].
Qed.

Lemma cnt_perm p a b : a ≡ₚ b -> cnt p a = cnt p b.
Proof.
  induction 1 as [|t a b _ IH|x y a|a b c _ IH1 _ IH2];
    rewrite ?cnt_cons, ?IH; [done | lia | lia | by rewrite IH1].
Qed.

(** ** The invariant *)

(** What holds of each thread. *)
Record fits (s : Life) (t : Thread) : Prop := {
  fits_gen g : gen t = Some g -> g <= generation (lc s);
  fits_owner c : handles t = Some c -> c < nextOwner s;
  fits_run :
    match t with
    | RetryWaiting _ run => run <= id (retry (lc s))
    | CleanWaiting _ _ _ run => run <= id (cleanupRetry (lc s))
    | _ => True
    end;
  fits_attempt g : attempting t = true -> gen t = Some g ->
    connecting (lc s) = true /\ connectingGeneration (lc s) = g /\
    (stopping (lc s) = false -> g = generation (lc s));
  fits_early : early t = true -> client (lc s) = None /\ cleanup (lc s) = None;
  fits_released c : released t = Some c -> leased s <> Some c;
  fits_ending c : ending t = Some c -> client (lc s) <> Some c;
  fits_boot c : attempting t = true -> pumping t = None -> handles t = Some c -> client (lc s) <> Some c;
}.

(** What holds of two threads: a client past its bootstrap is not opened or
    booted in the current generation by another. *)
Definition apart (s : Life) (t t' : Thread) : Prop :=
  forall c, spent t = Some c ->
    holding t' <> Some c /\ (forall g, booting t' = Some (g, c) -> g < generation (lc s)).

Record inv (s : Life) (ts : list Thread) : Prop := {
  inv_fits t : t ∈ ts -> fits s t;
  inv_apart t t' : t ∈ ts -> t' ∈ ts -> apart s t t';
  inv_attempt : cnt attempting ts = (if connecting (lc s) then 1 else 0);
  inv_driving : cnt (driving (lc s)) ts <= 1;
  inv_leased c : leased s = Some c ->
    c < nextOwner s /\ (cleanup (lc s) = Some c \/ exists t, t ∈ ts /\ holding t = Some c);
  inv_client c : client (lc s) = Some c ->
    cleanup (lc s) = Some c /\ done (lc s) = Some c /\ stopping (lc s) = false /\
    exists t, t ∈ ts /\ pumping t = Some (generation (lc s), c);
  inv_cleanup c : cleanup (lc s) = Some c -> c < nextOwner s;
  inv_busy : busy (retained (lc s)) = true ->
    exists c t, cleanup (lc s) = Some c /\ t ∈ ts /\ closing t = Some c;
}.

Lemma inv_perm s a b : a ≡ₚ b -> inv s a -> inv s b.
Proof.
  intros Hp [I1 I2 I3 I4 I5 I6 I7 I8]. constructor.
  - intros t Ht. apply I1. by rewrite Hp.
  - intros t t' Ht Ht'. apply I2; by rewrite Hp.
  - by rewrite <- (cnt_perm _ _ _ Hp).
  - by rewrite <- (cnt_perm _ _ _ Hp).
  - intros c Hc. destruct (I5 c Hc) as (? & [?|(t & Ht & ?)]); (split; [done|]); [by left | right].
    exists t. by rewrite <- Hp.
  - intros c Hc. destruct (I6 c Hc) as (? & ? & ? & t & Ht & ?). do 3 (split; [done|]). exists t. by rewrite <- Hp.
  - done.
  - intros Hb. destruct (I8 Hb) as (c & t & ? & Ht & ?). exists c, t. by rewrite <- Hp.
Qed.

Lemma inv_initial : inv initial [].
Proof. constructor; simpl; (done || lia || (intros; by simplify_eq) || set_solver). Qed.

(** ** What each operation does to the fields *)

Lemma owns_spec c l : owns c l = true <-> cleanup l = Some c.
Proof.
  unfold owns. destruct (cleanup l) as [c'|]; [|done]. rewrite Nat.eqb_eq.
  split; [by intros -> | by intros [= ->]].
Qed.

(** The fields an operation leaves alone. *)
Record keeps (l l' : connLifecycle) : Prop := {
  keeps_client : client l' = client l;
  keeps_done : done l' = done l;
  keeps_generation : generation l' = generation l;
  keeps_connecting : connecting l' = connecting l;
  keeps_connectingGeneration : connectingGeneration l' = connectingGeneration l;
  keeps_stopping : stopping l' = stopping l;
  keeps_retry : id (retry l') = id (retry l);
  keeps_cleanupRetry : id (cleanupRetry l') = id (cleanupRetry l);
}.

Lemma release_keeps c ok l : keeps l (release c ok l).
Proof. unfold release. by destruct (owns c l), ok. Qed.

Lemma release_cleanup c ok l :
  cleanup (release c ok l) = if owns c l && ok then None else cleanup l.
Proof. unfold release. by destruct (owns c l), ok. Qed.

Lemma release_busy c ok l :
  busy (retained (release c ok l)) = busy (retained l) && negb (owns c l).
Proof. unfold release. by destruct (owns c l), ok, (busy (retained l)) eqn:?. Qed.

(** Also those that change neither the owner nor its shutdown. *)
Definition idle (l l' : connLifecycle) : Prop :=
  keeps l l' /\ cleanup l' = cleanup l /\ retained l' = retained l.

Lemma endEpisode_idle g l : idle l (endEpisode g l).
Proof. unfold endEpisode. by destruct (generation l =? g). Qed.

Lemma worker_exit_id run w : id (worker_exit run w) = id w.
Proof. unfold worker_exit. by destruct (id w =? run). Qed.

Lemma finish_mine g o l : connecting l = true -> connectingGeneration l = g ->
  finish g o l = set_connecting false l.
Proof. unfold finish. intros -> ->. rewrite Nat.eqb_refl. destruct o; [by rewrite orb_true_r | done]. Qed.

Lemma beginStop_spec l :
  let l' := (beginStop l).1 in
  let c := match client l with Some c => Some c | None => cleanup l end in
  client l' = None /\ done l' = None /\ stopping l' = true /\ generation l' = S (generation l) /\
  connecting l' = connecting l /\ connectingGeneration l' = connectingGeneration l /\
  id (retry l') = S (id (retry l)) /\ id (cleanupRetry l') = S (id (cleanupRetry l)) /\
  cleanup l' = c /\ owner (beginStop l).2 = c /\
  ownedByOther (beginStop l).2 = isSome c && busy (retained l) /\
  busy (retained l') = isSome c || busy (retained l).
Proof.
  destruct l as [[c|] d [k|] [pd cd []] g cn cg st lf rt sc wd ca cr ca'], d; repeat split.
Qed.

(** The recovery worker that may be started, and the schedule it is chosen from. *)
Definition recovers (g : nat) (s s' : Life) (started : list Thread) : Prop :=
  exists sched, stopping (lc s) = false /\ generation (lc s) = g /\
  ((s' = on_lc (set_schedule sched) s /\ started = []) \/
   (s' = on_lc (set_retry (worker_start (retry (lc s)))) (on_lc (set_schedule sched) s) /\
    started = [RetryWaiting g (S (id (retry (lc s))))])).

Lemma scheduleRecovery_spec g next s s' current started :
  scheduleRecovery g next s = (s', current, started) ->
  (current = false /\ s' = s /\ started = []) \/ (current = true /\ recovers g s s' started).
Proof.
  unfold scheduleRecovery, recovers. destruct (stopping (lc s)) eqn:Es; [intros [= <- <- <-]; by left|].
  destruct (generation (lc s) =? g) eqn:Eg; [|intros [= <- <- <-]; by left].
  apply Nat.eqb_eq in Eg.
  destruct (next _) as [sched [d|]]; intros [= <- <- <-]; right; (split; [done|]); exists sched;
    (split; [done|]); (split; [done|]); [by right | by left].
Qed.

Lemma scheduleCleanupRetry_spec g c recover s s' new :
  scheduleCleanupRetry g c recover s = (s', new) ->
  let l := lc s in
  (s' = s /\ new = []) \/
  (cleanup l = Some c /\ stopping l = false /\
   s' = on_lc (fun l => set_cleanupRetry (worker_start (cleanupRetry l))
                (set_cleanupRetryAttempts (S (cleanupRetryAttempts l)) l)) s /\
   new = [CleanWaiting g c recover (S (id (cleanupRetry l)))]).
Proof.
  unfold scheduleCleanupRetry. destruct (owns c (lc s)) eqn:Eo; [|intros [= <- <-]; by left].
  apply owns_spec in Eo. destruct (stopping (lc s)); [intros [= <- <-]; by left|].
  destruct (_ || _); intros [= <- <-]; [by left | right; done].
Qed.

(** Whether the bootstrap's failure starts a recovery worker. *)
Lemma bootstrapFailed_spec g o f x s s' new :
  bootstrapFailed g o f x s = (s', new) ->
  exists t started, new = t :: started /\ (t = EndingEpisode g o f \/ exists r, t = Reporting g o r f) /\
  ((s' = s /\ started = []) \/ recovers g s s' started).
Proof.
  unfold bootstrapFailed. set (retry := if retryableRecoveryError f then _ else _). intros E.
  assert (Hno : forall r, (s, [Reporting g o r f]) = (s', new) -> exists t started,
    new = t :: started /\ (t = EndingEpisode g o f \/ exists r, t = Reporting g o r f) /\
    ((s' = s /\ started = []) \/ recovers g s s' started)).
  { intros r [= <- <-]. do 2 eexists. split; [done|]. split; [right; by eexists | by left]. }
  assert (Hretry : retry = (s', new) -> exists t started,
    new = t :: started /\ (t = EndingEpisode g o f \/ exists r, t = Reporting g o r f) /\
    ((s' = s /\ started = []) \/ recovers g s s' started)).
  { unfold retry. destruct (retryableRecoveryError f); [|apply Hno].
    destruct (scheduleRecovery _ _ _) as [[s1 current] started] eqn:Es.
    destruct (scheduleRecovery_spec _ _ _ _ _ _ Es) as [(-> & _ & _)|(-> & Hr)]; [apply Hno|].
    intros [= <- <-]. do 2 eexists. split; [done|]. split; [|by right].
    destruct (isDeliveryNotConfirmed f); [right; by eexists | by left]. }
  destruct (failure f); eauto.
Qed.

Lemma shutdown_spec c ok s :
  shutdown c ok s = s \/ (ok = true /\ leased s = Some c /\ shutdown c ok s = set_leased None s).
Proof.
  unfold shutdown. destruct ok; [|by left]. destruct (leased s) as [c'|] eqn:E; [|by left].
  destruct (c =? c') eqn:Ec; [|by left]. apply Nat.eqb_eq in Ec as ->. by right.
Qed.

Lemma shutdown_leased c s : leased (shutdown c true s) <> Some c.
Proof.
  unfold shutdown. destruct (leased s) as [c'|] eqn:E; [|by rewrite E].
  destruct (c =? c') eqn:Ec; [done|]. apply Nat.eqb_neq in Ec. rewrite E. by intros [= ->].
Qed.

Lemma finish_spec g o l : finish g o l = l \/ finish g o l = set_connecting false l.
Proof. unfold finish. destruct o, (_ : bool); auto. Qed.

Lemma finish_fields g o l :
  let l' := finish g o l in
  client l' = client l /\ done l' = done l /\ cleanup l' = cleanup l /\ retained l' = retained l /\
  generation l' = generation l /\ connectingGeneration l' = connectingGeneration l /\
  stopping l' = stopping l /\ retry l' = retry l /\ cleanupRetry l' = cleanupRetry l.
Proof. by destruct (finish_spec g o l) as [-> | ->]. Qed.

Lemma shutdown_fields c ok s :
  lc (shutdown c ok s) = lc s /\ nextOwner (shutdown c ok s) = nextOwner s.
Proof. by destruct (shutdown_spec c ok s) as [-> | (_ & _ & ->)]. Qed.

Lemma release_client c ok l : client (release c ok l) = client l.
Proof. apply keeps_client, release_keeps. Qed.
Lemma release_done c ok l : done (release c ok l) = done l.
Proof. apply keeps_done, release_keeps. Qed.
Lemma release_generation c ok l : generation (release c ok l) = generation l.
Proof. apply keeps_generation, release_keeps. Qed.
Lemma release_connecting c ok l : connecting (release c ok l) = connecting l.
Proof. apply keeps_connecting, release_keeps. Qed.
Lemma release_connectingGeneration c ok l : connectingGeneration (release c ok l) = connectingGeneration l.
Proof. apply keeps_connectingGeneration, release_keeps. Qed.
Lemma release_stopping c ok l : stopping (release c ok l) = stopping l.
Proof. apply keeps_stopping, release_keeps. Qed.
Lemma release_retry c ok l : id (retry (release c ok l)) = id (retry l).
Proof. apply keeps_retry, release_keeps. Qed.
Lemma release_cleanupRetry c ok l : id (cleanupRetry (release c ok l)) = id (cleanupRetry l).
Proof. apply keeps_cleanupRetry, release_keeps. Qed.
Lemma endEpisode_client g l : client (endEpisode g l) = client l.
Proof. apply keeps_client, endEpisode_idle. Qed.
Lemma endEpisode_done g l : done (endEpisode g l) = done l.
Proof. apply keeps_done, endEpisode_idle. Qed.
Lemma endEpisode_generation g l : generation (endEpisode g l) = generation l.
Proof. apply keeps_generation, endEpisode_idle. Qed.
Lemma endEpisode_connecting g l : connecting (endEpisode g l) = connecting l.
Proof. apply keeps_connecting, endEpisode_idle. Qed.
Lemma endEpisode_connectingGeneration g l : connectingGeneration (endEpisode g l) = connectingGeneration l.
Proof. apply keeps_connectingGeneration, endEpisode_idle. Qed.
Lemma endEpisode_stopping g l : stopping (endEpisode g l) = stopping l.
Proof. apply keeps_stopping, endEpisode_idle. Qed.
Lemma endEpisode_retry g l : id (retry (endEpisode g l)) = id (retry l).
Proof. apply keeps_retry, endEpisode_idle. Qed.
Lemma endEpisode_cleanupRetry g l : id (cleanupRetry (endEpisode g l)) = id (cleanupRetry l).
Proof. apply keeps_cleanupRetry, endEpisode_idle. Qed.
Lemma endEpisode_cleanup g l : cleanup (endEpisode g l) = cleanup l.
Proof. apply endEpisode_idle. Qed.
Lemma endEpisode_retained g l : retained (endEpisode g l) = retained l.
Proof. apply endEpisode_idle. Qed.
Lemma finish_client g o l : client (finish g o l) = client l.
Proof. apply finish_fields. Qed.
Lemma finish_done g o l : done (finish g o l) = done l.
Proof. apply finish_fields. Qed.
Lemma finish_cleanup g o l : cleanup (finish g o l) = cleanup l.
Proof. apply finish_fields. Qed.
Lemma finish_retained g o l : retained (finish g o l) = retained l.
Proof. apply finish_fields. Qed.
Lemma finish_generation g o l : generation (finish g o l) = generation l.
Proof. apply finish_fields. Qed.
Lemma finish_connectingGeneration g o l : connectingGeneration (finish g o l) = connectingGeneration l.
Proof. apply finish_fields. Qed.
Lemma finish_stopping g o l : stopping (finish g o l) = stopping l.
Proof. apply finish_fields. Qed.
Lemma finish_retry g o l : retry (finish g o l) = retry l.
Proof. apply finish_fields. Qed.
Lemma finish_cleanupRetry g o l : cleanupRetry (finish g o l) = cleanupRetry l.
Proof. apply finish_fields. Qed.
Lemma shutdown_lc c ok s : lc (shutdown c ok s) = lc s.
Proof. apply shutdown_fields. Qed.
Lemma shutdown_nextOwner c ok s : nextOwner (shutdown c ok s) = nextOwner s.
Proof. apply shutdown_fields. Qed.

Create Rewrite HintDb lifecycle.
#[export] Hint Rewrite
  release_client release_done release_generation release_connecting release_connectingGeneration
  release_stopping release_retry release_cleanupRetry endEpisode_client endEpisode_done
  endEpisode_generation endEpisode_connecting endEpisode_connectingGeneration endEpisode_stopping
  endEpisode_retry endEpisode_cleanupRetry endEpisode_cleanup endEpisode_retained finish_client
  finish_done finish_cleanup finish_retained finish_generation finish_connectingGeneration
  finish_stopping finish_retry finish_cleanupRetry shutdown_lc shutdown_nextOwner worker_exit_id
  release_cleanup release_busy : lifecycle.

(** Evaluates a step of a known thread, branch by branch, leaving the operations
    above in place. *)
Ltac eval_step E :=
  match type of E with
  | threadStep (Failed _ _ _) _ _ = _ =>
      apply bootstrapFailed_spec in E;
      destruct E as (? & ? & -> & [-> | [? ->]] & [[-> ->]|(? & ? & ? & [[-> ->]|[-> ->]])])
  | threadStep (PumpCleaning _ _ _) _ _ = _ =>
      apply scheduleCleanupRetry_spec in E; destruct E as [[-> ->]|(? & ? & -> & ->)]
  | threadStep (Recovering ?g) _ ?s = _ =>
      cbn [threadStep connectOnceStep shutdownBootstrapStep startRetryLockedStep pumpStep sessionEndedStep cleanupRetryStep disconnectStep episodeExpiredStep] in E; unfold recoverSession in E;
      destruct (scheduleRecovery g _ s) as [[? ?] ?] eqn:?; simplify_eq;
      match goal with H : scheduleRecovery _ _ _ = _ |- _ => apply scheduleRecovery_spec in H;
        destruct H as [(-> & -> & ->)|(-> & ? & ? & ? & [[-> ->]|[-> ->]])] end
  | threadStep (CleanRecovering ?g _) _ ?s = _ =>
      cbn [threadStep connectOnceStep shutdownBootstrapStep startRetryLockedStep pumpStep sessionEndedStep cleanupRetryStep disconnectStep episodeExpiredStep] in E; unfold recoverSession in E;
      destruct (scheduleRecovery g _ s) as [[? ?] ?] eqn:?; simplify_eq;
      match goal with H : scheduleRecovery _ _ _ = _ |- _ => apply scheduleRecovery_spec in H;
        destruct H as [(-> & -> & ->)|(-> & ? & ? & ? & [[-> ->]|[-> ->]])] end
  | threadStep (Stopping _) _ ?s = _ =>
      cbn [threadStep connectOnceStep shutdownBootstrapStep startRetryLockedStep pumpStep sessionEndedStep cleanupRetryStep disconnectStep episodeExpiredStep] in E;
      destruct (beginStop_spec (lc s)) as (? & ? & ? & ? & ? & ? & ? & ? & ? & ? & ? & ?);
      destruct (beginStop (lc s)) as [? plan]; simplify_eq; cbn [fst snd] in *;
      destruct (owner plan) eqn:?
  | threadStep (Finishing ?g ?o) _ ?s = _ =>
      cbn [threadStep connectOnceStep shutdownBootstrapStep startRetryLockedStep pumpStep sessionEndedStep cleanupRetryStep disconnectStep episodeExpiredStep] in E; destruct o; simplify_eq
  | threadStep _ _ _ = _ =>
      cbn [threadStep connectOnceStep shutdownBootstrapStep startRetryLockedStep pumpStep sessionEndedStep cleanupRetryStep disconnectStep episodeExpiredStep] in E; unfold report, sendExit, begin, afterBootstrap, install in E; cbn in E;
      repeat (case_match; simplify_eq); simplify_eq
  end.

Ltac fields := cbn in *; autorewrite with lifecycle in *; cbn in *.

(** Counters only grow. *)
Record advances (s s' : Life) : Prop := {
  adv_generation : generation (lc s) <= generation (lc s');
  adv_retry : id (retry (lc s)) <= id (retry (lc s'));
  adv_cleanup : id (cleanupRetry (lc s)) <= id (cleanupRetry (lc s'));
  adv_owner : nextOwner s <= nextOwner s';
}.

Lemma threadStep_advances t x s s' new : threadStep t x s = (s', new) -> advances s s'.
Proof.
  intros E.
  destruct t; eval_step E; constructor; fields; lia.
Qed.

Ltac in_new :=
  let t' := fresh "t'" in let H := fresh "Ht'" in
  intros t' H; repeat (apply elem_of_cons in H as [->|H]; [cbn; done|]); by apply elem_of_nil in H.

(** A worker's wait ends and its attempt begins. *)
Definition firing (t : Thread) (new : list Thread) : Prop :=
  exists g run, t = RetryWaiting g run /\ new = [Opening g (Recovery run)].

(** A step of no attempt leaves the connecting attempt alone. *)
Lemma threadStep_calm t x s s' new :
  threadStep t x s = (s', new) -> attempting t = false -> ~ firing t new ->
  connecting (lc s') = connecting (lc s) /\ connectingGeneration (lc s') = connectingGeneration (lc s) /\
  (stopping (lc s') = false -> stopping (lc s) = false /\ generation (lc s') = generation (lc s)) /\
  (client (lc s) = None -> cleanup (lc s) = None -> client (lc s') = None /\ cleanup (lc s') = None) /\
  forall t', t' ∈ new -> attempting t' = false.
Proof.
  intros E Ha Hf.
  destruct t; try discriminate Ha; eval_step E; fields.
  all: try (exfalso; apply Hf; do 2 eexists; done).
  all: (split_and!; [congruence | congruence | first [done | intros; congruence | intros; split; congruence] | |]).
  all: try (by in_new).
  all: try (intros Hc Hk; rewrite ?Hc, ?Hk in *; (done || (split; congruence) || (repeat case_match; split; congruence))).
  - exfalso. by rewrite orb_true_r in H.
Qed.

(** Only an attempt that is still wanted makes a session. *)
Lemma threadStep_client t x s s' new :
  threadStep t x s = (s', new) ->
  client (lc s') = client (lc s) \/ client (lc s') = None \/
  exists g o c, t = Booted g o c /\ generation (lc s) = g /\ stopping (lc s) = false /\ cleanup (lc s) = Some c /\
    client (lc s') = Some c.
Proof.
  intros E. destruct t; eval_step E; fields; try (by left); try (by right; left).
  all: right; right; do 3 eexists; (split; [done|]).
  all: repeat match goal with H : _ || _ = false |- _ => apply orb_false_iff in H as [? ?] end.
  all: repeat match goal with H : negb _ = false |- _ => apply negb_false_iff in H end.
  all: rewrite Nat.eqb_eq, owns_spec in *; done.
Qed.

Lemma threadStep_leased t x s s' new :
  threadStep t x s = (s', new) ->
  leased s' = leased s \/ (leased s' = None /\ nextOwner s' = nextOwner s) \/
  exists g o, t = Opening g o /\ leased s = None /\ leased s' = Some (nextOwner s) /\ nextOwner s' = S (nextOwner s) /\
    new = [Opened g o (nextOwner s)].
Proof.
  intros E. destruct t; eval_step E; fields; try (by left).
  all: try (destruct (shutdown_spec c (x_ok x) s) as [-> | (_ & _ & ->)]; [by left | by right; left]).
  right; right. do 2 eexists. apply andb_true_iff in H as [_ H]. by destruct (leased s).
Qed.

(** ** The other threads *)

Lemma released_handles t c : released t = Some c -> handles t = Some c.
Proof. destruct t; cbn; try done; by repeat case_match. Qed.

Lemma ending_handles t c : ending t = Some c -> handles t = Some c.
Proof. destruct t; cbn; try done; by repeat case_match. Qed.

Lemma closing_ending t c : closing t = Some c -> ending t = Some c.
Proof. destruct t; cbn; try done; by repeat case_match. Qed.

Lemma spent_handles t c : spent t = Some c -> handles t = Some c.
Proof. destruct t; cbn; try done; by repeat case_match. Qed.

Lemma holding_spec t c :
  holding t = Some c -> handles t = Some c /\ attempting t = true /\ early t = true.
Proof. by destruct t. Qed.

Lemma booting_spec t g c :
  booting t = Some (g, c) -> handles t = Some c /\ attempting t = true /\ gen t = Some g /\ tail t = false.
Proof. destruct t; try done; cbn; by intros [= -> ->]. Qed.

Lemma ending_spent t c : ending t = Some c -> spent t = Some c.
Proof. unfold spent. by destruct t. Qed.

Lemma others_fit t x s s' new t' :
  threadStep t x s = (s', new) -> fits s t' -> apart s t' t ->
  (attempting t' = true -> attempting t = false /\ ~ firing t new) ->
  fits s' t'.
Proof.
  intros E F Hapart Hatt. destruct (threadStep_advances _ _ _ _ _ E) as [A1 A2 A3 A4].
  pose proof (threadStep_client _ _ _ _ _ E) as Hc.
  constructor.
  - intros g Hg. pose proof (fits_gen _ _ F g Hg). lia.
  - intros c Hh. pose proof (fits_owner _ _ F c Hh). lia.
  - pose proof (fits_run _ _ F). by destruct t'; try lia.
  - intros g Ha Hg. destruct (Hatt Ha) as [Hn Hf].
    destruct (threadStep_calm _ _ _ _ _ E Hn Hf) as (-> & -> & Hs & _).
    destruct (fits_attempt _ _ F g Ha Hg) as (? & ? & Hcur). split_and!; [done | done |].
    intros Hst. destruct (Hs Hst) as [? ->]. by apply Hcur.
  - intros Hearly. assert (Ha : attempting t' = true) by (by destruct t').
    destruct (Hatt Ha) as [Hn Hf]. destruct (threadStep_calm _ _ _ _ _ E Hn Hf) as (_ & _ & _ & Hnone & _).
    by apply Hnone; apply (fits_early _ _ F).
  - intros c Hr. pose proof (fits_released _ _ F c Hr) as Hl.
    destruct (threadStep_leased _ _ _ _ _ E) as [-> | [[-> _] | (? & ? & _ & _ & -> & _)]]; [done | done |].
    intros [= <-]. pose proof (released_handles _ _ Hr) as Hh.
    pose proof (fits_owner _ _ F _ Hh). lia.
  - intros c He. destruct Hc as [-> | [-> | (g & o & c' & -> & Hg & _ & _ & ->)]]; [by apply (fits_ending _ _ F) | done |].
    intros [= ->]. destruct (Hapart c) as [_ Hb].
    { by apply ending_spent. }
    specialize (Hb g eq_refl). lia.
  - intros c Ha Hp Hh. destruct (Hatt Ha) as [Hn Hf].
    destruct Hc as [-> | [-> | (g & o & c' & -> & _)]]; [by apply (fits_boot _ _ F) | done | done].
Qed.
