(* ===== verification/LifecycleInvariant.v ===== *)
(** * The invariant of the connection lifecycle

    At most one attempt runs, at most one thread drives the current generation
    towards its next attempt, and every open client is the retained owner or in
    the hands of the attempt that opened it: every prompt step keeps this. *)

From S2P Require Import Prelude.
From S2P Require Import Pump RecoverySchedule Lifecycle LifecycleFacts.

#[local] Open Scope list_scope.
#[local] Open Scope nat_scope.

(** ** The thread's successors *)

(** Reads off what [fits] says of a known thread. *)
Ltac know_fits F :=
  let F1 := fresh "Fgen" in let F2 := fresh "Fowner" in let F3 := fresh "Frun" in
  let F4 := fresh "Fattempt" in let F5 := fresh "Fearly" in let F6 := fresh "Freleased" in
  let F7 := fresh "Fending" in let F8 := fresh "Fboot" in
  destruct F as [F1 F2 F3 F4 F5 F6 F7 F8]; cbn in F1, F2, F3, F4, F5, F6, F7, F8;
  repeat match goal with
  | H : forall g, Some _ = Some g -> _ |- _ => specialize (H _ eq_refl)
  | H : forall g, true = true -> Some _ = Some g -> _ |- _ => specialize (H _ eq_refl eq_refl)
  | H : forall c, true = true -> None = None -> Some _ = Some c -> _ |- _ => specialize (H _ eq_refl eq_refl eq_refl)
  | H : true = true -> _ |- _ => specialize (H eq_refl)
  | H : forall g, None = Some g -> _ |- _ => clear H
  | H : forall g, _ -> None = Some g -> _ |- _ => clear H
  | H : forall g, false = true -> _ |- _ => clear H
  | H : false = true -> _ |- _ => clear H
  | H : forall c, true = true -> Some _ = None -> _ |- _ => clear H
  | H : True |- _ => clear H
  | H : _ /\ _ |- _ => destruct H
  end.

Ltac know_bools :=
  repeat match goal with
  | H : _ || _ = false |- _ => apply orb_false_iff in H as [? ?]
  | H : _ && _ = true |- _ => apply andb_true_iff in H as [? ?]
  | H : negb _ = false |- _ => apply negb_false_iff in H
  | H : negb _ = true |- _ => apply negb_true_iff in H
  | H : (_ =? _) = true |- _ => apply Nat.eqb_eq in H
  | H : owns _ _ = true |- _ => apply owns_spec in H
  | H : isSome ?o = false |- _ => destruct o eqn:?; [discriminate H|clear H]
  end.

Lemma new_fits t x s s' new ts :
  inv s (t :: ts) -> threadStep t x s = (s', new) -> forall t', t' ∈ new -> fits s' t'.
Proof.
  intros I E. pose proof (inv_fits _ _ I t ltac:(by left)) as F.
  pose proof (inv_cleanup _ _ I) as Hown. pose proof (inv_client _ _ I) as Hcl.
  destruct t; know_fits F; eval_step E; know_bools; fields.
  all: intros t' Ht'; repeat (apply elem_of_cons in Ht' as [->|Ht']); try by apply elem_of_nil in Ht'.
  all: constructor; cbn; autorewrite with lifecycle; cbn; try done; intros; simplify_eq;
    try (done || lia || congruence); try (split_and!; (done || lia || congruence)).
  all: try (case_match; simplify_eq; (done || apply shutdown_leased)).
  - destruct (client (lc s)) as [c1|] eqn:Ec; [simplify_eq; destruct (Hcl _ eq_refl) as [Hk _]|]; by apply Hown.
  - match goal with H : x_ok x = true |- _ => rewrite H end. apply shutdown_leased.
Qed.

(** Where the clients of a thread's successors come from. *)
Lemma new_clients t x s s' new :
  threadStep t x s = (s', new) -> forall t1, t1 ∈ new ->
  (forall c, spent t1 = Some c ->
     spent t = Some c \/ (attempting t = true /\ handles t = Some c) \/
     (generation (lc s') = S (generation (lc s)) /\ (client (lc s) = Some c \/ cleanup (lc s) = Some c))) /\
  (forall c, holding t1 = Some c -> holding t = Some c \/ c = nextOwner s) /\
  (forall g c, booting t1 = Some (g, c) -> holding t = Some c \/ booting t = Some (g, c)) /\
  (forall c t2, spent t1 = Some c -> t2 ∈ new -> holding t2 = None /\ booting t2 = None).
Proof.
  intros E. destruct t; eval_step E; fields.
  all: intros t1 Ht1; repeat (apply elem_of_cons in Ht1 as [->|Ht1]); try by apply elem_of_nil in Ht1.
  all: cbn; split_and!; try (intros; simplify_eq; auto; fail).
  all: try (intros c' t2 _ Ht2; repeat (apply elem_of_cons in Ht2 as [->|Ht2]); try (by apply elem_of_nil in Ht2); done).
  intros c' [= <-]. right; right. split; [done|]. destruct (client (lc s)); simplify_eq; auto.
Qed.

(** An attempt's step leaves no other attempt, and nothing else starts one but a
    worker whose turn it is. *)
Definition alone (t : Thread) (new ts : list Thread) : Prop :=
  attempting t = true \/ firing t new -> forall t', t' ∈ ts -> attempting t' = false.

Lemma step_fits t x s s' new ts :
  inv s (t :: ts) -> threadStep t x s = (s', new) -> alone t new ts -> forall t', t' ∈ new ++ ts -> fits s' t'.
Proof.
  intros I E Hal t' [Ht|Ht]%elem_of_app; [by eapply new_fits|].
  eapply others_fit; [exact E | apply I; by right | apply I; [by right | by left] |].
  intros Ha. split.
  - destruct (attempting t) eqn:Hat; [|done]. rewrite (Hal (or_introl Hat) _ Ht) in Ha. done.
  - intros Hf. by rewrite (Hal (or_intror Hf) _ Ht) in Ha.
Qed.

Lemma step_apart t x s s' new ts :
  inv s (t :: ts) -> threadStep t x s = (s', new) -> alone t new ts ->
  forall t1 t2, t1 ∈ new ++ ts -> t2 ∈ new ++ ts -> apart s' t1 t2.
Proof.
  intros I E Hal t1 t2 Ht1 Ht2 c Hs. pose proof (adv_generation _ _ (threadStep_advances _ _ _ _ _ E)) as Hadv.
  apply elem_of_app in Ht1 as [Ht1|Ht1], Ht2 as [Ht2|Ht2].
  - destruct (new_clients _ _ _ _ _ E t1 Ht1) as (_ & _ & _ & Hd). destruct (Hd c t2 Hs Ht2) as [-> ->]. done.
  - pose proof (inv_fits _ _ I t2 ltac:(by right)) as F.
    destruct (new_clients _ _ _ _ _ E t1 Ht1) as (Hsp & _).
    destruct (Hsp c Hs) as [Hst | [[Ha Hh] | [Hg Hc]]].
    + destruct (inv_apart _ _ I t t2 ltac:(by left) ltac:(by right) c Hst) as [Hn Hb]. split; [done|].
      intros g Hg. specialize (Hb g Hg). lia.
    + pose proof (Hal (or_introl Ha) _ Ht2) as Hna. split.
      * intros Hh2. by destruct (holding_spec _ _ Hh2) as (_ & ? & _); congruence.
      * intros g Hb. by destruct (booting_spec _ _ _ Hb) as (_ & ? & _); congruence.
    + split.
      * intros Hh2. destruct (holding_spec _ _ Hh2) as (_ & _ & He). destruct (fits_early _ _ F He). by destruct Hc; congruence.
      * intros g Hb. destruct (booting_spec _ _ _ Hb) as (_ & _ & Hgen & _). pose proof (fits_gen _ _ F g Hgen). lia.
  - pose proof (inv_fits _ _ I t1 ltac:(by right)) as F.
    pose proof (inv_apart _ _ I t1 t ltac:(by right) ltac:(by left) c Hs) as [Hn Hb].
    destruct (new_clients _ _ _ _ _ E t2 Ht2) as (_ & Hho & Hbo & _). split.
    + intros Hh. destruct (Hho c Hh) as [? | ->]; [done|].
      pose proof (fits_owner _ _ F _ (spent_handles _ _ Hs)). lia.
    + intros g Hg. destruct (Hbo g c Hg) as [?|Hg']; [done|]. specialize (Hb g Hg'). lia.
  - destruct (inv_apart _ _ I t1 t2 ltac:(by right) ltac:(by right) c Hs) as [Hn Hb]. split; [done|].
    intros g Hg. specialize (Hb g Hg). lia.
Qed.

(** What becomes of the shared fields, in a state of the invariant. *)
Lemma step_shared t x s s' new ts :
  inv s (t :: ts) -> threadStep t x s = (s', new) ->
  (attempting t = true -> cnt attempting new = if connecting (lc s') then 1 else 0) /\
  cnt (driving (lc s')) new <= (if driving (lc s) t then 1 else 0) /\
  (forall c, leased s = Some c -> cleanup (lc s) = Some c -> cleanup (lc s') = Some c) /\
  (forall c, holding t = Some c -> cleanup (lc s') = Some c \/ exists t1, t1 ∈ new /\ holding t1 = Some c) /\
  (forall c, cleanup (lc s') = Some c -> c < nextOwner s).
Proof.
  intros I E. pose proof (inv_fits _ _ I t ltac:(by left)) as F.
  pose proof (inv_cleanup _ _ I) as Hown.
  assert (Hcl : forall c, client (lc s) = Some c -> cleanup (lc s) = Some c) by (intros c Hc; by apply (inv_client _ _ I)).
  destruct t; know_fits F; eval_step E; know_bools; fields; unfold cnt; cbn; rewrite ?Nat.eqb_refl.
  all: repeat match goal with H : forall c, Some _ = Some c -> _ |- _ => specialize (H _ eq_refl) end.
  all: split_and!; try done; try (intros; simplify_eq; (done || lia || congruence || auto || by eauto)).
  all: try match goal with |- context [if owns ?c ?l && _ then _ else _] =>
    destruct (owns c l) eqn:Ho; [apply owns_spec in Ho|]; cbn; intros; congruence || auto end.
  all: try match goal with H : cleanup ?l = match client ?l' with _ => _ end |- context [cleanup ?l] =>
    rewrite H; destruct (client l') as [c1|] eqn:Ec; [rewrite <- (Hcl _ eq_refl)|]; auto end.
  all: try (repeat case_match; cbn; lia).
  all: try (intros ? [= ->]; right; eexists; by split; [left|]).
  all: try (match goal with H : isSome (cleanup ?l) = true, K : cleanup ?l = None |- _ => rewrite K in H end; done).
  all: by rewrite finish_mine.
Qed.

Lemma step_session t x s s' new ts :
  inv s (t :: ts) -> threadStep t x s = (s', new) ->
  (forall c, client (lc s) = Some c -> client (lc s') = Some c ->
     cleanup (lc s') = Some c /\ done (lc s') = done (lc s) /\ stopping (lc s') = stopping (lc s) /\
     generation (lc s') = generation (lc s) /\
     (pumping t = Some (generation (lc s), c) ->
      exists t1, t1 ∈ new /\ pumping t1 = Some (generation (lc s), c))) /\
  (forall c, client (lc s) <> Some c -> client (lc s') = Some c ->
     cleanup (lc s') = Some c /\ done (lc s') = Some c /\ stopping (lc s') = false /\
     exists t1, t1 ∈ new /\ pumping t1 = Some (generation (lc s'), c)) /\
  (busy (retained (lc s')) = true ->
     (busy (retained (lc s)) = true /\ cleanup (lc s') = cleanup (lc s) /\
      forall c, cleanup (lc s) = Some c -> closing t = Some c -> exists t1, t1 ∈ new /\ closing t1 = Some c) \/
     exists c t1, cleanup (lc s') = Some c /\ t1 ∈ new /\ closing t1 = Some c).
Proof.
  intros I E. pose proof (inv_fits _ _ I t ltac:(by left)) as F.
  assert (Hcl : forall c, client (lc s) = Some c -> cleanup (lc s) = Some c) by (intros c Hc; by apply (inv_client _ _ I)).
  destruct t; know_fits F; eval_step E; know_bools; fields.
  all: repeat match goal with H : forall c, Some _ = Some c -> _ |- _ => specialize (H _ eq_refl) end.
  all: split_and!; try (intros; (done || congruence)).
  all: try (intros c' Hc _; split_and!; (done || (by apply Hcl) || (intros [=]; simplify_eq; eexists; by split; [left|]))).
  all: try (intros Hb; left; split_and!; (done || (intros c' _ [=]; simplify_eq; eexists; by split; [left|]))).
  all: try (intros _; right; do 2 eexists; split_and!; [eassumption || reflexivity | by left | done]).
  all: try match goal with |- context [if owns ?c ?l && ?b then _ else _] =>
    destruct (owns c l) eqn:Ho; cbn;
      [apply owns_spec in Ho; rewrite ?andb_false_r |];
      [ by (discriminate || (intros c' Hc; exfalso; pose proof (Hcl _ Hc); congruence))
      | first [ intros c' Hc _; split_and!; (done || by apply Hcl)
              | intros Hb; left; split_and!; [by rewrite andb_true_r in Hb | done |];
                intros c' Hk [= ->]; rewrite (proj2 (owns_spec _ _) Hk) in Ho; discriminate ] ] end.
  - intros c' _ [= <-]. split_and!; [done..|]. eexists. split; [by left|]. cbn. congruence.
  - intros c' _ [= <-]. split_and!; [done..|]. eexists. split; [by left|]. cbn. congruence.
  - intros c' Hc _. split_and!; [by apply Hcl | done..|]. intros [= -> ->].
    eexists. split; [by right; left | done].
  - intros c' [= <-] _. split_and!; [by apply Hcl | done..|]. intros [= -> ->].
    match goal with H : _ || _ = true |- _ => by rewrite !Nat.eqb_refl in H end.
  - destruct (busy (retained (lc s))) eqn:Eb.
    + intros _. left. split_and!; [done | | done].
      match goal with H : cleanup c = _ |- _ => rewrite H end.
      destruct (client (lc s)) eqn:Ec; [symmetry; by apply Hcl | done].
    + intros _. right. exists n. eexists. split_and!; [congruence | by left |]. cbn.
      match goal with H : ownedByOther plan = _ |- _ => rewrite H, andb_false_r end. done.
  - destruct (client (lc s)); [congruence|]. simplify_eq.
    match goal with H : None = cleanup (lc s) |- _ => rewrite <- H in * end. cbn in *. intros Hb.
    left. split_and!; [congruence | done | done].
  - intros Hb. destruct other; [left; split_and!; done|]. left. split_and!; [done | done |]. intros c' _ [= <-].
    eexists. split; [by left | done].
Qed.

(** ** Preservation *)

Lemma driving_advances s s' t :
  advances s s' -> fits s t -> driving (lc s') t = true -> driving (lc s) t = true.
Proof.
  intros [A1 A2 A3 _] F.
  assert (Hg : forall g, gen t = Some g -> (g =? generation (lc s')) = true -> (g =? generation (lc s)) = true).
  { intros g Hg ->%Nat.eqb_eq. apply Nat.eqb_eq. pose proof (fits_gen _ _ F _ Hg). lia. }
  pose proof (fits_run _ _ F) as Hr.
  destruct t; cbn in *; try done; try (by apply Hg).
  all: intros [H1 H2]%andb_true_iff; apply andb_true_iff; (split; [by apply Hg|]).
  all: apply Nat.eqb_eq in H2 as ->; apply Nat.eqb_eq; lia.
Qed.

Lemma attempt_count s t ts : inv s (t :: ts) -> attempting t = true ->
  connecting (lc s) = true /\ cnt attempting ts = 0.
Proof.
  intros I Ha. pose proof (inv_attempt _ _ I) as Hc. rewrite cnt_cons, Ha in Hc.
  destruct (connecting (lc s)); [split; [done | lia] | lia].
Qed.

Lemma firing_step t x s s' new :
  threadStep t x s = (s', new) ->
  ~ firing t new \/
  (firing t new /\ connecting (lc s') = true /\ cnt attempting new = 1 /\ x_ok x = true /\
   stopping (lc s) = false /\ driving (lc s) t = true).
Proof.
  intros E. destruct t as [| | | | | | | | | | | | | | |g run| | | | | | | | | | | | | | | | | | | | | | |];
    try (left; by intros (? & ? & [=] & _)).
  cbn [threadStep connectOnceStep shutdownBootstrapStep startRetryLockedStep pumpStep sessionEndedStep cleanupRetryStep disconnectStep episodeExpiredStep] in E. destruct (_ || _) eqn:Hg; simplify_eq; [left; by intros (? & ? & _ & [=])|].
  know_bools. right. split; [by do 2 eexists|]. cbn. split_and!; try done.
  apply andb_true_iff. rewrite !Nat.eqb_eq. done.
Qed.

Lemma thread_inv t x s s' new ts :
  inv s (t :: ts) -> threadStep t x s = (s', new) -> alone t new ts -> inv s' (new ++ ts).
Proof.
  intros I E Hal. pose proof (threadStep_advances _ _ _ _ _ E) as Hadv.
  destruct (step_shared _ _ _ _ _ _ I E) as (Hatt & Hdrv & Hkeep & Hhold & Hown).
  destruct (step_session _ _ _ _ _ _ I E) as (Hsame & Hnew & Hbusy).
  constructor.
  - by eapply step_fits.
  - by eapply step_apart.
  - rewrite cnt_app. destruct (attempting t) eqn:Ha.
    + destruct (attempt_count _ _ _ I Ha) as [_ ->]. rewrite Nat.add_0_r. by apply Hatt.
    + destruct (firing_step _ _ _ _ _ E) as [Hf | (Hf & -> & -> & _)].
      * destruct (threadStep_calm _ _ _ _ _ E Ha Hf) as (-> & _ & _ & _ & Hn).
        rewrite (cnt_none' attempting new) by done. pose proof (inv_attempt _ _ I) as Hc.
        rewrite cnt_cons, Ha in Hc. done.
      * rewrite (cnt_none' attempting ts) by (apply Hal; by right). done.
  - rewrite cnt_app. pose proof (inv_driving _ _ I) as Hd. rewrite cnt_cons in Hd.
    assert (cnt (driving (lc s')) ts <= cnt (driving (lc s)) ts).
    { apply cnt_mono. intros t' Ht'. apply driving_advances; [done | apply I; by right]. }
    lia.
  - intros c Hc. pose proof (adv_owner _ _ Hadv).
    destruct (threadStep_leased _ _ _ _ _ E) as [Hl | [[Hl _] | (g & o & -> & Hl & Hl' & Hn & ->)]]; [| congruence |].
    + rewrite Hl in Hc. destruct (inv_leased _ _ I c Hc) as [Hlt [Hk | (t0 & Ht0 & Hh)]].
      { split; [lia | left; by apply Hkeep]. }
      split; [lia|]. apply elem_of_cons in Ht0 as [->|Ht0].
      * destruct (Hhold c Hh) as [?|(t1 & ? & ?)]; [by left | right; exists t1; split; [(apply elem_of_app; auto) | done]].
      * right. exists t0. split; [(apply elem_of_app; auto) | done].
    + rewrite Hl' in Hc. injection Hc as <-. split; [lia|]. right. eexists. split; [by left | done].
  - intros c Hc. destruct (decide (client (lc s) = Some c)) as [Hcs|Hcs].
    + destruct (Hsame c Hcs Hc) as (-> & -> & -> & -> & Hp).
      destruct (inv_client _ _ I c Hcs) as (_ & ? & ? & t0 & Ht0 & Hp0). do 3 (split; [done|]).
      apply elem_of_cons in Ht0 as [->|Ht0]; [destruct (Hp Hp0) as (t1 & ? & ?); exists t1 | exists t0];
        (split; [(apply elem_of_app; auto) | done]).
    + destruct (Hnew c Hcs Hc) as (? & ? & ? & t1 & ? & ?). do 3 (split; [done|]).
      exists t1. split; [(apply elem_of_app; auto) | done].
  - intros c Hc. pose proof (Hown c Hc). pose proof (adv_owner _ _ Hadv). lia.
  - intros Hb. destruct (Hbusy Hb) as [(Hb0 & Hk & Hcl) | (c & t1 & ? & ? & ?)].
    2: { exists c, t1. split; [done|]. split; [(apply elem_of_app; auto) | done]. }
    destruct (inv_busy _ _ I Hb0) as (c & t0 & Hc & Ht0 & Hcl0). exists c.
    apply elem_of_cons in Ht0 as [->|Ht0]; [destruct (Hcl c Hc Hcl0) as (t1 & ? & ?); exists t1 | exists t0];
      (split; [congruence|]); (split; [(apply elem_of_app; auto) | done]).
Qed.

(** An attempt that is not over leads the current generation, until it is stopped. *)
Lemma current_attempt_drives s ts t :
  inv s ts -> t ∈ ts -> attempting t = true -> tail t = false -> stopping (lc s) = false -> driving (lc s) t = true.
Proof.
  intros I Ht Ha Hnt Hst. pose proof (inv_fits _ _ I t Ht) as F.
  assert (Hg : exists g, gen t = Some g) by (destruct t; try done; eauto). destruct Hg as [g Hg].
  destruct (fits_attempt _ _ F g Ha Hg) as (_ & _ & Hcur). specialize (Hcur Hst).
  destruct t; try done; cbn in *; simplify_eq; by rewrite Nat.eqb_refl.
Qed.

(** The worker's turn comes when no attempt is left. *)
Lemma prompt_alone t x s s' new ts :
  inv s (t :: ts) -> threadStep t x s = (s', new) ->
  (forall g run, t = RetryWaiting g run -> x_ok x = true -> existsb tail ts = false) -> alone t new ts.
Proof.
  intros I E Hp [Ha|Hf] t' Ht'.
  - destruct (attempt_count _ _ _ I Ha) as [_ Hc]. by apply (cnt_none _ _ Hc).
  - destruct (firing_step _ _ _ _ _ E) as [?|(_ & _ & _ & Hok & Hst & Hd)]; [done|].
    destruct Hf as (g & run & -> & _). specialize (Hp g run eq_refl Hok).
    destruct (attempting t') eqn:Ha'; [|done].
    assert (Hnt : tail t' = false).
    { destruct (tail t') eqn:Et; [|done]. assert (Hex : existsb tail ts = true); [|congruence].
      apply existsb_exists. exists t'. split; [by apply list_elem_of_In | done]. }
    pose proof (current_attempt_drives _ _ _ I (proj2 (elem_of_cons _ _ _) (or_intror Ht')) Ha' Hnt Hst) as Hd'.
    pose proof (inv_driving _ _ I) as Hc. rewrite cnt_cons, Hd in Hc.
    assert (Hz : cnt (driving (lc s)) ts = 0) by lia. by rewrite (cnt_none _ _ Hz _ Ht') in Hd'.
Qed.

Lemma connect_inv s s' new ts : inv s ts -> Connect s = (s', new) -> inv s' (ts ++ new).
Proof.
  intros I E. unfold Connect in E. destruct (_ || _) eqn:Hg; [simplify_eq; by rewrite app_nil_r|].
  know_bools. match goal with H : connecting _ = false |- _ => rename H into Hcon end.
  destruct (kickedOut s); simplify_eq.
  { rewrite app_nil_r. destruct I as [I1 I2 I3 I4 I5 I6 I7 I8]. constructor; try done.
    intros t Ht. destruct (I1 t Ht). by constructor. }
  pose proof (inv_attempt _ _ I) as Hz. rewrite Hcon in Hz.
  assert (Hna : forall t, t ∈ ts -> attempting t = false) by (by apply cnt_none).
  assert (Hgen : forall t g, t ∈ ts -> gen t = Some g -> g <= generation (lc s)) by (intros t g Ht; by apply (inv_fits _ _ I t Ht)).
  constructor; cbn.
  - intros t [Ht|Ht]%elem_of_app.
    + destruct (inv_fits _ _ I t Ht) as [F1 F2 F3 F4 F5 F6 F7 F8].
      constructor; cbn; try done; try (rewrite (Hna t Ht); done).
      intros g Hg. pose proof (F1 g Hg). lia.
    + apply list_elem_of_singleton in Ht as ->. constructor; cbn; try done; intros; simplify_eq; done || lia.
  - intros t1 t2 [H1|H1]%elem_of_app [H2|H2]%elem_of_app c Hc; try (apply list_elem_of_singleton in H1 as ->; done).
    + destruct (inv_apart _ _ I t1 t2 H1 H2 c Hc) as [? Hb]. split; [done|]. cbn. intros g Hg. specialize (Hb g Hg). lia.
    + apply list_elem_of_singleton in H2 as ->. done.
  - rewrite cnt_app, Hz. done.
  - rewrite cnt_app, (cnt_none' _ ts); [unfold cnt; simpl; by destruct (_ =? _); simpl; lia|].
    intros t Ht. pose proof (Hgen t) as Hg. destruct t; try done; cbn in *;
      rewrite (proj2 (Nat.eqb_neq _ _)); try done; specialize (Hg _ Ht eq_refl); lia.
  - intros c Hc. destruct (inv_leased _ _ I c Hc) as [? [?|(t & ? & ?)]]; (split; [done|]); [by left|].
    right. exists t. split; [(apply elem_of_app; auto) | done].
  - intros c Hc. congruence.
  - apply (inv_cleanup _ _ I).
  - intros Hb. destruct (inv_busy _ _ I Hb) as (c & t & Hc & _). congruence.
Qed.

Lemma prompt_inv a b : prompt_step a b -> inv (life a) (threads a) -> inv (life b) (threads b).
Proof.
  destruct 1 as [s ts s' new E | s ts | s before t after x s' new E Hp]; cbn; intros I.
  - by eapply connect_inv.
  - apply (inv_perm _ (Entering Operator :: ts)); [by rewrite Permutation_app_comm|].
    destruct I as [I1 I2 I3 I4 I5 I6 I7 I8]. constructor; try done.
    + intros t [->|Ht]%elem_of_cons; [by constructor | by apply I1].
    + intros t1 t2 [->|H1]%elem_of_cons [->|H2]%elem_of_cons; try done. by apply I2.
    + intros c Hc. destruct (I5 c Hc) as [? [?|(t & ? & ?)]]; (split; [done|]); [by left|].
      right. exists t. split; [by right | done].
    + intros c Hc. destruct (I6 c Hc) as (? & ? & ? & t & ? & ?). do 3 (split; [done|]). exists t. split; [by right | done].
    + intros Hb. destruct (I8 Hb) as (c & t & ? & ? & ?). exists c, t. split; [done|]. split; [by right | done].
  - assert (Hperm : before ++ t :: after ≡ₚ t :: (before ++ after)) by (symmetry; apply Permutation_middle).
    apply (inv_perm _ _ _ Hperm) in I.
    apply (inv_perm _ (new ++ (before ++ after))); [by rewrite Permutation_app_swap_app|].
    eapply thread_inv; [exact I | exact E|]. by eapply prompt_alone.
Qed.

Lemma reachable_inv a : rtc prompt_step (mkSystem initial []) a -> inv (life a) (threads a).
Proof.
  intros H. assert (G : forall x y, rtc prompt_step x y -> inv (life x) (threads x) -> inv (life y) (threads y)).
  { induction 1 as [|x y z Hxy _ IH]; [done|]. intros I. apply IH. by eapply prompt_inv. }
  eapply G; [exact H | apply inv_initial].
Qed.
