(* ===== verification/LifecycleTheorems.v ===== *)
(** * Properties of the connection lifecycle

    What the interleavings of Connect, Disconnect, the recovery workers, the
    event pump and the watchdog guarantee (Lifecycle.v). *)

From S2P Require Import Prelude.
From S2P Require Import Pump RecoverySchedule Lifecycle LifecycleFacts LifecycleInvariant.

#[local] Open Scope list_scope.
#[local] Open Scope nat_scope.

Definition reachable (a : System) : Prop := rtc prompt_step (mkSystem initial []) a.

(** ** A concrete run *)

Definition demoExternal (ok : bool) : External :=
  mkExternal ok true 0%Z (mkFailure "connect" ErrTransport) true (mkExit true false false None).

(** The step of the [n]th thread, when it may be taken. *)
Definition runThread (n : nat) (ok : bool) (a : System) : System :=
  match threads a !! n with
  | Some t =>
      let '(s, new) := threadStep t (demoExternal ok) (life a) in
      mkSystem s (take n (threads a) ++ new ++ drop (S n) (threads a))
  | None => a
  end.

(** No worker is waiting: every step is prompt. *)
Definition noWorker (t : Thread) : bool := match t with RetryWaiting _ _ => false | _ => true end.

Inductive Move := DoConnect | DoDisconnect | Do (n : nat) (ok : bool).

Definition move (m : Move) (a : System) : System :=
  match m with
  | DoConnect => let '(s, new) := Connect (life a) in mkSystem s (threads a ++ new)
  | DoDisconnect => mkSystem (life a) (threads a ++ [Entering Operator])
  | Do n ok => runThread n ok a
  end.

(** Every state of the run, the first one excepted. *)
Fixpoint run (ms : list Move) (a : System) : list System :=
  match ms with [] => [] | m :: ms => move m a :: run ms (move m a) end.

Definition final (ms : list Move) (a : System) : System := foldl (fun a m => move m a) a ms.

(** Steps into states of [P]. *)
Definition within (P : System -> bool) (a b : System) : Prop := prompt_step a b /\ P b = true.

Lemma move_within P m a :
  forallb noWorker (threads a) = true -> P (move m a) = true -> rtc (within P) a (move m a).
Proof.
  intros Hw. destruct a as [s ts], m as [| |n ok]; cbn.
  - destruct (Connect s) as [s' new] eqn:E. intros HP. apply rtc_once. split; [by apply prompt_connect | done].
  - intros HP. apply rtc_once. split; [apply prompt_disconnect | done].
  - unfold runThread. cbn. destruct (ts !! n) as [t|] eqn:Et; [|done].
    destruct (threadStep t (demoExternal ok) s) as [s' new] eqn:E. intros HP. apply rtc_once. split; [|done].
    rewrite <- (take_drop_middle _ _ _ Et) at 1. eapply prompt_thread; [exact E|].
    intros g r -> _. apply list_elem_of_lookup_2 in Et.
    rewrite forallb_forall in Hw. apply list_elem_of_In, Hw in Et. done.
Qed.

Lemma run_within P ms a :
  forallb (fun b => forallb noWorker (threads b) && P b) (a :: run ms a) = true -> rtc (within P) a (final ms a).
Proof.
  revert a. induction ms as [|m ms IH]; intros a Hw; [done|].
  pose proof Hw as Hw'. cbn in Hw. rewrite !andb_true_iff in Hw. destruct Hw as [[Ha _] [[_ HP] _]].
  etrans; [by apply move_within|]. apply (IH (move m a)). cbn in Hw' |- *.
  by apply andb_true_iff in Hw' as [_ ?].
Qed.

Lemma run_prompt ms a :
  forallb (fun b => forallb noWorker (threads b)) (a :: run ms a) = true -> rtc prompt_step a (final ms a).
Proof.
  intros Hw. apply (rtc_subrel (within (fun _ => true))); [by intros x y [? _]|]. apply run_within.
  apply forallb_forall. intros b Hb. rewrite forallb_forall in Hw. by rewrite (Hw b Hb).
Qed.

(** Connect succeeds and the session's pump runs. *)
Definition demoConnect : list Move := DoConnect :: replicate 5 (Do 0 true).
Definition demoConnected : System := final demoConnect (mkSystem initial []).

Lemma demo_reachable : reachable demoConnected.
Proof. apply run_prompt. vm_compute. reflexivity. Qed.

(** KakaoTalk then signs the device out. *)
Definition demoKick : list Move := demoConnect ++ replicate 5 (Do 0 true).
Definition demoKicked : System := final demoKick (mkSystem initial []).

(** The session closes and the operator tries again. *)
Definition demoAfter : System := final (replicate 3 (Do 0 true) ++ [DoConnect]) demoKicked.

(** ** Results *)

(** C5: the profile is never lost: whoever calls Connect and Disconnect, however
    attempts, recoveries and cleanups interleave and whatever fails, a client
    that still holds the profile lease is the retained owner, which the next
    Disconnect or cleanup shuts down, or the client of the one attempt running,
    which is about to retain it or close it; and a Shutdown marked in flight is
    being carried out, so the mark never outlives it. *)
Theorem profile_never_lost a c :
  reachable a -> leased (life a) = Some c ->
  (cleanup (lc (life a)) = Some c \/
   (connecting (lc (life a)) = true /\ exists t : Thread, t ∈ threads a /\ holding t = Some c)) /\
  (busy (retained (lc (life a))) = true ->
   exists c' (t : Thread), cleanup (lc (life a)) = Some c' /\ t ∈ threads a /\ closing t = Some c').
Proof.
  intros R Hl. pose proof (reachable_inv _ R) as I. split; [|apply (inv_busy _ _ I)].
  destruct (inv_leased _ _ I c Hl) as [_ [Hk|(t & Ht & Hh)]]; [by left|]. right.
  split; [|by exists t]. destruct (holding_spec _ _ Hh) as (_ & Ha & _).
  assert (Hg : exists g, gen t = Some g) by (destruct t; try done; eauto). destruct Hg as [g Hg].
  apply (fits_attempt _ _ (inv_fits _ _ I t Ht) g Ha Hg).
Qed.

(** C13: there is one attempt at a time, marked exactly while it runs, and one
    session: the connected client is the retained owner, its event pump runs for
    the current generation, and nothing is stopping it.  So a mark is never left
    behind, and no superseded attempt or session is ever the connected one. *)
Theorem one_session a :
  reachable a ->
  cnt attempting (threads a) = (if connecting (lc (life a)) then 1 else 0) /\
  cnt (driving (lc (life a))) (threads a) <= 1 /\
  forall c, client (lc (life a)) = Some c ->
    cleanup (lc (life a)) = Some c /\ stopping (lc (life a)) = false /\
    exists t : Thread, t ∈ threads a /\ pumping t = Some (generation (lc (life a)), c).
Proof.
  intros R. pose proof (reachable_inv _ R) as I. split; [apply I|]. split; [apply I|].
  intros c Hc. destruct (inv_client _ _ I c Hc) as (? & _ & ? & ?). done.
Qed.

Lemma profile_never_lost_witness :
  leased (life demoConnected) = Some 0 /\
  (cleanup (lc (life demoConnected)) = Some 0 \/
   (connecting (lc (life demoConnected)) = true /\
    exists t : Thread, t ∈ threads demoConnected /\ holding t = Some 0)).
Proof.
  assert (L : leased (life demoConnected) = Some 0) by (vm_compute; reflexivity).
  destruct (profile_never_lost demoConnected 0 demo_reachable L) as [H _]. exact (conj L H).
Defined.

Lemma one_session_witness :
  client (lc (life demoConnected)) = Some 0 /\ stopping (lc (life demoConnected)) = false.
Proof.
  assert (C : client (lc (life demoConnected)) = Some 0) by (vm_compute; reflexivity).
  destruct (one_session demoConnected demo_reachable) as (_ & _ & H). split; [exact C | exact (proj1 (proj2 (H 0 C)))].
Defined.

(** ** Signed out by KakaoTalk *)

(** A thread that cannot lead to another login although it is the current one. *)
Definition hopeless (t : Thread) : bool :=
  match t with
  | SessionEnded _ _ e => kicked e
  | PumpClosing _ _ recover | PumpClosed _ _ _ recover | PumpCleaning _ _ recover
  | CleanWaiting _ _ recover _ | CleanClosing _ _ recover _ | CleanClosed _ _ _ recover _ => negb recover
  | _ => false
  end.

Definition stranded (s : Life) (ts : list Thread) : Prop :=
  kickedOut s = true /\ forall t, t ∈ ts ->
  (driving (lc s) t = true -> hopeless t = true) /\ (attempting t = true -> tail t = true).

Lemma stranded_step t x s s' new :
  threadStep t x s = (s', new) -> kickedOut s = true ->
  kickedOut s' = true /\
  ((driving (lc s) t = true -> hopeless t = true) ->
   forall t1, t1 ∈ new -> driving (lc s') t1 = true -> hopeless t1 = true).
Proof.
  intros E K. destruct t; eval_step E; know_bools; fields.
  all: split; [first [done | by destruct (shutdown_spec c (x_ok x) s) as [-> | (_ & _ & ->)]]|].
  all: intros Hh t1 Ht1; repeat (apply elem_of_cons in Ht1 as [->|Ht1]); try by apply elem_of_nil in Ht1.
  all: cbn; autorewrite with lifecycle; try (by auto).
  all: intros Hd; rewrite ?Nat.eqb_refl, ?andb_true_r in *; 
    try (specialize (Hh Hd)); cbn in *;
    try (by rewrite Hh); try done; try (by destruct recover).
  all: match goal with H : id _ = _ |- _ => rewrite H, Nat.eqb_refl, andb_true_r in Hh end; by rewrite (Hh Hd).
Qed.

Lemma tail_step t x s s' new :
  threadStep t x s = (s', new) -> tail t = true -> forall t1, t1 ∈ new -> attempting t1 = true -> tail t1 = true.
Proof.
  intros E Ht. destruct t; try discriminate Ht; eval_step E.
  all: intros t1 Ht1; repeat (apply elem_of_cons in Ht1 as [->|Ht1]); try (by apply elem_of_nil in Ht1); done.
Qed.

Lemma stranded_thread t x s s' new :
  threadStep t x s = (s', new) -> kickedOut s = true ->
  (driving (lc s) t = true -> hopeless t = true) -> (attempting t = true -> tail t = true) ->
  forall t1, t1 ∈ new -> (driving (lc s') t1 = true -> hopeless t1 = true) /\ (attempting t1 = true -> tail t1 = true).
Proof.
  intros E K Hd Ha t1 Ht1. destruct (stranded_step _ _ _ _ _ E K) as [_ Hnew].
  split; [by apply Hnew|]. destruct (attempting t) eqn:Et; [by apply (tail_step _ _ _ _ _ E (Ha eq_refl))|].
  destruct (firing_step _ _ _ _ _ E) as [Hf|(Hf & _ & _ & _ & _ & Hdr)].
  - destruct (threadStep_calm _ _ _ _ _ E Et Hf) as (_ & _ & _ & _ & Hn). by rewrite (Hn t1 Ht1).
  - destruct Hf as (g & run & -> & _). by specialize (Hd Hdr).
Qed.

Lemma stranded_prompt a b :
  prompt_step a b -> inv (life a) (threads a) -> stranded (life a) (threads a) -> stranded (life b) (threads b).
Proof.
  intros Hstep I [K Hall]. destruct Hstep as [s ts s' new E | s ts | s before t after x s' new E _]; cbn in *.
  - unfold Connect in E. rewrite K in E. destruct (_ || _); simplify_eq; by rewrite app_nil_r.
  - split; [done|]. intros t [Ht|Ht]%elem_of_app; [by apply Hall|]. by apply list_elem_of_singleton in Ht as ->.
  - destruct (stranded_step _ _ _ _ _ E K) as [K' _]. split; [done|].
    pose proof (threadStep_advances _ _ _ _ _ E) as Hadv.
    assert (Hold : forall t', t' ∈ before ++ t :: after ->
      (driving (lc s') t' = true -> hopeless t' = true) /\ (attempting t' = true -> tail t' = true)).
    { intros t' Ht'. destruct (Hall t' Ht') as [Hd Ha]. split; [|done]. intros Hd'. apply Hd.
      eapply driving_advances; [exact Hadv | by apply I | done]. }
    intros t' Ht'. rewrite !elem_of_app in Ht'. destruct Ht' as [Ht'|[Ht'|Ht']].
    + apply Hold, elem_of_app. by left.
    + assert (Hin : t ∈ before ++ t :: after) by (apply elem_of_app; right; by left).
      destruct (Hall t Hin) as [Hd Ha]. by apply (stranded_thread _ _ _ _ _ E K Hd Ha).
    + apply Hold, elem_of_app. right. by right.
Qed.

Lemma stranded_steps a b :
  rtc prompt_step a b -> inv (life a) (threads a) -> stranded (life a) (threads a) -> stranded (life b) (threads b).
Proof.
  induction 1 as [|a b c Hab _ IH]; [done|]. intros I S. apply IH; [by eapply prompt_inv | by eapply stranded_prompt].
Qed.

(** C14: a device that KakaoTalk signed out does not log in again: once the
    session's pump has recorded a KICKOUT while its session was the current one,
    no attempt to connect is started again in this process, neither by the
    recovery and cleanup workers already scheduled nor by Connect. *)
Theorem signed_out_stays_out a b g c e :
  reachable a -> kickedOut (life a) = true -> SessionEnded g c e ∈ threads a -> kicked e = true ->
  g = generation (lc (life a)) -> stopping (lc (life a)) = false ->
  rtc prompt_step a b -> forall g' o, ~ (Opening g' o ∈ threads b).
Proof.
  intros R K Hin He Hg Hst Hab. pose proof (reachable_inv _ R) as I.
  assert (Hone : forall t, t ∈ threads a -> driving (lc (life a)) t = true -> t = SessionEnded g c e).
  { intros t Ht Hd. apply (cnt_unique _ _ (inv_driving _ _ I) _ _ Ht Hin Hd). cbn. by rewrite Hg, Nat.eqb_refl. }
  assert (S0 : stranded (life a) (threads a)).
  { split; [done|]. intros t Ht. split; [intros Hd; by rewrite (Hone t Ht Hd)|].
    intros Ha. destruct (tail t) eqn:Et; [done|].
    pose proof (current_attempt_drives _ _ _ I Ht Ha Et Hst) as Hd. by rewrite (Hone t Ht Hd) in Ha. }
  destruct (stranded_steps _ _ Hab I S0) as [_ Hall]. intros g' o Ho.
  by destruct (Hall _ Ho) as [_ Ha]; specialize (Ha eq_refl).
Qed.

Lemma demo_kicked_reachable : reachable demoKicked /\ rtc prompt_step demoKicked demoAfter.
Proof. split; apply run_prompt; vm_compute; reflexivity. Qed.

Lemma signed_out_stays_out_witness :
  threads demoKicked = [SessionEnded 1 0 (mkExit true false false None); Armed 1 0] /\
  ~ (Opening 2 Explicit ∈ threads demoAfter).
Proof.
  assert (T : threads demoKicked = [SessionEnded 1 0 (mkExit true false false None); Armed 1 0])
    by (vm_compute; reflexivity).
  destruct demo_kicked_reachable as [R S].
  refine (conj T (signed_out_stays_out demoKicked demoAfter 1 0 (mkExit true false false None) R _ _ _ _ _ S 2 Explicit)).
  - vm_compute. reflexivity.
  - rewrite T. left.
  - reflexivity.
  - vm_compute. reflexivity.
  - vm_compute. reflexivity.
Defined.

(** ** A bootstrap that nobody closes *)

(** No Shutdown of any client is under way. *)
Definition noShutdown (a : System) : bool :=
  forallb (fun t => match closing t with Some _ => false | None => true end) (threads a).

(** Connect passes its check; Disconnect runs to its end; the attempt retains its
    client, fails and gives up. *)
Definition demoAbandon : list Move :=
  [DoConnect; Do 0 true; Do 0 true; DoDisconnect; Do 1 true; Do 1 true; Do 1 true;
   Do 0 true; Do 1 true; Do 0 false] ++ replicate 5 (Do 0 true).

(** A Disconnect between an attempt's check that it is current and its
    retaining of the client finds no owner to close, and the attempt, when its
    bootstrap then fails, leaves the closing to Disconnect: no Shutdown is ever
    called, nothing is left running, the profile stays open, and Connect refuses
    to start until another Disconnect. *)
Theorem stopped_bootstrap_keeps_profile :
  exists a c, rtc (within noShutdown) (mkSystem initial []) a /\
    threads a = [] /\ stopping (lc (life a)) = true /\ connecting (lc (life a)) = false /\
    leased (life a) = Some c /\ cleanup (lc (life a)) = Some c /\ Connect (life a) = (life a, []).
Proof.
  exists (final demoAbandon (mkSystem initial [])), 0. split.
  - apply run_within. vm_compute. reflexivity.
  - split_and!; vm_compute; reflexivity.
Qed.
