(* ===== verification/Pacing.v ===== *)
(** * Pacing of history requests (src/internal/client/history_admission.go,
      history_account.go, history_http.go and history_dependencies.go)

    One account's read-only requests share a schedule that a file keeps: a
    request reserves its cooldown in the file before it is sent and replaces the
    reservation by the final one when it is answered.  Every process of the
    account takes the same file lease for the whole of that, so a schedule is a
    sequence of dispatches over one file.

    [time.Time] is the number of nanoseconds since the zero time.  A dispatch's
    environment gives what each system call and each wait does, and how much
    time passes between two looks at the clock: a natural number, so the clock
    of a dispatch never goes back.  The contents of requests and replies are not
    looked at here: a demand's reply is any type. *)

From S2P Require Import Prelude PrivateJson.
From S2P Require Import Delivery.

#[local] Open Scope string_scope.
#[local] Open Scope list_scope.
#[local] Open Scope Z_scope.

(** ** Policies *)

Definition Second : Z := 1000000000.
Definition Hour : Z := 3600 * Second.

Record HistoryPacing := mkPacing {
  StateDirectory : string;
  MinimumInterval : Z;
  ErrorBackoff : Z;
  MaxPending : Z;
  MaximumDuration : Z;
}.

#[export] Instance HistoryPacing_eq_dec : EqDecision HistoryPacing.
Proof. solve_decision. Defined.

Inductive Error :=
| ErrProtocol
| ErrHistoryBusy
| ErrClientClosed
| ErrContext (* [ctx.Err()] *)
| errUnsafeLease
| errRootsDiffer
| errPoliciesDiffer
| ErrFile (e : PrivateJson.Error)
| ErrFetch (e : ClientError) (* what the demand's own code failed with *)
| ErrJoin (a b : Error).

Definition positiveOr (z default : Z) : Z := if z =? 0 then default else z.

Definition normalized (p : HistoryPacing) : res Error HistoryPacing :=
  let p := mkPacing (StateDirectory p)
             (positiveOr (MinimumInterval p) (2 * Second))
             (positiveOr (ErrorBackoff p) (30 * Second))
             (positiveOr (MaxPending p) 32)
             (positiveOr (MaximumDuration p) (60 * Second)) in
  if (MinimumInterval p <? 0) || (ErrorBackoff p <? MinimumInterval p)
     || (24 * Hour <? ErrorBackoff p) || (MaxPending p <? 1) || (4096 <? MaxPending p)
     || (MaximumDuration p <? 0) || (24 * Hour <? MaximumDuration p)
  then Err ErrProtocol else Ok p.

(** ** The record of a schedule *)

Record historyAdmissionState := mkAdmissionState {
  Version : Z;
  AccountID : Z;
  NextAllowed : Z;
  LastFinishedAt : Z;
  LastErrorAt : Z;
}.

Definition IsZero (t : Z) : bool := t =? 0.

Definition maxHistoryTime (a b : Z) : Z := if a <? b then b else a.

Definition validHistoryAdmissionState (now : Z) (s : historyAdmissionState) (accountID : Z) : bool :=
  (Version s =? 1) && (AccountID s =? accountID) && negb (IsZero (NextAllowed s))
  && negb (now + 24 * Hour <? NextAllowed s)
  && negb (now + 24 * Hour <? LastFinishedAt s)
  && negb (now + 24 * Hour <? LastErrorAt s).

Definition setNext (t : Z) (s : historyAdmissionState) : historyAdmissionState :=
  mkAdmissionState (Version s) (AccountID s) t (LastFinishedAt s) (LastErrorAt s).
Definition setFinished (t : Z) (s : historyAdmissionState) : historyAdmissionState :=
  mkAdmissionState (Version s) (AccountID s) (NextAllowed s) t (LastErrorAt s).
Definition setError (t : Z) (s : historyAdmissionState) : historyAdmissionState :=
  mkAdmissionState (Version s) (AccountID s) (NextAllowed s) (LastFinishedAt s) t.

(** What a dispatch uses of [historyAccountGate] and [historyAdmission]; [path]
    is empty for an admission that keeps no file of its own. *)
Record historyAccountGate := mkGate {
  legacyFloor : Z;
  gateFailed : option Error;
}.

Record historyAdmission := mkAdmission {
  state : historyAdmissionState;
  path : string;
  policy : HistoryPacing;
  failed : option Error;
}.

(** The gate owner's view: the clock, its admission, the account's gate if it is
    shared, and the file that [persist] writes. *)
Record Owner := mkOwner {
  clock : Z;
  adm : historyAdmission;
  shared : option historyAccountGate;
  disk : File historyAdmissionState;
}.

Definition tick (d : N) (o : Owner) : Owner :=
  mkOwner (clock o + Z.of_N d) (adm o) (shared o) (disk o).

Definition onState (f : historyAdmissionState -> historyAdmissionState) (o : Owner) : Owner :=
  let a := adm o in
  mkOwner (clock o) (mkAdmission (f (state a)) (path a) (policy a) (failed a)) (shared o) (disk o).

Definition fail (e : Error) (o : Owner) : Owner :=
  let a := adm o in
  mkOwner (clock o) (mkAdmission (state a) (path a) (policy a) (Some e))
    (option_map (fun g => mkGate (legacyFloor g) (Some e)) (shared o)) (disk o).

Definition failGate (e : Error) (o : Owner) : Owner :=
  mkOwner (clock o) (adm o) (option_map (fun g => mkGate (legacyFloor g) (Some e)) (shared o)) (disk o).

(** How a [select] between a wait, the caller's context and the admission's end
    comes out. *)
Inductive Wake := Woken | CtxDone | Stopped.

Section Pacing.
Context `{JSON historyAdmissionState}.

Definition persist (env : WriteEnv) (next : Z) (o : Owner) : Owner * option Error :=
  let o := onState (setNext next) o in
  let file := match shared o with Some _ => true | None => negb (String.eqb (path (adm o)) "") end in
  if file then
    let '(f, err) := WriteAtomic env (disk o) (state (adm o)) in
    let o := mkOwner (clock o) (adm o) (shared o) f in
    match err with
    | Some e => (fail (ErrFile e) o, Some (ErrFile e))
    | None => (o, None)
    end
  else (o, None).

(** ** The account's lease *)

(** [os.ReadDir] of the profile's directory: a name, and the file it names. *)
Record Entry := mkEntry {
  entryName : string;
  entryRead : ReadEnv;
  entryFile : File historyAdmissionState;
}.

(** Polls of a lease that another process holds, and how they end. *)
Inductive LeaseEnd := Leased | LeaseUnsafe | LeaseCtxDone | LeaseStopped.

Record AcquireEnv := mkAcquireEnv {
  q_gate : Wake; (* [shared.gate] *)
  q_gateWait : N;
  q_dir : LstatResult;
  q_polls : list N; (* beyond each 50 ms *)
  q_lease : LeaseEnd;
  q_read : ReadEnv;
  q_entries : option (list Entry);
  q_write : WriteEnv;
  q_close : bool; (* [lease.Close] *)
  q_readWait : N;
  q_importWait : N;
}.

Definition pollDelay : N := 50000000.

Definition polled (polls : list N) (o : Owner) : Owner :=
  fold_left (fun o d => tick (pollDelay + d) o) polls o.

(** The closure that [acquireAccount] returns; closing the lease can fail. *)
Definition release (env : AcquireEnv) (o : Owner) : Owner :=
  if q_close env then o else failGate errUnsafeLease o.

(** The loop over the siblings of the profile: the raised state, and the error
    that ends it. *)
Fixpoint importSiblings (now : Z) (entries : list Entry) (s : historyAdmissionState)
  : historyAdmissionState * option Error :=
  match entries with
  | [] => (s, None)
  | e :: entries =>
      if negb (HasSuffix (entryName e) ".history-admission") then importSiblings now entries s else
      match Read (entryRead e) (entryFile e) with
      | Err err => (s, Some (ErrFile err))
      | Ok None => importSiblings now entries s
      | Ok (Some legacy) =>
          if negb (AccountID legacy =? AccountID s) then importSiblings now entries s
          else if negb (validHistoryAdmissionState now legacy (AccountID s))
          then (s, Some (ErrFile ErrCorrupt))
          else importSiblings now entries
                 (setNext (maxHistoryTime (NextAllowed s) (NextAllowed legacy)) s)
      end
  end.

(** From the read of the shared record on, under the lease. *)
Definition underLease (env : AcquireEnv) (g : historyAccountGate) (o : Owner) : Owner * option Error :=
  let o := tick (q_readWait env) o in
  match Read (q_read env) (disk o) with
  | Err e => (release env o, Some (ErrFile e))
  | Ok found =>
      let bad := match found with
        | Some s => negb (validHistoryAdmissionState (clock o) s (AccountID (state (adm o))))
        | None => false
        end in
      if bad then (release env o, Some (ErrFile ErrCorrupt)) else
      let o := match found with Some s => onState (fun _ => s) o | None => o end in
      let o := onState (fun s => setNext (maxHistoryTime (NextAllowed s) (legacyFloor g)) s) o in
      match q_entries env with
      | None => (release env o, Some (ErrFile ErrCorrupt))
      | Some entries =>
          if (4096 <? Z.of_nat (length entries)) then (release env o, Some (ErrFile ErrCorrupt)) else
          let '(s, err) := importSiblings (clock o) entries (state (adm o)) in
          let o := tick (q_importWait env) (onState (fun _ => s) o) in
          match err with
          | Some e => (release env o, Some e)
          | None =>
              let later := match found with
                | Some s => NextAllowed s <? NextAllowed (state (adm o))
                | None => true
                end in
              if (clock o <? NextAllowed (state (adm o))) && later then
                let '(o, err) := persist (q_write env) (NextAllowed (state (adm o))) o in
                match err with
                | Some e => (release env o, Some e)
                | None => (o, None)
                end
              else (o, None)
          end
      end
  end.

Definition acquireAccount (env : AcquireEnv) (o : Owner) : Owner * option Error :=
  match shared o with
  | None => (o, None)
  | Some g =>
      match q_gate env with
      | CtxDone => (o, Some ErrContext)
      | Stopped => (o, Some ErrClientClosed)
      | Woken =>
          let o := tick (q_gateWait env) o in
          match gateFailed g with
          | Some e => (o, Some e)
          | None =>
              match ValidatePrivateDir (q_dir env) with
              | Some e => (o, Some (ErrFile e))
              | None =>
                  let o := polled (q_polls env) o in
                  match q_lease env with
                  | LeaseUnsafe => (o, Some errUnsafeLease)
                  | LeaseCtxDone => (o, Some ErrContext)
                  | LeaseStopped => (o, Some ErrClientClosed)
                  | Leased => underLease env g o
                  end
              end
          end
      end
  end.

(** ** Exchanges with the server *)

(** A request that went out: the reservation it went out under, when it left,
    and when its outcome was known. *)
Record Exchange := mkExchange { reservedAt : Z; sentAt : Z; finishedAt : Z }.

(** [LastErrorAt = time.Now()] and the write of the cooldown that follows it. *)
Definition reserve (env : WriteEnv) (o : Owner) : Owner * option Error :=
  let o := onState (setError (clock o)) o in
  persist env (LastErrorAt (state (adm o)) + ErrorBackoff (policy (adm o))) o.

(** Sending and waiting for the outcome. *)
Definition send (before took : N) (o : Owner) : Owner * Exchange :=
  let o := tick before o in
  let sent := clock o in
  let o := tick took o in
  (o, mkExchange (LastErrorAt (state (adm o))) sent (clock o)).

(** [time.Until] and the timer, when there is something to wait for. *)
Definition waitUntil (until : Z) (late : N) (w : Wake) (o : Owner) : Owner * option Error :=
  if 0 <? until - clock o then
    match w with
    | CtxDone => (o, Some ErrContext)
    | Stopped => (o, Some ErrClientClosed)
    | Woken => (mkOwner (Z.max (clock o) until + Z.of_N late) (adm o) (shared o) (disk o), None)
    end
  else (o, None).

(** *** HTTP exchanges inside one demand *)

Record historyHTTPPermit := mkPermit {
  requests : Z;
  lastFinished : Z;
  active : bool;
}.

(** One call of [roundTrip]; a response is finished when its body is closed,
    and another call waits for that. *)
Record RoundTrip := mkRoundTrip {
  rt_pause : N; (* before the call *)
  rt_wake : Wake; (* its request's context; the timer has no other end *)
  rt_late : N;
  rt_write : WriteEnv;
  rt_before : N;
  rt_took : N;
  rt_sent : option Error; (* [send]'s error or an absent response *)
}.

Definition roundTrip (rt : RoundTrip) (p : historyHTTPPermit) (o : Owner)
  : historyHTTPPermit * Owner * option Exchange * option Error :=
  let o := tick (rt_pause rt) o in
  if negb (active p) || (16 <=? requests p) then (p, o, None, Some ErrHistoryBusy) else
  let '(o, err) :=
    if 0 <? requests p then
      match waitUntil (lastFinished p + MinimumInterval (policy (adm o))) (rt_late rt)
              (match rt_wake rt with Stopped => CtxDone | w => w end) o with
      | (o, Some e) => (o, Some e)
      | (o, None) => reserve (rt_write rt) o
      end
    else (o, None) in
  match err with
  | Some e => (p, o, None, Some e)
  | None =>
      let '(o, x) := send (rt_before rt) (rt_took rt) o in
      (mkPermit (requests p + 1) (finishedAt x) (active p), o, Some x, rt_sent rt)
  end.

Fixpoint roundTrips (rts : list RoundTrip) (p : historyHTTPPermit) (o : Owner)
  : historyHTTPPermit * Owner * list Exchange :=
  match rts with
  | [] => (p, o, [])
  | rt :: rts =>
      let '(p, o, x, _) := roundTrip rt p o in
      let '(p, o, xs) := roundTrips rts p o in
      (p, o, option_list x ++ xs)
  end.

(** *** A demand's own code: one LOCO request, or HTTP exchanges under a permit *)

Section Demand.
Context {T : Type}.

Inductive Fetch :=
| FetchLoco (before took : N) (result : res ClientError T)
| FetchHTTP (rts : list RoundTrip) (result : res ClientError T).

(** A process can die while it waits: [None]. *)
Definition fetched (f : Fetch) (o : Owner) : Owner * list Exchange * res ClientError T :=
  match f with
  | FetchLoco before took r => let '(o, x) := send before took o in (o, [x], r)
  | FetchHTTP rts r =>
      let '(_, o, xs) := roundTrips rts (mkPermit 0 0 true) o in (o, xs, r)
  end.

Record DispatchEnv := mkDispatchEnv {
  e_gate : Wake;
  e_acquire : AcquireEnv;
  e_wake : Wake; (* the cooldown's timer *)
  e_late : N;
  e_ctx : bool; (* the context has ended by then *)
  e_reserve : WriteEnv;
  e_dies : bool; (* the process ends before the outcome is recorded *)
  e_done : N;
  e_final : WriteEnv;
}.

(** What a dispatch did: its exchanges, the outcome it saw (whether it was a
    success, and when), and whether that outcome was recorded.  A dispatch whose
    process ends has no result. *)
Record Report := mkReport {
  exchanges : list Exchange;
  outcome : option (bool * Z);
  recorded : bool;
}.

Definition unsent : Report := mkReport [] None false.

(** When the next request may go out. *)
Definition allowedAt (a : historyAdmission) : Z :=
  let allowed := NextAllowed (state a) in
  let allowed := if IsZero (LastFinishedAt (state a)) then allowed
    else maxHistoryTime allowed (LastFinishedAt (state a) + MinimumInterval (policy a)) in
  if IsZero (LastErrorAt (state a)) then allowed
  else maxHistoryTime allowed (LastErrorAt (state a) + ErrorBackoff (policy a)).

(** The record after the demand's code has come to [r]. *)
Definition conclude (env : DispatchEnv) (r : res Error T) (o : Owner) : Owner * res Error T * bool :=
  match r with
  | Err e =>
      let o := onState (setError (clock o)) o in
      let '(o, err) :=
        persist (e_final env) (LastErrorAt (state (adm o)) + ErrorBackoff (policy (adm o))) o in
      match err with
      | Some e' => (o, Err (ErrJoin e e'), false)
      | None => (o, Err e, true)
      end
  | Ok v =>
      let o := onState (fun s => setFinished (clock o) (setError 0 s)) o in
      let '(o, err) :=
        persist (e_final env) (LastFinishedAt (state (adm o)) + MinimumInterval (policy (adm o))) o in
      match err with
      | Some e => (o, Err e, false)
      | None => (o, Ok v, true)
      end
  end.

(** From the look at [a.failed] on, the account's lease held. *)
Definition admitted (env : DispatchEnv) (fetch : Fetch) (validate : T -> option ClientError) (o : Owner)
  : Owner * Report * option (res Error T) :=
  match failed (adm o) with
  | Some e => (o, unsent, Some (Err e))
  | None =>
      match waitUntil (allowedAt (adm o)) (e_late env) (e_wake env) o with
      | (o, Some e) => (o, unsent, Some (Err e))
      | (o, None) =>
          if e_ctx env then (o, unsent, Some (Err ErrContext)) else
          match reserve (e_reserve env) o with
          | (o, Some e) => (o, unsent, Some (Err e))
          | (o, None) =>
              let '(o, xs, r) := fetched fetch o in
              if e_dies env then (o, mkReport xs None false, None) else
              let r := match r with
                | Err e => Err (ErrFetch e)
                | Ok v => match validate v with Some e => Err (ErrFetch e) | None => Ok v end
                end in
              let o := tick (e_done env) o in
              let ended := clock o in
              let '(o, r', ok) := conclude env r o in
              (o, mkReport xs (Some (match r with Ok _ => true | Err _ => false end, ended)) ok, Some r')
          end
      end
  end.

Definition dispatchHistory (env : DispatchEnv) (fetch : Fetch) (validate : T -> option ClientError)
    (o : Owner) : Owner * Report * option (res Error T) :=
  match e_gate env with
  | CtxDone => (o, unsent, Some (Err ErrContext))
  | Stopped => (o, unsent, Some (Err ErrClientClosed))
  | Woken =>
      match acquireAccount (e_acquire env) o with
      | (o, Some e) => (o, unsent, Some (Err e))
      | (o, None) =>
          let '(o, report, r) := admitted env fetch validate o in
          (match shared o with Some _ => release (e_acquire env) o | None => o end, report, r)
      end
  end.

(** ** A schedule

    The dispatches of an account in the order in which they hold its lease, over
    the one file: each by some process's admission, whatever that process
    remembers, after some time. *)
Record Turn := mkTurn {
  t_pause : N;
  t_adm : historyAdmission;
  t_gate : historyAccountGate;
  t_env : DispatchEnv;
  t_fetch : Fetch;
  t_validate : T -> option ClientError;
}.

Definition takeTurn (t : Turn) (now : Z) (f : File historyAdmissionState)
  : Owner * Report * option (res Error T) :=
  dispatchHistory (t_env t) (t_fetch t) (t_validate t)
    (tick (t_pause t) (mkOwner now (t_adm t) (Some (t_gate t)) f)).

(** What each turn did, under its policy, and the clock and file they leave. *)
Fixpoint takeTurns (ts : list Turn) (now : Z) (f : File historyAdmissionState)
  : Z * File historyAdmissionState * list (HistoryPacing * Report) :=
  match ts with
  | [] => (now, f, [])
  | t :: ts =>
      let '(o, report, _) := takeTurn t now f in
      let '(now, f, reports) := takeTurns ts (clock o) (disk o) in
      (now, f, (policy (t_adm t), report) :: reports)
  end.

End Demand.
End Pacing.

Arguments Fetch : clear implicits.
Arguments Turn : clear implicits.

(** ** What is paced *)

Definition pacedMetadataCommand (command : string) : bool :=
  existsb (String.eqb command)
    ["CHATINFO"; "MEMBER"; "MEMLIST"; "GETMOMETA"; "GETMCMETA"; "CHATONROOM"].
