(* ===== verification/PacingFacts.v ===== *)
(** * What the steps of a dispatch keep of a schedule

    [Keeps f b]: whoever reads the record learns to wait until [b].  Raising the
    floor keeps everything; a reservation or a conclusion written at time [t]
    keeps every [b] up to [t] and adds its own cooldown. *)

From S2P Require Import Prelude PrivateJson Pacing.

#[local] Open Scope list_scope.
#[local] Open Scope Z_scope.

(** [encoding/json] spells times with nanoseconds, and a record is small. *)
Class AdmissionText `{JSON historyAdmissionState} : Prop := {
  text_wire (s : historyAdmissionState) : json_wire s = s;
  text_small (s : historyAdmissionState) : json_size s <= MaxSize;
}.

Definition policy_ok (p : HistoryPacing) : Prop :=
  0 <= MinimumInterval p /\ MinimumInterval p <= ErrorBackoff p /\ ErrorBackoff p <= 24 * Hour.

Lemma normalized_ok p q : normalized p = Ok q -> policy_ok q.
Proof.
  unfold normalized. cbn zeta. destruct (_ || _) eqn:E; [done|]. intros [= <-].
  bool_prop. split_and!; simpl in *; lia.
Qed.

Lemma maxHistoryTime_max a b : maxHistoryTime a b = Z.max a b.
Proof. unfold maxHistoryTime. destruct (a <? b) eqn:E; bool_prop; lia. Qed.

Section Facts.
Context `{AdmissionText}.
Implicit Types (o : Owner) (f : File historyAdmissionState) (b : Z) (s : historyAdmissionState).

Definition Keeps f b : Prop :=
  forall env r, Read env f = Ok r -> exists s, r = Some s /\ b <= NextAllowed s.

Definition good (account now : Z) f : Prop :=
  forall env s, Read env f = Ok (Some s) -> validHistoryAdmissionState now s account = true.

Lemma Read_written env s r :
  Read env (Present privateFile (encoded s)) = Ok r -> r = Some s.
Proof.
  destruct r as [s'|]; intros E.
  - by rewrite (Read_encoded_inv _ _ _ _ E), text_wire.
  - by apply Read_missing in E.
Qed.

Lemma Keeps_written s b : b <= NextAllowed s -> Keeps (Present privateFile (encoded s)) b.
Proof. intros Hb env r E. apply Read_written in E. eauto. Qed.

Lemma Keeps_inv s b : Keeps (Present privateFile (encoded s)) b -> b <= NextAllowed s.
Proof.
  intros Hk. pose proof (Read_encoded s) as E. pose proof (text_small s).
  replace (json_size s <=? MaxSize) with true in E by (symmetry; by apply Z.leb_le).
  rewrite text_wire in E. by destruct (Hk _ _ E) as (s' & [= <-] & ?).
Qed.

Lemma Keeps_le f b b' : b' <= b -> Keeps f b -> Keeps f b'.
Proof. intros Hb Hk env r E. destruct (Hk env r E) as (s & ? & ?). exists s. split; [done|lia]. Qed.

Lemma valid_iff now s account :
  validHistoryAdmissionState now s account = true <->
  Version s = 1 /\ AccountID s = account /\ NextAllowed s <> 0 /\
  NextAllowed s <= now + 24 * Hour /\ LastFinishedAt s <= now + 24 * Hour /\
  LastErrorAt s <= now + 24 * Hour.
Proof. unfold validHistoryAdmissionState, IsZero. rewrite !andb_true_iff, !negb_true_iff. lia. Qed.

Lemma good_later account now now' f : now <= now' -> good account now f -> good account now' f.
Proof.
  intros Hle Hg env s E. specialize (Hg env s E). rewrite valid_iff in *. intuition lia.
Qed.

Lemma good_written account now s :
  validHistoryAdmissionState now s account = true -> good account now (Present privateFile (encoded s)).
Proof. intros Hv env s' E. apply Read_written in E. by simplify_eq. Qed.

(** ** Writing the record *)

Definition is_shared o : Prop := is_Some (shared o).

(** The frame of every step: the clock, the policy, and who shares the file. *)
Definition within o o' : Prop :=
  clock o <= clock o' /\ policy (adm o') = policy (adm o) /\ (is_shared o -> is_shared o').

#[export] Instance within_preorder : PreOrder within.
Proof.
  split; [by intros o; split_and!|]. intros a b c (? & E & ?) (? & E' & ?). split_and!; [lia| |eauto].
  by rewrite E'.
Qed.

Lemma within_tick d o : within o (tick d o).
Proof. split_and!; simpl; [lia|done|done]. Qed.

Lemma within_onState g o : within o (onState g o).
Proof. by split_and!; simpl. Qed.

Lemma within_release env o : within o (release env o).
Proof.
  unfold release. destruct (q_close env); [done|]. split_and!; simpl; [lia|done|].
  intros [g E]. unfold is_shared. simpl. rewrite E. eauto.
Qed.

Lemma release_disk env o : disk (release env o) = disk o.
Proof. unfold release. by destruct (q_close env). Qed.

Lemma release_clock env o : clock (release env o) = clock o.
Proof. unfold release. by destruct (q_close env). Qed.

(** Whatever the write does, the file is as it was or holds the new record. *)
Lemma persist_spec env next o o' err :
  is_shared o -> persist env next o = (o', err) ->
  within o o' /\ clock o' = clock o /\ state (adm o') = setNext next (state (adm o)) /\
  (err <> None /\ disk o' = disk o \/
   disk o' = Present privateFile (encoded (setNext next (state (adm o))))).
Proof.
  intros [g Eg] E. unfold persist in E. cbn in E. rewrite Eg in E.
  destruct (WriteAtomic env _ _) as [f' e'] eqn:Ew.
  pose proof (WriteAtomic_atomic env (disk o) (setNext next (state (adm o)))) as Ha.
  rewrite Ew in Ha. simpl in Ha.
  destruct e' as [e'|]; simplify_eq/=.
  - split_and!; [split_and!; simpl; [lia|done|]| done | done |].
    + intros _. unfold is_shared. simpl. eauto.
    + destruct Ha as [-> | ->]; [by left|by right].
  - apply WriteAtomic_ok in Ew. subst. split_and!; [split_and!; simpl; [lia|done|]| done | done | by right].
    intros _. unfold is_shared. simpl. eauto.
Qed.

Lemma persist_keeps env next o o' err b :
  is_shared o -> persist env next o = (o', err) -> b <= next -> Keeps (disk o) b -> Keeps (disk o') b.
Proof.
  intros Hs E Hb Hk. destruct (persist_spec _ _ _ _ _ Hs E) as (_ & _ & _ & [[_ ->] | ->]); [done|].
  by apply Keeps_written.
Qed.

Lemma persist_written env next o o' :
  is_shared o -> persist env next o = (o', None) ->
  disk o' = Present privateFile (encoded (setNext next (state (adm o)))).
Proof. intros Hs E. by destruct (persist_spec _ _ _ _ _ Hs E) as (_ & _ & _ & [[? _] | ?]). Qed.

(** ** The lease *)

Lemma importSiblings_raises now entries s s' err :
  importSiblings now entries s = (s', err) ->
  NextAllowed s <= NextAllowed s' /\ s' = setNext (NextAllowed s') s.
Proof.
  revert s. induction entries as [|e entries IH]; simpl; intros s E.
  { simplify_eq. split; [lia|]. by destruct s'. }
  destruct (negb (HasSuffix _ _)); [eauto|].
  destruct (Read _ _) as [[legacy|]|]; simplify_eq/=; [|eauto|split; [lia|by destruct s']].
  destruct (negb _); [eauto|]. destruct (negb _); [simplify_eq; split; [lia|by destruct s']|].
  apply IH in E. rewrite maxHistoryTime_max in E. simpl in E. destruct E as [? E]. split; [lia|].
  rewrite E. by destruct s.
Qed.

Lemma polled_frame polls o :
  within o (polled polls o) /\ disk (polled polls o) = disk o /\
  adm (polled polls o) = adm o /\ shared (polled polls o) = shared o.
Proof.
  unfold polled. revert o. induction polls as [|d polls IH]; intros o; simpl; [by split_and!|].
  destruct (IH (tick (pollDelay + d) o)) as (? & -> & -> & ->). split_and!; try done.
  etrans; [apply within_tick|done].
Qed.

(** Nothing that was promised is forgotten. *)
Definition keeping o o' : Prop :=
  within o o' /\ forall b, Keeps (disk o) b -> Keeps (disk o') b.

#[export] Instance keeping_preorder : PreOrder keeping.
Proof.
  split; [by intros o; split|]. intros a b c [? Hk] [? Hk']. split; [by etrans|auto].
Qed.

Lemma keeping_frame o o' : within o o' -> disk o' = disk o -> keeping o o'.
Proof. intros ? E. split; [done|]. by rewrite E. Qed.

Lemma keeping_release env o : keeping o (release env o).
Proof. apply keeping_frame; [apply within_release|apply release_disk]. Qed.

Lemma keeping_tick d o : keeping o (tick d o).
Proof. apply keeping_frame; [apply within_tick|done]. Qed.

Lemma keeping_onState g o : keeping o (onState g o).
Proof. apply keeping_frame; [apply within_onState|done]. Qed.

Lemma keeping_shared o o' : is_shared o -> keeping o o' -> is_shared o'.
Proof. intros Hs [(_ & _ & Hi) _]. auto. Qed.

Lemma found_raises env o r b :
  Read env (disk o) = Ok r -> Keeps (disk o) b ->
  b <= NextAllowed (state (adm (match r with Some s => onState (fun _ => s) o | None => o end))).
Proof. intros E Hk. by destruct (Hk _ _ E) as (s & -> & ?). Qed.

Lemma persist_keeping env o o' err :
  is_shared o -> persist env (NextAllowed (state (adm o))) o = (o', err) ->
  (forall b, Keeps (disk o) b -> b <= NextAllowed (state (adm o))) ->
  keeping o o' /\ state (adm o') = state (adm o).
Proof.
  intros Hs E Hb. destruct (persist_spec _ _ _ _ _ Hs E) as (Hw & _ & Est & _).
  split; [split; [done|]|].
  - intros b Hk. eapply persist_keeps; [exact Hs|exact E|by apply Hb|done].
  - rewrite Est. by destruct (state (adm o)).
Qed.

Lemma underLease_spec env g o o' err :
  is_shared o -> underLease env g o = (o', err) ->
  keeping o o' /\
  (err = None -> forall b, Keeps (disk o') b -> b <= NextAllowed (state (adm o'))).
Proof.
  intros Hs E. unfold underLease in E. cbn zeta in E.
  pose proof (keeping_tick (q_readWait env) o) as Ht.
  set (o1 := tick (q_readWait env) o) in *.
  assert (Hrel : forall o2, keeping o1 o2 -> keeping o (release env o2)).
  { intros o2 Hk. etrans; [exact Ht|]. etrans; [exact Hk|apply keeping_release]. }
  destruct (Read (q_read env) (disk o1)) as [found|e] eqn:Er; [|simplify_eq; by split; [apply Hrel|]].
  destruct (match found with Some _ => _ | None => _ end) eqn:Ebad in E;
    [simplify_eq; by split; [apply Hrel|]|].
  set (o2 := onState _ (match found with Some _ => _ | None => _ end)) in E.
  assert (H2 : keeping o1 o2).
  { unfold o2. etrans; [|apply keeping_onState]. destruct found; [apply keeping_onState|done]. }
  assert (Hb2 : forall b, Keeps (disk o) b -> b <= NextAllowed (state (adm o2))).
  { intros b Hk. pose proof (found_raises _ _ _ _ Er (proj2 Ht b Hk)) as Hle.
    unfold o2. simpl. rewrite maxHistoryTime_max. lia. }
  destruct (q_entries env) as [entries|]; [|simplify_eq; by split; [apply Hrel|]].
  destruct (4096 <? _); [simplify_eq; by split; [apply Hrel|]|].
  destruct (importSiblings _ _ _) as [s ierr] eqn:Ei.
  apply importSiblings_raises in Ei as [Hs2 _].
  set (o3 := tick _ (onState _ o2)) in E.
  assert (H3 : keeping o1 o3).
  { etrans; [exact H2|]. etrans; [apply keeping_onState|apply keeping_tick]. }
  assert (Hb3 : forall b, Keeps (disk o) b -> b <= NextAllowed (state (adm o3))).
  { intros b Hk. specialize (Hb2 b Hk). unfold o3. simpl. lia. }
  destruct ierr as [e|]; [simplify_eq; by split; [apply Hrel|]|].
  assert (Hd3 : disk o3 = disk o) by (unfold o3, o2; by destruct found).
  destruct (_ && _) eqn:Elater;
    [|injection E as <- <-; split; [by etrans|intros _; by rewrite Hd3]].
  assert (Hs3 : is_shared o3) by (eapply keeping_shared; [|etrans; [exact Ht|exact H3]]; done).
  destruct (persist _ _ _) as [o4 perr] eqn:Ep.
  destruct (persist_keeping _ _ _ _ Hs3 Ep) as [H4 Est]; [rewrite Hd3; auto|].
  assert (keeping o1 o4) by (etrans; [exact H3|done]).
  destruct perr as [e|]; injection E as <- <-; [by split; [apply Hrel|]|].
  split; [by etrans|]. intros _ b Hk. rewrite Est.
  rewrite (persist_written _ _ _ _ Hs3 Ep) in Hk. by apply Keeps_inv in Hk.
Qed.

Lemma acquireAccount_spec env o o' err :
  is_shared o -> acquireAccount env o = (o', err) ->
  keeping o o' /\
  (err = None -> forall b, Keeps (disk o') b -> b <= NextAllowed (state (adm o'))).
Proof.
  intros [g Eg] E. unfold acquireAccount in E. rewrite Eg in E. cbn zeta in E.
  destruct (q_gate env); [|by simplify_eq..].
  pose proof (keeping_tick (q_gateWait env) o) as Ht. set (o1 := tick (q_gateWait env) o) in *.
  destruct (gateFailed g); [by simplify_eq|].
  destruct (ValidatePrivateDir _); [by simplify_eq|].
  destruct (polled_frame (q_polls env) o1) as (Hw & Hd & Ha & Hsh).
  assert (Hp : keeping o (polled (q_polls env) o1)) by (etrans; [exact Ht|by apply keeping_frame]).
  destruct (q_lease env); [|by simplify_eq..].
  apply underLease_spec in E as [Hk Hb]; [|unfold is_shared; rewrite Hsh; simpl; eauto].
  split; [by etrans|done].
Qed.

(** ** Waiting and sending *)

Lemma waitUntil_spec until late w o o' err :
  waitUntil until late w o = (o', err) ->
  within o o' /\ disk o' = disk o /\ adm o' = adm o /\ (err = None -> until <= clock o').
Proof.
  unfold waitUntil. destruct (0 <? until - clock o) eqn:E; bool_prop.
  - destruct w; intros ?; simplify_eq/=; split_and!; try done; try lia; split_and!; simpl; try done; lia.
  - intros ?; simplify_eq. split_and!; try done. lia.
Qed.

Lemma allowedAt_floor a : NextAllowed (state a) <= allowedAt a.
Proof.
  unfold allowedAt. rewrite !maxHistoryTime_max.
  destruct (IsZero (LastFinishedAt _)), (IsZero (LastErrorAt _)); lia.
Qed.

Lemma reserve_spec env o o' err :
  is_shared o -> policy_ok (policy (adm o)) -> reserve env o = (o', err) ->
  within o o' /\ clock o' = clock o /\ LastErrorAt (state (adm o')) = clock o /\
  (forall b, b <= clock o + ErrorBackoff (policy (adm o)) -> Keeps (disk o) b -> Keeps (disk o') b) /\
  (err = None -> Keeps (disk o') (clock o + ErrorBackoff (policy (adm o)))).
Proof.
  intros Hs (? & ? & _) E. unfold reserve in E. cbn in E.
  destruct (persist_spec env _ (onState (setError (clock o)) o) _ _ Hs E) as (Hw & Hc & Est & _).
  split_and!; [etrans; [apply within_onState|done]|done|by rewrite Est| |].
  - intros b Hb Hk. eapply persist_keeps; [|exact E| |exact Hk]; [done|lia].
  - intros ->. apply persist_written in E; [|done]. rewrite E. by apply Keeps_written.
Qed.

Lemma send_spec before took o o' x :
  send before took o = (o', x) -> LastErrorAt (state (adm o)) <= clock o ->
  keeping o o' /\ adm o' = adm o /\ disk o' = disk o /\
  reservedAt x = LastErrorAt (state (adm o)) /\ reservedAt x <= sentAt x /\
  sentAt x <= finishedAt x /\ finishedAt x = clock o'.
Proof.
  unfold send. intros [= <- <-] Hle. simpl. split_and!; try done; try lia.
  split; [split_and!; simpl; try done; lia|done].
Qed.

(** Exchanges one after the other, [gap] apart. *)
Fixpoint chained (from gap : Z) (xs : list Exchange) : Prop :=
  match xs with
  | [] => True
  | x :: xs =>
      from <= reservedAt x /\ reservedAt x <= sentAt x /\ sentAt x <= finishedAt x /\
      chained (finishedAt x + gap) gap xs
  end.

(** How far a permit has come: [q] is the last reservation that was written. *)
Definition permitted (p : historyHTTPPermit) o (q : Z) : Prop :=
  0 <= requests p <= 16 /\ q <= clock o /\
  Keeps (disk o) (q + ErrorBackoff (policy (adm o))) /\
  (if requests p =? 0 then LastErrorAt (state (adm o)) = q else lastFinished p <= clock o).

(** The earliest next reservation under the permit. *)
Definition opens (p : historyHTTPPermit) (q gap : Z) : Z :=
  if requests p =? 0 then q else lastFinished p + gap.

Lemma roundTrip_spec rt p o q p' o' x err :
  is_shared o -> policy_ok (policy (adm o)) -> permitted p o q ->
  roundTrip rt p o = (p', o', x, err) ->
  within o o' /\ (forall b, b <= clock o -> Keeps (disk o) b -> Keeps (disk o') b) /\
  exists q', q <= q' /\ permitted p' o' q' /\
  match x with
  | None => p' = p
  | Some x =>
      opens p q (MinimumInterval (policy (adm o))) <= reservedAt x /\ reservedAt x <= q' /\
      reservedAt x <= sentAt x /\ sentAt x <= finishedAt x /\
      finishedAt x = clock o' /\ lastFinished p' = clock o' /\ requests p' = requests p + 1
  end.
Proof.
  intros Hs Hpol (Hreq & Hq & Hk & Hlast) E. unfold roundTrip in E. cbn zeta in E.
  pose proof (keeping_tick (rt_pause rt) o) as Ht. set (o1 := tick (rt_pause rt) o) in *.
  assert (Hc1 : clock o <= clock o1) by (apply Ht).
  assert (Hstay : forall o2, within o o2 -> disk o2 = disk o -> adm o2 = adm o -> permitted p o2 q).
  { intros o2 (? & _) Hd Ha. unfold permitted. rewrite Hd, Ha. split_and!; [lia..|done|].
    destruct (_ =? _); [done|lia]. }
  destruct (negb _ || _) eqn:Eact.
  { injection E as <- <- <- <-. split_and!; [apply Ht|by intros|].
    exists q. split_and!; [lia|by apply Hstay; [apply Ht|..]|done]. }
  bool_prop. unfold opens. destruct (0 <? requests p) eqn:Er; bool_prop.
  - destruct (requests p =? 0) eqn:Ez; bool_prop; [lia|].
    destruct (waitUntil _ _ _ o1) as [o2 werr] eqn:Ew.
    apply waitUntil_spec in Ew as (Hw2 & Hd2 & Ha2 & Hu).
    assert (Hw12 : within o o2) by (etrans; [apply Ht|done]).
    destruct werr as [e|].
    { injection E as <- <- <- <-. split_and!; [done|by rewrite Hd2|].
      exists q. split_and!; [lia|by apply Hstay; rewrite ?Hd2, ?Ha2|done]. }
    assert (Hs2 : is_shared o2) by (by apply Hw12).
    specialize (Hu eq_refl). simpl in Hu.
    destruct (reserve _ o2) as [o3 rerr] eqn:Eres.
    apply reserve_spec in Eres as (Hw3 & Hc3 & Hle3 & Hk3 & Hn3); [|done|by rewrite Ha2].
    rewrite Ha2 in Hk3, Hn3. rewrite Hd2 in Hk3. simpl in Hk3, Hn3.
    assert (Hw13 : within o o3) by (by etrans).
    pose proof (proj1 Hw12) as Hc2. destruct Hpol as (? & ? & _).
    destruct rerr as [e|].
    { injection E as <- <- <- <-. split_and!; [done| |].
      - intros b Hb. apply Hk3. lia.
      - exists q. split_and!; [lia| |done]. unfold permitted. rewrite (proj1 (proj2 Hw13)), Hc3.
        replace (requests p =? 0) with false by (symmetry; apply Z.eqb_neq; lia).
        split_and!; [lia..| |lia]. apply Hk3; [lia|done]. }
    destruct (send _ _ o3) as [o4 x'] eqn:Es.
    apply send_spec in Es as (Hk4 & Ha4 & Hd4 & Hx1 & Hx2 & Hx3 & Hx4); [|lia].
    injection E as <- <- <- <-. split_and!; [etrans; [done|apply Hk4]| |].
    + intros b Hb Hkb. rewrite Hd4. apply Hk3; [lia|done].
    + exists (clock o2). pose proof (proj1 (proj1 Hk4)). split_and!; simpl; try lia.
      unfold permitted. simpl. rewrite Ha4, Hd4, (proj1 (proj2 Hw13)).
      replace (requests p + 1 =? 0) with false by (symmetry; apply Z.eqb_neq; lia).
      split_and!; try lia. by apply Hn3.
  - replace (requests p =? 0) with true in * by (symmetry; apply Z.eqb_eq; lia).
    destruct (send _ _ o1) as [o4 x'] eqn:Es.
    apply send_spec in Es as (Hk4 & Ha4 & Hd4 & Hx1 & Hx2 & Hx3 & Hx4); [|simpl; lia].
    injection E as <- <- <- <-. pose proof (proj1 (proj1 Hk4)) as Hc4.
    split_and!; [etrans; [apply Ht|apply Hk4]| |].
    + intros b Hb Hkb. by rewrite Hd4.
    + exists q. simpl in Hx1. split_and!; simpl; try lia.
      unfold permitted. simpl. rewrite Ha4, Hd4. simpl.
      replace (requests p + 1 =? 0) with false by (symmetry; apply Z.eqb_neq; lia).
      split_and!; try lia. done.
Qed.

(** What the exchanges of one demand owe each other. *)
Definition demand_ok (o o' : Owner) (from q : Z) (xs : list Exchange) : Prop :=
  within o o' /\ (forall b, b <= clock o -> Keeps (disk o) b -> Keeps (disk o') b) /\
  exists q', q <= q' /\ q' <= clock o' /\ Keeps (disk o') (q' + ErrorBackoff (policy (adm o))) /\
  chained from (MinimumInterval (policy (adm o))) xs /\
  Forall (fun x => reservedAt x <= q' /\ finishedAt x <= clock o') xs.

Lemma roundTrips_spec rts p o q p' o' xs :
  is_shared o -> policy_ok (policy (adm o)) -> permitted p o q ->
  roundTrips rts p o = (p', o', xs) ->
  demand_ok o o' (opens p q (MinimumInterval (policy (adm o)))) q xs /\
  Z.of_nat (length xs) <= 16 - requests p.
Proof.
  revert p o q p' o' xs. induction rts as [|rt rts IH]; intros p o q p' o' xs Hs Hpol Hp E; simpl in E.
  { injection E as <- <- <-. destruct Hp as (? & ? & ? & _). split; [|simpl; lia].
    split; [done|]. split; [done|]. exists q. split_and!; try done; lia. }
  destruct (roundTrip rt p o) as [[[p1 o1] x] err] eqn:E1.
  destruct (roundTrips rts p1 o1) as [[p2 o2] xs2] eqn:E2. injection E as <- <- <-.
  destruct (roundTrip_spec _ _ _ _ _ _ _ _ Hs Hpol Hp E1) as (Hw1 & Hk1 & q1 & Hq1 & Hp1 & Hx).
  pose proof (proj1 (proj2 Hw1)) as Hpe.
  destruct (IH p1 o1 q1 p2 o2 xs2) as [(Hw2 & Hk2 & q2 & Hq2 & Hq2c & Hkq2 & Hch & Hall) Hlen];
    [by apply Hw1|by rewrite Hpe|done|done|].
  rewrite Hpe in Hkq2, Hch. pose proof (proj1 Hw1) as Hc1. pose proof (proj1 Hw2) as Hc2.
  assert (Hk : forall b, b <= clock o -> Keeps (disk o) b -> Keeps (disk o2) b).
  { intros b Hb Hkb. apply Hk2; [lia|]. by apply Hk1. }
  destruct x as [x|]; simpl.
  - destruct Hx as (Hx1 & Hx2 & Hx3 & Hx4 & Hx5 & Hx6 & Hx7). split; [|lia].
    split; [by etrans|]. split; [done|]. exists q2. split_and!; try done; [lia|simpl|].
    + split_and!; try done. unfold opens in Hch. rewrite Hx7 in Hch.
      replace (requests p + 1 =? 0) with false in Hch
        by (symmetry; apply Z.eqb_neq; destruct Hp as (? & _); lia).
      by rewrite Hx5, <- Hx6.
    + constructor; [lia|done].
  - subst p1. split; [|done]. split; [by etrans|]. split; [done|]. exists q2.
    split_and!; try done; [lia|]. revert Hch. unfold opens. destruct (requests p =? 0); [|done].
    intros Hch. destruct xs2; [done|]. simpl in *. split_and!; try apply Hch. lia.
Qed.

(** ** One dispatch *)

Section Dispatch.
Context {T : Type}.
Implicit Types (fetch : Fetch T) (env : DispatchEnv).

Definition answered (rep : Report) : bool :=
  match outcome rep with Some (ok, _) => ok | None => false end.

(** The cooldown that the outcome of a dispatch calls for. *)
Definition cooldown (p : HistoryPacing) (rep : Report) : Z :=
  if answered rep then MinimumInterval p else ErrorBackoff p.

(** A later request reserved at [t] respects the dispatch: it comes a cooldown
    after each of its reservations, and a cooldown after each of its exchanges
    ended if that was recorded. *)
Definition respects (p : HistoryPacing) (rep : Report) (t : Z) : Prop :=
  Forall (fun x =>
    reservedAt x + cooldown p rep <= t /\
    (recorded rep = true -> finishedAt x + cooldown p rep <= t)) (exchanges rep).

Lemma chained_from from gap xs :
  0 <= gap -> chained from gap xs -> Forall (fun x => from <= reservedAt x) xs.
Proof.
  intros Hg. revert from. induction xs as [|x xs IH]; intros from Hc; [constructor|].
  destruct Hc as (? & ? & ? & Hc). constructor; [done|].
  eapply Forall_impl; [exact (IH _ Hc)|]. simpl. lia.
Qed.

Lemma fetched_spec fetch o o' xs r :
  is_shared o -> policy_ok (policy (adm o)) -> LastErrorAt (state (adm o)) = clock o ->
  Keeps (disk o) (clock o + ErrorBackoff (policy (adm o))) ->
  fetched fetch o = (o', xs, r) ->
  demand_ok o o' (clock o) (clock o) xs /\ Z.of_nat (length xs) <= 16.
Proof.
  intros Hs Hpol Hl Hk E. destruct fetch as [before took r0|rts r0]; unfold fetched in E.
  - destruct (send before took o) as [o1 x] eqn:Es. injection E as <- <- <-.
    apply send_spec in Es as (Hk1 & Ha & Hd & Hx1 & Hx2 & Hx3 & Hx4); [|lia].
    pose proof (proj1 (proj1 Hk1)). split; [|done]. split; [exact (proj1 Hk1)|]. split; [by rewrite Hd|].
    exists (clock o). rewrite Hd. split_and!; try done; try lia.
    + simpl. split_and!; [lia..|done].
    + constructor; [lia|constructor].
  - destruct (roundTrips rts _ o) as [[p' o1] xs1] eqn:Er. injection E as <- <- <-.
    eapply (roundTrips_spec rts _ o (clock o)) in Er as [Hd Hlen]; [by split|done|done|].
    unfold permitted. simpl. split_and!; try done; lia.
Qed.

Lemma conclude_spec env r o o' (r' : res Error T) ok :
  is_shared o -> policy_ok (policy (adm o)) -> conclude env r o = (o', r', ok) ->
  let gap := match r with Ok _ => MinimumInterval (policy (adm o))
             | Err _ => ErrorBackoff (policy (adm o)) end in
  within o o' /\ clock o' = clock o /\
  (forall b, b <= clock o + gap -> Keeps (disk o) b -> Keeps (disk o') b) /\
  (ok = true -> Keeps (disk o') (clock o + gap)).
Proof.
  intros Hs _ E. unfold conclude in E. cbn zeta in E.
  destruct r as [v|e]; (destruct (persist _ _ _) as [o1 err] eqn:Ep);
    (pose proof (persist_spec _ _ (onState _ o) _ _ Hs Ep) as (Hw & Hc & _));
    (assert (o' = o1 /\ (ok = true -> err = None)) as [-> Herr] by (by destruct err; simplify_eq));
    (split_and!;
      [done|done
      |intros b Hb Hk; eapply (persist_keeps _ _ (onState _ o)); [exact Hs|exact Ep|exact Hb|exact Hk]
      |intros Hok; specialize (Herr Hok); subst err;
       apply (persist_written _ _ (onState _ o)) in Ep; [|done]; rewrite Ep; by apply Keeps_written]).
Qed.

(** A dispatch keeps what it found, waits for it, and leaves what it owes. *)
Definition dispatched o o' (rep : Report) : Prop :=
  keeping o o' /\
  (forall b, Keeps (disk o) b -> Forall (fun x => b <= reservedAt x) (exchanges rep)) /\
  chained (clock o) (MinimumInterval (policy (adm o))) (exchanges rep) /\
  Z.of_nat (length (exchanges rep)) <= 16 /\
  (exchanges rep = [] \/
   exists b, Keeps (disk o') b /\ forall t, b <= t -> respects (policy (adm o)) rep t).

Lemma dispatched_unsent o o' : keeping o o' -> dispatched o o' unsent.
Proof. intros Hk. split_and!; try done; by left || constructor. Qed.

Lemma respects_bound p rep (q e : Z) :
  Forall (fun x => reservedAt x <= q /\ finishedAt x <= e) (exchanges rep) -> q <= e ->
  forall t, (if recorded rep then e else q) + cooldown p rep <= t -> respects p rep t.
Proof.
  intros Hall Hqe t Ht. eapply Forall_impl; [exact Hall|]. intros x [? ?]. simpl.
  destruct (recorded rep); split; intros; try done; lia.
Qed.

Lemma admitted_spec env fetch validate o o' rep r :
  is_shared o -> policy_ok (policy (adm o)) ->
  (forall b, Keeps (disk o) b -> b <= NextAllowed (state (adm o))) ->
  admitted env fetch validate o = (o', rep, r) -> dispatched o o' rep.
Proof.
  intros Hs Hpol Hb E. unfold admitted in E. cbn zeta in E.
  destruct (failed (adm o)); [injection E as <- <- <-; by apply dispatched_unsent|].
  destruct (waitUntil _ _ _ o) as [o1 werr] eqn:Ew.
  apply waitUntil_spec in Ew as (Hw1 & Hd1 & Ha1 & Hu).
  assert (Hk1 : keeping o o1) by (by apply keeping_frame).
  destruct werr; [injection E as <- <- <-; by apply dispatched_unsent|].
  specialize (Hu eq_refl). pose proof (allowedAt_floor (adm o)) as Hfloor.
  destruct (e_ctx env); [injection E as <- <- <-; by apply dispatched_unsent|].
  destruct (reserve _ o1) as [o2 rerr] eqn:Er.
  assert (Hs1 : is_shared o1) by (by apply Hw1).
  apply reserve_spec in Er as (Hw2 & Hc2 & Hl2 & Hk2 & Hn2); [|done|by rewrite Ha1].
  rewrite Ha1, Hd1 in Hk2. rewrite Ha1 in Hn2. pose proof Hpol as (? & ? & _).
  assert (H12 : keeping o o2).
  { split; [by etrans|]. intros b Hk. apply Hk2; [specialize (Hb b Hk); lia|done]. }
  destruct rerr; [injection E as <- <- <-; by apply dispatched_unsent|].
  specialize (Hn2 eq_refl). pose proof (proj1 (proj2 (proj1 H12))) as Hp2.
  destruct (fetched fetch o2) as [[o3 xs] r0] eqn:Ef.
  apply fetched_spec in Ef as [(Hw3 & Hk3 & q & Hq & Hqc & Hkq & Hch & Hall) Hlen];
    [|by apply Hw2|by rewrite Hp2|congruence|by rewrite Hc2, Hp2].
  rewrite Hp2 in Hkq, Hch. rewrite Hc2 in *. pose proof (proj1 Hw1) as Hc1.
  assert (H13 : keeping o o3).
  { split; [etrans; [apply H12|done]|]. intros b Hk. apply Hk3; [specialize (Hb b Hk); lia|by apply H12]. }
  assert (Hsent : forall b, Keeps (disk o) b -> Forall (fun x => b <= reservedAt x) xs).
  { intros b Hk. eapply Forall_impl; [by eapply chained_from|]. simpl. specialize (Hb b Hk). lia. }
  assert (Hch' : chained (clock o) (MinimumInterval (policy (adm o))) xs).
  { destruct xs as [|x xs]; [done|]. simpl in *. split_and!; try apply Hch. lia. }
  destruct (e_dies env).
  { injection E as <- <- <-. split_and!; try done. right.
    exists (q + ErrorBackoff (policy (adm o))). split; [done|]. intros t Ht.
    by apply (respects_bound _ (mkReport xs None false) q (clock o3)). }
  set (r1 := match r0 with Ok _ => _ | Err _ => _ end) in E.
  set (o4 := tick (e_done env) o3) in E.
  assert (H14 : keeping o o4) by (etrans; [exact H13|apply keeping_tick]).
  destruct (conclude env r1 o4) as [[o5 r'] ok] eqn:Ec. injection E as <- <- <-.
  assert (Hp4 : policy (adm o4) = policy (adm o)) by apply H14.
  apply conclude_spec in Ec as (Hw5 & Hc5 & Hk5 & Hn5);
    [|by apply (keeping_shared o)|by rewrite Hp4].
  rewrite Hp4 in Hk5, Hn5. pose proof (proj1 (within_tick (e_done env) o3)) as Hc4.
  pose proof (proj1 Hw3) as Hc3. fold o4 in Hc4.
  set (gap := match r1 with Ok _ => MinimumInterval (policy (adm o)) | Err _ => _ end) in *.
  assert (Hgap : 0 <= gap <= ErrorBackoff (policy (adm o))) by (unfold gap; destruct r1; lia).
  split_and!; try done.
  { split; [etrans; [apply H14|done]|]. intros b Hk.
    apply Hk5; [specialize (Hb b Hk); lia|by apply H14]. }
  right. exists ((if ok then clock o4 else q) + gap). split.
  - destruct ok; [by apply Hn5|]. apply Hk5; [lia|]. eapply Keeps_le; [|exact Hkq]. lia.
  - intros t Ht. eapply (respects_bound _ _ q (clock o4)); [|lia|].
    + eapply Forall_impl; [exact Hall|]. simpl. lia.
    + simpl. unfold cooldown, answered. simpl. unfold gap in Ht. by destruct r1.
Qed.

Lemma dispatchHistory_spec env fetch validate o o' rep r :
  is_shared o -> policy_ok (policy (adm o)) ->
  dispatchHistory env fetch validate o = (o', rep, r) -> dispatched o o' rep.
Proof.
  intros Hs Hpol E. unfold dispatchHistory in E.
  destruct (e_gate env); [|by injection E as <- <- <-; apply dispatched_unsent..].
  destruct (acquireAccount _ o) as [o1 err] eqn:Ea.
  apply acquireAccount_spec in Ea as [Hk1 Hb1]; [|done].
  destruct err as [e|]; [injection E as <- <- <-; by apply dispatched_unsent|].
  specialize (Hb1 eq_refl). pose proof (proj1 (proj2 (proj1 Hk1))) as Hp1.
  destruct (admitted env fetch validate o1) as [[o2 rep2] r2] eqn:Ed.
  assert (Hs1 : is_shared o1) by (by apply (keeping_shared o)).
  apply admitted_spec in Ed as (Hk2 & Hb2 & Hch & Hlen & Hres); [|done|by rewrite Hp1|done].
  rewrite Hp1 in Hch, Hres.
  set (o3 := match shared o2 with Some _ => _ | None => _ end) in E.
  assert (Hk3 : keeping o2 o3) by (unfold o3; destruct (shared o2); [apply keeping_release|done]).
  injection E as <- <- <-. split_and!; try done.
  - etrans; [exact Hk1|]. by etrans.
  - intros b Hk. by apply Hb2, Hk1.
  - destruct (exchanges rep2) as [|x xs]; [done|]. simpl in *.
    pose proof (proj1 (proj1 Hk1)). split_and!; try apply Hch. lia.
  - destruct Hres as [?|(b & Hk & Hb)]; [by left|]. right. exists b. split; [by apply Hk3|done].
Qed.
End Dispatch.

End Facts.

(** ** What dispatches write is what dispatches accept

    The record of a schedule stays readable and valid whatever happens to the
    dispatches that write it. *)

Section Health.
Context `{AdmissionText}.
Context (account : Z).
Implicit Types (o : Owner) (f : File historyAdmissionState) (s : historyAdmissionState).

(** A state that a process of the account may hold: valid but for a missing
    reservation. *)
Definition sound (now : Z) s : Prop :=
  Version s = 1 /\ AccountID s = account /\ NextAllowed s <= now + 24 * Hour /\
  LastFinishedAt s <= now + 24 * Hour /\ LastErrorAt s <= now + 24 * Hour.

Definition usable (now : Z) f : Prop :=
  good account now f /\ exists r, Read readOk f = Ok r.

Definition healthy o : Prop :=
  0 < clock o /\ usable (clock o) (disk o) /\ sound (clock o) (state (adm o)).

Lemma sound_valid now s :
  validHistoryAdmissionState now s account = true <-> sound now s /\ NextAllowed s <> 0.
Proof. rewrite valid_iff. unfold sound. intuition. Qed.

Lemma sound_later now now' s : now <= now' -> sound now s -> sound now' s.
Proof. unfold sound. intuition lia. Qed.

Lemma usable_later now now' f : now <= now' -> usable now f -> usable now' f.
Proof. intros ? [? ?]. split; [by eapply good_later|done]. Qed.

Lemma usable_written now s :
  sound now s -> NextAllowed s <> 0 -> usable now (Present privateFile (encoded s)).
Proof.
  intros Hs Hn. split; [by apply good_written, sound_valid|]. exists (Some s).
  rewrite Read_encoded, text_wire. pose proof (text_small s). by rewrite (proj2 (Z.leb_le _ _)).
Qed.

Lemma sound_raised now s t : sound now s -> t <= now + 24 * Hour -> sound now (setNext (maxHistoryTime (NextAllowed s) t) s).
Proof. intros (? & ? & ? & ? & ?) ?. rewrite maxHistoryTime_max. unfold sound. simpl. split_and!; lia. Qed.

(** A step that leaves the file and the memory alone, or lets time pass. *)
Lemma healthy_frame o o' :
  clock o <= clock o' -> disk o' = disk o -> state (adm o') = state (adm o) -> healthy o -> healthy o'.
Proof.
  intros Hc Hd Hs (? & ? & ?). unfold healthy. rewrite Hd, Hs.
  split_and!; [lia|by eapply usable_later|by eapply sound_later].
Qed.

Lemma healthy_tick d o : healthy o -> healthy (tick d o).
Proof. apply healthy_frame; simpl; [lia|done|done]. Qed.

Lemma healthy_release env o : healthy o -> healthy (release env o).
Proof. apply healthy_frame; unfold release; by destruct (q_close env). Qed.

Lemma healthy_onState g o :
  healthy o -> sound (clock o) (g (state (adm o))) -> healthy (onState g o).
Proof. intros (? & ? & ?) ?. done. Qed.

Lemma healthy_persist env next o o' err :
  is_shared o -> healthy o -> persist env next o = (o', err) -> 0 < next -> next <= clock o + 24 * Hour ->
  healthy o'.
Proof.
  intros Hs (Hc & Hu & Hso) E Hn Hn'.
  destruct (persist_spec _ _ _ _ _ Hs E) as (_ & Ec & Est & Hd).
  assert (sound (clock o) (setNext next (state (adm o)))) by (unfold sound in *; simpl; intuition).
  unfold healthy. rewrite Ec, Est. split_and!; [done| |done].
  destruct Hd as [[_ ->] | ->]; [done|]. apply usable_written; [done|simpl; lia].
Qed.

Lemma importSiblings_sound now entries s s' err :
  importSiblings now entries s = (s', err) -> sound now s -> sound now s'.
Proof.
  revert s. induction entries as [|e entries IH]; simpl; intros s E Hs; [by simplify_eq|].
  destruct (negb (HasSuffix _ _)); [eauto|].
  destruct (Read _ _) as [[legacy|]|]; [|eauto|by simplify_eq].
  destruct (negb _); [eauto|]. destruct (negb (validHistoryAdmissionState _ _ _)) eqn:Ev; [by simplify_eq|].
  bool_prop. apply valid_iff in Ev. eapply IH; [exact E|]. apply sound_raised; intuition. Qed.

Lemma underLease_healthy env g o o' err :
  is_shared o -> healthy o -> legacyFloor g <= clock o + 24 * Hour ->
  underLease env g o = (o', err) -> healthy o'.
Proof.
  intros Hs Hh Hg E. unfold underLease in E. cbn zeta in E.
  pose proof (healthy_tick (q_readWait env) o Hh) as H1.
  set (o1 := tick (q_readWait env) o) in *.
  assert (Hg1 : legacyFloor g <= clock o1 + 24 * Hour) by (simpl; lia).
  destruct (Read (q_read env) (disk o1)) as [found|e] eqn:Er; [|simplify_eq; by apply healthy_release].
  set (bad := match found with Some _ => _ | None => _ end) in E.
  destruct bad eqn:Ebad; [simplify_eq; by apply healthy_release|].
  set (o2 := match found with Some _ => _ | None => _ end) in E.
  assert (H2 : healthy o2).
  { unfold o2. destruct found as [s|]; [|done]. apply healthy_onState; [done|].
    by eapply sound_valid, H1. }
  assert (Hc2 : clock o2 = clock o1) by (unfold o2; by destruct found).
  set (o3 := onState _ o2) in E.
  assert (H3 : healthy o3).
  { apply healthy_onState; [done|]. apply sound_raised; [apply H2|lia]. }
  destruct (q_entries env) as [entries|]; [|simplify_eq; by apply healthy_release].
  destruct (4096 <? _); [simplify_eq; by apply healthy_release|].
  destruct (importSiblings _ _ _) as [s ierr] eqn:Ei.
  apply importSiblings_sound in Ei; [|apply H3].
  set (o4 := tick _ (onState _ o3)) in E.
  assert (H4 : healthy o4) by (by apply healthy_tick, healthy_onState).
  destruct ierr; [simplify_eq; by apply healthy_release|].
  destruct (_ && _) eqn:El; [|by simplify_eq]. bool_prop.
  destruct (persist _ _ o4) as [o5 perr] eqn:Ep.
  assert (Hh5 : healthy o5).
  { eapply (healthy_persist _ _ o4); [|done|exact Ep| |apply H4].
    - unfold o4, o3, o2. by destruct found.
    - destruct H4 as (? & _). lia. }
  destruct perr; simplify_eq; [by apply healthy_release|done].
Qed.

Lemma acquireAccount_healthy env o o' err :
  healthy o -> (forall g, shared o = Some g -> legacyFloor g <= clock o + 24 * Hour) ->
  acquireAccount env o = (o', err) -> healthy o'.
Proof.
  intros Hh Hg E. unfold acquireAccount in E. destruct (shared o) as [g|] eqn:Es; [|by simplify_eq].
  specialize (Hg g eq_refl). cbn zeta in E.
  destruct (q_gate env); [|by simplify_eq..].
  pose proof (healthy_tick (q_gateWait env) o Hh) as H1.
  set (o1 := tick (q_gateWait env) o) in *.
  destruct (gateFailed g); [by simplify_eq|]. destruct (ValidatePrivateDir _); [by simplify_eq|].
  destruct (polled_frame (q_polls env) o1) as (Hw & Hd & Ha & Hsh).
  assert (H2 : healthy (polled (q_polls env) o1)).
  { revert H1. apply healthy_frame; [apply Hw|done|by rewrite Ha]. }
  destruct (q_lease env); [|by simplify_eq..].
  eapply underLease_healthy; [|exact H2| |exact E].
  - unfold is_shared. rewrite Hsh. simpl. eauto.
  - pose proof (proj1 Hw). simpl in *. lia.
Qed.

Lemma reserve_healthy env o o' err :
  is_shared o -> policy_ok (policy (adm o)) -> healthy o -> reserve env o = (o', err) -> healthy o'.
Proof.
  intros Hs (? & ? & ?) Hh E. unfold reserve in E. cbn in E.
  pose proof (proj1 Hh).
  eapply (healthy_persist _ _ (onState (setError (clock o)) o)); [done| |exact E|simpl; lia|simpl; lia].
  apply healthy_onState; [done|]. destruct Hh as (_ & _ & Hso).
  unfold sound, setError in *; simpl; intuition; unfold Hour, Second; lia.
Qed.

Lemma waitUntil_healthy until late w o o' err :
  healthy o -> waitUntil until late w o = (o', err) -> healthy o'.
Proof.
  intros Hh E. apply waitUntil_spec in E as (Hw & Hd & Ha & _). revert Hh.
  apply healthy_frame; [apply Hw|done|by rewrite Ha].
Qed.

Lemma roundTrips_healthy rts p o p' o' xs :
  is_shared o -> policy_ok (policy (adm o)) -> healthy o ->
  roundTrips rts p o = (p', o', xs) -> healthy o'.
Proof.
  revert p o p' o' xs. induction rts as [|rt rts IH]; intros p o p' o' xs Hs Hpol Hh E; simpl in E.
  { by injection E as <- <- <-. }
  destruct (roundTrip rt p o) as [[[p1 o1] x] err] eqn:E1.
  destruct (roundTrips rts p1 o1) as [[p2 o2] xs2] eqn:E2. injection E as <- <- <-.
  assert (H1 : within o o1 /\ healthy o1).
  { clear IH E2. unfold roundTrip in E1. cbn zeta in E1.
    pose proof (healthy_tick (rt_pause rt) o Hh) as Ht.
    pose proof (within_tick (rt_pause rt) o) as Hwt. set (ot := tick (rt_pause rt) o) in *.
    destruct (negb _ || _); [injection E1 as <- <- <- <-; done|].
    destruct (0 <? requests p).
    - destruct (waitUntil _ _ _ ot) as [ow werr] eqn:Ew.
      pose proof (waitUntil_healthy _ _ _ _ _ _ Ht Ew) as Hw.
      apply waitUntil_spec in Ew as (Hww & _ & Ha & _).
      assert (Hwo : within o ow) by (by etrans).
      destruct werr; [injection E1 as <- <- <- <-; done|].
      destruct (reserve _ ow) as [os rerr] eqn:Er.
      assert (Hsw : is_shared ow) by (by apply Hwo).
      pose proof (reserve_healthy _ _ _ _ Hsw ltac:(by rewrite (proj1 (proj2 Hwo))) Hw Er) as Hr.
      apply reserve_spec in Er as (Hwr & _); [|done|by rewrite (proj1 (proj2 Hwo))].
      assert (Hwor : within o os) by (by etrans).
      destruct rerr; injection E1 as <- <- <- <-; [done|].
      split; [|by do 2 apply healthy_tick]. etrans; [exact Hwor|]. etrans; apply within_tick.
    - injection E1 as <- <- <- <-. split; [|by do 2 apply healthy_tick].
      etrans; [exact Hwt|]. etrans; apply within_tick. }
  destruct H1 as [Hw1 H1].
  eapply IH; [|by rewrite (proj1 (proj2 Hw1))|exact H1|exact E2]. by apply Hw1.
Qed.

Section Dispatch.
Context {T : Type}.
Implicit Types (fetch : Fetch T) (env : DispatchEnv).

Lemma fetched_healthy fetch o o' xs r :
  is_shared o -> policy_ok (policy (adm o)) -> healthy o -> fetched fetch o = (o', xs, r) -> healthy o'.
Proof.
  intros Hs Hpol Hh E. destruct fetch as [before took r0|rts r0]; unfold fetched in E.
  - injection E as <- <- <-. by do 2 apply healthy_tick.
  - destruct (roundTrips rts _ o) as [[p' o1] xs1] eqn:Er. injection E as <- <- <-.
    by eapply roundTrips_healthy.
Qed.

Lemma conclude_healthy env r o o' (r' : res Error T) ok :
  is_shared o -> policy_ok (policy (adm o)) -> healthy o -> conclude env r o = (o', r', ok) -> healthy o'.
Proof.
  intros Hs (? & ? & ?) Hh E. unfold conclude in E. cbn zeta in E. pose proof (proj1 Hh) as Hc.
  assert (0 < Hour) by done. destruct Hh as (_ & Hu & Hso).
  assert (Hend : forall g next o1 err, sound (clock o) (g (state (adm o))) ->
    0 < next <= clock o + 24 * Hour ->
    persist (e_final env) next (onState g o) = (o1, err) -> healthy o1).
  { intros g next o1 err Hs1 [? ?] Ep.
    by eapply (healthy_persist _ _ (onState g o)); [..|exact Ep| |]. }
  destruct r as [v|e]; (destruct (persist _ _ _) as [o1 err] eqn:Ep);
    (assert (o' = o1) as -> by (by destruct err; simplify_eq));
    (eapply Hend; [| |exact Ep]; [|simpl; lia]); unfold sound in *; simpl; intuition lia.
Qed.

Lemma dispatchHistory_healthy env fetch validate o o' rep r :
  is_shared o -> policy_ok (policy (adm o)) -> healthy o ->
  (forall g, shared o = Some g -> legacyFloor g <= clock o + 24 * Hour) ->
  dispatchHistory env fetch validate o = (o', rep, r) -> usable (clock o') (disk o').
Proof.
  intros Hs Hpol Hh Hg E. enough (healthy o') as (_ & ? & _) by done.
  unfold dispatchHistory in E.
  destruct (e_gate env); [|by injection E as <- <- <-..].
  destruct (acquireAccount _ o) as [o1 err] eqn:Ea.
  pose proof (acquireAccount_healthy _ _ _ _ Hh Hg Ea) as H1.
  apply acquireAccount_spec in Ea as [Hk1 _]; [|done].
  destruct err as [e|]; [by injection E as <- <- <-|].
  destruct (admitted env fetch validate o1) as [[o2 rep2] r2] eqn:Ed.
  enough (healthy o2) as H2.
  { injection E as <- <- <-. destruct (shared o2); [by apply healthy_release|done]. }
  clear E. pose proof (proj1 (proj2 (proj1 Hk1))) as Hp1.
  assert (Hs1 : is_shared o1) by (by apply (keeping_shared o)).
  unfold admitted in Ed. cbn zeta in Ed. destruct (failed (adm o1)); [by injection Ed as <- <- <-|].
  destruct (waitUntil _ _ _ o1) as [ow werr] eqn:Ew.
  pose proof (waitUntil_healthy _ _ _ _ _ _ H1 Ew) as Hw.
  apply waitUntil_spec in Ew as (Hww & _ & Ha & _).
  destruct werr; [by injection Ed as <- <- <-|].
  destruct (e_ctx env); [by injection Ed as <- <- <-|].
  assert (Hsw : is_shared ow) by (by apply Hww).
  assert (Hpw : policy_ok (policy (adm ow))) by (by rewrite Ha, Hp1).
  destruct (reserve _ ow) as [os rerr] eqn:Er.
  pose proof (reserve_healthy _ _ _ _ Hsw Hpw Hw Er) as Hr.
  apply reserve_spec in Er as (Hwr & Hcr & Hlr & _ & Hkr); [|done|done].
  destruct rerr; [by injection Ed as <- <- <-|]. specialize (Hkr eq_refl).
  assert (Hsr : is_shared os) by (by apply Hwr).
  pose proof (proj1 (proj2 Hwr)) as Epr.
  assert (Hpr : policy_ok (policy (adm os))) by (by rewrite Epr).
  destruct (fetched fetch os) as [[oe xs] r0] eqn:Ef.
  pose proof (fetched_healthy _ _ _ _ _ Hsr Hpr Hr Ef) as Hf.
  apply fetched_spec in Ef as [(Hwf & _) _]; [|done|done|congruence|by rewrite Hcr, Epr].
  destruct (e_dies env); [by injection Ed as <- <- <-|].
  destruct (conclude env _ _) as [[oc r'] ok] eqn:Ec. injection Ed as <- <- <-.
  eapply conclude_healthy; [| |apply healthy_tick; exact Hf|exact Ec].
  - by apply Hwf.
  - simpl. by rewrite (proj1 (proj2 Hwf)).
Qed.
End Dispatch.

End Health.
