(* ===== verification/PacingTheorems.v ===== *)
(** * Requests are spaced, and never locked out

    The schedules of an account, over every order of dispatches by any number of
    processes, with crashes, failed writes and restarts. *)

From S2P Require Import Prelude PrivateJson Pacing PacingFacts.
From S2P Require Import Delivery.

#[local] Open Scope list_scope.
#[local] Open Scope Z_scope.

Section Spacing.
Context `{AdmissionText} {T : Type}.
Implicit Types (ts : list (Turn T)) (t : Turn T).

Definition normal t : Prop := exists p, normalized p = Ok (policy (t_adm t)).

Lemma takeTurn_spec t now f o rep r :
  normal t -> takeTurn t now f = (o, rep, r) ->
  now <= clock o /\ (forall b, Keeps f b -> Keeps (disk o) b) /\
  (forall b, Keeps f b -> Forall (fun x => b <= reservedAt x) (exchanges rep)) /\
  chained now (MinimumInterval (policy (t_adm t))) (exchanges rep) /\
  Z.of_nat (length (exchanges rep)) <= 16 /\
  (exchanges rep = [] \/
   exists b, Keeps (disk o) b /\ forall later, b <= later -> respects (policy (t_adm t)) rep later).
Proof.
  intros [p Hp] E. unfold takeTurn in E.
  apply dispatchHistory_spec in E as ([(Hc & _) Hk] & Hb & Hch & Hlen & Hr);
    [|by eexists|by eapply normalized_ok]. simpl in *.
  split_and!; try done; [lia|].
  destruct (exchanges rep); [done|]. simpl in *. split_and!; try apply Hch. lia.
Qed.

Lemma takeTurns_keeps ts now f now' f' reports b :
  Forall normal ts -> takeTurns ts now f = (now', f', reports) -> Keeps f b ->
  Forall (fun r => Forall (fun x => b <= reservedAt x) (exchanges r.2)) reports.
Proof.
  intros Hn. revert now f now' f' reports. induction Hn as [|t ts Ht Hn IH];
    intros now f now' f' reports E Hk; simpl in E; [by injection E as <- <- <-|].
  destruct (takeTurn t now f) as [[o rep] r] eqn:Et.
  destruct (takeTurns ts _ _) as [[now2 f2] reports2] eqn:Ets. injection E as <- <- <-.
  destruct (takeTurn_spec _ _ _ _ _ _ Ht Et) as (_ & Hk1 & Hb & _).
  constructor; [by apply Hb|]. eapply IH; [exact Ets|auto].
Qed.

Lemma takeTurns_spaced ts now f now' f' reports :
  Forall normal ts -> takeTurns ts now f = (now', f', reports) ->
  (forall i p rep, reports !! i = Some (p, rep) ->
     chained now (MinimumInterval p) (exchanges rep) /\ Z.of_nat (length (exchanges rep)) <= 16) /\
  forall i j p rep p' rep', (i < j)%nat -> reports !! i = Some (p, rep) ->
    reports !! j = Some (p', rep') -> Forall (fun x' => respects p rep (reservedAt x')) (exchanges rep').
Proof.
  intros Hn. revert now f now' f' reports. induction Hn as [|t ts Ht Hn IH];
    intros now f now' f' reports E; simpl in E; [by injection E as <- <- <-|].
  destruct (takeTurn t now f) as [[o rep0] r] eqn:Et.
  destruct (takeTurns ts _ _) as [[now2 f2] reports2] eqn:Ets. injection E as <- <- <-.
  destruct (takeTurn_spec _ _ _ _ _ _ Ht Et) as (Hc & _ & _ & Hch & Hlen & Hr).
  destruct (IH _ _ _ _ _ Ets) as [Hone Hpair]. split.
  - intros [|i] p rep; simpl; [by intros [= <- <-]|]. intros Hi.
    destruct (Hone _ _ _ Hi) as [Hch' ?]. split; [|done].
    destruct (exchanges rep); [done|]. simpl in *. split_and!; try apply Hch'. lia.
  - intros [|i] [|j] p rep p' rep' Hij; simpl; try lia; [|intros; eapply Hpair; [|done|done]; lia].
    intros [= <- <-] Hj. destruct Hr as [Hr|(b & Hk & Hb)].
    { apply Forall_forall. intros x' _. unfold respects. by rewrite Hr. }
    pose proof (takeTurns_keeps _ _ _ _ _ _ _ Hn Ets Hk) as Hall.
    eapply Forall_lookup_1 in Hall; [|exact Hj]. simpl in Hall.
    eapply Forall_impl; [exact Hall|]. auto.
Qed.

(** C31: However an account's processes take turns at its schedule, and whatever
    fails, crashes or restarts in between, the requests of one turn are at most
    sixteen and [MinimumInterval] after the end of the previous one, and every
    request of a later turn is reserved a full cooldown after each reservation
    of an earlier turn: the minimum interval if that one was answered, the error
    backoff if it failed or nobody saw how it ended.  Where the outcome was
    recorded, the cooldown counts from the end of the exchange. *)
Theorem requests_are_spaced ts now f now' f' reports :
  Forall normal ts -> takeTurns ts now f = (now', f', reports) ->
  (forall i p rep, reports !! i = Some (p, rep) ->
     chained now (MinimumInterval p) (exchanges rep) /\ Z.of_nat (length (exchanges rep)) <= 16) /\
  forall i j p rep p' rep' x x', (i < j)%nat ->
    reports !! i = Some (p, rep) -> reports !! j = Some (p', rep') ->
    x ∈ exchanges rep -> x' ∈ exchanges rep' ->
    reservedAt x + cooldown p rep <= reservedAt x' /\
    (recorded rep = true -> finishedAt x + cooldown p rep <= reservedAt x').
Proof.
  intros Hn E. destruct (takeTurns_spaced _ _ _ _ _ _ Hn E) as [Hone Hpair]. split; [done|].
  intros i j p rep p' rep' x x' Hij Hi Hj Hx Hx'.
  pose proof (Hpair _ _ _ _ _ _ Hij Hi Hj) as Hall. rewrite Forall_forall in Hall.
  specialize (Hall x' Hx'). unfold respects in Hall. rewrite Forall_forall in Hall. by apply Hall.
Qed.

(** ** Rates *)

Definition apart (m : Z) (x y : Exchange) : Prop := reservedAt x + m <= reservedAt y.

Lemma chained_apart from m gap xs : m <= gap -> 0 <= gap -> chained from gap xs -> StronglySorted (apart m) xs.
Proof.
  intros Hm Hg. revert from. induction xs as [|x xs IH]; intros from Hc; constructor.
  - destruct Hc as (_ & _ & _ & Hc). eauto.
  - destruct Hc as (_ & ? & ? & Hc). eapply Forall_impl; [by eapply chained_from|].
    unfold apart. simpl. lia.
Qed.

Lemma StronglySorted_concat {A} (R : A -> A -> Prop) (ll : list (list A)) :
  Forall (StronglySorted R) ll ->
  (forall i j l l' x y, (i < j)%nat -> ll !! i = Some l -> ll !! j = Some l' -> x ∈ l -> y ∈ l' -> R x y) ->
  StronglySorted R (concat ll).
Proof.
  intros Hs Hp. induction Hs as [|l ll Hl Hll IH]; [constructor|]. simpl.
  assert (Htl : StronglySorted R (concat ll)).
  { apply IH. intros i j. intros. eapply (Hp (S i) (S j)); [lia|done..]. }
  assert (Hx : Forall (fun x => Forall (R x) (concat ll)) l).
  { apply Forall_forall. intros x Hx. apply Forall_forall. intros y Hy.
    apply list_elem_of_In, in_concat in Hy as (l' & Hl' & Hy).
    apply list_elem_of_In, list_elem_of_lookup in Hl' as [j Hj].
    eapply (Hp 0%nat (S j)); [lia|done|exact Hj|done|by apply list_elem_of_In]. }
  clear Hp IH. induction Hl as [|x l Hsl IHl Hxl]; [done|]. inversion_clear Hx. simpl. constructor.
  - by apply IHl.
  - by apply Forall_app.
Qed.

Lemma sorted_apart m xs i k x y :
  StronglySorted (apart m) xs -> xs !! i = Some x -> xs !! (i + k)%nat = Some y ->
  reservedAt x + Z.of_nat k * m <= reservedAt y.
Proof.
  revert i x xs. induction k as [|k IH]; intros i x xs Hs Hi Hk.
  { rewrite Nat.add_0_r in Hk. simplify_eq. lia. }
  destruct (xs !! S i) as [z|] eqn:Ez.
  2: { apply lookup_ge_None in Ez. apply lookup_lt_Some in Hk. lia. }
  replace (i + S k)%nat with (S i + k)%nat in Hk by lia. specialize (IH _ _ _ Hs Ez Hk).
  enough (apart m x z) by (unfold apart in *; lia). clear IH Hk.
  revert i Hi Ez. induction Hs as [|a l Hl IHl Ha]; intros i Hi Ez; [done|].
  destruct i as [|i]; simpl in *; [|by eapply IHl].
  simplify_eq. rewrite Forall_lookup in Ha. eauto.
Qed.

Lemma takeTurns_policies ts now f now' f' reports :
  takeTurns ts now f = (now', f', reports) -> map fst reports = map (fun t => policy (t_adm t)) ts.
Proof.
  revert now f now' f' reports. induction ts as [|t ts IH]; intros now f now' f' reports E; simpl in E;
    [by injection E as <- <- <-|].
  destruct (takeTurn t now f) as [[o rep] r]. destruct (takeTurns ts _ _) as [[now2 f2] rs] eqn:Ets.
  injection E as <- <- <-. simpl. f_equal. eauto.
Qed.

Lemma reports_policies (P : HistoryPacing -> Prop) ts now f now' f' reports :
  Forall (fun t => P (policy (t_adm t))) ts -> takeTurns ts now f = (now', f', reports) ->
  Forall (fun r => P r.1) reports.
Proof.
  intros HP E. apply takeTurns_policies in E.
  rewrite <- (Forall_map fst P), E. by rewrite Forall_map.
Qed.

(** The rate of an account's requests is bounded: if every policy that took
    part asks for at least [m] between requests, then the [k]-th request after
    any given one is reserved [k * m] after it, whichever processes sent them. *)
Theorem request_rate_bounded ts now f now' f' reports m i k x y :
  Forall normal ts -> Forall (fun t => m <= MinimumInterval (policy (t_adm t))) ts ->
  takeTurns ts now f = (now', f', reports) ->
  let sent := concat (map (fun r => exchanges r.2) reports) in
  sent !! i = Some x -> sent !! (i + k)%nat = Some y ->
  reservedAt x + Z.of_nat k * m <= reservedAt y.
Proof.
  intros Hn Hm E sent Hx Hy. eapply sorted_apart; [|exact Hx|exact Hy]. unfold sent.
  assert (Hp : Forall (fun r => policy_ok r.1 /\ m <= MinimumInterval r.1) reports).
  { eapply (reports_policies (fun p => policy_ok p /\ m <= MinimumInterval p)); [|exact E].
    apply Forall_and. split; [|done]. eapply Forall_impl; [exact Hn|].
    intros t [p Hp]. by eapply normalized_ok. }
  destruct (takeTurns_spaced _ _ _ _ _ _ Hn E) as [Hone Hpair]. apply StronglySorted_concat.
  - apply Forall_map, Forall_lookup. intros j [p rep] Hj. simpl.
    destruct (Hone _ _ _ Hj) as [Hch _].
    eapply Forall_lookup_1 in Hp; [|exact Hj]. destruct Hp as [(? & _) ?].
    by eapply chained_apart.
  - intros a b l l' x' y' Hab Ha Hb Hx' Hy'.
    rewrite list_lookup_fmap in Ha, Hb.
    destruct (reports !! a) as [[p rep]|] eqn:Ea; [|done].
    destruct (reports !! b) as [[p' rep']|] eqn:Eb; [|done]. simplify_eq/=.
    specialize (Hpair _ _ _ _ _ _ Hab Ea Eb). rewrite Forall_forall in Hpair.
    specialize (Hpair _ Hy'). unfold respects in Hpair. rewrite Forall_forall in Hpair.
    specialize (Hpair _ Hx') as [Hle _]. eapply Forall_lookup_1 in Hp; [|exact Ea].
    destruct Hp as [(? & ? & _) ?]. simpl in *. unfold apart.
    unfold cooldown in Hle. destruct (answered rep); lia.
Qed.
End Spacing.

(** ** Nothing wedges a schedule *)

Section Liveness.
Context `{AdmissionText} {T : Type} (account : Z).
Implicit Types (ts : list (Turn T)) (t : Turn T).

(** What a process of the account brings to its turn at [now]. *)
Definition fits t (now : Z) : Prop :=
  normal t /\ sound account (now + Z.of_N (t_pause t)) (state (t_adm t)) /\
  legacyFloor (t_gate t) <= now + Z.of_N (t_pause t) + 24 * Hour.

Fixpoint turns_fit ts (now : Z) (f : File historyAdmissionState) : Prop :=
  match ts with
  | [] => True
  | t :: ts =>
      fits t now /\
      let '(o, _, _) := takeTurn t now f in turns_fit ts (clock o) (disk o)
  end.

(** When a turn looks at its siblings, and when it starts to wait. *)
Definition asked t (now : Z) : Z :=
  let q := e_acquire (t_env t) in
  clock (tick (q_readWait q) (polled (q_polls q) (tick (q_gateWait q)
    (tick (t_pause t) (mkOwner now (t_adm t) (Some (t_gate t)) Missing))))).

Definition importable (now : Z) (e : Entry) : Prop :=
  HasSuffix (entryName e) ".history-admission" = true ->
  exists r, Read (entryRead e) (entryFile e) = Ok r /\
    forall s, r = Some s -> AccountID s = account -> validHistoryAdmissionState now s account = true.

(** A turn in which nothing fails: no error is remembered, the gate and the
    lease are granted, files can be read and written, nobody cancels. *)
Record smooth t (now : Z) : Prop := mkSmooth {
  smooth_fits : fits t now;
  smooth_failed : failed (t_adm t) = None;
  smooth_gateFailed : gateFailed (t_gate t) = None;
  smooth_gate : e_gate (t_env t) = Woken;
  smooth_wake : e_wake (t_env t) = Woken;
  smooth_ctx : e_ctx (t_env t) = false;
  smooth_reserve : e_reserve (t_env t) = writeOk;
  smooth_lives : e_dies (t_env t) = false;
  smooth_final : e_final (t_env t) = writeOk;
  smooth_shared : q_gate (e_acquire (t_env t)) = Woken;
  smooth_dir : ValidatePrivateDir (q_dir (e_acquire (t_env t))) = None;
  smooth_lease : q_lease (e_acquire (t_env t)) = Leased;
  smooth_read : q_read (e_acquire (t_env t)) = readOk;
  smooth_write : q_write (e_acquire (t_env t)) = writeOk;
  smooth_entries : exists entries, q_entries (e_acquire (t_env t)) = Some entries /\
    Z.of_nat (length entries) <= 4096 /\ Forall (importable (asked t now)) entries;
}.

(** What the demand's own code comes to, and what its validation makes of it. *)
Definition fetchResult (fetch : Fetch T) : res ClientError T :=
  match fetch with FetchLoco _ _ r | FetchHTTP _ r => r end.

Definition demanded t : res Error T :=
  match fetchResult (t_fetch t) with
  | Err e => Err (ErrFetch e)
  | Ok v => match t_validate t v with Some e => Err (ErrFetch e) | None => Ok v end
  end.

Lemma takeTurn_usable t now f o rep r :
  fits t now -> 0 < now -> usable account now f -> takeTurn t now f = (o, rep, r) ->
  now <= clock o /\ usable account (clock o) (disk o).
Proof.
  intros ([p Hp] & Hs & Hg) Hnow Hu E. split.
  - by eapply (takeTurn_spec t now f); [exists p|].
  - unfold takeTurn in E. eapply (dispatchHistory_healthy account) in E; [done|by eexists| | |].
    + simpl. by eapply normalized_ok.
    + split_and!; simpl; [lia| |done]. eapply usable_later; [|exact Hu]. lia.
    + simpl. intros g [= <-]. lia.
Qed.

Lemma takeTurns_usable ts now f now' f' reports :
  turns_fit ts now f -> 0 < now -> usable account now f -> takeTurns ts now f = (now', f', reports) ->
  0 < now' /\ usable account now' f'.
Proof.
  revert now f now' f' reports. induction ts as [|t ts IH]; intros now f now' f' reports; simpl.
  { by intros _ ? ? [= <- <- _]. }
  destruct (takeTurn t now f) as [[o rep] r] eqn:Et. intros [Hf Hfs] Hnow Hu E.
  destruct (takeTurns ts _ _) as [[now2 f2] rs] eqn:Ets. injection E as <- <- _.
  destruct (takeTurn_usable _ _ _ _ _ _ Hf Hnow Hu Et) as [? ?].
  eapply IH; [exact Hfs|lia|done|exact Ets].
Qed.

Lemma importSiblings_importable now entries s :
  AccountID s = account -> Forall (importable now) entries -> (importSiblings now entries s).2 = None.
Proof.
  intros Ha Hall. revert s Ha. induction Hall as [|e entries He Hall IH]; intros s Ha; simpl; [done|].
  unfold importable in He. destruct (HasSuffix _ _); simpl; [|by apply IH].
  destruct (He eq_refl) as (r & -> & Hv). destruct r as [s'|]; [|by apply IH].
  destruct (AccountID s' =? AccountID s) eqn:Ea; simpl; [|by apply IH]. bool_prop.
  rewrite Ha in Ea |- *. rewrite (Hv s' eq_refl Ea). simpl. by apply IH.
Qed.

(** The parts of an owner that say nothing is wrong. *)
Definition unfailed (o o' : Owner) : Prop :=
  failed (adm o') = failed (adm o) /\ option_map gateFailed (shared o') = option_map gateFailed (shared o).

Lemma persist_writeOk next o :
  is_shared o -> exists o', persist writeOk next o = (o', None) /\ clock o' = clock o /\ unfailed o o'.
Proof.
  intros [g Eg]. unfold persist, onState. cbn [shared adm disk]. rewrite Eg, WriteAtomic_writeOk.
  eexists. split; [reflexivity|]. unfold unfailed. simpl. by rewrite Eg.
Qed.

Lemma reserve_writeOk o : is_shared o -> exists o', reserve writeOk o = (o', None).
Proof.
  intros Hs. unfold reserve. cbn zeta.
  destruct (persist_writeOk (LastErrorAt (state (adm (onState (setError (clock o)) o))) +
    ErrorBackoff (policy (adm (onState (setError (clock o)) o)))) (onState (setError (clock o)) o) Hs)
    as (o' & E & _). eauto.
Qed.

Lemma underLease_smooth env g o entries :
  is_shared o -> healthy account o -> q_read env = readOk -> q_write env = writeOk ->
  q_entries env = Some entries -> Z.of_nat (length entries) <= 4096 ->
  Forall (importable (clock o + Z.of_N (q_readWait env))) entries ->
  exists o', underLease env g o = (o', None) /\
    clock o' = clock o + Z.of_N (q_readWait env) + Z.of_N (q_importWait env) /\ unfailed o o'.
Proof.
  intros Hs Hh Er Ew Ee Hlen Hall. unfold underLease. cbn zeta. rewrite Er, Ew, Ee.
  set (o1 := tick (q_readWait env) o).
  assert (H1 : healthy account o1) by (by apply healthy_tick).
  destruct H1 as (Hc1 & [Hg1 [found Hf1]] & Ha1). rewrite Hf1.
  assert (Hacc : AccountID (state (adm o1)) = account) by apply Ha1. rewrite Hacc.
  replace (match found with Some _ => _ | None => _ end) with false.
  2: { destruct found as [s|]; [|done]. by rewrite (Hg1 _ _ Hf1). }
  set (o2 := match found with Some _ => _ | None => _ end).
  assert (H2 : AccountID (state (adm o2)) = account /\ clock o2 = clock o1 /\ unfailed o o2 /\ is_shared o2).
  { unfold o2. destruct found as [s|]; [|done]. split_and!; try done. simpl.
    specialize (Hg1 _ _ Hf1). apply valid_iff in Hg1. apply Hg1. }
  destruct H2 as (Ha2 & Hc2 & Hu2 & Hs2).
  replace (4096 <? _) with false by (symmetry; by apply Z.ltb_ge).
  set (o3 := onState _ o2). change (clock o3) with (clock o2). rewrite Hc2.
  pose proof (importSiblings_importable (clock o1) entries (state (adm o3)) Ha2 Hall) as Hi.
  destruct (importSiblings _ _ _) as [s ierr]. simpl in Hi. subst ierr.
  set (o4 := tick _ (onState _ o3)).
  assert (Hc4 : clock o4 = clock o + Z.of_N (q_readWait env) + Z.of_N (q_importWait env)).
  { change (clock o4) with (clock o2 + Z.of_N (q_importWait env)). rewrite Hc2. done. }
  destruct (_ && _); [|by exists o4].
  destruct (persist_writeOk (NextAllowed (state (adm o4))) o4 Hs2) as (o5 & -> & Hc5 & Hf5 & Hg5).
  exists o5. split_and!; [done|lia|]. split; [rewrite Hf5|rewrite Hg5]; apply Hu2.
Qed.

Lemma waitUntil_smooth until late o :
  exists o', waitUntil until late Woken o = (o', None) /\ adm o' = adm o /\ shared o' = shared o /\
    clock o' <= Z.max (clock o) until + Z.of_N late.
Proof.
  unfold waitUntil. destruct (0 <? until - clock o); eexists; split_and!; try done; simpl; lia.
Qed.

Lemma allowedAt_sound now a :
  policy_ok (policy a) -> 0 < now -> sound account now (state a) -> allowedAt a <= now + 2 * 24 * Hour.
Proof.
  intros (? & ? & ?) ? (_ & _ & ? & ? & ?). unfold allowedAt. rewrite !maxHistoryTime_max.
  assert (0 < Hour) by done. destruct (IsZero _), (IsZero _); lia.
Qed.

Lemma fetched_first (fetch : Fetch T) o o' xs r x :
  fetched fetch o = (o', xs, r) ->
  r = fetchResult fetch /\ (head xs = Some x -> reservedAt x = LastErrorAt (state (adm o))).
Proof.
  destruct fetch as [before took r0|[|rt rts] r0]; unfold fetched; simpl.
  - intros [= _ <- <-]. split; [done|]. by intros [= <-].
  - by intros [= _ <- <-].
  - destruct (roundTrips rts _ _) as [[p1 o1] xs1]. intros [= _ <- <-]. split; [done|]. by intros [= <-].
Qed.

Lemma conclude_writeOk env (r : res Error T) o :
  is_shared o -> e_final env = writeOk -> exists o', conclude env r o = (o', r, true).
Proof.
  intros Hs Ef. unfold conclude. cbn zeta. rewrite Ef.
  destruct r as [v|e];
    (match goal with |- context [persist writeOk ?n (onState ?g o)] =>
       destruct (persist_writeOk n (onState g o) Hs) as (o' & -> & _) end); eauto.
Qed.

Lemma polled_clock ds (a b : Owner) :
  clock a = clock b -> clock (polled ds a) = clock (polled ds b).
Proof. unfold polled. revert a b. induction ds as [|d ds IH]; intros a b Hab; [done|]. apply IH. simpl. lia. Qed.

(** A smooth turn from a usable record reaches the demand's own code. *)
Lemma smooth_turn t now f :
  smooth t now -> 0 < now -> usable account now f ->
  exists o rep, takeTurn t now f = (o, rep, Some (demanded t)) /\ recorded rep = true /\
    forall x, head (exchanges rep) = Some x ->
      reservedAt x <= asked t now + Z.of_N (q_importWait (e_acquire (t_env t)))
        + 2 * 24 * Hour + Z.of_N (e_late (t_env t)).
Proof.
  intros [Hfits Hfa Hgf Hg Hw Hc Hres Hl Hfin Hsh Hdir Hle Hrd Hwr (entries & He & Hlen & Hall)] Hnow Hu.
  pose proof Hfits as ([p Hp] & Hso & Hfloor). apply normalized_ok in Hp.
  set (q := e_acquire (t_env t)) in *. unfold takeTurn, dispatchHistory. rewrite Hg. fold q.
  set (o0 := tick (t_pause t) _).
  assert (H0' : healthy account o0).
  { split_and!; simpl; [lia| |done]. eapply usable_later; [|exact Hu]. lia. }
  assert (Hs0 : is_shared o0) by (unfold is_shared; simpl; eauto).
  set (o1 := polled (q_polls q) (tick (q_gateWait q) o0)).
  destruct (polled_frame (q_polls q) (tick (q_gateWait q) o0)) as (Hw1 & Hd1 & Ha1 & Hsh1).
  fold o1 in Hw1, Hd1, Ha1, Hsh1.
  assert (H1 : healthy account o1).
  { eapply healthy_frame; [apply Hw1|done|by rewrite Ha1|]. by apply healthy_tick. }
  assert (Hs1 : is_shared o1) by (unfold is_shared; rewrite Hsh1; simpl; eauto).
  assert (Hask : asked t now = clock o1 + Z.of_N (q_readWait q)).
  { unfold asked. fold q. simpl. f_equal.
    by apply polled_clock. }
  destruct (underLease_smooth q (t_gate t) o1 entries) as (o2 & E2 & Hc2 & Hf2 & Hg2); try done.
  { by rewrite <- Hask. }
  assert (Ea : acquireAccount q o0 = (o2, None)).
  { unfold acquireAccount. simpl. rewrite Hsh, Hgf, Hdir, Hle. exact E2. }
  rewrite Ea.
  assert (H2 : healthy account o2).
  { eapply acquireAccount_healthy; [exact H0'| |exact Ea]. simpl. intros g [= <-]. lia. }
  destruct (acquireAccount_spec _ _ _ _ Hs0 Ea) as [Hk2 _].
  assert (Hs2 : is_shared o2) by (eapply keeping_shared; [|exact Hk2]; done).
  assert (Hp2 : policy (adm o2) = policy (t_adm t)) by apply Hk2.
  unfold admitted. replace (failed (adm o2)) with (@None Error) by (by rewrite Hf2, Ha1).
  rewrite Hw. destruct (waitUntil_smooth (allowedAt (adm o2)) (e_late (t_env t)) o2)
    as (o3 & -> & Ha3 & Hsh3 & Hc3). rewrite Hc, Hres.
  assert (Hs3 : is_shared o3) by (unfold is_shared; by rewrite Hsh3).
  destruct (reserve_writeOk o3 Hs3) as (o4 & Er). rewrite Er.
  assert (Hp3 : policy_ok (policy (adm o3))) by (by rewrite Ha3, Hp2).
  apply reserve_spec in Er as (Hw4 & Hc4 & Hl4 & _ & Hk4); [|done|done]. specialize (Hk4 eq_refl).
  assert (Hs4 : is_shared o4) by (by apply Hw4).
  assert (Hp4 : policy (adm o4) = policy (adm o3)) by apply Hw4.
  destruct (fetched (t_fetch t) o4) as [[o5 xs] r0] eqn:Ef. rewrite Hl.
  pose proof (fun x => fetched_first _ _ _ _ _ x Ef) as Hhead.
  apply fetched_spec in Ef as [(Hw5 & _) _];
    [|done|by rewrite Hp4|congruence|by rewrite Hc4, Hp4].
  set (r1 := match r0 with Ok _ => _ | Err _ => _ end).
  assert (Hr1 : r1 = demanded t).
  { unfold r1, demanded. destruct xs as [|x xs].
    - by rewrite (proj1 (Hhead (mkExchange 0 0 0))).
    - by rewrite (proj1 (Hhead x)). }
  destruct (conclude_writeOk (t_env t) r1 (tick (e_done (t_env t)) o5)) as [o6 ->]; [|done|].
  { by apply Hw5. }
  rewrite Hr1. do 2 eexists. split; [reflexivity|]. split; [done|]. simpl. intros x Hx.
  rewrite (proj2 (Hhead x) Hx), Hl4. destruct H2 as (Hpos & _ & Hso2).
  pose proof (allowedAt_sound (clock o2) (adm o2) ltac:(by rewrite Hp2) Hpos Hso2). assert (0 < Hour) by done. unfold q in *. lia.
Qed.

(** C32: Whatever the turns before did - crashed between a request and its
    reply, failed to write, refused, were cancelled - the record they leave is
    readable and valid: the next turn in which nothing fails waits at most two
    days and comes to exactly the result of the demand's own code, which is
    recorded. *)
Theorem schedule_never_wedges ts now f now' f' reports t :
  0 < now -> usable account now f -> turns_fit ts now f ->
  takeTurns ts now f = (now', f', reports) -> smooth t now' ->
  exists o rep, takeTurn t now' f' = (o, rep, Some (demanded t)) /\ recorded rep = true /\
    forall x, head (exchanges rep) = Some x ->
      reservedAt x <= asked t now' + Z.of_N (q_importWait (e_acquire (t_env t)))
        + 2 * 24 * Hour + Z.of_N (e_late (t_env t)).
Proof.
  intros Hnow Hu Hfit E Hs. destruct (takeTurns_usable _ _ _ _ _ _ Hfit Hnow Hu E) as [? ?].
  by apply smooth_turn.
Qed.
End Liveness.

(** ** Witnesses: a crash between a request and its reply, then two restarts *)

Definition demoJSON : JSON historyAdmissionState :=
  {| json_size _ := 200; json_wire s := s |}.

Lemma demoText : @AdmissionText demoJSON.
Proof. by split. Qed.

Definition demoPolicy : HistoryPacing :=
  mkPacing "" (2 * Second) (30 * Second) 32 (60 * Second).

Definition demoAcquire : AcquireEnv :=
  mkAcquireEnv Woken 1 (LstatInfo privateDir) [3%N] Leased readOk (Some []) writeOk true 1 1.

Definition demoTurn (dies : bool) : Turn unit :=
  mkTurn 10 (mkAdmission (mkAdmissionState 1 7 0 0 0) "profile.history-admission" demoPolicy None)
    (mkGate 0 None)
    (mkDispatchEnv Woken demoAcquire Woken 2 false writeOk dies 1 writeOk)
    (FetchLoco 4 5 (Ok tt)) (fun _ => None).

Definition demoTurns : list (Turn unit) := [demoTurn true; demoTurn false; demoTurn false].

Lemma demo_normal : Forall normal demoTurns.
Proof.
  assert (Hn : forall b, normal (demoTurn b)) by (intros []; by exists (mkPacing "" 0 0 0 0)).
  by repeat apply Forall_cons_2.
Qed.

Definition demoFirst : Exchange := mkExchange 50001016 50001020 50001025.
Definition demoSecond : Exchange := mkExchange 30050001018 30050001022 30050001027.
Definition demoThird : Exchange := mkExchange 32050001030 32050001034 32050001039.

Lemma demo_run : takeTurns (H := demoJSON) demoTurns 1000 Missing =
  (32050001040,
   Present privateFile (encoded (H := demoJSON)
     (mkAdmissionState 1 7 34050001040 32050001040 0)),
   [(demoPolicy, mkReport [demoFirst] None false);
    (demoPolicy, mkReport [demoSecond] (Some (true, 30050001028)) true);
    (demoPolicy, mkReport [demoThird] (Some (true, 32050001040)) true)]).
Proof. vm_compute. reflexivity. Qed.

(** Nobody saw how the first request ended: the second one waits thirty seconds. *)
Lemma requests_are_spaced_witness :
  reservedAt demoFirst + 30 * Second <= reservedAt demoSecond /\
  finishedAt demoSecond + 2 * Second <= reservedAt demoThird.
Proof.
  destruct (requests_are_spaced (H := demoJSON) (H0 := demoText) _ _ _ _ _ _ demo_normal demo_run)
    as [_ Hs].
  pose proof (fun x : Exchange => proj2 (list_elem_of_singleton x x) eq_refl) as Hin. split.
  - exact (proj1 (Hs 0%nat 1%nat _ _ _ _ demoFirst demoSecond (Nat.lt_0_succ 0) eq_refl eq_refl
      (Hin _) (Hin _))).
  - exact (proj2 (Hs 1%nat 2%nat _ _ _ _ demoSecond demoThird (Nat.lt_succ_diag_r 1) eq_refl eq_refl
      (Hin _) (Hin _)) eq_refl).
Defined.

Lemma request_rate_bounded_witness :
  reservedAt demoFirst + 2 * (2 * Second) <= reservedAt demoThird.
Proof.
  apply (request_rate_bounded (H := demoJSON) (H0 := demoText) _ _ _ _ _ _ (2 * Second) 0 2
    demoFirst demoThird demo_normal ltac:(by repeat apply Forall_cons_2) demo_run eq_refl eq_refl).
Defined.

Lemma demo_fits b now : 0 <= now -> fits 7 (demoTurn b) now.
Proof.
  intros Hnow. assert (0 < Hour) by done. split_and!.
  - by exists (mkPacing "" 0 0 0 0).
  - unfold sound. simpl. split_and!; lia.
  - simpl. lia.
Qed.

Lemma demo_smooth now : 0 <= now -> smooth 7 (demoTurn false) now.
Proof.
  intros Hnow. split; try reflexivity; [by apply demo_fits|]. exists []. by split_and!.
Qed.

Lemma demo_crashed : exists o rep r, takeTurn (H := demoJSON) (demoTurn true) 1000 Missing = (o, rep, r) /\
  takeTurns (H := demoJSON) [demoTurn true] 1000 Missing = (clock o, disk o, [(demoPolicy, rep)]) /\
  0 <= clock o.
Proof.
  destruct (takeTurn (H := demoJSON) (demoTurn true) 1000 Missing) as [[o rep] r] eqn:E.
  exists o, rep, r. split_and!; [done| |].
  - unfold takeTurns. by rewrite E.
  - assert (normal (demoTurn true)) as Hn by by exists (mkPacing "" 0 0 0 0).
    apply (takeTurn_spec (H := demoJSON) (H0 := demoText)) in E; [lia|done].
Qed.

Lemma missing_usable : usable 7 1000 Missing.
Proof. split; [intros env s E; unfold Read in E; by destruct (read_lstat_ok env)|by exists None]. Qed.

Lemma schedule_never_wedges_witness :
  exists now f o rep,
    takeTurn (H := demoJSON) (demoTurn false) now f = (o, rep, Some (Ok tt)) /\ recorded rep = true.
Proof.
  destruct demo_crashed as (o & rep & r & E & Es & Hc).
  assert (Hfit : turns_fit (H := demoJSON) 7 [demoTurn true] 1000 Missing).
  { split; [by apply demo_fits|]. by rewrite E. }
  destruct (schedule_never_wedges (H := demoJSON) (H0 := demoText) 7 [demoTurn true] 1000 Missing _ _ _ (demoTurn false)
    eq_refl missing_usable Hfit Es (demo_smooth _ Hc)) as (o' & rep' & E' & Hr & _).
  exists (clock o), (disk o), o', rep'. exact (conj E' Hr).
Defined.
