(* ===== verification/PacingAccounts.v ===== *)
(** * Accounts and their demand (src/internal/client/history_account.go and
      history_admission.go)

    The registry of account gates of a process: every admission of one account
    shares a gate, its policy and its scheduling root, and the demand waiting at
    a gate is bounded.  Gates and admissions are objects of a store, as the code
    shares pointers; a step is one critical section, or the statement between two. *)

From S2P Require Import Prelude PrivateJson.
From S2P Require Import Identifiers HistoryStore.
From S2P Require Import Pacing.

#[local] Open Scope string_scope.
#[local] Open Scope list_scope.
#[local] Open Scope Z_scope.

(** What the registry and the demand counters use of [historyAccountGate]; the
    gate's lease is in [Pacing]. *)
Record gateObject := mkGateObject {
  g_floor : Z;
  g_account : Z;
  g_pending : Z;
  g_refs : Z;
  g_path : string;
  g_policy : HistoryPacing;
}.

(** And of [historyAdmission]. *)
Record admissionObject := mkAdmissionObject {
  a_policy : HistoryPacing;
  a_shared : nat;
  a_pending : Z;
  a_cancelled : bool; (* [stopCtx] *)
  a_stopped : bool;
  a_released : bool; (* [releaseOnce] *)
  a_joined : bool; (* [stoppedDone] is closed *)
}.

Record registry := mkRegistry {
  objects : gmap nat gateObject;
  gates : gmap string nat; (* [historyAccounts.gates] *)
  admissions : gmap nat admissionObject;
  nextObject : nat;
}.

Definition noAccounts : registry := mkRegistry ∅ ∅ ∅ 0.

(** ** Opening *)

(** [filepath.Dir], up to the cleaning that [filepath.Abs] repeats. *)
Fixpoint lastSlash (s : string) : option (string * bool) :=
  match s with
  | EmptyString => None
  | String c s' =>
      match lastSlash s' with
      | Some (d, _) => Some (String c d, false)
      | None => if Ascii.eqb c (Ascii.ascii_of_nat 47) then Some (EmptyString, true) else None
      end
  end.

Definition Dir (path : string) : string :=
  match lastSlash path with
  | None => "."
  | Some (_, true) => "/"
  | Some (d, false) => d
  end.

(** [filepath.Join] of a clean absolute directory and a name. *)
Definition Join (dir name : string) : string :=
  if String.eqb dir "/" then "/" +:+ name else dir +:+ "/" +:+ name.

Record OpenEnv := mkOpenEnv {
  o_now : Z;
  o_dir : LstatResult; (* of the profile's directory *)
  o_read : ReadEnv;
  o_own : File historyAdmissionState;
  o_abs : string -> option string; (* [filepath.Abs] *)
  o_root : LstatResult;
  o_rootRead : ReadEnv;
  o_shared : File historyAdmissionState;
}.

(** The state that an admission starts from. *)
Definition openHistoryAdmission (env : OpenEnv) (path : string) (accountID : Z) (p : HistoryPacing)
  : res Error (HistoryPacing * historyAdmissionState) :=
  match normalized p with
  | Err _ => Err ErrProtocol
  | Ok p =>
      if accountID <=? 0 then Err ErrProtocol else
      let initial := mkAdmissionState 1 accountID 0 0 0 in
      if String.eqb path "" then Ok (p, initial) else
      match ValidatePrivateDir (o_dir env) with
      | Some e => Err (ErrFile e)
      | None =>
          match Read (o_read env) (o_own env) with
          | Err e => Err (ErrFile e)
          | Ok None => Ok (p, initial)
          | Ok (Some s) =>
              if negb (validHistoryAdmissionState (o_now env) s accountID)
              then Err (ErrFile ErrCorrupt) else Ok (p, s)
          end
      end
  end.

Definition accountPath (dir : string) (accountID : Z) : string :=
  Join dir (".history-account-" +:+ historyDigest (FormatInt accountID) +:+ ".json").

(** The registry's critical section; the new admission is the last object. *)
Definition register (path : string) (accountID : Z) (p : HistoryPacing) (floor : Z) (r : registry)
  : registry * res Error nat :=
  let others := map_to_list (gates r) in
  if existsb (fun '(other, g) =>
       match objects r !! g with
       | Some o => (g_account o =? accountID) && negb (String.eqb other path)
       | None => false
       end) others
  then (r, Err errRootsDiffer) else
  let found := match gates r !! path with
    | Some g => option_map (fun o => (g, o)) (objects r !! g)
    | None => None
    end in
  let conflict := match found with
    | Some (_, o) => negb (bool_decide (g_policy o = p))
    | None => false
    end in
  if conflict then (r, Err errPoliciesDiffer) else
  let '(g, o, gates', next) := match found with
    | Some (g, o) => (g, o, gates r, nextObject r)
    | None => (nextObject r, mkGateObject 0 accountID 0 0 path p,
               <[path := nextObject r]> (gates r), S (nextObject r))
    end in
  let o := mkGateObject (maxHistoryTime (g_floor o) floor) (g_account o) (g_pending o)
             (g_refs o + 1) (g_path o) (g_policy o) in
  (mkRegistry (<[g := o]> (objects r)) gates'
     (<[next := mkAdmissionObject p g 0 false false false false]> (admissions r)) (S next),
   Ok next).

Definition openAccountHistoryAdmission (env : OpenEnv) (profile : string) (accountID : Z)
    (p : HistoryPacing) (r : registry) : registry * res Error nat :=
  match openHistoryAdmission env (profile +:+ ".history-admission") accountID p with
  | Err e => (r, Err e)
  | Ok (q, s) =>
      let dir := if String.eqb (StateDirectory p) "" then Dir profile else StateDirectory p in
      match o_abs env dir with
      | None => (r, Err ErrProtocol)
      | Some dir =>
          match ValidatePrivateDir (o_root env) with
          | Some e => (r, Err (ErrFile e))
          | None =>
              let path := accountPath dir accountID in
              match Read (o_rootRead env) (o_shared env) with
              | Err e => (r, Err (ErrFile e))
              | Ok found =>
                  if match found with
                     | Some s => negb (validHistoryAdmissionState (o_now env) s accountID)
                     | None => false
                     end
                  then (r, Err (ErrFile ErrCorrupt)) else
                  let q := mkPacing dir (MinimumInterval q) (ErrorBackoff q) (MaxPending q)
                             (MaximumDuration q) in
                  register path accountID q (NextAllowed s) r
              end
          end
      end
  end.

(** ** Demand *)

Definition setGate (g : nat) (o : gateObject) (r : registry) : registry :=
  mkRegistry (<[g := o]> (objects r)) (gates r) (admissions r) (nextObject r).
Definition setAdmission (i : nat) (a : admissionObject) (r : registry) : registry :=
  mkRegistry (objects r) (gates r) (<[i := a]> (admissions r)) (nextObject r).

Definition withPending (n : Z) (a : admissionObject) : admissionObject :=
  mkAdmissionObject (a_policy a) (a_shared a) n (a_cancelled a) (a_stopped a) (a_released a) (a_joined a).
Definition gatePending (n : Z) (o : gateObject) : gateObject :=
  mkGateObject (g_floor o) (g_account o) n (g_refs o) (g_path o) (g_policy o).
Definition gateRefs (n : Z) (o : gateObject) : gateObject :=
  mkGateObject (g_floor o) (g_account o) (g_pending o) n (g_path o) (g_policy o).

Definition reserveDemand (i : nat) (a : admissionObject) (r : registry) : registry * option Error :=
  if a_stopped a || a_cancelled a then (r, Some ErrClientClosed)
  else if MaxPending (a_policy a) <=? a_pending a then (r, Some ErrHistoryBusy)
  else match objects r !! a_shared a with
  | None => (r, None) (* a pointer is never dangling *)
  | Some o =>
      if MaxPending (a_policy a) <=? g_pending o then (r, Some ErrHistoryBusy)
      else (setAdmission i (withPending (a_pending a + 1) a)
              (setGate (a_shared a) (gatePending (g_pending o + 1) o) r), None)
  end.

(** The counters, and whether [finishStopped] follows. *)
Definition finishDemand (i : nat) (a : admissionObject) (r : registry) : registry * bool :=
  match objects r !! a_shared a with
  | None => (r, false)
  | Some o =>
      (setAdmission i (withPending (a_pending a - 1) a)
         (setGate (a_shared a) (gatePending (g_pending o - 1) o) r),
       a_stopped a && (a_pending a - 1 =? 0))
  end.

Definition releaseAccount (i : nat) (a : admissionObject) (r : registry) : registry :=
  if a_released a then r else
  let r := setAdmission i (mkAdmissionObject (a_policy a) (a_shared a) (a_pending a) (a_cancelled a)
             (a_stopped a) true (a_joined a)) r in
  match objects r !! a_shared a with
  | None => r
  | Some o =>
      let o := gateRefs (g_refs o - 1) o in
      let r := setGate (a_shared a) o r in
      if g_refs o =? 0
      then mkRegistry (objects r) (delete (g_path o) (gates r)) (admissions r) (nextObject r)
      else r
  end.

Definition finishStopped (i : nat) (r : registry) : registry :=
  match admissions r !! i with
  | None => r
  | Some a =>
      let r := releaseAccount i a r in
      match admissions r !! i with
      | None => r
      | Some a =>
          setAdmission i (mkAdmissionObject (a_policy a) (a_shared a) (a_pending a) (a_cancelled a)
            (a_stopped a) (a_released a) true) r
      end
  end.

(** [stop]: [cancel], then the critical section and whether [finishStopped]
    follows. *)
Definition cancel (i : nat) (a : admissionObject) (r : registry) : registry :=
  setAdmission i (mkAdmissionObject (a_policy a) (a_shared a) (a_pending a) true
    (a_stopped a) (a_released a) (a_joined a)) r.
Definition stop (i : nat) (a : admissionObject) (r : registry) : registry * bool :=
  (setAdmission i (mkAdmissionObject (a_policy a) (a_shared a) (a_pending a) (a_cancelled a)
    true (a_released a) (a_joined a)) r, a_pending a =? 0).

(** ** A process *)

(** [ending] are the calls of [finishStopped] that are under way. *)
Inductive step : registry * list nat -> registry * list nat -> Prop :=
| step_open env profile account p r ending :
    step (r, ending) ((openAccountHistoryAdmission env profile account p r).1, ending)
| step_reserve i a r ending :
    admissions r !! i = Some a -> step (r, ending) ((reserveDemand i a r).1, ending)
| step_finish i a r ending :
    admissions r !! i = Some a -> 0 < a_pending a -> (* a demand that was reserved *)
    step (r, ending)
      ((finishDemand i a r).1, if (finishDemand i a r).2 then i :: ending else ending)
| step_cancel i a r ending :
    admissions r !! i = Some a -> step (r, ending) (cancel i a r, ending)
| step_stop i a r ending :
    admissions r !! i = Some a -> a_cancelled a = true ->
    step (r, ending) ((stop i a r).1, if (stop i a r).2 then i :: ending else ending)
| step_finishStopped i r before after :
    step (r, before ++ i :: after) (finishStopped i r, before ++ after).

Definition reachable (s : registry * list nat) : Prop := rtc step (noAccounts, []) s.
