(* ===== verification/AccountsTheorems.v ===== *)
(** * One scheduler per account, and bounded demand

    What every reachable registry of [PacingAccounts] keeps. *)

From S2P Require Import Prelude PrivateJson.
From S2P Require Import Pacing PacingAccounts.

#[local] Open Scope string_scope.
#[local] Open Scope list_scope.
#[local] Open Scope Z_scope.

Implicit Types (r : registry) (i g : nat) (a : admissionObject) (o : gateObject).

(** The demand that an admission has waiting at a gate, and whether it holds it. *)
Definition pend g a : Z := if (a_shared a =? g)%nat then a_pending a else 0.
Definition live g a : Z := if (a_shared a =? g)%nat && negb (a_released a) then 1 else 0.

Record admission_ok r a : Prop := mkAdmissionOk {
  ad_gate : exists o, objects r !! a_shared a = Some o /\ g_policy o = a_policy a /\
    (a_released a = false -> gates r !! g_path o = Some (a_shared a));
  ad_pending : 0 <= a_pending a <= MaxPending (a_policy a);
  ad_released : a_released a = true -> a_stopped a = true /\ a_pending a = 0;
  ad_joined : a_joined a = true -> a_released a = true;
}.

Record gate_ok r g o : Prop := mkGateOk {
  gt_pending : g_pending o = total (pend g) (admissions r);
  gt_refs : g_refs o = total (live g) (admissions r);
  gt_bound : g_pending o <= MaxPending (g_policy o);
}.

Record inv r (ending : list nat) : Prop := mkInv {
  iv_admissions : forall i a, admissions r !! i = Some a -> admission_ok r a;
  iv_gates : forall g o, objects r !! g = Some o -> gate_ok r g o;
  iv_registered : forall p g, gates r !! p = Some g ->
    exists o, objects r !! g = Some o /\ g_path o = p /\ 0 < g_refs o;
  iv_one : forall p p' g g' o o', gates r !! p = Some g -> gates r !! p' = Some g' ->
    objects r !! g = Some o -> objects r !! g' = Some o' -> g_account o = g_account o' -> p = p';
  iv_fresh : forall i, (nextObject r <= i)%nat -> objects r !! i = None /\ admissions r !! i = None;
  iv_ending : forall i, i ∈ ending ->
    exists a, admissions r !! i = Some a /\ a_stopped a = true /\ a_pending a = 0;
}.

Lemma inv_none : inv noAccounts [].
Proof. by split; simpl; intros; rewrite ?lookup_empty in *; try done; inversion H. Qed.

(** One admission and its gate change; who holds the gate does not. *)
Lemma inv_update r ending ending' i a a' o o' :
  inv r ending -> admissions r !! i = Some a -> objects r !! a_shared a = Some o ->
  a_shared a' = a_shared a -> a_policy a' = a_policy a -> a_released a' = a_released a ->
  g_policy o' = g_policy o -> g_path o' = g_path o -> g_account o' = g_account o ->
  g_refs o' = g_refs o -> g_pending o' - g_pending o = a_pending a' - a_pending a ->
  0 <= a_pending a' <= MaxPending (a_policy a) -> g_pending o' <= MaxPending (g_policy o) ->
  (a_released a = true -> a_stopped a' = true /\ a_pending a' = 0) ->
  (a_joined a' = true -> a_released a = true) ->
  (forall j, j ∈ ending' -> j ∈ ending \/ j = i) ->
  (i ∈ ending' -> a_stopped a' = true /\ a_pending a' = 0) ->
  inv (setAdmission i a' (setGate (a_shared a) o' r)) ending'.
Proof.
  intros [Iadm Igate Ireg Ione Inew Iend] Ea Eo Hsh Hpol Hrel Hgpol Hpath Hacc Hrefs Hpend Hb Hgb Hr Hj Hin Hi.
  assert (Hobj : forall g o1, <[a_shared a := o']> (objects r) !! g = Some o1 ->
    exists o0, objects r !! g = Some o0 /\ g_policy o1 = g_policy o0 /\ g_path o1 = g_path o0 /\
      g_account o1 = g_account o0 /\ g_refs o1 = g_refs o0).
  { intros g o1. destruct (decide (g = a_shared a)) as [->|Hne].
    - rewrite lookup_insert_eq. intros [= <-]. by exists o.
    - rewrite lookup_insert_ne by done. intros ?. by exists o1. }
  assert (Hobj' : forall g o0, objects r !! g = Some o0 ->
    exists o1, <[a_shared a := o']> (objects r) !! g = Some o1 /\ g_policy o1 = g_policy o0 /\
      g_path o1 = g_path o0 /\ g_refs o1 = g_refs o0).
  { intros g o0. destruct (decide (g = a_shared a)) as [->|Hne].
    - rewrite lookup_insert_eq. intros ?. simplify_eq. by exists o'.
    - rewrite lookup_insert_ne by done. intros ?. by exists o0. }
  assert (Hkeep : forall b, admission_ok r b -> exists o1, <[a_shared a := o']> (objects r) !! a_shared b = Some o1 /\
    g_policy o1 = a_policy b /\ (a_released b = false -> gates r !! g_path o1 = Some (a_shared b))).
  { intros b [(o0 & E0 & Ep & Eg) _ _ _]. destruct (Hobj' _ _ E0) as (o1 & E1 & Ep1 & Epa & _).
    exists o1. rewrite Ep1, Epa. done. }
  split; simpl.
  - intros j b. destruct (decide (j = i)) as [->|Hne].
    + rewrite lookup_insert_eq. intros [= <-]. split; simpl.
      * rewrite Hsh, Hpol, Hrel. apply Hkeep. eauto.
      * by rewrite Hpol.
      * by rewrite Hrel.
      * by rewrite Hrel.
    + rewrite lookup_insert_ne by done. intros Hjb. destruct (Iadm _ _ Hjb) as [? ? ? ?].
      split; simpl; [|done..]. apply Hkeep. eauto.
  - intros g o1 E1.
    assert (Hp : total (pend g) (<[i:=a']> (admissions r)) = total (pend g) (admissions r) + pend g a' - pend g a)
      by (by apply total_replace).
    assert (Hl : total (live g) (<[i:=a']> (admissions r)) = total (live g) (admissions r)).
    { rewrite (total_replace _ _ _ a) by done. unfold live. rewrite Hsh, Hrel. lia. }
    unfold pend in Hp. rewrite Hsh in Hp.
    destruct (decide (g = a_shared a)) as [->|Hne].
    + rewrite lookup_insert_eq in E1. simplify_eq. destruct (Igate _ _ Eo) as [Gp Gr Gb].
      rewrite Nat.eqb_refl in Hp. fold (pend (a_shared a)) in Hp. split; simpl.
      * change (total (fun a1 => _) ?m) with (total (pend (a_shared a)) m) in Hp. lia.
      * lia.
      * by rewrite Hgpol.
    + rewrite lookup_insert_ne in E1 by done. destruct (Igate _ _ E1) as [Gp Gr Gb].
      replace (a_shared a =? g)%nat with false in Hp by (symmetry; by apply Nat.eqb_neq).
      split; simpl; [|lia|done]. rewrite Gp. change (total (fun a1 => _) ?m) with (total (pend g) m) in Hp. lia.
  - intros p g Hg. destruct (Ireg _ _ Hg) as (o0 & E0 & Ep & Hpos).
    destruct (Hobj' _ _ E0) as (o1 & E1 & _ & Epa & Er). exists o1. split_and!; [done|congruence|lia].
  - intros p p' g g' o1 o2 Hg Hg' E1 E2 Hacc'.
    destruct (Hobj _ _ E1) as (o3 & E3 & _ & _ & A3 & _). destruct (Hobj _ _ E2) as (o4 & E4 & _ & _ & A4 & _).
    eapply Ione; [exact Hg|exact Hg'|done..|congruence].
  - intros j Hjn. destruct (Inew j Hjn) as [Jo Ja]. rewrite !lookup_insert_ne; [done| |]; intros <-; congruence.
  - intros j Hjn. destruct (decide (j = i)) as [->|Hne].
    + rewrite lookup_insert_eq. exists a'. split; [done|]. by apply Hi.
    + rewrite lookup_insert_ne by done. apply Iend. by destruct (Hin _ Hjn).
Qed.

Lemma setGate_same r g o : objects r !! g = Some o -> setGate g o r = r.
Proof. intros E. unfold setGate. rewrite insert_id by done. by destruct r. Qed.

(** Only flags of an admission change. *)
Lemma inv_flags r ending ending' i a a' :
  inv r ending -> admissions r !! i = Some a ->
  a_shared a' = a_shared a -> a_policy a' = a_policy a -> a_released a' = a_released a ->
  a_pending a' = a_pending a -> (a_stopped a = true -> a_stopped a' = true) ->
  (a_joined a' = true -> a_released a = true) ->
  (forall j, j ∈ ending' -> j ∈ ending \/ j = i) ->
  (i ∈ ending' -> a_stopped a' = true /\ a_pending a' = 0) ->
  inv (setAdmission i a' r) ending'.
Proof.
  intros I Ea Hsh Hpol Hrel Hp Hst Hj Hin Hi.
  destruct (iv_admissions _ _ I _ _ Ea) as [(o & Eo & Hgp & _) Hb Hr _].
  rewrite <- (setGate_same r (a_shared a) o Eo).
  apply (inv_update r ending ending' i a a' o o); try done; rewrite ?Hp; try lia.
  - by destruct (iv_gates _ _ I _ _ Eo).
Qed.

Lemma reserveDemand_inv r ending i a :
  inv r ending -> admissions r !! i = Some a -> inv (reserveDemand i a r).1 ending.
Proof.
  intros I Ea. unfold reserveDemand. destruct (_ || _) eqn:Es; [done|].
  destruct (MaxPending _ <=? a_pending a) eqn:Ep; [done|]. bool_prop.
  destruct (iv_admissions _ _ I _ _ Ea) as [(o & Eo & Hgp & _) Hb Hr Hj]. rewrite Eo.
  destruct (_ <=? g_pending o) eqn:Eg; [done|]. bool_prop. simpl.
  eapply inv_update; try done; simpl; try lia; auto.
  - rewrite Hgp. lia.
  - intros Hi. destruct (iv_ending _ _ I _ Hi) as (b & Eb & ? & ?). congruence.
Qed.

Lemma finishDemand_inv r ending i a :
  inv r ending -> admissions r !! i = Some a -> 0 < a_pending a ->
  inv (finishDemand i a r).1 (if (finishDemand i a r).2 then i :: ending else ending).
Proof.
  intros I Ea Hpos. unfold finishDemand.
  destruct (iv_admissions _ _ I _ _ Ea) as [(o & Eo & Hgp & _) Hb Hr Hj]. rewrite Eo. simpl.
  assert (Hnot : i ∉ ending).
  { intros Hi. destruct (iv_ending _ _ I _ Hi) as (b & Eb & ? & ?). assert (b = a) by congruence. subst. lia. }
  destruct (iv_gates _ _ I _ _ Eo) as [_ _ Hgb].
  eapply inv_update; try done; simpl; try lia; auto.
  - intros j. destruct (_ && _); [rewrite elem_of_cons|]; tauto.
  - destruct (_ && _) eqn:E; [|done]. bool_prop. done.
Qed.

Lemma cancel_inv r ending i a :
  inv r ending -> admissions r !! i = Some a -> inv (cancel i a r) ending.
Proof.
  intros I Ea. destruct (iv_admissions _ _ I _ _ Ea) as [_ _ _ Hj].
  eapply inv_flags; try done; simpl; auto.
  intros Hi. destruct (iv_ending _ _ I _ Hi) as (b & Eb & ? & ?). by simplify_eq.
Qed.

Lemma stop_inv r ending i a :
  inv r ending -> admissions r !! i = Some a ->
  inv (stop i a r).1 (if (stop i a r).2 then i :: ending else ending).
Proof.
  intros I Ea. destruct (iv_admissions _ _ I _ _ Ea) as [_ _ _ Hj].
  eapply inv_flags; try done; simpl.
  - intros j. destruct (_ =? _); [rewrite elem_of_cons|]; tauto.
  - destruct (a_pending a =? 0) eqn:E; bool_prop; [done|]. intros Hi.
    destruct (iv_ending _ _ I _ Hi) as (b & Eb & ? & ?). by simplify_eq.
Qed.

(** The gate that a new admission joins, as [register] finds or makes it. *)
Record joinable r (gates' : gmap string nat) (next g : nat) o : Prop := mkJoinable {
  jn_gate : gate_ok r g o;
  jn_object : objects r !! g = Some o \/ objects r !! g = None;
  jn_here : gates' !! g_path o = Some g;
  jn_was : gates r !! g_path o = Some g \/ gates r !! g_path o = None;
  jn_else : forall q, q <> g_path o -> gates' !! q = gates r !! q;
  jn_one : forall q g' o', gates r !! q = Some g' -> objects r !! g' = Some o' ->
    g_account o' = g_account o -> q = g_path o;
  jn_next : (nextObject r <= next)%nat /\ (g < S next)%nat /\ g <> next;
}.

Lemma inv_join r ending gates' next g o o' p :
  inv r ending -> joinable r gates' next g o -> g_policy o = p -> 0 <= MaxPending p ->
  g_policy o' = g_policy o -> g_path o' = g_path o -> g_account o' = g_account o ->
  g_pending o' = g_pending o -> g_refs o' = g_refs o + 1 ->
  inv (mkRegistry (<[g := o']> (objects r)) gates'
         (<[next := mkAdmissionObject p g 0 false false false false]> (admissions r)) (S next)) ending.
Proof.
  intros [Iadm Igate Ireg Ione Inew Iend] [[Gp Gr Gb] Jo Jh Jw Je J1 (Jn & Jg & Jne)] Hp Hmax Opol Opath Oacc Opend Orefs.
  assert (Hnone : admissions r !! next = None) by (by apply Inew).
  assert (Hnone' : objects r !! next = None) by (by apply Inew).
  assert (Hobj : forall g0 o1, <[g := o']> (objects r) !! g0 = Some o1 ->
    g0 = g /\ o1 = o' \/ g0 <> g /\ objects r !! g0 = Some o1).
  { intros g0 o1. destruct (decide (g0 = g)) as [->|]; [rewrite lookup_insert_eq|rewrite lookup_insert_ne by done];
      intros ?; simplify_eq; auto. }
  split; simpl.
  - intros i a. destruct (decide (i = next)) as [->|Hne].
    + rewrite lookup_insert_eq. intros [= <-]. split; simpl; try done; try lia.
      exists o'. rewrite lookup_insert_eq, Opath. by rewrite Opol.
    + rewrite lookup_insert_ne by done. intros Ea.
      destruct (Iadm _ _ Ea) as [(o0 & E0 & P0 & G0) ? ? ?]. split; simpl; try done.
      destruct (decide (a_shared a = g)) as [Eg|Hg].
      * rewrite Eg in *. destruct Jo as [Jo|Jo]; [|congruence]. simplify_eq.
        exists o'. rewrite lookup_insert_eq, Opath, Opol. split_and!; try done.
      * exists o0. rewrite lookup_insert_ne by done. split_and!; try done. intros Hr. specialize (G0 Hr).
        rewrite Je; [done|]. intros Eq. rewrite Eq in G0. destruct Jw; congruence.
  - intros g0 o1 E1.
    assert (Hp0 : total (pend g0) (<[next:=mkAdmissionObject p g 0 false false false false]> (admissions r)) =
      total (pend g0) (admissions r)).
    { rewrite total_new by done. unfold pend at 2. simpl. destruct (g =? g0)%nat; lia. }
    assert (Hl0 : total (live g0) (<[next:=mkAdmissionObject p g 0 false false false false]> (admissions r)) =
      total (live g0) (admissions r) + if (g =? g0)%nat then 1 else 0).
    { rewrite total_new by done. unfold live at 2. simpl. rewrite andb_true_r. done. }
    destruct (Hobj _ _ E1) as [[-> ->]|[Hne E0]].
    + rewrite Nat.eqb_refl in Hl0. split; simpl; [lia|lia|]. rewrite Opend, Opol. done.
    + replace (g =? g0)%nat with false in Hl0 by (symmetry; apply Nat.eqb_neq; congruence).
      destruct (Igate _ _ E0) as [? ? ?]. split; simpl; lia.
  - intros q g0 Hq. destruct (decide (q = g_path o)) as [->|Hne].
    + assert (g0 = g) as -> by congruence. exists o'. rewrite lookup_insert_eq. split_and!; [done..|].
      enough (0 <= g_refs o) by lia. rewrite Gr. apply total_nonneg. intros k a _. unfold live.
      destruct (_ && _); lia.
    + rewrite Je in Hq by done. destruct (Ireg _ _ Hq) as (o0 & E0 & P0 & R0).
      destruct (decide (g0 = g)) as [->|].
      * destruct Jo as [Jo|Jo]; [|congruence]. simplify_eq.
      * exists o0. by rewrite lookup_insert_ne.
  - intros q q' g0 g1 o0 o1 Hq Hq' E0 E1 Hacc.
    assert (Hother : forall q g0 o0, gates' !! q = Some g0 -> <[g := o']> (objects r) !! g0 = Some o0 ->
      q = g_path o /\ g_account o0 = g_account o \/ gates r !! q = Some g0 /\ objects r !! g0 = Some o0).
    { intros q2 g2 o2 Hq2 E2. destruct (decide (q2 = g_path o)) as [->|Hne].
      - left. assert (g2 = g) as -> by congruence. rewrite lookup_insert_eq in E2. by simplify_eq.
      - right. rewrite Je in Hq2 by done. destruct (Hobj _ _ E2) as [[-> ->]|[? ?]]; [|done].
        destruct (Ireg _ _ Hq2) as (o3 & E3 & P3 & _). destruct Jo as [Jo|Jo]; congruence. }
    destruct (Hother _ _ _ Hq E0) as [[-> A0]|[G0 O0]], (Hother _ _ _ Hq' E1) as [[-> A1]|[G1 O1]].
    + done.
    + symmetry. eapply J1; [done..|congruence].
    + eapply J1; [done..|congruence].
    + by eapply Ione.
  - intros i Hi. rewrite !lookup_insert_ne by lia. apply Inew. lia.
  - intros i Hi. destruct (Iend _ Hi) as (a & Ea & ?). exists a.
    rewrite lookup_insert_ne; [done|]. intros <-. congruence.
Qed.

Lemma fresh_unshared r ending i a : inv r ending -> admissions r !! i = Some a -> a_shared a <> nextObject r.
Proof.
  intros I Ea E. destruct (iv_admissions _ _ I _ _ Ea) as [(o & Eo & _) _ _ _].
  rewrite E in Eo. destruct (iv_fresh _ _ I (nextObject r)); [lia|congruence].
Qed.

Lemma register_inv path account p floor r ending :
  inv r ending -> 0 <= MaxPending p -> inv (register path account p floor r).1 ending.
Proof.
  intros I Hp. unfold register. cbn zeta. destruct (existsb _ _) eqn:Ex; [done|].
  assert (Hone : forall q g' o', gates r !! q = Some g' -> objects r !! g' = Some o' ->
    g_account o' = account -> q = path).
  { intros q g' o' Hq Ho Ha. destruct (decide (q = path)) as [|Hne]; [done|]. exfalso.
    eapply not_true_iff_false; [exact Ex|]. apply existsb_exists. exists (q, g'). split.
    - by apply list_elem_of_In, elem_of_map_to_list.
    - rewrite Ho, Ha, Z.eqb_refl. simpl. by apply negb_true_iff, String.eqb_neq. }
  destruct (gates r !! path) as [g|] eqn:Eg.
  - destruct (iv_registered _ _ I _ _ Eg) as (o & Eo & Epath & _). rewrite Eo. simpl.
    destruct (negb _) eqn:Ec; [done|]. bool_prop. apply bool_decide_eq_true in Ec. simpl.
    apply inv_join with (o := o) (p := p); try done. split; try done.
    + by eapply iv_gates.
    + by left.
    + by rewrite Epath.
    + left. by rewrite Epath.
    + intros q g' o' Hq Ho Ha. rewrite Epath. by apply (iv_one _ _ I q path g' g o' o).
    + destruct (decide (nextObject r <= g)%nat); [|lia].
      destruct (iv_fresh _ _ I g); [done|congruence].
  - simpl. set (g := nextObject r).
    apply inv_join with (o := mkGateObject 0 account 0 0 path p) (p := p); try done. split; simpl; try lia.
    + split; simpl; try lia; symmetry; apply total_zero; intros i a Ea;
        pose proof (fresh_unshared _ _ _ _ I Ea) as Hne; unfold pend, live;
        by replace (a_shared a =? g)%nat with false by (symmetry; by apply Nat.eqb_neq).
    + right. by apply (iv_fresh _ _ I).
    + by rewrite lookup_insert_eq.
    + by right.
    + intros q Hq. by rewrite lookup_insert_ne.
    + done.
Qed.

Lemma openAccount_inv env profile account p r ending :
  inv r ending -> inv (openAccountHistoryAdmission env profile account p r).1 ending.
Proof.
  intros I. unfold openAccountHistoryAdmission.
  destruct (openHistoryAdmission _ _ _ _) as [[q s]|] eqn:Eo; [|done].
  assert (Hq : 0 <= MaxPending q).
  { unfold openHistoryAdmission in Eo. destruct (normalized p) as [q'|] eqn:En; [|done].
    assert (q' = q) as ->.
    { cbn zeta in Eo. destruct (account <=? 0); [done|]. destruct (String.eqb _ _); [congruence|].
      destruct (ValidatePrivateDir _); [done|]. destruct (Read _ _) as [[s'|]|]; try congruence.
      destruct (negb _); congruence. }
    unfold normalized in En. cbn zeta in En. destruct (_ || _) eqn:E; [done|]. injection En as <-.
    bool_prop. lia. }
  destruct (o_abs _ _); [|done]. destruct (ValidatePrivateDir _); [done|].
  destruct (Read _ _) as [found|]; [|done]. destruct (match found with Some _ => _ | None => _ end); [done|].
  by apply register_inv.
Qed.

(** The admission lets go of its gate, which goes with its last holder. *)
Lemma releaseAccount_inv r ending i a :
  inv r ending -> admissions r !! i = Some a -> a_stopped a = true -> a_pending a = 0 ->
  inv (releaseAccount i a r) ending /\
  exists a', admissions (releaseAccount i a r) !! i = Some a' /\ a_shared a' = a_shared a /\
    a_policy a' = a_policy a /\ a_released a' = true /\ a_stopped a' = true /\ a_pending a' = 0.
Proof.
  intros I Ea Hst Hp. unfold releaseAccount. destruct (a_released a) eqn:Er; [split; [done|by exists a]|].
  destruct I as [Iadm Igate Ireg Ione Inew Iend].
  destruct (Iadm _ _ Ea) as [(o & Eo & Hgp & Hreg) Hb Hr Hj]. specialize (Hreg Er).
  simpl. rewrite Eo. cbn zeta.
  set (a' := mkAdmissionObject _ _ _ _ _ true _).
  set (o' := gateRefs (g_refs o - 1) o). match goal with |- inv ?x _ /\ _ => set (gates' := x) end.
  assert (Hg' : exists gs, gates' = mkRegistry (<[a_shared a := o']> (objects r)) gs (<[i := a']> (admissions r))
      (nextObject r) /\ forall q, gs !! q = (if g_refs o - 1 =? 0 then delete (g_path o) (gates r) else gates r) !! q).
  { unfold gates'. simpl. destruct (_ =? 0); eauto. }
  destruct Hg' as (gs & -> & Hgs).
  split; [|exists a'; simpl; rewrite lookup_insert_eq; by split_and!].
  destruct (Igate _ _ Eo) as [Gp Gr Gb].
  assert (Hlive : forall g, total (live g) (<[i:=a']> (admissions r)) =
    total (live g) (admissions r) - if (a_shared a =? g)%nat then 1 else 0).
  { intros g. rewrite (total_replace _ _ _ a) by done. unfold live. simpl. rewrite Er. simpl.
    destruct (_ =? g)%nat; simpl; lia. }
  assert (Hpend : forall g, total (pend g) (<[i:=a']> (admissions r)) = total (pend g) (admissions r)).
  { intros g. rewrite (total_replace _ _ _ a) by done. unfold pend. simpl. lia. }
  assert (Hgone : forall q g, gs !! q = Some g -> gates r !! q = Some g).
  { intros q g. rewrite Hgs. destruct (_ =? 0); [|done]. rewrite lookup_delete_Some. tauto. }
  split; simpl.
  - intros j b. destruct (decide (j = i)) as [->|Hne].
    + rewrite lookup_insert_eq. intros [= <-]. split; simpl; try done; try lia.
      exists o'. by rewrite lookup_insert_eq.
    + rewrite lookup_insert_ne by done. intros Eb.
      destruct (Iadm _ _ Eb) as [(o0 & E0 & P0 & G0) ? ? ?]. split; simpl; try done.
      destruct (decide (a_shared b = a_shared a)) as [Eg|Hg].
      * rewrite Eg in *. simplify_eq. exists o'. rewrite lookup_insert_eq. split_and!; [done..|].
        intros Hrb. rewrite Hgs. destruct (g_refs o - 1 =? 0) eqn:Ez; [|by apply G0]. exfalso. bool_prop.
        assert (Htwo : total (live (a_shared a)) (<[i:=a']> (admissions r)) = 0).
        { rewrite Hlive, Nat.eqb_refl. lia. }
        pose proof (total_ge (live (a_shared a)) (<[i:=a']> (admissions r)) j b) as Hge.
        unfold live at 2 in Hge. rewrite Eg, Hrb, Nat.eqb_refl in Hge. simpl in Hge.
        enough (1 <= 0) by lia. rewrite <- Htwo. apply Hge; [|by rewrite lookup_insert_ne].
        intros k c _. unfold live. destruct (_ && _); lia.
      * exists o0. rewrite lookup_insert_ne by done. split_and!; try done. intros Hrb. specialize (G0 Hrb).
        rewrite Hgs. destruct (_ =? 0); [|done]. rewrite lookup_delete_ne; [done|]. congruence.
  - intros g o1 E1. destruct (decide (g = a_shared a)) as [->|Hne].
    + rewrite lookup_insert_eq in E1. injection E1 as <-. specialize (Hlive (a_shared a)).
      rewrite Nat.eqb_refl in Hlive. split; simpl; [by rewrite Hpend|lia|done].
    + rewrite lookup_insert_ne in E1 by done. destruct (Igate _ _ E1) as [? ? ?]. specialize (Hlive g).
      replace (a_shared a =? g)%nat with false in Hlive by (symmetry; apply Nat.eqb_neq; congruence).
      split; simpl; [by rewrite Hpend|lia|done].
  - intros q g Hq. destruct (Ireg _ _ (Hgone _ _ Hq)) as (o0 & E0 & P0 & R0).
    destruct (decide (g = a_shared a)) as [->|Hne].
    + exists o'. rewrite lookup_insert_eq. simplify_eq. split_and!; [done..|]. simpl.
      rewrite Hgs in Hq. destruct (g_refs o - 1 =? 0) eqn:Ez; bool_prop; [|lia].
      by rewrite lookup_delete_eq in Hq.
    + exists o0. by rewrite lookup_insert_ne.
  - intros q q' g g' o1 o2 Hq Hq' E1 E2 Hacc.
    assert (Hback : forall g1 o1, <[a_shared a := o']> (objects r) !! g1 = Some o1 ->
      exists o0, objects r !! g1 = Some o0 /\ g_account o0 = g_account o1).
    { intros g1 o3. destruct (decide (g1 = a_shared a)) as [->|];
        [rewrite lookup_insert_eq; intros [= <-]; by exists o|rewrite lookup_insert_ne by done; eauto]. }
    destruct (Hback _ _ E1) as (o3 & E3 & A3). destruct (Hback _ _ E2) as (o4 & E4 & A4).
    eapply Ione; [by apply Hgone|by apply Hgone|done..|congruence].
  - intros j Hj0. destruct (Inew j Hj0). rewrite !lookup_insert_ne; [done| |]; intros <-; congruence.
  - intros j Hj0. destruct (Iend _ Hj0) as (b & Eb & ?). destruct (decide (j = i)) as [->|Hne].
    + rewrite lookup_insert_eq. by exists a'.
    + rewrite lookup_insert_ne by done. eauto.
Qed.

Lemma finishStopped_inv r before after i :
  inv r (before ++ i :: after) -> inv (finishStopped i r) (before ++ after).
Proof.
  intros I. assert (Hi : i ∈ before ++ i :: after) by (apply elem_of_app; right; by left).
  destruct (iv_ending _ _ I _ Hi) as (a & Ea & Hst & Hp). unfold finishStopped. rewrite Ea.
  destruct (releaseAccount_inv _ _ _ _ I Ea Hst Hp) as (I' & a' & Ea' & Esh & Epol & Erel & Est' & Ep').
  rewrite Ea'. eapply (inv_flags _ _ _ i a'); try done.
  intros j Hj. left. apply elem_of_app. apply elem_of_app in Hj as [|]; [by left|right; by right].
Qed.

Lemma step_inv s s' : step s s' -> inv s.1 s.2 -> inv s'.1 s'.2.
Proof.
  destruct 1; simpl; intros I.
  - by apply openAccount_inv.
  - by apply reserveDemand_inv.
  - by apply finishDemand_inv.
  - by apply cancel_inv.
  - by apply stop_inv.
  - by apply finishStopped_inv.
Qed.

Lemma reachable_accounts r ending : reachable (r, ending) -> inv r ending.
Proof.
  intros Hr. change (inv (r, ending).1 (r, ending).2).
  refine (rtc_ind_r (fun s => inv s.1 s.2) (noAccounts, []) inv_none _ _ Hr).
  intros s s' _ Hs I. by eapply step_inv.
Qed.

(** However admissions of a process are opened, used and stopped: two
    registered gates never serve the same account; every admission that has not
    been released shares the registered gate of its path, under the gate's own
    policy; what waits at a gate is the sum of what its admissions wait for, and
    neither exceeds [MaxPending]; and a gate is registered exactly as long as
    some admission holds it. *)
Theorem account_scheduler r ending :
  reachable (r, ending) ->
  (forall p p' g g' o o', gates r !! p = Some g -> gates r !! p' = Some g' ->
     objects r !! g = Some o -> objects r !! g' = Some o' -> g_account o = g_account o' -> p = p') /\
  (forall i a, admissions r !! i = Some a -> a_released a = false ->
     exists o, objects r !! a_shared a = Some o /\ gates r !! g_path o = Some (a_shared a) /\
       g_policy o = a_policy a /\ 0 <= a_pending a <= MaxPending (a_policy a)) /\
  (forall g o, objects r !! g = Some o ->
     g_pending o = total (pend g) (admissions r) /\ g_pending o <= MaxPending (g_policy o)) /\
  (forall p g, gates r !! p = Some g ->
     exists i a, admissions r !! i = Some a /\ a_shared a = g /\ a_released a = false).
Proof.
  intros Hr. destruct (reachable_accounts _ _ Hr) as [Iadm Igate Ireg Ione _ _]. split_and!.
  - exact Ione.
  - intros i a Ea Er. destruct (Iadm _ _ Ea) as [(o & Eo & Hp & Hg) Hb _ _]. exists o. auto.
  - intros g o Eo. by destruct (Igate _ _ Eo).
  - intros p g Hg. destruct (Ireg _ _ Hg) as (o & Eo & _ & Hpos). destruct (Igate _ _ Eo) as [_ Gr _].
    rewrite Gr in Hpos. apply total_pos in Hpos as (i & a & Ea & Hl). exists i, a. unfold live in Hl.
    destruct (_ =? g)%nat eqn:Es; simpl in Hl; [|lia]. apply Nat.eqb_eq in Es.
    by destruct (a_released a).
Qed.

(** ** A witness: two profiles of one account in a directory *)

Definition demoOpen : OpenEnv :=
  mkOpenEnv 1000 (LstatInfo privateDir) readOk Missing (fun _ => Some "/profiles")
    (LstatInfo privateDir) readOk Missing.

Definition opened (name : string) (r : registry) : registry :=
  (openAccountHistoryAdmission demoOpen name 7 (mkPacing "" 0 0 0 0) r).1.

Definition demoTwo : registry := opened "two.json" (opened "one.json" noAccounts).

Definition demoHolder : admissionObject :=
  mkAdmissionObject (mkPacing "/profiles" (2 * Second) (30 * Second) 32 (60 * Second))
    0 0 false false false false.

Definition demoAccounts : registry := (reserveDemand 2 demoHolder demoTwo).1.

Lemma demo_holder : admissions demoTwo !! 2%nat = Some demoHolder.
Proof. vm_compute. reflexivity. Qed.

Lemma demoAccounts_reachable : reachable (demoAccounts, []).
Proof.
  apply (rtc_l _ _ (opened "one.json" noAccounts, [])); [apply step_open|].
  apply (rtc_l _ _ (demoTwo, [])); [apply step_open|].
  apply rtc_once. apply step_reserve, demo_holder.
Qed.

Lemma demo_counts : option_map (fun o => (g_pending o, g_refs o)) (objects demoAccounts !! 0%nat) = Some (1, 2).
Proof. vm_compute. reflexivity. Qed.

Lemma account_scheduler_witness :
  exists o, objects demoAccounts !! 0%nat = Some o /\ g_refs o = 2 /\ g_pending o = 1 /\
    total (pend 0) (admissions demoAccounts) = 1.
Proof.
  destruct (account_scheduler _ _ demoAccounts_reachable) as (_ & _ & Hg & _).
  pose proof demo_counts as E. destruct (objects demoAccounts !! 0%nat) as [o|] eqn:Eo; [|done].
  simpl in E. injection E as Ep Er. exists o. destruct (Hg _ _ Eo) as [Hp _]. rewrite <- Hp. auto.
Defined.
