(* ===== verification/ResourceCache.v ===== *)
(** * The cache of history resources (src/internal/client/history_resource_cache.go,
      and AcquireHistoryResource of history_http.go)

    A directory of validated, immutable bodies: one file per key, named by the
    key's digest, with a header that binds it to the profile and to its
    contents.  A write evicts the least recently used files until the new one
    fits.  The directory is the state: its header document and its files by
    name.  [slices.SortFunc] is not stable, so the order of files of one instant
    is a parameter. *)

From S2P Require Import Prelude Bytes Sha256.
From S2P Require Import HistoryStore.
From S2P Require Import PrivateJson.

#[local] Open Scope string_scope.
#[local] Open Scope list_scope.
#[local] Open Scope Z_scope.

Definition historyResourceMaximum : Z := Z.shiftl 64 20.
Definition historyResourceBudget : Z := Z.shiftl 256 20.
Definition historyResourceHeaderSize : Z := 104.

Inductive CacheError :=
| errHistoryResourceCache
| errPrivate (e : PrivateJson.Error).

Record resourceFile := mkResourceFile {
  rf_mode : FileMode;
  rf_bytes : bytes;
  rf_time : Z;
}.

Definition rf_size (f : resourceFile) : Z := Z.of_nat (length (rf_bytes f)).

(** The directory: [header.json], and every other file. *)
Record resourceDir := mkResourceDir {
  rd_header : File historyStoreHeader;
  rd_files : gmap string resourceFile;
}.

Definition setFiles (m : gmap string resourceFile) (d : resourceDir) : resourceDir :=
  mkResourceDir (rd_header d) m.

Definition resourceName (key : string) : string := historyDigest key +:+ ".resource".

(** [binary.LittleEndian.PutUint64] and [Uint64]. *)
Definition PutUint64 : Z -> bytes := le_put 8.
Definition Uint64 (l : bytes) : Z := le_get l.

(** The header of a file that holds [data]: [copy] of the binding into its first
    64 bytes, the size, and the hash. *)
Definition resourceHeader (binding : string) (data : bytes) : bytes :=
  let b := stringBytes binding in
  take 64 (b ++ replicate 64 0) ++ PutUint64 (Z.of_nat (length data)) ++ Sum256 data.

(** ** Opening *)

Record OpenEnv := mkOpenEnv {
  oc_mkdir : bool; (* made, or it exists *)
  oc_dir : LstatResult;
  oc_read : ReadEnv;
  oc_list : bool;
  oc_initial : InitialEnv historyStoreHeader;
}.

Definition openHistoryResourceCache `{JSON historyStoreHeader} (env : OpenEnv) (binding : string) (d : resourceDir)
  : resourceDir * option CacheError :=
  if negb (oc_mkdir env) then (d, Some errHistoryResourceCache) else
  match ValidatePrivateDir (oc_dir env) with
  | Some e => (d, Some (errPrivate e))
  | None =>
      match Read (oc_read env) (rd_header d) with
      | Err e => (d, Some (errPrivate e))
      | Ok None =>
          if negb (oc_list env) || negb (bool_decide (rd_files d = ∅)) then (d, Some errHistoryResourceCache)
          else
            let '(f, err) := WriteInitial (oc_initial env) (rd_header d) (mkStoreHeader 1 binding) in
            (mkResourceDir f (rd_files d), option_map errPrivate err)
      | Ok (Some header) =>
          if negb (sh_Version header =? 1) || negb (String.eqb (sh_Binding header) binding)
          then (d, Some errHistoryResourceCache) else (d, None)
      end
  end.

(** ** Reading *)

Record GetEnv := mkGetEnv {
  ge_dir : LstatResult;
  ge_lstat : bool;
  ge_open : bool;
  ge_stat : bool;
  ge_header : bool; (* [io.ReadFull] *)
  ge_body : bool; (* [io.ReadAll] *)
  ge_touch : bool;
  ge_now : Z;
}.

Definition lstatFile (ok : bool) (f : option resourceFile) : LstatResult :=
  if ok then match f with Some f => LstatInfo (rf_mode f) | None => LstatNotExist end else LstatFailed.

(** What the checks of [get] make of a file's bytes. *)
Definition decodeResource (binding : string) (all : bytes) : option bytes :=
  let size := Z.of_nat (length all) in
  if (size <? historyResourceHeaderSize) || (historyResourceMaximum + historyResourceHeaderSize <? size)
  then None else
  let header := take 104 all in
  let stated := Uint64 (sub header 64 72) in
  if negb (bool_decide (take 64 header = stringBytes binding))
     || negb (stated =? size - historyResourceHeaderSize)
  then None else
  let data := drop 104 all in
  if negb (bool_decide (drop 72 header = Sum256 data)) then None else Some data.

Definition get (env : GetEnv) (binding key : string) (d : resourceDir)
  : resourceDir * res CacheError (option bytes) :=
  match ValidatePrivateDir (ge_dir env) with
  | Some e => (d, Err (errPrivate e))
  | None =>
      let name := resourceName key in
      match ValidatePrivateFile (lstatFile (ge_lstat env) (rd_files d !! name)) with
      | Some ErrNotFound => (d, Ok None)
      | Some e => (d, Err (errPrivate e))
      | None =>
          match rd_files d !! name with
          | None => (d, Err errHistoryResourceCache)
          | Some f =>
              if negb (ge_open env) || negb (ge_stat env) || negb (ge_header env) || negb (ge_body env)
              then (d, Err errHistoryResourceCache) else
              match decodeResource binding (rf_bytes f) with
              | None => (d, Err errHistoryResourceCache)
              | Some data =>
                  if negb (ge_touch env) then (d, Err errHistoryResourceCache) else
                  (setFiles (<[name := mkResourceFile (rf_mode f) (rf_bytes f) (ge_now env)]> (rd_files d)) d,
                   Ok (Some data))
              end
          end
      end
  end.

(** ** Writing *)

Record item := mkItem { it_name : string; it_size : Z; it_at : Z }.

Record PutEnv := mkPutEnv {
  pe_dir : LstatResult;
  pe_list : bool;
  pe_lstat : string -> bool;
  pe_info : string -> bool;
  pe_remove : string -> bool;
  pe_create : bool;
  pe_write : bool; (* both writes, [Sync] and [Close] *)
  pe_left : option (string * resourceFile); (* a temporary file that stays *)
  pe_rename : bool;
  pe_syncdir : bool;
  pe_now : Z;
}.

Section Cache.
(** [slices.SortFunc] by time. *)
Context (sortItems : list item -> list item).

(** The loop over the directory. *)
Fixpoint scan (env : PutEnv) (target : string) (files : list (string * resourceFile))
  : res CacheError (list item * Z) :=
  match files with
  | [] => Ok ([], 0)
  | (name, f) :: files =>
      if String.prefix "." name then scan env target files
      else if negb (HasSuffix name ".resource") then Err errHistoryResourceCache
      else match ValidatePrivateFile (lstatFile (pe_lstat env name) (Some f)) with
      | Some e => Err (errPrivate e)
      | None =>
          if negb (pe_info env name) then Err errHistoryResourceCache else
          let! (items, total) := scan env target files in
          if String.eqb name target then Ok (items, total)
          else Ok (mkItem name (rf_size f) (rf_time f) :: items, rf_size f + total)
      end
  end.

(** The eviction loop. *)
Fixpoint evict (env : PutEnv) (need total : Z) (items : list item) (m : gmap string resourceFile)
  : gmap string resourceFile * option CacheError :=
  match items with
  | [] => (m, None)
  | it :: items =>
      if total + need <=? historyResourceBudget then (m, None)
      else if negb (pe_remove env (it_name it)) then (m, Some errHistoryResourceCache)
      else evict env need (total - it_size it) items (delete (it_name it) m)
  end.

Definition leave (env : PutEnv) (m : gmap string resourceFile) : gmap string resourceFile :=
  match pe_left env with Some (n, f) => <["." +:+ n := f]> m | None => m end.

Definition put (env : PutEnv) (binding key : string) (data : bytes) (d : resourceDir)
  : resourceDir * option CacheError :=
  let len := Z.of_nat (length data) in
  if historyResourceMaximum <? len then (d, Some errHistoryResourceCache) else
  match ValidatePrivateDir (pe_dir env) with
  | Some e => (d, Some (errPrivate e))
  | None =>
      (* [header.json] is an entry too *)
      let entries := Z.of_nat (size (rd_files d))
        + match rd_header d with Missing => 0 | Present _ _ => 1 end in
      if negb (pe_list env) || (4096 <? entries) then (d, Some errHistoryResourceCache) else
      let target := resourceName key in
      match scan env target (map_to_list (rd_files d)) with
      | Err e => (d, Some e)
      | Ok (items, total) =>
          let '(m, err) :=
            evict env (len + historyResourceHeaderSize) total (sortItems items) (rd_files d) in
          match err with
          | Some e => (setFiles m d, Some e)
          | None =>
              if negb (pe_create env) then (setFiles m d, Some errHistoryResourceCache)
              else if negb (pe_write env) || negb (pe_rename env)
              then (setFiles (leave env m) d, Some errHistoryResourceCache)
              else
                let f := mkResourceFile privateFile (resourceHeader binding data ++ data) (pe_now env) in
                let d := setFiles (<[target := f]> m) d in
                if negb (pe_syncdir env) then (d, Some errHistoryResourceCache) else (d, None)
          end
      end
  end.
End Cache.

(** ** Acquiring a resource (history_http.go) *)

Inductive AcquireError (E : Type) :=
| ErrProtocol
| ErrClientClosed
| ErrContext
| ErrCache (e : CacheError)
| ErrDemand (e : E). (* from the admission, or the demand's own code *)
Arguments ErrProtocol {E}.
Arguments ErrClientClosed {E}.
Arguments ErrContext {E}.
Arguments ErrCache {E} e.
Arguments ErrDemand {E} e.

Record AcquireEnv := mkAcquireEnv {
  ae_closed : bool;
  ae_ctx : bool; (* the context has ended *)
  ae_first : GetEnv;
  ae_second : GetEnv;
  ae_put : PutEnv;
}.

Section Acquire.
Context {W E : Type} (sortItems : list item -> list item).

(** The directory, and everything else that the demand's code and its admission
    change. *)
Definition acquiring (A : Type) : Type := state (resourceDir * W) (res (AcquireError E) A).

Definition onCache {A} (m : resourceDir -> resourceDir * A) : state (resourceDir * W) A :=
  fun s => let '(d, a) := m (fst s) in ((d, snd s), a).

(** The closure that is handed to [AcquireHistoryBytes]. *)
Definition fetchCached (env : AcquireEnv) (cache : option string) (key : string) (fetch : acquiring bytes)
  : acquiring bytes :=
  let fetchAndStore :=
    let* r := fetch in
    match r, cache with
    | Ok data, Some binding =>
        let* err := onCache (put sortItems (ae_put env) binding key data) in
        ret (match err with Some e => Err (ErrCache e) | None => Ok data end)
    | r, _ => ret r
    end in
  match cache with
  | None => fetchAndStore
  | Some binding =>
      let* r := onCache (get (ae_second env) binding key) in
      match r with
      | Err e => ret (Err (ErrCache e))
      | Ok (Some data) => ret (Ok data)
      | Ok None => fetchAndStore
      end
  end.

(** [AcquireHistoryBytes] is the admission that paces the demand. *)
Definition AcquireHistoryResource (AcquireHistoryBytes : string -> acquiring bytes -> acquiring bytes)
    (env : AcquireEnv) (cache : option string) (key : string) (fetch : acquiring bytes) : acquiring bytes :=
  if String.eqb key "" || (Z.shiftl 1 20 <? Z.of_nat (String.length key)) then ret (Err ErrProtocol)
  else if ae_closed env then ret (Err ErrClientClosed)
  else if ae_ctx env then ret (Err ErrContext)
  else match cache with
  | None => AcquireHistoryBytes key (fetchCached env cache key fetch)
  | Some binding =>
      let* r := onCache (get (ae_first env) binding key) in
      match r with
      | Err e => ret (Err (ErrCache e))
      | Ok (Some data) => ret (Ok data)
      | Ok None => AcquireHistoryBytes key (fetchCached env cache key fetch)
      end
  end.
End Acquire.
