(* ===== verification/ResourceTheorems.v ===== *)
(** * The resource cache keeps what it was given, within its budget

    [get] returns exactly the bodies that [put] stored for the same binding and
    key; the directory stays within its budget; and a write evicts the least
    recently used files only, and no more of them than it needs. *)

From S2P Require Import Prelude Bytes Sha256.
From S2P Require Import HistoryStore.
From S2P Require Import PrivateJson ResourceCache.

#[local] Open Scope string_scope.
#[local] Open Scope list_scope.
#[local] Open Scope Z_scope.

(** ** Lengths of digests *)

Lemma bigEndian_length n x : length (bigEndian n x) = n.
Proof. unfold bigEndian. by rewrite length_fmap, length_rev, length_seq. Qed.

Lemma compressRound_length h kw : length (compressRound h kw) = length h.
Proof. by destruct h as [|? [|? [|? [|? [|? [|? [|? [|? [|]]]]]]]]]. Qed.

Lemma foldl_compress_length l : forall h, length (foldl compressRound h l) = length h.
Proof. induction l as [|kw l IH]; intros h; simpl; [done|]. by rewrite IH, compressRound_length. Qed.

Lemma blocks_length fuel : forall w h, length (blocks fuel w h) = length h.
Proof.
  induction fuel as [|fuel IH]; intros [|x w] h; simpl; try done. rewrite IH. unfold compressBlock.
  rewrite length_zip_with, foldl_compress_length. lia.
Qed.

Lemma join_length (n : nat) (l : list Z) : length (mjoin (bigEndian n <$> l)) = (n * length l)%nat.
Proof.
  induction l as [|x l IH]; [simpl; lia|].
  change (length (bigEndian n x ++ mjoin (bigEndian n <$> l)) = (n * S (length l))%nat).
  rewrite length_app, bigEndian_length, IH. lia.
Qed.

Lemma Sum256_length m : length (Sum256 m) = 32%nat.
Proof. unfold Sum256. etransitivity; [apply join_length|]. by rewrite blocks_length. Qed.

Lemma hexString_bytes m : length (stringBytes (hexString m)) = (2 * length m)%nat.
Proof.
  unfold stringBytes, hexString. rewrite length_fmap, String.list_ascii_of_string_of_list_ascii.
  induction m as [|b m IH]; [done|].
  change (S (S (length (mjoin ((fun b => [hexDigit (b / 16); hexDigit (b mod 16)]) <$> m)))) = (2 * S (length m))%nat).
  lia.
Qed.

Lemma digest_bytes s : length (stringBytes (historyDigest s)) = 64%nat.
Proof. unfold historyDigest, sha256Hex. by rewrite hexString_bytes, Sum256_length. Qed.

Lemma stringBytes_inj s t : stringBytes s = stringBytes t -> s = t.
Proof.
  unfold stringBytes. intros E. rewrite <- (String.string_of_list_ascii_of_string s),
    <- (String.string_of_list_ascii_of_string t). f_equal.
  apply (list_fmap_eq_inj (fun c => Z.of_N (Ascii.N_of_ascii c))); [|done].
  intros a b Hab. apply N2Z.inj in Hab.
  by rewrite <- (Ascii.ascii_N_embedding a), <- (Ascii.ascii_N_embedding b), Hab.
Qed.

(** ** One file *)

Section File.
Context (binding : string) (Hbinding : length (stringBytes binding) = 64%nat).

Lemma resourceHeader_shape data :
  resourceHeader binding data =
  stringBytes binding ++ PutUint64 (Z.of_nat (length data)) ++ Sum256 data.
Proof.
  unfold resourceHeader. rewrite take_app_le by lia. by rewrite take_ge by lia.
Qed.

Lemma resourceHeader_length data : length (resourceHeader binding data) = 104%nat.
Proof.
  rewrite resourceHeader_shape, !length_app, Hbinding, Sum256_length. unfold PutUint64.
  by rewrite le_put_length.
Qed.

Lemma PutUint64_length n : length (PutUint64 n) = 8%nat.
Proof. apply le_put_length. Qed.

Lemma decodeResource_encoded data :
  Z.of_nat (length data) <= historyResourceMaximum ->
  decodeResource binding (resourceHeader binding data ++ data) = Some data.
Proof.
  intros Hlen. pose proof (resourceHeader_length data) as Hh. unfold decodeResource. cbn zeta.
  rewrite length_app, Hh, Nat2Z.inj_add. unfold historyResourceHeaderSize.
  replace (_ <? 104) with false by (symmetry; apply Z.ltb_ge; lia).
  replace (_ <? _) with false by (symmetry; apply Z.ltb_ge; lia). cbn [negb orb].
  rewrite (take_app_length' _ _ 104), (drop_app_length' _ _ 104) by done.
  rewrite resourceHeader_shape, (take_app_length' _ _ 64) by done.
  rewrite bool_decide_eq_true_2 by done. cbn [negb orb].
  unfold sub. rewrite (drop_app_length' _ _ 64), (take_app_length' (PutUint64 _) _ _) by done.
  unfold Uint64, PutUint64. rewrite le_get_put.
  2: { unfold historyResourceMaximum in Hlen. change (Z.shiftl 64 20) with 67108864 in Hlen. simpl. lia. }
  replace (Z.of_nat (length data) =? _) with true by (symmetry; apply Z.eqb_eq; lia). cbn [negb orb].
  rewrite app_assoc, (drop_app_length' _ _ 72) by (by rewrite length_app, Hbinding).
  by rewrite bool_decide_eq_true_2.
Qed.

(** Nothing else decodes. *)
Lemma decodeResource_sound all data :
  bytes_ok all -> decodeResource binding all = Some data ->
  all = resourceHeader binding data ++ data /\ Z.of_nat (length data) <= historyResourceMaximum.
Proof.
  intros Hok E. unfold decodeResource in E. cbn zeta in E. destruct (_ || _) eqn:Es in E; [done|].
  destruct (_ || _) eqn:Eh in E; [done|]. destruct (negb _) eqn:Ed in E; [done|]. injection E as <-.
  bool_prop. unfold historyResourceHeaderSize in *.
  match goal with H : bool_decide (take 64 _ = _) = true |- _ => apply bool_decide_eq_true in H as Hb end.
  match goal with H : bool_decide (drop 72 _ = _) = true |- _ => apply bool_decide_eq_true in H as Hs end.
  set (header := take 104 all) in *.
  assert (Hlen : length header = 104%nat) by (unfold header; rewrite length_take; lia).
  assert (Hd : Z.of_nat (length (drop 104 all)) = Z.of_nat (length all) - 104) by (rewrite length_drop; lia).
  split; [|lia]. rewrite <- (take_drop 104 all) at 1. f_equal. fold header. rewrite resourceHeader_shape.
  rewrite <- (take_drop 64 header). f_equal; [done|].
  rewrite <- (take_drop 8 (drop 64 header)). f_equal.
  - match goal with H : Uint64 _ = _ |- _ => rename H into Hu end.
    unfold sub in Hu. change (72 - 64)%nat with 8%nat in Hu. rewrite Hd, <- Hu. unfold Uint64, PutUint64.
    rewrite <- (le_put_get (take 8 (drop 64 header))) at 1.
    + by rewrite length_take, length_drop, Hlen.
    + apply Forall_take, Forall_drop. unfold header. by apply Forall_take.
  - rewrite drop_drop. exact Hs.
Qed.
End File.

(** ** The directory *)

(** The files that count towards the budget. *)
Definition resources (m : gmap string resourceFile) : gmap string resourceFile :=
  filter (fun p => String.prefix "." p.1 = false) m.

Definition usage (m : gmap string resourceFile) : Z := total rf_size (resources m).

Lemma resources_lookup m n f :
  resources m !! n = Some f <-> m !! n = Some f /\ String.prefix "." n = false.
Proof. apply map_lookup_filter_Some. Qed.

Lemma usage_nonneg m : 0 <= usage m.
Proof. apply total_nonneg. intros. unfold rf_size. lia. Qed.

Lemma usage_delete m n : usage (delete n m) = usage m - default 0 (rf_size <$> resources m !! n).
Proof.
  unfold usage, resources. rewrite map_filter_delete. fold (resources m).
  destruct (resources m !! n) as [f|] eqn:E; simpl.
  - by rewrite (total_delete _ _ _ _ E).
  - rewrite delete_id by done. lia.
Qed.

Lemma usage_hidden m n f : usage (<["." +:+ n := f]> m) = usage m.
Proof.
  unfold usage, resources. rewrite map_filter_insert_False by (by destruct n). f_equal.
  apply map_filter_delete_not. intros x. by destruct n.
Qed.

Lemma resourceName_visible key : String.prefix "." (resourceName key) = false.
Proof.
  unfold resourceName. pose proof (digest_bytes key) as Hl. unfold historyDigest, sha256Hex, hexString in *.
  destruct (Sum256 (stringBytes key)) as [|b m] eqn:E; [by rewrite <- length_zero_iff_nil in E; rewrite Sum256_length in E|].
  change (String.prefix "." (String (hexDigit (b / 16)) (String.string_of_list_ascii
    (hexDigit (b mod 16) :: mjoin ((fun b => [hexDigit (b / 16); hexDigit (b mod 16)]) <$> m)) +:+ ".resource")) = false).
  cbn [String.prefix]. destruct (Ascii.ascii_dec _ _) as [Ed|]; [|done].
  exfalso. revert Ed. unfold hexDigit. generalize (Z.to_nat (b / 16)). intros k.
  do 16 (destruct k as [|k]; [done|]). done.
Qed.

Section Sorting.
Context (sortItems : list item -> list item).
(** What [slices.SortFunc] promises of the comparison by time. *)
Context (sort_perm : forall l, sortItems l ≡ₚ l).
Context (sort_sorted : forall l, StronglySorted (fun a b => it_at a <= it_at b) (sortItems l)).

Definition sizes (items : list item) : Z := foldr (fun it n => it_size it + n) 0 items.

Lemma sizes_cons it items : sizes (it :: items) = it_size it + sizes items.
Proof. done. Qed.

Lemma sizes_perm l l' : l ≡ₚ l' -> sizes l = sizes l'.
Proof. induction 1; simpl; lia. Qed.

(** What the scan lists is what the directory holds beside the target. *)
Definition listed (m : gmap string resourceFile) (target : string) (it : item) : Prop :=
  exists f, resources m !! it_name it = Some f /\ it_name it <> target /\
    it_size it = rf_size f /\ it_at it = rf_time f.

Lemma scan_spec env target (l : list (string * resourceFile)) items total0 :
  scan env target l = Ok (items, total0) ->
  total0 = sizes items /\
  items = omap (fun p => if String.prefix "." p.1 || String.eqb p.1 target then None
                         else Some (mkItem p.1 (rf_size p.2) (rf_time p.2))) l.
Proof.
  revert items total0. induction l as [|[n f] l IH]; intros items total0 E; simpl in E; [by simplify_eq|].
  simpl. destruct (String.prefix "." n) eqn:Ep; simpl; [by apply IH|].
  destruct (negb (HasSuffix _ _)); [done|]. destruct (ValidatePrivateFile _); [done|].
  destruct (negb (pe_info _ _)); [done|].
  destruct (scan env target l) as [[items1 total1]|]; [|done].
  destruct (IH _ _ eq_refl) as [-> ->].
  destruct (String.eqb n target); by simplify_eq.
Qed.

Definition entryOf (target : string) (p : string * resourceFile) : option item :=
  if String.prefix "." p.1 || String.eqb p.1 target then None
  else Some (mkItem p.1 (rf_size p.2) (rf_time p.2)).

Lemma resources_insert m n f :
  resources (<[n := f]> m) = if String.prefix "." n then resources (delete n m) else <[n := f]> (resources m).
Proof.
  unfold resources. destruct (String.prefix "." n) eqn:E.
  - by rewrite map_filter_insert_False by (simpl; congruence).
  - by rewrite map_filter_insert_True.
Qed.

Lemma entries_cons target p l :
  omap (entryOf target) (p :: l) =
  match entryOf target p with
  | Some it => it :: omap (entryOf target) l
  | None => omap (entryOf target) l
  end.
Proof. done. Qed.

Lemma entries_sizes target m :
  sizes (omap (entryOf target) (map_to_list m)) = usage (delete target m).
Proof.
  induction m as [|n f m Hn IH] using map_ind.
  { rewrite map_to_list_empty, delete_empty. unfold usage, resources. by rewrite map_filter_empty, total_empty. }
  transitivity (sizes (omap (entryOf target) ((n, f) :: map_to_list m))).
  { apply sizes_perm. by rewrite map_to_list_insert. }
  destruct (decide (n = target)) as [->|Hne].
  - rewrite delete_insert_eq, <- IH, entries_cons. unfold entryOf at 1. cbn [fst]. by rewrite String.eqb_refl, orb_true_r.
  - rewrite delete_insert_ne by done.
    assert (Hd : delete target m !! n = None) by (by rewrite lookup_delete_ne).
    rewrite entries_cons. unfold entryOf at 1. cbn [fst].
    replace (String.eqb n target) with false by (symmetry; by apply String.eqb_neq). rewrite orb_false_r.
    unfold usage. rewrite resources_insert. destruct (String.prefix "." n) eqn:Ep.
    + rewrite delete_id by done. by rewrite IH.
    + rewrite total_new; [rewrite sizes_cons, IH; unfold usage; cbn [it_size snd]; lia|].
      unfold resources. apply map_lookup_filter_None. by left.
Qed.

(** Items that say exactly what a directory holds beside the target. *)
Record exact target (m : gmap string resourceFile) (items : list item) : Prop := mkExact {
  ex_names : NoDup (it_name <$> items);
  ex_listed : forall it, it ∈ items <-> listed m target it;
  ex_usage : usage (delete target m) = sizes items;
}.

Lemma entryOf_listed m target it :
  it ∈ omap (entryOf target) (map_to_list m) <-> listed m target it.
Proof.
  rewrite list_elem_of_omap. unfold entryOf, listed. split.
  - intros ([n f] & Hin & E). apply elem_of_map_to_list in Hin. simpl in E.
    destruct (_ || _) eqn:Eo; [done|]. bool_prop. apply String.eqb_neq in H0. injection E as <-.
    exists f. simpl. split_and!; try done. by apply resources_lookup.
  - intros (f & Hf & Hne & Hs & Ht). apply resources_lookup in Hf as [Hf Hp].
    exists (it_name it, f). split; [by apply elem_of_map_to_list|]. simpl. rewrite Hp.
    replace (String.eqb _ _) with false by (symmetry; by apply String.eqb_neq). simpl.
    destruct it. simpl in *. by subst.
Qed.

Lemma entries_names target (l : list (string * resourceFile)) :
  NoDup l.*1 -> NoDup (it_name <$> omap (entryOf target) l).
Proof.
  induction l as [|[n f] l IH]; intros Hnd; [constructor|].
  rewrite fmap_cons in Hnd. apply NoDup_cons in Hnd as [Hn Hnd].
  rewrite entries_cons. unfold entryOf at 1. cbn [fst snd].
  destruct (_ || _); [by apply IH|]. rewrite fmap_cons. constructor; [|by apply IH].
  intros Hin. apply Hn. apply list_elem_of_fmap in Hin as (it & En & Hit). simpl in En.
  apply list_elem_of_omap in Hit as ([n' f'] & Hin & E). unfold entryOf in E. simpl in E.
  destruct (_ || _); [done|]. injection E as <-. simpl in En. subst n'.
  by apply (list_elem_of_fmap_2 fst _ (n, f')).
Qed.

Lemma exact_perm target m l l' : l' ≡ₚ l -> exact target m l -> exact target m l'.
Proof.
  intros Hp [Hn Hl Hu]. split.
  - by rewrite Hp.
  - intros it. by rewrite Hp.
  - by rewrite (sizes_perm _ _ Hp).
Qed.

Lemma scan_exact env target m items total0 :
  scan env target (map_to_list m) = Ok (items, total0) -> total0 = sizes items /\ exact target m items.
Proof.
  intros E. apply scan_spec in E as [-> ->]. split; [done|].
  change (fun p : string * resourceFile => _) with (entryOf target). split.
  - apply entries_names, NoDup_fst_map_to_list.
  - intros it. apply entryOf_listed.
  - symmetry. apply entries_sizes.
Qed.

Lemma exact_evict target m it items :
  exact target m (it :: items) -> exact target (delete (it_name it) m) items.
Proof.
  intros [Hn Hl Hu]. inversion_clear Hn as [|? ? Hni Hnd].
  assert (Hit : listed m target it) by (apply Hl; by left).
  destruct Hit as (f & Hf & Hne & Hs & Ht).
  split; [done| |].
  - intros it'. split.
    + intros Hin. destruct (proj1 (Hl it')) as (f' & Hf' & ?); [by right|]. exists f'.
      rewrite resources_lookup in *. rewrite lookup_delete_ne; [done|]. intros E. apply Hni.
      rewrite E. by apply list_elem_of_fmap_2.
    + intros (f' & Hf' & ?). rewrite resources_lookup, lookup_delete_Some in Hf'.
      destruct Hf' as [[? ?] ?]. assert (Hin : it' ∈ it :: items).
      { apply Hl. exists f'. by rewrite resources_lookup. }
      apply elem_of_cons in Hin as [->|]; [done|done].
  - rewrite delete_delete, usage_delete, Hu. simpl.
    replace (resources (delete target m) !! it_name it) with (Some f); [simpl; lia|].
    symmetry. apply resources_lookup. apply resources_lookup in Hf as [? ?].
    by rewrite lookup_delete_ne.
Qed.

Lemma evict_spec env need target items : forall m m' err,
  exact target m items -> evict env need (sizes items) items m = (m', err) ->
  exists gone kept, items = gone ++ kept /\ exact target m' kept /\
    (forall n, n ∉ (it_name <$> gone) -> m' !! n = m !! n) /\
    (forall n, n ∈ (it_name <$> gone) -> m' !! n = None) /\
    (err = None -> kept = [] \/ sizes kept + need <= historyResourceBudget) /\
    (gone = [] \/ historyResourceBudget < sizes kept + need + it_size (List.last gone (mkItem "" 0 0))) /\
    usage m' <= usage m.
Proof.
  induction items as [|it items IH]; intros m m' err Hex E; simpl in E.
  { injection E as <- <-. exists [], []. split_and!; auto; try done. by intros n ?%not_elem_of_nil. }
  destruct (_ <=? _) eqn:Eb; bool_prop.
  { injection E as <- <-. exists [], (it :: items). split_and!; auto; try done.
    by intros n ?%not_elem_of_nil. }
  destruct (negb _).
  { injection E as <- <-. exists [], (it :: items). split_and!; auto; try done.
    by intros n ?%not_elem_of_nil. }
  replace (it_size it + sizes items - it_size it) with (sizes items) in E by lia.
  destruct (IH _ _ _ (exact_evict _ _ _ _ Hex) E) as (gone & kept & -> & Hk & Hs & Hg & He & Hl & Hu).
  exists (it :: gone), kept. split_and!; try done.
  - intros n Hn. rewrite fmap_cons, not_elem_of_cons in Hn. destruct Hn as [? Hn].
    by rewrite Hs, lookup_delete_ne.
  - intros n Hn. rewrite fmap_cons in Hn. destruct (decide (n ∈ it_name <$> gone)) as [|Hni]; [by apply Hg|].
    apply elem_of_cons in Hn as [->|]; [|done]. rewrite Hs by done. by rewrite lookup_delete_eq.
  - right. destruct gone as [|g gone]; simpl in *; [lia|]. by destruct Hl.
  - pose proof (usage_delete m (it_name it)) as Hd.
    enough (0 <= default 0 (rf_size <$> resources m !! it_name it)) by lia.
    destruct (resources m !! it_name it); simpl; [unfold rf_size; lia|lia].
Qed.

Definition stored (env : PutEnv) (binding : string) (data : bytes) : resourceFile :=
  mkResourceFile privateFile (resourceHeader binding data ++ data) (pe_now env).

(** What a write did to the files: nothing, or an eviction and perhaps the new file. *)
Record evicted target need (m m' : gmap string resourceFile) (gone kept : list item) : Prop := mkEvicted {
  evd_before : exact target m (gone ++ kept);
  evd_after : exact target m' kept;
  evd_sorted : StronglySorted (fun a b => it_at a <= it_at b) (gone ++ kept);
  evd_kept : forall n, n ∉ (it_name <$> gone) -> m' !! n = m !! n;
  evd_gone : forall n, n ∈ (it_name <$> gone) -> m' !! n = None;
  evd_needed : gone = [] \/ historyResourceBudget < sizes kept + need + it_size (List.last gone (mkItem "" 0 0));
  evd_usage : usage m' <= usage m;
}.

Lemma put_spec env binding key data d d' err :
  put sortItems env binding key data d = (d', err) ->
  d' = d /\ err <> None \/
  exists gone kept m, Z.of_nat (length data) <= historyResourceMaximum /\
    evicted (resourceName key) (Z.of_nat (length data) + historyResourceHeaderSize) (rd_files d) m gone kept /\
    (err <> None /\ (d' = setFiles m d \/ d' = setFiles (leave env m) d) \/
     d' = setFiles (<[resourceName key := stored env binding data]> m) d /\
     (kept = [] \/ sizes kept + (Z.of_nat (length data) + historyResourceHeaderSize) <= historyResourceBudget)).
Proof.
  unfold put. cbn zeta. destruct (historyResourceMaximum <? _) eqn:El; [intros [= <- <-]; by left|]. bool_prop.
  destruct (ValidatePrivateDir _); [intros [= <- <-]; by left|].
  destruct (_ || _); [intros [= <- <-]; by left|].
  destruct (scan _ _ _) as [[items total0]|e] eqn:Es; [|intros [= <- <-]; by left].
  apply scan_exact in Es as [-> Hex].
  rewrite <- (sizes_perm _ _ (sort_perm items)).
  destruct (evict _ _ _ _ _) as [m eerr] eqn:Ee.
  destruct (evict_spec _ _ (resourceName key) _ _ _ _ (exact_perm _ _ _ _ (sort_perm items) Hex) Ee)
    as (gone & kept & Es & Hk & Hs & Hg & He & Hl & Hu).
  intros E. right. exists gone, kept, m. split; [done|]. split.
  { split; try done; rewrite <- Es; [|apply sort_sorted]. eapply exact_perm; [apply sort_perm|done]. }
  destruct eerr; [injection E as <- <-; left; auto|]. specialize (He eq_refl).
  destruct (negb (pe_create env)); [injection E as <- <-; left; auto|].
  destruct (_ || _); [injection E as <- <-; left; auto|].
  right. destruct (negb _); injection E as <- <-; done.
Qed.

Lemma usage_put env binding data target m :
  length (stringBytes binding) = 64%nat -> String.prefix "." target = false ->
  usage (<[target := stored env binding data]> m) =
  usage (delete target m) + (Z.of_nat (length data) + historyResourceHeaderSize).
Proof.
  intros Hb Hv. rewrite <- (insert_delete_eq m). unfold usage. rewrite resources_insert, Hv.
  rewrite total_new.
  - unfold stored, rf_size. simpl. rewrite length_app, resourceHeader_length by done.
    unfold historyResourceHeaderSize. lia.
  - unfold resources. apply map_lookup_filter_None. left. apply lookup_delete_eq.
Qed.

(** However a write to the cache ends, files beyond the budget never
    accumulate: a directory within the budget stays within it, and a write that
    succeeds brings any directory within it. *)
Theorem cache_bounded env profile key data d d' err :
  put sortItems env (historyDigest profile) key data d = (d', err) ->
  (err = None \/ usage (rd_files d) <= historyResourceBudget) ->
  usage (rd_files d') <= historyResourceBudget.
Proof.
  intros E Hd. apply put_spec in E as [[-> He]|(gone & kept & m & Hlen & Hev & Hcase)]; [by destruct Hd|].
  destruct Hcase as [[He Hcase]|[-> Hfit]].
  - destruct Hd as [|Hd]; [done|]. pose proof (evd_usage _ _ _ _ _ _ Hev).
    destruct Hcase as [-> | ->]; simpl; [lia|]. unfold leave. destruct (pe_left env) as [[n f]|]; [|lia].
    rewrite usage_hidden. lia.
  - simpl. rewrite usage_put by (apply digest_bytes || apply resourceName_visible).
    rewrite (ex_usage _ _ _ (evd_after _ _ _ _ _ _ Hev)). destruct Hfit as [->|]; [|lia]. simpl.
    unfold historyResourceMaximum, historyResourceBudget, historyResourceHeaderSize in *.
    change (Z.shiftl 64 20) with 67108864 in Hlen. change (Z.shiftl 256 20) with 268435456. lia.
Qed.

(** A write that evicts a file keeps no file that was used before it, and
    it keeps every file if they all fit beside the new one; other than the
    target's, no file changes. *)
Theorem eviction_is_lru env profile key data d d' :
  put sortItems env (historyDigest profile) key data d = (d', None) ->
  (forall n f, n <> resourceName key -> rd_files d !! n = Some f ->
     rd_files d' !! n = Some f \/
     rd_files d' !! n = None /\
     (forall n' f', n' <> resourceName key -> String.prefix "." n' = false ->
        rd_files d !! n' = Some f' -> rd_files d' !! n' = Some f' -> rf_time f <= rf_time f') /\
     historyResourceBudget < usage (delete (resourceName key) (rd_files d))
       + (Z.of_nat (length data) + historyResourceHeaderSize)).
Proof.
  intros E. apply put_spec in E as [[_ ?]|(gone & kept & m & Hlen & Hev & [[? _]|[-> _]])]; [done|done|].
  intros n f Hne Hn. simpl. rewrite lookup_insert_ne by done.
  destruct (decide (n ∈ it_name <$> gone)) as [Hg|Hg]; [right|left; by rewrite (evd_kept _ _ _ _ _ _ Hev)].
  split; [by apply (evd_gone _ _ _ _ _ _ Hev)|]. split.
  - intros n' f' Hne' Hv' Hn' Hk'. rewrite lookup_insert_ne in Hk' by done.
    assert (Hlisted : forall n0 f0, n0 <> resourceName key -> String.prefix "." n0 = false ->
      rd_files d !! n0 = Some f0 -> mkItem n0 (rf_size f0) (rf_time f0) ∈ gone ++ kept).
    { intros n0 f0 ? ? ?. apply (ex_listed _ _ _ (evd_before _ _ _ _ _ _ Hev)).
      exists f0. rewrite resources_lookup. by split_and!. }
    assert (Hkept : mkItem n' (rf_size f') (rf_time f') ∈ kept).
    { specialize (Hlisted n' f' Hne' Hv' Hn'). apply elem_of_app in Hlisted as [Hin|]; [|done].
      exfalso. rewrite (evd_gone _ _ _ _ _ _ Hev) in Hk'; [done|]. by apply (list_elem_of_fmap_2 it_name _ _ Hin). }
    apply list_elem_of_fmap in Hg as (it & En & Hit).
    assert (Hit' : listed (rd_files d) (resourceName key) it).
    { apply (ex_listed _ _ _ (evd_before _ _ _ _ _ _ Hev)). apply elem_of_app. by left. }
    destruct Hit' as (f0 & Hf0 & _ & _ & Ht). apply resources_lookup in Hf0 as [Hf0 _].
    rewrite <- En in Hf0. simplify_eq.
    pose proof (evd_sorted _ _ _ _ _ _ Hev) as Hs.
    enough (it_at it <= it_at (mkItem n' (rf_size f') (rf_time f'))) by (simpl in *; lia).
    clear -Hs Hit Hkept. induction gone as [|g gone IH]; [by inversion Hit|].
    apply StronglySorted_inv in Hs as [Hs Hall]. apply elem_of_cons in Hit as [->|Hit]; [|by apply IH].
    rewrite Forall_forall in Hall. apply Hall. apply elem_of_app. by right.
  - rewrite (ex_usage _ _ _ (evd_before _ _ _ _ _ _ Hev)).
    assert (Hsz : forall a b, sizes (a ++ b) = sizes a + sizes b).
    { intros a b. induction a as [|x a IH]; simpl; lia. }
    rewrite Hsz. destruct (evd_needed _ _ _ _ _ _ Hev) as [->|Hlast]; [by inversion Hg|].
    enough (it_size (List.last gone (mkItem "" 0 0)) <= sizes gone) by lia.
    assert (Hpos : forall it, it ∈ gone -> 0 <= it_size it).
    { intros it Hit. assert (listed (rd_files d) (resourceName key) it) as (f0 & _ & _ & -> & _).
      { apply (ex_listed _ _ _ (evd_before _ _ _ _ _ _ Hev)). apply elem_of_app. by left. }
      unfold rf_size. lia. }
    clear -Hpos. induction gone as [|g gone IH]; [simpl; lia|].
    assert (Hnn : forall l, (forall it, it ∈ l -> 0 <= it_size it) -> 0 <= sizes l).
    { intros l. induction l as [|x l IHl]; intros Hl; simpl; [lia|].
      pose proof (Hl x ltac:(by left)). enough (0 <= sizes l) by lia. apply IHl. intros. apply Hl. by right. }
    destruct gone as [|g' gone]; [simpl; lia|].
    rewrite sizes_cons. pose proof (Hpos g ltac:(by left)).
    change (List.last (g :: g' :: gone) (mkItem "" 0 0)) with (List.last (g' :: gone) (mkItem "" 0 0)).
    enough (it_size (List.last (g' :: gone) (mkItem "" 0 0)) <= sizes (g' :: gone)) by lia.
    apply IH. intros it Hit. apply Hpos. by right.
Qed.

Lemma get_stored genv profile key d1 d2 data :
  map_Forall (fun _ f => bytes_ok (rf_bytes f)) (rd_files d1) ->
  get genv (historyDigest profile) key d1 = (d2, Ok (Some data)) ->
  exists f, rd_files d1 !! resourceName key = Some f /\
    rf_bytes f = resourceHeader (historyDigest profile) data ++ data.
Proof.
  intros Hok Eg. unfold get in Eg. destruct (ValidatePrivateDir _); [done|]. cbn zeta in Eg.
  destruct (ValidatePrivateFile _) as [[]|]; try done.
  destruct (rd_files d1 !! resourceName key) as [f|] eqn:Ef; [|done]. exists f. split; [done|].
  destruct (_ || _); [done|]. destruct (decodeResource _ _) as [data'|] eqn:Ed; [|done].
  destruct (negb _); [done|]. injection Eg as _ <-.
  apply decodeResource_sound in Ed; [tauto|apply digest_bytes|]. by apply (Hok (resourceName key)).
Qed.

(** What was written is what is read: after a successful write, a read of
    the same key for the same profile returns exactly the bytes, a read for
    another profile fails, and a read never returns bytes other than those whose
    file carries the profile's binding, their length and their hash. *)
Theorem resource_roundtrip env genv profile key data d d' :
  put sortItems env (historyDigest profile) key data d = (d', None) ->
  ValidatePrivateDir (ge_dir genv) = None -> ge_lstat genv = true -> ge_open genv = true ->
  ge_stat genv = true -> ge_header genv = true -> ge_body genv = true -> ge_touch genv = true ->
  (exists d'', get genv (historyDigest profile) key d' = (d'', Ok (Some data)) /\
     rd_files d'' !! resourceName key =
       Some (mkResourceFile privateFile (resourceHeader (historyDigest profile) data ++ data) (ge_now genv))) /\
  (forall other, historyDigest other <> historyDigest profile ->
     (get genv (historyDigest other) key d').2 = Err errHistoryResourceCache) /\
  (forall genv' d1 d2 data', map_Forall (fun _ f => bytes_ok (rf_bytes f)) (rd_files d1) ->
     get genv' (historyDigest profile) key d1 = (d2, Ok (Some data')) ->
     exists f, rd_files d1 !! resourceName key = Some f /\
       rf_bytes f = resourceHeader (historyDigest profile) data' ++ data').
Proof.
  intros E Hdir Hl Ho Hs Hh Hb Ht.
  apply put_spec in E as [[_ ?]|(gone & kept & m & Hlen & Hev & [[? _]|[-> _]])]; [done|done|].
  split; [|split; [|intros genv' d1 d2 data' Hok Eg; by eapply get_stored]];
    unfold get; rewrite Hdir; simpl; rewrite lookup_insert_eq, Hl, Ho, Hs, Hh, Hb; simpl.
  - rewrite decodeResource_encoded by (done || apply digest_bytes). rewrite Ht. simpl.
    eexists. split; [reflexivity|]. simpl. by rewrite lookup_insert_eq.
  - intros other Hne. replace (decodeResource _ _) with (@None bytes); [done|]. symmetry.
    unfold decodeResource. cbn zeta. destruct (_ || _); [done|].
    rewrite bool_decide_eq_false_2; [done|]. intros Eq. apply Hne.
    rewrite take_take in Eq. rewrite resourceHeader_shape in Eq by apply digest_bytes.
    rewrite <- app_assoc, take_app_length' in Eq by (symmetry; apply digest_bytes).
    symmetry. by apply stringBytes_inj.
Qed.
End Sorting.

(** ** Acquiring *)

(** A read that no system call disturbs. *)
Definition undisturbed (genv : GetEnv) : Prop :=
  ValidatePrivateDir (ge_dir genv) = None /\ ge_lstat genv = true /\ ge_open genv = true /\
  ge_stat genv = true /\ ge_header genv = true /\ ge_body genv = true /\ ge_touch genv = true.

Definition holds (binding key : string) (data : bytes) (d : resourceDir) : Prop :=
  exists f, rd_files d !! resourceName key = Some f /\
    ValidatePrivateFile (LstatInfo (rf_mode f)) = None /\ decodeResource binding (rf_bytes f) = Some data.

Lemma get_holds genv binding key data d d' :
  get genv binding key d = (d', Ok (Some data)) -> holds binding key data d'.
Proof.
  unfold get, lstatFile. destruct (ValidatePrivateDir _); [done|]. cbn zeta.
  destruct (ValidatePrivateFile _) as [[]|] eqn:Ev; try done.
  destruct (rd_files d !! resourceName key) as [f|] eqn:Ef; [|done].
  destruct (_ || _); [done|]. destruct (decodeResource _ _) as [data'|] eqn:Ed; [|done].
  destruct (negb _); [done|]. intros [= <- <-]. eexists. simpl. rewrite lookup_insert_eq.
  split; [done|]. simpl. split; [|done]. destruct (ge_lstat genv); [done|]. by simpl in Ev.
Qed.

Lemma holds_get genv binding key data d :
  undisturbed genv -> holds binding key data d -> exists d', get genv binding key d = (d', Ok (Some data)).
Proof.
  intros (Hdir & Hl & Ho & Hs & Hh & Hb & Ht) (f & Ef & Ev & Ed).
  unfold get. rewrite Hdir. cbn zeta. rewrite Ef, Hl. simpl lstatFile. rewrite Ev, Ho, Hs, Hh, Hb. cbn [negb orb].
  rewrite Ed, Ht. eauto.
Qed.

Section Acquire.
Context (sortItems : list item -> list item).
Context (sort_perm : forall l, sortItems l ≡ₚ l).
Context (sort_sorted : forall l, StronglySorted (fun a b => it_at a <= it_at b) (sortItems l)).
Context {W E : Type}.

(** What an admission promises of a demand that succeeded: its code ran, and
    came to that. *)
Definition admits (AcquireHistoryBytes : string -> @acquiring W E bytes -> @acquiring W E bytes) : Prop :=
  forall key f d w d' w' data, AcquireHistoryBytes key f (d, w) = ((d', w'), Ok data) ->
    exists d1 w1 w2, f (d1, w1) = ((d', w2), Ok data).

Lemma put_holds penv profile key data d d' :
  put sortItems penv (historyDigest profile) key data d = (d', None) ->
  holds (historyDigest profile) key data d'.
Proof.
  intros Ep. apply (put_spec sortItems sort_perm sort_sorted) in Ep
    as [[_ ?]|(gone & kept & m & Hlen & _ & [[? _]|[-> _]])]; [done|done|].
  eexists. simpl. rewrite lookup_insert_eq. split; [done|]. split; [done|].
  apply decodeResource_encoded; [apply digest_bytes|done].
Qed.

Lemma fetchCached_holds env profile key (fetch : @acquiring W E bytes) d w d' w' data :
  fetchCached sortItems env (Some (historyDigest profile)) key fetch (d, w) = ((d', w'), Ok data) ->
  holds (historyDigest profile) key data d'.
Proof.
  unfold fetchCached, bind, onCache, ret. cbn [fst snd].
  destruct (get _ _ _ _) as [d1 r] eqn:Eg. destruct r as [[data1|]|e]; [| |done].
  - intros [= <- <- <-]. by eapply get_holds.
  - destruct (fetch _) as [[d2 w2] [data2|e]]; [|done]. cbn [fst snd].
    destruct (put _ _ _ _ _ _) as [d3 [e|]] eqn:Ep; [done|]. intros [= <- <- <-]. by eapply put_holds.
Qed.

(** A resource is acquired once: after a successful acquisition, by any
    admission and any demand, another one of the same key that can read the
    cache returns the same bytes without asking its admission or its demand
    for anything. *)
Theorem acquired_once AcquireHistoryBytes env profile key (fetch : @acquiring W E bytes) d w d' w' data :
  admits AcquireHistoryBytes ->
  AcquireHistoryResource sortItems AcquireHistoryBytes env (Some (historyDigest profile)) key fetch (d, w)
    = ((d', w'), Ok data) ->
  forall AcquireHistoryBytes' fetch' env' w0,
  ae_closed env' = false -> ae_ctx env' = false -> undisturbed (ae_first env') ->
  exists d'', AcquireHistoryResource (W := W) (E := E) sortItems AcquireHistoryBytes' env' (Some (historyDigest profile)) key fetch' (d', w0)
    = ((d'', w0), @Ok (AcquireError E) bytes data).
Proof.
  intros Hadm Ea AHB fetch' env' w0 Hc Hx Hu. unfold AcquireHistoryResource in *.
  destruct (_ || _); [done|]. rewrite Hc, Hx. destruct (ae_closed env); [done|]. destruct (ae_ctx env); [done|].
  assert (Hh : holds (historyDigest profile) key data d').
  { unfold bind, onCache, ret in Ea. cbn [fst snd] in Ea. destruct (get _ _ _ _) as [d1 r] eqn:Eg.
    destruct r as [[data1|]|e]; [| |done].
    - injection Ea as <- <- <-. by eapply get_holds.
    - apply Hadm in Ea as (d2 & w1 & w2 & Ef). by eapply fetchCached_holds. }
  destruct (holds_get _ _ _ _ _ Hu Hh) as [d'' Eg]. unfold bind, onCache, ret. cbn [fst snd]. rewrite Eg.
  eauto.
Qed.
End Acquire.

(** ** Witnesses *)

Definition itemLe (a b : item) : Prop := it_at a <= it_at b.
#[export] Instance itemLe_dec : RelDecision itemLe.
Proof. intros a b. unfold itemLe. apply _. Defined.
#[export] Instance itemLe_trans : Transitive itemLe.
Proof. intros a b c. unfold itemLe. lia. Qed.
#[export] Instance itemLe_total : Total itemLe.
Proof. intros a b. unfold itemLe. lia. Qed.

Definition demoSort : list item -> list item := merge_sort itemLe.

Lemma demoSort_perm l : demoSort l ≡ₚ l.
Proof. apply merge_sort_Permutation. Qed.

Lemma demoSort_sorted l : StronglySorted (fun a b => it_at a <= it_at b) (demoSort l).
Proof. apply (StronglySorted_merge_sort itemLe). Qed.

Definition demoPutEnv : PutEnv :=
  mkPutEnv (LstatInfo privateDir) true (fun _ => true) (fun _ => true) (fun _ => true) true true None true true 7.
Definition demoGetEnv : GetEnv := mkGetEnv (LstatInfo privateDir) true true true true true true 9.

(** A directory that holds one older file. *)
Definition demoDir : resourceDir :=
  mkResourceDir Missing {[ resourceName "older" := mkResourceFile privateFile [1; 2] 3 ]}.

Definition demoPut : resourceDir * option CacheError :=
  put demoSort demoPutEnv (historyDigest "profile") "key" [10; 20; 30] demoDir.

Lemma demo_put : demoPut.2 = None.
Proof. vm_compute. reflexivity. Qed.

Lemma demo_put_pair : put demoSort demoPutEnv (historyDigest "profile") "key" [10; 20; 30] demoDir = (demoPut.1, None).
Proof. pose proof demo_put as E. unfold demoPut in *. destruct (put _ _ _ _ _ _). simpl in *. by subst. Qed.

Lemma cache_bounded_witness : usage (rd_files demoPut.1) <= historyResourceBudget.
Proof.
  exact (cache_bounded demoSort demoSort_perm demoSort_sorted _ _ _ _ _ _ _ demo_put_pair (or_introl eq_refl)).
Defined.

Lemma demo_names : resourceName "older" <> resourceName "key".
Proof. intros E. vm_compute in E. discriminate. Qed.

Lemma demo_room : (historyResourceBudget <? usage (delete (resourceName "key") (rd_files demoDir))
  + (Z.of_nat (length [10; 20; 30]) + historyResourceHeaderSize)) = false.
Proof. vm_compute. reflexivity. Qed.

(** Both fit: the older file stays. *)
Lemma eviction_is_lru_witness :
  rd_files demoPut.1 !! resourceName "older" = Some (mkResourceFile privateFile [1; 2] 3).
Proof.
  destruct (eviction_is_lru demoSort demoSort_perm demoSort_sorted _ _ _ _ _ _ demo_put_pair
    _ (mkResourceFile privateFile [1; 2] 3) demo_names (lookup_singleton_eq _ _)) as [E|(_ & _ & Hover)];
    [exact E|].
  apply Z.ltb_lt in Hover. rewrite demo_room in Hover. discriminate.
Defined.

Lemma resource_roundtrip_witness :
  exists d'', get demoGetEnv (historyDigest "profile") "key" demoPut.1 = (d'', Ok (Some [10; 20; 30])).
Proof.
  destruct (resource_roundtrip demoSort demoSort_perm demoSort_sorted _ demoGetEnv _ _ _ _ _ demo_put_pair
    eq_refl eq_refl eq_refl eq_refl eq_refl eq_refl eq_refl) as [(d'' & E & _) _].
  by exists d''.
Defined.

(** An account without an admission: the demand's code runs as it is. *)
Definition demoBytes (_ : string) (f : @acquiring unit unit bytes) : @acquiring unit unit bytes := f.

Lemma demoBytes_admits : admits demoBytes.
Proof. intros key f d w d' w' data E. exists d, w, w'. exact E. Qed.

Definition demoAcquire : AcquireEnv := mkAcquireEnv false false demoGetEnv demoGetEnv demoPutEnv.

Definition demoAcquired : (resourceDir * unit) * res (AcquireError unit) bytes :=
  AcquireHistoryResource demoSort demoBytes demoAcquire (Some (historyDigest "profile")) "key"
    (fun s => (s, Ok [10; 20; 30])) (demoDir, tt).

Lemma demo_acquired : demoAcquired.2 = Ok [10; 20; 30].
Proof. vm_compute. reflexivity. Qed.

Lemma demo_acquired_pair :
  AcquireHistoryResource demoSort demoBytes demoAcquire (Some (historyDigest "profile")) "key"
    (fun s => (s, Ok [10; 20; 30])) (demoDir, tt) = ((demoAcquired.1.1, demoAcquired.1.2), Ok [10; 20; 30]).
Proof.
  pose proof demo_acquired as E. unfold demoAcquired in *.
  destruct (AcquireHistoryResource _ _ _ _ _ _ _) as [[d w] r]. simpl in *. by subst.
Qed.

(** The second time the demand's code would have failed. *)
Lemma acquired_once_witness :
  exists d'', AcquireHistoryResource demoSort (fun _ _ s => (s, Err ErrContext)) demoAcquire
    (Some (historyDigest "profile")) "key" (fun s => (s, Err ErrContext)) (demoAcquired.1.1, tt)
    = ((d'', tt), @Ok (AcquireError unit) bytes [10; 20; 30]).
Proof.
  refine (acquired_once demoSort demoSort_perm demoSort_sorted demoBytes demoAcquire "profile" "key" _ _ _ _ _ _
    demoBytes_admits demo_acquired_pair _ _ demoAcquire tt eq_refl eq_refl _).
  exact (conj eq_refl (conj eq_refl (conj eq_refl (conj eq_refl (conj eq_refl (conj eq_refl eq_refl)))))).
Defined.
