(* ===== verification/SourceAccess.v ===== *)
(** * Access to source chats (src/internal/bridge/connector/group_access.go,
      group_membership.go, portal_meta.go, discovery.go)

    A chat whose access was lost, or whose membership has not converged with the
    source's roster, forwards nothing.  The block is kept in memory and in the
    metadata of the chat's portal.

    An operation is a program of atomic steps: a critical section of [cacheMu],
    a call of the framework or of its database, a change of the portal that the
    framework's cache shares ([Programs] of Prelude.v).  [run] is what happens while nobody else runs, as
    under [groupGate]; [interleave] is any schedule of several.  What the
    framework, the database and the server answer are arguments. *)

From S2P Require Import Prelude Identifiers.
From S2P Require Handling.

Export Programs.

#[local] Open Scope string_scope.
#[local] Open Scope list_scope.
#[local] Open Scope Z_scope.

(** ** Data *)

Record KakaoPortalMetadata := mkMetadata {
  AnnouncementRevision : Z;
  SourceRemoved : bool;
  MembershipPending : bool;
  MembershipRoster : list Z;
  GroupMembershipManaged : bool;
}.

(** What the code uses of [bridgev2.Portal]; a portal's metadata can be of
    another type. *)
Record portal := mkPortal {
  MXID : string;
  RoomDM : bool;
  Metadata : option KakaoPortalMetadata;
}.

Definition setMetadata (m : option KakaoPortalMetadata) (p : portal) : portal :=
  mkPortal (MXID p) (RoomDM p) m.

#[export] Instance PortalKey_eq_dec : EqDecision PortalKey.
Proof. solve_decision. Defined.
#[export] Instance PortalKey_countable : Countable PortalKey.
Proof.
  refine (inj_countable' (fun k => (PortalID k, Receiver k)) (fun '(a, b) => mkPortalKey a b) _).
  by intros [].
Defined.

Inductive AccessError :=
| errSourceAccessRemoved
| errMembershipPending
| errInvalidMemberRoster
| errRosterIncomplete
| errRosterUnexpected
| errStore (* the bridge's database *)
| errFramework (* [GetPortalByKey], [GetGhostByID], [GetMembers] *)
| errMetadataUnavailable
| errPortalDisappeared
| errNotDurable
| errChatInfo (* the server or its answer *)
| errInvalidID
| errJoined (a b : AccessError).

(** [kc.sourceBlocked], the portals of the framework's cache, and the rows of
    its database. *)
Record World := mkWorld {
  sourceBlocked : gmap Z Handling.SourceBlock;
  cached : gmap PortalKey portal;
  rows : gmap PortalKey portal;
}.

Definition setBlocked (m : gmap Z Handling.SourceBlock) (w : World) : World :=
  mkWorld m (cached w) (rows w).
Definition setCached (k : PortalKey) (p : portal) (w : World) : World :=
  mkWorld (sourceBlocked w) (<[k := p]> (cached w)) (rows w).
Definition setRow (k : PortalKey) (p : portal) (w : World) : World :=
  mkWorld (sourceBlocked w) (cached w) (<[k := p]> (rows w)).

(** A new process: the cache is empty until portals are asked for. *)
Definition restart (w : World) : World := mkWorld ∅ ∅ (rows w).

(** [mutate]'s result for a portal the framework has just made. *)
Definition noMetadata : KakaoPortalMetadata := mkMetadata 0 false false [] false.

Abbreviation action A := (prog World A).

(** ** The framework *)

(** [Bridge.GetPortalByKey]: the cached portal, loaded from its row; a portal
    that has no row gets one. *)
Definition GetPortalByKey (ok : bool) (k : PortalKey) : action bool :=
  act (fun w =>
    if negb ok then (w, false) else
    match cached w !! k with
    | Some _ => (w, true)
    | None =>
        match rows w !! k with
        | Some p => (setCached k p w, true)
        | None =>
            let p := mkPortal "" false (Some noMetadata) in
            (setRow k p (setCached k p w), true)
        end
    end).

(** [store.portalByKey]. *)
Definition portalByKey (ok : bool) (k : PortalKey) : action (option (option portal)) :=
  act (fun w => (w, if ok then Some (rows w !! k) else None)).

(** ** portal_meta.go *)

Record SaveEnv := mkSaveEnv { sv_save : bool; sv_read : bool }.

(** [mutate] works on a copy; [verify] sees what [mutate] made and what was read
    back. *)
Definition savePortalMeta (env : SaveEnv) (k : PortalKey)
    (mutate : KakaoPortalMetadata -> KakaoPortalMetadata)
    (verify : KakaoPortalMetadata -> KakaoPortalMetadata -> bool) : action (option AccessError) :=
  step! old := act (fun w =>
    match cached w !! k with
    | Some p =>
        match Metadata p with
        | Some meta => (setCached k (setMetadata (Some (mutate meta)) p) w, Some meta)
        | None => (w, None)
        end
    | None => (w, None)
    end) in
  match old with
  | None => Done (Some errMetadataUnavailable)
  | Some meta =>
      step! saved := act (fun w =>
        match cached w !! k with
        | Some p =>
            if sv_save env then (setRow k p w, true)
            else (setCached k (setMetadata (Some meta) p) w, false)
        | None => (w, false)
        end) in
      if negb saved then Done (Some errStore) else
      step! row := portalByKey (sv_read env) k in
      match row with
      | None => Done (Some errStore)
      | Some None => Done (Some errPortalDisappeared)
      | Some (Some p) =>
          match Metadata p with
          | Some got => Done (if verify (mutate meta) got then None else Some errNotDurable)
          | None => Done (Some errNotDurable)
          end
      end
  end.

Section Access.
(** The account's user ID and login ID. *)
Context (userID : Z) (login : string).

Definition key (chatID : Z) : PortalKey := makePortalKey chatID login.

Definition block (chatID : Z) (b : Handling.SourceBlock) : action unit :=
  act (fun w => (setBlocked (<[chatID := b]> (sourceBlocked w)) w, tt)).

(** ** group_access.go *)

Record RemovalEnv := mkRemovalEnv { rm_portal : bool; rm_save : SaveEnv }.

Definition recordSourceRemoval (env : RemovalEnv) (chatID : Z) : action (option AccessError) :=
  step! _ := block chatID Handling.SourceAccessRemoved in
  step! found := GetPortalByKey (rm_portal env) (key chatID) in
  if negb found then Done (Some errFramework) else
  savePortalMeta (rm_save env) (key chatID)
    (fun m => mkMetadata (AnnouncementRevision m) true (MembershipPending m) (MembershipRoster m)
                (GroupMembershipManaged m))
    (fun _ got => SourceRemoved got).

Definition blockError (b : Handling.SourceBlock) : AccessError :=
  match b with
  | Handling.SourceAccessRemoved => errSourceAccessRemoved
  | Handling.MembershipPending => errMembershipPending
  end.

Definition checkSourceAccess (read_ok : bool) (chatID : Z) : action (option AccessError) :=
  step! blocked := act (fun w => (w, sourceBlocked w !! chatID)) in
  match blocked with
  | Some b => Done (Some (blockError b))
  | None =>
      step! row := portalByKey read_ok (key chatID) in
      match row with
      | None => Done (Some errStore)
      | Some None => Done None
      | Some (Some p) =>
          match Metadata p with
          | None => Done (Some errMetadataUnavailable)
          | Some m =>
              if SourceRemoved m then Done (Some errSourceAccessRemoved)
              else if MembershipPending m then Done (Some errMembershipPending)
              else Done None
          end
      end
  end.

(** What the framework and the homeserver answer about a room. *)
Inductive Membership := Join | Invite | Leave | Ban | Knock.

#[local] Instance Membership_eq_dec : EqDecision Membership.
Proof. solve_decision. Defined.

Definition IsInviteOrJoin (m : Membership) : bool :=
  match m with Join | Invite => true | _ => false end.

Record RoomEnv := mkRoomEnv {
  rv_read : bool;
  rv_ghost : option string; (* the account's own ghost *)
  rv_members : option (gmap string Membership);
}.

(** [kc.login.UserMXID]. *)
Context (UserMXID : string).

Definition present (members : gmap string Membership) (mxid : string) : bool :=
  match members !! mxid with Some m => IsInviteOrJoin m | None => false end.

Definition verifySourceLeave (env : RoomEnv) (chatID : Z) : action (option AccessError) :=
  step! row := portalByKey (rv_read env) (key chatID) in
  match row with
  | None => Done (Some errStore)
  | Some None => Done None
  | Some (Some p) =>
      if String.eqb (MXID p) "" then Done None else
      match rv_ghost env, rv_members env with
      | Some ghost, Some members =>
          Done (if present members ghost || present members UserMXID then Some errMembershipPending else None)
      | _, _ => Done (Some errFramework)
      end
  end.

(** The leaves it sends, and whether the homeserver took them: first the user's,
    then the ghost's. *)
Definition applySourceLeave (env after : RoomEnv) (sent : string -> bool) (chatID : Z)
  : action (list string * option AccessError) :=
  step! row := portalByKey (rv_read env) (key chatID) in
  match row with
  | None => Done ([], Some errStore)
  | Some None => Done ([], None)
  | Some (Some p) =>
      if String.eqb (MXID p) "" then Done ([], None) else
      match rv_ghost env, rv_members env with
      | Some ghost, Some members =>
          let leaves := List.filter (present members) [UserMXID; ghost] in
          let failures := List.filter (fun m => negb (sent m)) leaves in
          step! verified := verifySourceLeave after chatID in
          Done (leaves, match failures, verified with
            | [], v => v
            | _ :: _, None => Some errFramework
            | _ :: _, Some e => Some (errJoined errFramework e)
            end)
      | _, _ => Done ([], Some errFramework)
      end
  end.

(** One portal of the loop of [reconcileMissingGroups]. *)
Record MissingEnv := mkMissingEnv {
  mi_removal : RemovalEnv;
  mi_room : RoomEnv;
  mi_after : RoomEnv;
  mi_sent : string -> bool;
}.

Definition managed (p : portal) : bool :=
  match Metadata p with
  | Some m => GroupMembershipManaged m || (0 <? length (MembershipRoster m))%nat
  | None => false
  end.

Fixpoint reconcilePortals (env : Z -> MissingEnv) (seen : gset Z) (portals : list (PortalKey * portal))
  : action (option AccessError) :=
  match portals with
  | [] => Done None
  | (k, p) :: portals =>
      if negb (String.eqb (Receiver k) login) || String.eqb (MXID p) "" then reconcilePortals env seen portals
      else if negb (managed p) then reconcilePortals env seen portals
      else match parseChatID (PortalID k) with
      | Err _ => Done (Some errInvalidID)
      | Ok chatID =>
          if bool_decide (chatID ∈ seen) then reconcilePortals env seen portals else
          step! err := recordSourceRemoval (mi_removal (env chatID)) chatID in
          match err with
          | Some e => Done (Some e)
          | None =>
              step! departed := applySourceLeave (mi_room (env chatID)) (mi_after (env chatID)) (mi_sent (env chatID)) chatID in
              match snd departed with
              | Some e => Done (Some (errJoined errSourceAccessRemoved (errJoined errMembershipPending e)))
              | None => reconcilePortals env seen portals
              end
          end
      end
  end.

(** The rows with a room, in the database's order. *)
Definition reconcileMissingGroups (read_ok : bool) (order : list (PortalKey * portal) -> list (PortalKey * portal))
    (env : Z -> MissingEnv) (seen : gset Z) : action (option AccessError) :=
  step! portals := act (fun w =>
    (w, if read_ok
        then Some (order (List.filter (fun kp => negb (String.eqb (MXID (snd kp)) "")) (map_to_list (rows w))))
        else None)) in
  match portals with
  | None => Done (Some errStore)
  | Some portals => reconcilePortals env seen portals
  end.

(** The classification of [sendReadyState]: the map is iterated in any order. *)
Definition readyState (order : list Handling.SourceBlock) (paused : Z) : Handling.BridgeState :=
  if existsb (fun b => match b with Handling.SourceAccessRemoved => true | _ => false end) order
  then Handling.stateGroupAccessRemoved
  else match order with
  | _ :: _ => Handling.stateGroupMembershipPending
  | [] => if 0 <? paused then Handling.stateChatDeliveryPaused else Handling.stateConnected
  end.

(** ** group_membership.go *)

Definition saveMembershipCheckpoint (env : SaveEnv) (k : PortalKey) (pending : bool) (roster : list Z)
  : action (option AccessError) :=
  savePortalMeta env k
    (fun m => mkMetadata (AnnouncementRevision m) (if pending then SourceRemoved m else false)
                pending roster true)
    (fun next got => GroupMembershipManaged got && Bool.eqb (MembershipPending got) pending
       && Bool.eqb (SourceRemoved got) (SourceRemoved next) && bool_decide (MembershipRoster got = roster)).

Record PauseEnv := mkPauseEnv { ps_portal : bool; ps_save : SaveEnv }.

Definition pauseGroupMembership (env : PauseEnv) (chatID : Z) : action (option AccessError) :=
  step! found := GetPortalByKey (ps_portal env) (key chatID) in
  if negb found then Done (Some errFramework) else
  step! _ := block chatID Handling.MembershipPending in
  saveMembershipCheckpoint (ps_save env) (key chatID) true [].

(** The users a roster names; [None] if it names one twice or an invalid one. *)
Fixpoint expectedUsers (roster : list Z) (expected : gset string) : option (gset string) :=
  match roster with
  | [] => Some expected
  | member :: roster =>
      let user := makeUserID member in
      if (member <=? 0) || bool_decide (user ∈ expected) then None
      else expectedUsers roster ({[user]} ∪ expected)
  end.

(** [rosterMatches] (chat_snapshot.go). *)
Definition rosterMatches (roster : list Z) (expected : gset string) (allowSubset : bool) : option AccessError :=
  if (length roster =? 0)%nat then Some errRosterIncomplete else
  let actual : gset string := list_to_set (makeUserID userID :: (makeUserID <$> roster)) in
  if negb allowSubset && negb (size actual =? size expected)%nat then Some errRosterIncomplete
  else if negb (bool_decide (actual ⊆ expected)) then Some errRosterUnexpected
  else None.

(** What the framework does with the resync, and Matrix afterwards. *)
Record ConvergeEnv := mkConvergeEnv {
  cv_removal : RemovalEnv;
  cv_pending : SaveEnv;
  cv_queued : bool; (* [committable(kc.queue(resync))] *)
  cv_room : option string; (* a room that handling the resync created *)
  cv_portal : bool;
  cv_members : option (gmap string Membership);
  cv_ghost : string -> option string; (* [GetGhostByID] and its intent's MXID *)
  cv_parse : string -> option string; (* [ParseGhostMXID] *)
  cv_puppet : bool; (* the user has a double puppet *)
  cv_final : SaveEnv;
}.

Definition joined (members : gmap string Membership) (mxid : string) : bool :=
  match members !! mxid with Some Join => true | _ => false end.

Definition joinedAs (env : ConvergeEnv) (members : gmap string Membership) (user ghostMXID : string) : bool :=
  joined members ghostMXID
  || (String.eqb user (makeUserID userID) && cv_puppet env && joined members UserMXID).

(** The loops that compare Matrix with the roster. *)
Fixpoint allJoined (env : ConvergeEnv) (members : gmap string Membership) (users : list string)
  : option AccessError :=
  match users with
  | [] => None
  | user :: users =>
      match cv_ghost env user with
      | None => Some errFramework
      | Some mxid =>
          if joinedAs env members user mxid then allJoined env members users else Some errMembershipPending
      end
  end.

Definition stranger (env : ConvergeEnv) (expected : gset string) (p : string * Membership) : bool :=
  match cv_parse env (fst p) with
  | Some user => negb (bool_decide (user ∈ expected)) && IsInviteOrJoin (snd p)
  | None => false
  end.

Definition verifyMembers (env : ConvergeEnv) (expected : gset string) (members : gmap string Membership)
  : option AccessError :=
  match allJoined env members (elements expected) with
  | Some e => Some e
  | None =>
      if existsb (stranger env expected) (map_to_list members) then Some errMembershipPending else None
  end.

Definition unblock (chatID : Z) : action unit :=
  act (fun w => (setBlocked (delete chatID (sourceBlocked w)) w, tt)).

(** The room that handling the resync created is in the cache and the database. *)
Definition roomCreated (k : PortalKey) (room : option string) : action unit :=
  act (fun w => (match room, cached w !! k with
    | Some r, Some p =>
        let p := mkPortal r (RoomDM p) (Metadata p) in setRow k p (setCached k p w)
    | _, _ => w
    end, tt)).

Definition convergeGroupMembership (env : ConvergeEnv) (chatID : Z) (roster : list Z)
  : action (option AccessError) :=
  match parseChatID (PortalID (key chatID)), expectedUsers roster ∅ with
  | Err _, _ => Done (Some errInvalidID)
  | Ok _, None => Done (Some errInvalidMemberRoster)
  | Ok chatID, Some expected =>
      if negb (bool_decide (makeUserID userID ∈ expected)) then
        step! err := recordSourceRemoval (cv_removal env) chatID in
        Done (Some (match err with Some e => e | None => errSourceAccessRemoved end))
      else match rosterMatches roster expected false with
      | Some _ => Done (Some errInvalidMemberRoster)
      | None =>
          step! err := saveMembershipCheckpoint (cv_pending env) (key chatID) true roster in
          match err with
          | Some e => Done (Some e)
          | None =>
              if negb (cv_queued env) then Done (Some errMembershipPending) else
              step! _ := roomCreated (key chatID) (cv_room env) in
              step! found := GetPortalByKey (cv_portal env) (key chatID) in
              if negb found then Done (Some errFramework) else
              step! room := act (fun w => (w, default "" (MXID <$> cached w !! key chatID))) in
              if String.eqb room "" then Done (Some errMembershipPending) else
              match cv_members env with
              | None => Done (Some errFramework)
              | Some members =>
                  match verifyMembers env expected members with
                  | Some e => Done (Some e)
                  | None =>
                      step! err := saveMembershipCheckpoint (cv_final env) (key chatID) false roster in
                      match err with
                      | Some e => Done (Some e)
                      | None => step! _ := unblock chatID in Done None
                      end
                  end
              end
          end
      end
  end.

(** What the code here uses of [chatmeta.ChatData]. *)
Record ChatData := mkChatData { ChatID : Z; ChatType : string; LinkID : Z }.

(** The answers of [ChatInfo] and [MemberList], and whether the display
    checkpoint and the projection succeed. *)
Record SnapshotEnv := mkSnapshotEnv {
  sn_info : option ChatData;
  sn_display : bool;
  sn_members : option (list Z);
  sn_project : bool;
}.

(** The roster of the snapshot that [chatInfoFromClient] takes
    (chat_snapshot.go). *)
Definition fetchChatSnapshot (env : SnapshotEnv) (regularGroupOnly : bool) (inventory : option ChatData)
    (storedRoster : list Z) (chatID : Z) : res AccessError (list Z) :=
  match parseChatID (PortalID (key chatID)) with
  | Err _ => Err errInvalidID
  | Ok chatID =>
      match (match inventory with Some data => Some data | None => sn_info env end) with
      | None => Err errChatInfo
      | Some data =>
          if negb (ChatID data =? chatID) then Err errChatInfo
          else if regularGroupOnly && negb (String.eqb (ChatType data) "MultiChat") then Err errChatInfo
          else if 0 <? LinkID data then Err errChatInfo
          else if String.eqb (ChatType data) "MultiChat" && negb (sn_display env) then Err errChatInfo
          else match (if (0 <? length storedRoster)%nat then Some storedRoster else sn_members env) with
          | None => Err errChatInfo
          | Some roster =>
              if regularGroupOnly && (length roster =? 0)%nat then Err errInvalidMemberRoster
              else if existsb (fun user => user <=? 0) roster then Err errInvalidMemberRoster
              else if negb (sn_project env) then Err errChatInfo
              else Ok roster
          end
      end
  end.

(** [refreshGroupMembershipFrom] with [regularGroupOnly]. *)
Definition refreshGroupMembership (penv : PauseEnv) (cenv : ConvergeEnv) (senv : SnapshotEnv)
    (inventory : option ChatData) (storedRoster : list Z) (chatID : Z) : action (option AccessError) :=
  step! err := pauseGroupMembership penv chatID in
  match err with
  | Some e => Done (Some e)
  | None =>
      match fetchChatSnapshot senv true inventory storedRoster chatID with
      | Err e => Done (Some e)
      | Ok roster => convergeGroupMembership cenv chatID roster
      end
  end.

(** [verifiedRoster] (discovery.go). *)
Definition verifiedRoster (read_ok : bool) (chatID : Z) : action (list Z) :=
  step! row := portalByKey read_ok (key chatID) in
  match row with
  | Some (Some p) =>
      if String.eqb (MXID p) "" then Done [] else
      match Metadata p with
      | Some m =>
          if negb (GroupMembershipManaged m) || MembershipPending m || SourceRemoved m
          then Done [] else Done (MembershipRoster m)
      | None => Done []
      end
  | _ => Done []
  end.

(** The loop of [feedRoster] over the invitees. *)
Fixpoint addInvitees (invitees stored : list Z) : option (list Z) :=
  match invitees with
  | [] => Some stored
  | user :: invitees =>
      if (user <=? 0) || (user =? userID) then None
      else addInvitees invitees (if bool_decide (user ∈ stored) then stored else stored ++ [user])
  end.

(** What [feedRoster] makes of the stored roster. *)
Definition appliedFeed (stored : list Z) (feed : Handling.membershipFeed) : option (list Z) :=
  if (length stored =? 0)%nat then None
  else if negb (Handling.leaver feed =? 0) then
    if (Handling.leaver feed <? 0) || (Handling.leaver feed =? userID)
       || negb (length (Handling.invitees feed) =? 0)%nat
    then None
    else Some (List.filter (fun u => negb (u =? Handling.leaver feed)) stored)
  else if (length (Handling.invitees feed) =? 0)%nat then None
  else addInvitees (Handling.invitees feed) stored.

Definition feedRoster (read_ok : bool) (chatID : Z) (feed : Handling.membershipFeed)
  : action (option (list Z)) :=
  step! stored := verifiedRoster read_ok chatID in Done (appliedFeed stored feed).

(** The feed's roster is remembered by the metadata queue, outside this state. *)
Definition applyMembershipFeed (penv : PauseEnv) (cenv : ConvergeEnv) (chatID : Z) (roster : list Z)
  : action (option AccessError) :=
  step! err := pauseGroupMembership penv chatID in
  match err with
  | Some e => Done (Some e)
  | None => convergeGroupMembership cenv chatID roster
  end.

Record ChangeEnv := mkChangeEnv {
  ch_read : bool;
  ch_feedRead : bool;
  ch_pause : PauseEnv;
  ch_converge : ConvergeEnv;
  ch_snapshot : SnapshotEnv;
}.

(** Whether the change is this code's to handle, whether it succeeded, and
    whether a retry is scheduled. *)
Definition managedMembershipChange (env : ChangeEnv) (chatID : Z) (feed : option Handling.membershipFeed)
  : action (bool * bool * bool) :=
  step! row := portalByKey (ch_read env) (key chatID) in
  match row with
  | None => Done (true, false, false)
  | Some p =>
      if match p with Some p => RoomDM p | None => false end then Done (false, false, false) else
      step! roster := match feed with
        | Some feed => feedRoster (ch_feedRead env) chatID feed
        | None => Done None
        end in
      step! err := match roster with
        | Some roster => applyMembershipFeed (ch_pause env) (ch_converge env) chatID roster
        | None => refreshGroupMembership (ch_pause env) (ch_converge env) (ch_snapshot env) None [] chatID
        end in
      Done (true, match err with None => true | Some _ => false end,
        match err with Some errSourceAccessRemoved | None => false | Some _ => true end)
  end.

(** The loop of [discoverGroups] over the inventory: its regular groups, once
    each; [None] if one has no valid ID. *)
Fixpoint regularGroups (chats : list ChatData) (seen : gset Z) : option (list ChatData) :=
  match chats with
  | [] => Some []
  | chat :: chats =>
      if negb (String.eqb (ChatType chat) "MultiChat") || negb (LinkID chat =? 0) then regularGroups chats seen
      else if ChatID chat <=? 0 then None
      else if bool_decide (ChatID chat ∈ seen) then regularGroups chats seen
      else ordered ← regularGroups chats ({[ChatID chat]} ∪ seen); Some (chat :: ordered)
  end.

(** Its loop over the groups; [ch_feedRead] is the read of [verifiedRoster]. *)
Fixpoint refreshGroups (env : Z -> ChangeEnv) (groups : list ChatData) : action (option AccessError) :=
  match groups with
  | [] => Done None
  | data :: groups =>
      let chatID := ChatID data in
      step! stored := verifiedRoster (ch_feedRead (env chatID)) chatID in
      step! err := refreshGroupMembership (ch_pause (env chatID)) (ch_converge (env chatID))
                     (ch_snapshot (env chatID)) (Some data) stored chatID in
      match err with
      | Some e => Done (Some e)
      | None => refreshGroups env groups
      end
  end.

(** [chats] is the answer of [ListChats]. *)
Definition discoverGroups (chats : option (list ChatData)) (read_ok : bool)
    (order : list (PortalKey * portal) -> list (PortalKey * portal))
    (missing : Z -> MissingEnv) (env : Z -> ChangeEnv) : action (option AccessError) :=
  match chats with
  | None => Done (Some errChatInfo)
  | Some chats =>
      match regularGroups chats ∅ with
      | None => Done (Some errChatInfo)
      | Some groups =>
          step! err := reconcileMissingGroups read_ok order missing (list_to_set (ChatID <$> groups)) in
          match err with
          | Some e => Done (Some e)
          | None => refreshGroups env groups
          end
      end
  end.
(** ** A created group gets its room (group_create.go)

    GroupCreation.v has all of [bindCreatedGroup]; this is its part in the
    access of the chat. *)

(** [Portal.UpdateMatrixRoomID]: [None] leaves the portal as it was; otherwise
    the cached one has the room, and the row too unless its save fails. *)
Definition UpdateMatrixRoomID (outcome : option bool) (k : PortalKey) (room : string) : action bool :=
  act (fun w => match cached w !! k, outcome with
    | Some p, Some saved =>
        let p := mkPortal room (RoomDM p) (Metadata p) in
        let w := setCached k p w in
        (if saved then setRow k p w else w, saved)
    | _, _ => (w, false)
    end).

(** [Portal.Save]. *)
Definition Save (ok : bool) (k : PortalKey) : action bool :=
  act (fun w => match cached w !! k with
    | Some p => if ok then (setRow k p w, true) else (w, false)
    | None => (w, false)
    end).

(** [creationSourceRoster]: the members, each once and allowed, the account among
    them. *)
Fixpoint distinctMembers (allowed roster : list Z) (actual : gset Z) : option (gset Z) :=
  match roster with
  | [] => Some actual
  | member :: roster =>
      if (member <=? 0) || bool_decide (member ∈ actual) || negb (bool_decide (member ∈ allowed)) then None
      else distinctMembers allowed roster ({[member]} ∪ actual)
  end.

Definition createdRoster (roster participants : list Z) : option (gset Z) :=
  match distinctMembers (userID :: participants) roster ∅ with
  | Some actual => if bool_decide (userID ∈ actual) then Some actual else None
  | None => None
  end.

Record BindEnv := mkBindEnv {
  bd_room : bool; (* [validateGroupRoom] *)
  bd_portal : bool;
  bd_snapshot : SnapshotEnv;
  bd_update : option bool;
  bd_save : bool;
  bd_verified : bool; (* [verifyGroupBinding] after [UpdateInfo] *)
  bd_checkpoint : SaveEnv;
  bd_final : bool;
  bd_read : bool;
}.

(** [created] is the chat and the active members of the CREATE reply.  The
    creation's own journal, saved afterwards, is not part of this state. *)
Definition bindAccess (env : BindEnv) (chatID : Z) (room : string) (participants : list Z)
    (created : option (ChatData * list Z)) : action (option AccessError) :=
  if negb (bd_room env) then Done (Some errFramework) else
  step! found := GetPortalByKey (bd_portal env) (key chatID) in
  if negb found then Done (Some errFramework) else
  match fetchChatSnapshot (bd_snapshot env) true (fst <$> created)
          (match created with Some (_, ids) => merge_sort Z.le ids | None => [] end) chatID with
  | Err e => Done (Some e)
  | Ok roster =>
      let expected : gset string := list_to_set (makeUserID userID :: (makeUserID <$> participants)) in
      match createdRoster roster participants with
      | None => Done (Some errInvalidMemberRoster)
      | Some actual =>
          if negb (size actual =? size expected)%nat then Done (Some errRosterIncomplete) else
          match rosterMatches roster expected false with
          | Some e => Done (Some e)
          | None =>
              step! mxid := act (fun w => (w, default "" (MXID <$> cached w !! key chatID))) in
              if negb (String.eqb mxid "") && negb (String.eqb mxid room) then Done (Some errFramework) else
              step! updated := UpdateMatrixRoomID (bd_update env) (key chatID) room in
              if negb updated then Done (Some errFramework) else
              step! saved := Save (bd_save env) (key chatID) in
              if negb saved then Done (Some errStore) else
              if negb (bd_verified env) then Done (Some errFramework) else
              step! err := saveMembershipCheckpoint (bd_checkpoint env) (key chatID) false roster in
              match err with
              | Some e => Done (Some e)
              | None =>
                  step! saved := Save (bd_final env) (key chatID) in
                  if negb saved then Done (Some errStore) else
                  step! row := portalByKey (bd_read env) (key chatID) in
                  match row with
                  | Some (Some p) => Done (if String.eqb (MXID p) room then None else Some errNotDurable)
                  | Some None => Done (Some errNotDurable)
                  | None => Done (Some errStore)
                  end
              end
          end
      end
  end.

(** ** A history import (group_history.go)

    The part of [BackfillGroup] in the access of the chat; its journal, its
    budget and the checks of its pages are not modelled, and an import that they
    end is one of fewer events. *)

(** [Bridge.GetPortalByMXID], of the portal with key [k]. *)
Definition GetPortalByMXID (ok : bool) (k : PortalKey) : action bool :=
  act (fun w =>
    if negb ok then (w, false) else
    match cached w !! k, rows w !! k with
    | Some _, _ => (w, true)
    | None, Some p => (setCached k p w, true)
    | None, None => (w, false)
    end).

(** One event that is delivered. *)
Record HistoryEvent := mkHistoryEvent {
  he_check : bool;
  he_sender : string; (* the sender of the message, or none *)
  he_pause : PauseEnv;
  he_converge : ConvergeEnv;
  he_snapshot : SnapshotEnv;
  he_delivered : bool;
}.

(** The roster to restore after the message of a former member. *)
Definition restoreRoster (sender : string) (chatID : Z) : action (res AccessError (option (list Z))) :=
  if String.eqb sender "" then Done (Ok None) else
  step! meta := act (fun w => (w, cached w !! key chatID ≫= Metadata)) in
  match parseUserID sender, meta with
  | Ok user, Some m =>
      if (length (MembershipRoster m) =? 0)%nat then Done (Err errMetadataUnavailable)
      else Done (Ok (if bool_decide (user ∈ MembershipRoster m) then None else Some (MembershipRoster m)))
  | _, _ => Done (Err errMetadataUnavailable)
  end.

Fixpoint deliverHistory (events : list HistoryEvent) (data : ChatData) (chatID : Z) : action (option AccessError) :=
  match events with
  | [] => Done None
  | e :: events =>
      step! err := checkSourceAccess (he_check e) chatID in
      match err with
      | Some err => Done (Some err)
      | None =>
          step! restore := restoreRoster (he_sender e) chatID in
          match restore with
          | Err err => Done (Some err)
          | Ok restore =>
              step! err := match restore with
                | Some roster =>
                    refreshGroupMembership (he_pause e) (he_converge e) (he_snapshot e) (Some data) roster chatID
                | None => Done None
                end in
              match err with
              | Some err => Done (Some err)
              | None => if he_delivered e then deliverHistory events data chatID else Done (Some errFramework)
              end
          end
      end
  end.

Record BackfillEnv := mkBackfillEnv {
  bf_portal : bool;
  bf_check : bool;
  bf_info : option ChatData;
  bf_pause : PauseEnv;
  bf_converge : ConvergeEnv;
  bf_snapshot : SnapshotEnv;
}.

Definition backfillAccess (env : BackfillEnv) (events : list HistoryEvent) (chatID : Z) : action (option AccessError) :=
  step! found := GetPortalByMXID (bf_portal env) (key chatID) in
  if negb found then Done (Some errFramework) else
  step! err := checkSourceAccess (bf_check env) chatID in
  match err, bf_info env with
  | Some err, _ => Done (Some err)
  | None, None => Done (Some errChatInfo)
  | None, Some data =>
      if negb (ChatID data =? chatID) || negb (String.eqb (ChatType data) "MultiChat") || negb (LinkID data =? 0)
      then Done (Some errChatInfo) else
      step! err := refreshGroupMembership (bf_pause env) (bf_converge env) (bf_snapshot env) (Some data) [] chatID in
      match err with
      | Some err => Done (Some err)
      | None => deliverHistory events data chatID
      end
  end.
End Access.
