(* ===== verification/SourceTheorems.v ===== *)
(** * Who may forward, and when

    Operations on source access, step by step in any interleaving, with any
    failure of the framework, the database, Matrix and the server, and restarts;
    and what one membership change achieves while nobody else runs.  The last
    section shows what an operation can do that began before a removal. *)

From S2P Require Import Prelude Identifiers SourceAccess.
From S2P Require Handling.

#[local] Open Scope string_scope.
#[local] Open Scope list_scope.
#[local] Open Scope Z_scope.

Section Facts.
Context (userID : Z) (login UserMXID : string).
Abbreviation key := (key login).
Implicit Types (w : World) (p : portal) (m : KakaoPortalMetadata).

(** The framework's cache agrees with its database between operations. *)
Definition synced w : Prop := forall k p, cached w !! k = Some p -> rows w !! k = Some p.

Definition metadataOf w (k : PortalKey) : option KakaoPortalMetadata := rows w !! k ≫= Metadata.

Lemma synced_restart w : synced (restart w).
Proof. intros k p. simpl. by rewrite lookup_empty. Qed.

(** What a step may do to the portals: only that of [k]. *)
Definition touches (k : PortalKey) w w' : Prop :=
  synced w' /\ forall k', k' <> k -> metadataOf w' k' = metadataOf w k'.

Lemma touches_refl k w : synced w -> touches k w w.
Proof. by split. Qed.


Lemma GetPortalByKey_spec ok k w w' found :
  synced w -> run (GetPortalByKey ok k) w = (w', found) ->
  found = ok /\ sourceBlocked w' = sourceBlocked w /\ touches k w w' /\
  (metadataOf w' k = metadataOf w k \/ rows w !! k = None /\ metadataOf w' k = Some noMetadata) /\
  (found = true -> is_Some (cached w' !! k)).
Proof.
  intros Hs. unfold GetPortalByKey. simpl. destruct ok; simpl; [|intros [= <- <-]; by split_and!; auto].
  destruct (cached w !! k) as [p|] eqn:Ec; [intros [= <- <-]; simpl; split_and!; auto; by apply touches_refl|].
  destruct (rows w !! k) as [p|] eqn:Er; intros [= <- <-]; simpl; rewrite lookup_insert_eq; split_and!; eauto.
  - split; [|done]. intros k' p'. simpl. destruct (decide (k' = k)) as [->|];
      [rewrite lookup_insert_eq|rewrite lookup_insert_ne by done; apply Hs]. congruence.
  - split.
    + intros k' p'. simpl. destruct (decide (k' = k)) as [->|];
        [by rewrite !lookup_insert_eq|rewrite !lookup_insert_ne by done; apply Hs].
    + intros k' Hk. unfold metadataOf. simpl. by rewrite lookup_insert_ne.
  - right. split; [done|]. unfold metadataOf. simpl. by rewrite lookup_insert_eq.
Qed.

(** A save leaves the metadata as they were or as [mutate] makes them; success
    means the latter. *)
Lemma savePortalMeta_spec env k mutate verify w w' err :
  synced w -> run (savePortalMeta env k mutate verify) w = (w', err) ->
  sourceBlocked w' = sourceBlocked w /\ touches k w w' /\
  (metadataOf w' k = metadataOf w k /\ err <> None \/
   exists m, metadataOf w k = Some m /\ metadataOf w' k = Some (mutate m)).
Proof.
  intros Hs E. unfold savePortalMeta in E. rewrite run_andThen in E. simpl in E.
  destruct (cached w !! k) as [p|] eqn:Ec.
  2: { injection E as <- <-. split_and!; [done|by apply touches_refl|by left]. }
  destruct (Metadata p) as [m|] eqn:Em.
  2: { injection E as <- <-. split_and!; [done|by apply touches_refl|by left]. }
  assert (Hm : metadataOf w k = Some m) by (unfold metadataOf; rewrite (Hs _ _ Ec); done).
  simpl in E. rewrite lookup_insert_eq in E. set (p' := setMetadata (Some (mutate m)) p) in *.
  destruct (sv_save env); simpl in E.
  - set (w2 := setRow k p' _) in E.
    assert (Hw2 : sourceBlocked w2 = sourceBlocked w /\ touches k w w2 /\ metadataOf w2 k = Some (mutate m)).
    { split_and!; [done| |by unfold metadataOf; simpl; rewrite lookup_insert_eq]. split.
      - intros k' q. simpl. destruct (decide (k' = k)) as [->|];
          [by rewrite !lookup_insert_eq|rewrite !lookup_insert_ne by done; apply Hs].
      - intros k' Hk. unfold metadataOf. simpl. by rewrite lookup_insert_ne. }
    assert (Hend : w' = w2).
    { destruct (sv_read env); simpl in E; [|by injection E]. rewrite lookup_insert_eq in E.
      simpl in E. by injection E. }
    subst w'. destruct Hw2 as (? & ? & ?). split_and!; [done|done|]. right. eauto.
  - injection E as <- <-. split_and!; [done| |left; split; [done|done]].
    split; [|done]. intros k' q. simpl. destruct (decide (k' = k)) as [->|].
    + rewrite lookup_insert_eq. intros Hq. rewrite (Hs _ _ Ec). rewrite <- Hq. f_equal. clear -Em. subst p'.
      destruct p as [a b c]. simpl in Em. by subst c.
    + rewrite !lookup_insert_ne by done. apply Hs.
Qed.

(** ** Revoked chats *)

Definition any {A} (_ : A) : Prop := True.

(** Access to the chat of [k] is recorded as lost. *)
Definition revoked k w : Prop :=
  synced w /\ exists m, metadataOf w k = Some m /\ SourceRemoved m = true.

(** And both the row and the cached portal say so. *)
Definition gone (p : portal) : Prop := exists m, Metadata p = Some m /\ SourceRemoved m = true.
Definition lost k w : Prop :=
  (exists p, rows w !! k = Some p /\ gone p) /\ forall p, cached w !! k = Some p -> gone p.

Lemma revoked_lost k w : revoked k w -> lost k w.
Proof.
  intros [Hs (m & Hm & Hr)]. unfold metadataOf in Hm. destruct (rows w !! k) as [p|] eqn:Ep; [|done].
  assert (Hp : gone p) by by exists m. split; [eauto|]. intros q Hq. apply Hs in Hq. by simplify_eq.
Qed.

(** The steps that change portals. *)
Lemma lost_blocked k b w : lost k w -> lost k (setBlocked b w).
Proof. done. Qed.

Lemma lost_cached k k' p w : (k' = k -> gone p) -> lost k w -> lost k (setCached k' p w).
Proof.
  intros Hp [Hr Hc]. split; [done|]. intros q. simpl.
  intros [[-> <-]|[_ Hq]]%lookup_insert_Some; [by apply Hp|by apply Hc].
Qed.

Lemma lost_row k k' p w : (k' = k -> gone p) -> lost k w -> lost k (setRow k' p w).
Proof.
  intros Hp [(q & Hq & Hg) Hc]. split; [|done]. simpl. destruct (decide (k' = k)) as [->|Hne].
  - exists p. rewrite lookup_insert_eq. auto.
  - exists q. by rewrite lookup_insert_ne.
Qed.

Lemma keeps_blocked {A} k (g : World -> gmap Z Handling.SourceBlock) (a : World -> A) :
  keeps (lost k) (act (fun w => (setBlocked (g w) w, a w))) any.
Proof. apply keeps_act. by intros w. Qed.

Lemma keeps_portalByKey k k' ok :
  keeps (lost k) (portalByKey ok k') (fun row => k' = k -> forall row', row = Some row' -> exists p, row' = Some p /\ gone p).
Proof.
  apply keeps_act. intros w Hw. simpl. split; [done|]. intros -> row'. destruct ok; [|done]. intros [= <-]. apply Hw.
Qed.

Lemma keeps_GetPortalByKey k k' ok : keeps (lost k) (GetPortalByKey ok k') any.
Proof.
  apply keeps_act. intros w Hw. split; [|done]. destruct ok; [|done]. simpl.
  destruct (cached w !! k'); [done|]. destruct (rows w !! k') as [p|] eqn:Er; simpl.
  - apply lost_cached; [|done]. intros ->. destruct Hw as [(q & Hq & Hg) _]. by simplify_eq.
  - assert (Hk : k' <> k) by (intros ->; destruct Hw as [(q & Hq & _) _]; congruence).
    by apply lost_row, lost_cached.
Qed.

Lemma gone_set m p : SourceRemoved m = true -> gone (setMetadata (Some m) p).
Proof. intros Hm. by exists m. Qed.

Lemma keeps_save k k' env mutate verify :
  (k' = k -> forall m, SourceRemoved m = true -> SourceRemoved (mutate m) = true) ->
  keeps (lost k) (savePortalMeta env k' mutate verify) any.
Proof.
  intros Hmu. unfold savePortalMeta.
  eapply (keeps_then _ _ _ (fun old => k' = k -> forall m, old = Some m -> SourceRemoved m = true)).
  { apply keeps_act. intros w Hw. destruct (cached w !! k') as [p|] eqn:Ec; [|done].
    destruct (Metadata p) as [m|] eqn:Em; [|done].
    assert (Hm : k' = k -> SourceRemoved m = true).
    { intros ->. destruct (proj2 Hw _ Ec) as (m' & Em' & Hr). by simplify_eq. }
    simpl. split; [|intros Hk m' [= <-]; by apply Hm]. apply lost_cached; [|done]. intros Hk. by apply gone_set, Hmu, Hm. }
  intros [m|] Hm; [|by apply keeps_done]. eapply (keeps_then _ _ _ any).
  { apply keeps_act. intros w Hw. split; [|done]. destruct (cached w !! k') as [p|] eqn:Ec; [|done].
    destruct (sv_save env); simpl.
    - apply lost_row; [|done]. intros ->. by apply (proj2 Hw).
    - apply lost_cached; [|done]. intros Hk. by apply gone_set, Hm. }
  intros saved _. destruct saved; cbn [negb]; [|by apply keeps_done].
  eapply keeps_then; [apply keeps_portalByKey|]. intros [[p|]|] _; try by apply keeps_done.
  destruct (Metadata p); by apply keeps_done.
Qed.

Lemma keeps_recordSourceRemoval k env chatID :
  keeps (lost k) (recordSourceRemoval login env chatID) any.
Proof.
  unfold recordSourceRemoval, block. eapply keeps_then; [apply keeps_blocked|]. intros _ _.
  eapply keeps_then; [apply keeps_GetPortalByKey|]. intros found _.
  destruct found; cbn [negb]; [|by apply keeps_done]. by apply keeps_save.
Qed.

Lemma keeps_pause k env chatID : keeps (lost k) (pauseGroupMembership login env chatID) any.
Proof.
  unfold pauseGroupMembership, block. eapply keeps_then; [apply keeps_GetPortalByKey|]. intros found _.
  destruct found; cbn [negb]; [|by apply keeps_done]. eapply keeps_then; [apply keeps_blocked|]. intros _ _.
  by apply keeps_save.
Qed.

Lemma key_parsed chatID n : parseChatID (PortalID (key chatID)) = Ok n -> n = chatID.
Proof. intros E. apply parseID_canonical in E as [E _]. symmetry. by apply FormatInt_inj. Qed.

Lemma key_inj a b : key a = key b -> a = b.
Proof. intros [= E]. by apply FormatInt_inj. Qed.

Lemma expectedUsers_spec roster acc expected :
  expectedUsers roster acc = Some expected ->
  NoDup roster /\ Forall (fun u => 0 < u) roster /\ (forall u, u ∈ roster -> makeUserID u ∉ acc) /\
  expected = acc ∪ list_to_set (makeUserID <$> roster).
Proof.
  revert acc. induction roster as [|u roster IH]; intros acc; cbn [expectedUsers].
  { intros [= <-]. split_and!; [apply NoDup_nil_2|by apply Forall_nil| |cbn; by rewrite union_empty_r_L].
    intros u Hu. by apply elem_of_nil in Hu. }
  destruct (u <=? 0) eqn:Hu; [done|]. cbn [orb]. case_bool_decide as Hin; [done|].
  intros (Hn & Hp & Hd & ->)%IH. clear IH. split_and!; [|apply Forall_cons; split; [lia|done]| |].
  - apply NoDup_cons. split; [|done]. intros Hu'. apply (Hd u Hu'), elem_of_union_l, elem_of_singleton_2. done.
  - intros v [->|Hv]%elem_of_cons; [done|]. intros Hacc. by apply (Hd v Hv), elem_of_union_r.
  - cbn. by rewrite (union_comm_L {[makeUserID u]} acc), <- union_assoc_L.
Qed.

Lemma expectedUsers_total roster :
  NoDup roster -> Forall (fun u => 0 < u) roster -> is_Some (expectedUsers roster ∅).
Proof.
  assert (H : forall acc, NoDup roster -> Forall (fun u => 0 < u) roster ->
    (forall u, u ∈ roster -> makeUserID u ∉ acc) -> is_Some (expectedUsers roster acc)).
  { induction roster as [|u roster IH]; intros acc Hn Hp Hd; cbn [expectedUsers]; [by eexists|].
    apply NoDup_cons in Hn as [Hu Hn]. apply Forall_cons in Hp as [Hu0 Hp].
    rewrite (proj2 (Z.leb_gt _ _) Hu0), bool_decide_eq_false_2 by (apply Hd, list_elem_of_here).
    apply IH; [done|done|]. intros v Hv [->%elem_of_singleton%FormatInt_inj|Hacc]%elem_of_union; [done|].
    by apply (Hd v (list_elem_of_further _ _ _ Hv)). }
  intros Hn Hp. apply H; [done|done|]. intros u _. apply not_elem_of_empty.
Qed.

Lemma expectedUsers_member roster expected u :
  expectedUsers roster ∅ = Some expected -> makeUserID u ∈ expected <-> u ∈ roster.
Proof.
  intros (_ & _ & _ & ->)%expectedUsers_spec. rewrite union_empty_l_L, elem_of_list_to_set, list_elem_of_fmap.
  split; [intros (v & E & Hv); by apply FormatInt_inj in E as ->|eauto].
Qed.

Lemma keeps_converge k env chatID roster :
  (key chatID = k -> userID ∉ roster) ->
  keeps (lost k) (convergeGroupMembership userID login UserMXID env chatID roster) any.
Proof.
  intros Hout. unfold convergeGroupMembership.
  destruct (parseChatID _) as [n|] eqn:En; [|by apply keeps_done]. apply key_parsed in En as ->.
  destruct (expectedUsers roster ∅) as [expected|] eqn:Ee; [|by apply keeps_done].
  case_bool_decide as Hself; cbn [negb].
  2: { eapply keeps_then; [apply keeps_recordSourceRemoval|]. intros [e|] _; by apply keeps_done. }
  assert (Hk : key chatID <> k).
  { intros <-. apply (Hout eq_refl). by apply (expectedUsers_member _ _ userID) in Ee as [Hm _]; auto. }
  destruct (rosterMatches _ _ _ _); [by apply keeps_done|].
  eapply keeps_then; [by apply keeps_save|]. intros [e|] _; [by apply keeps_done|].
  destruct (cv_queued env); cbn [negb]; [|by apply keeps_done].
  eapply keeps_then with (P := any).
  { apply keeps_act. intros w Hw. split; [|done]. simpl.
    destruct (cv_room env) as [r|], (cached w !! key chatID) as [p|]; try done. by apply lost_row, lost_cached. }
  intros [] _. eapply keeps_then; [apply keeps_GetPortalByKey|]. intros [] _; cbn [negb]; [|by apply keeps_done].
  eapply keeps_then with (P := any); [by apply keeps_act|]. intros room _.
  destruct (String.eqb room ""); [by apply keeps_done|].
  destruct (cv_members env); [|by apply keeps_done].
  destruct (verifyMembers _ _ _ _ _); [by apply keeps_done|].
  eapply keeps_then; [by apply keeps_save|]. intros [e|] _; [by apply keeps_done|].
  eapply keeps_then; [apply keeps_blocked|]. intros [] _. by apply keeps_done.
Qed.

(** A snapshot's roster is the stored one or the server's. *)
Lemma fetchChatSnapshot_roster senv regular inventory stored chatID roster :
  fetchChatSnapshot login senv regular inventory stored chatID = Ok roster ->
  stored <> [] /\ roster = stored \/ stored = [] /\ sn_members senv = Some roster.
Proof.
  unfold fetchChatSnapshot. destruct (parseChatID _); [|done]. destruct (match inventory with Some _ => _ | None => _ end); [|done].
  repeat (case_match; try done). all: intros [= <-]; destruct stored; simplify_eq/=; auto.
Qed.

Lemma keeps_refresh k penv cenv senv inventory stored chatID :
  (key chatID = k -> stored = []) ->
  (key chatID = k -> forall roster, sn_members senv = Some roster -> userID ∉ roster) ->
  keeps (lost k) (refreshGroupMembership userID login UserMXID penv cenv senv inventory stored chatID) any.
Proof.
  intros Hst Hout. unfold refreshGroupMembership. eapply keeps_then; [apply keeps_pause|].
  intros [e|] _; [by apply keeps_done|].
  destruct (fetchChatSnapshot _ _ _ _ _ _) as [roster|] eqn:Ef; [|by apply keeps_done].
  apply keeps_converge. intros Hk. apply fetchChatSnapshot_roster in Ef as [[H _]|[_ H]].
  - by destruct H; apply Hst.
  - by apply Hout.
Qed.

(** A feed says nothing about a revoked chat. *)
Lemma keeps_verifiedRoster k chatID ok :
  keeps (lost k) (verifiedRoster login ok chatID) (fun stored => key chatID = k -> stored = []).
Proof.
  unfold verifiedRoster. eapply keeps_then; [apply keeps_portalByKey|].
  intros [[p|]|] Hrow; [|by apply keeps_done..].
  destruct (String.eqb (MXID p) ""); [by apply keeps_done|].
  destruct (Metadata p) as [m|] eqn:Em; [|by apply keeps_done].
  destruct (_ || _ || _) eqn:Eb; apply keeps_done; [done|]. intros Hk.
  destruct (Hrow Hk _ eq_refl) as (q & [= <-] & m' & Em' & Hr). rewrite Em in Em'. injection Em' as <-.
  rewrite Hr, orb_true_r in Eb. done.
Qed.

Lemma keeps_change k env chatID feed :
  (key chatID = k -> forall roster, sn_members (ch_snapshot env) = Some roster -> userID ∉ roster) ->
  keeps (lost k) (managedMembershipChange userID login UserMXID env chatID feed) any.
Proof.
  intros Hout. unfold managedMembershipChange. eapply keeps_then; [apply keeps_portalByKey|].
  intros [row|] _; [|by apply keeps_done].
  destruct (match row with Some p => _ | None => _ end); [by apply keeps_done|].
  eapply (keeps_then _ _ _ (fun roster => key chatID = k -> roster = None)).
  { destruct feed as [feed|]; [|by apply keeps_done]. unfold feedRoster.
    eapply keeps_then; [apply keeps_verifiedRoster|]. intros stored Hst. apply keeps_done.
    intros Hk. by rewrite (Hst Hk). }
  intros roster Hr. eapply (keeps_then _ _ _ any); [|intros err _; by apply keeps_done].
  destruct roster as [roster|]; [|by apply keeps_refresh].
  unfold applyMembershipFeed. eapply keeps_then; [apply keeps_pause|].
  intros [e|] _; [by apply keeps_done|]. apply keeps_converge. intros Hk. by specialize (Hr Hk).
Qed.

Lemma keeps_verifyLeave k env chatID : keeps (lost k) (verifySourceLeave login UserMXID env chatID) any.
Proof.
  unfold verifySourceLeave. eapply keeps_then; [apply keeps_portalByKey|]. intros [[p|]|] _; try by apply keeps_done.
  apply keeps_if; intros _; [by apply keeps_done|]. destruct (rv_ghost env), (rv_members env); by apply keeps_done.
Qed.

Lemma keeps_leave k env after sent chatID :
  keeps (lost k) (applySourceLeave login UserMXID env after sent chatID) any.
Proof.
  unfold applySourceLeave. eapply keeps_then; [apply keeps_portalByKey|]. intros [[p|]|] _; try by apply keeps_done.
  apply keeps_if; intros _; [by apply keeps_done|].
  destruct (rv_ghost env), (rv_members env); try by apply keeps_done.
  eapply keeps_then; [apply keeps_verifyLeave|]. intros err _. by apply keeps_done.
Qed.

Lemma keeps_reconcile k env seen portals :
  keeps (lost k) (reconcilePortals login UserMXID env seen portals) any.
Proof.
  induction portals as [|[k' p] portals IH]; cbn [reconcilePortals]; [by apply keeps_done|].
  apply keeps_if; intros _; [done|]. apply keeps_if; intros _; [done|].
  destruct (parseChatID (PortalID k')) as [chatID|]; [|by apply keeps_done].
  apply keeps_if; intros _; [done|].
  eapply keeps_then; [apply keeps_recordSourceRemoval|]. intros [e|] _; [by apply keeps_done|].
  eapply keeps_then; [apply keeps_leave|]. intros [? [e|]] _; [by apply keeps_done|done].
Qed.

Lemma keeps_refreshGroups k env groups :
  (forall chatID roster, chatID ∈ ChatID <$> groups -> key chatID = k ->
     sn_members (ch_snapshot (env chatID)) = Some roster -> userID ∉ roster) ->
  keeps (lost k) (refreshGroups userID login UserMXID env groups) any.
Proof.
  induction groups as [|data groups IH]; intros Hout; cbn [refreshGroups]; [by apply keeps_done|].
  eapply keeps_then; [apply keeps_verifiedRoster|]. intros stored Hst.
  eapply keeps_then; [apply keeps_refresh; [done|intros Hk roster; apply Hout; [apply list_elem_of_here|done]]|].
  intros [e|] _; [by apply keeps_done|]. apply IH. intros c roster Hc. by apply Hout, list_elem_of_further.
Qed.

Lemma regularGroups_listed chats seen groups :
  regularGroups chats seen = Some groups -> forall data, data ∈ groups -> data ∈ chats.
Proof.
  revert seen groups. induction chats as [|chat chats IH]; intros seen groups; cbn [regularGroups]; [by intros [= <-]|].
  assert (Hlater : forall seen', regularGroups chats seen' = Some groups ->
    forall data, data ∈ groups -> data ∈ chat :: chats) by (intros; apply list_elem_of_further; by eapply IH).
  destruct (_ || _); [apply Hlater|]. destruct (_ <=? _); [done|]. case_bool_decide; [apply Hlater|].
  destruct (regularGroups chats _) as [ordered|] eqn:E; [|done]. intros [= <-].
  intros data [->|Hd]%elem_of_cons; [apply list_elem_of_here|apply list_elem_of_further; by eapply IH].
Qed.

Lemma keeps_discover k chats read_ok order missing env :
  (forall listed chatID roster, chats = Some listed -> chatID ∈ ChatID <$> listed -> key chatID = k ->
     sn_members (ch_snapshot (env chatID)) = Some roster -> userID ∉ roster) ->
  keeps (lost k) (discoverGroups userID login UserMXID chats read_ok order missing env) any.
Proof.
  intros Hout. unfold discoverGroups, reconcileMissingGroups.
  destruct chats as [listed|]; [|by apply keeps_done].
  destruct (regularGroups listed ∅) as [groups|] eqn:Eg; [|by apply keeps_done].
  eapply (keeps_then _ _ _ any).
  - eapply (keeps_then _ _ _ any); [by apply keeps_act|].
    intros [ps|] _; [apply keeps_reconcile|by apply keeps_done].
  - intros [e|] _; [by apply keeps_done|]. apply keeps_refreshGroups. intros c roster Hc.
    apply (Hout listed); [done|]. apply list_elem_of_fmap in Hc as (data & -> & Hd).
    apply list_elem_of_fmap_2. by eapply regularGroups_listed.
Qed.

(** The check of a lost chat refuses it, at whatever time it makes its steps. *)
Lemma keeps_check k chatID ok :
  keeps (lost k) (checkSourceAccess login ok chatID) (fun err => key chatID = k -> err <> None).
Proof.
  unfold checkSourceAccess. eapply (keeps_then _ _ _ any); [by apply keeps_act|].
  intros [b|] _; [by apply keeps_done|]. eapply keeps_then; [apply keeps_portalByKey|].
  intros [[p|]|] Hrow; [|apply keeps_done; intros Hk; by destruct (Hrow Hk _ eq_refl) as (? & ? & _)|by apply keeps_done].
  destruct (Metadata p) as [m|] eqn:Em; [|by apply keeps_done].
  assert (Hm : key chatID = k -> SourceRemoved m = true).
  { intros Hk. destruct (Hrow Hk _ eq_refl) as (q & [= <-] & m' & Em' & Hr). congruence. }
  destruct (SourceRemoved m); [by apply keeps_done|]. destruct (MembershipPending m); apply keeps_done; [done|].
  intros Hk. by specialize (Hm Hk).
Qed.

Lemma distinctMembers_member allowed roster actual members u :
  distinctMembers allowed roster actual = Some members -> u ∈ members -> u ∈ roster \/ u ∈ actual.
Proof.
  revert actual. induction roster as [|v roster IH]; intros actual; cbn [distinctMembers]; [intros [= <-]; by right|].
  destruct (_ || _); [done|]. intros E Hu. apply (IH _ E) in Hu as [Hu|Hu]; [left; by right|].
  apply elem_of_union in Hu as [->%elem_of_singleton|Hu]; [left; by left|by right].
Qed.

Lemma keeps_bound k env chatID room participants created :
  (key chatID = k -> forall roster,
     (exists data, created = Some (data, roster)) \/ sn_members (bd_snapshot env) = Some roster -> userID ∉ roster) ->
  keeps (lost k) (bindAccess userID login env chatID room participants created) any.
Proof.
  intros Hout. unfold bindAccess. apply keeps_if; intros _; [by apply keeps_done|].
  eapply keeps_then; [apply keeps_GetPortalByKey|]. intros found _. apply keeps_if; intros _; [by apply keeps_done|].
  destruct (fetchChatSnapshot _ _ _ _ _ _) as [roster|] eqn:Ef; [|by apply keeps_done].
  destruct (createdRoster userID roster participants) as [actual|] eqn:Ec; [|by apply keeps_done].
  apply keeps_if; intros _; [by apply keeps_done|]. destruct (rosterMatches _ _ _ _); [by apply keeps_done|].
  assert (Hk : key chatID <> k).
  { intros Hk. unfold createdRoster in Ec. destruct (distinctMembers _ _ _) as [members|] eqn:Ed; [|done].
    case_bool_decide as Hself; [|done]. apply (distinctMembers_member _ _ _ _ _ Ed) in Hself as [Hself|Hself]; [|by apply elem_of_empty in Hself].
    apply fetchChatSnapshot_roster in Ef as [[_ ->]|[_ Hm]]; [|by apply (Hout Hk roster); [right|]].
    destruct created as [[data ids]|]; [|by apply elem_of_nil in Hself]. rewrite merge_sort_Permutation in Hself.
    apply (Hout Hk ids); [left; by exists data|done]. }
  assert (Hsave : forall ok, keeps (lost k) (Save ok (key chatID)) any).
  { intros ok. apply keeps_act. intros w Hw. split; [|done]. destruct (cached w !! key chatID), ok; try done. by apply lost_row. }
  eapply (keeps_then _ _ _ any); [by apply keeps_act|]. intros mxid _. apply keeps_if; intros _; [by apply keeps_done|].
  eapply (keeps_then _ _ _ any).
  { apply keeps_act. intros w Hw. split; [|done]. destruct (cached w !! key chatID) as [p|], (bd_update env) as [[|]|]; try done;
      [apply lost_row; [done|]|]; by apply lost_cached. }
  intros updated _. apply keeps_if; intros _; [by apply keeps_done|]. eapply keeps_then; [apply Hsave|]. intros saved _.
  apply keeps_if; intros _; [by apply keeps_done|]. apply keeps_if; intros _; [by apply keeps_done|].
  eapply keeps_then; [by apply keeps_save|]. intros [e|] _; [by apply keeps_done|].
  eapply keeps_then; [apply Hsave|]. intros saved' _. apply keeps_if; intros _; [by apply keeps_done|].
  eapply keeps_then; [apply keeps_portalByKey|]. intros [[p|]|] _; by apply keeps_done.
Qed.

(** An import of a lost chat ends with its first check. *)
Lemma keeps_history k events data chatID :
  keeps (lost k) (deliverHistory userID login UserMXID events data chatID) any.
Proof.
  induction events as [|e events IH]; cbn [deliverHistory]; [by apply keeps_done|].
  eapply keeps_then; [apply keeps_check|]. intros [err|] Hk; [by apply keeps_done|].
  assert (Hne : key chatID <> k) by (intros E; by apply Hk in E).
  eapply (keeps_then _ _ _ any).
  { unfold restoreRoster. apply keeps_if; intros _; [by apply keeps_done|].
    eapply (keeps_then _ _ _ any); [by apply keeps_act|]. intros meta _.
    destruct (parseUserID _), meta as [m|]; try by apply keeps_done. apply keeps_if; intros _; by apply keeps_done. }
  intros [restore|err] _; [|by apply keeps_done]. eapply (keeps_then _ _ _ any).
  { destruct restore as [roster|]; [by apply keeps_refresh|by apply keeps_done]. }
  intros [err|] _; [by apply keeps_done|]. apply keeps_if; intros _; [done|by apply keeps_done].
Qed.

Lemma keeps_backfill k env events chatID :
  keeps (lost k) (backfillAccess userID login UserMXID env events chatID) any.
Proof.
  unfold backfillAccess. eapply (keeps_then _ _ _ any).
  { apply keeps_act. intros w Hw. split; [|done]. destruct (bf_portal env); [|done]. simpl.
    destruct (cached w !! key chatID); [done|]. destruct (rows w !! key chatID) as [p|] eqn:Er; [|done]. simpl.
    apply lost_cached; [|done]. intros Hk. rewrite Hk in Er. destruct Hw as [(q & Hq & Hg) _]. by simplify_eq. }
  intros found _. apply keeps_if; intros _; [by apply keeps_done|]. eapply keeps_then; [apply keeps_check|].
  intros [err|] Hk; [by apply keeps_done|]. destruct (bf_info env) as [data|]; [|by apply keeps_done].
  assert (Hne : key chatID <> k) by (intros E; by apply Hk in E).
  apply keeps_if; intros _; [by apply keeps_done|]. eapply keeps_then; [by apply keeps_refresh|].
  intros [err|] _; [by apply keeps_done|apply keeps_history].
Qed.

(** ** Operations *)

(** Everything that reads or changes access to chats: the removal of the account
    (recordSourceRemoval and the leaves after it), the pause and the change or
    refresh of a membership (managedMembershipChange, in groupGate or, of
    applyMetadataRefresh, not), discovery at connect, the binding of a created
    group, a history import, and the check before anything is forwarded. *)
Inductive op :=
| OpRemoval (env : RemovalEnv) (chatID : Z)
| OpLeave (env after : RoomEnv) (sent : string -> bool) (chatID : Z)
| OpPause (env : PauseEnv) (chatID : Z)
| OpChange (env : ChangeEnv) (chatID : Z) (feed : option Handling.membershipFeed)
| OpDiscover (chats : option (list ChatData)) (read_ok : bool)
    (order : list (PortalKey * portal) -> list (PortalKey * portal))
    (missing : Z -> MissingEnv) (env : Z -> ChangeEnv)
| OpBind (env : BindEnv) (chatID : Z) (room : string) (participants : list Z) (created : option (ChatData * list Z))
| OpBackfill (env : BackfillEnv) (events : list HistoryEvent) (chatID : Z)
| OpCheck (ok : bool) (chatID : Z).

(** What it does, and the chat it found open, if it is a check that did. *)
Definition perform (o : op) : prog World (option Z) :=
  let quiet {A} (p : prog World A) := andThen p (fun _ => Done None) in
  match o with
  | OpRemoval env chatID => quiet (recordSourceRemoval login env chatID)
  | OpLeave env after sent chatID => quiet (applySourceLeave login UserMXID env after sent chatID)
  | OpPause env chatID => quiet (pauseGroupMembership login env chatID)
  | OpChange env chatID feed => quiet (managedMembershipChange userID login UserMXID env chatID feed)
  | OpDiscover chats read_ok order missing env =>
      quiet (discoverGroups userID login UserMXID chats read_ok order missing env)
  | OpBind env chatID room participants created =>
      quiet (bindAccess userID login env chatID room participants created)
  | OpBackfill env events chatID => quiet (backfillAccess userID login UserMXID env events chatID)
  | OpCheck ok chatID =>
      andThen (checkSourceAccess login ok chatID) (fun err => Done (match err with None => Some chatID | Some _ => None end))
  end.

(** Operations begin at any time, make their steps in any order, and end with
    the process. *)
Inductive event := Begin (o : op) | Next (i : nat) | Restart.

Definition happen (s : World * list (prog World (option Z))) (e : event) : World * list (prog World (option Z)) :=
  let '(w, running) := s in
  match e with
  | Begin o => (w, running ++ [perform o])
  | Next i =>
      match running !! i with
      | Some p => let '(w, p) := advance p w in (w, <[i := p]> running)
      | None => s
      end
  | Restart => (restart w, [])
  end.

(** The server answers for the chat with the account in its roster: [MemberList],
    or the reply of the CREATE that made the chat. *)
Definition readmits (chatID : Z) (o : op) : Prop :=
  match o with
  | OpChange env c _ => c = chatID /\ exists roster, sn_members (ch_snapshot env) = Some roster /\ userID ∈ roster
  | OpDiscover (Some chats) _ _ _ env =>
      chatID ∈ ChatID <$> chats /\
      exists roster, sn_members (ch_snapshot (env chatID)) = Some roster /\ userID ∈ roster
  | OpBind env c _ _ created =>
      c = chatID /\ exists roster,
        ((exists data, created = Some (data, roster)) \/ sn_members (bd_snapshot env) = Some roster) /\ userID ∈ roster
  | _ => False
  end.

Lemma perform_lost chatID o :
  ~ readmits chatID o -> keeps (lost (key chatID)) (perform o) (fun found => found <> Some chatID).
Proof.
  intros Ho.
  assert (Hq : forall A (p : prog World A), keeps (lost (key chatID)) p any ->
    keeps (lost (key chatID)) (andThen p (fun _ => Done None)) (fun found : option Z => found <> Some chatID)).
  { intros A p Hp. eapply keeps_then; [exact Hp|]. intros a _. by apply keeps_done. }
  destruct o; cbn [perform]; try apply Hq.
  - apply keeps_recordSourceRemoval.
  - apply keeps_leave.
  - apply keeps_pause.
  - apply keeps_change. intros ->%key_inj roster Hr Hin. apply Ho. split; [done|by exists roster].
  - apply keeps_discover. intros listed c roster -> Hc ->%key_inj Hr Hin. apply Ho. split; [done|by exists roster].
  - apply keeps_bound. intros ->%key_inj roster Hr Hin. apply Ho. split; [done|by exists roster].
  - apply keeps_backfill.
  - eapply keeps_then; [apply keeps_check|]. intros err Herr. apply keeps_done. destruct err; [done|].
    intros [= ->]. by apply Herr.
Qed.

(** What holds at every time after the removal was recorded. *)
Definition shut (chatID : Z) (s : World * list (prog World (option Z))) : Prop :=
  lost (key chatID) (fst s) /\ Forall (fun q : prog World (option Z) => keeps (lost (key chatID)) q (fun found => found <> Some chatID)) (snd s).

Lemma happen_shut chatID s e :
  match e with Begin o => ~ readmits chatID o | _ => True end -> shut chatID s -> shut chatID (happen s e).
Proof.
  intros He [Hw Hps]. destruct s as [w running]. destruct e as [o|i|]; simpl in *.
  - split; [done|]. apply Forall_app. split; [done|]. apply Forall_singleton. by apply perform_lost.
  - destruct (running !! i) as [p|] eqn:Ei; [|by split]. pose proof (proj1 (Forall_lookup _ _) Hps _ _ Ei) as Hp.
    destruct p as [a|next rest]; cbn [advance].
    + split; [done|]. by apply Forall_insert.
    + simpl in Hp. destruct (Hp w Hw) as [Hi Hr]. split; [done|]. by apply Forall_insert.
  - split; [|done]. split; [apply Hw|]. intros p. simpl. by rewrite lookup_empty.
Qed.

Lemma recorded_revoked env chatID w :
  synced w -> snd (run (recordSourceRemoval login env chatID) w) = None ->
  revoked (key chatID) (fst (run (recordSourceRemoval login env chatID) w)).
Proof.
  intros Hs. unfold recordSourceRemoval, block. rewrite run_act. cbn [fst snd]. rewrite run_andThen.
  set (w1 := setBlocked _ w). assert (Hs1 : synced w1) by done.
  destruct (run (GetPortalByKey _ _) w1) as [w2 found] eqn:E2.
  destruct (GetPortalByKey_spec _ _ _ _ _ Hs1 E2) as (_ & _ & [Hs2 _] & _).
  destruct found; [|done]. cbn [negb]. destruct (run (savePortalMeta _ _ _ _) w2) as [w3 err] eqn:E3.
  destruct (savePortalMeta_spec _ _ _ _ _ _ _ Hs2 E3) as (_ & [Hs3 _] & [[_ He]|(m & _ & Hm)]); simpl; intros ->; [done|].
  split; [done|]. eauto.
Qed.

(** C15: a chat whose loss of access was recorded stays closed.  Whatever
    operations begin after the record, on any chats, however their steps interleave, with
    whatever failures of the database, the framework, Matrix and the server, and
    with restarts anywhere: no check of the chat that began after the record
    finds it open, and none would at the end, until the server itself answers with a roster that contains the
    account.  A membership feed, a history import or a stored roster never
    reopens it.  An operation that was still running when the removal was
    recorded is not covered: outside [groupGate] it can reopen the chat
    ([ungated_refresh_reopens]). *)
Theorem revoked_until_source_says env chatID w events ok :
  synced w ->
  snd (run (recordSourceRemoval login env chatID) w) = None ->
  Forall (fun e => match e with Begin o => ~ readmits chatID o | _ => True end) events ->
  let '(w', running) := foldl happen (fst (run (recordSourceRemoval login env chatID) w), []) events in
  (forall i, running !! i <> Some (Done (Some chatID))) /\
  snd (run (checkSourceAccess login ok chatID) w') <> None.
Proof.
  intros Hs Hn Hev. apply recorded_revoked, revoked_lost in Hn; [|done].
  assert (H : shut chatID (foldl happen (fst (run (recordSourceRemoval login env chatID) w), []) events)).
  { assert (H0 : shut chatID (fst (run (recordSourceRemoval login env chatID) w), [])) by (split; [done|constructor]).
    revert H0. generalize (fst (run (recordSourceRemoval login env chatID) w), @nil (prog World (option Z))).
    induction Hev as [|e events He _ IH]; intros s Hw'; [done|]. cbn. apply IH. by apply happen_shut. }
  destruct (foldl happen _ events) as [w' running]. destruct H as [Hw Hp]. cbn [fst snd] in *. split.
  - intros i Hi. by apply (proj1 (Forall_lookup _ _) Hp _ _ Hi).
  - by apply (keeps_run _ _ _ w' (keeps_check (key chatID) chatID ok)).
Qed.

(** ** What a membership change achieves *)






























(** ** Membership feeds *)

Lemma addInvitees_spec invitees stored roster :
  Forall (fun u => 0 < u) stored -> NoDup stored -> addInvitees userID invitees stored = Some roster ->
  NoDup roster /\ Forall (fun u => 0 < u) roster /\ forall u, u ∈ roster <-> u ∈ stored \/ u ∈ invitees.
Proof.
  revert stored. induction invitees as [|v invitees IH]; intros stored Hp Hn; cbn [addInvitees].
  { intros [= <-]. split_and!; [done|done|]. intros u. rewrite elem_of_nil. tauto. }
  destruct ((v <=? 0) || (v =? userID)) eqn:Hv; [done|]. case_bool_decide as Hin; intros E.
  - destruct (IH stored Hp Hn E) as (? & ? & Hm). split_and!; [done..|].
    intros u. rewrite Hm, elem_of_cons. split; [tauto|]. intros [?|[->|?]]; tauto.
  - destruct (IH (stored ++ [v])) as (? & ? & Hm); [|  |done|].
    + apply Forall_app. split; [done|]. apply Forall_singleton. lia.
    + apply NoDup_app. split_and!; [done| |apply NoDup_singleton].
      intros u Hu ->%list_elem_of_singleton. done.
    + split_and!; [done..|]. intros u.
      rewrite Hm, elem_of_app, list_elem_of_singleton, elem_of_cons. tauto.
Qed.

(** A membership feed is applied to the verified roster exactly: the result
    is the roster without the one who left and with those invited, it names
    nobody twice, it still holds the account, and it is one that converging
    accepts. *)
Theorem feed_roster_is_exact stored feed roster :
  NoDup stored -> Forall (fun u => 0 < u) stored -> userID ∈ stored ->
  appliedFeed userID stored feed = Some roster ->
  NoDup roster /\ userID ∈ roster /\ is_Some (expectedUsers roster ∅) /\
  forall u, u ∈ roster <-> u ∈ stored /\ u <> Handling.leaver feed \/ u ∈ Handling.invitees feed.
Proof.
  intros Hn Hp Hself E. unfold appliedFeed in E. destruct (length stored =? 0)%nat; [done|].
  enough (NoDup roster /\ Forall (fun u => 0 < u) roster /\ userID ∈ roster /\
    forall u, u ∈ roster <-> u ∈ stored /\ u <> Handling.leaver feed \/ u ∈ Handling.invitees feed)
    as (H1 & H2 & H3 & H4) by (split_and!; auto using expectedUsers_total).
  destruct (Handling.leaver feed =? 0) eqn:El; cbn [negb] in E.
  - destruct (length (Handling.invitees feed) =? 0)%nat; [done|].
    destruct (addInvitees_spec _ _ _ Hp Hn E) as (? & ? & Hm).
    split_and!; [done..|by apply Hm; left|]. intros u. rewrite Hm. split; [|tauto].
    intros [Hu|Hu]; [left|by right]. split; [done|].
    intros ->. rewrite Forall_forall in Hp. specialize (Hp _ Hu). lia.
  - destruct (_ || _ || _) eqn:Eb; [done|]. injection E as <-.
    assert (Hi : Handling.invitees feed = []) by (apply length_zero_iff_nil; lia).
    assert (Hf : forall u, u ∈ List.filter (fun u => negb (u =? Handling.leaver feed)) stored <->
      u ∈ stored /\ u <> Handling.leaver feed).
    { intros u. rewrite !list_elem_of_In, List.filter_In. split; intros []; split; try done; lia. }
    split_and!; [by apply NoDup_ListNoDup, List.NoDup_filter, NoDup_ListNoDup| | |].
    + apply Forall_forall. intros u [Hu _]%Hf. by rewrite Forall_forall in Hp; apply Hp.
    + apply Hf. split; [done|lia].
    + intros u. rewrite Hf, Hi, elem_of_nil. tauto.
Qed.
End Facts.

(** ** A group of three *)

Definition demoKey : PortalKey := makePortalKey 10 "l".
Definition demoWorld : World :=
  let p := mkPortal "!room" false (Some (mkMetadata 0 false false [1; 2] true)) in
  mkWorld ∅ {[demoKey := p]} {[demoKey := p]}.
Definition demoSave : SaveEnv := mkSaveEnv true true.
Definition demoRemoval : RemovalEnv := mkRemovalEnv true demoSave.
Definition demoPause : PauseEnv := mkPauseEnv true demoSave.
Definition demoGhost (user : string) : string := ("@kakao_" ++ user)%string.
Definition demoParse (mxid : string) : option string :=
  if String.prefix "@kakao_" mxid then Some (String.substring 7 (String.length mxid - 7) mxid) else None.
Definition demoConverge (roster : list Z) : ConvergeEnv :=
  mkConvergeEnv demoRemoval demoSave true None true
    (Some (list_to_map ((fun u => (demoGhost (makeUserID u), Join)) <$> roster)))
    (fun user => Some (demoGhost user)) demoParse false demoSave.
Definition demoSnapshot (answer : option (list Z)) : SnapshotEnv :=
  mkSnapshotEnv (Some (mkChatData 10 "MultiChat" 0)) true answer true.
Definition demoChange (roster : list Z) (answer : option (list Z)) : ChangeEnv :=
  mkChangeEnv true true demoPause (demoConverge roster) (demoSnapshot answer).

Lemma demo_synced : synced demoWorld.
Proof. by intros k p. Qed.

Definition demoFeed : Handling.membershipFeed := Handling.mkMembershipChange [3] 0.



(** A feed, a refresh of another chat and a discovery overlap with checks, across
    a restart; then the history is imported. *)
Definition demoEvents : list event :=
  [Begin (OpChange (demoChange [1; 2; 3] None) 10 (Some demoFeed)); Begin (OpCheck true 10); Next 0; Next 1;
   Begin (OpChange (demoChange [1] (Some [1])) 11 None); Next 2; Next 0; Next 1; Next 2; Next 0; Restart;
   Begin (OpDiscover (Some [mkChatData 10 "MultiChat" 0]) true (fun l => l)
     (fun _ => mkMissingEnv demoRemoval (mkRoomEnv true None None) (mkRoomEnv true None None) (fun _ => true))
     (fun _ => demoChange [2] (Some [2])));
   Begin (OpCheck true 10); Next 0; Next 1; Next 0; Next 1;
   Begin (OpBackfill (mkBackfillEnv true true (Some (mkChatData 10 "MultiChat" 0)) demoPause (demoConverge [1; 2])
     (demoSnapshot (Some [1; 2]))) [] 10); Next 2; Next 2; Next 2].

Lemma demo_recorded : snd (run (recordSourceRemoval "l" demoRemoval 10) demoWorld) = None.
Proof. by vm_compute. Qed.

Lemma revoked_until_source_says_witness :
  snd (run (checkSourceAccess "l" true 10)
        (fst (foldl (happen 1 "l" "@me") (fst (run (recordSourceRemoval "l" demoRemoval 10) demoWorld), []) demoEvents))) <> None.
Proof.
  pose proof (revoked_until_source_says 1 "l" "@me" demoRemoval 10 demoWorld demoEvents true demo_synced demo_recorded) as H.
  destruct (foldl _ _ demoEvents) as [w' running]. apply H. clear H.
  repeat (apply Forall_cons; split); simpl; try done; try by intros [].
  - by intros [_ (roster & [=] & _)].
  - intros [_ (roster & [= <-] & Hin)]. apply list_elem_of_singleton in Hin. done.
Defined.

Lemma feed_roster_is_exact_witness :
  NoDup [1; 2; 3] /\ 1 ∈ [1; 2; 3] /\ is_Some (expectedUsers [1; 2; 3] ∅) /\
  forall u, u ∈ [1; 2; 3] <-> u ∈ [1; 2] /\ u <> Handling.leaver demoFeed \/ u ∈ Handling.invitees demoFeed.
Proof.
  apply (feed_roster_is_exact 1 [1; 2] demoFeed [1; 2; 3]).
  - apply (bool_decide_unpack _). by vm_compute.
  - repeat constructor; lia.
  - apply list_elem_of_here.
  - by vm_compute.
Defined.

(** ** Two refreshes at once *)

(** Two refreshes of one group are not safe together ([applyMetadataRefresh]
    reconciles outside [groupGate], the goroutine of [refreshMembershipAsync]
    inside it): a refresh that read the roster before the account was removed and one that read it after can finish
    in such an order that both have ended, the second recorded the loss of
    access, and the chat forwards again. *)
Theorem ungated_refresh_reopens :
  exists schedule,
  let '(w, stale, fresh) := interleave schedule
    (refreshGroupMembership 1 "l" "@me" demoPause (demoConverge [1; 2]) (demoSnapshot (Some [1; 2])) None [] 10)
    (refreshGroupMembership 1 "l" "@me" demoPause (demoConverge [2]) (demoSnapshot (Some [2])) None [] 10) demoWorld in
  stale = Done None /\ fresh = Done (Some errSourceAccessRemoved) /\
  snd (run (checkSourceAccess "l" true 10) w) = None.
Proof.
  exists (replicate 9 true ++ replicate 20 false ++ replicate 20 true). vm_compute. done.
Qed.
