(* ===== verification/Reactions.v ===== *)
(** * Reaction rosters (src/internal/bridge/connector/reaction_derive.go, the
      rosters of reactions.go and mini_reactions.go)

    Who reacted to a message with what, as a members read or a legacy push tells
    it.  A legacy push carries the counts of the six selections, the account's
    own pick and sometimes the one member whose pick changed; from the roster
    stored for the revision before it, that can determine the new one. *)

From S2P Require Import Prelude Identifiers.
From stdpp Require Import sorting.

#[local] Open Scope string_scope.
#[local] Open Scope list_scope.
#[local] Open Scope Z_scope.

(** ** Selections (protocol/reactions/reactions.go) *)

Definition Cancel : Z := 0.
Definition Heart : Z := 1.
Definition Like : Z := 2.
Definition Check_ : Z := 3.
Definition Laugh : Z := 4.
Definition Surprise : Z := 5.
Definition Sad : Z := 6.

(** [for t := Heart; t <= Sad; t++]. *)
Definition selections : list Z := [Heart; Like; Check_; Laugh; Surprise; Sad].

Record legacyReaction := mkLegacy { typeID : Z; emoji : string; emojiID : string }.

Definition legacyReactions : list legacyReaction :=
  [mkLegacy Cancel "" "";
   mkLegacy Heart "❤️" "kakao:legacy:1";
   mkLegacy Like "👍" "kakao:legacy:2";
   mkLegacy Check_ "✅" "kakao:legacy:3";
   mkLegacy Laugh "😆" "kakao:legacy:4";
   mkLegacy Surprise "😮" "kakao:legacy:5";
   mkLegacy Sad "😢" "kakao:legacy:6"].

(** [legacyReactions[t]]; the code indexes it with 0..6 only. *)
Definition legacyAt (t : Z) : legacyReaction :=
  nth (Z.to_nat t) legacyReactions (mkLegacy Cancel "" "").

Definition legacyReactionEmojiID (value : string) : option Z :=
  typeID <$> List.find (fun entry => String.eqb (emojiID entry) value) (tail legacyReactions).

(** U+FE0F, the variation selector. *)
Definition variationSelector : string :=
  String (Ascii.ascii_of_nat 239) (String (Ascii.ascii_of_nat 184) (String (Ascii.ascii_of_nat 143) "")).

Definition normalizeReactionEmoji (value : string) : string :=
  if HasSuffix value variationSelector
  then String.substring 0 (String.length value - String.length variationSelector) value
  else value.

(** [legacyReactionsByEmoji]: both spellings of each; no two entries share one. *)
Definition legacyByEmoji (value : string) : option legacyReaction :=
  List.find (fun entry => String.eqb (emoji entry) value
                          || String.eqb (normalizeReactionEmoji (emoji entry)) value) (tail legacyReactions).

Definition reactionForEmoji (value : string) : option legacyReaction :=
  match legacyByEmoji value with
  | Some entry => Some entry
  | None => legacyByEmoji (normalizeReactionEmoji value)
  end.

(** ** Changes (protocol/events/events.go) *)

Record ReactionItem := mkItem { ItemID : string; Kind : Z; Count : Z; Alt : gmap string string }.

Record LegacyReactionExtra := mkExtra {
  HasOwnPick : bool;
  OwnPick : Z;
  HasActor : bool;
  ActorID : Z;
  ActorPick : Z;
}.

Record ReactionChanged := mkChange {
  MetadataType : Z;
  ChatID : Z;
  LinkID : Z;
  LogID : Z;
  Revision : Z;
  Items : list ReactionItem;
  Extra : LegacyReactionExtra;
}.

(** A row of the bridge's reaction table for one message. *)
Record row := mkRow { SenderID : string; EmojiID : string; RowEmoji : string; RowMXID : string }.

(** [ReactionSyncData.Users]: a user's reactions, each with its emoji. *)
Abbreviation roster := (gmap string (list (string * string))).

(** ** Derivation *)

(** The legacy picks of the stored rows; [None] if a sender has two or no valid
    ID. *)
Fixpoint storedPicks (rows : list row) (picks : gmap Z Z) : option (gmap Z Z) :=
  match rows with
  | [] => Some picks
  | r :: rows =>
      match legacyReactionEmojiID (EmojiID r) with
      | None => storedPicks rows picks
      | Some t =>
          match ParseInt (SenderID r) with
          | None => None
          | Some user =>
              if user <=? 0 then None else
              match picks !! user with
              | Some prior => if prior =? t then storedPicks rows (<[user := t]> picks) else None
              | None => storedPicks rows (<[user := t]> picks)
              end
          end
      end
  end.

Definition setPick (user pick : Z) (picks : gmap Z Z) : gmap Z Z :=
  if pick =? Cancel then delete user picks else <[user := wrap32 pick]> picks.

(** The counts of the push; [None] if it has anything but legacy selections. *)
Fixpoint wantedCounts (items : list ReactionItem) (want : gmap Z Z) : option (gmap Z Z) :=
  match items with
  | [] => Some want
  | item :: items =>
      match ParseInt (ItemID item) with
      | Some t =>
          if negb (Kind item =? 1) || (t <? Heart) || (Sad <? t) then None
          else wantedCounts items (if 0 <? Count item then <[t := Count item]> want else want)
      | None => None
      end
  end.

Definition countPicks (picks : gmap Z Z) : gmap Z Z :=
  map_fold (fun _ t have => <[t := default 0 (have !! t) + 1]> have) ∅ picks.

Definition legacyCountsMatch (picks want : gmap Z Z) : bool :=
  let have := countPicks picks in
  (size have =? size want)%nat
  && forallb (fun '(t, count) => default 0 (have !! t) =? count) (map_to_list want).

(** The selections that lost and gained one; [None] if any differs by more. *)
Fixpoint differences (ts : list Z) (have want : gmap Z Z) : option (list Z * list Z) :=
  match ts with
  | [] => Some ([], [])
  | t :: ts =>
      let d := default 0 (want !! t) - default 0 (have !! t) in
      '(lost, gained) ← differences ts have want;
      if d =? 0 then Some (lost, gained)
      else if d =? -1 then Some (t :: lost, gained)
      else if d =? 1 then Some (lost, t :: gained)
      else None
  end.

(** The only holder of [t] other than [self]; 0 stands for none so far. *)
Fixpoint uniqueHolder (t self : Z) (picks : list (Z * Z)) (holder : Z) : option Z :=
  match picks with
  | [] => if holder =? 0 then None else Some holder
  | (user, pick) :: picks =>
      if negb (pick =? t) || (user =? self) then uniqueHolder t self picks holder
      else if negb (holder =? 0) then None
      else uniqueHolder t self picks user
  end.

Definition resolveUniqueHolder (picks want : gmap Z Z) (self : Z) : gmap Z Z :=
  match differences selections (countPicks picks) want with
  | Some ([t], gained) =>
      if (1 <? length gained)%nat then picks else
      match uniqueHolder t self (map_to_list picks) 0 with
      | None => picks
      | Some holder =>
          match gained with
          | [t'] => <[holder := t']> picks
          | _ => delete holder picks
          end
      end
  | _ => picks
  end.

(** The picks of [deriveLegacyReactions] for the stored rows. *)
Definition derivedPicks (userID : Z) (rows : list row) (change : ReactionChanged) : option (gmap Z Z) :=
  let extra := Extra change in
  picks ← storedPicks rows ∅;
  let picks := setPick userID (OwnPick extra) picks in
  picks ← (if HasActor extra then
             if ActorID extra =? userID then
               if negb (ActorPick extra =? OwnPick extra) then None else Some picks
             else Some (setPick (ActorID extra) (ActorPick extra) picks)
           else Some picks);
  want ← wantedCounts (Items change) ∅;
  let picks := if negb (HasActor extra) && negb (legacyCountsMatch picks want)
               then resolveUniqueHolder picks want userID else picks in
  if legacyCountsMatch picks want then Some picks else None.

Definition legacyUser (t : Z) : list (string * string) := [(emojiID (legacyAt t), emoji (legacyAt t))].

Definition rosterOfPicks (picks : gmap Z Z) : roster :=
  list_to_map ((fun '(user, t) => (makeUserID user, legacyUser t)) <$> map_to_list picks).

(** ** Members reads *)

(** [reactions.MembersResponse]: a field with its text and what it is as a list
    of integers. *)
Record Field := mkField { FieldKey : string; Raw : string; Values : option (list Z) }.
Record MembersResponse := mkMembers { MembersRevision : Z; Members : gmap Z (list Z); Fields : list Field }.

Inductive ReactionError :=
| errReactionUnsupported
| errReactionTarget
| errReactionSender
| errReactionRevision
| errReactionMutation
| errReactionLookup
| errReactionTargetMissing
| errReactionLookupBudget
| errReactionLookupDeferred
| errReactionSyncBudget
| errReactionStore (* the database *)
| errReactionRequest (* the server *)
| errReactionCancelled (* [ctx.Err] *)
| errNoAccess
| errNotLoggedIn.

(** A numeric field must be a selection with valid members. *)
Definition fieldValid (f : Field) : bool :=
  match ParseInt (FieldKey f) with
  | None => true
  | Some n =>
      String.eqb (FormatInt n) (FieldKey f) && (Heart <=? n) && (n <=? Sad)
      && match Values f with Some values => forallb (fun v => 0 <? v) values | None => false end
  end.

(** One selection's members. *)
Fixpoint addMembers (t : Z) (values : list Z) (acc : roster * gmap string Z)
  : option (roster * gmap string Z) :=
  match values with
  | [] => Some acc
  | user :: values =>
      let '(users, seen) := acc in
      if user <=? 0 then None else
      let id := makeUserID user in
      match seen !! id with
      | Some prior => if negb (prior =? t) then None else addMembers t values acc
      | None => addMembers t values (<[id := legacyUser t]> users, <[id := t]> seen)
      end
  end.

Fixpoint addSelections (ts : list Z) (members : gmap Z (list Z)) (acc : roster * gmap string Z)
  : option (roster * gmap string Z) :=
  match ts with
  | [] => Some acc
  | t :: ts => acc ← addMembers t (default [] (members !! t)) acc; addSelections ts members acc
  end.

Definition reactionSyncUsers (m : MembersResponse) : res ReactionError roster :=
  if MembersRevision m <=? 0 then Err errReactionRevision
  else if negb (forallb fieldValid (Fields m)) then Err errReactionUnsupported
  else match addSelections selections (Members m) (∅, ∅) with
  | Some (users, _) => Ok users
  | None => Err errReactionUnsupported
  end.
