(* ===== verification/ReactionTheorems.v ===== *)
(** * What the bridge makes of reactions *)

From S2P Require Import Prelude Identifiers Reactions.

#[local] Open Scope string_scope.
#[local] Open Scope list_scope.
#[local] Open Scope Z_scope.

(** ** What a legacy push determines

    Lemmas on counts of picks, and the derivation of a roster from the one
    before it. *)

Implicit Types (picks want S T : gmap Z Z).

(** ** Counts *)

Definition held (t : Z) picks : Z := total (fun t' => if t' =? t then 1 else 0) picks.

Definition isPick (o : option Z) (t : Z) : Z := match o with Some t' => if t' =? t then 1 else 0 | None => 0 end.

Lemma held_delete t picks v : held t picks = held t (delete v picks) + isPick (picks !! v) t.
Proof.
  unfold held, isPick. destruct (picks !! v) as [t'|] eqn:E.
  - rewrite (total_delete _ _ _ _ E). lia.
  - rewrite delete_id by done. lia.
Qed.

Lemma held_nonneg t picks : 0 <= held t picks.
Proof. apply total_nonneg. intros k a _. by destruct (a =? t). Qed.

Lemma countPicks_lookup picks t :
  countPicks picks !! t = if held t picks =? 0 then None else Some (held t picks).
Proof.
  revert t. unfold countPicks. apply (map_fold_weak_ind (fun have m => forall t,
    have !! t = if held t m =? 0 then None else Some (held t m))).
  - intros t. rewrite lookup_empty. unfold held. by rewrite total_empty.
  - intros u a m have Hu IH t. unfold held. rewrite total_new by done. fold (held t m).
    pose proof (held_nonneg t m). destruct (decide (t = a)) as [->|Hne].
    + rewrite lookup_insert_eq, IH, Z.eqb_refl. destruct (held a m =? 0) eqn:E0.
      * rewrite (proj2 (Z.eqb_neq _ _)) by lia. simpl. f_equal. lia.
      * rewrite (proj2 (Z.eqb_neq _ _)) by lia. simpl. f_equal.
    + rewrite lookup_insert_ne by done. rewrite IH.
      rewrite (proj2 (Z.eqb_neq a t)) by done. by rewrite Z.add_0_r.
Qed.

Lemma default_count picks t : default 0 (countPicks picks !! t) = held t picks.
Proof. rewrite countPicks_lookup. destruct (held t picks =? 0) eqn:E; simpl; lia. Qed.

Lemma countPicks_pos picks t n : countPicks picks !! t = Some n -> 0 < n.
Proof. rewrite countPicks_lookup. pose proof (held_nonneg t picks). destruct (_ =? _) eqn:E; intros [=]. lia. Qed.

Lemma countPicks_ext picks picks' :
  (forall t, held t picks = held t picks') -> countPicks picks = countPicks picks'.
Proof. intros H. apply map_eq. intros t. by rewrite !countPicks_lookup, H. Qed.

Lemma legacyCountsMatch_iff picks want :
  (forall t n, want !! t = Some n -> 0 < n) ->
  legacyCountsMatch picks want = true <-> countPicks picks = want.
Proof.
  intros Hw. unfold legacyCountsMatch. rewrite andb_true_iff, Nat.eqb_eq, forallb_forall. split.
  - intros [Hs Hl]. symmetry. apply map_subseteq_size_eq; [|by rewrite Hs]. apply map_subseteq_spec.
    intros t n Ht. specialize (Hl (t, n)). simpl in Hl.
    rewrite <- list_elem_of_In, elem_of_map_to_list in Hl. specialize (Hl Ht). specialize (Hw t n Ht).
    apply Z.eqb_eq in Hl. destruct (countPicks picks !! t); cbn in Hl; [by f_equal|lia].
  - intros <-. split; [done|]. intros [t n] Hin. apply list_elem_of_In, elem_of_map_to_list in Hin.
    rewrite Hin. apply Z.eqb_refl.
Qed.

(** ** One member's change *)

(** [T] is [P] but for what [v] picked. *)
Definition differAt (v : Z) (P T : gmap Z Z) : Prop := forall u, u <> v -> T !! u = P !! u.

Lemma differAt_held v P T t : differAt v P T -> held t T - held t P = isPick (T !! v) t - isPick (P !! v) t.
Proof.
  intros Hd. rewrite (held_delete t T v), (held_delete t P v).
  replace (delete v T) with (delete v P); [lia|]. apply map_eq. intros u.
  destruct (decide (u = v)) as [->|]; [by rewrite !lookup_delete_eq|].
  rewrite !lookup_delete_ne by done. symmetry. by apply Hd.
Qed.

Lemma differAt_eq v P T : differAt v P T -> T !! v = P !! v -> T = P.
Proof. intros Hd He. apply map_eq. intros u. destruct (decide (u = v)) as [->|]; auto. Qed.

Lemma differAt_same v P T : differAt v P T -> countPicks P = countPicks T -> T = P.
Proof.
  intros Hd Hc. apply (differAt_eq v); [done|].
  assert (H : forall t, isPick (T !! v) t = isPick (P !! v) t).
  { intros t. pose proof (differAt_held v P T t Hd).
    rewrite <- !default_count, Hc in H. lia. }
  destruct (T !! v) as [a|], (P !! v) as [b|]; simpl in H; [|specialize (H a)|specialize (H b)|done].
  - specialize (H a). rewrite Z.eqb_refl in H. f_equal. destruct (b =? a) eqn:E; lia.
  - by rewrite Z.eqb_refl in H.
  - by rewrite Z.eqb_refl in H.
Qed.

(** ** Differences of counts *)

Definition gap (have want : gmap Z Z) (t : Z) : Z := default 0 (want !! t) - default 0 (have !! t).

Lemma differences_spec ts have want :
  (forall t, t ∈ ts -> -1 <= gap have want t <= 1) ->
  differences ts have want =
    Some (List.filter (fun t => gap have want t =? -1) ts, List.filter (fun t => gap have want t =? 1) ts).
Proof.
  induction ts as [|t ts IH]; intros H; cbn [differences]; [done|].
  rewrite IH by (intros; apply H; by apply list_elem_of_further). simpl. fold (gap have want t).
  specialize (H t (list_elem_of_here _ _)). destruct (gap have want t =? 0) eqn:E0.
  { rewrite (proj2 (Z.eqb_neq _ (-1))), (proj2 (Z.eqb_neq _ 1)) by lia. done. }
  destruct (gap have want t =? -1) eqn:E1.
  { rewrite (proj2 (Z.eqb_neq _ 1)) by lia. done. }
  by replace (gap have want t =? 1) with true by lia.
Qed.

Lemma uniqueHolder_some t self l h u :
  uniqueHolder t self l h = Some u -> h <> 0 /\ u = h \/ h = 0 /\ (u, t) ∈ l /\ u <> self.
Proof.
  revert h. induction l as [|[user pick] l IH]; intros h; cbn [uniqueHolder].
  { destruct (h =? 0) eqn:E; [done|]. intros [= <-]. left. lia. }
  destruct (negb (pick =? t) || (user =? self)) eqn:Es.
  { intros [?|(? & ? & ?)]%IH; [by left|right]. split_and!; auto. by apply list_elem_of_further. }
  destruct (h =? 0) eqn:E; cbn [negb]; [|done]. apply Z.eqb_eq in E as ->.
  assert (pick = t /\ user <> self) as [-> Hs] by lia.
  intros [[_ ->]|(_ & ? & ?)]%IH; right; split_and!; auto; [apply list_elem_of_here|by apply list_elem_of_further].
Qed.

Lemma uniqueHolder_only t self l h u v :
  Forall (fun p => 0 < p.1) l -> uniqueHolder t self l h = Some u -> (v, t) ∈ l -> v <> self -> 
  h = 0 /\ u = v.
Proof.
  revert h. induction l as [|[user pick] l IH]; intros h Hp E Hv Hs; [by apply elem_of_nil in Hv|].
  cbn [uniqueHolder] in E. apply Forall_cons in Hp as [Hp0 Hp]. simpl in Hp0.
  destruct (negb (pick =? t) || (user =? self)) eqn:Es.
  { apply elem_of_cons in Hv as [[= -> ->]|Hv]; [lia|by apply IH]. }
  destruct (h =? 0) eqn:E0; cbn [negb] in E; [|done]. apply Z.eqb_eq in E0 as ->. split; [done|].
  destruct (uniqueHolder_some _ _ _ _ _ E) as [[_ ->]|[? _]]; [|lia].
  apply elem_of_cons in Hv as [[= <- _]|Hv]; [done|]. destruct (IH _ Hp E Hv Hs). lia.
Qed.

Lemma uniqueHolder_found t self l h v :
  v <> 0 -> (h = 0 \/ h = v /\ forall p, p ∈ l -> p.2 = t -> p.1 = self) -> NoDup (l.*1) ->
  (h = 0 -> (v, t) ∈ l /\ v <> self) -> (forall u, (u, t) ∈ l -> u <> self -> u = v) ->
  uniqueHolder t self l h = Some v.
Proof.
  intros Hv0. revert h. induction l as [|[user pick] l IH]; intros h Hh Hn Hin Hu; cbn [uniqueHolder].
  { destruct Hh as [->|[-> _]]; [by destruct (Hin eq_refl) as [?%elem_of_nil _]|].
    by rewrite (proj2 (Z.eqb_neq _ _) Hv0). }
  apply NoDup_cons in Hn as [Hnot Hn].
  destruct (negb (pick =? t) || (user =? self)) eqn:Es.
  { apply IH; [|done| |].
    - destruct Hh as [->|[-> H]]; [by left|right; split; [done|]]. intros p Hp. by apply H, list_elem_of_further.
    - intros H0. destruct (Hin H0) as [[[= <- <-]|?]%elem_of_cons Hs]; [lia|done].
    - intros u Hu1. by apply Hu, list_elem_of_further. }
  assert (pick = t /\ user <> self) as [-> Hs] by lia.
  assert (user = v) as -> by (apply Hu; [apply list_elem_of_here|done]).
  destruct Hh as [->|[-> H]]; [|by destruct Hs; apply (H (v, t) (list_elem_of_here _ _))].
  cbn [negb Z.eqb]. apply IH; [right; split; [done|]|done|done|].
  - intros [u p] Hp Ht. simpl in Ht |- *. subst p. destruct (decide (u = self)) as [|Hus]; [done|]. destruct Hnot.
    rewrite <- (Hu u) by (done || by apply list_elem_of_further).
    apply list_elem_of_fmap. by exists (u, t).
  - intros u Hu1. by apply Hu, list_elem_of_further.
Qed.

(** ** Derivation *)

(** Members have positive IDs and one of the six selections. *)
Definition legacy (T : gmap Z Z) : Prop := forall u t, T !! u = Some t -> 0 < u /\ Heart <= t <= Sad.

Lemma legacy_delete T u : legacy T -> legacy (delete u T).
Proof. intros HT v t [_ E]%lookup_delete_Some. by apply HT. Qed.

Lemma setPick_own u P (T : gmap Z Z) :
  legacy T -> setPick u (default 0 (T !! u)) P !! u = T !! u.
Proof.
  intros HT. unfold setPick, Cancel. destruct (T !! u) as [t|] eqn:E; cbn [from_option id].
  - destruct (HT _ _ E) as [_ Ht]. unfold Heart, Sad in Ht. rewrite (proj2 (Z.eqb_neq t 0)) by lia.
    rewrite lookup_insert_eq, wrap32_id by (unfold int32, MinInt32, MaxInt32; lia). done.
  - by rewrite Z.eqb_refl, lookup_delete_eq.
Qed.

Lemma setPick_other u v pick P : v <> u -> setPick u pick P !! v = P !! v.
Proof. intros Hv. unfold setPick. destruct (_ =? _); [by rewrite lookup_delete_ne|by rewrite lookup_insert_ne]. Qed.

Lemma setPick_legacy u P (T : gmap Z Z) :
  legacy P -> legacy T -> legacy (setPick u (default 0 (T !! u)) P).
Proof.
  intros HP HT v t E. destruct (decide (v = u)) as [->|Hv].
  - rewrite setPick_own in E by done. by apply HT.
  - rewrite setPick_other in E by done. by apply HP.
Qed.

Lemma legacy_selection t : Heart <= t <= Sad -> t ∈ selections.
Proof. unfold selections, Heart, Sad, Like, Check_, Laugh, Surprise. intros H. rewrite !elem_of_cons, elem_of_nil. lia. Qed.

(** The unique holder of what was lost is who changed. *)
Lemma resolve_true self v P T :
  v <> self -> legacy P -> legacy T -> differAt v P T ->
  let picks := resolveUniqueHolder P (countPicks T) self in picks = P \/ picks = T.
Proof.
  intros Hv HP HT Hd. unfold resolveUniqueHolder.
  assert (Hg : forall t, gap (countPicks P) (countPicks T) t = isPick (T !! v) t - isPick (P !! v) t)
    by (intros t; unfold gap; rewrite !default_count; by apply differAt_held).
  rewrite differences_spec.
  2: { intros t _. rewrite Hg. unfold isPick. destruct (T !! v) as [a|], (P !! v) as [b|]; repeat case_match; lia. }
  remember (List.filter (fun t => _ =? -1) _) as lost eqn:El.
  remember (List.filter (fun t => _ =? 1) _) as gained eqn:Egd. cbv zeta iota beta.
  destruct lost as [|t [|t' lost']]; [by left| |by left].
  assert (Ht : P !! v = Some t /\ T !! v <> Some t).
  { assert (Hin : t ∈ [t]) by apply list_elem_of_here.
    rewrite El in Hin. apply list_elem_of_In, filter_In in Hin as [_ Hin]. rewrite Hg in Hin.
    unfold isPick in Hin. destruct (T !! v) as [a|], (P !! v) as [b|]; repeat case_match; try lia.
    - split; [f_equal; lia|]. intros [= ->]. lia.
    - split; [f_equal; lia|done]. }
  destruct Ht as [HPv HTv]. destruct (1 <? length gained)%nat eqn:Eg; [by left|].
  destruct (uniqueHolder t self (map_to_list P) 0) as [u|] eqn:Eu; [|by left].
  apply (uniqueHolder_only _ _ _ _ _ v) in Eu as [_ ->]; [| |by apply elem_of_map_to_list|done].
  2: { apply Forall_forall. intros [u' t'] Hin. apply elem_of_map_to_list in Hin. by destruct (HP _ _ Hin). }
  right. assert (Hgain : forall t', t' ∈ gained <-> T !! v = Some t').
  { intros t'. rewrite Egd, list_elem_of_In, filter_In, Hg, <- list_elem_of_In, HPv. unfold isPick. split.
    - intros [_ H]. destruct (T !! v) as [a|]; repeat case_match; try lia. f_equal. lia.
    - intros HT'. split; [apply legacy_selection; by destruct (HT _ _ HT')|]. rewrite HT' in HTv |- *.
      rewrite Z.eqb_refl. rewrite (proj2 (Z.eqb_neq t t')); [done|congruence]. }
  apply map_eq. intros u. clear Egd. destruct gained as [|t' [|]]; [| |done]; destruct (decide (u = v)) as [->|Hu].
  - rewrite lookup_delete_eq. destruct (T !! v) as [a|] eqn:Ea; [|done].
    by destruct (proj1 (elem_of_nil a) (proj2 (Hgain a) eq_refl)).
  - rewrite lookup_delete_ne by done. symmetry. by apply Hd.
  - rewrite lookup_insert_eq. symmetry. apply Hgain, list_elem_of_here.
  - rewrite lookup_insert_ne by done. symmetry. by apply Hd.
Qed.

Lemma filter_only {A} (f : A -> bool) (l : list A) a :
  NoDup l -> a ∈ l -> (forall x, x ∈ l -> f x = true <-> x = a) -> List.filter f l = [a].
Proof.
  induction l as [|x l IH]; intros Hn Ha Hf; [by apply elem_of_nil in Ha|]. cbn [List.filter].
  apply NoDup_cons in Hn as [Hx Hn].
  apply elem_of_cons in Ha as [->|Ha].
  - rewrite (proj2 (Hf x (list_elem_of_here _ _)) eq_refl). f_equal.
    destruct (List.filter f l) as [|y ys] eqn:E; [done|]. destruct Hx.
    assert (Hy : y ∈ List.filter f l) by (rewrite E; apply list_elem_of_here).
    apply list_elem_of_In, filter_In in Hy as [Hy Hfy]. apply list_elem_of_In in Hy.
    by rewrite <- (proj1 (Hf y (list_elem_of_further _ _ _ Hy)) Hfy).
  - destruct (f x) eqn:E.
    + apply (Hf x (list_elem_of_here _ _)) in E as ->. done.
    + apply IH; [done|done|]. intros y Hy. by apply Hf, list_elem_of_further.
Qed.

Lemma filter_none {A} (f : A -> bool) (l : list A) :
  (forall x, x ∈ l -> f x = false) -> List.filter f l = [].
Proof.
  induction l as [|x l IH]; intros Hf; cbn [List.filter]; [done|].
  rewrite (Hf x (list_elem_of_here _ _)). apply IH. intros y Hy. by apply Hf, list_elem_of_further.
Qed.

Lemma selections_NoDup : NoDup selections.
Proof. apply (bool_decide_unpack _). by vm_compute. Qed.

(** The only holder of a selection, other than the account, is found. *)
Lemma resolve_found self v a P T :
  v <> self -> legacy P -> legacy T -> differAt v P T -> P !! v = Some a -> T !! v <> Some a ->
  (forall u, u <> self -> P !! u = Some a -> u = v) ->
  resolveUniqueHolder P (countPicks T) self = T.
Proof.
  intros Hv HP HT Hd Ha Hta Hu.
  destruct (resolve_true self v P T Hv HP HT Hd) as [E|E]; [|done]. exfalso.
  revert E. unfold resolveUniqueHolder.
  assert (Hg : forall t, gap (countPicks P) (countPicks T) t = isPick (T !! v) t - isPick (P !! v) t)
    by (intros t; unfold gap; rewrite !default_count; by apply differAt_held).
  rewrite differences_spec.
  2: { intros t _. rewrite Hg. unfold isPick. destruct (T !! v) as [b|], (P !! v) as [c|]; repeat case_match; lia. }
  rewrite (filter_only _ selections a selections_NoDup).
  2: { apply legacy_selection. by destruct (HP _ _ Ha). }
  2: { intros t _. rewrite Hg, Ha. unfold isPick. destruct (T !! v) as [b|]; repeat case_match; try lia.
       assert (a <> b) by congruence. lia. }
  assert (Hh : uniqueHolder a self (map_to_list P) 0 = Some v).
  { apply uniqueHolder_found; [|by left|apply NoDup_fst_map_to_list| |].
    - destruct (HP _ _ Ha). lia.
    - intros _. split; [by apply elem_of_map_to_list|done].
    - intros u Hin Hs. apply elem_of_map_to_list in Hin. by apply Hu. }
  destruct (T !! v) as [b|] eqn:Eb.
  - rewrite (filter_only _ selections b selections_NoDup).
    2: { apply legacy_selection. by destruct (HT _ _ Eb). }
    2: { intros t _. assert (a <> b) by congruence. rewrite Hg, Ha. unfold isPick. repeat case_match; lia. }
    cbn [length Nat.ltb Nat.leb]. rewrite Hh. intros E. apply Hta. rewrite <- Ha, <- E. by rewrite lookup_insert_eq.
  - rewrite filter_none by (intros t _; rewrite Hg, Ha; unfold isPick; repeat case_match; lia).
    cbn [length Nat.ltb Nat.leb]. rewrite Hh. intros E. by rewrite <- E, lookup_delete_eq in Ha.
Qed.

(** ** Derived rosters *)

(** The push follows the stored roster [S]: it gives the account's own pick, and
    it names the other member who changed, if it names one; else at most one
    other member changed. *)
Definition follows (self : Z) (S T : gmap Z Z) (extra : LegacyReactionExtra) : Prop :=
  OwnPick extra = default 0 (T !! self) /\
  if HasActor extra
  then ActorPick extra = default 0 (T !! ActorID extra) /\
       forall u, u <> self -> u <> ActorID extra -> T !! u = S !! u
  else exists v, v <> self /\ forall u, u <> self -> u <> v -> T !! u = S !! u.

(** The push names who changed, or only the account did, or the one other member
    who changed was alone in holding what they gave up. *)
Definition determined (self : Z) (S T : gmap Z Z) (extra : LegacyReactionExtra) : Prop :=
  HasActor extra = true \/ (forall u, u <> self -> T !! u = S !! u) \/
  exists v a, v <> self /\ S !! v = Some a /\ T !! v <> Some a /\
    (forall u, u <> self -> u <> v -> T !! u = S !! u) /\
    (forall u, u <> self -> S !! u = Some a -> u = v).

Lemma own_differs self S T : legacy T ->
  (forall u, u <> self -> T !! u = S !! u) -> setPick self (default 0 (T !! self)) S = T.
Proof.
  intros HT H. apply map_eq. intros u. destruct (decide (u = self)) as [->|Hu]; [by apply setPick_own|].
  rewrite setPick_other by done. symmetry. by apply H.
Qed.

Lemma own_differAt self v S T : legacy T ->
  (forall u, u <> self -> u <> v -> T !! u = S !! u) ->
  differAt v (setPick self (default 0 (T !! self)) S) T.
Proof.
  intros HT H u Hu. destruct (decide (u = self)) as [->|Hs]; [by rewrite setPick_own|].
  rewrite setPick_other by done. by apply H.
Qed.

(** C33: a roster that a legacy push is resolved to is the true one, when the
    push describes what happened since the stored roster: the account's own
    pick, and one other member's change at most.  It is resolved whenever the
    push names that member, no other member changed, or the member was alone in
    holding what they gave up; otherwise the code asks the server. *)
Theorem derived_roster_is_true self S T rows change :
  storedPicks rows ∅ = Some S -> legacy S -> legacy T ->
  wantedCounts (Items change) ∅ = Some (countPicks T) ->
  follows self S T (Extra change) ->
  (forall picks, derivedPicks self rows change = Some picks -> picks = T) /\
  (determined self S T (Extra change) -> derivedPicks self rows change = Some T).
Proof.
  intros HS LS LT Hw [Hown Hf]. unfold derivedPicks. rewrite HS, Hw, Hown. cbn [mbind option_bind].
  assert (Hmatch : forall picks, legacyCountsMatch picks (countPicks T) = true <-> countPicks picks = countPicks T)
    by (intros; apply legacyCountsMatch_iff, countPicks_pos).
  assert (HT : legacyCountsMatch T (countPicks T) = true) by by apply Hmatch.
  set (P := setPick self (default 0 (T !! self)) S).
  assert (LP : legacy P) by by apply setPick_legacy.
  destruct (HasActor (Extra change)) eqn:Ha.
  - destruct Hf as [Hact Hf]. cbn [negb andb].
    assert (E : (if ActorID (Extra change) =? self
                 then if negb (ActorPick (Extra change) =? default 0 (T !! self)) then None else Some P
                 else Some (setPick (ActorID (Extra change)) (ActorPick (Extra change)) P)) = Some T).
    { rewrite Hact. destruct (ActorID (Extra change) =? self) eqn:Es.
      - apply Z.eqb_eq in Es. rewrite Es, Z.eqb_refl. cbn [negb]. f_equal. apply own_differs; [done|].
        intros u Hu. apply Hf; [done|congruence].
      - apply Z.eqb_neq in Es. f_equal. apply own_differs; [done|]. intros u Hu.
        destruct (decide (u = self)) as [->|]; [symmetry; by apply setPick_own|].
        unfold P. rewrite setPick_other by done. by apply Hf. }
    rewrite E. cbn [mbind option_bind]. rewrite HT. by split; [intros ? [= <-]|].
  - destruct Hf as (v & Hv & Hf). cbn [negb andb].
    pose proof (own_differAt self v S T LT Hf) as Hd. fold P in Hd. cbn [mbind option_bind]. split.
    + intros picks. destruct (legacyCountsMatch P (countPicks T)) eqn:Em; cbn [negb].
      * rewrite Em. intros [= <-]. symmetry. apply (differAt_same v); [done|]. by apply Hmatch.
      * destruct (resolve_true self v P T Hv LP LT Hd) as [Er|Er]; rewrite Er; [by rewrite Em|].
        rewrite HT. by intros [= <-].
    + intros [Hc|[Hs|(v' & a & Hv' & Ea & Eta & Hf' & Hu)]]; [congruence| |].
      * assert (P = T) as -> by by apply own_differs. rewrite HT. cbn [negb]. by rewrite HT.
      * pose proof (own_differAt self v' S T LT Hf') as Hd'. fold P in Hd'.
        assert (EP : P !! v' = Some a) by (unfold P; by rewrite setPick_other).
        assert (Em : legacyCountsMatch P (countPicks T) = false).
        { apply not_true_is_false. intros Em%Hmatch. apply (differAt_same v') in Em; [|done]. congruence. }
        rewrite Em. cbn [negb]. rewrite (resolve_found self v' a P T); [by rewrite HT|done..|].
        intros u Hus. unfold P. rewrite setPick_other by done. by apply Hu.
Qed.

(** Three members; the second, alone with a check, takes a heart. *)
Definition demoRows : list row :=
  [mkRow "1" "kakao:legacy:2" "" "$a"; mkRow "2" "kakao:legacy:3" "" "$b";
   mkRow "3" "kakao:legacy:1" "" "$c"; mkRow "3" "kakao:mini:x" "" "$d"].
Definition demoBefore : gmap Z Z := list_to_map [(1, Like); (2, Check_); (3, Heart)].
Definition demoAfter : gmap Z Z := list_to_map [(1, Like); (2, Heart); (3, Heart)].
Definition demoPush : ReactionChanged :=
  mkChange 1 10 0 7 5 [mkItem "1" 1 2 ∅; mkItem "2" 1 1 ∅] (mkExtra true Like false 0 0).

Lemma demo_legacy l : forallb (fun '(u, t) => (0 <? u) && (Heart <=? t) && (t <=? Sad)) l = true ->
  legacy (list_to_map l : gmap Z Z).
Proof.
  intros Hl u t E. apply elem_of_list_to_map_2 in E. rewrite forallb_forall in Hl.
  specialize (Hl (u, t) (proj1 (list_elem_of_In _ _) E)). simpl in Hl. lia.
Qed.

Lemma derived_roster_is_true_witness :
  storedPicks demoRows ∅ = Some demoBefore /\ derivedPicks 1 demoRows demoPush = Some demoAfter.
Proof.
  assert (E : storedPicks demoRows ∅ = Some demoBefore) by (apply (bool_decide_unpack _); by vm_compute).
  split; [exact E|].
  apply (derived_roster_is_true 1 demoBefore demoAfter demoRows demoPush E).
  - by apply demo_legacy.
  - by apply demo_legacy.
  - apply (bool_decide_unpack _). by vm_compute.
  - split; [by vm_compute|]. simpl. exists 2. split; [lia|]. intros u H1 H2. unfold demoAfter, demoBefore. simpl.
    rewrite !(lookup_insert_ne _ 1) by done. by rewrite !(lookup_insert_ne _ 2) by done.
  - right. right. exists 2, Check_. unfold demoAfter, demoBefore. simpl. split_and!; [lia|by vm_compute|by vm_compute| |].
    + intros u H1 H2. rewrite !(lookup_insert_ne _ 1) by done. by rewrite !(lookup_insert_ne _ 2) by done.
    + intros u H1. rewrite lookup_insert_ne by done. destruct (decide (u = 2)) as [->|H2]; [done|].
      rewrite lookup_insert_ne by done. destruct (decide (u = 3)) as [->|H3]; [by rewrite lookup_insert_eq|].
      rewrite lookup_insert_ne by done. by rewrite lookup_empty.
Defined.
