(* ===== verification/ReactionSync.v ===== *)
(** * Applying reaction changes (src/internal/bridge/connector/reactions.go,
      reaction_lookup.go, reaction_resync.go, mini_reactions.go)

    A change newer than the message's stored revision becomes a complete roster,
    derived or read from the server; the roster becomes individual additions and
    removals; the revision is stored only when the database shows them.  Reads
    for one message share a window and all are charged to a budget. *)

From S2P Require Import Prelude Identifiers Bytes Reactions.
From S2P Require Events.
From stdpp Require Import sorting.

#[local] Open Scope string_scope.
#[local] Open Scope list_scope.
#[local] Open Scope Z_scope.

(** What the code uses of [KakaoMessageMetadata]; [None] below is a message
    whose metadata are missing or of another type. *)
Record MessageMeta := mkMeta { ReactionRevision : Z; MiniReactionRevision : Z }.

(** [simplevent.Reaction]: a [RemoteEventReaction] or [...Remove]. *)
Record Delivery := mkDelivery {
  removal : bool;
  Sender : string;
  TargetMessage : string;
  DeliveryEmojiID : string;
  DeliveryEmoji : string;
  StreamOrder : Z;
}.

(** [bridgev2.EventHandlingResult]. *)
Record Result := mkResult { Success : bool; Ignored : bool; Queued : bool; Failed : bool }.

(** [committable] (client.go). *)
Definition committable (result : Result) : bool :=
  Success result && negb (Queued result) && negb (Failed result).

(** [reactions.DetailsResponse]. *)
Record Detail := mkDetail { DetailKind : Z; ReactionID : string; UserIDs : list Z; Title : option string }.
Record DetailsResponse := mkDetails { Status : Z; Details : option (list Detail) }.

(** [reactions.SyncMetaPage], each item as [DecodeSyncedLogMeta] takes it: an
    error, an event of another kind, or a change. *)
Record SyncMetaPage := mkPage { PageItems : list (option (option ReactionChanged)); Last : bool }.

(** The store, the framework, the clock and the server. *)
Class ReactionIO := {
  World : Type;
  (** An error, no message, or a message with its metadata. *)
  firstMessagePart : string -> state World (option (option (option MessageMeta)));
  reactionsToMessage : string -> state World (option (list row));
  reaction : string -> string -> string -> state World (option (option row));
  updateMessage : string -> MessageMeta -> state World bool;
  firstMessageInPortal : Z -> state World (option (option string));
  get : string -> state World (option string);
  put : string -> string -> state World bool;
  queue : Delivery -> state World Result;
  (** [ctx.Err() != nil]. *)
  expired : state World bool;
  now : state World Z;
  ReactionMembers : Z -> Z -> state World (option MembersResponse);
  MiniReactionDetails : Z -> Z -> Z -> state World (option DetailsResponse);
  ReactionMetaSync : Z -> Z -> state World (option SyncMetaPage);
}.

(** ** Mini rosters (mini_reactions.go) *)

Definition quickReactionEmoji (id : string) : option string :=
  snd <$> List.find (fun p => String.eqb (fst p) id)
    [("1200509_029", "❤️"); ("1200509_021", "👍"); ("1200509_037", "✅");
     ("1200509_001", "😆"); ("1200509_002", "😮"); ("1200509_003", "😢")].

(** [strings.ContainsAny(s, "\x00\r\n")]. *)
Definition hasControl (s : string) : bool :=
  existsb (fun b => (b =? 0) || (b =? 10) || (b =? 13)) (Events.bytes_of s).

(** The mini items of the change; [None] if one is invalid or named twice. *)
Fixpoint expectedItems (items : list ReactionItem) (expected : gmap string ReactionItem)
  : option (gmap string ReactionItem) :=
  match items with
  | [] => Some expected
  | item :: items =>
      if negb (Kind item =? 2) then expectedItems items expected
      else if String.eqb (ItemID item) "" || (128 <? Z.of_nat (String.length (ItemID item)))
              || hasControl (ItemID item) || (Count item <? 0) then None
      else match expected !! ItemID item with
      | Some _ => None
      | None => expectedItems items (<[ItemID item := item]> expected)
      end
  end.

Fixpoint distinctActors (users : list Z) (actors : list Z) : option (list Z) :=
  match users with
  | [] => Some actors
  | user :: users =>
      if (user <=? 0) || existsb (Z.eqb user) actors then None else distinctActors users (actors ++ [user])
  end.

(** [sort.Strings] on the keys, then the first that has a text. *)
Definition firstAlt (alt : gmap string string) : string :=
  default "" (snd <$> List.find (fun p => negb (String.eqb (snd p) ""))
    (merge_sort (fun a b => Is_true (String.leb (fst a) (fst b))) (map_to_list alt))).

Definition orElse (a b : string) : string := if String.eqb a "" then b else a.

Definition miniLabel (item : ReactionItem) (detail : Detail) : string :=
  orElse (default "" (quickReactionEmoji (ItemID item)))
   (orElse (default "" (Alt item !! "en"))
    (orElse (firstAlt (Alt item))
     (orElse (default "" (Title detail)) ("Kakao reaction " ++ ItemID item)))).

Definition addActor (id label : string) (users : roster) (actor : Z) : roster :=
  let user := makeUserID actor in
  <[user := default [] (users !! user) ++ [(("kakao:mini:" ++ id)%string, label)]]> users.

Fixpoint addDetails (expected : gmap string ReactionItem) (details : list Detail)
    (seen : gset string) (users : roster) : res ReactionError (gset string * roster) :=
  match details with
  | [] => Ok (seen, users)
  | detail :: details =>
      if negb (DetailKind detail =? 1) && negb (DetailKind detail =? 2) then Err errReactionUnsupported
      else if negb (DetailKind detail =? 2) then addDetails expected details seen users
      else match expected !! ReactionID detail with
      | None => Err errReactionRevision
      | Some item =>
          if bool_decide (ReactionID detail ∈ seen) then Err errReactionRevision else
          match distinctActors (UserIDs detail) [] with
          | None => Err errReactionUnsupported
          | Some actors =>
              if negb (Z.of_nat (length actors) =? Count item) then Err errReactionRevision else
              let label := miniLabel item detail in
              if negb (utf8_Valid (Events.bytes_of label)) || (512 <? Z.of_nat (String.length label))
                 || hasControl label then Err errReactionUnsupported
              else addDetails expected details ({[ReactionID detail]} ∪ seen)
                     (foldl (addActor (ItemID item) label) users actors)
          end
      end
  end.

Definition addMiniReactionUsers (users : roster) (details : DetailsResponse) (change : ReactionChanged)
  : res ReactionError roster :=
  match Details details with
  | None => Err errReactionLookup
  | Some list =>
      if negb (Status details =? 0) then Err errReactionLookup else
      match expectedItems (Items change) ∅ with
      | None => Err errReactionUnsupported
      | Some expected =>
          let! (seen, users) := addDetails expected list ∅ users in
          if existsb (fun '(key, item) => (0 <? Count item) && negb (bool_decide (key ∈ seen))) (map_to_list expected)
          then Err errReactionRevision else Ok users
      end
  end.

(** ** The session's own state *)

Definition reactionConfirmedLimit : nat := 4096.
Definition Millisecond : Z := 1000000.
Definition Second : Z := 1000000000.
Definition reactionLookupCoalesceWindow : Z := 2 * Second.
Definition reactionLookupBurst : Z := 10.
Definition reactionLookupRefill : Z := 20 * Second.

Record reactionLookupKey := mkKey { k_chatID : Z; k_logID : Z; k_type : Z }.

#[export] Instance reactionLookupKey_eq_dec : EqDecision reactionLookupKey.
Proof. solve_decision. Defined.
#[export] Instance reactionLookupKey_countable : Countable reactionLookupKey.
Proof.
  refine (inj_countable' (fun k => (k_chatID k, k_logID k, k_type k)) (fun '(a, b, c) => mkKey a b c) _).
  by intros [].
Defined.

(** A client is what tells sessions apart. *)
Record reactionConfirmation := mkConfirmation { client : Z; revision : Z }.

Record reactionLookupWindow := mkWindow { readAt : Z; pending : option ReactionChanged; armed : bool }.

(** [tokens] counts in units of 1/[reactionLookupRefill], so that a nanosecond
    is one unit; the code's [float64] rounds this. *)
Record reactionLookupBudget := mkBudget { started : bool; tokens : Z; at_ : Z }.

Record Session := mkSession {
  reactionConfirmed : gmap reactionLookupKey reactionConfirmation;
  reactionLookups : gmap reactionLookupKey reactionLookupWindow;
  reactionBudget : reactionLookupBudget;
  (** The timers of [afterFunc], by when they are due. *)
  timers : list (Z * reactionLookupKey);
}.

Definition setLookups (m : gmap reactionLookupKey reactionLookupWindow) (s : Session) : Session :=
  mkSession (reactionConfirmed s) m (reactionBudget s) (timers s).
Definition setTimers (l : list (Z * reactionLookupKey)) (s : Session) : Session :=
  mkSession (reactionConfirmed s) (reactionLookups s) (reactionBudget s) l.

(** ** reaction_lookup.go *)

Definition take (b : reactionLookupBudget) (now cost : Z) : reactionLookupBudget * bool :=
  let b := if started b then b else mkBudget true (reactionLookupBurst * reactionLookupRefill) now in
  let elapsed := now - at_ b in
  let tokens := if 0 <? elapsed then Z.min (reactionLookupBurst * reactionLookupRefill) (tokens b + elapsed)
                else tokens b in
  if tokens <? cost * reactionLookupRefill then (mkBudget true tokens now, false)
  else (mkBudget true (tokens - cost * reactionLookupRefill) now, true).

Definition lookupCost (change : ReactionChanged) : Z := if MetadataType change =? 2 then 2 else 1.

Definition keyOf (change : ReactionChanged) : reactionLookupKey :=
  mkKey (ChatID change) (LogID change) (MetadataType change).

Definition reactionLookupPending (change : ReactionChanged) (s : Session) : bool :=
  match reactionLookups s !! keyOf change with
  | Some w => match pending w with Some _ => true | None => false end
  | None => false
  end.

Definition isIdle (now : Z) (w : reactionLookupWindow) : bool :=
  match pending w with
  | None => negb (armed w) && (reactionLookupCoalesceWindow <=? now - readAt w)
  | Some _ => false
  end.

(** [coalesceReactionLookup] at a given time. *)
Definition coalesceReactionLookup (now : Z) (change : ReactionChanged) (s : Session) : Session * bool :=
  let key := keyOf change in
  let m := filter (fun p => Is_true (negb (isIdle now p.2))) (reactionLookups s) in
  let admitted := (setLookups (<[key := mkWindow now None false]> m) s, false) in
  match m !! key with
  | None => admitted
  | Some w =>
      if match pending w with None => reactionLookupCoalesceWindow <=? now - readAt w | Some _ => false end
      then admitted
      else
        let newest := match pending w with
          | Some p => if Revision p <? Revision change then change else p
          | None => change
          end in
        let s := setLookups (<[key := mkWindow (readAt w) (Some newest) true]> m) s in
        let delay := Z.max (reactionLookupCoalesceWindow - (now - readAt w)) Millisecond in
        (if armed w then s else setTimers (timers s ++ [(now + delay, key)]) s, true)
  end.

(** The part of [flushReactionLookup] under the lock: the change to apply. *)
Definition takePending (now : Z) (key : reactionLookupKey) (s : Session) : Session * option ReactionChanged :=
  match reactionLookups s !! key with
  | None => (s, None)
  | Some w =>
      match pending w with
      | None => (setLookups (<[key := mkWindow (readAt w) None false]> (reactionLookups s)) s, None)
      | Some change => (setLookups (<[key := mkWindow now None false]> (reactionLookups s)) s, Some change)
      end
  end.

(** ** Confirmations (reaction_derive.go) *)

Definition legacyKey (change : ReactionChanged) : reactionLookupKey := mkKey (ChatID change) (LogID change) 1.

Definition confirmLegacyReactions (c : Z) (change : ReactionChanged) (revision : Z) (s : Session) : Session :=
  if negb (MetadataType change =? 1) then s else
  let m := if (reactionConfirmedLimit <=? size (reactionConfirmed s))%nat then ∅ else reactionConfirmed s in
  mkSession (<[legacyKey change := mkConfirmation c revision]> m) (reactionLookups s) (reactionBudget s) (timers s).

Definition legacyReactionsConfirmed (c : Z) (change : ReactionChanged) (stored : Z) (s : Session) : bool :=
  match reactionConfirmed s !! legacyKey change with
  | Some confirmed => (client confirmed =? c) && (revision confirmed =? stored) && (0 <? stored)
  | None => false
  end.

Section Sync.
Context `{ReactionIO}.
(** The account's user ID and login ID; the session's client. *)
Context (userID : Z) (login : string) (c : Z).

Definition KC : Type := Session * World.

Definition io {A} (m : state World A) : state KC A :=
  fun kc => let '(w, a) := m (snd kc) in ((fst kc, w), a).
Definition own {A} (f : Session -> Session * A) : state KC A :=
  fun kc => let '(s, a) := f (fst kc) in ((s, snd kc), a).

(** Results of the handlers: the early return of an error. *)
Definition try {A B} (m : state KC (res ReactionError A)) (k : A -> state KC (res ReactionError B))
  : state KC (res ReactionError B) :=
  let* r := m in match r with Ok a => k a | Err e => ret (Err e) end.

Definition target (change : ReactionChanged) : string := makeMessageID (ChatID change) (LogID change).

(** ** Revisions *)

Definition reactionMetadataRevision (meta : option MessageMeta) (metadataType : Z) : Z :=
  match meta with
  | Some m => if metadataType =? 2 then MiniReactionRevision m else ReactionRevision m
  | None => 0
  end.

Definition storedReactionRevision (change : ReactionChanged) (metadataType : Z)
  : state KC (res ReactionError Z) :=
  let* msg := io (firstMessagePart (target change)) in
  ret (match msg with
    | None => Err errReactionStore
    | Some None => Ok 0
    | Some (Some meta) => Ok (reactionMetadataRevision meta metadataType)
    end).

Definition persistReactionRevision (change : ReactionChanged) (appliedRevision : Z)
  : state KC (res ReactionError unit) :=
  if appliedRevision <=? 0 then ret (Err errReactionRevision) else
  let* msg := io (firstMessagePart (target change)) in
  match msg with
  | None => ret (Err errReactionStore)
  | Some None => ret (Ok tt)
  | Some (Some None) => ret (Err errReactionRevision)
  | Some (Some (Some m)) =>
      if appliedRevision <=? reactionMetadataRevision (Some m) (MetadataType change) then ret (Ok tt) else
      let m := if MetadataType change =? 2 then mkMeta (ReactionRevision m) appliedRevision
               else mkMeta appliedRevision (MiniReactionRevision m) in
      let* ok := io (updateMessage (target change) m) in
      ret (if ok then Ok tt else Err errReactionStore)
  end.

(** [kakaoReactionSync]; [HasAllUsers] is always set. *)
Record kakaoReactionSync := mkSync {
  SyncTarget : string;
  Users : roster;
  SyncOrder : Z;
  AppliedRevision : Z;
  IncludesMini : bool;
}.

Definition deriveLegacyReactions (change : ReactionChanged) (stored : Z)
  : state KC (res ReactionError (option kakaoReactionSync)) :=
  let* confirmed := own (fun s => (s, legacyReactionsConfirmed c change stored s)) in
  if negb (MetadataType change =? 1) || negb (HasOwnPick (Extra change)) || negb confirmed then ret (Ok None) else
  let* rows := io (reactionsToMessage (target change)) in
  ret (match rows with
    | None => Err errReactionStore
    | Some rows => Ok ((fun picks => mkSync (target change) (rosterOfPicks picks) (Revision change) (Revision change) false)
                         <$> derivedPicks userID rows change)
    end).

Definition coalesce_ (change : ReactionChanged) : state KC bool :=
  let* t := io now in own (coalesceReactionLookup t change).

Definition takeReactionLookups (change : ReactionChanged) : state KC bool :=
  let* t := io now in
  own (fun s => let '(b, ok) := take (reactionBudget s) t (lookupCost change) in
    (mkSession (reactionConfirmed s) (reactionLookups s) b (timers s), ok)).

(** The observed answer for a message with mini reactions only. *)
Definition emptyLegacy (change : ReactionChanged) (members : MembersResponse) : bool :=
  (MetadataType change =? 2) && (MembersRevision members =? 0) && (size (Members members) =? 0)%nat
  && match Fields members with
     | [f] => String.eqb (FieldKey f) "revision" && String.eqb (Raw f) "0"
     | _ => false
     end.

(** The members read and, for a mini change, the details read. *)
Definition readRoster (change : ReactionChanged) (stored : Z)
  : state KC (res ReactionError kakaoReactionSync) :=
  let* members := io (ReactionMembers (ChatID change) (LogID change)) in
  match members with
  | None => ret (Err errReactionRequest)
  | Some members =>
      if negb (MetadataType change =? 2)
         && ((MembersRevision members <? Revision change) || (MembersRevision members <? stored))
      then ret (Err errReactionRevision) else
      try (if MetadataType change =? 2 then
             try (storedReactionRevision change 1) (fun legacyStored =>
               ret (if MembersRevision members <? legacyStored then Err errReactionRevision else Ok tt))
           else ret (Ok tt)) (fun _ =>
      match (if emptyLegacy change members then Ok ∅ else reactionSyncUsers members) with
      | Err e => ret (Err e)
      | Ok users =>
          if MetadataType change =? 2 then
            let* mini := io (MiniReactionDetails (ChatID change) (LinkID change) (LogID change)) in
            ret (match mini with
              | None => Err errReactionRequest
              | Some mini =>
                  let! users := addMiniReactionUsers users mini change in
                  Ok (mkSync (target change) users (Revision change) (Revision change) true)
              end)
          else ret (Ok (mkSync (target change) users (Revision change) (MembersRevision members) false))
      end)
  end.

Definition changeValid (change : ReactionChanged) : bool :=
  negb ((ChatID change <=? 0) || (LogID change <=? 0) || (LinkID change <? 0) || (Revision change <=? 0)).

Definition itemSupported (change : ReactionChanged) (item : ReactionItem) : bool :=
  (Kind item =? 1) || (MetadataType change =? 2) && (Kind item =? 2).

Definition reactionRemote (change : ReactionChanged) (coalesce : bool)
  : state KC (res ReactionError (option kakaoReactionSync)) :=
  if negb (changeValid change) then ret (Err errReactionRevision) else
  if negb (forallb (itemSupported change) (Items change)) then ret (Err errReactionUnsupported) else
  try (storedReactionRevision change (MetadataType change)) (fun stored =>
  if Revision change <=? stored then ret (Ok None) else
  let* waiting := own (fun s => (s, coalesce && reactionLookupPending change s)) in
  let* deferred := (if waiting then coalesce_ change else ret false) in
  if deferred then ret (Err errReactionLookupDeferred) else
  try (deriveLegacyReactions change stored) (fun derived =>
  match derived with
  | Some sync => ret (Ok (Some sync))
  | None =>
      let* deferred := (if coalesce then coalesce_ change else ret false) in
      if deferred then ret (Err errReactionLookupDeferred) else
      let* admitted := takeReactionLookups change in
      if negb admitted then ret (Err errReactionLookupBudget) else
      try (readRoster change stored) (fun sync => ret (Ok (Some sync)))
  end)).

(** ** Delivery *)

Definition rowKey (r : row) : string * string := (SenderID r, EmojiID r).

(** [sort.Slice] by sender and emoji; entries of one key keep any order. *)
Definition keyLe (a b : string * string) : bool :=
  if String.eqb (fst a) (fst b) then String.leb (snd a) (snd b) else String.leb (fst a) (fst b).

(** The reactions of a roster: sender, emoji ID and text. *)
Definition rosterEntries (users : roster) : list (string * string * string) :=
  p ← map_to_list users; (fun '(id, text) => (fst p, id, text)) <$> List.filter (fun q => negb (String.eqb (fst q) "")) (snd p).

(** [existingByKey]: a later row of a key replaces an earlier one. *)
Definition existingByKey (rows : list row) : gmap (string * string) row :=
  foldl (fun m r => <[rowKey r := r]> m) ∅ rows.

(** The loop over the roster: what to add, and the rows no reaction claims. *)
Fixpoint planAdditions (entries : list (string * string * string)) (existing : gmap (string * string) row)
  : list (string * string * string) * gmap (string * string) row :=
  match entries with
  | [] => ([], existing)
  | (sender, id, text) :: entries =>
      let key := (sender, id) in
      let bridged := match existing !! key with Some old => negb (String.eqb (RowMXID old) "") | None => false end in
      let '(additions, rest) := planAdditions entries (delete key existing) in
      (if bridged then additions else (sender, id, text) :: additions, rest)
  end.

Definition removable (sync : kakaoReactionSync) (old : row) : bool :=
  match legacyReactionEmojiID (EmojiID old) with
  | Some _ => true
  | None => IncludesMini sync && String.prefix "kakao:mini:" (EmojiID old)
  end.

Definition deliveryPlan (sync : kakaoReactionSync) (rows : list row) : list Delivery :=
  let '(additions, rest) := planAdditions (rosterEntries (Users sync)) (existingByKey rows) in
  ((fun '(sender, id, text) => mkDelivery false sender (SyncTarget sync) id text (SyncOrder sync))
     <$> merge_sort (fun a b => Is_true (keyLe (fst a) (fst b))) additions)
  ++ ((fun old => mkDelivery true (SenderID old) (SyncTarget sync) (EmojiID old) (RowEmoji old) (SyncOrder sync))
     <$> List.filter (fun old => removable sync old && bool_decide (is_Some (rest !! rowKey old)))
           (merge_sort (fun a b => Is_true (keyLe (rowKey a) (rowKey b))) rows)).

Definition reactionDeliveryEvents (sync : kakaoReactionSync) : state KC (res ReactionError (list Delivery)) :=
  let* message := io (firstMessagePart (SyncTarget sync)) in
  match message with
  | None => ret (Err errReactionStore)
  | Some None => ret (Err errReactionTargetMissing)
  | Some (Some _) =>
      let* rows := io (reactionsToMessage (SyncTarget sync)) in
      ret (match rows with None => Err errReactionStore | Some rows => Ok (deliveryPlan sync rows) end)
  end.

(** One delivery: [None] if [applyReaction] returns false here, else whether its
    postcondition was seen. *)
Definition deliver (d : Delivery) : state KC (option bool) :=
  let lookup := reaction (TargetMessage d) (Sender d) (DeliveryEmojiID d) in
  let* gone := (if removal d then
                  let* row := io lookup in
                  ret (match row with None => None | Some None => Some true | Some (Some _) => Some false end)
                else ret (Some false)) in
  match gone with
  | None => ret None
  | Some true => ret (Some true)
  | Some false =>
      let* result := io (queue d) in
      if negb (committable result) then ret None else
      if removal d then
        let* row := io lookup in
        ret (match row with Some None => Some true | _ => None end)
      else if Ignored result then
        let* row := io lookup in
        ret (match row with Some (Some _) => Some true | _ => Some false end)
      else ret (Some true)
  end.

(** The loop of [applyReaction]; [None] if it returns false. *)
Fixpoint deliverAll (ds : list Delivery) (applied : bool) : state KC (res ReactionError (option bool)) :=
  match ds with
  | [] => ret (Ok (Some applied))
  | d :: ds =>
      let* stop := io expired in
      if stop then ret (Err errReactionCancelled) else
      let* r := deliver d in
      match r with
      | None => ret (Ok None)
      | Some ok => deliverAll ds (applied && ok)
      end
  end.

Definition applyReaction (change : ReactionChanged) (coalesce : bool) : state KC (res ReactionError bool) :=
  let* remote := reactionRemote change coalesce in
  match remote with
  | Err errReactionLookupDeferred => ret (Ok true)
  | Err e => ret (Err e)
  | Ok None => ret (Ok true)
  | Ok (Some sync) =>
      let* remotes := reactionDeliveryEvents sync in
      match remotes with
      | Err _ => ret (Ok false)
      | Ok remotes =>
          try (deliverAll remotes true) (fun applied =>
          match applied with
          | None => ret (Ok false)
          | Some applied =>
              let* stop := io expired in
              if stop then ret (Err errReactionCancelled) else
              if applied then
                let* saved := persistReactionRevision change (AppliedRevision sync) in
                match saved with
                | Err _ => ret (Ok false)
                | Ok _ =>
                    own (fun s => (confirmLegacyReactions c change (AppliedRevision sync) s, tt));*
                    ret (Ok true)
                end
              else ret (Ok true)
          end)
      end
  end.

(** ** reaction_resync.go *)

Definition reactionResyncPages : nat := 10.

Definition reactionResyncKey (chatID : Z) : string :=
  ("kakao:reaction-sync:" ++ login ++ ":" ++ FormatInt chatID)%string.

(** The items of one page. *)
Fixpoint resyncItems (chatID : Z) (items : list (option (option ReactionChanged))) (next : Z)
  : state KC (res ReactionError Z) :=
  match items with
  | [] => ret (Ok next)
  | None :: _ => ret (Err errReactionRequest)
  | Some None :: items => resyncItems chatID items next
  | Some (Some change) :: items =>
      if negb (ChatID change =? chatID) then resyncItems chatID items next else
      let next := if next <? Revision change then Revision change else next in
      let* msg := io (firstMessagePart (makeMessageID chatID (LogID change))) in
      match msg with
      | None => ret (Err errReactionStore)
      | Some None => resyncItems chatID items next
      | Some (Some _) =>
          let* handled := applyReaction change false in
          match handled with
          | Err errReactionLookupBudget => ret (Err errReactionSyncBudget)
          | Ok true => resyncItems chatID items next
          | Ok false => ret (Err errReactionLookup)
          | Err e => ret (Err e)
          end
      end
  end.

Fixpoint resyncPages (pages : nat) (chatID cur : Z) : state KC (res ReactionError unit) :=
  match pages with
  | O => ret (Err errReactionSyncBudget)
  | S pages =>
      let* stop := io expired in
      if stop then ret (Err errReactionCancelled) else
      let* page := io (ReactionMetaSync chatID cur) in
      match page with
      | None => ret (Err errReactionRequest)
      | Some page =>
          try (resyncItems chatID (PageItems page) cur) (fun next =>
          let* stop := io expired in
          if stop then ret (Err errReactionCancelled) else
          let* saved := (if cur <? next then io (put (reactionResyncKey chatID) (FormatInt next)) else ret true) in
          if negb saved then ret (Err errReactionStore) else
          if Last page || (next <=? cur) then ret (Ok tt) else resyncPages pages chatID next)
      end
  end.

(** [None] is a chat that has no message yet, or none of its own. *)
Definition resyncStart (chatID : Z) : state KC (res ReactionError (option Z)) :=
  let* raw := io (get (reactionResyncKey chatID)) in
  match raw with
  | None => ret (Err errReactionStore)
  | Some raw =>
      let cur := default 0 (ParseInt raw) in
      if 0 <? cur then ret (Ok (Some cur)) else
      let* first := io (firstMessageInPortal chatID) in
      ret (match first with
        | None => Err errReactionStore
        | Some None => Ok None
        | Some (Some id) =>
            match parseMessageID id with
            | Ok (_, logID) => Ok (Some logID)
            | Err _ => Ok None
            end
        end)
  end.

Definition resyncChatReactions (chatID : Z) : state KC (res ReactionError unit) :=
  try (resyncStart chatID) (fun cur =>
  match cur with
  | None => ret (Ok tt)
  | Some cur => resyncPages reactionResyncPages chatID cur
  end).

(** [flushReactionLookup]; [connected] is whether the session has a client. *)
Definition flushReactionLookup (key : reactionLookupKey) (connected : bool)
  : state KC (option (res ReactionError bool)) :=
  let* t := io now in
  let* change := own (takePending t key) in
  match change with
  | Some change =>
      if connected then let* r := applyReaction change false in ret (Some r) else ret None
  | None => ret None
  end.
End Sync.
