(* ===== verification/ReactionSyncFacts.v ===== *)
(** * The database under reaction updates

    What the store and the framework do ([Lawful]), and what the steps of
    [applyReaction] and of a resync keep. *)

From S2P Require Import Prelude Identifiers Reactions ReactionSync.
From stdpp Require Import sorting.

#[local] Open Scope string_scope.
#[local] Open Scope list_scope.
#[local] Open Scope Z_scope.

(** The documented behaviour of the database and the framework.  A read answers
    what is stored or fails; a delivery concerns the row of its own sender and
    emoji, and an addition that is reported done and not ignored has its row; an
    update that fails may still have happened; asking the server changes nothing stored. *)
Class Lawful `(ReactionIO) := {
  metaOf : World -> string -> option (option MessageMeta);
  rowsOf : World -> string -> list row;
  kvOf : World -> string -> string;
  same (w w' : World) : Prop :=
    (forall id, metaOf w' id = metaOf w id) /\ (forall id, rowsOf w' id = rowsOf w id) /\
    (forall k, kvOf w' k = kvOf w k);
  firstMessagePart_law id w w' r : firstMessagePart id w = (w', r) ->
    same w w' /\ forall found, r = Some found -> found = metaOf w id;
  reactionsToMessage_law id w w' r : reactionsToMessage id w = (w', r) ->
    same w w' /\ forall rows, r = Some rows -> rows = rowsOf w id;
  reaction_law id sender emoji w w' r : reaction id sender emoji w = (w', r) ->
    same w w' /\
    (r = Some None -> forall x, x ∈ rowsOf w id -> rowKey x <> (sender, emoji)) /\
    (forall x, r = Some (Some x) -> exists y, y ∈ rowsOf w id /\ rowKey y = (sender, emoji));
  updateMessage_law id m w w' ok : updateMessage id m w = (w', ok) ->
    (forall id', rowsOf w' id' = rowsOf w id') /\ (forall k, kvOf w' k = kvOf w k) /\
    (forall id', id' <> id -> metaOf w' id' = metaOf w id') /\
    (metaOf w' id = Some (Some m) \/ ok = false /\ metaOf w' id = metaOf w id);
  queue_law d w w' r : queue d w = (w', r) ->
    (forall id, metaOf w' id = metaOf w id) /\ (forall k, kvOf w' k = kvOf w k) /\
    (forall id x, id <> TargetMessage d \/ rowKey x <> (Sender d, DeliveryEmojiID d) ->
       x ∈ rowsOf w' id <-> x ∈ rowsOf w id) /\
    (committable r = true -> removal d = false -> Ignored r = false ->
       exists y, y ∈ rowsOf w' (TargetMessage d) /\ rowKey y = (Sender d, DeliveryEmojiID d));
  put_law k v w w' ok : put k v w = (w', ok) ->
    (forall id, metaOf w' id = metaOf w id) /\ (forall id, rowsOf w' id = rowsOf w id) /\
    (forall k', k' <> k -> kvOf w' k' = kvOf w k') /\
    (kvOf w' k = v \/ ok = false /\ kvOf w' k = kvOf w k);
  get_law k w w' r : get k w = (w', r) -> same w w' /\ forall v, r = Some v -> v = kvOf w k;
  pages_law chatID cur w : same w (fst (ReactionMetaSync chatID cur w));
  firstMessageInPortal_law chatID w : same w (fst (firstMessageInPortal chatID w));
  expired_law w : same w (fst (expired w));
  now_law w : same w (fst (now w));
  members_law chatID logID w : same w (fst (ReactionMembers chatID logID w));
  mini_law chatID linkID logID w : same w (fst (MiniReactionDetails chatID linkID logID w));
}.

Section Facts.
Context `{Lawful}.
Context (userID : Z) (login : string) (c : Z).

#[export] Instance same_refl : Reflexive same.
Proof. by intros w. Qed.

#[export] Instance same_trans : Transitive same.
Proof.
  intros w1 w2 w3 (A1 & B1 & C1) (A2 & B2 & C2). split_and!; intros x; [by rewrite A2|by rewrite B2|by rewrite C2].
Qed.

(** ** Reads *)

Definition readonly {A} (m : state KC A) : Prop := forall kc, same (snd kc) (snd (fst (m kc))).

Lemma readonly_bind {A B} (m : state KC A) (k : A -> state KC B) :
  readonly m -> (forall a, readonly (k a)) -> readonly (bind m k).
Proof.
  intros Hm Hk kc. unfold bind. specialize (Hm kc). destruct (m kc) as [kc' a]. simpl in *.
  etransitivity; [exact Hm|apply Hk].
Qed.

Lemma readonly_ret {A} (a : A) : readonly (ret a).
Proof. by intros kc. Qed.

Lemma readonly_own {A} (f : Session -> Session * A) : readonly (own f).
Proof. intros kc. unfold own. by destruct (f (fst kc)). Qed.

Lemma readonly_io {A} (m : state World A) : (forall w, same w (fst (m w))) -> readonly (io m).
Proof. intros Hm kc. unfold io. specialize (Hm (snd kc)). by destruct (m (snd kc)). Qed.

Lemma readonly_try {A B} (m : state KC (res ReactionError A)) (k : A -> state KC (res ReactionError B)) :
  readonly m -> (forall a, readonly (k a)) -> readonly (try m k).
Proof. intros Hm Hk. apply readonly_bind; [done|]. intros [a|e]; [apply Hk|apply readonly_ret]. Qed.

Lemma firstMessagePart_same id w : same w (fst (firstMessagePart id w)).
Proof. destruct (firstMessagePart id w) eqn:E. by apply firstMessagePart_law in E as [? _]. Qed.

Lemma reactionsToMessage_same id w : same w (fst (reactionsToMessage id w)).
Proof. destruct (reactionsToMessage id w) eqn:E. by apply reactionsToMessage_law in E as [? _]. Qed.

Create HintDb readonly discriminated.
#[local] Hint Resolve readonly_ret readonly_own : readonly.
#[local] Hint Extern 1 (readonly (io _)) => apply readonly_io; intros;
  first [apply now_law|apply expired_law|apply members_law|apply mini_law
        |apply firstMessagePart_same|apply reactionsToMessage_same] : readonly.

(** Follows the program; every leaf is a hint. *)
Ltac readonly :=
  repeat first
    [ progress eauto 1 with readonly
    | apply readonly_try; [|intros]
    | apply readonly_bind; [|intros]
    | case_match ].

Lemma storedReactionRevision_readonly change t : readonly (storedReactionRevision change t).
Proof. unfold storedReactionRevision. readonly. Qed.

Lemma deriveLegacyReactions_readonly change stored : readonly (deriveLegacyReactions userID c change stored).
Proof. unfold deriveLegacyReactions. readonly. Qed.

#[local] Hint Resolve storedReactionRevision_readonly deriveLegacyReactions_readonly : readonly.

Lemma readRoster_readonly change stored : readonly (readRoster change stored).
Proof. unfold readRoster. readonly. Qed.

Lemma coalesce_readonly change : readonly (coalesce_ change).
Proof. unfold coalesce_. readonly. Qed.

Lemma takeReactionLookups_readonly change : readonly (takeReactionLookups change).
Proof. unfold takeReactionLookups. readonly. Qed.

#[local] Hint Resolve readRoster_readonly coalesce_readonly takeReactionLookups_readonly : readonly.

Lemma reactionRemote_readonly change coalesce : readonly (reactionRemote userID c change coalesce).
Proof. unfold reactionRemote. readonly. Qed.

(** ** Deliveries *)

Definition keysOf (rows : list row) (k : string * string) : Prop := exists x, x ∈ rows /\ rowKey x = k.

Definition deliveryKey (d : Delivery) : string * string := (Sender d, DeliveryEmojiID d).

(** Metadata and cursors stay; only the row of [d]'s own key may change. *)
Definition touched (d : Delivery) (w w' : World) : Prop :=
  (forall id, metaOf w' id = metaOf w id) /\ (forall k, kvOf w' k = kvOf w k) /\
  (forall k, k <> deliveryKey d ->
     keysOf (rowsOf w' (TargetMessage d)) k <-> keysOf (rowsOf w (TargetMessage d)) k).

Lemma same_touched d w w' : same w w' -> touched d w w'.
Proof. intros (Hm & Hr & Hk). split_and!; [done|done|]. intros k _. by rewrite Hr. Qed.

Lemma touched_trans d w1 w2 w3 : touched d w1 w2 -> touched d w2 w3 -> touched d w1 w3.
Proof.
  intros (A1 & B1 & C1) (A2 & B2 & C2). split_and!; intros; [by rewrite A2|by rewrite B2|].
  rewrite C2 by done. by apply C1.
Qed.

Lemma queue_touched d w : touched d w (fst (queue d w)).
Proof.
  destruct (queue d w) as [w' r] eqn:E. apply queue_law in E as (Hm & Hk & Hr & _). simpl.
  split_and!; [done|done|]. intros k Hne.
  split; intros (x & Hx & <-); exists x; (split; [|done]); apply (Hr (TargetMessage d) x); auto.
Qed.

Lemma reaction_touched d w :
  touched d w (fst (reaction (TargetMessage d) (Sender d) (DeliveryEmojiID d) w)).
Proof.
  destruct (reaction _ _ _ w) as [w' r] eqn:E. apply reaction_law in E as [Hs _]. by apply same_touched.
Qed.

(** What the row lookup of a delivery says. *)
Lemma reaction_found d w w' x :
  reaction (TargetMessage d) (Sender d) (DeliveryEmojiID d) w = (w', Some (Some x)) ->
  keysOf (rowsOf w' (TargetMessage d)) (deliveryKey d).
Proof.
  intros E. apply reaction_law in E as ((_ & Hr & _) & _ & Hf). rewrite Hr. by apply (Hf x).
Qed.

Lemma reaction_gone d w w' :
  reaction (TargetMessage d) (Sender d) (DeliveryEmojiID d) w = (w', Some None) ->
  ~ keysOf (rowsOf w' (TargetMessage d)) (deliveryKey d).
Proof.
  intros E. apply reaction_law in E as ((_ & Hr & _) & Hn & _). rewrite Hr.
  intros (x & Hx & Hk). by apply (Hn eq_refl x).
Qed.

(** A delivery that is done has its row, or has none if it is a removal. *)
Lemma deliver_spec d s w s' w' r :
  deliver d (s, w) = ((s', w'), r) ->
  s' = s /\ touched d w w' /\
  (r = Some true ->
     if removal d then ~ keysOf (rowsOf w' (TargetMessage d)) (deliveryKey d)
     else keysOf (rowsOf w' (TargetMessage d)) (deliveryKey d)).
Proof.
  unfold deliver, bind, io, ret. cbn [fst snd].
  pose proof (reaction_touched d w) as T0. destruct (removal d) eqn:Er.
  - cbv beta iota. cbn [fst snd]. destruct (reaction _ _ _ w) as [w1 row] eqn:E1. cbn [fst snd] in *.
    destruct row as [[x|]|]; cbv beta iota; [|intros [= <- <- <-]; split_and!; [done|done|intros _; by eapply reaction_gone]
      |intros [= <- <- <-]; by split_and!].
    cbn [fst snd].
    pose proof (queue_touched d w1) as T1. destruct (queue d w1) as [w2 result]. cbn [fst snd] in *.
    pose proof (touched_trans _ _ _ _ T0 T1) as T2.
    destruct (committable result); cbn [negb]; cbv beta iota; cbn [fst snd]; [|intros [= <- <- <-]; by split_and!].
    pose proof (reaction_touched d w2) as T3. destruct (reaction _ _ _ w2) as [w3 row] eqn:E3. cbn [fst snd] in *.
    intros [= <- <- <-]. split_and!; [done|by eapply touched_trans|].
    destruct row as [[y|]|]; [done| |done]. intros _. by eapply reaction_gone.
  - cbv beta iota. cbn [fst snd].
    pose proof (queue_touched d w) as T1. destruct (queue d w) as [w2 result] eqn:Eq. cbn [fst snd] in *.
    destruct (committable result) eqn:Ec; cbn [negb]; cbv beta iota; cbn [fst snd]; [|intros [= <- <- <-]; by split_and!].
    destruct (Ignored result) eqn:Ei; cbv beta iota; cbn [fst snd].
    + pose proof (reaction_touched d w2) as T3. destruct (reaction _ _ _ w2) as [w3 row] eqn:E3. cbn [fst snd] in *.
      intros [= <- <- <-]. split_and!; [done|by eapply touched_trans|].
      destruct row as [[y|]|]; [|done|done]. intros _. by eapply reaction_found.
    + intros [= <- <- <-]. split_and!; [done|done|]. intros _. apply queue_law in Eq as (_ & _ & _ & Ha). by apply Ha.
Qed.

(** After all of them, each delivery's postcondition holds if their keys differ. *)
Definition shows (ds : list Delivery) (t : string) (w : World) : Prop :=
  forall d, d ∈ ds -> if removal d then ~ keysOf (rowsOf w t) (deliveryKey d) else keysOf (rowsOf w t) (deliveryKey d).

Definition coherent (ds : list Delivery) : Prop :=
  forall d d', d ∈ ds -> d' ∈ ds -> deliveryKey d = deliveryKey d' -> removal d = removal d'.

(** Only the rows of the deliveries' keys may change. *)
Definition touchedAll (ds : list Delivery) (t : string) (w w' : World) : Prop :=
  (forall id, metaOf w' id = metaOf w id) /\ (forall k, kvOf w' k = kvOf w k) /\
  (forall k, k ∉ deliveryKey <$> ds -> keysOf (rowsOf w' t) k <-> keysOf (rowsOf w t) k).

Lemma deliverAll_spec ds t applied s w s' w' r :
  Forall (fun d => TargetMessage d = t) ds -> coherent ds ->
  deliverAll ds applied (s, w) = ((s', w'), r) ->
  s' = s /\ touchedAll ds t w w' /\
  (r = Ok (Some true) -> applied = true /\ shows ds t w').
Proof.
  intros Ht. revert applied s w. induction Ht as [|d ds Hd Ht IH]; intros applied s w Hc; cbn [deliverAll].
  { unfold ret. intros [= <- <- <-]. split_and!; [done|by split_and!|]. intros [= ->]. split; [done|].
    intros d Hin. by apply elem_of_nil in Hin. }
  unfold bind at 1, io at 1. cbn [fst snd].
  pose proof (expired_law w) as He. destruct (expired w) as [w1 stop]. cbn [fst snd] in He.
  destruct He as (He1 & He2 & He3).
  destruct stop; [unfold ret; intros [= <- <- <-]; split_and!; [done|split_and!; [done|done|]|done]; intros k _; by rewrite He2|].
  unfold bind at 1. destruct (deliver d (s, w1)) as [[s2 w2] r2] eqn:Ed.
  apply deliver_spec in Ed as (-> & (T1 & T2 & T3) & Hp). rewrite Hd in *.
  assert (Hone : touchedAll [d] t w w2).
  { split_and!; [intros; by rewrite T1|intros; by rewrite T2|]. intros k Hk.
    rewrite T3 by (intros ->; apply Hk, list_elem_of_here). by rewrite He2. }
  destruct r2 as [ok|].
  2: { unfold ret. intros [= <- <- <-]. split_and!; [done|split_and!; [apply Hone|apply Hone|]|done].
       intros k Hk. apply Hone. intros ->%list_elem_of_singleton. apply Hk, list_elem_of_here. }
  intros E. apply IH in E as (-> & (A1 & A2 & A3) & Hsh).
  2: { intros d1 d2 H1 H2. apply Hc; by apply list_elem_of_further. }
  split_and!; [done| |].
  - split_and!; [intros; rewrite A1; apply Hone|intros; rewrite A2; apply Hone|]. intros k Hk.
    rewrite A3 by (intros Hin; by apply Hk, list_elem_of_further). apply Hone.
    intros ->%list_elem_of_singleton. apply Hk, list_elem_of_here.
  - intros Er. destruct (Hsh Er) as [Hap Hs]. apply andb_true_iff in Hap as [-> ->]. split; [done|].
    specialize (Hp eq_refl). intros d' [->|Hin]%elem_of_cons; [|by apply Hs].
    destruct (decide (deliveryKey d ∈ deliveryKey <$> ds)) as [Hk|Hk].
    + apply list_elem_of_fmap in Hk as (d1 & Hk1 & Hd1).
      rewrite (Hc d d1), Hk1; [by apply Hs|apply list_elem_of_here|by apply list_elem_of_further|done].
    + destruct (removal d); rewrite A3 by done; done.
Qed.

(** ** The plan *)

Definition entryKey (e : string * string * string) : string * string := fst e.

Lemma planAdditions_spec entries existing adds rest :
  planAdditions entries existing = (adds, rest) ->
  (forall e, e ∈ adds -> e ∈ entries) /\
  (forall k, is_Some (rest !! k) <-> is_Some (existing !! k) /\ k ∉ entryKey <$> entries) /\
  (forall e, e ∈ entries -> entryKey e ∈ entryKey <$> adds \/ is_Some (existing !! entryKey e)).
Proof.
  revert existing adds rest. induction entries as [|[[sender id] text] entries IH]; intros existing adds rest;
    cbn [planAdditions].
  { intros [= <- <-]. split_and!; [done| |by intros e ?%elem_of_nil].
    intros k. split; [|by intros []]. intros Hk. split; [done|apply not_elem_of_nil]. }
  destruct (planAdditions entries _) as [adds' rest'] eqn:E.
  apply IH in E as (H1 & H2 & H3). intros [= <- <-].
  set (bridged := match existing !! (sender, id) with Some _ => _ | None => _ end).
  assert (Hb : bridged = true -> is_Some (existing !! (sender, id))) by (unfold bridged; by destruct (existing !! _)).
  split_and!.
  - intros e He. destruct bridged; [by apply list_elem_of_further, H1|].
    apply elem_of_cons in He as [->|He]; [apply list_elem_of_here|by apply list_elem_of_further, H1].
  - intros k. rewrite H2, fmap_cons, not_elem_of_cons. cbn [entryKey fst].
    destruct (decide (k = (sender, id))) as [->|Hk].
    + rewrite lookup_delete_eq. split; [by intros [[? ?] _]|by intros (_ & ? & _)].
    + rewrite lookup_delete_ne by done. tauto.
  - intros e [->|He]%elem_of_cons; cbn [entryKey fst].
    + destruct bridged; [right; by apply Hb|left; apply list_elem_of_here].
    + destruct (H3 e He) as [Hin|Hex].
      * left. destruct bridged; [done|]. rewrite fmap_cons. by apply list_elem_of_further.
      * right. destruct (decide (entryKey e = (sender, id))) as [Hk|Hk].
        -- rewrite Hk, lookup_delete_eq in Hex. by destruct Hex.
        -- by rewrite lookup_delete_ne in Hex.
Qed.

Lemma existingByKey_spec rows k : is_Some (existingByKey rows !! k) <-> keysOf rows k.
Proof.
  unfold existingByKey. assert (Hm : forall m : gmap (string * string) row, is_Some (foldl (fun m r => <[rowKey r := r]> m) m rows !! k) <->
    keysOf rows k \/ is_Some (m !! k)).
  { induction rows as [|r rows IH]; intros m; cbn [foldl].
    - split; [by right|]. intros [(x & Hx & _)|?]; [by apply elem_of_nil in Hx|done].
    - rewrite IH. destruct (decide (rowKey r = k)) as [<-|Hk].
      + rewrite lookup_insert_eq. split; [intros _|intros _; right; by eexists].
        left. exists r. split; [apply list_elem_of_here|done].
      + rewrite lookup_insert_ne by done. unfold keysOf. split.
        * intros [(x & Hx & Ex)|Hs]; [left; exists x|by right]. by split; [apply list_elem_of_further|].
        * intros [(x & [->|Hx]%elem_of_cons & Ex)|Hs]; [done|left; by exists x|by right]. }
  rewrite Hm, lookup_empty. split; [|by left]. intros [?|[]]; done.
Qed.

Definition rosterKeys (users : roster) : list (string * string) := entryKey <$> rosterEntries users.

(** The rows show the roster: every reaction of it, and no other legacy one, nor
    mini one if the roster has those. *)
Definition shown (sync : kakaoReactionSync) (rows : list row) : Prop :=
  (forall k, k ∈ rosterKeys (Users sync) -> keysOf rows k) /\
  (forall x, x ∈ rows -> removable sync x = true -> rowKey x ∈ rosterKeys (Users sync)).

Lemma deliveryPlan_keys sync rows d : d ∈ deliveryPlan sync rows ->
  TargetMessage d = SyncTarget sync /\
  if removal d then deliveryKey d ∉ rosterKeys (Users sync) else deliveryKey d ∈ rosterKeys (Users sync).
Proof.
  unfold deliveryPlan. destruct (planAdditions _ _) as [adds rest] eqn:E.
  apply planAdditions_spec in E as (H1 & H2 & _).
  rewrite elem_of_app, !list_elem_of_fmap. intros [([[sender id] text] & -> & Hin)|(old & -> & Hin)]; (split; [done|]).
  - rewrite merge_sort_Permutation in Hin. cbn. apply list_elem_of_fmap. exists (sender, id, text).
    split; [done|by apply H1].
  - apply list_elem_of_In, filter_In in Hin as [_ Hf]. apply andb_true_iff in Hf as [_ Hr].
    apply bool_decide_eq_true in Hr. by apply H2 in Hr as [_ Hr].
Qed.

Lemma deliveryPlan_coherent sync rows : coherent (deliveryPlan sync rows).
Proof.
  intros d d' H1 H2 E. apply deliveryPlan_keys in H1 as [_ H1]. apply deliveryPlan_keys in H2 as [_ H2].
  rewrite E in H1. by destruct (removal d), (removal d').
Qed.

Lemma deliveryPlan_shown sync w w' :
  let ds := deliveryPlan sync (rowsOf w (SyncTarget sync)) in
  touchedAll ds (SyncTarget sync) w w' -> shows ds (SyncTarget sync) w' ->
  shown sync (rowsOf w' (SyncTarget sync)).
Proof.
  intros ds (_ & _ & Hk) Hs. set (rows := rowsOf w (SyncTarget sync)) in *.
  assert (Hadd : forall k, k ∈ rosterKeys (Users sync) -> k ∈ deliveryKey <$> ds \/ keysOf rows k).
  { intros k Hin. apply list_elem_of_fmap in Hin as (e & -> & He).
    unfold ds, deliveryPlan. destruct (planAdditions _ _) as [adds rest] eqn:E.
    apply planAdditions_spec in E as (_ & _ & H3). destruct (H3 e He) as [Hin|Hex].
    - left. rewrite fmap_app. apply elem_of_app. left. apply list_elem_of_fmap in Hin as ([[sender id] text] & -> & Ha).
      apply list_elem_of_fmap. exists (mkDelivery false sender (SyncTarget sync) id text (SyncOrder sync)).
      split; [done|]. apply list_elem_of_fmap. exists (sender, id, text). split; [done|]. by rewrite merge_sort_Permutation.
    - right. by apply existingByKey_spec. }
  assert (Hrem : forall y, y ∈ rows -> removable sync y = true -> rowKey y ∉ rosterKeys (Users sync) ->
    rowKey y ∈ deliveryKey <$> ds).
  { intros y Hy Hr Hout. unfold ds, deliveryPlan. destruct (planAdditions _ _) as [adds rest] eqn:E.
    apply planAdditions_spec in E as (_ & H2 & _). rewrite fmap_app. apply elem_of_app. right.
    apply list_elem_of_fmap. exists (mkDelivery true (SenderID y) (SyncTarget sync) (EmojiID y) (RowEmoji y) (SyncOrder sync)).
    split; [done|]. apply list_elem_of_fmap. exists y. split; [done|].
    apply list_elem_of_In, filter_In. split; [apply list_elem_of_In; by rewrite merge_sort_Permutation|].
    rewrite Hr. apply bool_decide_eq_true. apply H2. split; [|done]. apply existingByKey_spec. by exists y. }
  split.
  - intros k Hin. destruct (Hadd k Hin) as [Hd|Hrow].
    + apply list_elem_of_fmap in Hd as (d & -> & Hd). specialize (Hs d Hd).
      apply deliveryPlan_keys in Hd as [_ Hd]. by destruct (removal d).
    + destruct (decide (k ∈ deliveryKey <$> ds)) as [Hd|Hd]; [|by apply Hk].
      apply list_elem_of_fmap in Hd as (d & -> & Hd). specialize (Hs d Hd).
      apply deliveryPlan_keys in Hd as [_ Hd]. by destruct (removal d).
  - intros x Hx Hr. destruct (decide (rowKey x ∈ rosterKeys (Users sync))) as [|Hout]; [done|]. exfalso.
    destruct (decide (rowKey x ∈ deliveryKey <$> ds)) as [Hd|Hd].
    + apply list_elem_of_fmap in Hd as (d & Ek & Hd). specialize (Hs d Hd).
      apply deliveryPlan_keys in Hd as [_ Hd]. rewrite <- Ek in *. destruct (removal d); [|done].
      apply Hs. by exists x.
    + destruct (proj1 (Hk (rowKey x) Hd)) as (y & Hy & Ey); [by exists x|].
      assert (Hry : removable sync y = true).
      { unfold removable in *. by injection Ey as _ ->. }
      apply Hd. rewrite <- Ey. apply Hrem; [done|done|by rewrite Ey].
Qed.

(** ** Revisions *)

Definition revisionOf (m : option MessageMeta) (t : Z) : Z := reactionMetadataRevision m t.

(** No message appears or goes, and no revision goes back. *)
Definition raised (w w' : World) : Prop := forall id,
  match metaOf w id, metaOf w' id with
  | Some m, Some m' => forall t, revisionOf m t <= revisionOf m' t
  | None, None => True
  | _, _ => False
  end.

#[export] Instance raised_refl : Reflexive raised.
Proof. intros w id. by destruct (metaOf w id). Qed.

#[export] Instance raised_trans : Transitive raised.
Proof.
  intros w1 w2 w3 H1 H2 id. specialize (H1 id). specialize (H2 id).
  destruct (metaOf w1 id), (metaOf w2 id), (metaOf w3 id); try done. intros t. by etransitivity; [apply H1|apply H2].
Qed.

Lemma unchanged_raised w w' : (forall id, metaOf w' id = metaOf w id) -> raised w w'.
Proof. intros Hm id. rewrite Hm. by destruct (metaOf w id). Qed.

(** The change is at or below what is stored for its message, if there is one. *)
Definition applied (w : World) (change : ReactionChanged) (revision : Z) : Prop :=
  match metaOf w (target change) with
  | Some m => revision <= revisionOf m (MetadataType change)
  | None => True
  end.

Lemma applied_raised w w' change n : raised w w' -> applied w change n -> applied w' change n.
Proof.
  intros Hr. unfold applied. specialize (Hr (target change)).
  destruct (metaOf w _), (metaOf w' _); try done. intros Ha. by etransitivity; [apply Ha|apply Hr].
Qed.

Definition setRevision (m : MessageMeta) (t n : Z) : MessageMeta :=
  if t =? 2 then mkMeta (ReactionRevision m) n else mkMeta n (MiniReactionRevision m).

(** The message's revision of the change's kind moves up to [n]. *)
Definition recorded (w w' : World) (change : ReactionChanged) (n : Z) : Prop :=
  (forall id, id <> target change -> metaOf w' id = metaOf w id) /\
  exists m, metaOf w (target change) = Some (Some m) /\ revisionOf (Some m) (MetadataType change) < n /\
    metaOf w' (target change) = Some (Some (setRevision m (MetadataType change) n)).

Lemma recorded_raised w w' change n : recorded w w' change n -> raised w w'.
Proof.
  intros (Ho & m & Hm & Hlt & Hm') id. destruct (decide (id = target change)) as [->|Hid].
  - rewrite Hm, Hm'. intros t. unfold revisionOf, reactionMetadataRevision, setRevision in *.
    destruct (MetadataType change =? 2), (t =? 2); simpl; lia.
  - rewrite Ho by done. by destruct (metaOf w id).
Qed.

Lemma persistRevision_spec change n s w s' w' r :
  persistReactionRevision change n (s, w) = ((s', w'), r) ->
  s' = s /\ (forall id, rowsOf w' id = rowsOf w id) /\ (forall k, kvOf w' k = kvOf w k) /\
  ((forall id, metaOf w' id = metaOf w id) \/ recorded w w' change n) /\
  (r = Ok tt -> applied w' change n).
Proof.
  unfold persistReactionRevision, bind, io, ret.
  destruct (n <=? 0); cbv beta iota; [intros [= <- <- <-]; split_and!; try done; by left|]. cbn [fst snd].
  destruct (firstMessagePart _ w) as [w1 msg] eqn:E1. apply firstMessagePart_law in E1 as ((M1 & R1 & K1) & Hf).
  assert (Hstay : forall e, (s, w1, e) = (s', w', r) -> (e = Ok tt -> applied w1 change n) ->
    s' = s /\ (forall id, rowsOf w' id = rowsOf w id) /\ (forall k, kvOf w' k = kvOf w k) /\
    ((forall id, metaOf w' id = metaOf w id) \/ recorded w w' change n) /\ (r = Ok tt -> applied w' change n)).
  { intros e [= <- <- <-] He. split_and!; try done. by left. }
  destruct msg as [[[m|]|]|]; cbv beta iota; [|intros E; by apply (Hstay _ E)|intros E; apply (Hstay _ E); intros _|intros E; by apply (Hstay _ E)].
  2: { unfold applied. by rewrite M1, <- (Hf _ eq_refl). }
  specialize (Hf _ eq_refl). symmetry in Hf.
  destruct (n <=? reactionMetadataRevision (Some m) _) eqn:El; cbv beta iota.
  { intros E. apply (Hstay _ E). intros _. unfold applied. rewrite M1, Hf. by apply Z.leb_le. }
  cbn [fst snd]. fold (setRevision m (MetadataType change) n).
  destruct (updateMessage _ _ w1) as [w2 ok] eqn:E2. apply updateMessage_law in E2 as (R2 & K2 & O2 & M2).
  intros [= <- <- <-].
  assert (Hrec : metaOf w2 (target change) = Some (Some (setRevision m (MetadataType change) n)) ->
    recorded w w2 change n).
  { intros Hm2. split; [intros id Hid; by rewrite O2, M1|]. exists m. split_and!; [done| |done].
    unfold revisionOf. lia. }
  split_and!; [done|intros id; by rewrite R2|intros k; by rewrite K2| |].
  - destruct M2 as [M2|[_ M2]]; [right; by apply Hrec|left].
    intros id. destruct (decide (id = target change)) as [->|Hid]; [by rewrite M2, M1|by rewrite O2, M1].
  - destruct ok; [|done]. intros _. destruct M2 as [M2|[? _]]; [|done]. unfold applied. rewrite M2.
    unfold revisionOf, setRevision. destruct (MetadataType change =? 2) eqn:E2; simpl; rewrite ?E2; lia.
Qed.

(** ** What a change comes to *)

Lemma bind_inv {S A B} (m : state S A) (k : A -> state S B) s s' b :
  bind m k s = (s', b) -> exists s1 a, m s = (s1, a) /\ k a s1 = (s', b).
Proof. unfold bind. destruct (m s) as [s1 a]. eauto. Qed.

Lemma try_inv {A B} (m : state KC (res ReactionError A)) (k : A -> state KC (res ReactionError B)) kc kc' r :
  try m k kc = (kc', r) ->
  exists kc1 x, m kc = (kc1, x) /\ match x with Ok a => k a kc1 = (kc', r) | Err e => kc' = kc1 /\ r = Err e end.
Proof.
  intros E. apply bind_inv in E as (kc1 & x & E1 & E). exists kc1, x. split; [done|].
  destruct x; [done|]. unfold ret in E. by injection E as <- <-.
Qed.

(** Every answer of [m] is in [Q]. *)
Definition yields {A} (m : state KC A) (Q : A -> Prop) : Prop := forall kc, Q (snd (m kc)).

Lemma yields_bind {A B} (m : state KC A) (k : A -> state KC B) P Q :
  yields m P -> (forall a, P a -> yields (k a) Q) -> yields (bind m k) Q.
Proof. intros Hm Hk kc. unfold bind. specialize (Hm kc). destruct (m kc) as [kc' a]. by apply Hk. Qed.

Lemma yields_any {A} (m : state KC A) : yields m (fun _ => True).
Proof. done. Qed.

Lemma yields_ret {A} (a : A) (Q : A -> Prop) : Q a -> yields (ret a) Q.
Proof. by intros Ha kc. Qed.

Lemma yields_try {A B} (m : state KC (res ReactionError A)) (k : A -> state KC (res ReactionError B)) P Q :
  yields m P -> (forall a, P (Ok a) -> yields (k a) Q) -> (forall e, P (Err e) -> Q (Err e)) -> yields (try m k) Q.
Proof.
  intros Hm Hk He. apply (yields_bind _ _ P); [done|]. intros [a|e] Ha; [by apply Hk|by apply yields_ret, He].
Qed.

(** A roster is for the change's message and at its revision or later. *)
Definition fit (change : ReactionChanged) (sync : kakaoReactionSync) : Prop :=
  SyncTarget sync = target change /\ Revision change <= AppliedRevision sync.

Definition fits (change : ReactionChanged) (r : res ReactionError (option kakaoReactionSync)) : Prop :=
  match r with Ok (Some sync) => fit change sync | Ok None => True | Err e => e <> errReactionLookupDeferred end.

Lemma derive_fits change stored : yields (deriveLegacyReactions userID c change stored) (fits change).
Proof.
  unfold deriveLegacyReactions. eapply yields_bind; [apply yields_any|]. intros confirmed _.
  destruct (_ || _ || _); [by apply yields_ret|]. eapply yields_bind; [apply yields_any|]. intros rows _.
  apply yields_ret. destruct rows as [rows|]; [|done]. by destruct (derivedPicks userID rows change).
Qed.

Lemma storedReactionRevision_error change t : yields (storedReactionRevision change t)
  (fun r => forall e, r = Err e -> e <> errReactionLookupDeferred).
Proof.
  unfold storedReactionRevision. eapply yields_bind; [apply yields_any|]. intros [[msg|]|] _; by apply yields_ret; intros e [= <-].
Qed.

Lemma addDetails_error expected details seen users e :
  addDetails expected details seen users = Err e -> e <> errReactionLookupDeferred.
Proof.
  revert seen users. induction details as [|d details IH]; intros seen users; cbn [addDetails]; [done|].
  repeat case_match; try (by intros [= <-]); apply IH.
Qed.

Lemma addMini_error users details change e :
  addMiniReactionUsers users details change = Err e -> e <> errReactionLookupDeferred.
Proof.
  unfold addMiniReactionUsers. destruct (Details details) as [l|]; [|by intros [= <-]].
  destruct (negb _); [by intros [= <-]|]. destruct (expectedItems _ _) as [expected|]; [|by intros [= <-]].
  destruct (addDetails expected l ∅ users) as [[seen users']|e'] eqn:E.
  - destruct (existsb _ _); [by intros [= <-]|done].
  - intros [= <-]. by eapply addDetails_error.
Qed.

Lemma reactionSyncUsers_error m e : reactionSyncUsers m = Err e -> e <> errReactionLookupDeferred.
Proof.
  unfold reactionSyncUsers. destruct (_ <=? 0); [by intros [= <-]|]. destruct (negb _); [by intros [= <-]|].
  destruct (addSelections _ _ _) as [[users ?]|]; [done|by intros [= <-]].
Qed.

Lemma readRoster_fits change stored : yields (readRoster change stored)
  (fun r => match r with Ok sync => fit change sync | Err e => e <> errReactionLookupDeferred end).
Proof.
  unfold readRoster. eapply yields_bind; [apply yields_any|]. intros [members|] _; [|by apply yields_ret].
  destruct (MetadataType change =? 2) eqn:Et; cbn [negb andb].
  - eapply (yields_try _ _ (fun r => forall e, r = Err e -> e <> errReactionLookupDeferred)).
    + eapply yields_try; [apply storedReactionRevision_error| |intros e He ? [= <-]; by apply He].
      intros legacyStored _. apply yields_ret.
      destruct (_ <? _); by intros e [= <-].
    + intros _ _. destruct (if emptyLegacy change members then _ else _) as [users|e] eqn:Eu.
      * eapply yields_bind; [apply yields_any|]. intros [mini|] _; apply yields_ret; [|done].
        destruct (addMiniReactionUsers users mini change) as [users'|e] eqn:Em; [by split|by eapply addMini_error].
      * apply yields_ret. destruct (emptyLegacy change members); [done|by eapply reactionSyncUsers_error].
    + intros e He. by apply He.
  - destruct (_ || _) eqn:Er; [by apply yields_ret|].
    eapply (yields_try _ _ (fun r => r = Ok tt)); [by apply yields_ret| |done]. intros _ _.
    destruct (if emptyLegacy change members then _ else _) as [users|e] eqn:Eu; apply yields_ret.
    + split; [done|]. simpl. lia.
    + destruct (emptyLegacy change members); [done|by eapply reactionSyncUsers_error].
Qed.

(** Only a live push is deferred. *)
Definition answers (change : ReactionChanged) (coalesce : bool) (r : res ReactionError (option kakaoReactionSync)) : Prop :=
  match r with Ok (Some sync) => fit change sync | Ok None => True | Err e => coalesce = false -> e <> errReactionLookupDeferred end.

Lemma reactionRemote_answers change coalesce :
  yields (reactionRemote userID c change coalesce) (answers change coalesce).
Proof.
  unfold reactionRemote. destruct (negb _); [by apply yields_ret|]. destruct (negb _); [by apply yields_ret|].
  eapply yields_try; [apply storedReactionRevision_error| |intros e He _; by apply He]. intros stored _.
  destruct (_ <=? _); [by apply yields_ret|].
  eapply (yields_bind _ _ (fun b => coalesce = false -> b = false)); [by intros kc ->|]. intros waiting Hw.
  eapply (yields_bind _ _ (fun b => coalesce = false -> b = false)); [intros kc Hc; by rewrite Hw|]. intros deferred Hd.
  destruct deferred; [apply yields_ret; intros Hc; by specialize (Hd Hc)|].
  eapply yields_try; [apply derive_fits| |intros e He _; exact He]. intros [sync|] Hs; [by apply yields_ret|].
  eapply (yields_bind _ _ (fun b => coalesce = false -> b = false)); [by intros kc ->|]. intros deferred Hd'.
  destruct deferred; [apply yields_ret; intros Hc; by specialize (Hd' Hc)|].
  eapply yields_bind; [apply yields_any|]. intros admitted _. destruct admitted; [|by apply yields_ret].
  eapply yields_try; [apply readRoster_fits| |intros e He _; exact He]. intros sync Hfit. by apply yields_ret.
Qed.

(** A change without a roster is one the message already has. *)
Lemma reactionRemote_stale change coalesce s w kc' :
  reactionRemote userID c change coalesce (s, w) = (kc', Ok None) -> applied w change (Revision change).
Proof.
  unfold reactionRemote. destruct (negb _); [by intros [=]|]. destruct (negb _); [by intros [=]|].
  intros E. apply try_inv in E as ([s1 w1] & [stored|e] & E1 & E); [|by destruct E].
  unfold storedReactionRevision, bind, io, ret in E1. cbn [fst snd] in E1.
  destruct (firstMessagePart _ w) as [w2 msg] eqn:Ef. apply firstMessagePart_law in Ef as [_ Hf].
  destruct (Revision change <=? stored) eqn:El.
  - unfold applied. destruct msg as [[m|]|]; [|by rewrite <- (Hf _ eq_refl)|by injection E1].
    rewrite <- (Hf _ eq_refl). injection E1 as _ _ <-. unfold revisionOf. lia.
  - exfalso. apply bind_inv in E as (kc2 & waiting & _ & E). apply bind_inv in E as (kc3 & deferred & _ & E).
    destruct deferred; [by injection E|]. apply try_inv in E as (kc4 & [[sync|]|e] & _ & E); [by injection E| |by destruct E].
    apply bind_inv in E as (kc5 & d & _ & E). destruct d; [by injection E|].
    apply bind_inv in E as (kc6 & a & _ & E). destruct a; [|by injection E].
    apply try_inv in E as (kc7 & [sync|e] & _ & E); [by injection E|by destruct E].
Qed.

(** Nothing of the database moves but the rows of the change's message, and its
    revision once they show its roster. *)
Definition outcome (change : ReactionChanged) (coalesce : bool) (s : Session) (w w' : World) : Prop :=
  (forall k, kvOf w' k = kvOf w k) /\
  ((forall id, metaOf w' id = metaOf w id) \/
   exists sync kc, reactionRemote userID c change coalesce (s, w) = (kc, Ok (Some sync)) /\
     shown sync (rowsOf w' (target change)) /\ recorded w w' change (AppliedRevision sync)).

Lemma reactionDeliveryEvents_spec sync s w s' w' r :
  reactionDeliveryEvents sync (s, w) = ((s', w'), r) ->
  same w w' /\ forall ds, r = Ok ds -> ds = deliveryPlan sync (rowsOf w' (SyncTarget sync)).
Proof.
  unfold reactionDeliveryEvents, bind, io, ret. cbn [fst snd]. intros E.
  destruct (firstMessagePart _ w) as [w3 msg] eqn:E3. apply firstMessagePart_law in E3 as [S3 _].
  destruct msg as [[m|]|]; [|by injection E as _ <- <-|by injection E as _ <- <-]. cbn [fst snd] in E.
  destruct (reactionsToMessage _ w3) as [w4 rows] eqn:E4. apply reactionsToMessage_law in E4 as [S4 Hr].
  injection E as _ <- <-. split; [by etransitivity|]. intros ds.
  destruct rows as [rows|]; [|done]. intros [= <-]. destruct S4 as (_ & R4 & _). by rewrite R4, (Hr _ eq_refl).
Qed.

(** The end of [applyReaction], after the deliveries. *)
Lemma applied_spec change sync s w w0 s' w' r :
  (forall k, kvOf w k = kvOf w0 k) -> (forall id, metaOf w id = metaOf w0 id) ->
  bind (io expired) (fun stop => if stop then ret (Err errReactionCancelled) else
    let* saved := persistReactionRevision change (AppliedRevision sync) in
    match saved with
    | Err _ => ret (Ok false)
    | Ok _ =>
        own (fun s => (confirmLegacyReactions c change (AppliedRevision sync) s, tt));* ret (Ok true)
    end) (s, w) = ((s', w'), r) ->
  (forall id, rowsOf w' id = rowsOf w id) /\ (forall k, kvOf w' k = kvOf w0 k) /\
  ((forall id, metaOf w' id = metaOf w0 id) \/ recorded w0 w' change (AppliedRevision sync)) /\
  (r = Ok true -> applied w' change (AppliedRevision sync)).
Proof.
  intros K0 M0 E. apply bind_inv in E as ([s1 w1] & stop & E1 & E).
  unfold io in E1. cbn [fst snd] in E1. pose proof (expired_law w) as (M1 & R1 & K1). destruct (expired w) as [w2 b]. cbn [fst snd] in *.
  injection E1 as <- -> ->.
  destruct stop; [injection E as <- <- <-; split_and!;
    [done|intros; by rewrite K1, K0|left; intros; by rewrite M1, M0|done]|].
  apply bind_inv in E as ([s2 w3] & saved & E2 & E).
  apply persistRevision_spec in E2 as (-> & R2 & K2 & M2 & A2).
  assert (Hw : w3 = w' /\ (r = Ok true -> saved = Ok tt)).
  { destruct saved as [[]|e]; [|by injection E as _ <- <-].
    unfold bind, own, ret in E. by injection E as _ <- <-. }
  destruct Hw as [-> Hr]. split_and!; [intros; by rewrite R2, R1|intros; by rewrite K2, K1, K0| |auto].
  destruct M2 as [M2|(O2 & m & Hm & Hlt & Hm')]; [left; intros; by rewrite M2, M1, M0|right].
  split; [intros id Hid; by rewrite O2, M1, M0|]. exists m. split_and!; [by rewrite <- M0, <- M1|done|done].
Qed.

Lemma applyReaction_spec change coalesce s w s' w' r :
  applyReaction userID c change coalesce (s, w) = ((s', w'), r) -> outcome change coalesce s w w'.
Proof.
  intros E. unfold applyReaction in E. apply bind_inv in E as ([s1 w1] & remote & E1 & E).
  pose proof (reactionRemote_readonly change coalesce (s, w)) as S1.
  pose proof (reactionRemote_answers change coalesce (s, w)) as A1. rewrite E1 in S1, A1. cbn [fst snd] in S1, A1.
  assert (Hstay : forall s2 w2 (x : res ReactionError bool), same w w2 -> (s2, w2, x) = (s', w', r) ->
    outcome change coalesce s w w') by (intros s2 w2 x (M & R & K) [= <- <- <-]; split; [done|by left]).
  unfold ret in E. destruct remote as [[sync|]|e]; [|by apply (Hstay _ _ _ S1 E)|by destruct e; apply (Hstay _ _ _ S1 E)].
  destruct A1 as [At _].
  apply bind_inv in E as ([s2 w2] & remotes & E2 & E).
  apply reactionDeliveryEvents_spec in E2 as [S2 Hplan]. rewrite At in Hplan.
  assert (S12 : same w w2) by by etransitivity.
  destruct remotes as [ds|e]; [|by apply (Hstay _ _ _ S12 E)]. specialize (Hplan _ eq_refl).
  apply try_inv in E as ([s3 w3] & ended & E3 & E).
  apply (deliverAll_spec ds (target change)) in E3 as (-> & T3 & Hsh).
  2: { apply Forall_forall. intros d Hd. rewrite Hplan in Hd. apply deliveryPlan_keys in Hd as [Hd _]. by rewrite Hd. }
  2: { rewrite Hplan. apply deliveryPlan_coherent. }
  destruct S12 as (M2 & R2 & K2). pose proof T3 as (M3 & K3 & _).
  assert (Hlate : forall s4 (x : res ReactionError bool), (s4, w3, x) = (s', w', r) -> outcome change coalesce s w w').
  { intros s4 x [= <- <- <-]. split; [intros; by rewrite K3, K2|left; intros; by rewrite M3, M2]. }
  destruct ended as [[[|]|]|e]; [| |by apply (Hlate _ _ E)|destruct E as [[= -> ->] ->]; by apply (Hlate s2 (Err e))].
  - destruct (Hsh eq_refl) as [_ Hshown].
    apply (applied_spec _ _ _ _ w) in E as (R4 & K4 & M4 & _);
      [|intros; by rewrite K3, K2|intros; by rewrite M3, M2].
    split; [done|]. destruct M4 as [M4|M4]; [by left|right]. exists sync, (s1, w1). split_and!; [done| |done].
    rewrite R4. rewrite Hplan, <- At in *. by eapply deliveryPlan_shown.
  - apply bind_inv in E as ([s4 w4] & stop & E4 & E). unfold io in E4. cbn [fst snd] in E4.
    pose proof (expired_law w3) as (M4 & R4 & K4). destruct (expired w3) as [w5 b]. cbn [fst snd] in *.
    injection E4 as <- -> ->.
    assert (Ew : w4 = w') by (destruct stop; by injection E). subst w4.
    split; [intros; by rewrite K4, K3, K2|left; intros; by rewrite M4, M3, M2].
Qed.

(** The framework ignored an addition, and its row was not found. *)
Definition refused (d : Delivery) : Prop :=
  removal d = false /\
  exists w w1 result w2 found, queue d w = (w1, result) /\ committable result = true /\ Ignored result = true /\
    reaction (TargetMessage d) (Sender d) (DeliveryEmojiID d) w1 = (w2, found) /\ forall x, found <> Some (Some x).

(** Between [w] and [w'] the change became a roster, all of whose deliveries were
    accepted, some as refused additions. *)
Definition suppressed (w w' : World) (change : ReactionChanged) : Prop :=
  exists s0 w0 kc1 sync kc2 ds kc3,
    raised w w0 /\ reactionRemote userID c change false (s0, w0) = (kc1, Ok (Some sync)) /\
    reactionDeliveryEvents sync kc1 = (kc2, Ok ds) /\ deliverAll ds true kc2 = (kc3, Ok (Some false)) /\
    (exists d, d ∈ ds /\ refused d) /\ raised (snd kc3) w'.

Lemma deliver_refused d kc kc' : deliver d kc = (kc', Some false) -> refused d.
Proof.
  intros E. unfold deliver in E. apply bind_inv in E as (kc1 & gone & E1 & E).
  destruct gone as [[|]|]; [by injection E| |by injection E].
  apply bind_inv in E as ([s2 w2] & result & E2 & E). unfold io in E2.
  destruct (queue d (snd kc1)) as [w1 r] eqn:Eq. injection E2 as <- <- ->.
  destruct (committable result) eqn:Ec; cbn [negb] in E; [|by injection E].
  destruct (removal d) eqn:Er.
  { apply bind_inv in E as (kc3 & row & _ & E). by destruct row as [[|]|]; injection E. }
  destruct (Ignored result) eqn:Ei; [|by injection E].
  apply bind_inv in E as (kc3 & row & E3 & E). unfold io in E3. cbn [fst snd] in E3.
  destruct (reaction _ _ _ w1) as [w3 found] eqn:Ef. injection E3 as _ ->.
  split; [done|]. exists (snd kc1), w1, result, w3, row. split_and!; try done. intros x ->. by injection E.
Qed.

Lemma deliverAll_refused ds applied kc kc' :
  deliverAll ds applied kc = (kc', Ok (Some false)) -> applied = true -> exists d, d ∈ ds /\ refused d.
Proof.
  revert applied kc. induction ds as [|d ds IH]; intros applied kc E Ha; cbn [deliverAll] in E; [injection E; congruence|].
  apply bind_inv in E as (kc1 & stop & _ & E). destruct stop; [by injection E|].
  apply bind_inv in E as (kc2 & ok & E2 & E). destruct ok as [[|]|]; [| |by injection E].
  - apply IH in E as (d' & Hin & Hd); [|by rewrite Ha]. exists d'. split; [by right|done].
  - apply deliver_refused in E2. exists d. split; [by left|done].
Qed.

(** A change that was handled is stored, or was suppressed. *)
Lemma applyReaction_handled change s w s' w' :
  applyReaction userID c change false (s, w) = ((s', w'), Ok true) ->
  applied w' change (Revision change) \/ suppressed w w' change.
Proof.
  intros E. unfold applyReaction in E. apply bind_inv in E as ([s1 w1] & remote & E1 & E).
  pose proof (reactionRemote_readonly change false (s, w)) as S1.
  pose proof (reactionRemote_answers change false (s, w)) as A1. rewrite E1 in S1, A1. cbn [fst snd] in S1, A1.
  destruct remote as [[sync|]|e].
  3: { by destruct e; try (by injection E); destruct A1. }
  2: { left. apply reactionRemote_stale in E1. injection E as _ <-.
       eapply applied_raised; [|exact E1]. apply unchanged_raised, S1. }
  destruct A1 as [At Ar].
  apply bind_inv in E as ([s2 w2] & remotes & E2 & E). destruct remotes as [ds|e]; [|by injection E].
  apply try_inv in E as ([s3 w3] & ended & E3 & E).
  destruct ended as [[[|]|]|e]; [| |by injection E|by destruct E].
  - left. apply (applied_spec _ _ _ _ w3) in E as (_ & _ & _ & Ha); [|done|done].
    specialize (Ha eq_refl). unfold applied in *. destruct (metaOf w' _); [lia|done].
  - right. exists s, w, (s1, w1), sync, (s2, w2), ds, (s3, w3). split_and!; try done; [by eapply deliverAll_refused|].
    apply bind_inv in E as ([s4 w4] & stop & E4 & E). unfold io in E4. cbn [fst snd] in E4.
    pose proof (expired_law w3) as S4. destruct (expired w3) as [w5 b]. cbn [fst] in S4. injection E4 as <- <- ->.
    destruct stop; injection E as _ <-; apply unchanged_raised, S4.
Qed.
End Facts.
