(* ===== verification/ReactionSyncTheorems.v ===== *)
(** * Reaction updates are shown before they count

    Rows follow the roster, revisions follow the rows, and the cursor of a
    resync follows the revisions. *)

From S2P Require Import Prelude Identifiers Reactions ReactionSync ReactionSyncFacts.

#[local] Open Scope string_scope.
#[local] Open Scope list_scope.
#[local] Open Scope Z_scope.

Section Resync.
Context `{Lawful}.
Context (userID : Z) (login : string) (c : Z).

(** ** Pages *)

Definition itemRevision (chatID : Z) (n : Z) (item : option (option ReactionChanged)) : Z :=
  match item with
  | Some (Some change) => if ChatID change =? chatID then Z.max n (Revision change) else n
  | _ => n
  end.

(** The cursor after a page. *)
Definition nextOf (chatID cur : Z) (page : SyncMetaPage) : Z := foldl (itemRevision chatID) cur (PageItems page).

(** Every change of the chat among the items is stored for its message, if there
    is one, or was suppressed by the framework since [w]. *)
Definition settledItems (w w' : World) (chatID : Z) (items : list (option (option ReactionChanged))) : Prop :=
  forall change, Some (Some change) ∈ items -> ChatID change = chatID ->
    applied w' change (Revision change) \/ suppressed userID c w w' change.

Lemma outcome_raised change coalesce s w w' : outcome userID c change coalesce s w w' -> raised w w'.
Proof.
  intros (_ & [Hm|(sync & kc & _ & _ & Hr)]); [by apply unchanged_raised|by eapply recorded_raised].
Qed.

Lemma same_raised w w' : same w w' -> raised w w'.
Proof. intros [Hm _]. by apply unchanged_raised. Qed.

Lemma suppressed_within w0 w w' w1 change :
  raised w0 w -> raised w' w1 -> suppressed userID c w w' change -> suppressed userID c w0 w1 change.
Proof.
  intros R0 R1 (s & v & kc1 & sync & kc2 & ds & kc3 & R & E1 & E2 & E3 & Hd & R').
  exists s, v, kc1, sync, kc2, ds, kc3. split_and!; try done; by etransitivity.
Qed.

Lemma settledItems_within w0 w w' w1 chatID items :
  raised w0 w -> raised w' w1 -> settledItems w w' chatID items -> settledItems w0 w1 chatID items.
Proof.
  intros R0 R1 Hs ch Hin Hc. destruct (Hs ch Hin Hc) as [Ha|Ha]; [left; by eapply applied_raised|right; by eapply suppressed_within].
Qed.

Lemma resyncItems_spec chatID items next s w s' w' r :
  resyncItems userID c chatID items next (s, w) = ((s', w'), r) ->
  (forall k, kvOf w' k = kvOf w k) /\ raised w w' /\
  (forall n, r = Ok n -> n = foldl (itemRevision chatID) next items /\ settledItems w w' chatID items).
Proof.
  revert next s w. induction items as [|[[change|]|] items IH]; intros next s w; cbn [resyncItems].
  - intros [= <- <- <-]. split_and!; [done|done|]. intros n [= <-]. split; [done|]. by intros ch ?%elem_of_nil.
  - destruct (ChatID change =? chatID) eqn:Ec; cbn [negb foldl itemRevision]; rewrite ?Ec.
    2: { intros E. apply IH in E as (K & R & Hok). split_and!; [done|done|]. intros n Hn.
         destruct (Hok n Hn) as [-> Hs]. split; [done|]. intros ch [[= ->]|Hin]%elem_of_cons Hc; [lia|by apply Hs]. }
    replace (if next <? Revision change then Revision change else next) with (Z.max next (Revision change))
      by (destruct (next <? Revision change) eqn:El; lia).
    apply Z.eqb_eq in Ec.
    assert (Ht : makeMessageID chatID (LogID change) = target change) by (unfold target; by rewrite Ec). rewrite Ht.
    intros E. apply bind_inv in E as ([s1 w1] & msg & E1 & E). unfold io in E1. cbn [fst snd] in E1.
    destruct (firstMessagePart _ w) as [w2 m] eqn:Ef. injection E1 as <- -> ->.
    apply firstMessagePart_law in Ef as [S1 Hf].
    assert (Hrest : forall s2 w2, raised w w2 -> (forall k, kvOf w2 k = kvOf w k) ->
      applied w2 change (Revision change) \/ suppressed userID c w w2 change ->
      resyncItems userID c chatID items (Z.max next (Revision change)) (s2, w2) = ((s', w'), r) ->
      (forall k, kvOf w' k = kvOf w k) /\ raised w w' /\
      (forall n, r = Ok n -> n = foldl (itemRevision chatID) (Z.max next (Revision change)) items /\
         settledItems w w' chatID (Some (Some change) :: items))).
    { intros s2 w3 R2 K2 A2 E2. apply IH in E2 as (K & R & Hok).
      split_and!; [intros; by rewrite K, K2|by etransitivity|]. intros n Hn.
      destruct (Hok n Hn) as [-> Hs]. split; [done|]. intros ch [[= ->]|Hin]%elem_of_cons Hc.
      - destruct A2 as [A2|A2]; [left; by eapply applied_raised|right; eapply suppressed_within; [reflexivity|exact R|exact A2]].
      - eapply settledItems_within; [exact R2|reflexivity|exact Hs|exact Hin|exact Hc]. }
    destruct msg as [[m'|]|].
    + apply bind_inv in E as ([s2 w3] & handled & E2 & E).
      assert (Hh : handled = Ok true -> applied w3 change (Revision change) \/ suppressed userID c w1 w3 change)
        by (intros ->; by eapply applyReaction_handled).
      apply applyReaction_spec in E2. pose proof (outcome_raised _ _ _ _ _ E2) as R2. destruct E2 as [K2 _].
      assert (Hstop : forall x : res ReactionError Z, (forall n, x <> Ok n) -> (s2, w3, x) = (s', w', r) ->
        (forall k, kvOf w' k = kvOf w k) /\ raised w w' /\
        (forall n, r = Ok n -> n = foldl (itemRevision chatID) (Z.max next (Revision change)) items /\
           settledItems w w' chatID (Some (Some change) :: items))).
      { intros x Hx [= <- <- <-]. split_and!; [intros; rewrite K2; apply S1|etransitivity; [by apply same_raised|done]|].
        intros n Hn. by destruct (Hx n). }
      destruct handled as [[|]|e].
      * eapply (Hrest s2 w3); [etransitivity; [by apply same_raised|done]|intros; rewrite K2; apply S1| |done].
        destruct (Hh eq_refl); [by left|right]. eapply suppressed_within; [apply same_raised, S1|reflexivity|eassumption].
      * by apply (Hstop (Err errReactionLookup)).
      * by destruct e; (eapply Hstop; [|exact E]).
    + eapply (Hrest s w1); [by apply same_raised|apply S1| |done].
      left. unfold applied. destruct S1 as [M1 _]. by rewrite M1, <- (Hf _ eq_refl).
    + injection E as <- <- <-. split_and!; [apply S1|by apply same_raised|done].
  - intros E. apply IH in E as (K & R & Hok). split_and!; [done|done|]. intros n Hn.
    destruct (Hok n Hn) as [-> Hs]. split; [done|]. intros ch [[=]|Hin]%elem_of_cons Hc. by apply Hs.
  - intros [= <- <- <-]. by split_and!.
Qed.

(** What happens between [w] and [w'] to a cursor that goes from [cur] over
    [pages], each of which the server answered at the cursor it was asked with:
    the changes of a page are settled before the cursor is stored beyond it. *)
Inductive passed (chatID : Z) : World -> Z -> list SyncMetaPage -> Z -> World -> Prop :=
| passed_none w cur w' :
    raised w w' -> kvOf w' (reactionResyncKey login chatID) = kvOf w (reactionResyncKey login chatID) ->
    passed chatID w cur [] cur w'
| passed_page w cur page pages cur' w1 w2 w3 w' :
    raised w w1 -> ReactionMetaSync chatID cur w1 = (w2, Some page) ->
    settledItems w2 w3 chatID (PageItems page) -> raised w2 w3 -> cur < nextOf chatID cur page ->
    kvOf w3 (reactionResyncKey login chatID) = FormatInt (nextOf chatID cur page) ->
    passed chatID w3 (nextOf chatID cur page) pages cur' w' ->
    passed chatID w cur (page :: pages) cur' w'.

Lemma passed_raised chatID w cur pages cur' w' : passed chatID w cur pages cur' w' -> raised w w'.
Proof.
  induction 1 as [|w cur page pages cur' w1 w2 w3 w' R1 E _ R2 _ _ _ IH]; [done|].
  pose proof (pages_law chatID cur w1) as S. rewrite E in S. etransitivity; [exact R1|].
  etransitivity; [apply same_raised, S|]. by etransitivity.
Qed.

Lemma passed_cursor chatID w cur pages cur' w' : passed chatID w cur pages cur' w' ->
  kvOf w' (reactionResyncKey login chatID) =
    match pages with [] => kvOf w (reactionResyncKey login chatID) | _ => FormatInt cur' end.
Proof. induction 1 as [|w cur page pages cur' w1 w2 w3 w' _ _ _ _ _ E H' IH]; [done|]. rewrite IH. destruct H'; [done|done]. Qed.

Lemma passed_settled chatID w cur pages cur' w' page :
  passed chatID w cur pages cur' w' -> page ∈ pages -> settledItems w w' chatID (PageItems page).
Proof.
  induction 1 as [|w cur p pages cur' w1 w2 w3 w' R1 E Hs R2 _ _ Hp IH]; [by intros ?%elem_of_nil|].
  pose proof (pages_law chatID cur w1) as S. rewrite E in S. apply same_raised in S. cbn [fst] in S.
  assert (R3 : raised w w2) by by etransitivity.
  pose proof (passed_raised _ _ _ _ _ _ Hp) as R4. intros [->|Hin]%elem_of_cons.
  - exact (settledItems_within _ _ _ _ _ _ R3 R4 Hs).
  - refine (settledItems_within _ _ _ _ _ _ _ _ (IH Hin)); [by etransitivity|done].
Qed.

Lemma resyncPages_spec pages chatID cur s w s' w' r :
  resyncPages userID login c pages chatID cur (s, w) = ((s', w'), r) ->
  exists l cur', (length l <= pages)%nat /\ passed chatID w cur l cur' w'.
Proof.
  revert cur s w. induction pages as [|pages IH]; intros cur s w; cbn [resyncPages].
  { intros [= <- <- <-]. exists [], cur. split; [done|by apply passed_none]. }
  assert (Hnone : forall w2 s2 (x : res ReactionError unit), raised w w2 -> (forall k, kvOf w2 k = kvOf w k) -> (s2, w2, x) = (s', w', r) ->
    exists l cur', (length l <= S pages)%nat /\ passed chatID w cur l cur' w').
  { intros w2 s2 x R K [= <- <- <-]. exists [], cur. split; [simpl; lia|by apply passed_none]. }
  intros E. apply bind_inv in E as ([s1 w1] & stop & E1 & E). unfold io in E1. cbn [fst snd] in E1.
  pose proof (expired_law w) as S1. destruct (expired w) as [w1' b]. cbn [fst] in S1. injection E1 as <- -> ->.
  destruct stop; [by apply (Hnone _ _ _ (same_raised _ _ S1) (proj2 (proj2 S1)) E)|].
  apply bind_inv in E as ([s2 w2] & page & E2 & E). unfold io in E2. cbn [fst snd] in E2.
  pose proof (pages_law chatID cur w1) as S2. destruct (ReactionMetaSync chatID cur w1) as [w2' pg] eqn:Ep.
  cbn [fst] in S2. injection E2 as <- -> ->. assert (S12 : same w w2) by by etransitivity.
  destruct page as [page|]; [|by apply (Hnone _ _ _ (same_raised _ _ S12) (proj2 (proj2 S12)) E)].
  apply try_inv in E as ([s3 w3] & next & E3 & E).
  apply resyncItems_spec in E3 as (K3 & R3 & Hok).
  assert (R03 : raised w w3) by (etransitivity; [by apply same_raised|done]).
  assert (K03 : forall k, kvOf w3 k = kvOf w k) by (intros; rewrite K3; apply S12).
  destruct next as [next|e]; [|destruct E as [[= -> ->] ->]; by apply (Hnone w3 s3 (Err e))].
  destruct (Hok _ eq_refl) as [Hn Hset]. fold (nextOf chatID cur page) in Hn. subst next.
  apply bind_inv in E as ([s4 w4] & stop & E4 & E). unfold io in E4. cbn [fst snd] in E4.
  pose proof (expired_law w3) as S4. destruct (expired w3) as [w4' b]. cbn [fst] in S4. injection E4 as <- -> ->.
  apply same_raised in S4 as R34. assert (R04 : raised w w4) by by etransitivity.
  assert (K04 : forall k, kvOf w4 k = kvOf w k) by (intros; rewrite (proj2 (proj2 S4)); done).
  destruct stop; [by apply (Hnone _ _ _ R04 K04 E)|].
  apply bind_inv in E as ([s5 w5] & saved & E5 & E).
  destruct (cur <? nextOf chatID cur page) eqn:El.
  2: { injection E5 as <- <- <-. cbn [negb] in E. replace (nextOf chatID cur page <=? cur) with true in E by lia.
       rewrite orb_true_r in E. by apply (Hnone _ _ _ R04 K04 E). }
  unfold io in E5. cbn [fst snd] in E5. destruct (put _ _ w4) as [w5' ok] eqn:Eput. injection E5 as <- -> ->.
  apply put_law in Eput as (M5 & _ & _ & Hkv). assert (R45 : raised w4 w5) by by apply unchanged_raised.
  destruct Hkv as [Hkv|[-> Hkv]]; cycle 1.
  { injection E as <- <- <-. exists [], cur. split; [simpl; lia|]. apply passed_none; [by etransitivity|]. by rewrite Hkv, K04. }
  assert (Hone : forall l cur', passed chatID w5 (nextOf chatID cur page) l cur' w' -> (length l <= pages)%nat ->
    exists l cur', (length l <= S pages)%nat /\ passed chatID w cur l cur' w').
  { intros l cur' Hl Hlen. exists (page :: l), cur'. split; [simpl; lia|].
    eapply (passed_page _ _ _ _ _ _ w1 w2 w5); [by apply same_raised|done| | |lia|done|done].
    - refine (settledItems_within _ _ _ _ _ _ _ _ Hset); [done|by etransitivity].
    - etransitivity; [done|by etransitivity]. }
  assert (Hend : forall s6 (x : res ReactionError unit), (s6, w5, x) = (s', w', r) ->
    exists l cur', (length l <= S pages)%nat /\ passed chatID w cur l cur' w').
  { intros s6 x [= <- <- <-]. apply (Hone [] (nextOf chatID cur page)); [by apply passed_none|simpl; lia]. }
  destruct saved; cbn [negb] in E; [|by apply (Hend _ _ E)].
  destruct (Last _ || _); [by apply (Hend _ _ E)|]. apply IH in E as (l & cur' & Hl & Hp). by apply (Hone l cur').
Qed.

Lemma passed_start chatID w0 w cur pages cur' w' :
  same w0 w -> passed chatID w cur pages cur' w' -> passed chatID w0 cur pages cur' w'.
Proof.
  intros S Hp. pose proof (same_raised _ _ S) as R. destruct Hp as [w cur w' R' K|w cur page pages cur' w1 w2 w3 w' R1 E Hs R2 Hlt K Hp].
  - apply passed_none; [by etransitivity|]. rewrite K. apply S.
  - eapply passed_page; [by etransitivity|done..].
Qed.

(** ** Properties *)

(** C34: a reaction update touches nothing but the rows of its message, until its
    rows show the roster; only then does the message's revision move, forward,
    to the roster's.  Whatever fails, and in whatever order the deliveries are
    made, a revision is never ahead of the rows. *)
Theorem revision_follows_rows change coalesce s w s' w' r :
  applyReaction userID c change coalesce (s, w) = ((s', w'), r) ->
  (forall k, kvOf w' k = kvOf w k) /\
  ((forall id, metaOf w' id = metaOf w id) \/
   exists sync kc, reactionRemote userID c change coalesce (s, w) = (kc, Ok (Some sync)) /\
     (forall k, k ∈ rosterKeys (Users sync) -> keysOf (rowsOf w' (target change)) k) /\
     (forall x, x ∈ rowsOf w' (target change) -> removable sync x = true -> rowKey x ∈ rosterKeys (Users sync)) /\
     recorded w w' change (AppliedRevision sync)).
Proof.
  intros E. apply applyReaction_spec in E as [K [M|(sync & kc & E1 & [H1 H2] & Hr)]]; split; [done|by left|done|].
  right. by exists sync, kc.
Qed.

(** C35: a resync never moves its stored cursor past a change it has not dealt
    with.  The cursor went, from where it was stored or else from the oldest
    message, over pages the server answered at each cursor it was asked with, at
    most ten, and is stored at the last of them or, without any, as it was.
    Every change of the chat on these pages is stored for its message, if it has
    one, at its revision or a later one; or its roster was delivered during this resync, every
    delivery was accepted, and the framework ignored an addition of it whose row was then
    not found.  The code takes such a suppressed change for handled
    ([ignored_addition_is_passed]). *)
Theorem resync_cursor_is_safe chatID s w s' w' r :
  resyncChatReactions userID login c chatID (s, w) = ((s', w'), r) ->
  raised w w' /\
  exists cur pages cur', (length pages <= reactionResyncPages)%nat /\ passed chatID w cur pages cur' w' /\
    (forall n, ParseInt (kvOf w (reactionResyncKey login chatID)) = Some n -> 0 < n -> r <> Err errReactionStore -> cur = n) /\
    kvOf w' (reactionResyncKey login chatID) =
      match pages with [] => kvOf w (reactionResyncKey login chatID) | _ => FormatInt cur' end /\
    (forall page change, page ∈ pages -> Some (Some change) ∈ PageItems page -> ChatID change = chatID ->
       applied w' change (Revision change) \/ suppressed userID c w w' change).
Proof.
  intros E. apply try_inv in E as ([s1 w1] & start & E1 & E).
  assert (H1 : same w w1 /\ forall n, ParseInt (kvOf w (reactionResyncKey login chatID)) = Some n -> 0 < n ->
    start = Ok (Some n) \/ start = Err errReactionStore).
  { unfold resyncStart in E1. apply bind_inv in E1 as ([s2 w2] & raw & E2 & E1). unfold io in E2. cbn [fst snd] in E2.
    destruct (get _ w) as [w3 v] eqn:Eg. injection E2 as <- -> ->. apply get_law in Eg as [S2 Hv].
    destruct raw as [raw|]; [|injection E1 as <- <- <-; split; [done|auto]].
    rewrite (Hv _ eq_refl) in E1. destruct (0 <? default 0 (ParseInt (kvOf w (reactionResyncKey login chatID)))) eqn:El.
    - injection E1 as <- <- <-. split; [done|]. intros n -> Hn. by left.
    - apply bind_inv in E1 as ([s3 w4] & first & E3 & E1). unfold io in E3. cbn [fst snd] in E3.
      pose proof (firstMessageInPortal_law chatID w2) as S3. destruct (firstMessageInPortal chatID w2) as [w5 f].
      cbn [fst] in S3. injection E3 as <- -> ->. injection E1 as <- <- <-. split; [by etransitivity|].
      intros n Hn Hpos. rewrite Hn in El. simpl in El. lia. }
  destruct H1 as [S1 Hst].
  assert (Hp : exists cur pages cur', (length pages <= reactionResyncPages)%nat /\ passed chatID w cur pages cur' w' /\
    (forall n, ParseInt (kvOf w (reactionResyncKey login chatID)) = Some n -> 0 < n -> r <> Err errReactionStore -> cur = n)).
  { assert (Hnone : w1 = w' -> exists cur pages cur', (length pages <= reactionResyncPages)%nat /\ passed chatID w cur pages cur' w' /\
      (forall n, ParseInt (kvOf w (reactionResyncKey login chatID)) = Some n -> 0 < n -> r <> Err errReactionStore -> cur = n)).
    { intros <-. exists (default 0 (ParseInt (kvOf w (reactionResyncKey login chatID)))), [], (default 0 (ParseInt (kvOf w (reactionResyncKey login chatID)))).
      split; [simpl; lia|]. split; [apply passed_none; [by apply same_raised|apply S1]|]. intros n Hn _ _. by rewrite Hn. }
    destruct start as [[cur|]|e]; [|by injection E as _ Ew _; apply Hnone|destruct E as [[= _ ->] _]; by apply Hnone].
    apply resyncPages_spec in E as (l & cur' & Hl & Hp). exists cur, l, cur'. split; [done|]. split.
    - eapply passed_start; [exact S1|exact Hp].
    - intros n Hn Hpos _. by destruct (Hst n Hn Hpos) as [[= ->]|]. }
  destruct Hp as (cur & pages & cur' & Hl & Hp & Hc). split; [by eapply passed_raised|].
  exists cur, pages, cur'. split_and!; [done|done|done|by eapply passed_cursor|].
  intros page change Hin. by apply (passed_settled _ _ _ _ _ _ _ Hp Hin).
Qed.
End Resync.

(** ** A database and a framework *)

Record demoWorld := mkDemo {
  demoMetas : gmap string (option MessageMeta);
  demoRows : gmap string (list row);
  demoKv : gmap string string;
}.

Definition demoRowsOf (w : demoWorld) (id : string) : list row := default [] (demoRows w !! id).

Definition hasKey (k : string * string) (r : row) : bool := bool_decide (rowKey r = k).

(** A framework that handles every delivery, or that ignores additions. *)
Definition demoQueue (ignore : bool) (d : Delivery) (w : demoWorld) : demoWorld * Result :=
  let rows := List.filter (fun r => negb (hasKey (deliveryKey d) r)) (demoRowsOf w (TargetMessage d)) in
  let set rows := mkDemo (demoMetas w) (<[TargetMessage d := rows]> (demoRows w)) (demoKv w) in
  if removal d then (set rows, mkResult true false false false)
  else if ignore then (w, mkResult true true false false)
  else (set (mkRow (Sender d) (DeliveryEmojiID d) (DeliveryEmoji d) "$r" :: rows), mkResult true false false false).

Definition demoPage (chatID cur : Z) : SyncMetaPage :=
  mkPage (if cur <? 7 then [Some None; Some (Some (mkChange 1 10 0 4 7 [mkItem "1" 1 1 ∅] (mkExtra false 0 false 0 0)))] else [])
         (7 <=? cur).

Definition demoIO (ignore : bool) : ReactionIO := {|
  World := demoWorld;
  firstMessagePart id w := (w, Some (demoMetas w !! id));
  reactionsToMessage id w := (w, Some (demoRowsOf w id));
  reaction id sender emoji w := (w, Some (List.find (hasKey (sender, emoji)) (demoRowsOf w id)));
  updateMessage id m w := (mkDemo (<[id := Some m]> (demoMetas w)) (demoRows w) (demoKv w), true);
  firstMessageInPortal chatID w := (w, Some (Some (makeMessageID chatID 3)));
  get k w := (w, Some (default "" (demoKv w !! k)));
  put k v w := (mkDemo (demoMetas w) (demoRows w) (<[k := v]> (demoKv w)), true);
  queue := demoQueue ignore;
  expired w := (w, false);
  now w := (w, 0);
  ReactionMembers _ _ w :=
    (w, Some (mkMembers 7 {[Heart := [5]]} [mkField "revision" "7" None; mkField "1" "[5]" (Some [5])]));
  MiniReactionDetails _ _ _ w := (w, None);
  ReactionMetaSync chatID cur w := (w, Some (demoPage chatID cur));
|}.

Lemma demo_find k rows :
  match List.find (hasKey k) rows with
  | Some x => x ∈ rows /\ rowKey x = k
  | None => forall x, x ∈ rows -> rowKey x <> k
  end.
Proof.
  destruct (List.find (hasKey k) rows) as [x|] eqn:E.
  - apply List.find_some in E as [Hin Hk]. apply list_elem_of_In in Hin. by apply bool_decide_eq_true in Hk.
  - intros x Hin Hk. apply list_elem_of_In in Hin. apply (List.find_none _ _ E) in Hin.
    by apply bool_decide_eq_false in Hin.
Qed.

Lemma demo_filter k rows x :
  rowKey x <> k -> x ∈ List.filter (fun r => negb (hasKey k r)) rows <-> x ∈ rows.
Proof.
  intros Hx. rewrite !list_elem_of_In, filter_In. unfold hasKey. rewrite bool_decide_eq_false_2 by done. tauto.
Qed.

#[export, program] Instance demoLawful ignore : Lawful (demoIO ignore) := {|
  metaOf (w : demoWorld) id := demoMetas w !! id;
  rowsOf (w : demoWorld) := demoRowsOf w;
  kvOf (w : demoWorld) k := default "" (demoKv w !! k);
|}.
Next Obligation. intros ignore id w w' r [= <- <-]. split; [done|]. by intros found [= <-]. Qed.
Next Obligation. intros ignore id w w' r [= <- <-]. split; [done|]. by intros found [= <-]. Qed.
Next Obligation.
  intros ignore id sender emoji w w' r [= <- <-]. pose proof (demo_find (sender, emoji) (demoRowsOf w id)) as Hf.
  split; [done|]. split.
  - intros [= E]. by rewrite E in Hf.
  - intros x [= E]. rewrite E in Hf. by exists x.
Qed.
Next Obligation.
  intros ignore id m w w' ok [= <- <-]. split_and!; [done|done| |].
  - intros id' Hid. simpl. by rewrite lookup_insert_ne.
  - left. simpl. by rewrite lookup_insert_eq.
Qed.
Next Obligation.
  intros ignore d w w' r E. simpl in E. unfold demoQueue in E.
  assert (Hother : forall rows id x, (forall x, rowKey x <> deliveryKey d -> x ∈ rows <-> x ∈ demoRowsOf w (TargetMessage d)) ->
    id <> TargetMessage d \/ rowKey x <> deliveryKey d ->
    x ∈ demoRowsOf (mkDemo (demoMetas w) (<[TargetMessage d := rows]> (demoRows w)) (demoKv w)) id <-> x ∈ demoRowsOf w id).
  { intros rows id x Hrows Hor. unfold demoRowsOf at 1. simpl. destruct (decide (id = TargetMessage d)) as [->|Hid].
    - rewrite lookup_insert_eq. apply Hrows. tauto.
    - by rewrite lookup_insert_ne. }
  destruct (removal d) eqn:Er; [|destruct ignore]; injection E as <- <-; simpl; split_and!; try done.
  - intros id x. apply Hother. intros y Hy. by apply demo_filter.
  - intros id x. apply Hother. intros y Hy. rewrite elem_of_cons, demo_filter by done.
    split; [intros [->|?]; [by destruct Hy|done]|by right].
  - intros _ _ _. unfold demoRowsOf. simpl. rewrite lookup_insert_eq. eexists. split; [apply list_elem_of_here|done].
Qed.
Next Obligation.
  intros ignore k v w w' ok [= <- <-]. split_and!; [done|done| |].
  - intros k' Hk. simpl. by rewrite lookup_insert_ne.
  - left. simpl. by rewrite lookup_insert_eq.
Qed.
Next Obligation. intros ignore k w w' r [= <- <-]. split; [done|]. by intros v [= <-]. Qed.
Next Obligation. done. Qed.
Next Obligation. done. Qed.
Next Obligation. done. Qed.
Next Obligation. done. Qed.
Next Obligation. done. Qed.
Next Obligation. done. Qed.

Definition demoStart : demoWorld :=
  mkDemo {[makeMessageID 10 4 := Some (mkMeta 0 0)]}
    {[makeMessageID 10 4 := [mkRow "6" "kakao:legacy:2" "" "$old"]]} ∅.
Definition demoSession : Session := mkSession ∅ ∅ (mkBudget false 0 0) [].

Definition demoResync (ignore : bool) : @KC (demoIO ignore) * res ReactionError unit :=
  @resyncChatReactions (demoIO ignore) 1 "l" 1 10 (demoSession, demoStart).

Definition demoCursor (w : demoWorld) : string := default "" (demoKv w !! reactionResyncKey "l" 10).
Definition demoRevision (w : demoWorld) : Z :=
  match demoMetas w !! makeMessageID 10 4 with Some m => reactionMetadataRevision m 1 | None => -1 end.
Definition demoKeys (w : demoWorld) : list (string * string) := rowKey <$> demoRowsOf w (makeMessageID 10 4).

(** The old reaction is gone, the new one is there, and both marks are at 7. *)
Lemma demo_resynced :
  let '((_, w), r) := demoResync false in
  r = Ok tt /\ demoCursor w = "7" /\ demoRevision w = 7 /\ demoKeys w = [("5", "kakao:legacy:1")].
Proof. by vm_compute. Qed.

(** The page that was passed holds the change that is now stored. *)
Lemma resync_cursor_is_safe_witness :
  exists cur pages cur', (length pages <= reactionResyncPages)%nat /\
    @passed _ (demoLawful false) 1 "l" 1 10 demoStart cur pages cur' (snd (fst (demoResync false))) /\
    demoCursor (snd (fst (demoResync false))) = match pages with [] => "" | _ => FormatInt cur' end.
Proof.
  destruct (demoResync false) as [[s w] r] eqn:E.
  destruct (@resync_cursor_is_safe _ (demoLawful false) 1 "l" 1 10 demoSession demoStart s w r E)
    as (_ & cur & pages & cur' & Hk & Hp & _ & Hc & _).
  exists cur, pages, cur'. split; [exact Hk|]. split; [exact Hp|exact Hc].
Defined.

(** One push, with its members read. *)
Definition demoLive : ReactionChanged := mkChange 1 10 0 4 7 [mkItem "1" 1 1 ∅] (mkExtra false 0 false 0 0).
Definition demoApplied : @KC (demoIO false) * res ReactionError bool :=
  @applyReaction (demoIO false) 1 1 demoLive true (demoSession, demoStart).

Lemma demo_recorded_rev : demoRevision (snd (fst demoApplied)) = 7.
Proof. by vm_compute. Qed.

Lemma revision_follows_rows_witness :
  exists sync, @recorded _ (demoLawful false) demoStart (snd (fst demoApplied)) demoLive (AppliedRevision sync) /\
    forall k, k ∈ rosterKeys (Users sync) -> keysOf (demoRowsOf (snd (fst demoApplied)) (makeMessageID 10 4)) k.
Proof.
  pose proof demo_recorded_rev as Hrec. destruct demoApplied as [[s w] r] eqn:E. cbn [fst snd] in *.
  destruct (@revision_follows_rows _ (demoLawful false) 1 1 demoLive true demoSession demoStart s w r E)
    as [_ [Hm|(sync & kc & _ & H1 & _ & Hr)]].
  - exfalso. pose proof (f_equal (fun o => match o with Some m => reactionMetadataRevision m 1 | None => -1 end)
      (Hm (makeMessageID 10 4))) as E0. change (demoRevision w = demoRevision demoStart) in E0.
    rewrite Hrec in E0. discriminate E0.
  - exists sync. split; [exact Hr|exact H1].
Defined.

(** A resync passes a change that was not applied, if the framework ignored
    its addition: the update leaves the revision for replay, as its comment
    says, but counts as handled, and the cursor moves beyond it for good. *)
Theorem ignored_addition_is_passed :
  let '((_, w), r) := demoResync true in
  r = Ok tt /\ demoCursor w = "7" /\ demoRevision w = 0 /\ demoKeys w = [].
Proof. by vm_compute. Qed.
