(* ===== verification/ReactionLookupTheorems.v ===== *)
(** * Members reads are few and none is forgotten

    The account's budget, and the shared reads of one message over pushes and
    timers in any order. *)

From S2P Require Import Prelude Identifiers Reactions ReactionSync.

#[local] Open Scope string_scope.
#[local] Open Scope list_scope.
#[local] Open Scope Z_scope.

(** ** The budget *)

(** The costs admitted of a sequence of requests, each a time and a cost. *)
Fixpoint admitted (b : reactionLookupBudget) (requests : list (Z * Z)) : Z :=
  match requests with
  | [] => 0
  | (t, cost) :: requests =>
      let '(b, ok) := take b t cost in
      (if ok then cost else 0) + admitted b requests
  end.

Definition full : Z := reactionLookupBurst * reactionLookupRefill.

(** A bucket after any use of it, before [t]. *)
Definition bucket (b : reactionLookupBudget) (t : Z) : Prop :=
  started b = true -> 0 <= tokens b <= full /\ at_ b <= t.

(** Times that never go back and costs that are not negative, up to [last]. *)
Fixpoint requested (t : Z) (requests : list (Z * Z)) (last : Z) : Prop :=
  match requests with
  | [] => t <= last
  | (t', cost) :: requests => t <= t' /\ 0 <= cost /\ requested t' requests last
  end.

Lemma requested_last t requests last : requested t requests last -> t <= last.
Proof.
  revert t. induction requests as [|[t' cost] requests IH]; intros t; cbn [requested]; [done|].
  intros (Ht & _ & Hr). apply IH in Hr. lia.
Qed.

Lemma admitted_started b requests last :
  started b = true -> 0 <= tokens b -> requested (at_ b) requests last ->
  admitted b requests * reactionLookupRefill <= tokens b + (last - at_ b).
Proof.
  revert b. induction requests as [|[t cost] requests IH]; intros b Hs H0 Hr.
  { cbn [requested admitted] in *. lia. }
  cbn [requested admitted] in *. destruct Hr as (Ht & Hc & Hr). unfold take. rewrite Hs.
  set (tk := if 0 <? t - at_ b then _ else _). fold full in tk.
  assert (Htk : 0 <= tk <= tokens b + (t - at_ b))
    by (subst tk; unfold full, reactionLookupBurst, reactionLookupRefill, Second; destruct (0 <? t - at_ b) eqn:E; lia).
  destruct (tk <? cost * reactionLookupRefill) eqn:El.
  - specialize (IH (mkBudget true tk t) eq_refl (proj1 Htk) Hr). simpl in IH. lia.
  - assert (Hleft : 0 <= tk - cost * reactionLookupRefill) by lia.
    specialize (IH (mkBudget true (tk - cost * reactionLookupRefill) t) eq_refl Hleft Hr). simpl in IH. lia.
Qed.

(** The members reads admitted over any period are at most ten more than one
    per twenty seconds of it, from any state of the bucket. *)
Theorem lookup_budget_bounded b first requests last :
  bucket b first -> requested first requests last ->
  admitted b requests * reactionLookupRefill
    <= reactionLookupBurst * reactionLookupRefill + (last - first).
Proof.
  intros Hb Hr. fold full. destruct (started b) eqn:Es.
  - destruct (Hb Es) as [[H0 Hf] Hat]. destruct requests as [|[t cost] requests].
    { cbn [requested admitted] in *. unfold full, reactionLookupBurst, reactionLookupRefill, Second. lia. }
    cbn [requested admitted] in *. destruct Hr as (Ht & Hc & Hr). unfold take. rewrite Es.
    set (tk := if 0 <? t - at_ b then _ else _). fold full in tk.
    assert (Htk : 0 <= tk <= full) by (subst tk; unfold full, reactionLookupBurst, reactionLookupRefill, Second in *;
      destruct (0 <? t - at_ b) eqn:E; lia).
    destruct (tk <? cost * reactionLookupRefill) eqn:El.
    + pose proof (admitted_started (mkBudget true tk t) requests last eq_refl (proj1 Htk) Hr) as IH. simpl in IH. lia.
    + assert (Hleft : 0 <= tk - cost * reactionLookupRefill) by lia.
      pose proof (admitted_started (mkBudget true (tk - cost * reactionLookupRefill) t) requests last eq_refl Hleft Hr) as IH.
      simpl in IH. lia.
  - destruct requests as [|[t cost] requests].
    { cbn [requested admitted] in *. unfold full, reactionLookupBurst, reactionLookupRefill, Second. lia. }
    cbn [requested] in Hr. destruct Hr as (Ht & Hc & Hr).
    assert (E : admitted b ((t, cost) :: requests) = admitted (mkBudget true full t) ((t, cost) :: requests))
      by (cbn [admitted]; unfold take; by rewrite Es).
    rewrite E. assert (Hr' : requested (at_ (mkBudget true full t)) ((t, cost) :: requests) last) by (cbn; lia || by split_and!).
    apply (admitted_started (mkBudget true full t) _ _ eq_refl) in Hr'; [cbn [tokens at_] in Hr'; lia|].
    cbn [tokens]. unfold full, reactionLookupBurst, reactionLookupRefill, Second. lia.
Qed.

Lemma lookup_budget_bounded_witness :
  admitted (mkBudget false 0 0) (replicate 15 (5, 1) ++ [(5 + 40 * Second, 2); (5 + 41 * Second, 1)]) = 12 /\
  12 * reactionLookupRefill <= reactionLookupBurst * reactionLookupRefill + (5 + 41 * Second - 5).
Proof.
  assert (E : admitted (mkBudget false 0 0) (replicate 15 (5, 1) ++ [(5 + 40 * Second, 2); (5 + 41 * Second, 1)]) = 12)
    by by vm_compute.
  split; [exact E|]. rewrite <- E. apply lookup_budget_bounded; [discriminate|].
  cbn [replicate app requested]. unfold Second. lia.
Defined.

(** ** Shared reads *)

Abbreviation window := reactionLookupCoalesceWindow.

(** The clock, the session, the reads so far, and for each message the newest
    revision that waits for a read. *)
Record Lookups := mkLookups {
  clock : Z;
  session : Session;
  reads : list (Z * reactionLookupKey);
  waiting : gmap reactionLookupKey Z;
}.

Definition lookupsOf (l : Lookups) := reactionLookups (session l).

(** A push that needs a read, at a time of its own; a timer that is due. *)
Inductive lookupStep : Lookups -> Lookups -> Prop :=
| PushRead l t change s :
    clock l <= t -> coalesceReactionLookup t change (session l) = (s, false) ->
    lookupStep l (mkLookups t s (reads l ++ [(t, keyOf change)]) (waiting l))
| PushDeferred l t change s :
    clock l <= t -> coalesceReactionLookup t change (session l) = (s, true) ->
    lookupStep l (mkLookups t s (reads l)
      (<[keyOf change := Z.max (Revision change) (default (Revision change) (waiting l !! keyOf change))]> (waiting l)))
| TimerRead l t due key before after s change :
    clock l <= t -> due <= t -> timers (session l) = before ++ (due, key) :: after ->
    takePending t key (setTimers (before ++ after) (session l)) = (s, Some change) ->
    lookupStep l (mkLookups t s (reads l ++ [(t, key)]) (delete key (waiting l)))
| TimerIdle l t due key before after s :
    clock l <= t -> due <= t -> timers (session l) = before ++ (due, key) :: after ->
    takePending t key (setTimers (before ++ after) (session l)) = (s, None) ->
    lookupStep l (mkLookups t s (reads l) (waiting l)).

Inductive lookupRun : Lookups -> Lookups -> Prop :=
| RunStart l : lookupRun l l
| RunStep l l1 l2 : lookupRun l l1 -> lookupStep l1 l2 -> lookupRun l l2.

Definition fresh (t : Z) (b : reactionLookupBudget) : Lookups := mkLookups t (mkSession ∅ ∅ b []) [] ∅.

Record lookups_ok (l : Lookups) : Prop := {
  ok_window k w : lookupsOf l !! k = Some w -> readAt w <= clock l /\ (armed w = true <-> pending w <> None);
  ok_armed k w : lookupsOf l !! k = Some w -> armed w = true ->
    exists due, (due, k) ∈ timers (session l) /\ due <= clock l + window;
  ok_timer due k : (due, k) ∈ timers (session l) ->
    exists w, lookupsOf l !! k = Some w /\ armed w = true /\ readAt w + window <= due;
  ok_single : NoDup (timers (session l)).*2;
  ok_reads t k : (t, k) ∈ reads l ->
    t + window <= clock l \/ exists w, lookupsOf l !! k = Some w /\ t <= readAt w;
  ok_waiting k n : waiting l !! k = Some n ->
    exists w p, lookupsOf l !! k = Some w /\ pending w = Some p /\ n <= Revision p;
  ok_spaced : forall i j t t' k, (i < j)%nat -> reads l !! i = Some (t, k) -> reads l !! j = Some (t', k) ->
    t + window <= t';
}.

Lemma fresh_ok t b : lookups_ok (fresh t b).
Proof.
  split; cbn; try (intros; by rewrite lookup_empty in *); try done.
  - intros due k Hin. by apply elem_of_nil in Hin.
  - apply NoDup_nil_2.
  - intros ? k Hin. by apply elem_of_nil in Hin.
Qed.

(** A read of [k] at [t] keeps the distance if the reads before it did. *)
Lemma spaced_snoc_read l t k :
  lookups_ok l -> (forall t0, (t0, k) ∈ reads l -> t0 + window <= t) ->
  forall i j t1 t2 k', (i < j)%nat -> (reads l ++ [(t, k)]) !! i = Some (t1, k') ->
    (reads l ++ [(t, k)]) !! j = Some (t2, k') -> t1 + window <= t2.
Proof.
  intros Hok Hk i j t1 t2 k' Hij Hi Hj.
  apply lookup_app_Some in Hj as [Hj|[Hlen Hj]].
  - rewrite lookup_app_l in Hi by (apply lookup_lt_Some in Hj; lia). by eapply (ok_spaced _ Hok).
  - apply list_lookup_singleton_Some in Hj as [Hj [= <- <-]].
    rewrite lookup_app_l in Hi by lia. apply Hk. by eapply list_elem_of_lookup_2.
Qed.

(** The windows that idle are forgotten. *)
Definition kept (t : Z) (m : gmap reactionLookupKey reactionLookupWindow) :=
  filter (fun p : reactionLookupKey * reactionLookupWindow => Is_true (negb (isIdle t p.2))) m.

Lemma kept_lookup t m k w : kept t m !! k = Some w <-> m !! k = Some w /\ isIdle t w = false.
Proof. unfold kept. rewrite map_lookup_filter_Some. simpl. destruct (isIdle t w); split; by intros []. Qed.

Lemma kept_none t m k : kept t m !! k = None -> m !! k = None \/ exists w, m !! k = Some w /\ isIdle t w = true.
Proof.
  intros H. destruct (m !! k) as [w|] eqn:E; [right; exists w; split; [done|]|by left].
  destruct (isIdle t w) eqn:Ei; [done|]. by rewrite (proj2 (kept_lookup t m k w)) in H.
Qed.

Lemma armed_kept t w : armed w = true -> isIdle t w = false.
Proof. unfold isIdle. intros ->. by destruct (pending w). Qed.

Lemma idle_read t w : isIdle t w = true -> readAt w + window <= t /\ pending w = None /\ armed w = false.
Proof. unfold isIdle. destruct (pending w); [done|]. destruct (armed w); simpl; [done|]. intros H. split; [lia|done]. Qed.

(** What a push does to the windows. *)
Lemma coalesce_cases t change s s' deferred :
  coalesceReactionLookup t change s = (s', deferred) ->
  let key := keyOf change in let m := kept t (reactionLookups s) in
  if deferred then
    exists w p, m !! key = Some w /\ 
      (pending w <> None \/ t - readAt w < window) /\
      (match pending w with Some q => Revision q <= Revision p /\ (q = p \/ p = change) | None => p = change end) /\
      Revision change <= Revision p /\
      reactionLookups s' = <[key := mkWindow (readAt w) (Some p) true]> m /\
      timers s' = timers s ++ (if armed w then [] else [(t + Z.max (window - (t - readAt w)) Millisecond, key)])
  else
    (forall w, m !! key = Some w -> pending w = None /\ window <= t - readAt w) /\
    reactionLookups s' = <[key := mkWindow t None false]> m /\ timers s' = timers s.
Proof.
  unfold coalesceReactionLookup. fold (kept t (reactionLookups s)). cbv zeta.
  destruct (kept t (reactionLookups s) !! keyOf change) as [w|] eqn:Ew; [|by intros [= <- <-]].
  destruct (match pending w with None => _ | Some _ => false end) eqn:Ea.
  - intros [= <- <-]. split_and!; [|done|done]. intros w' [= <-].
    destruct (pending w); [done|]. split; [done|lia].
  - destruct (pending w) as [q|] eqn:Ep.
    + intros [= <- <-]. destruct (Revision q <? Revision change) eqn:El.
      * exists w, change. rewrite Ep. split_and!; [done|by left|lia|by right|lia| |]; by destruct (armed w); simpl; rewrite ?app_nil_r.
      * exists w, q. rewrite Ep. split_and!; [done|by left|lia|by left|lia| |]; by destruct (armed w); simpl; rewrite ?app_nil_r.
    + intros [= <- <-]. exists w, change. rewrite Ep. split_and!; [done|right; lia|done|lia| |];
        by destruct (armed w); simpl; rewrite ?app_nil_r.
Qed.

(** Reads before a step stay in sight of the windows after it. *)
Lemma reads_later l t k w0 (m : gmap reactionLookupKey reactionLookupWindow) :
  lookups_ok l -> clock l <= t ->
  (forall w, lookupsOf l !! k = Some w -> m !! k = Some w \/ readAt w + window <= t \/ m !! k = Some w0 /\ readAt w <= readAt w0) ->
  forall t0, (t0, k) ∈ reads l -> t0 + window <= t \/ exists w, m !! k = Some w /\ t0 <= readAt w.
Proof.
  intros Hok Ht Hm t0 Hin. destruct (ok_reads _ Hok _ _ Hin) as [?|(w & Hw & Hr)]; [left; lia|].
  destruct (Hm w Hw) as [?|[?|[? ?]]]; [right; by exists w|left; lia|right; exists w0; split; [done|lia]].
Qed.

Lemma kept_later l t k w : lookups_ok l -> lookupsOf l !! k = Some w ->
  kept t (lookupsOf l) !! k = Some w \/ readAt w + window <= t.
Proof.
  intros Hok Hw. destruct (isIdle t w) eqn:Ei; [right; by apply idle_read in Ei as [? _]|left].
  by apply kept_lookup.
Qed.

Lemma push_read_ok l t change s :
  lookups_ok l -> clock l <= t -> coalesceReactionLookup t change (session l) = (s, false) ->
  lookups_ok (mkLookups t s (reads l ++ [(t, keyOf change)]) (waiting l)).
Proof.
  intros Hok Ht E. apply coalesce_cases in E as (Hadmit & El & Etm). set (key := keyOf change) in *.
  fold (lookupsOf l) in *.
  assert (Hkey : forall w, lookupsOf l !! key = Some w -> pending w = None /\ armed w = false /\ readAt w + window <= t).
  { intros w Hw. destruct (isIdle t w) eqn:Ei; [apply idle_read in Ei; tauto|].
    destruct (Hadmit w) as [Hp Hr]; [by apply kept_lookup|]. split_and!; [done| |lia].
    apply not_true_is_false. intros Ha. by apply (ok_window _ Hok _ _ Hw) in Ha. }
  assert (Hother : forall k w, k <> key -> reactionLookups s !! k = Some w -> lookupsOf l !! k = Some w).
  { intros k w Hk. rewrite El, lookup_insert_ne by done. by intros [? _]%kept_lookup. }
  assert (Hsame : forall k w, k <> key -> kept t (lookupsOf l) !! k = Some w -> reactionLookups s !! k = Some w)
    by (intros k w Hk; by rewrite El, lookup_insert_ne).
  assert (Hnew : reactionLookups s !! key = Some (mkWindow t None false)) by (by rewrite El, lookup_insert_eq).
  split; unfold lookupsOf; cbn [clock session reads waiting].
  - intros k w Hw. destruct (decide (k = key)) as [->|Hk].
    + rewrite Hnew in Hw. injection Hw as <-. simpl. split; [lia|]. split; [done|]. by intros [].
    + destruct (ok_window _ Hok _ _ (Hother _ _ Hk Hw)). split; [lia|done].
  - intros k w Hw Ha. destruct (decide (k = key)) as [->|Hk]; [rewrite Hnew in Hw; by injection Hw as <-|].
    destruct (ok_armed _ Hok _ _ (Hother _ _ Hk Hw) Ha) as (due & Hd & Hle). exists due. rewrite Etm. split; [done|lia].
  - intros due k. rewrite Etm. intros Hd. destruct (ok_timer _ Hok _ _ Hd) as (w & Hw & Ha & Hle).
    destruct (decide (k = key)) as [->|Hk]; [destruct (Hkey w Hw) as (_ & ? & _); congruence|].
    exists w. split; [|done]. apply Hsame; [done|]. apply kept_lookup. split; [done|by apply armed_kept].
  - rewrite Etm. apply (ok_single _ Hok).
  - intros t0 k [Hin|[= -> ->]%list_elem_of_singleton]%elem_of_app;
      [|right; eexists; split; [exact Hnew|simpl; lia]].
    apply (reads_later l t k (mkWindow t None false)); [done|done| |done]. intros w Hw.
    destruct (decide (k = key)) as [->|Hk].
    + right. right. split; [done|]. simpl. destruct (ok_window _ Hok _ _ Hw). lia.
    + destruct (kept_later l t k w Hok Hw); [left; by apply Hsame|by right; left].
  - intros k n Hn. destruct (ok_waiting _ Hok _ _ Hn) as (w & p & Hw & Hp & Hle).
    destruct (decide (k = key)) as [->|Hk]; [destruct (Hkey w Hw) as (? & _); congruence|].
    exists w, p. split; [|done]. apply Hsame; [done|]. apply kept_lookup. split; [done|].
    unfold isIdle. by rewrite Hp.
  - apply spaced_snoc_read; [done|]. intros t0 Hin.
    destruct (ok_reads _ Hok _ _ Hin) as [?|(w & Hw & Hr)]; [lia|]. destruct (Hkey w Hw) as (_ & _ & ?). lia.
Qed.

Lemma push_deferred_ok l t change s :
  lookups_ok l -> clock l <= t -> coalesceReactionLookup t change (session l) = (s, true) ->
  lookups_ok (mkLookups t s (reads l)
    (<[keyOf change := Z.max (Revision change) (default (Revision change) (waiting l !! keyOf change))]> (waiting l))).
Proof.
  intros Hok Ht E. apply coalesce_cases in E as (w0 & p & Hw0 & Hnear & Hp & Hrev & El & Etm). set (key := keyOf change) in *.
  fold (lookupsOf l) in *. apply kept_lookup in Hw0 as [Hw0 Hi0].
  destruct (ok_window _ Hok _ _ Hw0) as [Hr0 Ha0].
  assert (Hother : forall k w, k <> key -> reactionLookups s !! k = Some w -> lookupsOf l !! k = Some w).
  { intros k w Hk. rewrite El, lookup_insert_ne by done. by intros [? _]%kept_lookup. }
  assert (Hsame : forall k w, k <> key -> kept t (lookupsOf l) !! k = Some w -> reactionLookups s !! k = Some w)
    by (intros k w Hk; by rewrite El, lookup_insert_ne).
  assert (Hnew : reactionLookups s !! key = Some (mkWindow (readAt w0) (Some p) true)) by (by rewrite El, lookup_insert_eq).
  set (due0 := t + Z.max (window - (t - readAt w0)) Millisecond) in *.
  assert (Hdue0 : readAt w0 + window <= due0 <= t + window)
    by (subst due0; unfold window, Millisecond, Second; lia).
  assert (Hfree : armed w0 = false -> forall due, (due, key) ∉ timers (session l)).
  { intros Ha due Hd. destruct (ok_timer _ Hok _ _ Hd) as (w & Hw & Hwa & _). congruence. }
  split; unfold lookupsOf; cbn [clock session reads waiting].
  - intros k w Hw. destruct (decide (k = key)) as [->|Hk].
    + rewrite Hnew in Hw. injection Hw as <-. simpl. split; [lia|]. by split.
    + destruct (ok_window _ Hok _ _ (Hother _ _ Hk Hw)). split; [lia|done].
  - intros k w Hw Ha. rewrite Etm. setoid_rewrite elem_of_app. destruct (decide (k = key)) as [->|Hk].
    + destruct (armed w0) eqn:E0.
      * destruct (ok_armed _ Hok _ _ Hw0 E0) as (due & Hd & Hle). exists due. split; [by left|lia].
      * exists due0. split; [right; apply list_elem_of_here|lia].
    + destruct (ok_armed _ Hok _ _ (Hother _ _ Hk Hw) Ha) as (due & Hd & Hle). exists due. split; [by left|lia].
  - intros due k. rewrite Etm, elem_of_app. intros [Hd|Hd].
    + destruct (ok_timer _ Hok _ _ Hd) as (w & Hw & Ha & Hle). destruct (decide (k = key)) as [->|Hk].
      * rewrite Hw0 in Hw. injection Hw as <-. eexists. split; [exact Hnew|by split].
      * exists w. split; [|done]. apply Hsame; [done|]. apply kept_lookup. split; [done|by apply armed_kept].
    + destruct (armed w0); [by apply elem_of_nil in Hd|]. apply list_elem_of_singleton in Hd as [= -> ->].
      eexists. split; [exact Hnew|]. split; [done|simpl; lia].
  - rewrite Etm, fmap_app. destruct (armed w0) eqn:E0; [rewrite app_nil_r; apply (ok_single _ Hok)|].
    change ([(due0, key)].*2) with [key].
    apply NoDup_app. split_and!; [apply (ok_single _ Hok)| |apply NoDup_singleton].
    intros k Hk ->%list_elem_of_singleton. apply list_elem_of_fmap in Hk as ([due k] & -> & Hd). by apply (Hfree eq_refl due).
  - intros t0 k Hin. apply (reads_later l t k (mkWindow (readAt w0) (Some p) true)); [done|done| |done].
    intros w Hw. destruct (decide (k = key)) as [->|Hk].
    + right. right. split; [done|]. rewrite Hw0 in Hw. by injection Hw as <-.
    + destruct (kept_later l t k w Hok Hw); [left; by apply Hsame|by right; left].
  - intros k n. destruct (decide (k = key)) as [->|Hk].
    + rewrite lookup_insert_eq. intros [= <-]. eexists _, p. split; [exact Hnew|]. split; [done|].
      destruct (waiting l !! key) as [n|] eqn:En; simpl; [|lia].
      destruct (ok_waiting _ Hok _ _ En) as (w & q & Hw & Hq & Hle). rewrite Hw0 in Hw. injection Hw as <-.
      rewrite Hq in Hp. lia.
    + rewrite lookup_insert_ne by done. intros Hn. destruct (ok_waiting _ Hok _ _ Hn) as (w & q & Hw & Hq & Hle).
      exists w, q. split; [|done]. apply Hsame; [done|]. apply kept_lookup. split; [done|].
      unfold isIdle. by rewrite Hq.
  - apply (ok_spaced _ Hok).
Qed.

(** The window a timer finds waits for a read. *)
Lemma timer_window l due key before after :
  lookups_ok l -> timers (session l) = before ++ (due, key) :: after ->
  exists w p, lookupsOf l !! key = Some w /\ pending w = Some p /\ readAt w + window <= due.
Proof.
  intros Hok Et. assert (Hd : (due, key) ∈ timers (session l)) by (rewrite Et, elem_of_app, elem_of_cons; auto).
  destruct (ok_timer _ Hok _ _ Hd) as (w & Hw & Ha & Hle). apply (ok_window _ Hok _ _ Hw) in Ha.
  destruct (pending w) as [p|] eqn:Ep; [|done]. by exists w, p.
Qed.

Lemma timer_read_ok l t due key before after s change :
  lookups_ok l -> clock l <= t -> due <= t -> timers (session l) = before ++ (due, key) :: after ->
  takePending t key (setTimers (before ++ after) (session l)) = (s, Some change) ->
  lookups_ok (mkLookups t s (reads l ++ [(t, key)]) (delete key (waiting l))).
Proof.
  intros Hok Ht Hdue Et E. destruct (timer_window _ _ _ _ _ Hok Et) as (w0 & p & Hw0 & Hp0 & Hle0).
  unfold takePending in E. change (reactionLookups (setTimers _ _)) with (lookupsOf l) in E.
  rewrite Hw0, Hp0 in E. injection E as <- _.
  destruct (ok_window _ Hok _ _ Hw0) as [Hr0 _].
  assert (Hin : forall d k, (d, k) ∈ before ++ after -> (d, k) ∈ timers (session l) /\ k <> key).
  { intros d k Hd. split; [rewrite Et, elem_of_app, elem_of_cons; apply elem_of_app in Hd; tauto|]. pose proof (ok_single _ Hok) as Hn. rewrite Et, fmap_app, fmap_cons in Hn.
    cbn [snd] in Hn. intros ->. rewrite <- Permutation_middle in Hn. apply NoDup_cons in Hn as [Hn _].
    apply Hn. rewrite <- fmap_app. apply list_elem_of_fmap. by exists (d, key). }
  split; unfold lookupsOf; cbn [clock session reads waiting setLookups setTimers reactionLookups timers].
  - intros k w. destruct (decide (k = key)) as [->|Hk].
    + rewrite lookup_insert_eq. intros [= <-]. simpl. split; [lia|]. split; [done|]. by intros [].
    + rewrite lookup_insert_ne by done. intros Hw. destruct (ok_window _ Hok _ _ Hw). split; [lia|done].
  - intros k w. destruct (decide (k = key)) as [->|Hk]; [rewrite lookup_insert_eq; by intros [= <-]|].
    rewrite lookup_insert_ne by done. intros Hw Ha. destruct (ok_armed _ Hok _ _ Hw Ha) as (d & Hd & Hle).
    exists d. split; [|lia]. rewrite Et in Hd. apply elem_of_app in Hd as [Hd|[[= -> ->]|Hd]%elem_of_cons]; [|done|];
      apply elem_of_app; [by left|by right].
  - intros d k Hd. destruct (Hin _ _ Hd) as [Hd' Hk]. rewrite lookup_insert_ne by done. by apply (ok_timer _ Hok).
  - pose proof (ok_single _ Hok) as Hn. rewrite Et, fmap_app, fmap_cons, <- Permutation_middle, <- fmap_app in Hn.
    by apply NoDup_cons in Hn as [_ Hn].
  - intros t0 k [Hr|[= -> ->]%list_elem_of_singleton]%elem_of_app;
      [|right; eexists; split; [apply lookup_insert_eq|simpl; lia]].
    apply (reads_later l t k (mkWindow t None false)); [done|done| |done]. intros w Hw.
    destruct (decide (k = key)) as [->|Hk].
    + right. right. rewrite lookup_insert_eq. split; [done|]. simpl. destruct (ok_window _ Hok _ _ Hw). lia.
    + left. by rewrite lookup_insert_ne.
  - intros k n [Hk Hn]%lookup_delete_Some. destruct (ok_waiting _ Hok _ _ Hn) as (w & q & Hw & Hq & Hle).
    exists w, q. rewrite lookup_insert_ne by congruence. done.
  - apply spaced_snoc_read; [done|]. intros t0 Hr.
    destruct (ok_reads _ Hok _ _ Hr) as [?|(w & Hw & ?)]; [lia|]. rewrite Hw0 in Hw. injection Hw as <-. lia.
Qed.

Lemma lookupStep_ok l l' : lookups_ok l -> lookupStep l l' -> lookups_ok l'.
Proof.
  intros Hok Hstep. revert Hok. destruct Hstep as [l0 t change s Ht E|l0 t change s Ht E
    |l0 t due key before after s change Ht Hd Et E|l0 t due key before after s Ht Hd Et E]; intros Hok.
  - by apply push_read_ok.
  - by apply push_deferred_ok.
  - by eapply timer_read_ok.
  - exfalso. destruct (timer_window _ _ _ _ _ Hok Et) as (w & p & Hw & Hp & _).
    unfold takePending in E. change (reactionLookups (setTimers _ _)) with (lookupsOf l0) in E.
    rewrite Hw, Hp in E. done.
Qed.

(** C36: over any live pushes and timers, two reads for pushes of one message
    and one metadata type are at least two seconds apart ([applyReaction] of a
    viewing resync does not coalesce, and its reads are bounded by the budget
    alone), and a push that was deferred is not forgotten: a timer is set,
    for two seconds ahead at most, and the change it will apply is as new as
    every push that waits. *)
Theorem reads_are_shared t b l :
  lookupRun (fresh t b) l ->
  (forall i j t1 t2 k, (i < j)%nat -> reads l !! i = Some (t1, k) -> reads l !! j = Some (t2, k) ->
     t1 + reactionLookupCoalesceWindow <= t2) /\
  (forall k n, waiting l !! k = Some n -> exists w p due,
     lookupsOf l !! k = Some w /\ pending w = Some p /\ n <= Revision p /\
     (due, k) ∈ timers (session l) /\ due <= clock l + reactionLookupCoalesceWindow).
Proof.
  intros Hrun. assert (Hok : lookups_ok l).
  { remember (fresh t b) as l0 eqn:E0. induction Hrun as [|l0 l1 l2 Hr IH Hstep]; [subst; apply fresh_ok|].
    eapply lookupStep_ok; [by apply IH|done]. }
  split; [apply (ok_spaced _ Hok)|]. intros k n Hn.
  destruct (ok_waiting _ Hok _ _ Hn) as (w & p & Hw & Hp & Hle).
  assert (Ha : armed w = true) by (apply (ok_window _ Hok _ _ Hw); congruence).
  destruct (ok_armed _ Hok _ _ Hw Ha) as (due & Hd & Hdue). by exists w, p, due.
Qed.

(** Three pushes within a second, and the shared read. *)
Definition demoChange (revision : Z) : ReactionChanged :=
  mkChange 1 10 0 4 revision [] (mkExtra false 0 false 0 0).
Definition demoBucket : reactionLookupBudget := mkBudget false 0 0.
Definition afterPush (t revision : Z) (l : Lookups) : Session :=
  fst (coalesceReactionLookup t (demoChange revision) (session l)).
Definition demoFirst : Lookups :=
  mkLookups 0 (afterPush 0 5 (fresh 0 demoBucket)) [(0, keyOf (demoChange 5))] ∅.
Definition deferred (t revision : Z) (l : Lookups) : Lookups :=
  let key := keyOf (demoChange revision) in
  mkLookups t (afterPush t revision l) (reads l)
    (<[key := Z.max revision (default revision (waiting l !! key))]> (waiting l)).
Definition demoThird : Lookups := deferred 200 7 (deferred 100 6 demoFirst).

Lemma deferred_step t revision l :
  clock l <= t -> snd (coalesceReactionLookup t (demoChange revision) (session l)) = true ->
  lookupStep l (deferred t revision l).
Proof. intros Ht E. apply (PushDeferred l t (demoChange revision)); [done|]. by apply injective_projections. Qed.

Lemma demo_lookups : lookupRun (fresh 0 demoBucket) demoThird.
Proof.
  eapply RunStep; [eapply RunStep; [eapply RunStep; [apply RunStart|]|]|].
  - apply (PushRead (fresh 0 demoBucket) 0 (demoChange 5) (afterPush 0 5 (fresh 0 demoBucket))); [simpl; lia|].
    apply injective_projections; [done|]. by vm_compute.
  - apply (deferred_step 100 6); [by apply Z.leb_le|by vm_compute].
  - apply (deferred_step 200 7); [by apply Z.leb_le|by vm_compute].
Qed.

Lemma demo_waits : waiting demoThird !! keyOf (demoChange 7) = Some 7.
Proof. by vm_compute. Qed.

Lemma reads_are_shared_witness :
  exists w p due, lookupsOf demoThird !! keyOf (demoChange 7) = Some w /\ pending w = Some p /\ 7 <= Revision p /\
    (due, keyOf (demoChange 7)) ∈ timers (session demoThird) /\ due <= 200 + reactionLookupCoalesceWindow.
Proof.
  apply (proj2 (reads_are_shared 0 demoBucket demoThird demo_lookups) (keyOf (demoChange 7)) 7 demo_waits).
Defined.
