(* ===== verification/Text.v ===== *)
(** * Text: what the connector uses of Go's strings

    A Go string is a list of bytes, here a [string] of 8-bit characters.
    [decodeRunes] is the conversion to [[]rune] (an invalid byte is one
    replacement character), [encodeRune] the conversion back; [utf16_Encode]
    and [utf16_Decode] are the package unicode/utf16.  [truncateReplyPreview]
    is src/internal/protocol/chat/reply.go's, of which
    src/internal/bridge/connector/message_metadata.go has a copy. *)

From S2P Require Import Prelude Bytes.

#[local] Open Scope Z_scope.

(** ** Strings and bytes *)

Fixpoint stringBytes (s : string) : bytes :=
  match s with
  | EmptyString => []
  | String c s => Z.of_nat (Ascii.nat_of_ascii c) :: stringBytes s
  end.

Fixpoint bytesString (l : bytes) : string :=
  match l with
  | [] => EmptyString
  | b :: l => String (Ascii.ascii_of_nat (Z.to_nat b)) (bytesString l)
  end.

Definition len (s : string) : Z := Z.of_nat (String.length s).
Definition ValidString (s : string) : bool := utf8_Valid (stringBytes s).
Definition IndexByte0 (s : string) : bool := existsb (Z.eqb 0) (stringBytes s). (* [strings.IndexByte(s, 0) >= 0] *)

(** ** Runes *)

Definition RuneError : Z := 65533.

Definition rune2 (b c1 : Z) : Z := (b - 192) * 64 + (c1 - 128).
Definition rune3 (b c1 c2 : Z) : Z := (b - 224) * 4096 + (c1 - 128) * 64 + (c2 - 128).
Definition rune4 (b c1 c2 c3 : Z) : Z :=
  (b - 240) * 262144 + (c1 - 128) * 4096 + (c2 - 128) * 64 + (c3 - 128).

(** The bounds of the first continuation byte, and of a valid sequence. *)
Definition low3 (b : Z) : Z := if b =? 224 then 160 else 128.
Definition high3 (b : Z) : Z := if b =? 237 then 159 else 191.
Definition low4 (b : Z) : Z := if b =? 240 then 144 else 128.
Definition high4 (b : Z) : Z := if b =? 244 then 143 else 191.
Definition valid3 (b c1 c2 : Z) : bool := utf8_in (low3 b) (high3 b) c1 && utf8_cont c2.
Definition valid4 (b c1 c2 c3 : Z) : bool :=
  utf8_in (low4 b) (high4 b) c1 && utf8_cont c2 && utf8_cont c3.

Fixpoint decodeRunes (l : bytes) : list Z :=
  match l with
  | [] => []
  | b :: rest =>
      if b <? 128 then b :: decodeRunes rest
      else if utf8_in 194 223 b then
        match rest with
        | c1 :: rest1 => if utf8_cont c1 then rune2 b c1 :: decodeRunes rest1 else RuneError :: decodeRunes rest
        | [] => RuneError :: decodeRunes rest
        end
      else if utf8_in 224 239 b then
        match rest with
        | c1 :: c2 :: rest2 => if valid3 b c1 c2 then rune3 b c1 c2 :: decodeRunes rest2 else RuneError :: decodeRunes rest
        | _ => RuneError :: decodeRunes rest
        end
      else if utf8_in 240 244 b then
        match rest with
        | c1 :: c2 :: c3 :: rest3 =>
            if valid4 b c1 c2 c3 then rune4 b c1 c2 c3 :: decodeRunes rest3 else RuneError :: decodeRunes rest
        | _ => RuneError :: decodeRunes rest
        end
      else RuneError :: decodeRunes rest
  end.

(** A Unicode scalar value. *)
Definition scalar (r : Z) : bool :=
  ((0 <=? r) && (r <? 55296)) || ((57344 <=? r) && (r <=? 1114111)).

Definition encodeScalar (r : Z) : bytes :=
  if r <? 128 then [r]
  else if r <? 2048 then [192 + r / 64; 128 + r mod 64]
  else if r <? 65536 then [224 + r / 4096; 128 + r / 64 mod 64; 128 + r mod 64]
  else [240 + r / 262144; 128 + r / 4096 mod 64; 128 + r / 64 mod 64; 128 + r mod 64].

Definition encodeRune (r : Z) : bytes := encodeScalar (if scalar r then r else RuneError).

Definition runes (s : string) : list Z := decodeRunes (stringBytes s).
Definition runesString (l : list Z) : string := bytesString (concat (encodeRune <$> l)).

(** [strings.ContainsRune(s, 0)] and the loop of reply.go's [containsNUL]. *)
Definition containsNUL (value : string) : bool := existsb (Z.eqb 0) (runes value).

(** ** UTF-16 *)

Definition encode16 (r : Z) : list Z :=
  if ((0 <=? r) && (r <? 55296)) || ((57344 <=? r) && (r <? 65536)) then [r]
  else if (65536 <=? r) && (r <=? 1114111)
    then [55296 + (r - 65536) / 1024; 56320 + (r - 65536) mod 1024]
    else [RuneError].

Definition utf16_Encode (l : list Z) : list Z := concat (encode16 <$> l).

Definition highSurrogate (u : Z) : bool := (55296 <=? u) && (u <? 56320).
Definition lowSurrogate (u : Z) : bool := (56320 <=? u) && (u <? 57344).

Fixpoint utf16_Decode (units : list Z) : list Z :=
  match units with
  | [] => []
  | u :: rest =>
      if negb (highSurrogate u || lowSurrogate u) then u :: utf16_Decode rest
      else match rest with
           | v :: rest2 =>
               if highSurrogate u && lowSurrogate v
               then ((u - 55296) * 1024 + (v - 56320) + 65536) :: utf16_Decode rest2
               else RuneError :: utf16_Decode rest
           | [] => [RuneError]
           end
  end.

(** ** The preview of a quoted message *)

Definition maxReplyPreviewUTF16 : nat := 100.

(** The last unit is dropped when it is the first half of a pair. *)
Definition dropHalf (units : list Z) : list Z :=
  match last units with
  | Some u => if (55296 <=? u) && (u <=? 56319) then take (length units - 1) units else units
  | None => units
  end.

Definition truncateReplyPreview (message : string) : string :=
  let units := utf16_Encode (runes message) in
  if (length units <=? maxReplyPreviewUTF16)%nat then message
  else runesString (utf16_Decode (dropHalf (take maxReplyPreviewUTF16 units))).

(** ** Text: facts

    Encoding and decoding are inverse on scalar values, decoding gives scalar
    values only, and the preview of a quoted message is a beginning of it of at
    most a hundred UTF-16 units. *)

(** Division by a power of two of a number given by its digits. *)
Ltac digits :=
  repeat match goal with
  | |- context [?a / ?b] =>
      let q := fresh "q" in let r := fresh "r" in
      pose proof (Z.div_mod a b ltac:(lia)); pose proof (Z.mod_pos_bound a b ltac:(lia));
      set (q := a / b) in *; set (r := a mod b) in *; clearbody q r
  | |- context [?a mod ?b] =>
      let r := fresh "r" in
      pose proof (Z.div_mod a b ltac:(lia)); pose proof (Z.mod_pos_bound a b ltac:(lia));
      set (r := a mod b) in *; clearbody r
  end.

Lemma stringBytes_ok s : bytes_ok (stringBytes s).
Proof.
  induction s as [|c s IH]; constructor; [|done].
  pose proof (Ascii.nat_ascii_bounded c). lia.
Qed.

Lemma stringBytes_bytesString l : bytes_ok l -> stringBytes (bytesString l) = l.
Proof.
  induction 1 as [|b l Hb _ IH]; [done|]. simpl. f_equal; [|done].
  rewrite Ascii.nat_ascii_embedding by lia. lia.
Qed.

Lemma bytesString_stringBytes s : bytesString (stringBytes s) = s.
Proof.
  induction s as [|c s IH]; [done|]. simpl. rewrite Nat2Z.id, Ascii.ascii_nat_embedding. by rewrite IH.
Qed.

(** ** UTF-8 *)

Lemma scalar_bounds r : scalar r = true <-> (0 <= r < 55296 \/ 57344 <= r <= 1114111).
Proof. unfold scalar. rewrite orb_true_iff, !andb_true_iff, !Z.leb_le, !Z.ltb_lt. lia. Qed.

Lemma scalar_rune2 b c1 :
  utf8_in 194 223 b = true -> utf8_cont c1 = true -> scalar (rune2 b c1) = true.
Proof.
  unfold utf8_in, utf8_cont. rewrite !andb_true_iff, !Z.leb_le. intros Hb Hc.
  apply scalar_bounds. unfold rune2. lia.
Qed.

Lemma scalar_rune3 b c1 c2 :
  utf8_in 224 239 b = true -> valid3 b c1 c2 = true -> scalar (rune3 b c1 c2) = true.
Proof.
  unfold valid3, utf8_in, utf8_cont, low3, high3. rewrite !andb_true_iff, !Z.leb_le. intros Hb Hc.
  apply scalar_bounds. unfold rune3.
  destruct (Z.eqb_spec b 224), (Z.eqb_spec b 237); lia.
Qed.

Lemma scalar_rune4 b c1 c2 c3 :
  utf8_in 240 244 b = true -> valid4 b c1 c2 c3 = true -> scalar (rune4 b c1 c2 c3) = true.
Proof.
  unfold valid4, utf8_in, utf8_cont, low4, high4. rewrite !andb_true_iff, !Z.leb_le. intros Hb Hc.
  apply scalar_bounds. unfold rune4.
  destruct (Z.eqb_spec b 240), (Z.eqb_spec b 244); lia.
Qed.

Lemma decodeRunes_scalar l : bytes_ok l -> Forall (fun r => scalar r = true) (decodeRunes l).
Proof.
  remember (length l) as n eqn:Hn. revert l Hn.
  induction n as [n IH] using lt_wf_ind. intros l -> Hl.
  destruct l as [|b l]; [constructor|]. cbn [decodeRunes].
  apply Forall_cons in Hl as [Hb Hl].
  assert (Hrest : Forall (fun r => scalar r = true) (decodeRunes l))
    by (apply (IH (length l)); [simpl; lia|done|done]).
  assert (Hinvalid : Forall (fun r => scalar r = true) (RuneError :: decodeRunes l)) by (by constructor).
  destruct (Z.ltb_spec b 128); [constructor; [apply scalar_bounds; lia|done]|].
  destruct (utf8_in 194 223 b) eqn:E2.
  { destruct l as [|c1 l]; [done|]. destruct (utf8_cont c1) eqn:Ec; [|done].
    constructor; [by apply scalar_rune2|]. apply Forall_cons in Hl as [_ Hl].
    apply (IH (length l)); [simpl; lia|done|done]. }
  destruct (utf8_in 224 239 b) eqn:E3.
  { destruct l as [|c1 [|c2 l]]; [done|done|]. destruct (valid3 b c1 c2) eqn:Ec; [|done].
    constructor; [by apply scalar_rune3|]. do 2 apply Forall_cons in Hl as [_ Hl].
    apply (IH (length l)); [simpl; lia|done|done]. }
  destruct (utf8_in 240 244 b) eqn:E4; [|done].
  destruct l as [|c1 [|c2 [|c3 l]]]; [done|done|done|]. destruct (valid4 b c1 c2 c3) eqn:Ec; [|done].
  constructor; [by apply scalar_rune4|]. do 3 apply Forall_cons in Hl as [_ Hl].
  apply (IH (length l)); [simpl; lia|done|done].
Qed.

(** Decoding what one scalar value encodes to. *)
Lemma decodeRunes_two b c1 l :
  utf8_in 194 223 b = true -> utf8_cont c1 = true ->
  decodeRunes (b :: c1 :: l) = rune2 b c1 :: decodeRunes l.
Proof.
  intros Hb Hc. cbn [decodeRunes]. rewrite Hb, Hc.
  destruct (Z.ltb_spec b 128); [|done]. unfold utf8_in in Hb. bool_prop. lia.
Qed.

Lemma decodeRunes_three b c1 c2 l :
  utf8_in 224 239 b = true -> valid3 b c1 c2 = true ->
  decodeRunes (b :: c1 :: c2 :: l) = rune3 b c1 c2 :: decodeRunes l.
Proof.
  intros Hb Hc. cbn [decodeRunes]. rewrite Hb, Hc. unfold utf8_in in *. bool_prop.
  destruct (Z.ltb_spec b 128), (Z.leb_spec 194 b), (Z.leb_spec b 223); simpl; try done; lia.
Qed.

Lemma decodeRunes_four b c1 c2 c3 l :
  utf8_in 240 244 b = true -> valid4 b c1 c2 c3 = true ->
  decodeRunes (b :: c1 :: c2 :: c3 :: l) = rune4 b c1 c2 c3 :: decodeRunes l.
Proof.
  intros Hb Hc. cbn [decodeRunes]. rewrite Hb, Hc. unfold utf8_in in *. bool_prop.
  destruct (Z.ltb_spec b 128), (Z.leb_spec 194 b), (Z.leb_spec b 223),
    (Z.leb_spec 224 b), (Z.leb_spec b 239); simpl; try done; lia.
Qed.

Lemma encodeScalar_decodes r l :
  scalar r = true -> decodeRunes (encodeScalar r ++ l) = r :: decodeRunes l.
Proof.
  intros Hr. apply scalar_bounds in Hr. unfold encodeScalar.
  destruct (Z.ltb_spec r 128) as [H1|H1].
  { simpl. by rewrite (proj2 (Z.ltb_lt r 128)). }
  destruct (Z.ltb_spec r 2048) as [H2|H2].
  { cbn [app]. rewrite decodeRunes_two.
    - f_equal. unfold rune2. digits. lia.
    - unfold utf8_in. rewrite andb_true_iff, !Z.leb_le. digits. lia.
    - unfold utf8_cont. rewrite andb_true_iff, !Z.leb_le. digits. lia. }
  destruct (Z.ltb_spec r 65536) as [H3|H3].
  { pose proof (Z.div_div r 64 64 ltac:(lia) ltac:(lia)) as Hdd. change (64 * 64) with 4096 in Hdd.
    rewrite <-Hdd. cbn [app]. rewrite decodeRunes_three.
    - f_equal. unfold rune3. digits. lia.
    - unfold utf8_in. rewrite andb_true_iff, !Z.leb_le. digits. lia.
    - unfold valid3, utf8_in, utf8_cont, low3, high3. rewrite !andb_true_iff, !Z.leb_le.
      digits. destruct (Z.eqb_spec (224 + q) 224), (Z.eqb_spec (224 + q) 237); lia. }
  pose proof (Z.div_div r 64 64 ltac:(lia) ltac:(lia)) as Hdd. change (64 * 64) with 4096 in Hdd.
  pose proof (Z.div_div (r / 64) 64 64 ltac:(lia) ltac:(lia)) as Hddd. change (64 * 64) with 4096 in Hddd.
  rewrite (Z.div_div r 64 4096) in Hddd by lia. change (64 * 4096) with 262144 in Hddd.
  rewrite <-Hddd, <-Hdd. cbn [app]. rewrite decodeRunes_four.
  - f_equal. unfold rune4. digits. lia.
  - unfold utf8_in. rewrite andb_true_iff, !Z.leb_le. digits. lia.
  - unfold valid4, utf8_in, utf8_cont, low4, high4. rewrite !andb_true_iff, !Z.leb_le.
    digits. match goal with |- context [240 + ?q =? 240] => destruct (Z.eqb_spec (240 + q) 240), (Z.eqb_spec (240 + q) 244) end; lia.
Qed.

Lemma encodeScalar_bytes r : scalar r = true -> bytes_ok (encodeScalar r).
Proof.
  intros Hr. apply scalar_bounds in Hr. unfold encodeScalar, bytes_ok.
  destruct (Z.ltb_spec r 128); [repeat constructor; lia|].
  destruct (Z.ltb_spec r 2048); [repeat constructor; digits; lia|].
  destruct (Z.ltb_spec r 65536); repeat constructor; digits; lia.
Qed.

Lemma encodeRune_scalar r : scalar r = true -> encodeRune r = encodeScalar r.
Proof. unfold encodeRune. by intros ->. Qed.

Lemma runes_runesString l : Forall (fun r => scalar r = true) l -> runes (runesString l) = l.
Proof.
  intros Hl. unfold runes, runesString. rewrite stringBytes_bytesString.
  - induction Hl as [|r l Hr _ IH]; [done|]. rewrite fmap_cons. cbn [concat].
    rewrite encodeRune_scalar by done. by rewrite encodeScalar_decodes, IH.
  - induction Hl as [|r l Hr _ IH]; [constructor|]. rewrite fmap_cons. cbn [concat]. unfold bytes_ok.
    apply Forall_app. split; [|done]. rewrite encodeRune_scalar by done. by apply encodeScalar_bytes.
Qed.

Lemma runes_scalar s : Forall (fun r => scalar r = true) (runes s).
Proof. apply decodeRunes_scalar, stringBytes_ok. Qed.

(** ** UTF-16 *)

(** A scalar value is one unit that is no surrogate, or a pair. *)
Lemma encode16_cases r :
  scalar r = true ->
  (encode16 r = [r] /\ highSurrogate r = false /\ lowSurrogate r = false) \/
  exists u v, encode16 r = [u; v] /\ highSurrogate u = true /\ lowSurrogate v = true /\
    (u - 55296) * 1024 + (v - 56320) + 65536 = r.
Proof.
  intros Hr. apply scalar_bounds in Hr. unfold encode16, highSurrogate, lowSurrogate.
  destruct (decide (r < 65536)) as [Hs|Hs].
  - left. split_and!.
    + destruct (_ || _) eqn:E; [done|]. exfalso.
      rewrite orb_false_iff, !andb_false_iff, !Z.leb_gt, !Z.ltb_ge in E. lia.
    + apply andb_false_iff. rewrite Z.leb_gt, Z.ltb_ge. lia.
    + apply andb_false_iff. rewrite Z.leb_gt, Z.ltb_ge. lia.
  - right. exists (55296 + (r - 65536) / 1024), (56320 + (r - 65536) mod 1024).
    split_and!.
    + rewrite (proj2 (orb_false_iff _ _)); [rewrite (proj2 (andb_true_iff _ _)); [done|]|].
      * rewrite !Z.leb_le. lia.
      * rewrite !andb_false_iff, !Z.leb_gt, !Z.ltb_ge. lia.
    + rewrite andb_true_iff, Z.leb_le, Z.ltb_lt. digits. lia.
    + rewrite andb_true_iff, Z.leb_le, Z.ltb_lt. digits. lia.
    + digits. lia.
Qed.

Lemma utf16_Encode_cons r l : utf16_Encode (r :: l) = encode16 r ++ utf16_Encode l.
Proof. done. Qed.

Lemma utf16_Decode_unit u l :
  highSurrogate u = false -> lowSurrogate u = false -> utf16_Decode (u :: l) = u :: utf16_Decode l.
Proof. intros Hh Hl. simpl. by rewrite Hh, Hl. Qed.

Lemma utf16_Decode_pair u v l :
  highSurrogate u = true -> lowSurrogate v = true ->
  utf16_Decode (u :: v :: l) = ((u - 55296) * 1024 + (v - 56320) + 65536) :: utf16_Decode l.
Proof. intros Hu Hv. simpl. by rewrite Hu, Hv. Qed.

Lemma surrogates_disjoint u : lowSurrogate u = true -> highSurrogate u = false.
Proof.
  unfold highSurrogate, lowSurrogate. rewrite andb_true_iff, andb_false_iff, Z.leb_le, !Z.ltb_lt, Z.leb_gt, Z.ltb_ge.
  lia.
Qed.

Lemma utf16_Decode_Encode l : Forall (fun r => scalar r = true) l -> utf16_Decode (utf16_Encode l) = l.
Proof.
  induction 1 as [|r l Hr _ IH]; [done|]. rewrite utf16_Encode_cons.
  destruct (encode16_cases r Hr) as [(E & Hh & Hl)|(u & v & E & Hh & Hl & Hs)]; rewrite E; cbn [app].
  - by rewrite utf16_Decode_unit, IH.
  - by rewrite utf16_Decode_pair, IH, Hs.
Qed.

(** ** The preview *)

Lemma dropHalf_cons u v units : dropHalf (u :: v :: units) = u :: dropHalf (v :: units).
Proof.
  unfold dropHalf. change (last (u :: v :: units)) with (last (v :: units)).
  destruct (last (v :: units)) eqn:E; [|by apply last_None in E].
  case_match; [|done]. cbn [length Nat.sub take]. by rewrite Nat.sub_0_r.
Qed.

Lemma dropHalf_low v : highSurrogate v = false -> dropHalf [v] = [v].
Proof.
  unfold dropHalf, highSurrogate. simpl. intros Hv.
  destruct (55296 <=? v) eqn:E; [|done]. simpl in *.
  rewrite (proj2 (Z.leb_gt v 56319)); [done|]. bool_prop. lia.
Qed.

Lemma dropHalf_high u : highSurrogate u = true -> dropHalf [u] = [].
Proof.
  unfold dropHalf, highSurrogate. simpl. intros Hu. bool_prop.
  rewrite (proj2 (Z.leb_le _ _)), (proj2 (Z.leb_le _ _)) by lia. done.
Qed.

(** What is left of the first [n] units is the encoding of some first runes,
    and misses at most one unit. *)
Lemma dropHalf_take l n :
  Forall (fun r => scalar r = true) l ->
  exists k, dropHalf (take n (utf16_Encode l)) = utf16_Encode (take k l) /\
    (n <= length (utf16_Encode l) -> n <= length (utf16_Encode (take k l)) + 1)%nat.
Proof.
  intros Hl. revert n. induction Hl as [|r l Hr _ IH]; intros n.
  { exists 0%nat. split; [by destruct n|simpl; lia]. }
  destruct n as [|n]; [exists 0%nat; split; [done|cbn [take]; simpl; lia]|].
  rewrite utf16_Encode_cons.
  destruct (encode16_cases r Hr) as [(E & Hh & _)|(u & v & E & Hh & Hlow & _)].
  - destruct (IH n) as (k & Ek & Hk). exists (S k). cbn [take]. rewrite utf16_Encode_cons, E.
    cbn [app take length]. rewrite <-Ek. split; [|rewrite Ek; lia].
    destruct (take n (utf16_Encode l)) eqn:Et; [|apply dropHalf_cons].
    by rewrite dropHalf_low.
  - rewrite E. cbn [app take]. destruct n as [|n].
    { exists 0%nat. cbn [take]. rewrite dropHalf_high by done. split; [done|simpl; lia]. }
    destruct (IH n) as (k & Ek & Hk). exists (S k). cbn [take]. rewrite utf16_Encode_cons, E.
    cbn [app take length]. rewrite <-Ek. split; [|rewrite Ek; lia].
    rewrite dropHalf_cons. f_equal.
    destruct (take n (utf16_Encode l)) eqn:Et; [|apply dropHalf_cons].
    by rewrite dropHalf_low by (by apply surrogates_disjoint).
Qed.

Lemma Forall_scalar_take k l :
  Forall (fun r => scalar r = true) l -> Forall (fun r => scalar r = true) (take k l).
Proof. apply Forall_take. Qed.

(** The preview is a beginning of the message of at most a hundred units; of a
    longer message it is the longest that splits no pair. *)
Theorem preview_is_beginning message :
  exists k,
    runes (truncateReplyPreview message) = take k (runes message) /\
    (length (utf16_Encode (runes (truncateReplyPreview message))) <= maxReplyPreviewUTF16)%nat /\
    ((length (utf16_Encode (runes message)) <= maxReplyPreviewUTF16)%nat ->
      truncateReplyPreview message = message) /\
    ((maxReplyPreviewUTF16 < length (utf16_Encode (runes message)))%nat ->
      (maxReplyPreviewUTF16 - 1 <= length (utf16_Encode (runes (truncateReplyPreview message))))%nat).
Proof.
  unfold truncateReplyPreview. pose proof (runes_scalar message) as Hs.
  destruct (Nat.leb_spec (length (utf16_Encode (runes message))) maxReplyPreviewUTF16) as [Hle|Hgt].
  { exists (length (runes message)). rewrite take_ge by done. split_and!; try done. lia. }
  destruct (dropHalf_take (runes message) maxReplyPreviewUTF16 Hs) as (k & Ek & Hk). exists k.
  rewrite Ek, utf16_Decode_Encode, runes_runesString by (by apply Forall_scalar_take).
  split_and!; [done| |lia|lia].
  assert (length (dropHalf (take maxReplyPreviewUTF16 (utf16_Encode (runes message))))
          <= maxReplyPreviewUTF16)%nat as Hd; [|by rewrite Ek in Hd].
  unfold dropHalf. case_match; [case_match|]; rewrite ?length_take; lia.
Qed.

(** Truncating twice is truncating once: what is stored with a message is what
    a reply to it quotes. *)
Lemma truncateReplyPreview_idemp message :
  truncateReplyPreview (truncateReplyPreview message) = truncateReplyPreview message.
Proof.
  destruct (preview_is_beginning message) as (k & _ & Hle & _).
  destruct (preview_is_beginning (truncateReplyPreview message)) as (k' & _ & _ & Hsame & _).
  by apply Hsame.
Qed.
