(* ===== verification/ChatMeta.v ===== *)
(** * Chat metadata (src/internal/protocol/chatmeta)

    The requests CHATINFO, MEMBER, MEMLIST, GETMETAS, GETMOMETA, CHATONROOM and
    GETMCMETA, the decoders of their replies and of the room in a CREATE reply,
    and the display of a group.  The JSON inside some fields is the class
    [MetaJson].  [ChatMeta] ends with what the decoders promise of any reply. *)

From S2P Require Import Prelude Identifiers Bytes Text Bson.

#[local] Open Scope string_scope.
#[local] Open Scope list_scope.
#[local] Open Scope Z_scope.

(** ** encoding/json *)

Inductive JSONAny := JNull | JText (s : string) | JBool (b : bool) | JOther.

(** The fields of a notice. *)
Record notice := mkNotice {
  nt_Type : string;
  nt_Notice : bool;
  nt_Content : string;
  nt_JSONContent : string;
  nt_Subject : string;
  nt_PollCount : Z;
}.

(** [json_fields] is Unmarshal into a map of any, [strict_fields] strictjson's
    into a map of raw values under [displayJSON], [json_text] into a string,
    [json_notice] and [json_texts] into the structs of moim.go, [json_numbers]
    into a map of int64; [None] is an error. *)
Class MetaJson := {
  json_fields : string -> option (list (string * JSONAny));
  strict_fields : string -> option (list (string * string));
  json_text : string -> option string;
  json_notice : string -> option notice;
  json_texts : string -> option (list string);
  json_numbers : string -> option (list (string * Z));
}.

Inductive Error := ErrInvalidRequest | ErrInvalidResponse | ErrUnsupportedAnnouncement.

Definition MaxMemberBatch : Z := 500.
Definition MaxGetMetasBatch : Z := 50.
Definition SharedMetaKakaoGroup : Z := 2.
Definition SharedMetaTitle : Z := 3.
Definition SharedMetaProfile : Z := 4.
Definition MoimMetaNotice : Z := 1.

(** ** Data *)

Record RoomMeta := mkRoomMeta {
  rm_Name : string;
  rm_ImageURL : string;
  rm_FullImageURL : string;
  rm_Favorite : bool;
  rm_ChatHide : bool;
  rm_ChatCategory : string;
}.

Record ChatMeta := mkChatMeta {
  cm_Type : Z;
  cm_Revision : Z;
  cm_AuthorID : Z;
  cm_Content : string;
  cm_UpdatedAt : Z;
}.

Record Member := mkMember {
  mb_UserID : Z;
  mb_Nickname : string;
  mb_ProfileImageURL : string;
  mb_FullProfileImageURL : string;
  mb_OriginalProfileImageURL : string;
  mb_Type : Z;
  mb_UserType : Z;
  mb_AccountID : Z;
  mb_LinkedServices : string;
  mb_StatusMessage : string;
  mb_CountryISO : string;
  mb_Suspended : bool;
  mb_Memorial : bool;
  mb_AccessPermit : string;
  mb_Suspicion : string;
  mb_ProfileLinkID : Z;
  mb_OpenLinkMemberType : Z;
  mb_ChannelID : Z;
}.

Section Packets.
Context `{Bson} `{MetaJson}.

Record ChatData := mkChatData {
  cd_ChatID : Z;
  cd_Type : string;
  cd_ActiveMemberCount : Z;
  cd_NewMessageCount : Z;
  cd_LastSeenLogID : Z;
  cd_LastServerLogID : Z;
  cd_LastChatLog : option Raw;
  cd_DisplayUserIDs : list Z;
  cd_DisplayNicknames : list string;
  cd_DisplayImageURLs : list string;
  cd_Suspicions : list string;
  cd_PushAlert : option bool; (* [None]: not set *)
  cd_Meta : option RoomMeta;
  cd_ChatMetas : list ChatMeta;
  cd_MetaMaxRevision : Z;
  cd_JoinedAtForNewMem : Z;
  cd_InviterID : Z;
  cd_LinkID : Z;
  cd_LinkToken : Z;
  cd_BlindMemberIDs : list Z;
}.

(** ** Requests *)

Definition int64s (l : list Z) : Value Raw := VArray (MarshalArray (VInt64 <$> l)).

Definition ChatInfoRequest_MarshalBSON (chatID : Z) : res Error Raw :=
  if chatID <=? 0 then Err ErrInvalidRequest else Ok (Marshal [("chatId", VInt64 chatID)]).

Definition batchBad (ids : list Z) (limit : Z) : bool :=
  (Z.of_nat (length ids) =? 0) || (limit <? Z.of_nat (length ids)) || existsb (fun id => id <=? 0) ids.

Record MemberRequest := mkMemberRequest { mq_ChatID : Z; mq_MemberIDs : list Z }.

Definition MemberRequest_MarshalBSON (r : MemberRequest) : res Error Raw :=
  if (mq_ChatID r <=? 0) || batchBad (mq_MemberIDs r) MaxMemberBatch then Err ErrInvalidRequest
  else Ok (Marshal [("chatId", VInt64 (mq_ChatID r)); ("memberIds", int64s (mq_MemberIDs r))]).

Record MemberListRequest := mkMemberListRequest { ml_ChatID : Z; ml_Token : Z }.

Definition MemberListRequest_MarshalBSON (r : MemberListRequest) : res Error Raw :=
  if ml_ChatID r <=? 0 then Err ErrInvalidRequest
  else Ok (Marshal [("chatId", VInt64 (ml_ChatID r)); ("token", VInt64 (ml_Token r))]).

Definition GetMetasRequest_MarshalBSON (chatIDs : list Z) : res Error Raw :=
  if batchBad chatIDs MaxGetMetasBatch then Err ErrInvalidRequest else Ok (Marshal [("cs", int64s chatIDs)]).

Definition MoimRequest_MarshalBSON (chatID : Z) : res Error Raw :=
  if chatID <=? 0 then Err ErrInvalidRequest
  else Ok (Marshal [("c", VInt64 chatID); ("ts", VArray (MarshalArray [VInt32 MoimMetaNotice]))]).

Record ChatOnRoomRequest := mkChatOnRoomRequest { co_ChatID : Z; co_Token : Z }.

Definition ChatOnRoomRequest_MarshalBSON (r : ChatOnRoomRequest) : res Error Raw :=
  if (co_ChatID r <=? 0) || (co_Token r <? 0) then Err ErrInvalidRequest
  else Ok (Marshal [("chatId", VInt64 (co_ChatID r)); ("token", VInt64 (co_Token r)); ("opt", VInt32 0)]).

Definition PersonalMetaRequest_MarshalBSON : Raw := Marshal [].

(** ** Readers *)

Definition fields : Reader Error := mkReader ErrInvalidResponse true.

(** A field, or its zero value. *)
Definition int64Or0 (raw : Raw) (keys : list string) : res Error Z :=
  let! n := Int64 fields raw keys in Ok (default 0 n).
Definition int32Or0 (raw : Raw) (keys : list string) : res Error Z :=
  let! n := Int32 fields raw keys in Ok (default 0 n).
Definition textOr (raw : Raw) (keys : list string) : res Error string :=
  let! s := String fields raw keys in Ok (default "" s).
Definition boolOr (raw : Raw) (keys : list string) : res Error bool :=
  let! b := Bool fields raw keys in Ok (default false b).
Definition int64sOr (raw : Raw) (keys : list string) : res Error (list Z) :=
  let! l := Int64s fields raw keys in Ok (default [] l).
Definition textsOr (raw : Raw) (keys : list string) : res Error (list string) :=
  let! l := Strings fields raw keys in Ok (default [] l).

(** An ID that must be there and positive. *)
Definition positiveID (raw : Raw) (keys : list string) : res Error Z :=
  match Int64 fields raw keys with
  | Ok (Some n) => if n <=? 0 then Err ErrInvalidResponse else Ok n
  | _ => Err ErrInvalidResponse
  end.

Definition valuesOf (v : Value Raw) : res Error (list (Value Raw)) :=
  match v with
  | VArray a => match Values a with Some values => Ok values | None => Err ErrInvalidResponse end
  | _ => Err ErrInvalidResponse
  end.

(** The loop over an array of documents. *)
Fixpoint documents {A} (f : Raw -> res Error A) (values : list (Value Raw)) : res Error (list A) :=
  match values with
  | [] => Ok []
  | VDocument d :: values =>
      let! a := f d in
      let! l := documents f values in
      Ok (a :: l)
  | _ :: _ => Err ErrInvalidResponse
  end.

(** ** Members *)

Definition DecodeMember (raw : Raw) : res Error Member :=
  let! userID := positiveID raw ["userId"] in
  let! nickname := textOr raw ["nickName"] in
  let! profile := textOr raw ["pi"; "profileImageUrl"] in
  let! full := textOr raw ["fpi"; "fullProfileImageUrl"] in
  let! original := textOr raw ["opi"; "originalProfileImageUrl"] in
  let! services := textOr raw ["linkedServices"] in
  let! message := textOr raw ["statusMessage"] in
  let! country := textOr raw ["countryIso"] in
  let! permit := textOr raw ["accessPermit"] in
  let! suspicion := textOr raw ["suspicion"] in
  let! typ := int32Or0 raw ["type"] in
  let! userType := int32Or0 raw ["ut"; "userType"] in
  let! account := int32Or0 raw ["accountId"] in
  let! linkType := int32Or0 raw ["mt"; "openLinkUserMemberType"] in
  let! linkID := int64Or0 raw ["pli"; "profilelinkId"] in
  let! channel := int64Or0 raw ["pfId"; "channelId"] in
  let! suspended := boolOr raw ["suspended"] in
  let! memorial := boolOr raw ["memorial"] in
  Ok (mkMember userID nickname profile full original typ userType account services message country suspended
        memorial permit suspicion linkID linkType channel).

Definition decodeMembers (v : Value Raw) : res Error (list Member) :=
  let! values := valuesOf v in documents DecodeMember values.

Record MemberResponse := mkMemberResponse { mr_ChatID : Z; mr_Members : list Member }.

Definition DecodeMemberResponse (raw : Raw) : res Error MemberResponse :=
  if negb (Validate raw) then Err ErrInvalidResponse else
  let! chatID := positiveID raw ["chatId"] in
  match Lookup fields raw ["members"] with
  | None => Ok (mkMemberResponse chatID [])
  | Some v => let! members := decodeMembers v in Ok (mkMemberResponse chatID members)
  end.

Record MemberListResponse := mkMemberListResponse { mlr_Token : Z; mlr_Type : string; mlr_MemberIDs : list Z }.

Definition DecodeMemberListResponse (raw : Raw) : res Error MemberListResponse :=
  if negb (Validate raw) then Err ErrInvalidResponse else
  let! token := int64Or0 raw ["token"] in
  let! typ := textOr raw ["type"] in
  let! members := int64sOr raw ["memberIds"] in
  Ok (mkMemberListResponse token typ members).

(** ** Shared metadata *)

Definition decodeChatMeta (d : Raw) : res Error ChatMeta :=
  let! typ := int32Or0 d ["type"] in
  let! revision := int64Or0 d ["revision"] in
  let! author := int64Or0 d ["authorId"] in
  let! content := textOr d ["content"] in
  let! updated := int64Or0 d ["updatedAt"] in
  Ok (mkChatMeta typ revision author content updated).

Definition decodeChatMetas (raw : Raw) (keys : list string) : res Error (list ChatMeta) :=
  match Lookup fields raw keys with
  | None => Ok []
  | Some v => let! values := valuesOf v in documents decodeChatMeta values
  end.

Record ChatMetaSet := mkChatMetaSet { ms_ChatID : Z; ms_Metas : list ChatMeta }.

Definition decodeMetaSet (d : Raw) : res Error ChatMetaSet :=
  let! chatID := positiveID d ["c"; "chatId"] in
  let! metas := decodeChatMetas d ["ms"; "chatMetas"] in
  Ok (mkChatMetaSet chatID metas).

Definition DecodeGetMetasResponse (raw : Raw) : res Error (list ChatMetaSet) :=
  if negb (Validate raw) then Err ErrInvalidResponse else
  match Lookup fields raw ["mss"; "chatMetaSets"] with
  | None => Ok []
  | Some v =>
      let! values := valuesOf v in
      if MaxGetMetasBatch <? Z.of_nat (length values) then Err ErrInvalidResponse
      else documents decodeMetaSet values
  end.

(** ** The room's own metadata *)

(** [metaBool] *)
Definition metaBool (raw : Raw) (key : string) : res Error bool :=
  match Lookup fields raw [key] with
  | None => Ok false
  | Some (VBoolean b) => Ok b
  | Some (VString s) => Ok (s =? "true")%string
  | Some _ => Err ErrInvalidResponse
  end.

Definition jsonField (l : list (string * JSONAny)) (key : string) : JSONAny := default JNull (assoc key l).

Definition jsonText (l : list (string * JSONAny)) (key : string) : res Error string :=
  match jsonField l key with
  | JNull => Ok ""
  | JText s => Ok s
  | _ => Err ErrInvalidResponse
  end.

Definition jsonBool (l : list (string * JSONAny)) (key : string) : res Error bool :=
  match jsonField l key with
  | JNull => Ok false
  | JBool b => Ok b
  | JText s => Ok (s =? "true")%string
  | JOther => Err ErrInvalidResponse
  end.

Definition decodeRoomMeta (raw : Raw) : res Error (option RoomMeta) :=
  match Lookup fields raw ["m"; "meta"] with
  | None => Ok None
  | Some (VDocument d) =>
      let! name := textOr d ["name"] in
      let! image := textOr d ["imageUrl"] in
      let! full := textOr d ["fullImageUrl"] in
      let! category := textOr d ["chat_category"] in
      let! favorite := metaBool d "favorite" in
      let! hide := metaBool d "chat_hide" in
      Ok (Some (mkRoomMeta name image full favorite hide category))
  | Some (VString s) =>
      match json_fields s with
      | None => Err ErrInvalidResponse
      | Some l =>
          let! name := jsonText l "name" in
          let! image := jsonText l "imageUrl" in
          let! full := jsonText l "fullImageUrl" in
          let! category := jsonText l "chat_category" in
          let! favorite := jsonBool l "favorite" in
          let! hide := jsonBool l "chat_hide" in
          Ok (Some (mkRoomMeta name image full favorite hide category))
      end
  | Some _ => Err ErrInvalidResponse
  end.

(** ** The members shown for a room (decodeDisplay) *)

Record display := mkDisplay {
  ds_IDs : list Z;
  ds_Nicknames : list string;
  ds_ImageURLs : list string;
  ds_Suspicions : list string;
}.

(** One of the display members; the image is read only of a single one. *)
Definition displayMember (imageKey : string) (single : bool) (d : Raw) : res Error (Z * string * string * string) :=
  match Int64 fields d ["userId"] with
  | Ok (Some id) =>
      let! nickname := textOr d ["nickName"] in
      let! suspicion := textOr d ["suspicion"] in
      let! image := if single then textOr d [imageKey] else Ok "" in
      Ok (id, nickname, suspicion, image)
  | _ => Err ErrInvalidResponse
  end.

Definition ofMembers (members : list (Z * string * string * string)) (images : list string) : display :=
  mkDisplay ((fun m => m.1.1.1) <$> members) ((fun m => m.1.1.2) <$> members)
    (match members with [m] => [m.2] | _ => images end) ((fun m => m.1.2) <$> members).

Definition decodeDisplay (raw : Raw) : res Error display :=
  let! ids := int64sOr raw ["displayUserIds"] in
  let! nicknames := textsOr raw ["displayNicknames"] in
  let! images := textsOr raw ["displayImageUrls"] in
  let! suspicions := textsOr raw ["suspicions"] in
  let! d :=
    match Lookup fields raw ["displayMembers"] with
    | None => Ok (mkDisplay ids nicknames images suspicions)
    | Some v =>
        let! values := valuesOf v in
        let! rawType := textOr raw ["type"] in
        let imageKey := if (rawType =? "OD")%string || (rawType =? "OM")%string then "pi" else "profileImageUrl" in
        let! members := documents (displayMember imageKey (Z.of_nat (length values) =? 1)) values in
        Ok (ofMembers members images)
    end in
  let! short := Int64s fields raw ["i"] in
  let! shortNames := Strings fields raw ["k"] in
  Ok (mkDisplay (default (ds_IDs d) short) (default (ds_Nicknames d) shortNames) (ds_ImageURLs d) (ds_Suspicions d)).

(** ** Chat data *)

Definition DecodeChatData (raw : Raw) : res Error ChatData :=
  if negb (Validate raw) then Err ErrInvalidResponse else
  let! chatID := positiveID raw ["c"; "chatId"] in
  let! typ := textOr raw ["t"; "type"] in
  let! active := int32Or0 raw ["a"; "activeMembersCount"; "activeMemberCount"] in
  let! new := int32Or0 raw ["n"; "newMessageCount"] in
  let! seen := int64Or0 raw ["s"; "lastSeenLogId"] in
  let! server := int64Or0 raw ["ll"; "lastServerLogId"] in
  let! lastLog := match Lookup fields raw ["l"; "lastChatLog"] with
                  | None => Ok None
                  | Some (VDocument d) => Ok (Some d)
                  | Some _ => Err ErrInvalidResponse
                  end in
  let! d := decodeDisplay raw in
  let! push := Bool fields raw ["p"; "pushAlert"] in
  let! meta := decodeRoomMeta raw in
  let! metas := decodeChatMetas raw ["chatMetas"] in
  let! maxRevision := int64Or0 raw ["mmr"; "metaMaxRevision"] in
  let! joined := int32Or0 raw ["jn"; "joinedAtForNewMem"] in
  let! inviter := int64Or0 raw ["ii"; "inviterId"] in
  let! linkID := int64Or0 raw ["li"; "linkId"] in
  let! linkToken := int32Or0 raw ["otk"; "linkToken"] in
  let! blind := int64sOr raw ["bmids"; "blindMemberIds"] in
  Ok (mkChatData chatID typ active new seen server lastLog (ds_IDs d) (ds_Nicknames d) (ds_ImageURLs d)
        (ds_Suspicions d) push meta metas maxRevision joined inviter linkID linkToken blind).

(** [BlindMemberIDs] is [None] when absent. *)
Record ChatInfoResponse := mkChatInfoResponse { ci_ChatData : ChatData; ci_BlindMemberIDs : option (list Z) }.

Definition DecodeChatInfoResponse (raw : Raw) : res Error ChatInfoResponse :=
  if negb (Validate raw) then Err ErrInvalidResponse else
  match Lookup fields raw ["chatInfo"] with
  | Some (VDocument d) =>
      let! data := DecodeChatData d in
      let! blind := Int64s fields raw ["bmids"] in
      Ok (mkChatInfoResponse data blind)
  | _ => Err ErrInvalidResponse
  end.

(** ** The room of a CREATE reply (chatroom.go) *)

Record ChatRoom := mkChatRoom {
  cr_ChatID : Z;
  cr_Type : string;
  cr_ActiveMemberIDs : list Z;
  cr_Members : list Member;
  cr_Metas : list ChatMeta;
}.

(** The loop over the active members. *)
Fixpoint distinctPositive (seen : gset Z) (ids : list Z) : bool :=
  match ids with
  | [] => true
  | id :: ids =>
      if (id <=? 0) || bool_decide (id ∈ seen) then false else distinctPositive ({[id]} ∪ seen) ids
  end.

Definition DecodeChatRoom (raw : Raw) : res Error ChatRoom :=
  if negb (Validate raw) then Err ErrInvalidResponse else
  let! chatID := positiveID raw ["c"; "chatId"] in
  let! typ := textOr raw ["t"; "type"] in
  let! active := int64sOr raw ["a"; "activeMemberIds"] in
  if negb (distinctPositive ∅ active) then Err ErrInvalidResponse else
  let! members := match Lookup fields raw ["m"; "members"] with
                  | Some v => decodeMembers v
                  | None => Ok []
                  end in
  let! metas := decodeChatMetas raw ["metas"] in
  Ok (mkChatRoom chatID typ active members metas).

(** ** Boards (moim.go) *)

Record MoimMeta := mkMoimMeta {
  mo_Type : Z;
  mo_UpdateRevision : Z;
  mo_BadgeRevision : Z;
  mo_Content : string;
}.

Record MoimResponse := mkMoimResponse { mo_ChatID : Z; mo_Metas : list MoimMeta }.

Definition decodeMoimMeta (d : Raw) : res Error MoimMeta :=
  match Int32 fields d ["t"; "type"], Int64 fields d ["ur"; "updateRevision"],
        int64Or0 d ["br"; "badgeRevision"], textOr d ["ct"; "content"] with
  | Ok (Some typ), Ok (Some update), Ok badge, Ok content =>
      if (update <? 0) || (badge <? 0) || (2 ^ 20 <? len content) then Err ErrInvalidResponse
      else Ok (mkMoimMeta typ update badge content)
  | _, _, _, _ => Err ErrInvalidResponse
  end.

Definition DecodeMoimResponse (raw : Raw) : res Error MoimResponse :=
  if negb (Validate raw) then Err ErrInvalidResponse else
  let! chatID := positiveID raw ["c"; "chatId"] in
  match Lookup fields raw ["ms"; "metas"] with
  | None => Err ErrInvalidResponse
  | Some v =>
      let! values := valuesOf v in
      if 128 <? Z.of_nat (length values) then Err ErrInvalidResponse else
      let! metas := documents decodeMoimMeta values in
      Ok (mkMoimResponse chatID metas)
  end.

Record Announcement := mkAnnouncement { an_Active : bool; an_Text : string }.

Definition structuredAnnouncementText (structured : string) : string :=
  if len structured <=? 2 then ""
  else match json_texts structured with
       | None => ""
       | Some texts => String.concat "" texts
       end.

Definition announcementSummary (postType structured content subject : string) (pollCount : Z) : string :=
  let text := structuredAnnouncementText structured in
  if negb (text =? "")%string then text
  else if negb (content =? "")%string then content
  else if negb (subject =? "")%string then
    if (postType =? "POLL")%string && (2 <=? pollCount)
    then subject +:+ " and " +:+ FormatInt (pollCount - 1) +:+ " more"
    else subject
  else if (postType =? "IMAGE")%string then "The photo has been posted as an announcement."
  else if (postType =? "VIDEO")%string then "The video has been posted as an announcement."
  else if (postType =? "FILE")%string then "The file has been posted as an announcement."
  else "".

Definition MoimMeta_Announcement (m : MoimMeta) : res Error Announcement :=
  if negb (mo_Type m =? MoimMetaNotice) then Err ErrInvalidResponse
  else if (mo_Content m =? "")%string then Ok (mkAnnouncement false "")
  else match json_notice (mo_Content m) with
       | None => Err ErrInvalidResponse
       | Some p =>
           if negb (nt_Notice p) then Ok (mkAnnouncement false "")
           else
             let text := announcementSummary (nt_Type p) (nt_JSONContent p) (nt_Content p) (nt_Subject p)
                           (nt_PollCount p) in
             if (text =? "")%string then Err ErrUnsupportedAnnouncement else Ok (mkAnnouncement true text)
       end.

(** ** Opening a chat (onroom.go) *)

Record ChatOnRoomResponse := mkChatOnRoomResponse {
  or_ChatID : Z;
  or_Full : bool;
  or_Token : Z;
  or_LastLogID : Z;
  or_Watermarks : gmap Z Z;
  or_StopSyncLogMeta : bool;
  or_MoimRevisions : gmap Z Z;
}.

(** [strconv.ParseInt] with 32 bits *)
Definition parseInt32 (s : string) : option Z :=
  match ParseInt s with
  | Some n => if (n <? MinInt32) || (MaxInt32 <? n) then None else Some n
  | None => None
  end.

Fixpoint moimRevisions (decoded : list (string * Z)) (out : gmap Z Z) : res Error (gmap Z Z) :=
  match decoded with
  | [] => Ok out
  | (key, revision) :: decoded =>
      match parseInt32 key with
      | None => Err ErrInvalidResponse
      | Some kind => moimRevisions decoded (<[kind := revision]> out)
      end
  end.

Definition decodeMoimRevisions (raw : Raw) : res Error (gmap Z Z) :=
  match LookupErr raw "mr" with
  | None => Ok ∅
  | Some (VString text) =>
      if 2 ^ 16 <? len text then Err ErrInvalidResponse
      else match json_numbers text with
           | None => Err ErrInvalidResponse
           | Some decoded => moimRevisions decoded ∅
           end
  | Some _ => Err ErrInvalidResponse
  end.

(** The loop that pairs members with their watermarks. *)
Fixpoint watermarks (members marks : list Z) (out : gmap Z Z) : res Error (gmap Z Z) :=
  match members, marks with
  | member :: members, mark :: marks =>
      if (member <=? 0) || (mark <? 0) then Err ErrInvalidResponse
      else match out !! member with
           | Some _ => Err ErrInvalidResponse
           | None => watermarks members marks (<[member := mark]> out)
           end
  | _, _ => Ok out
  end.

Definition nonNegative (r : res Error Z) : res Error Z :=
  let! n := r in if n <? 0 then Err ErrInvalidResponse else Ok n.

Definition DecodeChatOnRoomResponse (raw : Raw) : res Error ChatOnRoomResponse :=
  if negb (Validate raw) then Err ErrInvalidResponse else
  let! chatID := positiveID raw ["c"; "chatId"] in
  let! full := boolOr raw ["f"] in
  let! stop := match LookupErr raw "dlm" with
               | None => Ok false
               | Some (VBoolean b) => Ok b
               | Some _ => Err ErrInvalidResponse
               end in
  let! revisions := decodeMoimRevisions raw in
  let! token := nonNegative (int64Or0 raw ["o"]) in
  let! last := nonNegative (int64Or0 raw ["l"]) in
  let! members := int64sOr raw ["a"] in
  let! marks := int64sOr raw ["w"] in
  let n := Z.of_nat (length members) in
  if negb (Z.of_nat (length marks) =? n) || (10000 <? n) then Err ErrInvalidResponse else
  let! marks := watermarks members marks ∅ in
  Ok (mkChatOnRoomResponse chatID full token last marks stop revisions).

(** ** Personal settings (personal.go) *)

(** The loop that pairs chats with their settings. *)
Fixpoint personalRooms (ids : list Z) (values : list (Value Raw)) (out : gmap Z RoomMeta)
  : res Error (gmap Z RoomMeta) :=
  match ids, values with
  | chatID :: ids, value :: values =>
      if chatID <=? 0 then Err ErrInvalidResponse else
      match out !! chatID, value with
      | None, (VDocument _ | VString _) =>
          match decodeRoomMeta (Marshal [("m", value)]) with
          | Ok (Some meta) => personalRooms ids values (<[chatID := meta]> out)
          | _ => Err ErrInvalidResponse
          end
      | _, _ => Err ErrInvalidResponse
      end
  | _, _ => Ok out
  end.

(** [size] is the length of the reply. *)
Definition DecodePersonalMetaResponse (raw : Raw) (size : Z) : res Error (gmap Z RoomMeta) :=
  if (4 * 2 ^ 20 <? size) || negb (Validate raw) then Err ErrInvalidResponse else
  match Int64s fields raw ["chatIds"], Lookup fields raw ["metas"] with
  | Ok (Some ids), Some v =>
      if 10000 <? Z.of_nat (length ids) then Err ErrInvalidResponse else
      let! values := valuesOf v in
      if negb (Z.of_nat (length values) =? Z.of_nat (length ids)) then Err ErrInvalidResponse
      else personalRooms ids values ∅
  | _, _ => Err ErrInvalidResponse
  end.

(** ** How a group is shown (display.go) *)

Record GroupDisplay := mkGroupDisplay {
  gd_Name : string;
  gd_ImageURL : string;
  gd_FullImageURL : string;
  gd_AvatarKnown : bool;
}.

Definition displayType (t : Z) : bool :=
  (t =? SharedMetaKakaoGroup) || (t =? SharedMetaTitle) || (t =? SharedMetaProfile).

(** The loop that selects the newest of each type. *)
Fixpoint selectMetas (metas : list ChatMeta) (selected : gmap Z ChatMeta) : res Error (gmap Z ChatMeta) :=
  match metas with
  | [] => Ok selected
  | meta :: metas =>
      if negb (displayType (cm_Type meta)) then selectMetas metas selected else
      match selected !! cm_Type meta with
      | Some prev =>
          if cm_Revision meta <? cm_Revision prev then selectMetas metas selected
          else if (cm_Revision meta =? cm_Revision prev) && negb (cm_Content meta =? cm_Content prev)%string
          then Err ErrInvalidResponse
          else selectMetas metas (<[cm_Type meta := meta]> selected)
      | None => selectMetas metas (<[cm_Type meta := meta]> selected)
      end
  end.

(** The loop over the keys of [displayContent]. *)
Fixpoint contentKeys (l : list (string * string)) (keys : list string) : res Error (gmap string string) :=
  match keys with
  | [] => Ok ∅
  | key :: keys =>
      match assoc key l with
      | None => contentKeys l keys
      | Some raw =>
          match json_text raw with
          | None => Err ErrInvalidResponse
          | Some value => let! out := contentKeys l keys in Ok (<[key := value]> out)
          end
      end
  end.

Definition displayContent (content : string) (keys : list string) : res Error (gmap string string) :=
  if (content =? "")%string then Ok ∅
  else match strict_fields content with
       | None => Err ErrInvalidResponse
       | Some l => contentKeys l keys
       end.

Definition at_ (m : gmap string string) (key : string) : string := default "" (m !! key).

(** Is the group's legacy value newer than the one of its own type? *)
Definition legacyWins (legacy other : option ChatMeta) : bool :=
  match legacy, other with
  | Some l, Some o => cm_Revision o <? cm_Revision l
  | Some _, None => true
  | None, _ => false
  end.

Definition orPersonal (personal shared : string) : string := if (personal =? "")%string then shared else personal.

(** What follows the selection. *)
Definition showMetas (selected : gmap Z ChatMeta) (meta : option RoomMeta) : res Error GroupDisplay :=
  let legacy := selected !! SharedMetaKakaoGroup in
  let title := selected !! SharedMetaTitle in
  let profile := selected !! SharedMetaProfile in
  let! fields := match legacy with
                 | Some l => displayContent (cm_Content l)
                               ["group_name"; "group_profile_thumbnail_url"; "group_profile_url"]
                 | None => Ok ∅
                 end in
  let name := if legacyWins legacy title then at_ fields "group_name"
              else match title with Some t => cm_Content t | None => "" end in
  let! avatar :=
    if legacyWins legacy profile
    then Ok (Some (at_ fields "group_profile_thumbnail_url", at_ fields "group_profile_url"))
    else match profile with
         | Some p =>
             let! urls := displayContent (cm_Content p) ["imageUrl"; "fullImageUrl"] in
             Ok (Some (at_ urls "imageUrl", at_ urls "fullImageUrl"))
         | None => Ok None
         end in
  let image := match avatar with Some (i, _) => i | None => "" end in
  let full := match avatar with Some (_, f) => f | None => "" end in
  let known := match avatar with Some _ => true | None => false end in
  Ok (match meta with
      | Some m => mkGroupDisplay (orPersonal (rm_Name m) name) (orPersonal (rm_ImageURL m) image)
                    (orPersonal (rm_FullImageURL m) full) true
      | None => mkGroupDisplay name image full known
      end).

Definition ProjectGroupDisplay (data : ChatData) : res Error GroupDisplay :=
  let! selected := selectMetas (cd_ChatMetas data) ∅ in showMetas selected (cd_Meta data).
End Packets.

(** ** What the decoders promise *)

Section Promises.
Context `{Bson} `{MetaJson}.

(** What is stored in BSON is of the width of its type, in every document and
    array on the way down. *)
Inductive stored : Raw -> Prop :=
| stored_intro raw :
    (forall k v, LookupErr raw k = Some v -> storedValue v) ->
    (forall values v, Values raw = Some values -> v ∈ values -> storedValue v) -> stored raw
with storedValue : Value Raw -> Prop :=
| stored_int32 n : int32 n -> storedValue (VInt32 n)
| stored_int64 n : int64 n -> storedValue (VInt64 n)
| stored_document d : stored d -> storedValue (VDocument d)
| stored_array d : stored d -> storedValue (VArray d)
| stored_other v : match v with VInt32 _ | VInt64 _ | VDocument _ | VArray _ => False | _ => True end -> storedValue v.

(** Values as they are typed in the code, and IDs that the code relies on. *)
Definition memberTyped (m : Member) : Prop :=
  0 < mb_UserID m /\ int64 (mb_UserID m) /\ int32 (mb_Type m) /\ int32 (mb_UserType m) /\ int32 (mb_AccountID m) /\
  int64 (mb_ProfileLinkID m) /\ int32 (mb_OpenLinkMemberType m) /\ int64 (mb_ChannelID m).

Definition metaTyped (m : ChatMeta) : Prop :=
  int32 (cm_Type m) /\ int64 (cm_Revision m) /\ int64 (cm_AuthorID m) /\ int64 (cm_UpdatedAt m).

Definition chatTyped (d : ChatData) : Prop :=
  0 < cd_ChatID d /\ int64 (cd_ChatID d) /\ int32 (cd_ActiveMemberCount d) /\ int32 (cd_NewMessageCount d) /\
  int64 (cd_LastSeenLogID d) /\ int64 (cd_LastServerLogID d) /\ Forall int64 (cd_DisplayUserIDs d) /\
  Forall metaTyped (cd_ChatMetas d) /\ int64 (cd_MetaMaxRevision d) /\ int32 (cd_JoinedAtForNewMem d) /\
  int64 (cd_InviterID d) /\ int64 (cd_LinkID d) /\ int32 (cd_LinkToken d) /\ Forall int64 (cd_BlindMemberIDs d).

Definition roomTyped (r : ChatRoom) : Prop :=
  0 < cr_ChatID r /\ int64 (cr_ChatID r) /\ NoDup (cr_ActiveMemberIDs r) /\
  Forall (fun id => 0 < id /\ int64 id) (cr_ActiveMemberIDs r) /\
  Forall memberTyped (cr_Members r) /\ Forall metaTyped (cr_Metas r).

Definition openedTyped (r : ChatOnRoomResponse) : Prop :=
  0 < or_ChatID r /\ int64 (or_ChatID r) /\ 0 <= or_Token r /\ int64 (or_Token r) /\
  0 <= or_LastLogID r /\ int64 (or_LastLogID r) /\
  (forall member mark, or_Watermarks r !! member = Some mark -> 0 < member /\ int64 member /\ 0 <= mark /\ int64 mark) /\
  (forall kind revision, or_MoimRevisions r !! kind = Some revision -> int32 kind /\ int64 revision).

Definition boardTyped (m : MoimMeta) : Prop :=
  int32 (mo_Type m) /\ 0 <= mo_UpdateRevision m /\ int64 (mo_UpdateRevision m) /\
  0 <= mo_BadgeRevision m /\ int64 (mo_BadgeRevision m) /\ len (mo_Content m) <= 2 ^ 20.

(** *** Readers of stored documents *)

Lemma int64_0 : int64 0.
Proof. by unfold_ints. Qed.

Lemma Lookup_stored raw keys v : stored raw -> Lookup fields raw keys = Some v -> storedValue v.
Proof.
  intros [raw' Hl _]. induction keys as [|k keys IH]; simpl; [done|].
  destruct (LookupErr raw' k) as [u|] eqn:E; [|done]. destruct (isNullish u); [done|]. intros [= <-]. eauto.
Qed.

Lemma Int64Value_stored v n : storedValue v -> Int64Value v = Some n -> int64 n.
Proof.
  intros [m Hm|m Hm|d Hd|d Hd|u Hu]; simpl; try done; [| |by destruct u]; intros [= <-]; [|done].
  unfold int32, int64, MinInt32, MaxInt32, MinInt64, MaxInt64 in *. lia.
Qed.

Lemma Int64_ok raw keys n : stored raw -> Int64 fields raw keys = Ok (Some n) -> int64 n.
Proof.
  unfold Int64. intros Hr E. destruct (Lookup fields raw keys) as [v|] eqn:El; [|done].
  destruct (Int64Value v) eqn:Ev; simplify_eq. eauto using Int64Value_stored, Lookup_stored.
Qed.

Lemma int64Or0_ok raw keys n : stored raw -> int64Or0 raw keys = Ok n -> int64 n.
Proof.
  unfold int64Or0. intros Hr E. destruct (Int64 fields raw keys) as [[m|]|] eqn:Em; simplify_eq/=; [|apply int64_0].
  eauto using Int64_ok.
Qed.

Lemma positiveID_ok raw keys n : stored raw -> positiveID raw keys = Ok n -> 0 < n /\ int64 n.
Proof.
  unfold positiveID. intros Hr E. destruct (Int64 fields raw keys) as [[m|]|] eqn:Em; try done.
  destruct (m <=? 0) eqn:El; simplify_eq. bool_prop. eauto using Int64_ok.
Qed.

Lemma collect_stored values l :
  Forall storedValue values -> collect Int64Value ErrInvalidResponse values = Ok l -> Forall int64 l.
Proof.
  intros Hv. revert l. induction Hv as [|v values Hv _ IH]; intros l E; simpl in E; [by simplify_eq|].
  destruct (Int64Value v) eqn:En; [|done]. destruct (collect _ _ _); simplify_eq. constructor; eauto using Int64Value_stored.
Qed.

Lemma Values_stored a values : stored a -> Values a = Some values -> Forall storedValue values.
Proof. intros [raw _ Hv] E. apply Forall_forall. eauto. Qed.

Lemma array_stored v : storedValue v -> forall a, v = VArray a -> stored a.
Proof. intros [| | | |u Hu] a E; simplify_eq; [done|by destruct Hu]. Qed.

Lemma document_stored v : storedValue v -> forall d, v = VDocument d -> stored d.
Proof. intros [| | | |u Hu] a E; simplify_eq; [done|by destruct Hu]. Qed.

Lemma Int64s_ok raw keys l : stored raw -> Int64s fields raw keys = Ok (Some l) -> Forall int64 l.
Proof.
  unfold Int64s, array. intros Hr E. destruct (Lookup fields raw keys) as [v|] eqn:El; [|done].
  apply Lookup_stored in El; [|done]. destruct v; try done. destruct (Values r) eqn:Ev; [|done].
  destruct (collect _ _ _) eqn:Ec; simplify_eq. eauto using collect_stored, Values_stored, array_stored.
Qed.

Lemma int64sOr_ok raw keys l : stored raw -> int64sOr raw keys = Ok l -> Forall int64 l.
Proof.
  unfold int64sOr. intros Hr E. destruct (Int64s fields raw keys) as [[m|]|] eqn:Em; simplify_eq/=; [|done].
  eauto using Int64s_ok.
Qed.

Lemma valuesOf_stored v values : storedValue v -> valuesOf v = Ok values -> Forall storedValue values.
Proof.
  intros Hv E. destruct v; simpl in E; try done. destruct (Values r) eqn:Er; simplify_eq.
  eauto using Values_stored, array_stored.
Qed.

Lemma Int32_ok raw keys n : Int32 fields raw keys = Ok (Some n) -> int32 n.
Proof. unfold Int32. intros E. go_cases E. bool_prop. unfold int32. lia. Qed.

Lemma int32Or0_ok raw keys n : int32Or0 raw keys = Ok n -> int32 n.
Proof.
  unfold int32Or0. intros E. destruct (Int32 fields raw keys) as [[m|]|] eqn:E'; simplify_eq/=.
  - by apply Int32_ok in E'.
  - by unfold_ints.
Qed.

Lemma nonNegative_ok r n : nonNegative r = Ok n -> 0 <= n /\ r = Ok n.
Proof. unfold nonNegative. intros E. destruct r; [|done]. destruct (a <? 0) eqn:El; simplify_eq. by bool_prop. Qed.

Lemma parseInt32_ok s n : parseInt32 s = Some n -> int32 n.
Proof. unfold parseInt32. intros E. go_cases E. bool_prop. unfold int32. lia. Qed.

Lemma documents_Forall {A} (f : Raw -> res Error A) (P : A -> Prop) values l :
  Forall storedValue values -> (forall d a, stored d -> f d = Ok a -> P a) -> documents f values = Ok l -> Forall P l.
Proof.
  intros Hv Hf. revert l. induction Hv as [|v values Hv _ IH]; intros l E; simpl in E; [by simplify_eq|].
  destruct v; try done. destruct (f r) eqn:Ef; [|done]. destruct (documents f values); simplify_eq.
  constructor; eauto using document_stored.
Qed.

(** *** The decoders *)

Lemma decodeMember_typed raw m : stored raw -> DecodeMember raw = Ok m -> memberTyped m.
Proof.
  unfold DecodeMember. intros Hr E. destruct (positiveID raw ["userId"]) eqn:Eu; [|done].
  apply positiveID_ok in Eu as [Hp Hu]; [|done]. go_cases E. unfold memberTyped. simpl.
  split_and!; eauto using int32Or0_ok, int64Or0_ok.
Qed.

Lemma decodeMembers_typed v l : storedValue v -> decodeMembers v = Ok l -> Forall memberTyped l.
Proof.
  unfold decodeMembers. intros Hv E. destruct (valuesOf v) eqn:Ev; [|done].
  eauto using documents_Forall, decodeMember_typed, valuesOf_stored.
Qed.

Lemma decodeChatMetas_typed raw keys l : stored raw -> decodeChatMetas raw keys = Ok l -> Forall metaTyped l.
Proof.
  unfold decodeChatMetas. intros Hr E. destruct (Lookup fields raw keys) as [v|] eqn:El; [|by simplify_eq].
  apply Lookup_stored in El; [|done]. destruct (valuesOf v) eqn:Ev; [|done].
  eapply documents_Forall; [by eapply valuesOf_stored| |done]. intros d m Hd Em. unfold decodeChatMeta in Em. go_cases Em.
  unfold metaTyped. simpl. split_and!; eauto using int32Or0_ok, int64Or0_ok.
Qed.

Lemma distinctPositive_ok seen ids :
  distinctPositive seen ids = true -> NoDup ids /\ Forall (fun id => 0 < id) ids /\ forall id, id ∈ ids -> id ∉ seen.
Proof.
  revert seen. induction ids as [|id ids IH]; intros seen E; simpl in E.
  { split_and!; [constructor|done|]. by intros id Hin%elem_of_nil. }
  destruct (_ || _) eqn:Eb; [done|]. bool_prop. apply bool_decide_eq_false in H2.
  destruct (IH _ E) as (Hn & Hp & Hs). split_and!.
  - constructor; [|done]. intros Hin. apply Hs in Hin. set_solver.
  - by constructor.
  - intros id' [->|Hin]%elem_of_cons; [done|]. apply Hs in Hin. set_solver.
Qed.

Lemma watermarks_ok (P : Z -> Prop) members marks out r :
  watermarks members marks out = Ok r -> Forall P members -> Forall P marks ->
  (forall member mark, out !! member = Some mark -> 0 < member /\ P member /\ 0 <= mark /\ P mark) ->
  forall member mark, r !! member = Some mark -> 0 < member /\ P member /\ 0 <= mark /\ P mark.
Proof.
  revert marks out. induction members as [|m members IH]; intros marks out E Hm Hk Ho; [by destruct marks; simplify_eq/=|].
  destruct marks as [|k marks]; simpl in E; [by simplify_eq|]. apply Forall_cons in Hm as [? Hm], Hk as [? Hk].
  destruct ((m <=? 0) || (k <? 0)) eqn:Eb; [done|]. destruct (out !! m) eqn:Em; [done|]. bool_prop.
  apply (IH _ _ E); try done. intros member mark [[-> ->]|[_ Hin]]%lookup_insert_Some; eauto.
Qed.

Lemma moimRevisions_ok decoded out r :
  moimRevisions decoded out = Ok r -> Forall (fun kv => int64 kv.2) decoded ->
  (forall kind revision, out !! kind = Some revision -> int32 kind /\ int64 revision) ->
  forall kind revision, r !! kind = Some revision -> int32 kind /\ int64 revision.
Proof.
  revert out. induction decoded as [|[key n] decoded IH]; intros out E Hd Ho; simpl in E; [by simplify_eq|].
  apply Forall_cons in Hd as [? Hd]. destruct (parseInt32 key) eqn:Ep; [|done]. apply (IH _ E); [done|].
  intros kind revision [[-> ->]|[_ Hk]]%lookup_insert_Some; eauto using parseInt32_ok.
Qed.

Lemma documents_length {A} (f : Raw -> res Error A) values l : documents f values = Ok l -> length l = length values.
Proof.
  revert l. induction values as [|v values IH]; intros l E; simpl in E; [by simplify_eq|].
  go_cases E. f_equal. eauto.
Qed.

Lemma displayMember_ok imageKey single d m : stored d -> displayMember imageKey single d = Ok m -> int64 m.1.1.1.
Proof.
  unfold displayMember. intros Hd E. destruct (Int64 fields d ["userId"]) as [[id|]|] eqn:Ei; try done.
  go_cases E; simpl; eauto using Int64_ok.
Qed.

Lemma display_ids raw d : stored raw -> decodeDisplay raw = Ok d -> Forall int64 (ds_IDs d).
Proof.
  unfold decodeDisplay. intros Hr E. destruct (int64sOr raw ["displayUserIds"]) as [ids|] eqn:Ei; [|done].
  destruct (textsOr raw ["displayNicknames"]), (textsOr raw ["displayImageUrls"]), (textsOr raw ["suspicions"]); try done.
  match type of E with match ?x with Ok _ => _ | Err _ => _ end = _ => destruct x as [e|] eqn:Ee; [|done] end.
  assert (He : Forall int64 (ds_IDs e)).
  { destruct (Lookup fields raw ["displayMembers"]) as [v|] eqn:El; [|simplify_eq/=; eauto using int64sOr_ok].
    destruct (valuesOf v) as [values|] eqn:Ev; [|done]. destruct (textOr raw ["type"]); [|done]. cbv zeta in Ee.
    destruct (documents _ values) as [members|] eqn:Em; [|done]. injection Ee as <-. simpl. apply Forall_fmap.
    refine (documents_Forall _ (fun m => int64 m.1.1.1) _ _ _ _ Em); [eauto using valuesOf_stored, Lookup_stored|].
    intros m member Hm Ha. by eapply displayMember_ok. }
  destruct (Int64s fields raw ["i"]) as [[short|]|] eqn:Es; [| |done]; destruct (Strings _ _ _); try done; injection E as <-; simpl;
    eauto using Int64s_ok.
Qed.

Lemma chat_typed raw d : stored raw -> DecodeChatData raw = Ok d -> chatTyped d.
Proof.
  unfold DecodeChatData. intros Hr E. destruct (negb _); [done|].
  destruct (positiveID raw ["c"; "chatId"]) eqn:Ec; [|done]. apply positiveID_ok in Ec as [Hp Hc]; [|done].
  repeat match type of E with
  | match ?x with Ok _ => _ | Err _ => _ end = Ok _ => destruct x eqn:?; [|discriminate E]
  end.
  injection E as <-. unfold chatTyped. simpl.
  split_and!; eauto using int32Or0_ok, int64Or0_ok, int64sOr_ok, decodeChatMetas_typed, display_ids.
Qed.

Lemma room_typed raw r : stored raw -> DecodeChatRoom raw = Ok r -> roomTyped r.
Proof.
  unfold DecodeChatRoom. intros Hr E. destruct (negb (Validate raw)); [done|].
  destruct (positiveID _ _) eqn:Ec; [|done]. destruct (textOr _ _); [|done]. destruct (int64sOr _ _) as [ids|] eqn:Ei; [|done].
  destruct (distinctPositive ∅ ids) eqn:Ed; [|done]. cbn [negb] in E.
  apply distinctPositive_ok in Ed as (Hn & Hp & _). apply positiveID_ok in Ec as [Hc Hc']; [|done].
  assert (Hm : forall l, (match Lookup fields raw ["m"; "members"] with Some v => decodeMembers v | None => Ok [] end) = Ok l ->
    Forall memberTyped l).
  { intros l El. destruct (Lookup _ _ _) eqn:E'; [eauto using decodeMembers_typed, Lookup_stored|by simplify_eq]. }
  destruct (match Lookup fields raw ["m"; "members"] with Some v => decodeMembers v | None => Ok [] end) as [members|]; [|done].
  destruct (decodeChatMetas _ _) eqn:Em; [|done]. injection E as <-.
  unfold roomTyped. simpl. split_and!; eauto using decodeChatMetas_typed.
  apply Forall_and. eauto using int64sOr_ok.
Qed.

Lemma board_typed d m : stored d -> decodeMoimMeta d = Ok m -> boardTyped m.
Proof.
  unfold decodeMoimMeta. intros Hd E. destruct (Int32 _ _ _) as [[t|]|] eqn:Et; [|done|done].
  destruct (Int64 _ _ _) as [[u|]|] eqn:Eu; [|done|done]. destruct (int64Or0 _ _) as [b|] eqn:Eb; [|done].
  go_cases E. bool_prop. apply Int32_ok in Et. unfold boardTyped. simpl. split_and!; eauto using Int64_ok, int64Or0_ok.
Qed.

Lemma metaSet_typed d s :
  stored d -> decodeMetaSet d = Ok s -> 0 < ms_ChatID s /\ int64 (ms_ChatID s) /\ Forall metaTyped (ms_Metas s).
Proof.
  unfold decodeMetaSet. intros Hd E. destruct (positiveID _ _) eqn:Ec; [|done]. apply positiveID_ok in Ec as [??]; [|done].
  destruct (decodeChatMetas _ _) eqn:Em; [|done]. injection E as <-. eauto using decodeChatMetas_typed.
Qed.

Lemma personalRooms_ok ids values out r :
  personalRooms ids values out = Ok r -> Forall int64 ids ->
  (forall chatID meta, out !! chatID = Some meta -> 0 < chatID /\ int64 chatID) ->
  forall chatID meta, r !! chatID = Some meta -> 0 < chatID /\ int64 chatID.
Proof.
  revert values out. induction ids as [|id ids IH]; intros values out E Hi Ho; [by destruct values; simplify_eq/=|].
  destruct values as [|v values]; simpl in E; [by simplify_eq|]. apply Forall_cons in Hi as [Hid Hi].
  destruct (id <=? 0) eqn:El; [done|]. apply Z.leb_gt in El.
  destruct (out !! id), v; try done; destruct (decodeRoomMeta _) as [[meta|]|]; try done;
    apply (IH _ _ E Hi); intros c k [[-> ->]|[_ Hin]]%lookup_insert_Some; eauto.
Qed.

(** The numbers of a JSON object decoded into a map of int64 are int64. *)
Definition numbersFit : Prop := forall text l, json_numbers text = Some l -> Forall (fun kv => int64 kv.2) l.

Lemma opened_typed raw r : stored raw -> numbersFit -> DecodeChatOnRoomResponse raw = Ok r -> openedTyped r.
Proof.
  unfold DecodeChatOnRoomResponse. intros Hr Hj E. destruct (negb (Validate raw)); [done|].
  destruct (positiveID _ _) eqn:Ec; [|done]. destruct (boolOr _ _); [|done].
  destruct (match LookupErr raw "dlm" with None => _ | Some _ => _ end); [|done].
  destruct (decodeMoimRevisions raw) as [revisions|] eqn:Er; [|done].
  destruct (nonNegative (int64Or0 raw ["o"])) eqn:Eo; [|done]. destruct (nonNegative (int64Or0 raw ["l"])) eqn:El; [|done].
  destruct (int64sOr raw ["a"]) eqn:Ea; [|done]. destruct (int64sOr raw ["w"]) eqn:Ew'; [|done].
  destruct (_ || _); [done|]. destruct (watermarks _ _ _) eqn:Ew; [|done]. injection E as <-.
  apply positiveID_ok in Ec as [??]; [|done]. apply nonNegative_ok in Eo as [? Eo], El as [? El].
  unfold openedTyped. simpl. split_and!; eauto using int64Or0_ok.
  - apply (watermarks_ok int64 _ _ _ _ Ew); [eauto using int64sOr_ok..|]. intros ? ?. by rewrite lookup_empty.
  - unfold decodeMoimRevisions in Er. destruct (LookupErr raw "mr") as [v|]; [|injection Er as <-; by intros ? ?; rewrite lookup_empty].
    destruct v; try done. destruct (2 ^ 16 <? len s); [done|]. destruct (json_numbers s) as [l|] eqn:Ejs; [|done].
    apply (moimRevisions_ok _ _ _ Er); [by eapply Hj|]. intros ? ?. by rewrite lookup_empty.
Qed.

Lemma personal_typed raw size r :
  stored raw -> DecodePersonalMetaResponse raw size = Ok r ->
  forall chatID meta, r !! chatID = Some meta -> 0 < chatID /\ int64 chatID.
Proof.
  unfold DecodePersonalMetaResponse. intros Hr E. destruct (_ || _); [done|].
  destruct (Int64s fields raw ["chatIds"]) as [[ids|]|] eqn:Ei; try done. destruct (Lookup _ _ _); [|done].
  destruct (10000 <? _); [done|]. destruct (valuesOf _); [|done]. destruct (negb _); [done|].
  apply (personalRooms_ok _ _ _ _ E); [eauto using Int64s_ok|]. intros ? ?. by rewrite lookup_empty.
Qed.

(** C21: What is decoded of a reply is typed as the code declares it, and holds the
    values the code relies on, whatever a well-formed reply says.  Every number is
    of the width of its field.  The ID of a chat, of a member that is decoded
    in full, of an active member of a created room and of a member with a
    watermark is positive; a created room lists each active member once;
    watermarks, the token and the last log of an opened chat and the revisions of
    a board are not negative; batches and contents keep their limits.  The
    decoders pass on unchecked, and nothing but the width is promised of: the
    members shown for a chat, the ones MEMLIST lists, blind members, and the
    inviter, link and author IDs.  What is assumed is that BSON and JSON values
    are of the width they are stored in. *)
Theorem decoded_is_typed raw :
  stored raw -> numbersFit ->
  (forall d, DecodeChatData raw = Ok d -> chatTyped d) /\
  (forall r, DecodeChatInfoResponse raw = Ok r ->
     chatTyped (ci_ChatData r) /\ forall ids, ci_BlindMemberIDs r = Some ids -> Forall int64 ids) /\
  (forall r, DecodeChatRoom raw = Ok r -> roomTyped r) /\
  (forall r, DecodeMemberResponse raw = Ok r ->
     0 < mr_ChatID r /\ int64 (mr_ChatID r) /\ Forall memberTyped (mr_Members r)) /\
  (forall r, DecodeMemberListResponse raw = Ok r -> int64 (mlr_Token r) /\ Forall int64 (mlr_MemberIDs r)) /\
  (forall l, DecodeGetMetasResponse raw = Ok l ->
     Z.of_nat (length l) <= MaxGetMetasBatch /\
     Forall (fun s => 0 < ms_ChatID s /\ int64 (ms_ChatID s) /\ Forall metaTyped (ms_Metas s)) l) /\
  (forall r, DecodeMoimResponse raw = Ok r ->
     0 < mo_ChatID r /\ int64 (mo_ChatID r) /\ Z.of_nat (length (mo_Metas r)) <= 128 /\ Forall boardTyped (mo_Metas r)) /\
  (forall r, DecodeChatOnRoomResponse raw = Ok r -> openedTyped r) /\
  (forall size r chatID meta, DecodePersonalMetaResponse raw size = Ok r -> r !! chatID = Some meta ->
     0 < chatID /\ int64 chatID).
Proof.
  intros Hr Hj. split_and!; [by intros; eapply chat_typed| |by intros; eapply room_typed| | | | |by intros; eapply opened_typed|
    by intros; eapply personal_typed].
  - intros r. unfold DecodeChatInfoResponse. intros E. destruct (negb _); [done|].
    destruct (Lookup fields raw ["chatInfo"]) as [v|] eqn:El; [|done]. apply Lookup_stored in El; [|done].
    destruct v as [| | | | |d| | | | |]; try done. destruct (DecodeChatData d) eqn:Ed; [|done].
    destruct (Int64s fields raw ["bmids"]) as [blind|] eqn:Eb; [|done]. injection E as <-. simpl.
    split; [eauto using chat_typed, document_stored|]. intros ids ->. eauto using Int64s_ok.
  - intros r. unfold DecodeMemberResponse. intros E. destruct (negb _); [done|].
    destruct (positiveID _ _) eqn:Ec; [|done]. apply positiveID_ok in Ec as [??]; [|done].
    destruct (Lookup _ _ _) as [v|] eqn:El; [|by simplify_eq]. destruct (decodeMembers v) eqn:Em; [|done].
    injection E as <-. eauto using decodeMembers_typed, Lookup_stored.
  - intros r. unfold DecodeMemberListResponse. intros E. destruct (negb _); [done|].
    destruct (int64Or0 _ _) eqn:Et; [|done]. destruct (textOr _ _); [|done]. destruct (int64sOr _ _) eqn:Em; [|done].
    injection E as <-. eauto using int64Or0_ok, int64sOr_ok.
  - intros l. unfold DecodeGetMetasResponse. intros E. destruct (negb _); [done|].
    destruct (Lookup _ _ _) as [v|] eqn:Ev; [|by simplify_eq]. destruct (valuesOf v) as [values|] eqn:Evs; [|done].
    destruct (Z.ltb_spec MaxGetMetasBatch (Z.of_nat (length values))); [done|].
    split; [apply documents_length in E; lia|]. eauto using documents_Forall, metaSet_typed, valuesOf_stored, Lookup_stored.
  - intros r. unfold DecodeMoimResponse. intros E. destruct (negb _); [done|].
    destruct (positiveID _ _) eqn:Ec; [|done]. apply positiveID_ok in Ec as [??]; [|done].
    destruct (Lookup _ _ _) as [v|] eqn:Ev; [|done]. destruct (valuesOf v) as [values|] eqn:Evs; [|done].
    destruct (Z.ltb_spec 128 (Z.of_nat (length values))); [done|].
    destruct (documents _ _) eqn:Ed; [|done]. injection E as <-. split_and!; [done|done|apply documents_length in Ed; simpl; lia|].
    eauto using documents_Forall, board_typed, valuesOf_stored, Lookup_stored.
Qed.


(** ** The display of a group *)

(** The newest of the shared metadata of a type, and what it says. *)
Definition newest (metas : list ChatMeta) (t : Z) (m : option ChatMeta) : Prop :=
  match m with
  | None => forall m', m' ∈ metas -> cm_Type m' <> t
  | Some m =>
      m ∈ metas /\ cm_Type m = t /\
      forall m', m' ∈ metas -> cm_Type m' = t ->
        cm_Revision m' <= cm_Revision m /\ (cm_Revision m' = cm_Revision m -> cm_Content m' = cm_Content m)
  end.

Lemma newest_app_other metas m t o : cm_Type m <> t -> newest metas t o -> newest (metas ++ [m]) t o.
Proof.
  intros Hm. destruct o as [p|]; simpl.
  - intros (Hin & Ht & Hall). split_and!; [apply elem_of_app; by left|done|].
    intros m' [Hin'| ->%list_elem_of_singleton]%elem_of_app Ht'; [by apply Hall|done].
  - intros Hall m' [Hin'| ->%list_elem_of_singleton]%elem_of_app; [by apply Hall|done].
Qed.

Lemma selectMetas_newest metas done_ selected out :
  (forall t, displayType t = true -> newest done_ t (selected !! t)) -> selectMetas metas selected = Ok out ->
  forall t, displayType t = true -> newest (done_ ++ metas) t (out !! t).
Proof.
  revert done_ selected. induction metas as [|m metas IH]; intros done_ selected Hsel E; simpl in E.
  { simplify_eq. by rewrite app_nil_r. }
  replace (done_ ++ m :: metas) with ((done_ ++ [m]) ++ metas) by (by rewrite <-app_assoc).
  destruct (displayType (cm_Type m)) eqn:Ed; simpl in E; cycle 1.
  { refine (IH (done_ ++ [m]) _ _ E). intros t Ht. apply newest_app_other; [intros <-; congruence|auto]. }
  pose proof (Hsel _ Ed) as Hm. destruct (selected !! cm_Type m) as [prev|] eqn:Ep; simpl in Hm; cycle 1.
  { refine (IH (done_ ++ [m]) _ _ E). intros t Ht. destruct (decide (cm_Type m = t)) as [<-|Hne].
    - rewrite lookup_insert_eq. simpl. split_and!; [apply elem_of_app; right; by apply list_elem_of_singleton|done|].
      intros m' [Hin| ->%list_elem_of_singleton]%elem_of_app Ht'; [by apply Hm in Hin|done].
    - rewrite lookup_insert_ne by done. apply newest_app_other; auto. }
  destruct Hm as (Hin & Htp & Hall).
  destruct (Z.ltb_spec (cm_Revision m) (cm_Revision prev)) as [Hlt|Hge].
  { refine (IH (done_ ++ [m]) _ _ E). intros t Ht. destruct (decide (cm_Type m = t)) as [<-|Hne].
    - rewrite Ep. simpl. split_and!; [apply elem_of_app; by left|done|].
      intros m' [Hin'| ->%list_elem_of_singleton]%elem_of_app Ht'; [by apply Hall|lia].
    - apply newest_app_other; auto. }
  destruct (_ && _) eqn:Ec; [done|].
  assert (Hc : cm_Revision m = cm_Revision prev -> cm_Content m = cm_Content prev).
  { intros Er. rewrite Er, Z.eqb_refl in Ec. simpl in Ec. apply negb_false_iff in Ec. by apply String.eqb_eq in Ec. }
  refine (IH (done_ ++ [m]) _ _ E). intros t Ht. destruct (decide (cm_Type m = t)) as [<-|Hne].
  - rewrite lookup_insert_eq. simpl. split_and!; [apply elem_of_app; right; by apply list_elem_of_singleton|done|].
    intros m' [Hin'| ->%list_elem_of_singleton]%elem_of_app Ht'; [|done].
    destruct (Hall _ Hin' Ht') as [Hle Heq]. split; [lia|]. intros Er.
    rewrite Heq by lia. symmetry. apply Hc. lia.
  - rewrite lookup_insert_ne by done. apply newest_app_other; auto.
Qed.

Definition says (o : option ChatMeta) : option (Z * string) := (fun m => (cm_Revision m, cm_Content m)) <$> o.

Lemma newest_unique metas metas' t o o' :
  metas ≡ₚ metas' -> newest metas t o -> newest metas' t o' -> says o = says o'.
Proof.
  intros Hp. destruct o as [m|], o' as [m'|]; simpl; [| | |done].
  - intros (Hin & Ht & Hall) (Hin' & Ht' & Hall'). unfold says. simpl.
    destruct (Hall m') as [Hle Heq]; [by rewrite Hp|done|]. destruct (Hall' m) as [Hle' _]; [by rewrite <-Hp|done|].
    assert (Er : cm_Revision m' = cm_Revision m) by lia. by rewrite Er, Heq.
  - intros (Hin & Ht & _) Hall. rewrite Hp in Hin. by apply Hall in Hin.
  - intros Hall (Hin & Ht & _). rewrite <-Hp in Hin. by apply Hall in Hin.
Qed.

Lemma showMetas_says selected selected' meta :
  (forall t, displayType t = true -> says (selected !! t) = says (selected' !! t)) ->
  showMetas selected meta = showMetas selected' meta.
Proof.
  intros Hs. unfold showMetas.
  pose proof (Hs SharedMetaKakaoGroup eq_refl) as H2. pose proof (Hs SharedMetaTitle eq_refl) as H3.
  pose proof (Hs SharedMetaProfile eq_refl) as H4. clear Hs.
  destruct (selected !! SharedMetaKakaoGroup) as [l|], (selected' !! SharedMetaKakaoGroup) as [l'|];
    try discriminate H2; destruct (selected !! SharedMetaTitle) as [n|], (selected' !! SharedMetaTitle) as [n'|];
    try discriminate H3; destruct (selected !! SharedMetaProfile) as [p|], (selected' !! SharedMetaProfile) as [p'|];
    try discriminate H4; unfold says in *; simpl in *;
    repeat match goal with H : Some (_, _) = Some (_, _) |- _ => injection H as ? ? end;
    unfold legacyWins; simpl; repeat match goal with H : _ = _ |- _ => rewrite !H; clear H end; reflexivity.
Qed.

(** No two entries of one shown type have the same revision and different
    contents. *)
Definition agreeing (metas : list ChatMeta) : Prop :=
  forall m m', m ∈ metas -> m' ∈ metas -> displayType (cm_Type m) = true -> cm_Type m' = cm_Type m ->
    cm_Revision m' = cm_Revision m -> cm_Content m' = cm_Content m.

(** The selection fails only of a conflict. *)
Lemma selectMetas_ok metas done_ selected :
  (forall t m, selected !! t = Some m -> m ∈ done_ /\ cm_Type m = t) -> agreeing (done_ ++ metas) ->
  exists out, selectMetas metas selected = Ok out.
Proof.
  revert done_ selected. induction metas as [|m metas IH]; intros done_ selected Hs Ha; simpl; [by eexists|].
  assert (Hm : m ∈ done_ ++ m :: metas) by (apply elem_of_app; right; left).
  assert (Hold : forall t k, selected !! t = Some k -> k ∈ done_ ++ [m] /\ cm_Type k = t).
  { intros t k Hk. destruct (Hs t k Hk). split; [apply elem_of_app; by left|done]. }
  assert (Hnew : forall t k, <[cm_Type m := m]> selected !! t = Some k -> k ∈ done_ ++ [m] /\ cm_Type k = t).
  { intros t k [[<- <-]|[_ Hk]]%lookup_insert_Some; [|by apply Hold]. split; [apply elem_of_app; right; left|done]. }
  assert (Ha' : agreeing ((done_ ++ [m]) ++ metas)) by (by rewrite <-app_assoc).
  destruct (displayType (cm_Type m)) eqn:Ed; simpl; [|by apply (IH (done_ ++ [m]))].
  destruct (selected !! cm_Type m) as [prev|] eqn:Ep; [|by apply (IH (done_ ++ [m]))].
  destruct (_ <? _); [by apply (IH (done_ ++ [m]))|].
  destruct (Hs _ _ Ep) as [Hin Ht].
  destruct (Z.eqb_spec (cm_Revision m) (cm_Revision prev)) as [Er|]; simpl; [|by apply (IH (done_ ++ [m]))].
  rewrite <-(Ha m prev), String.eqb_refl; try done; [by apply (IH (done_ ++ [m]))|]. apply elem_of_app. by left.
Qed.

Definition withMetas (data : ChatData) (metas : list ChatMeta) : ChatData :=
  mkChatData (cd_ChatID data) (cd_Type data) (cd_ActiveMemberCount data) (cd_NewMessageCount data)
    (cd_LastSeenLogID data) (cd_LastServerLogID data) (cd_LastChatLog data) (cd_DisplayUserIDs data)
    (cd_DisplayNicknames data) (cd_DisplayImageURLs data) (cd_Suspicions data) (cd_PushAlert data) (cd_Meta data)
    metas (cd_MetaMaxRevision data) (cd_JoinedAtForNewMem data) (cd_InviterID data) (cd_LinkID data)
    (cd_LinkToken data) (cd_BlindMemberIDs data).

(** C26: How a group is shown is decided by its newest shared name and avatar
    and by the user's own.  If the server lists no two contents of one type under
    one revision, the order in which it lists the metadata changes nothing,
    failures included.  If it does, the order still never changes what is shown,
    but it decides whether anything is: a conflict between two old entries is
    skipped when a newer one is listed before them and an error when it follows, so
    one list is shown and a permutation of it is refused. *)
Theorem display_order_free :
  (forall data metas', cd_ChatMetas data ≡ₚ metas' -> agreeing (cd_ChatMetas data) ->
     ProjectGroupDisplay (withMetas data metas') = ProjectGroupDisplay data) /\
  (forall data metas' d d', cd_ChatMetas data ≡ₚ metas' ->
     ProjectGroupDisplay data = Ok d -> ProjectGroupDisplay (withMetas data metas') = Ok d' -> d' = d) /\
  (forall data, exists metas metas' d, metas ≡ₚ metas' /\
     ProjectGroupDisplay (withMetas data metas) = Ok d /\
     ProjectGroupDisplay (withMetas data metas') = Err ErrInvalidResponse).
Proof.
  assert (Hsays : forall metas metas' out out', metas ≡ₚ metas' -> selectMetas metas ∅ = Ok out -> selectMetas metas' ∅ = Ok out' ->
    forall meta, showMetas out meta = showMetas out' meta).
  { intros metas metas' out out' Hp Eo Eo' meta. apply showMetas_says. intros t Ht.
    eapply newest_unique; [exact Hp| |]; eapply (selectMetas_newest _ []); try done;
      intros t' _; rewrite lookup_empty; by intros m Hin%elem_of_nil. }
  split_and!.
  - intros data metas' Hp Ha. unfold ProjectGroupDisplay. cbn [withMetas cd_ChatMetas cd_Meta].
    assert (Hok : forall metas, agreeing metas -> exists out, selectMetas metas ∅ = Ok out).
    { intros metas Hm. apply (selectMetas_ok metas []); [|done]. intros t m. by rewrite lookup_empty. }
    destruct (Hok _ Ha) as [out E], (Hok metas') as [out' E'].
    { intros m m' Hin Hin'. apply Ha; by rewrite Hp. }
    rewrite E, E'. symmetry. by eapply Hsays.
  - intros data metas' d d' Hp E E'. unfold ProjectGroupDisplay in E, E'. cbn [withMetas cd_ChatMetas cd_Meta] in E'.
    destruct (selectMetas (cd_ChatMetas data) ∅) as [out|] eqn:Eo; [|done].
    destruct (selectMetas metas' ∅) as [out'|] eqn:Eo'; [|done].
    rewrite (Hsays _ _ _ _ Hp Eo Eo') in E. congruence.
  - intros data. pose (title r name := mkChatMeta SharedMetaTitle r 9 name 0).
    exists [title 5 "a"; title 3 "x"; title 3 "y"], [title 3 "x"; title 3 "y"; title 5 "a"]. eexists.
    split; [|split; [reflexivity|reflexivity]]. apply (Permutation_app_comm [_] [_; _]).
Qed.
End Promises.

(** ** Witnesses *)

(** JSON of no fields. *)
#[export] Instance demoMetaJson : MetaJson := {
  json_fields _ := Some [];
  strict_fields _ := Some [];
  json_text s := Some s;
  json_notice _ := None;
  json_texts _ := Some [];
  json_numbers _ := Some [("1", 4)];
}.

#[local] Definition doc (l : list (string * Value tree)) : @Raw treeBson := Tree l.

Lemma stored_tree l : Forall (fun kv => storedValue kv.2) l -> stored (doc l).
Proof.
  intros Hl. constructor.
  - intros k v. simpl. induction Hl as [|[k' v'] l Hv _ IH]; simpl; [done|]. destruct (k =? k')%string; [by intros [= <-]|done].
  - intros values v [= <-] Hin. apply list_elem_of_fmap in Hin as (kv & -> & Hin). rewrite Forall_forall in Hl. by apply Hl.
Qed.

Lemma decoded_is_typed_witness :
  let opened := doc [("c", VInt64 7); ("o", VInt64 2); ("mr", VString "{}"); ("a", VArray (MarshalArray [VInt64 9; VInt32 5]));
                     ("w", VArray (MarshalArray [VInt64 40; VInt64 0]))] in
  exists r, DecodeChatOnRoomResponse opened = Ok r /\ or_Watermarks r !! 9 = Some 40 /\ openedTyped r.
Proof.
  intros opened. eexists. split; [vm_compute; reflexivity|]. split; [vm_compute; reflexivity|].
  apply (decoded_is_typed opened); [| |vm_compute; reflexivity].
  - apply stored_tree. repeat apply Forall_cons_2; try apply Forall_nil_2; simpl; constructor; try by unfold_ints.
    all: apply stored_tree; repeat apply Forall_cons_2; try apply Forall_nil_2; simpl; constructor; by unfold_ints.
  - intros text l [= <-]. by repeat constructor.
Defined.

Lemma display_order_free_witness :
  let title r name := mkChatMeta 3 r 9 name 0 in
  let data metas := mkChatData (H := treeBson) 7 "MultiChat" 3 0 0 0 None [] [] [] [] None None metas 0 0 0 0 0 [] in
  ProjectGroupDisplay (data [title 1 "old"; title 2 "new"]) = Ok (mkGroupDisplay "new" "" "" false) /\
  ProjectGroupDisplay (data [title 2 "new"; title 1 "old"]) = ProjectGroupDisplay (data [title 1 "old"; title 2 "new"]) /\
  forall d, ProjectGroupDisplay (data [title 2 "new"; title 1 "old"]) = Ok d -> d = mkGroupDisplay "new" "" "" false.
Proof.
  intros title data. split; [reflexivity|]. split.
  - apply (proj1 display_order_free (data [title 1 "old"; title 2 "new"]) [title 2 "new"; title 1 "old"]); [apply perm_swap|].
    intros m m' [->|[->|Hin]%elem_of_cons]%elem_of_cons [->|[->|Hin']%elem_of_cons]%elem_of_cons; try done;
      by apply elem_of_nil in Hin || apply elem_of_nil in Hin'.
  - intros d E. apply (proj1 (proj2 display_order_free) (data [title 1 "old"; title 2 "new"]) [title 2 "new"; title 1 "old"]);
      [apply perm_swap|reflexivity|exact E].
Defined.
