(* ===== verification/ChatPackets.v ===== *)
(** * Chat requests (src/internal/protocol/chat)

    The encodings of CREATE, ADDMEM, WRITE, the reply form of WRITE, MODIFYMSG,
    DELETEMSG and GETMSGS with their validation, and the decoders of the
    replies.  The package encoding/json is the class [Json]. *)

From S2P Require Import Prelude Bytes Text Bson.

#[local] Open Scope string_scope.
#[local] Open Scope Z_scope.

(** ** encoding/json *)

(** What is marshalled: the fields of a struct, or a map of raw values. *)
Inductive JsonValue :=
| JString (s : string)
| JInt (n : Z)
| JStrings (l : list string)
| JInts (l : list Z)
| JEmptyArray
| JRaw (s : string).

(** [json_object] is [Unmarshal] into a map of raw values: [None] an error,
    [Some None] the nil map of the text null.  What [Marshal] gives is valid. *)
Class Json := {
  json_Valid : string -> bool;
  json_object : string -> option (option (list (string * string)));
  json_bool : string -> option bool;
  json_Marshal : list (string * JsonValue) -> option string;
  json_Marshal_valid d s : json_Marshal d = Some s -> json_Valid s = true;
  json_empty_object : json_Valid "{}" = true;
}.

(** ** Message types (src/internal/protocol/messagetype/types.go) *)

Module messagetype.
Definition Text : Z := 1.
Definition Photo : Z := 2.
Definition Video : Z := 3.
Definition AnimatedEmoticon : Z := 6.
Definition Sticker : Z := 12.
Definition File : Z := 18.
Definition AnimatedSticker : Z := 20.
Definition Spritecon : Z := 22.
Definition AnimatedStickerEx : Z := 25.
Definition Reply : Z := 26.
Definition MultiPhoto : Z := 27.
Definition Mvoip : Z := 51.
Definition Leverage : Z := 71.
Definition DeletedAllChatTypeFlag : Z := 16384.
End messagetype.

(** ** Errors *)

Inductive Error :=
| ErrNoMembers | ErrInvalidMemberID | ErrDuplicateMember | ErrTooManyMembers
| ErrCreateNUL | ErrInvalidResponse
| ErrInvalidChatID | ErrInvalidMessageID | ErrInvalidMessage | ErrInvalidWriteType | ErrInvalidWriteResp
| ErrNotEditable | ErrEditSourceMissing | ErrInvalidGetMessagesResp
| ErrInvitation. (* the three errors without a name of addmembers.go *)

Definition maxCreateMembers : Z := 1000.
Definition maxTextBytes : Z := 64 * 1024.
Definition MaxGetMessages : Z := 200.
Definition StatusDeleteTypeNotAllowed : Z := -210.
Definition StatusAlreadyDeleted : Z := -211.
Definition StatusDeleteTimeExpired : Z := -212.

(** ** Requests *)

Record CreateOptions := mkCreateOptions {
  PushAlert : bool;
  MemoChat : bool;
  NickName : string;
  ProfileImageURL : string;
}.

Record CreateRequest := mkCreateRequest { MemberIDs : list Z; Options : CreateOptions }.

Definition noOptions : CreateOptions := mkCreateOptions false false "" "".

(** The loop of [Validate]. *)
Fixpoint checkMembers (seen : gset Z) (ids : list Z) : option Error :=
  match ids with
  | [] => None
  | id :: ids =>
      if id <=? 0 then Some ErrInvalidMemberID
      else if bool_decide (id ∈ seen) then Some ErrDuplicateMember
      else checkMembers ({[id]} ∪ seen) ids
  end.

Definition CreateRequest_Validate (r : CreateRequest) : option Error :=
  let n := Z.of_nat (length (MemberIDs r)) in
  if n =? 0 then Some ErrNoMembers
  else if maxCreateMembers <? n then Some ErrTooManyMembers
  else match checkMembers ∅ (MemberIDs r) with
       | Some err => Some err
       | None =>
           if IndexByte0 (NickName (Options r)) || IndexByte0 (ProfileImageURL (Options r))
           then Some ErrCreateNUL else None
       end.

Record WriteRequest := mkWriteRequest {
  ChatID : Z;
  MessageID : Z;
  Scope_ : Z;
  ThreadID : Z;
  Message : string;
  Type_ : Z;
  NoSeen : bool;
  NoLight : bool;
  Extra : string;
  Supplement : string;
  Silence : bool;
  FeatureStat : string;
}.

Definition textBad (s : string) : bool :=
  negb (ValidString s) || (maxTextBytes <? len s) || IndexByte0 s.

Definition WriteRequest_Validate (r : WriteRequest) : option Error :=
  if ChatID r <=? 0 then Some ErrInvalidChatID
  else if MessageID r <? 0 then Some ErrInvalidMessageID
  else if Type_ r <=? 0 then Some ErrInvalidWriteType
  else
    let emptyAllowed := (Type_ r =? messagetype.MultiPhoto) && negb (Extra r =? "")%string in
    if ((Message r =? "")%string && negb emptyAllowed) || textBad (Message r) then Some ErrInvalidMessage
    else if existsb (fun value => negb (ValidString value) || IndexByte0 value)
              [Extra r; Supplement r; FeatureStat r]
    then Some ErrInvalidMessage
    else None.

(** The source of a reply, and a reply. *)
Record ReplyTarget := mkReplyTarget {
  rt_LogID : Z;
  rt_UserID : Z;
  rt_LinkID : Z;
  rt_Type : Z;
  rt_Message : string;
}.

Definition ReplyTarget_validate (t : ReplyTarget) : option Error :=
  if (rt_LogID t <=? 0) || (rt_UserID t <=? 0) || (rt_LinkID t <? 0) || (rt_Type t <=? 0)
  then Some ErrInvalidMessage
  else if negb (ValidString (rt_Message t)) || (maxTextBytes <? len (rt_Message t)) || containsNUL (rt_Message t)
  then Some ErrInvalidMessage
  else None.

Record ReplyRequest := mkReplyRequest { rr_ChatID : Z; rr_Message : string; rr_Target : ReplyTarget }.

Record ModifyRequest := mkModifyRequest {
  mr_ChatID : Z;
  mr_LogID : Z;
  mr_Type : Z;
  mr_Message : string;
  mr_Extra : string;
}.

Record DeleteRequest := mkDeleteRequest { dr_ChatID : Z; dr_LogID : Z }.
Record AddMembersRequest := mkAddMembersRequest { am_ChatID : Z; am_MemberIDs : list Z }.
Record GetMessagesRequest := mkGetMessagesRequest { gm_ChatID : Z; gm_LogIDs : list Z }.

(** The current chat log an edit is built on. *)
Record EditSource := mkEditSource {
  es_LogID : Z;
  es_AuthorID : Z;
  es_Type : Z;
  es_Message : string;
  es_Attachment : string;
}.

Definition emoticonEditKeys : list string :=
  ["url"; "name"; "sound"; "path"; "path2"; "scon"; "alt"; "xconVersion"; "width"; "height"].
Definition replyEditKeys : list string :=
  ["src_logId"; "src_userId"; "src_linkId"; "src_type"; "attach_only"; "attach_type"; "attach_content";
   "src_message"; "src_mentions"].

Section Packets.
Context `{Bson} `{Json}.

Definition fields : Reader Error := mkReader ErrInvalidResponse false.

Definition int64Array (l : list Z) : Value Raw := VArray (MarshalArray (VInt64 <$> l)).

Definition CreateRequest_MarshalBSON (r : CreateRequest) : res Error Raw :=
  match CreateRequest_Validate r with
  | Some err => Err err
  | None =>
      let o := Options r in
      Ok (Marshal
        ([("memberIds", int64Array (MemberIDs r)); ("pushAlert", VBoolean (PushAlert o));
          ("memoChat", VBoolean (MemoChat o))]
         ++ (if (NickName o =? "")%string then [] else [("nickName", VString (NickName o))])
         ++ (if (ProfileImageURL o =? "")%string then []
             else [("profileImageUrl", VString (ProfileImageURL o))])))
  end.

Record CreateResponse := mkCreateResponse { cr_ChatID : Z; cr_ChatRoom : Raw }.

Definition DecodeCreateResponse (body : Raw) : res Error CreateResponse :=
  match Int64 fields body ["chatId"] with
  | Ok (Some chatID) =>
      if chatID <=? 0 then Err ErrInvalidResponse else
      match Document fields body ["chatRoom"] with
      | Ok (Some room) => Ok (mkCreateResponse chatID room)
      | _ => Err ErrInvalidResponse
      end
  | _ => Err ErrInvalidResponse
  end.

Definition AddMembersRequest_MarshalBSON (r : AddMembersRequest) : res Error Raw :=
  if am_ChatID r <=? 0 then Err ErrInvalidChatID else
  match CreateRequest_Validate (mkCreateRequest (am_MemberIDs r) noOptions) with
  | Some err => Err err
  | None => Ok (Marshal [("chatId", VInt64 (am_ChatID r)); ("memberIds", int64Array (am_MemberIDs r))])
  end.

Record AddMembersResponse := mkAddMembersResponse { ar_ChatLog : option Raw; ar_Warning : string }.

Definition DecodeAddMembersResponse (body : Raw) : res Error AddMembersResponse :=
  if negb (Validate body) then Err ErrInvitation else
  let log := match LookupErr body "chatLog" with
             | Some VNull | None => Ok None
             | Some (VDocument d) => Ok (Some d)
             | Some _ => Err ErrInvitation
             end in
  let! log := log in
  match LookupErr body "warningMsg" with
  | Some VNull | None => Ok (mkAddMembersResponse log "")
  | Some (VString warning) => Ok (mkAddMembersResponse log warning)
  | Some _ => Err ErrInvitation
  end.

(** A property with its zero value is omitted. *)
Definition optional (present : bool) (key : string) (v : Value Raw) : list (string * Value Raw) :=
  if present then [(key, v)] else [].

Definition nonempty (s : string) : bool := negb (s =? "")%string.

Definition WriteRequest_MarshalBSON (r : WriteRequest) : res Error Raw :=
  match WriteRequest_Validate r with
  | Some err => Err err
  | None =>
      Ok (Marshal
        ([("chatId", VInt64 (ChatID r)); ("msg", VString (Message r)); ("type", VInt32 (Type_ r));
          ("noSeen", VBoolean (NoSeen r))]
         ++ optional (0 <? MessageID r) "msgId" (VInt64 (MessageID r))
         ++ optional (negb (Scope_ r =? 0)) "scope" (VInt32 (Scope_ r))
         ++ optional (negb (ThreadID r =? 0)) "threadId" (VInt64 (ThreadID r))
         ++ optional (NoLight r) "noLight" (VBoolean true)
         ++ optional (nonempty (Extra r)) "extra" (VString (Extra r))
         ++ optional (nonempty (Supplement r)) "supplement" (VString (Supplement r))
         ++ optional (Silence r) "silence" (VBoolean true)
         ++ optional (nonempty (FeatureStat r)) "featureStat" (VString (FeatureStat r))))
  end.

Record WriteResponse := mkWriteResponse {
  wr_MessageID : Z;
  wr_ChatID : Z;
  wr_LogID : Z;
  wr_PrevID : Z;
  wr_SendAt : Z;
  wr_ChatLog : option Raw;
}.

(** A field that may be absent, as the zero value. *)
Definition int64OrZero (raw : Raw) (key : string) : res Error Z :=
  match Int64 fields raw [key] with
  | Ok (Some n) => Ok n
  | Ok None => Ok 0
  | Err _ => Err ErrInvalidWriteResp
  end.

Definition positive (raw : Raw) (key : string) : res Error Z :=
  match Int64 fields raw [key] with
  | Ok (Some n) => if n <=? 0 then Err ErrInvalidWriteResp else Ok n
  | _ => Err ErrInvalidWriteResp
  end.

Definition DecodeWriteResponse (raw : Raw) : res Error WriteResponse :=
  let! chatID := positive raw "chatId" in
  let! logID := positive raw "logId" in
  let! messageID := int64OrZero raw "msgId" in
  let! prevID := int64OrZero raw "prevId" in
  let! sendAt := int64OrZero raw "sendAt" in
  match Document fields raw ["chatLog"] with
  | Ok chatLog => Ok (mkWriteResponse messageID chatID logID prevID sendAt chatLog)
  | Err _ => Err ErrInvalidWriteResp
  end.

(** The attachment of a reply; [src_linkId] is omitted when it is zero. *)
Definition replyAttachment (t : ReplyTarget) : list (string * JsonValue) :=
  [("src_logId", JInt (rt_LogID t)); ("src_userId", JInt (rt_UserID t))]
  ++ (if rt_LinkID t =? 0 then [] else [("src_linkId", JInt (rt_LinkID t))])
  ++ [("src_type", JInt (rt_Type t)); ("src_message", JString (truncateReplyPreview (rt_Message t)));
      ("src_spoilers", JEmptyArray)].

Definition replyWrite (r : ReplyRequest) (extra : string) : WriteRequest :=
  mkWriteRequest (rr_ChatID r) 0 0 0 (rr_Message r) messagetype.Reply false false extra "" false "".

Definition ReplyRequest_MarshalBSON (r : ReplyRequest) : res Error Raw :=
  match ReplyTarget_validate (rr_Target r) with
  | Some _ => Err ErrInvalidMessage
  | None =>
      match json_Marshal (replyAttachment (rr_Target r)) with
      | None => Err ErrInvalidMessage
      | Some extra => WriteRequest_MarshalBSON (replyWrite r extra)
      end
  end.

Definition ModifyRequest_MarshalBSON (r : ModifyRequest) : res Error Raw :=
  if mr_ChatID r <=? 0 then Err ErrInvalidChatID
  else if mr_LogID r <=? 0 then Err ErrInvalidMessageID
  else if (mr_Type r <=? 0) || (mr_Message r =? "")%string || textBad (mr_Message r) || negb (json_Valid (mr_Extra r))
  then Err ErrInvalidMessage
  else Ok (Marshal [("chatId", VInt64 (mr_ChatID r)); ("logId", VInt64 (mr_LogID r)); ("type", VInt32 (mr_Type r));
                    ("msg", VString (mr_Message r)); ("extra", VString (mr_Extra r))]).

Definition DecodeModifyResponse (body : Raw) (logID : Z) : res Error Z :=
  match LookupErr body "modifiedChatLog" with
  | Some (VDocument modified) =>
      match Int64 fields modified ["logId"] with
      | Ok (Some got) =>
          if negb (got =? logID) then Err ErrInvalidWriteResp else
          match Int64 fields modified ["revision"] with
          | Ok (Some revision) => if revision <=? 0 then Err ErrInvalidWriteResp else Ok revision
          | _ => Err ErrInvalidWriteResp
          end
      | _ => Err ErrInvalidWriteResp
      end
  | _ => Err ErrInvalidWriteResp
  end.

Definition DeleteRequest_MarshalBSON (r : DeleteRequest) : res Error Raw :=
  if dr_ChatID r <=? 0 then Err ErrInvalidChatID
  else if dr_LogID r <=? 0 then Err ErrInvalidMessageID
  else Ok (Marshal [("chatId", VInt64 (dr_ChatID r)); ("logId", VInt64 (dr_LogID r))]).

Definition GetMessagesRequest_MarshalBSON (r : GetMessagesRequest) : res Error Raw :=
  let n := Z.of_nat (length (gm_LogIDs r)) in
  if gm_ChatID r <=? 0 then Err ErrInvalidChatID
  else if (n =? 0) || (MaxGetMessages <? n) || existsb (fun logID => logID <=? 0) (gm_LogIDs r)
  then Err ErrInvalidMessageID
  else Ok (Marshal [("chatIds", int64Array (const (gm_ChatID r) <$> gm_LogIDs r));
                    ("logIds", int64Array (gm_LogIDs r))]).

Definition DecodeGetMessagesResponse (body : Raw) : res Error (list Raw) :=
  match LookupErr body "chatLogs" with
  | None => Ok []
  | Some (VArray a) =>
      match Values a with
      | None => Err ErrInvalidGetMessagesResp
      | Some values =>
          match mapM (fun item => match item with VDocument d => Some d | _ => None end) values with
          | Some logs => Ok logs
          | None => Err ErrInvalidGetMessagesResp
          end
      end
  | Some _ => Err ErrInvalidGetMessagesResp
  end.

(** ** Editing *)

(** An absent field of a read that fails only on a wrong type. *)
Definition optionalField {A} (zero : A) (r : res Error (option A)) : res Error A :=
  match r with
  | Ok (Some a) => Ok a
  | Ok None => Ok zero
  | Err _ => Err ErrInvalidGetMessagesResp
  end.

Definition editSourceOf (log : Raw) (got : Z) : res Error EditSource :=
  let! authorID := optionalField 0 (Int64 fields log ["authorId"]) in
  match Int32 fields log ["type"] with
  | Ok (Some type) =>
      let! message := optionalField "" (Bson.String fields log ["message"]) in
      let! attachment := optionalField "" (Bson.String fields log ["attachment"]) in
      Ok (mkEditSource got authorID type message attachment)
  | _ => Err ErrInvalidGetMessagesResp
  end.

Fixpoint findEditSource (logID : Z) (logs : list Raw) : res Error EditSource :=
  match logs with
  | [] => Err ErrEditSourceMissing
  | log :: logs =>
      match Int64 fields log ["logId"] with
      | Ok (Some got) => if got =? logID then editSourceOf log got else findEditSource logID logs
      | _ => findEditSource logID logs
      end
  end.

Definition DecodeEditSource (body : Raw) (logID : Z) : res Error EditSource :=
  let! logs := DecodeGetMessagesResponse body in findEditSource logID logs.

(** The keys an edit of a message of this type carries over; [None]: it is not
    editable. *)
Definition editKeys (source : EditSource) : option (list string) :=
  let t := es_Type source in
  if existsb (Z.eqb t) [messagetype.AnimatedEmoticon; messagetype.Sticker; messagetype.AnimatedSticker;
                        messagetype.Spritecon; messagetype.AnimatedStickerEx]
  then if (es_Message source =? "")%string then None else Some emoticonEditKeys
  else if t =? messagetype.Reply then Some replyEditKeys
  else None.

Definition attachOnly (source : EditSource) (original : list (string * string)) : bool :=
  (es_Type source =? messagetype.Reply) &&
  match assoc "attach_only" original with
  | Some raw => match json_bool raw with Some b => b | None => false end
  | None => false
  end.

(** The loop that carries the keys over. *)
Definition carried (keys : list string) (original : list (string * string)) : list (string * string) :=
  omap (fun key => match assoc key original with
                   | Some raw => if (raw =? "null")%string then None else Some (key, raw)
                   | None => None
                   end) keys.

Definition ModifyExtra (source : EditSource) : res Error string :=
  if es_Type source =? messagetype.Text then Ok "{}" else
  match editKeys source with
  | None => Err ErrNotEditable
  | Some keys =>
      match json_object (es_Attachment source) with
      | None | Some None => Err ErrNotEditable
      | Some (Some original) =>
          if attachOnly source original then Err ErrNotEditable else
          match json_Marshal (prod_map id JRaw <$> carried keys original) with
          | Some extra => Ok extra
          | None => Err ErrNotEditable
          end
      end
  end.
End Packets.
