(* ===== verification/MediaUpload.v ===== *)
(** * Outbound media (src/internal/protocol/media)

    What is checked of a photo, an album, a file or a video before it is sent,
    the requests that announce and carry it, and the decoders of the replies.
    Decoders of picture files, Unicode normalisation, lower case, SHA-1 and
    encoding/json are the classes [MediaLib] and [Json]. *)

From Stdlib Require Import Ascii.
From S2P Require Import Prelude Bytes Text Bson ChatPackets.

#[local] Open Scope string_scope.
#[local] Open Scope Z_scope.

(** What the code reads of net/url's [URL]. *)
Record URL := mkURL {
  Scheme : string;
  Host : string;
  HasUser : bool;
  RawQuery : string;
  Fragment : string;
  Path : string;
}.

(** [DecodeConfig] is image.DecodeConfig with the decoders of JPEG and PNG:
    width, height and format; [sha1Hex] the upper-case hexadecimal digest. *)
Class MediaLib := {
  DecodeConfig : bytes -> option (Z * Z * string);
  NFC : string -> string;
  ToLower : string -> string;
  sha1Hex : bytes -> string;
  sha1Hex_length l : String.length (sha1Hex l) = 40%nat;
  url_Parse : string -> option URL;
}.

Inductive MediaError :=
| ErrInvalidImage | ErrUnsupportedImage | ErrInvalidCaption | ErrInvalidOffset
| ErrInvalidUpload | ErrUploadTooLarge | ErrDeniedExtension | ErrCaptionNotSupported
| ErrInvalidAlbum | ErrInvalidMediaResponse | ErrUploadRedirect | ErrUploadFiltered | ErrUnsafeURL
| ResponseError (command reason : string). (* wraps ErrInvalidResponse; its body is private *)

Definition ShipCommand : string := "SHIP".
Definition CompleteCommand : string := "COMPLETE".
Definition MaxImageBytes : Z := 16 * 2 ^ 20.
Definition MaxUploadBytes : Z := 64 * 2 ^ 20.
Definition MaxAlbumBytes : Z := 64 * 2 ^ 20.
Definition maxUploadName : Z := 512.
Definition MaxCaptionBytes : Z := 16 * 2 ^ 10.
Definition MinAlbumPhotos : Z := 2.
Definition MaxAlbumPhotos : Z := 30.

Definition size (l : bytes) : Z := Z.of_nat (length l).

Definition ValidCaption (caption : string) : bool :=
  (len caption <=? MaxCaptionBytes) && ValidString caption && negb (containsNUL caption).

Definition fieldReason {E A} (key : string) (r : res E (option A)) : string :=
  match r with
  | Err _ => key +:+ "_type"
  | Ok None => key +:+ "_missing"
  | Ok (Some _) => key +:+ "_value"
  end.

(** ** Files and videos *)

Definition videoExtensions : list string :=
  ["ts"; "ogv"; "flv"; "mov"; "mp4"; "mpeg"; "mpg"; "mkv"; "wmv"; "asf"; "avi"; "m4v"].

Definition deniedExtensions : list string :=
  ["0xe"; "73k"; "89k"; "a6p"; "ac"; "acc"; "acr"; "actm"; "action"; "ahk"; "air"; "apk"; "app"; "arscript";
   "as"; "asb"; "awk"; "azw2"; "bat"; "beam"; "bin"; "btm"; "cel"; "celx"; "chm"; "cmd"; "cof"; "com";
   "command"; "cpl"; "crt"; "csh"; "dek"; "dld"; "dmc"; "docm"; "dotm"; "dxl"; "ear"; "ebm"; "ebs"; "ebs2";
   "ecf"; "eham"; "elf"; "es"; "ex4"; "exe"; "exopc"; "ezs"; "fas"; "fileloc"; "fky"; "fpi"; "frs"; "fxp";
   "gadget"; "gs"; "ham"; "hms"; "hpf"; "hta"; "iim"; "inc"; "inetloc"; "inf1"; "ins"; "inx"; "ipa"; "ipf";
   "isp"; "isu"; "jar"; "job"; "js"; "jse"; "jsx"; "kix"; "ksh"; "lnk"; "lo"; "ls"; "mam"; "mcr"; "mel";
   "mpx"; "mrc"; "ms"; "msc"; "msi"; "msp"; "mst"; "mxe"; "nexe"; "obs"; "ore"; "osx"; "otm"; "out"; "paf";
   "pex"; "php"; "pif"; "plx"; "potm"; "ppam"; "ppsm"; "pptm"; "prc"; "prg"; "ps1"; "pvd"; "pwc"; "pyc";
   "pyo"; "qpx"; "rbx"; "reg"; "rgs"; "rox"; "rpj"; "run"; "s2a"; "sbs"; "sca"; "scar"; "scb"; "scr";
   "script"; "sct"; "sh"; "shb"; "shs"; "smm"; "spr"; "tcp"; "thm"; "tlb"; "tms"; "u3p"; "udf"; "upx";
   "url"; "vb"; "vbe"; "vbs"; "vbscript"; "vlx"; "vpm"; "wcm"; "webloc"; "widget"; "wiz"; "workflow"; "wpk";
   "wpm"; "ws"; "wsf"; "xap"; "xbap"; "xlam"; "xlm"; "xlsm"; "xltm"; "xqt"; "xys"; "zl9"].

(** [path.Ext]: from the last dot of the last element, or empty. *)
Fixpoint Ext (s : string) : string :=
  match s with
  | EmptyString => ""
  | String.String c rest =>
      let later := Ext rest in
      if negb (later =? "")%string then later
      else if Ascii.eqb c "."%char && negb (existsb (Z.eqb 47) (stringBytes rest)) then s
      else ""
  end.

Definition TrimDot (s : string) : string :=
  match s with String.String "." rest => rest | _ => s end.

Definition IsControl (r : Z) : bool := ((0 <=? r) && (r <=? 31)) || ((127 <=? r) && (r <=? 159)).

Record Upload := mkUpload {
  up_Type : Z;
  up_Name : string;
  up_Extension : string;
  up_Data : bytes;
  up_Checksum : string;
  up_Comment : string;
}.

Definition nameInvalid (name : string) : bool :=
  (name =? "")%string || (name =? ".")%string || (name =? "..")%string || (maxUploadName <? len name)
  || negb (ValidString name) || existsb (fun b => (b =? 47) || (b =? 92)) (stringBytes name)
  || existsb IsControl (runes name).

Definition Upload_valid (u : Upload) : bool :=
  ((up_Type u =? messagetype.File) || (up_Type u =? messagetype.Video)) && (0 <? size (up_Data u))
  && nonempty (up_Name u) && (len (up_Checksum u) =? 40).

Section Media.
Context `{Bson} `{Json} `{MediaLib}.

Definition ClassifyUpload (name comment : string) : res MediaError Upload :=
  let name := NFC name in
  if nameInvalid name then Err ErrInvalidUpload else
  let ext := ToLower (TrimDot (Ext name)) in
  if existsb (String.eqb ext) deniedExtensions then Err ErrDeniedExtension else
  let typ := if existsb (String.eqb ext) videoExtensions then messagetype.Video else messagetype.File in
  if (typ =? messagetype.File) && nonempty comment then Err ErrCaptionNotSupported
  else if negb (ValidCaption comment) then Err ErrInvalidCaption
  else Ok (mkUpload typ name ext [] "" comment).

Definition PrepareUpload (name : string) (data : bytes) (comment : string) : res MediaError Upload :=
  if size data =? 0 then Err ErrInvalidUpload
  else if MaxUploadBytes <? size data then Err ErrUploadTooLarge
  else
    let! u := ClassifyUpload name comment in
    Ok (mkUpload (up_Type u) (up_Name u) (up_Extension u) data (sha1Hex data) (up_Comment u)).

Record UploadShipRequest := mkUploadShipRequest { us_ChatID : Z; us_Upload : Upload }.

Definition mediaFields : Reader MediaError := mkReader ErrInvalidMediaResponse false.

Definition UploadShipRequest_MarshalBSON (r : UploadShipRequest) : res MediaError Raw :=
  let u := us_Upload r in
  if (us_ChatID r <=? 0) || negb (Upload_valid u) then Err ErrInvalidUpload
  else Ok (Marshal [("c", VInt64 (us_ChatID r)); ("t", VInt32 (up_Type u)); ("s", VInt64 (size (up_Data u)));
                    ("cs", VString (up_Checksum u)); ("e", VString (up_Extension u)); ("ex", VString "{}")]).

(** The extra JSON of a caption. *)
Definition captionExtra (comment : string) : res MediaError string :=
  if nonempty comment then
    match json_Marshal [("cmt", JString comment)] with
    | Some encoded => Ok encoded
    | None => Err ErrInvalidCaption
    end
  else Ok "{}".

Record UploadPostRequest := mkUploadPostRequest {
  upr_UserID : Z;
  upr_Key : string;
  upr_ChatID : Z;
  upr_Upload : Upload;
  upr_AppVersion : string;
  upr_MediaID : Z;
}.

Definition UploadPostRequest_MarshalBSON (r : UploadPostRequest) : res MediaError Raw :=
  let u := upr_Upload r in
  if (upr_UserID r <=? 0) || (upr_ChatID r <=? 0) || negb (nonempty (upr_Key r))
     || negb (nonempty (upr_AppVersion r)) || (upr_MediaID r <=? 0) || negb (Upload_valid u)
  then Err ErrInvalidUpload
  else
    let! extra := captionExtra (up_Comment u) in
    Ok (Marshal
      [("u", VInt64 (upr_UserID r)); ("k", VString (upr_Key r)); ("t", VInt32 (up_Type u));
       ("s", VInt64 (size (up_Data u))); ("c", VInt64 (upr_ChatID r)); ("mid", VInt64 (upr_MediaID r));
       ("w", VInt32 0); ("h", VInt32 0); ("mm", VString "99999"); ("nt", VInt32 0); ("os", VString "mac");
       ("av", VString (upr_AppVersion r)); ("ex", VString extra); ("f", VString (up_Name u));
       ("ns", VBoolean false); ("dt", VInt32 4); ("scp", VInt32 1)]).

(** ** Photos *)

Record Image := mkImage {
  im_Data : bytes;
  im_Extension : string;
  im_Width : Z;
  im_Height : Z;
  im_Checksum : string;
}.

Definition sideBad (n : Z) : bool := (n <=? 0) || (2 ^ 20 <? n).

Definition PrepareImage (data : bytes) : res MediaError Image :=
  if (size data =? 0) || (MaxImageBytes <? size data) then Err ErrInvalidImage else
  match DecodeConfig data with
  | None => Err ErrInvalidImage
  | Some (width, height, format) =>
      if sideBad width || sideBad height then Err ErrInvalidImage else
      let image ext := Ok (mkImage data ext width height (sha1Hex data)) in
      if (format =? "jpeg")%string then image "jpg"
      else if (format =? "png")%string then image "png"
      else Err ErrUnsupportedImage
  end.

Record ShipRequest := mkShipRequest { sr_ChatID : Z; sr_Image : Image }.

Definition ShipRequest_MarshalBSON (r : ShipRequest) : res MediaError Raw :=
  let i := sr_Image r in
  if (sr_ChatID r <=? 0) || (size (im_Data i) =? 0) || negb (nonempty (im_Extension i))
     || negb (nonempty (im_Checksum i))
  then Err ErrInvalidImage
  else Ok (Marshal [("c", VInt64 (sr_ChatID r)); ("t", VInt32 messagetype.Photo); ("s", VInt64 (size (im_Data i)));
                    ("cs", VString (im_Checksum i)); ("e", VString (im_Extension i)); ("ex", VString "{}")]).

Record ShipResponse := mkShipResponse { sh_Redirect : bool; sh_Key : string; sh_Host : string; sh_Port : Z }.

(** A required string that is not empty. *)
Definition shipString (raw : Raw) (key : string) : res MediaError string :=
  let r := Bson.String mediaFields raw [key] in
  match r with
  | Ok (Some s) => if nonempty s then Ok s else Err (ResponseError ShipCommand (fieldReason key r))
  | _ => Err (ResponseError ShipCommand (fieldReason key r))
  end.

Definition portBad (port : Z) : bool := (port <=? 0) || (65535 <? port).

Definition DecodeShipResponse (raw : Raw) : res MediaError ShipResponse :=
  if negb (Validate raw) then Err (ResponseError ShipCommand "bson") else
  match Bson.Bool mediaFields raw ["rd"] with
  | Err _ => Err (ResponseError ShipCommand "rd_type")
  | Ok (Some true) => Ok (mkShipResponse true "" "" 0)
  | Ok _ =>
      let! key := shipString raw "k" in
      let! host := shipString raw "vh" in
      let r := Int64 mediaFields raw ["p"] in
      match r with
      | Ok (Some port) =>
          if portBad port then Err (ResponseError ShipCommand (fieldReason "p" r))
          else Ok (mkShipResponse false key host port)
      | _ => Err (ResponseError ShipCommand (fieldReason "p" r))
      end
  end.

Record PostRequest := mkPostRequest {
  pr_UserID : Z;
  pr_Key : string;
  pr_ChatID : Z;
  pr_Image : Image;
  pr_AppVersion : string;
  pr_MediaID : Z;
  pr_Comment : string;
}.

Definition PostRequest_MarshalBSON (r : PostRequest) : res MediaError Raw :=
  let i := pr_Image r in
  if (pr_UserID r <=? 0) || (pr_ChatID r <=? 0) || negb (nonempty (pr_Key r))
     || negb (nonempty (pr_AppVersion r)) || (pr_MediaID r <=? 0) || (size (im_Data i) =? 0)
  then Err ErrInvalidImage
  else if negb (ValidCaption (pr_Comment r)) then Err ErrInvalidCaption
  else
    let! extra := captionExtra (pr_Comment r) in
    Ok (Marshal
      [("u", VInt64 (pr_UserID r)); ("k", VString (pr_Key r)); ("t", VInt32 messagetype.Photo);
       ("s", VInt64 (size (im_Data i))); ("c", VInt64 (pr_ChatID r)); ("mid", VInt64 (pr_MediaID r));
       ("w", VInt32 (im_Width i)); ("h", VInt32 (im_Height i)); ("mm", VString "99999"); ("nt", VInt32 0);
       ("os", VString "mac"); ("av", VString (pr_AppVersion r)); ("ex", VString extra); ("ns", VBoolean false);
       ("dt", VInt32 4); ("scp", VInt32 1)]).

(** Where to resume the upload of [total] bytes. *)
Definition DecodePostOffset (raw : Raw) (total : Z) : res MediaError Z :=
  match Int64 mediaFields raw ["o"] with
  | Err _ => Err ErrInvalidOffset
  | Ok None => Ok 0
  | Ok (Some offset) => if (offset <? 0) || (total <? offset) then Err ErrInvalidOffset else Ok offset
  end.

(** [SendResult] is its [ChatLog]; [None] is nil. *)
Definition SendResultPosition (chatLog : option Raw) : res MediaError (Z * Z) :=
  match chatLog with
  | None => Err ErrInvalidMediaResponse
  | Some log =>
      match Int64 mediaFields log ["logId"] with
      | Ok (Some logID) =>
          if logID <=? 0 then Err ErrInvalidMediaResponse else
          match Int64 mediaFields log ["sendAt"] with
          | Ok (Some sendAt) => if sendAt <=? 0 then Err ErrInvalidMediaResponse else Ok (logID, sendAt)
          | _ => Err ErrInvalidMediaResponse
          end
      | _ => Err ErrInvalidMediaResponse
      end
  end.

Definition DecodeComplete (raw : Raw) : res MediaError Raw :=
  match LookupErr raw "chatLog" with
  | None => Err (ResponseError CompleteCommand "chatLog_missing")
  | Some (VDocument chatLog) =>
      if Validate chatLog then Ok chatLog else Err (ResponseError CompleteCommand "chatLog_bson")
  | Some _ => Err (ResponseError CompleteCommand "chatLog_type")
  end.

(** ** Albums *)

Record AlbumShipRequest := mkAlbumShipRequest { as_ChatID : Z; as_Images : list Image }.

Definition albumSizeBad (n : Z) : bool := (n <? MinAlbumPhotos) || (MaxAlbumPhotos <? n).

Definition AlbumShipRequest_MarshalBSON (r : AlbumShipRequest) : res MediaError Raw :=
  let images := as_Images r in
  if (as_ChatID r <=? 0) || albumSizeBad (Z.of_nat (length images)) then Err ErrInvalidAlbum
  else if existsb (fun i => (size (im_Data i) =? 0) || negb (nonempty (im_Extension i))
                            || negb (len (im_Checksum i) =? 40)) images
  then Err ErrInvalidAlbum
  else Ok (Marshal
    [("c", VInt64 (as_ChatID r)); ("t", VInt32 messagetype.MultiPhoto);
     ("sl", VArray (MarshalArray ((fun i => VInt64 (size (im_Data i))) <$> images)));
     ("csl", VArray (MarshalArray ((fun i => VString (im_Checksum i)) <$> images)));
     ("el", VArray (MarshalArray ((fun i => VString (im_Extension i)) <$> images)));
     ("ex", VString "{}")]).

Record AlbumShipResponse := mkAlbumShipResponse {
  ash_Keys : list string;
  ash_MIMEs : list string;
  ash_Hosts : list string;
  ash_Ports : list Z;
}.

(** An array of [count] elements, each read by [read]. *)
Definition listOf {A} (read : Value Raw -> option A) (raw : Raw) (key : string) (count : nat)
  : res MediaError (list A) :=
  match LookupErr raw key with
  | Some (VArray a) =>
      match Values a with
      | Some elements =>
          if negb (length elements =? count)%nat then Err ErrInvalidMediaResponse else
          match mapM read elements with
          | Some out => Ok out
          | None => Err ErrInvalidMediaResponse
          end
      | None => Err ErrInvalidMediaResponse
      end
  | _ => Err ErrInvalidMediaResponse
  end.

Definition readText (v : Value Raw) : option string :=
  match v with VString s => if nonempty s then Some s else None | _ => None end.

Definition readPort (v : Value Raw) : option Z :=
  match Int64Value v with
  | Some port => if portBad port then None else Some port
  | None => None
  end.

Definition stringList : Raw -> string -> nat -> res MediaError (list string) := listOf readText.

Definition DecodeAlbumShipResponse (raw : Raw) (count : nat) : res MediaError AlbumShipResponse :=
  let! keys := stringList raw "kl" count in
  let! mimes := stringList raw "mtl" count in
  let! hosts := stringList raw "vhl" count in
  let! ports := listOf readPort raw "pl" count in
  Ok (mkAlbumShipResponse keys mimes hosts ports).

Record AlbumPostRequest := mkAlbumPostRequest {
  ap_UserID : Z;
  ap_Key : string;
  ap_Image : Image;
  ap_AppVersion : string;
}.

Definition AlbumPostRequest_MarshalBSON (r : AlbumPostRequest) : res MediaError Raw :=
  if (ap_UserID r <=? 0) || negb (nonempty (ap_Key r)) || negb (nonempty (ap_AppVersion r))
     || (size (im_Data (ap_Image r)) =? 0)
  then Err ErrInvalidAlbum
  else Ok (Marshal
    [("u", VInt64 (ap_UserID r)); ("k", VString (ap_Key r)); ("t", VInt32 messagetype.MultiPhoto);
     ("s", VInt64 (size (im_Data (ap_Image r)))); ("scp", VInt32 1); ("mm", VString "99999"); ("nt", VInt32 0);
     ("os", VString "mac"); ("av", VString (ap_AppVersion r)); ("dt", VInt32 2)]).

(** The struct that is marshalled: one entry per photo in every list, and a
    caption on the first. *)
Definition albumExtra (images : list Image) (ship : AlbumShipResponse) (caption : string)
  : list (string * JsonValue) :=
  [("kl", JStrings (ash_Keys ship)); ("wl", JInts (im_Width <$> images)); ("hl", JInts (im_Height <$> images));
   ("mtl", JStrings (ash_MIMEs ship)); ("sl", JInts ((fun i => size (im_Data i)) <$> images));
   ("csl", JStrings (im_Checksum <$> images))]
  ++ (if nonempty caption
      then [("cmtl", JStrings (caption :: repeat "" (length images - 1)))] else []).

Definition AlbumWriteExtra (images : list Image) (ship : AlbumShipResponse) (caption : string)
  : res MediaError string :=
  if albumSizeBad (Z.of_nat (length images)) || negb (length (ash_Keys ship) =? length images)%nat
     || negb (length (ash_MIMEs ship) =? length images)%nat || negb (ValidCaption caption)
  then Err ErrInvalidAlbum
  else match json_Marshal (albumExtra images ship caption) with
       | Some encoded => Ok encoded
       | None => Err ErrInvalidAlbum
       end.

(** ** The upload over HTTP that a SHIP redirect selects *)

Definition WriteMediaCommand : string := "WRITEMEDIA".
Definition maxDirectValue : Z := 16384.

Record DirectTicket := mkDirectTicket {
  dt_URL : string;
  dt_Resource : string;
  dt_ResourceType : string;
  dt_UploadKey : string;
  dt_ChunkSize : Z;
  dt_NeedReady : bool;
}.

Record DirectMedia := mkDirectMedia {
  dm_MediaType : string;
  dm_Extension : string;
  dm_MIMEType : string;
  dm_Data : bytes;
}.

Definition ImageDirectMedia (image : Image) : DirectMedia :=
  mkDirectMedia "image" (im_Extension image)
    (if (im_Extension image =? "png")%string then "image/png" else "image/jpeg") (im_Data image).

Definition directVideoMIME : list (string * string) :=
  [("ts", "video/mp2t"); ("ogv", "video/ogg"); ("flv", "video/x-flv"); ("mov", "video/quicktime");
   ("mp4", "video/mp4"); ("mpeg", "video/mpeg"); ("mpg", "video/mpeg"); ("mkv", "video/x-matroska");
   ("wmv", "video/x-ms-wmv"); ("asf", "video/x-ms-asf"); ("avi", "video/x-msvideo"); ("m4v", "video/x-m4v")].

Definition UploadDirectMedia (u : Upload) : res MediaError DirectMedia :=
  if negb (Upload_valid u) then Err ErrInvalidUpload
  else if negb (nonempty (up_Extension u)) then Err ErrUploadRedirect
  else
    let octets := "application/octet-stream" in
    if up_Type u =? messagetype.Video
    then Ok (mkDirectMedia "video" (up_Extension u)
               (default octets (assoc (up_Extension u) directVideoMIME)) (up_Data u))
    else Ok (mkDirectMedia "file" (up_Extension u) octets (up_Data u)).

Definition safeDirectValue (s : string) : bool :=
  nonempty s && (len s <=? maxDirectValue) && ValidString s
  && negb (existsb (fun b => (b =? 0) || (b =? 13) || (b =? 10)) (stringBytes s)).

Definition DirectMedia_valid (m : DirectMedia) : bool :=
  let fits limit := (0 <? size (dm_Data m)) && (size (dm_Data m) <=? limit)
                    && safeDirectValue (dm_Extension m) && safeDirectValue (dm_MIMEType m) in
  if (dm_MediaType m =? "image")%string then fits MaxImageBytes
  else if (dm_MediaType m =? "video")%string || (dm_MediaType m =? "file")%string then fits MaxUploadBytes
  else false.

Fixpoint dropWhile (f : Z -> bool) (l : bytes) : bytes :=
  match l with
  | [] => []
  | b :: rest => if f b then dropWhile f rest else l
  end.

Fixpoint takeWhile (f : Z -> bool) (l : bytes) : bytes :=
  match l with
  | [] => []
  | b :: rest => if f b then b :: takeWhile f rest else []
  end.

(** [path.Base]: the last element without trailing slashes. *)
Definition Base (p : string) : string :=
  match stringBytes p with
  | [] => "."
  | l =>
      let trimmed := reverse (dropWhile (Z.eqb 47) (reverse l)) in
      match trimmed with
      | [] => "/"
      | _ => bytesString (reverse (takeWhile (fun b => negb (b =? 47)) (reverse trimmed)))
      end
  end.

Definition filename (t : DirectTicket) : res MediaError string :=
  match url_Parse (dt_Resource t) with
  | None => Err ErrInvalidMediaResponse
  | Some u =>
      if nonempty (Scheme u) || nonempty (Host u) || HasUser u || nonempty (RawQuery u) || nonempty (Fragment u)
      then Err ErrInvalidMediaResponse
      else
        let name := Base (Path u) in
        if (name =? ".")%string || (name =? "/")%string || negb (safeDirectValue name)
           || existsb (fun b => (b =? 92) || (b =? 34)) (stringBytes name)
        then Err ErrInvalidMediaResponse
        else Ok name
  end.

Definition uploadURL (t : DirectTicket) : res MediaError URL :=
  match url_Parse (dt_URL t) with
  | None => Err ErrUnsafeURL
  | Some u =>
      if negb (Scheme u =? "https")%string || negb (Host u =? "kage.talk.kakao.com")%string || HasUser u
         || nonempty (Fragment u) || negb (String.prefix "/offset-up/" (Path u))
      then Err ErrUnsafeURL
      else Ok u
  end.

(** What [PrepareDirect] requires of the decoded ticket. *)
Definition checkTicket (t : DirectTicket) : res MediaError DirectTicket :=
  if negb (dt_ResourceType t =? "vk")%string || (dt_ChunkSize t <=? 0) then Err ErrUploadRedirect
  else if (MaxUploadBytes <? dt_ChunkSize t) || negb (safeDirectValue (dt_UploadKey t))
          || negb (safeDirectValue (dt_Resource t))
  then Err ErrInvalidMediaResponse
  else
    let! _ := filename t in
    let! _ := uploadURL t in
    Ok t.

(** The decoded acknowledgement of one chunk. *)
Record chunkInfo := mkChunkInfo { ci_Filename : string; ci_Length : Z; ci_ContentType : string }.
Record chunkAck := mkChunkAck { ck_Offset : option Z; ck_Message : string; ck_Info : option (list chunkInfo) }.

(** [decodeDirectUpload]; [ck_Offset] is the parsed offset, [None] when it is
    not a number. *)
Definition decodeDirectUpload (response : chunkAck) (mediaType name : string) (total next : Z) (final : bool)
  : option MediaError :=
  if negb final then
    match ck_Offset response with
    | Some offset => if offset =? next then None else Some ErrInvalidOffset
    | None => Some ErrInvalidOffset
    end
  else if negb (ck_Message response =? "ok")%string then Some ErrInvalidMediaResponse
  else
    let image := (mediaType =? "image")%string in
    match ck_Info response with
    | None => if image then Some ErrInvalidMediaResponse else None
    | Some [info] =>
        if negb (ci_Filename info =? name)%string || negb (ci_Length info =? total) then Some ErrInvalidMediaResponse
        else if image && negb (ci_ContentType info =? "image")%string then Some ErrInvalidMediaResponse
        else None
    | Some _ => Some ErrInvalidMediaResponse
    end.

Record DirectReady := mkDirectReady {
  rd_Status : Z;
  rd_IntervalMS : Z;
  rd_MaxWaitSeconds : Z;
  rd_JobID : string;
}.

Definition DirectReadyDone : Z := 1.

(** What [CheckDirectReady] requires of the decoded reply. *)
Definition readyBad (r : DirectReady) : bool :=
  (rd_IntervalMS r <? 0) || (rd_MaxWaitSeconds r <? 0)
  || (nonempty (rd_JobID r) && negb (safeDirectValue (rd_JobID r))).

Definition writable (t : DirectTicket) : bool :=
  safeDirectValue (dt_Resource t) && safeDirectValue (dt_UploadKey t) && (dt_ResourceType t =? "vk")%string.

Definition directWrite (chatID messageID messageType : Z) (mediaKey : string) (media : list (string * Value Raw))
    (caption : string) : Raw :=
  Marshal
    ([("chatId", VInt64 chatID); ("msgId", VInt64 messageID); ("scope", VInt32 1); ("type", VInt32 messageType);
      ("noSeen", VBoolean false); ("noLight", VBoolean false); ("silence", VBoolean false);
      (mediaKey, VDocument (Marshal media))]
     ++ optional (nonempty caption) "extra" (VString (default "" (json_Marshal [("cmt", JString caption)])))).

Definition ticketMedia (t : DirectTicket) : list (string * Value Raw) :=
  [("resource", VString (dt_Resource t)); ("resourceType", VString (dt_ResourceType t));
   ("hfac", VString (dt_UploadKey t))].

Record DirectPhotoWriteRequest := mkDirectPhotoWriteRequest {
  dp_ChatID : Z;
  dp_MessageID : Z;
  dp_Image : Image;
  dp_Ticket : DirectTicket;
  dp_Caption : string;
}.

Definition DirectPhotoWriteRequest_MarshalBSON (r : DirectPhotoWriteRequest) : res MediaError Raw :=
  let i := dp_Image r in
  if (dp_ChatID r <=? 0) || (dp_MessageID r <? 0) || (im_Width i <=? 0) || (im_Height i <=? 0)
     || negb (writable (dp_Ticket r))
  then Err ErrInvalidImage
  else if negb (ValidCaption (dp_Caption r)) then Err ErrInvalidCaption
  else Ok (directWrite (dp_ChatID r) (dp_MessageID r) messagetype.Photo "photo"
             (ticketMedia (dp_Ticket r) ++ [("width", VInt32 (im_Width i)); ("height", VInt32 (im_Height i))])
             (dp_Caption r)).

Record DirectUploadWriteRequest := mkDirectUploadWriteRequest {
  du_ChatID : Z;
  du_MessageID : Z;
  du_Upload : Upload;
  du_Ticket : DirectTicket;
}.

Definition DirectUploadWriteRequest_MarshalBSON (r : DirectUploadWriteRequest) : res MediaError Raw :=
  let u := du_Upload r in
  if (du_ChatID r <=? 0) || (du_MessageID r <? 0) || negb (Upload_valid u) || negb (writable (du_Ticket r))
  then Err ErrInvalidUpload
  else if up_Type u =? messagetype.Video then
    if negb (ValidCaption (up_Comment u)) then Err ErrInvalidCaption
    else Ok (directWrite (du_ChatID r) (du_MessageID r) messagetype.Video "video" (ticketMedia (du_Ticket r))
               (up_Comment u))
  else if up_Type u =? messagetype.File then
    if nonempty (up_Comment u) then Err ErrCaptionNotSupported
    else Ok (directWrite (du_ChatID r) (du_MessageID r) messagetype.File "file"
               (ticketMedia (du_Ticket r)
                ++ [("name", VString (up_Name u)); ("checksum", VString (ToLower (up_Checksum u)))]) "")
  else Err ErrInvalidUpload.

Definition DecodeDirectWrite (raw : Raw) (chatID : Z) : res MediaError (option Raw) :=
  match Int64 mediaFields raw ["chatId"] with
  | Ok (Some id) =>
      if negb (id =? chatID) then Err (ResponseError WriteMediaCommand "chatId") else
      match Document mediaFields raw ["chatLog"] with
      | Err _ => Err (ResponseError WriteMediaCommand "chatLog_type")
      | Ok log =>
          let log := default raw log in
          match SendResultPosition (Some log) with
          | Err _ => Err (ResponseError WriteMediaCommand "position")
          | Ok _ => Ok (Some log)
          end
      end
  | _ => Err (ResponseError WriteMediaCommand "chatId")
  end.
End Media.
