(* ===== verification/Sending.v ===== *)
(** * Sending one message (src/internal/client/chat.go, modify.go, media.go,
      media_direct.go, and [call] and [request] of session.go)

    What the bridge does for one Matrix event is a program: a tree whose nodes
    are the operations it performs on the outside and whose branches are the
    answers.  This file has the operations of the client and of the connector,
    and the programs of the client; Outbound.v has the connector's.

    A request over the session is [Roundtrip], which is answered with the body of
    the reply or not at all.  A media server is reached over a connection of its
    own.  The requests over HTTP are answered with the decoded reply. *)

From S2P Require Import Prelude Bytes Text Bson ChatLog ChatPackets MediaUpload.
From S2P Require SourceAccess.

#[local] Open Scope string_scope.
#[local] Open Scope list_scope.
#[local] Open Scope Z_scope.

(** ** Errors *)

(** The errors the code tells apart with [errors.Is]; [ErrTransport] stands for
    those of the network, of a closed session and of a context. *)
Inductive sentinel :=
| Chat (e : ChatPackets.Error)
| Media (e : MediaError)
| ErrTransport | ErrProtocol | ErrStatusReply
| ErrPhotoNotCreated | ErrUploadNotSent | ErrAlbumNotCreated | ErrDirectReadyTimeout
| OutOfFuel (* the poll of [waitDirectReady] did not end; never returned, see SendingTheorems.v *)
| Access (e : SourceAccess.AccessError)
| ErrInvalidID | ErrStore
| ErrMissingReplyMetadata | ErrInvalidReplyTarget | ErrCrossChatReply | ErrReplySenderMismatch
| ErrCallReplyTarget | ErrLeverageReplyTarget
| ErrEditNotAllowed | ErrDeleteNotAllowed | ErrCallDeleteNotSupported | ErrLeverageDeleteNotSupported
| ErrOutboundAlreadyAttempted | ErrNoEventIdentity
| ErrUnsupportedImageReply | ErrUnsupportedUploadReply
| ErrUnsupportedMessageType | ErrNotLoggedIn | ErrFailedToGetIntent
| ErrDownload | ErrWithoutPosition
| ErrInviteNotRegularGroup | ErrInviteRefused | ErrInviteUnconfirmed | ErrChatInfoMismatch.

#[global] Instance SourceAccessError_eq_dec : EqDecision SourceAccess.AccessError.
Proof. solve_decision. Defined.
#[global] Instance ChatError_eq_dec : EqDecision ChatPackets.Error.
Proof. solve_decision. Defined.
#[global] Instance MediaError_eq_dec : EqDecision MediaError.
Proof. solve_decision. Defined.
#[global] Instance sentinel_eq_dec : EqDecision sentinel.
Proof. solve_decision. Defined.

(** An error is what it wraps: the sentinels of its chain, and the
    [client.StatusError] in it, a status the server answered a command with. *)
Record goerror := mkError { chain : list sentinel; status : option (string * Z) }.

Definition errorOf (e : sentinel) : goerror := mkError [e] None.
Definition statusError (command : string) (n : Z) : goerror := mkError [ErrStatusReply] (Some (command, n)).
Definition wrap (e : sentinel) (err : goerror) : goerror := mkError (e :: chain err) (status err).
Definition Is (err : goerror) (e : sentinel) : bool := bool_decide (e ∈ chain err).

Definition chatErr {A} (r : res ChatPackets.Error A) : res goerror A :=
  match r with Ok a => Ok a | Err e => Err (errorOf (Chat e)) end.
Definition mediaErr {A} (r : res MediaError A) : res goerror A :=
  match r with Ok a => Ok a | Err e => Err (errorOf (Media e)) end.

(** ** Operations *)

Section Programs.
Context `{Bson} `{Json} `{MediaLib}.

(** A packet of a media connection. *)
Record packet := mkPacket { pk_Method : string; pk_Body : Raw }.

(** A stored part of a bridged message. *)
Record KakaoMessageMetadata := mkMeta {
  km_ChatID : Z;
  km_LogID : Z;
  km_AuthorID : Z;
  km_Type : Z;
  km_Preview : string;
  km_LinkID : Z;
  km_ConversionGap : string;
  km_GapReason : string;
  km_ReactionRevision : Z;
  km_MiniReactionRevision : Z;
  km_Revision : Z;
  km_ReplyUnavailable : bool;
  km_ReactionUnavailable : bool;
}.

(** The dynamic type of a part's metadata; a pointer can be nil. *)
Inductive metadata := MetaPointer (m : option KakaoMessageMetadata) | MetaValue (m : KakaoMessageMetadata) | MetaOther.

Record dbMessage := mkDbMessage {
  db_ID : string;
  db_PartID : string;
  db_Room : Identifiers.PortalKey;
  db_SenderID : string;
  db_Timestamp : Z; (* nanoseconds *)
  db_Metadata : metadata;
}.

(** What the connector reads of a chat's stored or fetched data. *)
Record chatData := mkChatData { cd_ChatID : Z; cd_Type : string; cd_LinkID : Z; cd_MetaTypes : list Z }.

Inductive op :=
(* the connector *)
| CheckAccess (chatID : Z)
| CurrentClient
| GetIntent
| Download (source : string)
| Now
| DeleteOlderThan (prefix stamp : string)
| PutIfAbsent (key value : string)
| MessageParts (id : string)
| UpdateMessage (part : dbMessage)
| RevokeMembership (ghost : string)
| VerifiedRoster (chatID : Z)
| Snapshot (chatID : Z)
| RefreshMembership (chatID : Z) (invitees : option (list Z))
| ChatInfo (chatID : Z)
| MemberList (chatID : Z)
(* the client *)
| EnsureSession
| Roundtrip (command : string) (body : Raw)
| DialMedia (host : string) (port : Z)
| MediaRequest (command : string) (body : Raw)
| Encrypt (frame : bytes)
| WriteFrame (command : string) (frame : bytes)
| ReadPacket (command : string)
| WebPrepare (chatID : Z) (mediaType : string) (total : Z) (extension : string)
| WebChunk (start stop : Z)
| WebReady (prevStatus : Z) (jobID : string)
| Sleep (ns : Z).

(** What each is answered; [None] of an optional reply is a failure of the
    transport. *)
Definition ans (o : op) : Type :=
  match o with
  | CheckAccess _ => option SourceAccess.AccessError
  | CurrentClient | GetIntent => bool
  | Download _ => option bytes
  | Now => Z
  | DeleteOlderThan _ _ => bool (* no error *)
  | PutIfAbsent _ _ => option bool (* inserted *)
  | MessageParts _ => option (list dbMessage)
  | UpdateMessage _ => bool
  | RevokeMembership _ => bool
  | VerifiedRoster _ => list Z
  | Snapshot _ => option chatData
  | RefreshMembership _ _ => unit
  | ChatInfo _ => res goerror chatData
  | MemberList _ => res goerror (list Z)
  | EnsureSession => option goerror
  | Roundtrip _ _ => option Raw
  | DialMedia _ _ => bool
  | MediaRequest _ _ => option (Raw * list packet) (* with the packets that came before the reply *)
  | Encrypt _ => option bytes
  | WriteFrame _ _ => Z * bool (* bytes written, no error *)
  | ReadPacket _ => option packet
  | WebPrepare _ _ _ _ => res goerror DirectTicket
  | WebChunk _ _ => res goerror chunkAck
  | WebReady _ _ => res goerror DirectReady
  | Sleep _ => bool (* not cancelled *)
  end.

Inductive prog (A : Type) : Type :=
| Ret (a : A)
| Vis (o : op) (k : ans o -> prog A).
Arguments Ret {A} a.
Arguments Vis {A} o k.

Fixpoint andThen {A B} (p : prog A) (f : A -> prog B) : prog B :=
  match p with
  | Ret a => f a
  | Vis o k => Vis o (fun a => andThen (k a) f)
  end.

Definition perform (o : op) : prog (ans o) := Vis o Ret.

(** Continue with a value, and return an error. *)
Definition andOk {E A B} (p : prog (res E A)) (f : A -> prog (res E B)) : prog (res E B) :=
  andThen p (fun r => match r with Ok a => f a | Err e => Ret (Err e) end).

Local Notation "'await!' x ':=' p 'in' k" := (andThen p (fun x => k))
  (at level 10, x pattern, p at level 100, k at level 200).
Local Notation "'ok!' x ':=' p 'in' k" := (andOk p (fun x => k))
  (at level 10, x pattern, p at level 100, k at level 200).

(** ** Requests over the session *)

(** [session.request]: the status of the reply is an error unless it is 0. *)
Definition request (command : string) (body : Raw) : prog (res goerror Raw) :=
  await! reply := perform (Roundtrip command body) in
  match reply with
  | None => Ret (Err (errorOf ErrTransport))
  | Some raw =>
      match Status raw with
      | Err _ => Ret (Err (errorOf ErrProtocol))
      | Ok n => if n =? 0 then Ret (Ok raw) else Ret (Err (statusError command n))
      end
  end.

(** [call] of a command that history pacing leaves alone. *)
Definition call {A} (command : string) (body : res ChatPackets.Error Raw)
    (decode : Raw -> res ChatPackets.Error A) : prog (res goerror A) :=
  ok! body := Ret (chatErr body) in
  ok! reply := request command body in
  Ret (chatErr (decode reply)).

(** [withSession]: connects first when there is no session. *)
Definition withSession {A} (p : prog (res goerror A)) : prog (res goerror A) :=
  await! err := perform EnsureSession in
  match err with Some e => Ret (Err e) | None => p end.

Definition textRequest (chatID : Z) (message : string) : WriteRequest :=
  mkWriteRequest chatID 0 0 0 message messagetype.Text false false "" "" false "".

Definition session_SendText (chatID : Z) (message : string) : prog (res goerror WriteResponse) :=
  let r := textRequest chatID message in
  match WriteRequest_Validate r with
  | Some e => Ret (Err (errorOf (Chat e)))
  | None => call "WRITE" (WriteRequest_MarshalBSON r) DecodeWriteResponse
  end.

Definition session_SendReply (r : ReplyRequest) : prog (res goerror WriteResponse) :=
  call "WRITE" (ReplyRequest_MarshalBSON r) DecodeWriteResponse.

Definition session_AddMembers (r : AddMembersRequest) : prog (res goerror AddMembersResponse) :=
  call "ADDMEM" (AddMembersRequest_MarshalBSON r) DecodeAddMembersResponse.

Definition session_CreateChat (r : CreateRequest) : prog (res goerror CreateResponse) :=
  call "CREATE" (CreateRequest_MarshalBSON r) DecodeCreateResponse.

Definition session_ModifyMessage (r : ModifyRequest) : prog (res goerror Z) :=
  call "MODIFYMSG" (ModifyRequest_MarshalBSON r) (fun body => DecodeModifyResponse body (mr_LogID r)).

Definition session_DeleteMessage (r : DeleteRequest) : prog (res goerror unit) :=
  call "DELETEMSG" (DeleteRequest_MarshalBSON r) (fun _ => Ok tt).

Definition session_EditSource (chatID logID : Z) : prog (res goerror EditSource) :=
  call "GETMSGS" (GetMessagesRequest_MarshalBSON (mkGetMessagesRequest chatID [logID]))
    (fun body => DecodeEditSource body logID).

(** ** An upload to a media server *)

Definition mediaStreamChunk : Z := 4096.
Definition requestLimit : nat := 64.
Definition PostCommand : string := "POST".
Definition AlbumPostCommand : string := "MPOST".
Definition AlbumShipCommand : string := "MSHIP".

Definition notSent {A} (err : goerror) : res goerror A := Err (wrap ErrUploadNotSent err).

(** The frames of a stream, each of [mediaStreamChunk] bytes but the last. *)
Fixpoint framesOf (fuel : nat) (data : bytes) : list bytes :=
  match fuel, data with
  | S fuel, _ :: _ => take (Z.to_nat mediaStreamChunk) data
                      :: framesOf fuel (drop (Z.to_nat mediaStreamChunk) data)
  | _, _ => []
  end.

(** The loop that streams; [streamed] is whether a frame was written before. *)
Fixpoint stream (command : string) (streamed : bool) (frames : list bytes) : prog (res goerror unit) :=
  match frames with
  | [] => Ret (Ok tt)
  | frame :: frames =>
      await! encrypted := perform (Encrypt frame) in
      match encrypted with
      | None => Ret (if streamed then Err (errorOf ErrTransport) else notSent (errorOf ErrTransport))
      | Some encrypted =>
          await! (written, done) := perform (WriteFrame command encrypted) in
          if done then stream command true frames
          else Ret (if negb streamed && (written =? 0) then notSent (errorOf ErrTransport)
                    else Err (errorOf ErrTransport))
      end
  end.

(** The wait for COMPLETE. *)
Fixpoint awaitComplete (command : string) (reads : nat) : prog (res goerror packet) :=
  match reads with
  | O => Ret (Err (errorOf ErrProtocol))
  | S reads =>
      await! p := perform (ReadPacket command) in
      match p with
      | None => Ret (Err (errorOf ErrTransport))
      | Some p => if (pk_Method p =? CompleteCommand)%string then Ret (Ok p) else awaitComplete command reads
      end
  end.

Definition uploadToMediaServer (host : string) (port : Z) (command : string) (postBody : Raw) (data : bytes)
  : prog (res goerror packet) :=
  await! dialed := perform (DialMedia host port) in
  if negb dialed then Ret (notSent (errorOf ErrTransport)) else
  await! reply := perform (MediaRequest command postBody) in
  match reply with
  | None => Ret (notSent (errorOf ErrTransport))
  | Some (body, pending) =>
      match Status body with
      | Err _ => Ret (notSent (errorOf ErrProtocol))
      | Ok n =>
          if negb (n =? 0) then Ret (notSent (statusError command n)) else
          match DecodePostOffset body (size data) with
          | Err e => Ret (notSent (errorOf (Media e)))
          | Ok offset =>
              ok! _ := stream command false (framesOf (length data) (drop (Z.to_nat offset) data)) in
              match List.find (fun p => pk_Method p =? CompleteCommand)%string pending with
              | Some p => Ret (Ok p)
              | None => awaitComplete command requestLimit
              end
          end
      end
  end.

Definition decodeMediaComplete (p : packet) : res goerror (option Raw) :=
  match Status (pk_Body p) with
  | Err _ => Err (errorOf ErrProtocol)
  | Ok n =>
      if negb (n =? 0) then Err (statusError CompleteCommand n) else
      match mediaErr (DecodeComplete (pk_Body p)) with
      | Ok log => Ok (Some log)
      | Err e => Err e
      end
  end.

Definition trailerUpload (shipBody : Raw) (data : bytes) (post : string -> prog (res MediaError Raw))
  : prog (res goerror (option Raw)) :=
  await! reply := request ShipCommand shipBody in
  match reply with
  | Err e => Ret (notSent e)
  | Ok raw =>
      match DecodeShipResponse raw with
      | Err e => Ret (notSent (errorOf (Media e)))
      | Ok ship =>
          if sh_Redirect ship then Ret (notSent (errorOf (Media ErrUploadRedirect))) else
          await! postBody := post (sh_Key ship) in
          match postBody with
          | Err e => Ret (notSent (errorOf (Media e)))
          | Ok postBody =>
              ok! complete := uploadToMediaServer (sh_Host ship) (sh_Port ship) PostCommand postBody data in
              Ret (decodeMediaComplete complete)
          end
      end
  end.

(** Who is logged in, of the session's state. *)
Record account := mkAccount { ac_UserID : Z; ac_AppVersion : string }.

Definition millis (ns : Z) : Z := ns / 1000000.

Definition session_SendImage (who : account) (chatID : Z) (data : bytes) (caption : string)
  : prog (res goerror (option Raw)) :=
  if negb (ValidCaption caption) then Ret (Err (errorOf (Media ErrInvalidCaption))) else
  ok! image := Ret (mediaErr (PrepareImage data)) in
  ok! shipBody := Ret (mediaErr (ShipRequest_MarshalBSON (mkShipRequest chatID image))) in
  trailerUpload shipBody (im_Data image) (fun key =>
    await! now := perform Now in
    Ret (PostRequest_MarshalBSON
           (mkPostRequest (ac_UserID who) key chatID image (ac_AppVersion who) (millis now) caption))).

Definition session_SendUpload (who : account) (chatID : Z) (u : Upload) : prog (res goerror (option Raw)) :=
  ok! shipBody := Ret (mediaErr (UploadShipRequest_MarshalBSON (mkUploadShipRequest chatID u))) in
  trailerUpload shipBody (up_Data u) (fun key =>
    await! now := perform Now in
    Ret (UploadPostRequest_MarshalBSON
           (mkUploadPostRequest (ac_UserID who) key chatID u (ac_AppVersion who) (millis now)))).

(** ** Albums *)

Definition notCreated {A} (err : goerror) : res goerror A := Err (wrap ErrAlbumNotCreated err).

(** The photos, in order, each with its slot; the slots are as many
    ([DecodeAlbumShipResponse]). *)
Fixpoint uploadPhotos (who : account) (images : list Image) (keys hosts : list string) (ports : list Z)
  : prog (res goerror unit) :=
  match images, keys, hosts, ports with
  | image :: images, key :: keys, host :: hosts, port :: ports =>
      match AlbumPostRequest_MarshalBSON (mkAlbumPostRequest (ac_UserID who) key image (ac_AppVersion who)) with
      | Err e => Ret (notCreated (errorOf (Media e)))
      | Ok postBody =>
          await! complete := uploadToMediaServer host port AlbumPostCommand postBody (im_Data image) in
          match complete with
          | Err e => Ret (notCreated e)
          | Ok p =>
              match Status (pk_Body p) with
              | Ok 0 => uploadPhotos who images keys hosts ports
              | _ => Ret (notCreated (errorOf ErrProtocol))
              end
          end
      end
  | _, _, _, _ => Ret (Ok tt)
  end.

Fixpoint prepareImages (photos : list bytes) : res MediaError (list Image) :=
  match photos with
  | [] => Ok []
  | data :: photos =>
      let! image := PrepareImage data in
      let! images := prepareImages photos in
      Ok (image :: images)
  end.

Definition albumRequest (chatID : Z) (extra : string) : WriteRequest :=
  mkWriteRequest chatID 0 0 0 "" messagetype.MultiPhoto false false extra "" false "".

Definition session_SendAlbum (who : account) (chatID : Z) (photos : list bytes) (caption : string)
  : prog (res goerror WriteResponse) :=
  ok! images := Ret (mediaErr (prepareImages photos)) in
  ok! shipBody := Ret (mediaErr (AlbumShipRequest_MarshalBSON (mkAlbumShipRequest chatID images))) in
  if negb (ValidCaption caption) then Ret (Err (errorOf (Media ErrInvalidCaption))) else
  await! shipReply := request AlbumShipCommand shipBody in
  match shipReply with
  | Err e => Ret (notCreated e)
  | Ok raw =>
      match DecodeAlbumShipResponse raw (length images) with
      | Err e => Ret (notCreated (errorOf (Media e)))
      | Ok ship =>
          ok! _ := uploadPhotos who images (ash_Keys ship) (ash_Hosts ship) (ash_Ports ship) in
          match AlbumWriteExtra images ship caption with
          | Err e => Ret (notCreated (errorOf (Media e)))
          | Ok extra =>
              match WriteRequest_MarshalBSON (albumRequest chatID extra) with
              | Err e => Ret (notCreated (errorOf (Chat e)))
              | Ok body =>
                  ok! reply := request "WRITE" body in
                  Ret (chatErr (DecodeWriteResponse reply))
              end
          end
      end
  end.

(** ** The upload over HTTP *)

(** [PrepareDirect]; the request is made with the stored credentials, which are
    renewed once when the server refuses them ([webCall]). *)
Definition PrepareDirect (chatID : Z) (m : DirectMedia) : prog (res goerror DirectTicket) :=
  if (chatID <=? 0) || negb (DirectMedia_valid m) then Ret (Err (errorOf (Media ErrInvalidUpload))) else
  ok! ticket := perform (WebPrepare chatID (dm_MediaType m) (size (dm_Data m)) (dm_Extension m)) in
  Ret (mediaErr (checkTicket ticket)).

(** The ranges of the chunks, each of [chunk] bytes but the last. *)
Fixpoint chunkRanges (fuel : nat) (start chunk total : Z) : list (Z * Z) :=
  match fuel with
  | O => []
  | S fuel =>
      if start <? total then
        let stop := Z.min (start + chunk) total in
        (start, stop) :: chunkRanges fuel stop chunk total
      else []
  end.

Fixpoint uploadChunks (mediaType name : string) (total : Z) (ranges : list (Z * Z)) : prog (res goerror unit) :=
  match ranges with
  | [] => Ret (Ok tt)
  | (start, stop) :: ranges =>
      ok! response := perform (WebChunk start stop) in
      match decodeDirectUpload response mediaType name total stop (stop =? total) with
      | Some e => Ret (Err (errorOf (Media e)))
      | None => uploadChunks mediaType name total ranges
      end
  end.

Definition UploadDirect (t : DirectTicket) (m : DirectMedia) : prog (res goerror unit) :=
  if negb (DirectMedia_valid m) || negb (dt_ResourceType t =? "vk")%string || (dt_ChunkSize t <=? 0)
     || (MaxUploadBytes <? dt_ChunkSize t)
  then Ret (Err (errorOf (Media ErrInvalidUpload)))
  else
    ok! name := Ret (mediaErr (filename t)) in
    ok! _ := Ret (mediaErr (uploadURL t)) in
    let total := size (dm_Data m) in
    uploadChunks (dm_MediaType m) name total (chunkRanges (length (dm_Data m)) 0 (dt_ChunkSize t) total).

Definition second : Z := 1000000000.
Definition millisecond : Z := 1000000.
Definition directReadyMaxWait : Z := 600 * second.
Definition directReadyInterval : Z := 5 * second.

Definition CheckDirectReady (chatID : Z) (t : DirectTicket) (prevStatus : Z) (jobID : string)
  : prog (res goerror DirectReady) :=
  if (chatID <=? 0) || negb (safeDirectValue (dt_Resource t)) || negb (safeDirectValue (dt_UploadKey t))
     || negb (dt_ResourceType t =? "vk")%string
  then Ret (Err (errorOf (Media ErrInvalidUpload)))
  else
    ok! ready := perform (WebReady prevStatus jobID) in
    Ret (if readyBad ready then Err (errorOf (Media ErrInvalidMediaResponse)) else Ok ready).

(** [time.Duration(n) * unit] *)
Definition duration (n unit_ : Z) : Z := wrap64 (n * unit_).

Definition waitOf (maxWait : Z) (r : DirectReady) : Z :=
  if 0 <? rd_MaxWaitSeconds r then Z.min (duration (rd_MaxWaitSeconds r) second) directReadyMaxWait else maxWait.

Definition intervalOf (r : DirectReady) : Z :=
  if 0 <? rd_IntervalMS r then duration (rd_IntervalMS r) millisecond else directReadyInterval.

Fixpoint pollReady (polls : nat) (chatID : Z) (t : DirectTicket) (started maxWait prevStatus : Z) (jobID : string)
  : prog (res goerror unit) :=
  match polls with
  | O => Ret (Err (errorOf OutOfFuel))
  | S polls =>
      ok! ready := CheckDirectReady chatID t prevStatus jobID in
      if rd_Status ready =? DirectReadyDone then Ret (Ok tt) else
      let maxWait := waitOf maxWait ready in
      let interval := intervalOf ready in
      await! now := perform Now in
      if maxWait <? wrap64 (now - started + interval) then Ret (Err (errorOf ErrDirectReadyTimeout)) else
      let jobID := if nonempty (rd_JobID ready) then rd_JobID ready else jobID in
      await! slept := perform (Sleep interval) in
      if slept then pollReady polls chatID t started maxWait (rd_Status ready) jobID
      else Ret (Err (errorOf ErrTransport))
  end.

Definition maxPolls : nat := Z.to_nat 600002.

Definition waitDirectReady (chatID : Z) (t : DirectTicket) : prog (res goerror unit) :=
  await! started := perform Now in pollReady maxPolls chatID t started directReadyMaxWait 0 "".

Definition directSend (chatID : Z) (m : DirectMedia) (fail : sentinel)
    (write : DirectTicket -> prog (res MediaError Raw)) : prog (res goerror (option Raw)) :=
  await! prepared := PrepareDirect chatID m in
  match prepared with
  | Err e => Ret (Err (wrap fail e))
  | Ok ticket =>
      await! body := write ticket in
      match body with
      | Err e => Ret (Err (wrap fail (errorOf (Media e))))
      | Ok body =>
          await! uploaded := UploadDirect ticket m in
          match uploaded with
          | Err e => Ret (Err (wrap fail e))
          | Ok _ =>
              await! ready := (if dt_NeedReady ticket then waitDirectReady chatID ticket else Ret (Ok tt)) in
              match ready with
              | Err e => Ret (Err (wrap fail e))
              | Ok _ =>
                  ok! reply := request WriteMediaCommand body in
                  Ret (mediaErr (DecodeDirectWrite reply chatID))
              end
          end
      end
  end.

Definition directPhoto (chatID : Z) (data : bytes) (caption : string) : prog (res goerror (option Raw)) :=
  match PrepareImage data with
  | Err e => Ret (Err (wrap ErrPhotoNotCreated (errorOf (Media e))))
  | Ok image =>
      directSend chatID (ImageDirectMedia image) ErrPhotoNotCreated (fun ticket =>
        await! now := perform Now in
        Ret (DirectPhotoWriteRequest_MarshalBSON
               (mkDirectPhotoWriteRequest chatID (millis now) image ticket caption)))
  end.

Definition directUpload (chatID : Z) (u : Upload) : prog (res goerror (option Raw)) :=
  match UploadDirectMedia u with
  | Err e => Ret (notSent (errorOf (Media e)))
  | Ok m =>
      directSend chatID m ErrUploadNotSent (fun ticket =>
        await! now := perform Now in
        Ret (DirectUploadWriteRequest_MarshalBSON (mkDirectUploadWriteRequest chatID (millis now) u ticket)))
  end.

(** ** The client *)

(** A SHIP that is redirected is sent over HTTP instead. *)
Definition orRedirected {A} (p direct : prog (res goerror A)) : prog (res goerror A) :=
  await! r := p in
  match r with
  | Err e => if Is e (Media ErrUploadRedirect) then direct else Ret (Err e)
  | Ok a => Ret (Ok a)
  end.

Definition SendText (chatID : Z) (message : string) := withSession (session_SendText chatID message).
Definition SendReply (r : ReplyRequest) := withSession (session_SendReply r).
Definition AddMembers (r : AddMembersRequest) := withSession (session_AddMembers r).
Definition CreateChat (r : CreateRequest) := withSession (session_CreateChat r).
Definition ModifyMessage (r : ModifyRequest) := withSession (session_ModifyMessage r).
Definition DeleteMessage (r : DeleteRequest) := withSession (session_DeleteMessage r).
Definition ReadEditSource (chatID logID : Z) := withSession (session_EditSource chatID logID).
Definition SendImage (who : account) (chatID : Z) (data : bytes) (caption : string) :=
  withSession (orRedirected (session_SendImage who chatID data caption) (directPhoto chatID data caption)).
Definition SendUpload (who : account) (chatID : Z) (u : Upload) :=
  withSession (orRedirected (session_SendUpload who chatID u) (directUpload chatID u)).
Definition SendAlbum (who : account) (chatID : Z) (photos : list bytes) (caption : string) :=
  withSession (session_SendAlbum who chatID photos caption).
End Programs.
Arguments Ret {_ A} a.
Arguments Vis {_ A} o k.

Notation "'await!' x ':=' p 'in' k" := (andThen p (fun x => k))
  (at level 10, x pattern, p at level 100, k at level 200,
   format "'[v' 'await!'  x  ':='  p  'in' '/' k ']'") : go_scope.
Notation "'ok!' x ':=' p 'in' k" := (andOk p (fun x => k))
  (at level 10, x pattern, p at level 100, k at level 200,
   format "'[v' 'ok!'  x  ':='  p  'in' '/' k ']'") : go_scope.
