(* ===== verification/GroupCreation.v ===== *)
(** * Creating groups (src/internal/bridge/connector: group_create.go,
      group_reconcile.go and [rosterMatches] of chat_snapshot.go)

    A group is created once for a Matrix room: a journal in the login's metadata
    records the attempt before CREATE is sent, and what came of it.  The
    operations hold [groupGate] from beginning to end; the metadata is saved
    under [metaMu], which the reconnect schedule also takes to save it.  An
    operation is a program over the outside: the database, the framework, Matrix
    and KakaoTalk.  The process can stop anywhere, and a save can fail with or
    without having been written. *)

From Stdlib Require Import Ascii.
From S2P Require Import Prelude Identifiers Bytes Text Bson ChatPackets.
From S2P Require ChatMeta Sending Sha256.

#[local] Open Scope string_scope.
#[local] Open Scope list_scope.
#[local] Open Scope Z_scope.

Record groupCreateAttempt := mkAttempt {
  Fingerprint : string;
  Participants : list Z;
  ga_ChatID : Z;
  Rejected : bool;
  Bound : bool;
  InviteAttempted : bool;
  Invitees : list Z;
}.

#[global] Instance attempt_eq_dec : EqDecision groupCreateAttempt.
Proof. solve_decision. Defined.

Abbreviation journal := (gmap string groupCreateAttempt).

(** [bridgev2.GroupCreateParams] with the fields the code uses. *)
Record GroupCreateParams := mkParams {
  gp_Type : string;
  gp_RoomID : string;
  gp_Username : string;
  gp_HasParent : bool;
  gp_AvatarURL : string;
  gp_Topic : string;
  gp_Disappear : Z;
  gp_Name : option string;
  gp_Participants : list string;
}.

Inductive groupError :=
| ErrRoomRequired | ErrOption | ErrParticipant | ErrSelf | ErrTooFew | ErrRequest (e : ChatPackets.Error) | ErrEncode
| ErrJournal | ErrNotLoggedIn | ErrUnresolved | ErrDifferentAttempt | ErrRejectedBefore | ErrRejected
| ErrRoom | ErrMatrix | ErrSource | ErrRosterIncomplete | ErrRosterUnexpected | ErrAlreadyBound | ErrNotConverged
| ErrNothingToReconcile | ErrNotConfirmed | ErrReplace | ErrInviteIncomplete | ErrInviteUnconfirmed | ErrShutdown.

#[global] Instance PortalKey_decision : EqDecision PortalKey.
Proof. solve_decision. Defined.

(** What the code uses of power levels: a user's, an event type's in the order of
    [requiredEvents], and that of inviting. *)
Record PowerLevels := mkPower { pw_User : string -> Z; pw_Event : string -> Z; pw_Invite : Z }.

Inductive membership := Join | Invite | OtherMembership.
#[global] Instance membership_eq_dec : EqDecision membership.
Proof. solve_decision. Defined.

Definition isInviteOrJoin (m : membership) : bool := match m with Join | Invite => true | OtherMembership => false end.

(** A portal as the framework holds it, and the information it is given. *)
Record portalState := mkPortalState {
  ps_MXID : string;
  ps_NameSet : bool;
  ps_Name : string;
  ps_TopicSet : bool;
  ps_Topic : string;
  ps_AvatarSet : bool;
}.
Record chatInfo := mkChatInfo { ci_Name : option string; ci_Topic : option string; ci_Avatar : bool }.

Section Programs.
Context `{Bson} `{ChatMeta.MetaJson}.
Context (requestJSON : CreateRequest -> option string). (* [json.Marshal] *)

(** ** Operations *)

(** [CreateChat] and [AddMembers] name the room of the attempt they are for,
    which is not part of the request. *)
Inductive gop :=
| ReadJournal
| RangeJournal
| LockMetadata
| UnlockMetadata
| SetJournal (j : journal)
| SaveLogin
| LoadLogin
| MetadataClient
| OpenDetached
| ConnectDetached
| ReleaseDetached
| CreateChat (room : string) (r : CreateRequest)
| AddMembers (room : string) (r : AddMembersRequest)
| PortalByMXID (room : string)
| PowerLevelsOf (room : string)
| CreateEvent (room : string)
| MembersOf (room : string)
| GhostMXID (user : string)
| DoublePuppet
| GetPortalByKey (key : PortalKey)
| StoreProfiles (members : list ChatMeta.Member)
| ChatInfoOf (chatID : Z) (created : option ChatMeta.ChatRoom)
| ReadPortal (key : PortalKey)
| UpdateRoomID (key : PortalKey) (room : string)
| SavePortal (key : PortalKey)
| UpdateInfo (key : PortalKey) (info : chatInfo)
| SaveCheckpoint (key : PortalKey) (roster : list Z)
| PortalByKey (key : PortalKey).

(** [None] is an error, except where the comment says more. *)
Definition gans (o : gop) : Type :=
  match o with
  | ReadJournal => journal
  | RangeJournal => list (string * groupCreateAttempt)
  | LockMetadata | UnlockMetadata | SetJournal _ => unit
  | SaveLogin => bool
  | LoadLogin => option (option journal) (* [Some None]: no login, or metadata of another type *)
  | MetadataClient | OpenDetached | ConnectDetached | ReleaseDetached => bool
  | CreateChat _ _ => res Sending.goerror CreateResponse
  | AddMembers _ _ => res Sending.goerror AddMembersResponse
  | PortalByMXID _ => option (option PortalKey)
  | PowerLevelsOf _ => option PowerLevels
  | CreateEvent _ => bool
  | MembersOf _ => option (gmap string membership)
  | GhostMXID _ => option string
  | DoublePuppet => bool
  | GetPortalByKey _ => bool
  | StoreProfiles _ => unit
  | ChatInfoOf _ _ => option (chatInfo * list Z) (* with the roster *)
  | ReadPortal _ => portalState
  | UpdateRoomID _ _ | SavePortal _ => bool
  | UpdateInfo _ _ => unit
  | SaveCheckpoint _ _ => bool
  | PortalByKey _ => option (option string) (* the room it is bound to *)
  end.

Inductive gprog (A : Type) : Type :=
| Ret (a : A)
| Vis (o : gop) (k : gans o -> gprog A).
Arguments Ret {A} a.
Arguments Vis {A} o k.

Fixpoint andThen {A B} (p : gprog A) (f : A -> gprog B) : gprog B :=
  match p with
  | Ret a => f a
  | Vis o k => Vis o (fun a => andThen (k a) f)
  end.

Definition perform (o : gop) : gprog (gans o) := Vis o Ret.

Definition andOk {A B} (p : gprog (res groupError A)) (f : A -> gprog (res groupError B)) : gprog (res groupError B) :=
  andThen p (fun r => match r with Ok a => f a | Err e => Ret (Err e) end).

Local Notation "'await!' x ':=' p 'in' k" := (andThen p (fun x => k))
  (at level 10, x pattern, p at level 100, k at level 200).
Local Notation "'ok!' x ':=' p 'in' k" := (andOk p (fun x => k))
  (at level 10, x pattern, p at level 100, k at level 200).

(** Go on if it holds. *)
Definition require (e : groupError) (b : bool) : gprog (res groupError unit) := Ret (if b then Ok tt else Err e).
Definition some {A} (e : groupError) (o : option A) : gprog (res groupError A) :=
  Ret (match o with Some a => Ok a | None => Err e end).

(** ** The login *)

Record Login := mkLogin {
  lg_userID : Z;
  lg_ID : string;
  lg_UserMXID : string;
  lg_BotMXID : string;
}.
Context (kc : Login).

(** The loop over the participants. *)
Fixpoint memberIDs (participants : list string) : res groupError (list Z) :=
  match participants with
  | [] => Ok []
  | p :: participants =>
      match parseUserID p with
      | Err _ => Err ErrParticipant
      | Ok userID =>
          if userID =? lg_userID kc then Err ErrSelf else
          let! ids := memberIDs participants in Ok (userID :: ids)
      end
  end.

Definition hasColon (s : string) : bool := match Cut s ":"%char with Some _ => true | None => false end.

Definition unsupportedOption (p : GroupCreateParams) : bool :=
  nonempty (gp_Username p) || gp_HasParent p || nonempty (gp_AvatarURL p) || nonempty (gp_Topic p)
  || negb (gp_Disappear p =? 0).

(** [groupCreateRequest]: the request and its fingerprint. *)
Definition groupCreateRequest (p : GroupCreateParams) : res groupError (CreateRequest * string) :=
  if negb (gp_Type p =? "regular")%string || negb (String.prefix "!" (gp_RoomID p)) || negb (hasColon (gp_RoomID p))
  then Err ErrRoomRequired
  else if unsupportedOption p then Err ErrOption
  else
    let! ids := memberIDs (gp_Participants p) in
    if Z.of_nat (length ids) <? 2 then Err ErrTooFew else
    let options := mkCreateOptions true false (default "" (gp_Name p)) "" in
    match CreateRequest_Validate (mkCreateRequest ids options) with
    | Some e => Err (ErrRequest e)
    | None =>
        let request := mkCreateRequest (merge_sort Z.le ids) options in
        match requestJSON request with
        | None => Err ErrEncode
        | Some text => Ok (request, Sha256.sha256Hex text)
        end
    end.

(** [ResolveIdentifier]: the user of a profile in [kc.profiles]; [None] is an error. *)
Definition ResolveIdentifier (profiles : gmap Z ChatMeta.Member) (identifier : string) (createChat : bool)
  : option (string * ChatMeta.Member) :=
  if createChat then None else
  match parseUserID identifier with
  | Err _ => None
  | Ok userID => profile ← profiles !! userID; Some (makeUserID userID, profile)
  end.

(** ** The journal *)

Definition saveGroupAttempt (room : string) (attempt : groupCreateAttempt) : gprog (res groupError unit) :=
  await! _ := perform LockMetadata in
  await! old := perform ReadJournal in
  await! _ := perform (SetJournal (<[room := attempt]> old)) in
  await! saved := perform SaveLogin in
  await! durable :=
    (if negb saved then Ret false else
     await! persisted := perform LoadLogin in
     Ret (match persisted with
          | Some (Some j) => bool_decide (j !! room = Some attempt)
          | _ => false
          end)) in
  if durable then await! _ := perform UnlockMetadata in Ret (Ok tt)
  else
    await! _ := perform (SetJournal old) in
    await! _ := perform UnlockMetadata in
    Ret (Err ErrJournal).

Definition resolved (a : groupCreateAttempt) : bool := Rejected a || Bound a.

Definition checkUnresolvedGroupCreates : gprog (res groupError unit) :=
  await! attempts := perform RangeJournal in
  require ErrUnresolved (forallb (fun e => resolved e.2) attempts).

(** ** Permissions in Matrix *)

Definition requiredEvents : list string :=
  ["m.bridge"; "m.room.name"; "m.room.avatar"; "m.room.topic"; "m.room.member"; "io.element.functional_members"].

Definition joined (members : gmap string membership) (user : string) : bool := bool_decide (members !! user = Some Join).

(** The loop over the participants, and the accounts that may be in the room. *)
Fixpoint checkGhosts (members : gmap string membership) (participants : list string) (allowed : list string)
  : gprog (res groupError (list string)) :=
  match participants with
  | [] => Ret (Ok allowed)
  | p :: participants =>
      await! ghost := perform (GhostMXID p) in
      ok! mxid := some ErrMatrix ghost in
      ok! _ := require ErrRoom (match members !! mxid with Some m => isInviteOrJoin m | None => false end) in
      checkGhosts members participants (mxid :: allowed)
  end.

Definition onlyAllowed (members : gmap string membership) (allowed : list string) : bool :=
  forallb (fun e => negb (isInviteOrJoin e.2) || existsb (String.eqb e.1) allowed) (map_to_list members).

Definition mayBridge (power : PowerLevels) : bool :=
  let bot := pw_User power (lg_BotMXID kc) in
  (pw_Event power "m.bridge" <=? pw_User power (lg_UserMXID kc))
  && forallb (fun typ => pw_Event power typ <=? bot) requiredEvents
  && (pw_Invite power <=? bot).

(** A room bound before may have the account's own ghost. *)
Definition selfGhost (allowedKey : option PortalKey) : gprog (res groupError (list string)) :=
  match allowedKey with
  | None => Ret (Ok [])
  | Some _ =>
      await! ghost := perform (GhostMXID (makeUserID (lg_userID kc))) in
      Ret (match ghost with Some mxid => Ok [mxid] | None => Err ErrMatrix end)
  end.

Definition validateGroupRoom (p : GroupCreateParams) (allowedKey : option PortalKey) : gprog (res groupError unit) :=
  let room := gp_RoomID p in
  await! existing := perform (PortalByMXID room) in
  ok! existing := some ErrMatrix existing in
  ok! _ := require ErrAlreadyBound
    (match existing with Some key => bool_decide (allowedKey = Some key) | None => true end) in
  await! power := perform (PowerLevelsOf room) in
  ok! power := some ErrRoom power in
  await! created := perform (CreateEvent room) in
  ok! _ := require ErrRoom created in
  ok! _ := require ErrRoom (mayBridge power) in
  await! members := perform (MembersOf room) in
  ok! members := some ErrMatrix members in
  ok! _ := require ErrRoom (joined members (lg_UserMXID kc) && joined members (lg_BotMXID kc)) in
  ok! self := selfGhost allowedKey in
  ok! allowed := checkGhosts members (gp_Participants p) (self ++ [lg_UserMXID kc; lg_BotMXID kc]) in
  require ErrRoom (onlyAllowed members allowed).

(** ** Rosters *)

(** [creationSourceRoster]: the members, each once and expected, with the account
    itself. *)
Fixpoint distinctAllowed (allowed : list Z) (seen roster : list Z) : res groupError (list Z) :=
  match roster with
  | [] => Ok seen
  | member :: roster =>
      if (member <=? 0) || existsb (Z.eqb member) seen || negb (existsb (Z.eqb member) allowed)
      then Err ErrRosterUnexpected
      else distinctAllowed allowed (member :: seen) roster
  end.

Definition creationSourceRoster (roster participants : list Z) : res groupError (list Z) :=
  let! actual := distinctAllowed (lg_userID kc :: participants) [] roster in
  if existsb (Z.eqb (lg_userID kc)) actual then Ok actual else Err ErrRosterIncomplete.

Definition expectedOf (participants : list Z) : gset Z := list_to_set (lg_userID kc :: participants).

(** [rosterMatches] *)
Definition rosterMatches (roster : list Z) (expected : gset Z) (allowSubset : bool) : res groupError unit :=
  match roster with
  | [] => Err ErrRosterIncomplete
  | _ =>
      let actual : gset Z := list_to_set (lg_userID kc :: roster) in
      if negb allowSubset && negb (size actual =? size expected)%nat then Err ErrRosterIncomplete
      else if bool_decide (actual ⊆ expected) then Ok tt else Err ErrRosterUnexpected
  end.

(** ** Binding *)

(** [joinedAs] *)
Definition joinedAs (members : gmap string membership) (user : Z) (ghost : string) : gprog bool :=
  if joined members ghost then Ret true
  else if negb (user =? lg_userID kc) then Ret false
  else
    await! puppet := perform DoublePuppet in
    Ret (puppet && joined members (lg_UserMXID kc)).

Fixpoint allJoined (members : gmap string membership) (users : list Z) : gprog (res groupError unit) :=
  match users with
  | [] => Ret (Ok tt)
  | user :: users =>
      await! ghost := perform (GhostMXID (makeUserID user)) in
      ok! mxid := some ErrMatrix ghost in
      await! there := joinedAs members user mxid in
      ok! _ := require ErrNotConverged there in
      allJoined members users
  end.

Definition converged (info : chatInfo) (p : portalState) : bool :=
  match ci_Name info with Some name => ps_NameSet p && (ps_Name p =? name)%string | None => true end
  && match ci_Topic info with Some topic => ps_TopicSet p && (ps_Topic p =? topic)%string | None => true end
  && (negb (ci_Avatar info) || ps_AvatarSet p).

Definition verifyGroupBinding (key : PortalKey) (info : chatInfo) (expected : list Z) : gprog (res groupError unit) :=
  await! portal := perform (ReadPortal key) in
  ok! _ := require ErrNotConverged (converged info portal) in
  await! members := perform (MembersOf (ps_MXID portal)) in
  ok! members := some ErrMatrix members in
  allJoined members expected.

Definition paramsOf (room : string) (attempt : groupCreateAttempt) : GroupCreateParams :=
  mkParams "regular" room "" false "" "" 0 None (makeUserID <$> Participants attempt).

Definition withBound (a : groupCreateAttempt) : groupCreateAttempt :=
  mkAttempt (Fingerprint a) (Participants a) (ga_ChatID a) (Rejected a) true (InviteAttempted a) (Invitees a).

(** The part that writes. *)
Definition bindPortal (room : string) (attempt : groupCreateAttempt) (key : PortalKey) (info : chatInfo) (roster : list Z)
  : gprog (res groupError PortalKey) :=
  await! portal := perform (ReadPortal key) in
  ok! _ := require ErrAlreadyBound ((ps_MXID portal =? "")%string || (ps_MXID portal =? room)%string) in
  await! updated := perform (UpdateRoomID key room) in
  ok! _ := require ErrMatrix updated in
  await! saved := perform (SavePortal key) in
  ok! _ := require ErrMatrix saved in
  await! _ := perform (UpdateInfo key info) in
  ok! _ := verifyGroupBinding key info (elements (expectedOf (Participants attempt))) in
  await! checkpointed := perform (SaveCheckpoint key roster) in
  ok! _ := require ErrMatrix checkpointed in
  await! saved := perform (SavePortal key) in
  ok! _ := require ErrMatrix saved in
  await! persisted := perform (PortalByKey key) in
  ok! persisted := some ErrMatrix persisted in
  ok! _ := require ErrNotConverged (bool_decide (persisted = Some room)) in
  ok! _ := saveGroupAttempt room (withBound attempt) in
  Ret (Ok key).

Definition bindCreatedGroup (room : string) (attempt : groupCreateAttempt) (created : option ChatMeta.ChatRoom)
  : gprog (res groupError PortalKey) :=
  let key := makePortalKey (ga_ChatID attempt) (lg_ID kc) in
  ok! _ := validateGroupRoom (paramsOf room attempt) (Some key) in
  await! found := perform (GetPortalByKey key) in
  ok! _ := require ErrMatrix found in
  await! _ := match created with
              | Some r => perform (StoreProfiles (ChatMeta.cr_Members r))
              | None => Ret tt
              end in
  await! snapshot := perform (ChatInfoOf (ga_ChatID attempt) created) in
  ok! (info, roster) := some ErrSource snapshot in
  let expected := expectedOf (Participants attempt) in
  ok! actual := Ret (creationSourceRoster roster (Participants attempt)) in
  ok! _ := require ErrRosterIncomplete (length actual =? size expected)%nat in
  ok! _ := Ret (rosterMatches roster expected false) in
  bindPortal room attempt key info roster.

(** ** The operations *)

Definition createdRoom (response : CreateResponse) : option ChatMeta.ChatRoom :=
  match ChatMeta.DecodeChatRoom (cr_ChatRoom response) with
  | Ok room =>
      if (ChatMeta.cr_ChatID room =? cr_ChatID response) && (ChatMeta.cr_Type room =? "MultiChat")%string
         && negb (match ChatMeta.cr_ActiveMemberIDs room with [] => true | _ => false end)
      then Some room else None
  | Err _ => None
  end.

Definition fresh (fingerprint : string) (participants : list Z) : groupCreateAttempt :=
  mkAttempt fingerprint participants 0 false false false [].
Definition withRejected (a : groupCreateAttempt) : groupCreateAttempt :=
  mkAttempt (Fingerprint a) (Participants a) (ga_ChatID a) true (Bound a) (InviteAttempted a) (Invitees a).
Definition withChatID (a : groupCreateAttempt) (chatID : Z) : groupCreateAttempt :=
  mkAttempt (Fingerprint a) (Participants a) chatID (Rejected a) (Bound a) (InviteAttempted a) (Invitees a).
Definition withInvitees (a : groupCreateAttempt) (missing : list Z) : groupCreateAttempt :=
  mkAttempt (Fingerprint a) (Participants a) (ga_ChatID a) (Rejected a) (Bound a) true missing.

(** A status the server answered CREATE with. *)
Definition createRejected (e : Sending.goerror) : bool :=
  match Sending.status e with Some (command, _) => (command =? "CREATE")%string | None => false end.

(** Without an attempt of the room: record one, send CREATE, and record what the
    server answered. *)
Definition createOnce (p : GroupCreateParams) (request : CreateRequest) (fingerprint : string)
  : gprog (res groupError (groupCreateAttempt * option ChatMeta.ChatRoom)) :=
  let room := gp_RoomID p in
  ok! _ := checkUnresolvedGroupCreates in
  ok! _ := validateGroupRoom p None in
  let attempt := fresh fingerprint (MemberIDs request) in
  ok! _ := saveGroupAttempt room attempt in
  await! response := perform (CreateChat room request) in
  match response with
  | Err e =>
      if createRejected e
      then ok! _ := saveGroupAttempt room (withRejected attempt) in Ret (Err ErrRejected)
      else Ret (Err ErrUnresolved)
  | Ok response =>
      if cr_ChatID response <=? 0 then Ret (Err ErrUnresolved) else
      let attempt := withChatID attempt (cr_ChatID response) in
      await! saved := saveGroupAttempt room attempt in
      Ret (match saved with
           | Ok _ => Ok (attempt, createdRoom response)
           | Err _ => Err ErrUnresolved
           end)
  end.

(** The attempt the room has. *)
Definition earlierAttempt (attempt : groupCreateAttempt) (fingerprint : string)
  : res groupError (groupCreateAttempt * option ChatMeta.ChatRoom) :=
  if negb (Fingerprint attempt =? fingerprint)%string then Err ErrDifferentAttempt
  else if Rejected attempt then Err ErrRejectedBefore
  else if ga_ChatID attempt =? 0 then Err ErrUnresolved
  else Ok (attempt, None).

Definition attemptFor (p : GroupCreateParams) (request : CreateRequest) (fingerprint : string) (j : journal)
  : gprog (res groupError (groupCreateAttempt * option ChatMeta.ChatRoom)) :=
  match j !! gp_RoomID p with
  | Some attempt => Ret (earlierAttempt attempt fingerprint)
  | None => createOnce p request fingerprint
  end.

Definition CreateGroup (p : GroupCreateParams) : gprog (res groupError PortalKey) :=
  match groupCreateRequest p with
  | Err e => Ret (Err e)
  | Ok (request, fingerprint) =>
      await! c := perform MetadataClient in
      ok! _ := require ErrNotLoggedIn c in
      await! j := perform ReadJournal in
      ok! (attempt, created) := attemptFor p request fingerprint j in
      bindCreatedGroup (gp_RoomID p) attempt created
  end.

(** The loop over the attempts, in the order the map is ranged. *)
Fixpoint resumeAttempts (attempts : list (string * groupCreateAttempt)) : gprog (res groupError unit) :=
  match attempts with
  | [] => Ret (Ok tt)
  | (room, attempt) :: attempts =>
      if resolved attempt then resumeAttempts attempts
      else if ga_ChatID attempt =? 0 then Ret (Err ErrUnresolved)
      else
        ok! _ := bindCreatedGroup room attempt None in
        resumeAttempts attempts
  end.

Definition resumeGroupCreates : gprog (res groupError unit) :=
  await! attempts := perform RangeJournal in
  resumeAttempts attempts.

(** The invitations of [CompleteGroupInvitations]. *)
Definition inviteMissing (room : string) (chatID : Z) (attempt : groupCreateAttempt) (roster : list Z)
  : gprog (res groupError groupCreateAttempt) :=
  ok! actual := Ret (creationSourceRoster roster (Participants attempt)) in
  let missing := List.filter (fun p => negb (existsb (Z.eqb p) actual)) (Participants attempt) in
  match missing with
  | [] => Ret (Ok attempt)
  | _ =>
      ok! _ := require ErrInviteIncomplete (negb (InviteAttempted attempt)) in
      let attempt := withInvitees attempt missing in
      ok! _ := saveGroupAttempt room attempt in
      await! response := perform (AddMembers room (mkAddMembersRequest chatID missing)) in
      Ret (match response with
           | Err _ => Err ErrInviteUnconfirmed
           | Ok r => if nonempty (ar_Warning r) then Err ErrInviteUnconfirmed else Ok attempt
           end)
  end.

Definition reconcileBody (room : string) (chatID : Z) (attempt : groupCreateAttempt) (invite : bool)
  : gprog (res groupError PortalKey) :=
  await! snapshot := perform (ChatInfoOf chatID None) in
  ok! (_, roster) := some ErrSource snapshot in
  ok! _ := Ret (rosterMatches roster (expectedOf (Participants attempt)) invite) in
  ok! attempt := (if invite then inviteMissing room chatID attempt roster else Ret (Ok attempt)) in
  let attempt := withChatID attempt chatID in
  ok! _ := saveGroupAttempt room attempt in
  bindCreatedGroup room attempt None.

(** The client in use, or one opened for this. *)
Definition reconcileClient {A} (body : gprog (res groupError A)) : gprog (res groupError A) :=
  await! c := perform MetadataClient in
  if c then body
  else
    await! opened := perform OpenDetached in
    ok! _ := require ErrNotLoggedIn opened in
    await! connected := perform ConnectDetached in
    await! result := (if connected then body else Ret (Err ErrSource)) in
    await! released := perform ReleaseDetached in
    Ret (if released then result else Err ErrShutdown).

Definition reconcileAttempt (room : string) (chatID : Z) (invite : bool) (attempt : groupCreateAttempt)
  : gprog (res groupError PortalKey) :=
  if resolved attempt then Ret (Err ErrNothingToReconcile)
  else if invite && (ga_ChatID attempt <=? 0) then Ret (Err ErrNotConfirmed)
  else
    let chatID := if invite then ga_ChatID attempt else chatID in
    if negb (ga_ChatID attempt =? 0) && negb (ga_ChatID attempt =? chatID) then Ret (Err ErrReplace)
    else match groupCreateRequest (paramsOf room attempt) with
    | Err e => Ret (Err e)
    | Ok _ =>
        ok! _ := validateGroupRoom (paramsOf room attempt) (Some (makePortalKey chatID (lg_ID kc))) in
        reconcileClient (reconcileBody room chatID attempt invite)
    end.

Definition reconcileIn (room : string) (chatID : Z) (invite : bool) (j : journal) : gprog (res groupError PortalKey) :=
  match j !! room with
  | None => Ret (Err ErrNothingToReconcile)
  | Some attempt => reconcileAttempt room chatID invite attempt
  end.

(** [reconcileGroup]; [invite] is [CompleteGroupInvitations], which passes no
    chat. *)
Definition reconcileGroup (room : string) (chatID : Z) (invite : bool) : gprog (res groupError PortalKey) :=
  if negb invite && (chatID <=? 0) then Ret (Err ErrNotConfirmed) else
  await! j := perform ReadJournal in
  reconcileIn room chatID invite j.
End Programs.
Arguments Ret {_ A} a.
Arguments Vis {_ A} o k.

(** ** Steps

    The journal in memory and in the database, whether [metaMu] is held, and the
    logs of what was requested: the rooms for which CREATE was sent, the rooms
    whose missing members were invited, and the rooms bound, with the chat. *)

Record World := mkWorld {
  mem : journal;
  disk : journal;
  locked : bool;
  created : list string;
  invited : list string;
  binds : list (string * PortalKey);
}.

Definition setMem (j : journal) (w : World) : World :=
  mkWorld j (disk w) (locked w) (created w) (invited w) (binds w).
Definition setDisk (j : journal) (w : World) : World :=
  mkWorld (mem w) j (locked w) (created w) (invited w) (binds w).
Definition setLocked (b : bool) (w : World) : World :=
  mkWorld (mem w) (disk w) b (created w) (invited w) (binds w).

Section Steps.
Context `{Bson} `{ChatMeta.MetaJson} (requestJSON : CreateRequest -> option string) (kc : Login).

(** An operation with its answer.  A save may be written or not, whatever it
    answers. *)
Definition performs (w : World) (o : gop) : gans o -> World -> Prop :=
  match o with
  | ReadJournal => fun j w' => j = mem w /\ w' = w
  | RangeJournal => fun l w' => l ≡ₚ map_to_list (mem w) /\ w' = w
  | LockMetadata => fun _ w' => locked w = false /\ w' = setLocked true w
  | UnlockMetadata => fun _ w' => w' = setLocked false w
  | SetJournal j => fun _ w' => w' = setMem j w
  | SaveLogin => fun _ w' => w' = w \/ w' = setDisk (mem w) w
  | LoadLogin => fun r w' => w' = w /\ (r = None \/ r = Some None \/ r = Some (Some (disk w)))
  | CreateChat room _ => fun _ w' =>
      w' = mkWorld (mem w) (disk w) (locked w) (created w ++ [room]) (invited w) (binds w)
  | AddMembers room _ => fun _ w' =>
      w' = mkWorld (mem w) (disk w) (locked w) (created w) (invited w ++ [room]) (binds w)
  | UpdateRoomID key room => fun _ w' =>
      w' = mkWorld (mem w) (disk w) (locked w) (created w) (invited w) (binds w ++ [(room, key)])
  | _ => fun _ w' => w' = w
  end.

Inductive invocation :=
| Create (p : GroupCreateParams)
| Reconcile (room : string) (chatID : Z)
| CompleteInvitations (room : string)
| Resume.

Definition dropValue {A} (p : gprog (res groupError A)) : gprog unit := andThen p (fun _ => Ret tt).

Definition operation (i : invocation) : gprog unit :=
  match i with
  | Create p => dropValue (CreateGroup requestJSON kc p)
  | Reconcile room chatID => dropValue (reconcileGroup requestJSON kc room chatID false)
  | CompleteInvitations room => dropValue (reconcileGroup requestJSON kc room 0 true)
  | Resume => dropValue (resumeGroupCreates kc)
  end.

(** The operation that holds [groupGate], if one does; [step_save] is another
    save of the login's metadata, and [step_restart] a stop of the process. *)
Inductive step : World * option (gprog unit) -> World * option (gprog unit) -> Prop :=
| step_start w i : step (w, None) (w, Some (operation i))
| step_op w o k a w' : performs w o a w' -> step (w, Some (Vis o k)) (w', Some (k a))
| step_return w : step (w, Some (Ret tt)) (w, None)
| step_save w p : locked w = false -> step (w, p) (setDisk (mem w) w, p)
| step_restart w p : step (w, p) (setLocked false (setMem (disk w) w), None).

(** ** What a journal says of the logs *)

Definition chatBound (key : PortalKey) (a : groupCreateAttempt) : Prop := key = makePortalKey (ga_ChatID a) (lg_ID kc).

Record covers (w : World) (j : journal) : Prop := {
  cov_created room : room ∈ created w -> is_Some (j !! room);
  cov_invited room : room ∈ invited w -> exists a, j !! room = Some a /\ InviteAttempted a = true;
  cov_binds room key : (room, key) ∈ binds w -> exists a, j !! room = Some a /\ ga_ChatID a <> 0 /\ chatBound key a;
}.

(** What a stop of the process leaves. *)
Record good (w : World) : Prop := {
  good_disk : covers w (disk w);
  good_created : NoDup (created w);
  good_invited : NoDup (invited w);
}.

(** A confirmed chat in memory is in the database. *)
Definition confirmedOnDisk (j d : journal) : Prop :=
  forall room a, j !! room = Some a -> ga_ChatID a <> 0 -> exists a', d !! room = Some a' /\ ga_ChatID a' = ga_ChatID a.

Record inv (w : World) : Prop := {
  inv_good : good w;
  inv_mem : covers w (mem w);
  inv_confirmed : confirmedOnDisk (mem w) (disk w);
  inv_unlocked : locked w = false;
}.

(** [w'] is [w] after a save by others. *)
Definition drift (w w' : World) : Prop := w' = w \/ (locked w = false /\ w' = setDisk (mem w) w).

Lemma drift_trans w w1 w2 : drift w w1 -> drift w1 w2 -> drift w w2.
Proof.
  intros [->|[Hl ->]] [->|[Hl' ->]]; [by left|right; done|right; done|right; done].
Qed.

Lemma drift_inv w w' : inv w -> drift w w' -> inv w'.
Proof.
  intros Hi [->|[Hl ->]]; [done|]. destruct Hi as [[Hd Hc Hn] Hm Hf _]. constructor; try done.
  - by constructor; [destruct Hm; constructor|..].
  - by destruct Hm; constructor.
  - intros room a Ha _. by exists a.
Qed.

(** What must hold when CREATE is sent. *)
Definition recorded (w : World) (o : gop) : Prop :=
  match o with
  | CreateChat room r =>
      (exists a, disk w !! room = Some a /\ ga_ChatID a = 0 /\ resolved a = false /\ Participants a = MemberIDs r) /\
      (forall other a, mem w !! other = Some a -> other <> room -> resolved a = true)
  | _ => True
  end.

(** Wherever a program stops, what it leaves is good, and if it returns, [Q] holds,
    whatever others save meanwhile. *)
Fixpoint runs {A} (w : World) (p : gprog A) (Q : World -> A -> Prop) : Prop :=
  match p with
  | Ret a => forall w1, drift w w1 -> Q w1 a
  | Vis o k =>
      forall w1, drift w w1 -> good w1 /\ recorded w1 o /\ forall a w2, performs w1 o a w2 -> runs w2 (k a) Q
  end.

Lemma runs_drift {A} w w1 (p : gprog A) Q : runs w p Q -> drift w w1 -> runs w1 p Q.
Proof.
  destruct p as [a|o k]; intros Hp Hd w2 Hd2; apply Hp; by eapply drift_trans.
Qed.

Lemma runs_mono {A} w (p : gprog A) (Q Q' : World -> A -> Prop) :
  runs w p Q -> (forall w a, Q w a -> Q' w a) -> runs w p Q'.
Proof.
  intros Hp HQ. revert w Hp. induction p as [a|o k IH]; intros w Hp w1 Hd; [by apply HQ, Hp|].
  destruct (Hp _ Hd) as (Hg & Hr & Hk). split_and!; [done..|]. intros a w2 Ha. by apply IH, Hk.
Qed.

Lemma drift_refl w : drift w w.
Proof. by left. Qed.

Lemma runs_bind {A B} w (p : gprog A) (f : A -> gprog B) Q :
  runs w p (fun w a => runs w (f a) Q) -> runs w (andThen p f) Q.
Proof.
  revert w. induction p as [a|o k IH]; intros w Hp; simpl.
  - by apply Hp, drift_refl.
  - intros w1 Hd. destruct (Hp _ Hd) as (Hg & Hr & Hk). split_and!; [done..|]. intros a w2 Ha. by apply IH, Hk.
Qed.

Lemma runs_ok {A B} w (p : gprog (res groupError A)) (f : A -> gprog (res groupError B)) Q :
  runs w p (fun w r => match r with Ok a => runs w (f a) Q | Err e => runs w (Ret (Err e)) Q end) -> runs w (andOk p f) Q.
Proof. intros Hp. apply runs_bind. eapply runs_mono; [exact Hp|]. by intros w' [a|e]. Qed.

(** ** Standing still *)

(** The journal in memory is [j], what was requested is [l], and, of the
    database, [D]. *)
Record stands (j : journal) (l : list string * list string * list (string * PortalKey)) (D : journal -> Prop) (w : World)
  : Prop := {
  st_inv : inv w;
  st_mem : mem w = j;
  st_logs : (created w, invited w, binds w) = l;
  st_disk : D (disk w);
  st_stable : D j;
}.

Lemma stands_drift j l D w w' : stands j l D w -> drift w w' -> stands j l D w'.
Proof.
  intros [Hi Hm Hl Hd Hs] Hdr. pose proof (drift_inv _ _ Hi Hdr) as Hi'.
  destruct Hdr as [-> | [_ ->]]; constructor; try done. simpl. by rewrite Hm.
Qed.

(** An operation that neither reads nor writes the journals. *)
Definition quiet (o : gop) : Prop :=
  match o with
  | LockMetadata | UnlockMetadata | SetJournal _ | SaveLogin | CreateChat _ _ | AddMembers _ _ | UpdateRoomID _ _ => False
  | _ => True
  end.

Lemma quiet_performs o w a w' : quiet o -> performs w o a w' -> w' = w.
Proof. destruct o; simpl; intuition. Qed.

Lemma quiet_recorded o w : quiet o -> recorded w o.
Proof. by destruct o. Qed.

Lemma runs_quiet {A} j l D w o (k : gans o -> gprog A) Q :
  stands j l D w -> quiet o ->
  (forall a w', stands j l D w' -> performs w' o a w' -> runs w' (k a) Q) -> runs w (Vis o k) Q.
Proof.
  intros Hs Ho Hk w1 Hd. pose proof (stands_drift _ _ _ _ _ Hs Hd) as Hs1.
  split_and!; [apply Hs1|by apply quiet_recorded|]. intros a w2 Ha.
  pose proof (quiet_performs _ _ _ _ Ho Ha) as ->. by apply Hk.
Qed.

Lemma runs_ret {A} j l D w (a : A) Q : stands j l D w -> (forall w', stands j l D w' -> Q w' a) -> runs w (Ret a) Q.
Proof. intros Hs HQ w1 Hd. apply HQ. by eapply stands_drift. Qed.

(** A program of quiet operations. *)
Fixpoint allQuiet {A} (p : gprog A) : Prop :=
  match p with Ret _ => True | Vis o k => quiet o /\ forall a, allQuiet (k a) end.

Lemma runs_allQuiet {A} j l D w (p : gprog A) Q :
  stands j l D w -> allQuiet p -> (forall w' a, stands j l D w' -> Q w' a) -> runs w p Q.
Proof.
  revert w. induction p as [a|o k IH]; intros w Hs Hp HQ; [by eapply runs_ret; eauto|].
  destruct Hp as [Ho Hk]. eapply runs_quiet; [done..|]. intros a w' Hs' _. by apply IH.
Qed.

Lemma allQuiet_bind {A B} (p : gprog A) (f : A -> gprog B) :
  allQuiet p -> (forall a, allQuiet (f a)) -> allQuiet (andThen p f).
Proof. induction p as [a|o k IH]; simpl; intros Hp Hf; [done|]. destruct Hp as [Ho Hk]. split; [done|]. intros a. by apply IH. Qed.

Lemma allQuiet_ok {A B} (p : gprog (res groupError A)) (f : A -> gprog (res groupError B)) :
  allQuiet p -> (forall a, allQuiet (f a)) -> allQuiet (andOk p f).
Proof. intros Hp Hf. apply allQuiet_bind; [done|]. by intros [a|e]. Qed.

Lemma allQuiet_perform o : quiet o -> allQuiet (perform o).
Proof. intros Ho. by split. Qed.

(** ** Saving an attempt *)

(** An attempt is only added to: a confirmed chat and the mark of its
    invitations stay. *)
Definition grows (old : option groupCreateAttempt) (a : groupCreateAttempt) : Prop :=
  match old with
  | None => True
  | Some o => (InviteAttempted o = true -> InviteAttempted a = true) /\ (ga_ChatID o <> 0 -> ga_ChatID a = ga_ChatID o)
  end.

Lemma covers_insert w j room a : covers w j -> grows (j !! room) a -> covers w (<[room := a]> j).
Proof.
  intros [Hc Hi Hb] Hg. constructor.
  - intros r Hr. destruct (decide (room = r)) as [<-|]; [rewrite lookup_insert_eq; by eexists|].
    rewrite lookup_insert_ne by done. by apply Hc.
  - intros r Hr. destruct (Hi _ Hr) as (o & Ho & Hm). destruct (decide (room = r)) as [<-|].
    + rewrite Ho in Hg. exists a. rewrite lookup_insert_eq. split; [done|]. by apply Hg.
    + exists o. by rewrite lookup_insert_ne.
  - intros r key Hr. destruct (Hb _ _ Hr) as (o & Ho & Hn & Hk). destruct (decide (room = r)) as [<-|].
    + rewrite Ho in Hg. destruct Hg as [_ Hg]. specialize (Hg Hn). exists a. rewrite lookup_insert_eq.
      split; [done|]. unfold chatBound in *. by rewrite Hg.
    + exists o. by rewrite lookup_insert_ne.
Qed.

Lemma confirmed_insert j d room a : confirmedOnDisk j d -> confirmedOnDisk (<[room := a]> j) (<[room := a]> d).
Proof.
  intros Hf r o. destruct (decide (room = r)) as [<-|].
  - rewrite !lookup_insert_eq. intros [= <-] _. by exists a.
  - rewrite !lookup_insert_ne by done. apply Hf.
Qed.

(** With [metaMu] held nothing else saves. *)
Lemma runs_held {A} w o (k : gans o -> gprog A) Q :
  locked w = true -> good w -> recorded w o -> (forall a w2, performs w o a w2 -> runs w2 (k a) Q) -> runs w (Vis o k) Q.
Proof. intros Hl Hg Hr Hk w1 [->|[Hf _]]; [done|congruence]. Qed.

(** The database while an attempt is being saved. *)
Definition half (j d0 d : journal) (room : string) (a : groupCreateAttempt) : Prop := d = d0 \/ d = <[room := a]> j.

Lemma half_good w d room a m b :
  inv w -> grows (mem w !! room) a -> half (mem w) (disk w) d room a ->
  good (mkWorld m d b (created w) (invited w) (binds w)).
Proof.
  intros Hi Hg Hd. destruct (inv_good _ Hi) as [Hdisk Hc Hn].
  assert (Hcov : covers w d) by (destruct Hd as [-> | ->]; [done|apply covers_insert; [apply Hi|done]]).
  constructor; [destruct Hcov; by constructor|done|done].
Qed.

(** A save given up leaves the journal in memory as it was. *)
Lemma half_given_up l w d room a w' :
  inv w -> grows (mem w !! room) a -> half (mem w) (disk w) d room a -> (created w, invited w, binds w) = l ->
  drift (mkWorld (mem w) d false (created w) (invited w) (binds w)) w' -> stands (mem w) l (fun _ => True) w'.
Proof.
  intros Hi Hg Hd <- Hdr. eapply stands_drift; [|exact Hdr]. constructor; try done. constructor; [by eapply half_good| | |done].
  - destruct (inv_mem _ Hi). by constructor.
  - simpl. intros r o Ho Hn. destruct Hd as [-> | ->]; [by apply (inv_confirmed _ Hi)|].
    destruct (decide (room = r)) as [<-|]; [|exists o; by rewrite lookup_insert_ne].
    rewrite Ho in Hg. destruct Hg as [_ Hg]. exists a. rewrite lookup_insert_eq. split; [done|]. by apply Hg.
Qed.

(** A save that is found in the database. *)
Lemma half_saved l w d room a w' :
  inv w -> grows (mem w !! room) a -> half (mem w) (disk w) d room a -> (created w, invited w, binds w) = l ->
  d !! room = Some a -> drift (mkWorld (<[room := a]> (mem w)) d false (created w) (invited w) (binds w)) w' ->
  stands (<[room := a]> (mem w)) l (fun d => d !! room = Some a) w'.
Proof.
  intros Hi Hg Hd <- E Hdr. eapply stands_drift; [|exact Hdr].
  constructor; try done; [|simpl; by rewrite lookup_insert_eq]. constructor; [by eapply half_good| | |done].
  - destruct (covers_insert _ _ room a (inv_mem _ Hi) Hg). by constructor.
  - simpl. destruct Hd as [-> | ->]; [|by intros r o Ho _; exists o].
    intros r o. destruct (decide (room = r)) as [<-|].
    + rewrite lookup_insert_eq. intros [= <-] _. by exists a.
    + rewrite lookup_insert_ne by done. apply (inv_confirmed _ Hi).
Qed.

Lemma saveGroupAttempt_runs j l D w room a (Q : World -> res groupError unit -> Prop) :
  stands j l D w -> grows (j !! room) a ->
  (forall w', stands (<[room := a]> j) l (fun d => d !! room = Some a) w' -> Q w' (Ok tt)) ->
  (forall w' e, stands j l (fun _ => True) w' -> Q w' (Err e)) ->
  runs w (saveGroupAttempt room a) Q.
Proof.
  intros Hs Hg Hok Herr. unfold saveGroupAttempt, perform. cbn [andThen]. intros w1 Hd1.
  pose proof (stands_drift _ _ _ _ _ Hs Hd1) as [Hi Hm Hl _ _]. clear Hs Hd1 w.
  split_and!; [apply Hi|done|]. intros [] w2 [_ ->]. subst j.
  pose proof (fun d m b => half_good w1 d room a m b Hi Hg) as Hgood.
  assert (Hunlocked : forall d', half (mem w1) (disk w1) d' room a -> forall e,
    runs (mkWorld (mem w1) d' true (created w1) (invited w1) (binds w1)) (Vis UnlockMetadata (fun _ => Ret (Err e))) Q).
  { intros d' Hd' e. apply runs_held; [done|by apply Hgood|done|]. intros [] w2 ->. intros w3 Hd3.
    apply Herr. by eapply half_given_up. }
  assert (Hrevert : forall d', half (mem w1) (disk w1) d' room a -> forall e,
    runs (mkWorld (<[room := a]> (mem w1)) d' true (created w1) (invited w1) (binds w1))
      (Vis (SetJournal (mem w1)) (fun _ => Vis UnlockMetadata (fun _ => Ret (Err e)))) Q).
  { intros d' Hd' e. apply runs_held; [done|by apply Hgood|done|]. intros [] w2 ->. by apply (Hunlocked d'). }
  apply runs_held; [done|apply Hgood; by left|done|]. intros old w2 [-> ->].
  apply runs_held; [done|apply Hgood; by left|done|]. intros [] w2 ->. cbn [mem setLocked setMem].
  apply runs_held; [done|apply Hgood; by left|done|]. intros saved w2 Hw2.
  assert (Hd' : exists d', half (mem w1) (disk w1) d' room a /\
    w2 = mkWorld (<[room := a]> (mem w1)) d' true (created w1) (invited w1) (binds w1))
    by (destruct Hw2 as [-> | ->]; eexists; split; [by left|done|by right|done]).
  clear Hw2. destruct Hd' as (d' & Hd' & ->). destruct saved; cbn [negb andThen]; [|by apply Hrevert].
  apply runs_held; [done|by apply Hgood|done|]. intros persisted w3 [-> Hp].
  destruct (match persisted with Some (Some j') => bool_decide (j' !! room = Some a) | _ => false end) eqn:E;
    [|by apply Hrevert].
  destruct Hp as [-> | [-> | ->]]; [done|done|]. apply bool_decide_eq_true in E. simpl in E.
  apply runs_held; [done|by apply Hgood|done|]. intros [] w2 ->. intros w4 Hd4. apply Hok. by eapply half_saved.
Qed.

(** ** Parts of the operations *)

Lemma runs_quietly {A B} j l D w (p : gprog A) (f : A -> gprog B) Q :
  stands j l D w -> allQuiet p -> (forall a w', stands j l D w' -> runs w' (f a) Q) -> runs w (andThen p f) Q.
Proof. intros Hs Hp Hf. apply runs_bind. eapply runs_allQuiet; [exact Hs|exact Hp|]. intros w' a Hs'. by apply Hf. Qed.

Lemma runs_okQuietly {A B} j l D w (p : gprog (res groupError A)) (f : A -> gprog (res groupError B)) Q :
  stands j l D w -> allQuiet p -> (forall a w', stands j l D w' -> runs w' (f a) Q) ->
  (forall e w', stands j l D w' -> Q w' (Err e)) -> runs w (andOk p f) Q.
Proof.
  intros Hs Hp Hf He. eapply runs_quietly; [done..|]. intros [a|e] w' Hs'; [by apply Hf|]. by eapply runs_ret; eauto.
Qed.

Lemma runs_require {B} j l D w e b (f : unit -> gprog (res groupError B)) Q :
  stands j l D w -> (b = true -> runs w (f tt) Q) -> (forall e w', stands j l D w' -> Q w' (Err e)) ->
  runs w (andOk (require e b) f) Q.
Proof. intros Hs Hf He. destruct b; simpl; [by apply Hf|]. eapply (runs_ret (A := res groupError B)); eauto. Qed.

Lemma runs_saved {B} j l D w room a (f : unit -> gprog (res groupError B)) Q :
  stands j l D w -> grows (j !! room) a ->
  (forall w', stands (<[room := a]> j) l (fun d => d !! room = Some a) w' -> runs w' (f tt) Q) ->
  (forall e w', stands j l (fun _ => True) w' -> Q w' (Err e)) ->
  runs w (andOk (saveGroupAttempt room a) f) Q.
Proof.
  intros Hs Hg Hf He. apply runs_ok. eapply saveGroupAttempt_runs; [done|done| |].
  - intros w' Hs'. by apply Hf.
  - intros w' e Hs'. eapply (runs_ret (A := res groupError B)); eauto.
Qed.

Create HintDb quiet.
#[local] Hint Extern 1 (allQuiet (perform _)) => by apply allQuiet_perform : quiet.
#[local] Hint Extern 1 (allQuiet (Ret _)) => exact I : quiet.
#[local] Hint Extern 1 (allQuiet (require _ _)) => exact I : quiet.
#[local] Hint Extern 1 (allQuiet (some _ _)) => exact I : quiet.
#[local] Hint Extern 2 (allQuiet (andThen _ _)) => apply allQuiet_bind : quiet.
#[local] Hint Extern 2 (allQuiet (andOk _ _)) => apply allQuiet_ok : quiet.
#[local] Hint Extern 3 (allQuiet (if ?b then _ else _)) => destruct b : quiet.
#[local] Hint Extern 3 (allQuiet (match ?o with Some _ => _ | None => _ end)) => destruct o : quiet.

Lemma checkGhosts_quiet members participants allowed : allQuiet (checkGhosts members participants allowed).
Proof. revert allowed. induction participants as [|p l IH]; intros allowed; cbn [checkGhosts]; auto 10 with quiet. Qed.

Lemma validateGroupRoom_quiet p key : allQuiet (validateGroupRoom kc p key).
Proof. unfold validateGroupRoom, selfGhost. pose proof checkGhosts_quiet. auto 40 with quiet. Qed.

Lemma allJoined_quiet members users : allQuiet (allJoined kc members users).
Proof. induction users as [|u l IH]; cbn [allJoined]; unfold joinedAs; auto 12 with quiet. Qed.

Lemma verifyGroupBinding_quiet key info expected : allQuiet (verifyGroupBinding kc key info expected).
Proof. unfold verifyGroupBinding. pose proof allJoined_quiet. auto 12 with quiet. Qed.

Lemma inv_stands w : inv w -> stands (mem w) (created w, invited w, binds w) (fun _ => True) w.
Proof. done. Qed.

Lemma runs_bindRoom {A} j cs ns bs D w key room a (k : bool -> gprog A) Q :
  stands j (cs, ns, bs) D w -> j !! room = Some a -> ga_ChatID a <> 0 -> chatBound key a ->
  (forall ok w', stands j (cs, ns, bs ++ [(room, key)]) D w' -> runs w' (k ok) Q) ->
  runs w (Vis (UpdateRoomID key room) k) Q.
Proof.
  intros Hs Ha Hn Hb Hk w1 Hd. pose proof (stands_drift _ _ _ _ _ Hs Hd) as Hs1. split_and!; [apply Hs1|done|].
  intros ok w2 ->. apply Hk. destruct Hs1 as [Hi Hm [= <- <- <-] HD Hj]. constructor; try done. subst j.
  assert (Hcov : forall j, covers w1 j -> (exists a', j !! room = Some a' /\ ga_ChatID a' = ga_ChatID a) ->
    covers (mkWorld (mem w1) (disk w1) (locked w1) (created w1) (invited w1) (binds w1 ++ [(room, key)])) j).
  { intros j [Hc Hv Hbs] (a' & Ha' & E). constructor; [done..|]. simpl.
    intros r key' [Hin|Heq%list_elem_of_singleton]%elem_of_app; [by apply Hbs|]. simplify_eq.
    exists a'. split; [done|]. unfold chatBound in *. by rewrite E. }
  pose proof (inv_confirmed _ Hi _ _ Ha Hn) as Hdisk. destruct Hi as [[Hgd Hgc Hgi] Hm Hf Hl]. constructor; try done.
  - constructor; [by apply Hcov|done|done].
  - apply Hcov; [done|by exists a].
Qed.

(** Another operation may go on with the attempts of other rooms. *)
Definition others (room : string) (j : journal) (w : World) : Prop :=
  inv w /\ forall r, r <> room -> mem w !! r = j !! r.

Lemma stands_others j l D w room : stands j l D w -> others room j w.
Proof. intros [Hi Hm _ _ _]. split; [done|]. intros r _. by rewrite Hm. Qed.

Lemma stands_others_insert j l D w room a : stands (<[room := a]> j) l D w -> others room j w.
Proof. intros [Hi Hm _ _ _]. split; [done|]. intros r Hr. rewrite Hm. by apply lookup_insert_ne. Qed.

#[local] Hint Resolve stands_others stands_others_insert : quiet.

(** Go on past the operations that touch no journal. *)
Ltac quietly :=
  first [ eapply runs_okQuietly; [eassumption|by auto with quiet|intros ? ? ?|eauto with quiet]
        | eapply runs_quietly; [eassumption|by auto with quiet|intros ? ? ?] ].

Ltac stop := eapply runs_ret; [eassumption|eauto with quiet].

#[local] Hint Resolve validateGroupRoom_quiet verifyGroupBinding_quiet : quiet.

Lemma bindPortal_runs j l D w room a info roster :
  stands j l D w -> j !! room = Some a -> ga_ChatID a <> 0 ->
  runs w (bindPortal kc room a (makePortalKey (ga_ChatID a) (lg_ID kc)) info roster) (fun w' _ => others room j w').
Proof.
  intros Hs Ha Hn. destruct l as [[cs ns] bs]. unfold bindPortal. do 2 quietly.
  eapply runs_bindRoom; [eassumption|done..|intros ok wB HsB].
  eapply (runs_okQuietly (A := unit)); [eassumption|auto with quiet|intros ? ? ?|eauto with quiet].
  repeat quietly. eapply runs_saved; [eassumption| |intros ? ?|eauto with quiet]; [by rewrite Ha|stop].
Qed.

Lemma bindCreatedGroup_runs j l D w room a created :
  stands j l D w -> j !! room = Some a -> ga_ChatID a <> 0 ->
  runs w (bindCreatedGroup kc room a created) (fun w' _ => others room j w').
Proof.
  intros Hs Ha Hn. unfold bindCreatedGroup. do 2 quietly. quietly.
  eapply runs_quietly; [eassumption|by destruct created; auto with quiet|intros ? ? ?]. do 2 quietly.
  match goal with |- context [match ?p with (_, _) => _ end] => destruct p as [info roster] end.
  do 3 quietly. by eapply bindPortal_runs.
Qed.

(** ** CREATE and invitations *)

Lemma runs_create {A} j cs ns bs w room r a (k : res Sending.goerror CreateResponse -> gprog A) Q :
  stands j (cs, ns, bs) (fun d => d !! room = Some a) w -> room ∉ cs ->
  ga_ChatID a = 0 -> resolved a = false -> Participants a = MemberIDs r ->
  (forall other o, j !! other = Some o -> other <> room -> resolved o = true) ->
  (forall x w', stands j (cs ++ [room], ns, bs) (fun d => d !! room = Some a) w' -> runs w' (k x) Q) ->
  runs w (Vis (CreateChat room r) k) Q.
Proof.
  intros Hs Hnew Hc Hr Hp Hall Hk w1 Hd. pose proof (stands_drift _ _ _ _ _ Hs Hd) as Hs1.
  destruct Hs1 as [Hi Hm [= Hcs <- <-] HD Hj]. split_and!; [apply Hi| |].
  { split; [by exists a|]. rewrite Hm. done. }
  intros x w2 ->. apply Hk. destruct Hi as [[Hgd Hgc Hgi] Hcm Hf Hl].
  assert (Hcov : forall j, covers w1 j -> j !! room = Some a ->
    covers (mkWorld (mem w1) (disk w1) (locked w1) (created w1 ++ [room]) (invited w1) (binds w1)) j).
  { intros j' [Hc' Hv Hb] Ha. constructor; [|done..]. simpl.
    intros r' [Hin| ->%list_elem_of_singleton]%elem_of_app; [by apply Hc'|by exists a]. }
  constructor; try done; [|simpl; by rewrite Hcs]. constructor; [|simpl; apply Hcov; [done|by rewrite Hm]|done|done].
  constructor; [by apply Hcov| |done]. simpl. apply NoDup_app. split_and!; [done| |apply NoDup_singleton].
  intros r' Hin ->%list_elem_of_singleton. apply Hnew. by rewrite <-Hcs.
Qed.

Lemma runs_invite {A} j cs ns bs w room r a (k : res Sending.goerror AddMembersResponse -> gprog A) Q :
  stands j (cs, ns, bs) (fun d => d !! room = Some a) w -> room ∉ ns -> InviteAttempted a = true ->
  (forall x w', stands j (cs, ns ++ [room], bs) (fun d => d !! room = Some a) w' -> runs w' (k x) Q) ->
  runs w (Vis (AddMembers room r) k) Q.
Proof.
  intros Hs Hnew Ha Hk w1 Hd. pose proof (stands_drift _ _ _ _ _ Hs Hd) as Hs1.
  destruct Hs1 as [Hi Hm [= <- Hns <-] HD Hj]. split_and!; [apply Hi|done|].
  intros x w2 ->. apply Hk. destruct Hi as [[Hgd Hgc Hgi] Hcm Hf Hl].
  assert (Hcov : forall j, covers w1 j -> j !! room = Some a ->
    covers (mkWorld (mem w1) (disk w1) (locked w1) (created w1) (invited w1 ++ [room]) (binds w1)) j).
  { intros j' [Hc' Hv Hb] Hr. constructor; [done| |done]. simpl.
    intros r' [Hin| ->%list_elem_of_singleton]%elem_of_app; [by apply Hv|by exists a]. }
  constructor; try done; [|simpl; by rewrite Hns]. constructor; [|simpl; apply Hcov; [done|by rewrite Hm]|done|done].
  constructor; [by apply Hcov|done|]. simpl. apply NoDup_app. split_and!; [done| |apply NoDup_singleton].
  intros r' Hin ->%list_elem_of_singleton. apply Hnew. by rewrite <-Hns.
Qed.

(** The room has this attempt, with a chat. *)
Definition has (room : string) (a : groupCreateAttempt) (j0 : journal) (w : World) : Prop :=
  others room j0 w /\ mem w !! room = Some a /\ ga_ChatID a <> 0.

Definition ready {A} (room : string) (j0 : journal) (attemptOf : A -> groupCreateAttempt) (w : World) (r : res groupError A)
  : Prop :=
  match r with Ok x => has room (attemptOf x) j0 w | Err _ => others room j0 w end.

Lemma others_insert room a j w : others room (<[room := a]> j) w -> others room j w.
Proof. intros [Hi Ho]. split; [done|]. intros r Hr. rewrite (Ho r Hr). by apply lookup_insert_ne. Qed.

Lemma checkUnresolved_runs {B} j l D w (f : unit -> gprog (res groupError B)) Q :
  stands j l D w ->
  ((forall room a, j !! room = Some a -> resolved a = true) -> forall w', stands j l D w' -> runs w' (f tt) Q) ->
  (forall e w', stands j l D w' -> Q w' (Err e)) -> runs w (andOk checkUnresolvedGroupCreates f) Q.
Proof.
  intros Hs Hf He. unfold checkUnresolvedGroupCreates. apply runs_ok, runs_bind.
  eapply runs_quiet; [done|done|]. intros attempts w1 Hs1 [Hp _]. intros w2 Hd2.
  pose proof (stands_drift _ _ _ _ _ Hs1 Hd2) as Hs2. unfold require.
  destruct (forallb _ attempts) eqn:E; eapply (runs_ret (A := res groupError unit)); try done.
  - intros w3 Hs3. apply Hf; [|done]. intros room a Ha. rewrite forallb_forall in E.
    apply (E (room, a)). apply list_elem_of_In. rewrite Hp. apply elem_of_map_to_list. by rewrite (st_mem _ _ _ _ Hs1).
  - intros w3 Hs3. eapply (runs_ret (A := res groupError B)); eauto.
Qed.

Lemma createOnce_runs j l D w p request fingerprint :
  stands j l D w -> j !! gp_RoomID p = None ->
  runs w (createOnce kc p request fingerprint) (ready (gp_RoomID p) j fst).
Proof.
  intros Hs Hnone. destruct l as [[cs ns] bs]. unfold createOnce. cbv zeta. set (room := gp_RoomID p) in *.
  eapply checkUnresolved_runs; [done| |by simpl; eauto using stands_others]. intros Hall w1 Hs1.
  eapply runs_okQuietly; [done|auto with quiet|intros _ w2 Hs2|by simpl; eauto using stands_others].
  set (a := fresh fingerprint (MemberIDs request)).
  eapply runs_saved; [done|by rewrite Hnone| |by simpl; eauto using stands_others]. intros w3 Hs3.
  eapply runs_create; [exact Hs3| |done|done|done| |].
  { intros Hin. destruct (cov_created _ _ (inv_mem _ (st_inv _ _ _ _ Hs1)) room) as [o Ho].
    - pose proof (st_logs _ _ _ _ Hs1) as El. injection El as -> _ _. done.
    - rewrite (st_mem _ _ _ _ Hs1) in Ho. congruence. }
  { intros other o Ho Hne. rewrite lookup_insert_ne in Ho by done. eauto. }
  clear w w1 w2 w3 Hs Hs1 Hs2 Hs3. intros x w Hs.
  assert (Hgo : forall e w', stands (<[room := a]> j) (cs ++ [room], ns, bs) (fun d => d !! room = Some a) w' ->
    ready room j fst w' (@Err groupError (groupCreateAttempt * option ChatMeta.ChatRoom) e))
    by (intros e w' Hs'; by eapply stands_others_insert).
  destruct x as [response|e].
  - destruct (Z.leb_spec (cr_ChatID response) 0); [by eapply runs_ret; eauto|].
    apply runs_bind. eapply saveGroupAttempt_runs; [exact Hs| | |].
    + rewrite lookup_insert_eq. by split.
    + intros w' Hs'. eapply runs_ret; [exact Hs'|]. intros w2 Hs2. simpl. unfold has. simpl. split_and!; [| |lia].
      * apply others_insert with a. by eapply stands_others_insert.
      * rewrite (st_mem _ _ _ _ Hs2). apply lookup_insert_eq.
    + intros w' e Hs'. eapply runs_ret; [exact Hs'|]. intros w2 Hs2. simpl. by eapply stands_others_insert.
  - destruct (createRejected e); [|by eapply runs_ret; eauto].
    eapply runs_saved; [exact Hs| | |].
    + rewrite lookup_insert_eq. by split.
    + intros w' Hs'. eapply runs_ret; [exact Hs'|]. intros w2 Hs2. simpl. apply others_insert with a. by eapply stands_others_insert.
    + intros e' w' Hs'. simpl. by eapply stands_others_insert.
Qed.

Lemma attemptFor_runs j l D w p request fingerprint :
  stands j l D w -> runs w (attemptFor kc p request fingerprint j) (ready (gp_RoomID p) j fst).
Proof.
  intros Hs. unfold attemptFor. destruct (j !! gp_RoomID p) as [a|] eqn:Ea; [|by eapply createOnce_runs].
  eapply runs_ret; [exact Hs|]. intros w' Hs'. pose proof (stands_others _ _ _ _ (gp_RoomID p) Hs') as Ho.
  unfold earlierAttempt. destruct (negb _); [done|]. destruct (Rejected a); [done|].
  destruct (Z.eqb_spec (ga_ChatID a) 0); [done|]. simpl. split_and!; [done|by rewrite (st_mem _ _ _ _ Hs')|done].
Qed.

Lemma bindReady_runs w room j0 a created (Q : World -> res groupError PortalKey -> Prop) :
  has room a j0 w -> (forall w' r, others room j0 w' -> Q w' r) -> runs w (bindCreatedGroup kc room a created) Q.
Proof.
  intros ([Hi Ho] & Ha & Hn) HQ. eapply runs_mono; [eapply bindCreatedGroup_runs; [by apply inv_stands|done|done]|].
  intros w' r [Hi' Ho']. apply HQ. split; [done|]. intros r' Hr. rewrite (Ho' r' Hr). by apply Ho.
Qed.

Lemma CreateGroup_runs w p : inv w -> runs w (CreateGroup requestJSON kc p) (fun w' _ => inv w').
Proof.
  intros Hi. pose proof (inv_stands _ Hi) as Hs. unfold CreateGroup.
  assert (Hinv : forall j l D w', stands j l D w' -> inv w') by (intros ? ? ? ? []; done).
  destruct (groupCreateRequest _ _ p) as [[request fingerprint]|e]; [|by eapply runs_ret; eauto].
  eapply runs_quietly; [done|auto with quiet|intros c w1 Hs1].
  eapply runs_okQuietly; [done|auto with quiet|intros _ w2 Hs2|eauto].
  apply runs_bind. eapply runs_quiet; [done|done|]. intros j w3 Hs3 [Hj _]. rewrite (st_mem _ _ _ _ Hs3) in Hj. subst j.
  intros w4 Hd4. pose proof (stands_drift _ _ _ _ _ Hs3 Hd4) as Hs4. clear Hs3 Hd4 w3 Hs2 w2 Hs1 w1.
  apply runs_ok. eapply runs_mono; [by eapply attemptFor_runs|]. intros w5 [[a room]|e]; simpl.
  - intros Hhas. eapply bindReady_runs; [done|]. by intros w6 r [? _].
  - intros [Hi5 _]. intros w6 Hd6. by apply (drift_inv _ _ Hi5).
Qed.

Lemma has_stands room a j0 w : has room a j0 w -> stands (mem w) (created w, invited w, binds w) (fun _ => True) w.
Proof. intros [[Hi _] _]. by apply inv_stands. Qed.

Lemma others_mem room j w w' : others room (mem w) w' -> others room j w -> others room j w'.
Proof. intros [Hi' Ho'] [_ Ho]. split; [done|]. intros r Hr. rewrite (Ho' r Hr). by apply Ho. Qed.

Definition sameChat (a : groupCreateAttempt) (room : string) (j : journal) (w : World) (r : res groupError groupCreateAttempt)
  : Prop :=
  match r with
  | Ok a' => others room j w /\ mem w !! room = Some a' /\ ga_ChatID a' = ga_ChatID a
  | Err _ => others room j w
  end.

Lemma stands_same j l D w room a a' :
  stands (<[room := a']> j) l D w -> ga_ChatID a' = ga_ChatID a -> sameChat a room j w (Ok a').
Proof.
  intros Hs E. split_and!; [by eapply stands_others_insert|by rewrite (st_mem _ _ _ _ Hs), lookup_insert_eq|done].
Qed.

Lemma inviteMissing_runs j l D w room chatID a roster :
  stands j l D w -> j !! room = Some a -> runs w (inviteMissing kc room chatID a roster) (sameChat a room j).
Proof.
  intros Hs Ha. destruct l as [[cs ns] bs]. unfold inviteMissing.
  eapply runs_okQuietly; [done|auto with quiet|intros actual w1 Hs1|by simpl; eauto using stands_others].
  destruct (List.filter _ _) as [|m missing].
  { eapply runs_ret; [done|]. intros w2 Hs2. split_and!; [by eapply stands_others|by rewrite (st_mem _ _ _ _ Hs2)|done]. }
  eapply runs_require; [done|intros Hno%negb_true_iff|by simpl; eauto using stands_others].
  eapply runs_saved; [done|rewrite Ha; by split| |by simpl; eauto using stands_others]. intros w2 Hs2.
  eapply runs_invite; [exact Hs2| |done|].
  { intros Hin. destruct (cov_invited _ _ (inv_mem _ (st_inv _ _ _ _ Hs1)) room) as (o & Ho & Hm).
    - pose proof (st_logs _ _ _ _ Hs1) as El. by injection El as _ -> _.
    - rewrite (st_mem _ _ _ _ Hs1) in Ho. congruence. }
  intros x w3 Hs3. eapply runs_ret; [exact Hs3|]. intros w4 Hs4. destruct x as [r|e].
  - destruct (nonempty _); [by eapply stands_others_insert|by eapply stands_same].
  - by eapply stands_others_insert.
Qed.

Lemma reconcileBody_runs j l D w room chatID a invite :
  stands j l D w -> j !! room = Some a -> chatID <> 0 -> (ga_ChatID a <> 0 -> ga_ChatID a = chatID) ->
  runs w (reconcileBody kc room chatID a invite) (fun w' _ => others room j w').
Proof.
  intros Hs Ha Hn Hc. unfold reconcileBody. do 2 quietly.
  match goal with |- context [match ?p with (_, _) => _ end] => destruct p as [info roster] end. quietly.
  apply runs_ok. eapply runs_mono with (Q := sameChat a room j).
  - destruct invite; [by eapply inviteMissing_runs|]. eapply runs_ret; [eassumption|]. intros w3 Hs3.
    split_and!; [by eapply stands_others|by rewrite (st_mem _ _ _ _ Hs3)|done].
  - intros w3 [a'|e].
    + intros (Ho & Ha' & E). eapply runs_saved; [by apply inv_stands, Ho| | |].
      * rewrite Ha'. split; [done|]. simpl. rewrite E. intros Hc'. symmetry. by apply Hc.
      * intros w4 Hs4. eapply runs_mono; [eapply bindCreatedGroup_runs; [exact Hs4|by rewrite lookup_insert_eq|done]|].
        intros w5 r Ho5. refine (others_mem _ _ _ _ _ Ho). eapply others_insert. exact Ho5.
      * intros e w4 Hs4. refine (others_mem _ _ _ _ _ Ho). by eapply stands_others.
    + intros Ho w4 Hd. destruct Ho as [Hi Ho]. split; [by eapply drift_inv|].
      intros r Hr. destruct Hd as [-> | [_ ->]]; by apply Ho.
Qed.

Lemma reconcileClient_runs {A} j l D w room (body : gprog (res groupError A)) :
  stands j l D w -> (forall w', stands j l D w' -> runs w' body (fun w' _ => others room j w')) ->
  runs w (reconcileClient body) (fun w' _ => others room j w').
Proof.
  intros Hs Hb. unfold reconcileClient. eapply runs_quietly; [done|auto with quiet|intros c w1 Hs1].
  destruct c; [by apply Hb|].
  eapply runs_quietly; [done|auto with quiet|intros opened w2 Hs2].
  eapply runs_require; [done|intros _|eauto with quiet].
  eapply runs_quietly; [done|auto with quiet|intros connected w3 Hs3].
  apply runs_bind. eapply runs_mono with (Q := fun w' _ => others room j w').
  - destruct connected; [by apply Hb|]. stop.
  - intros w4 result Ho. assert (Hs4 : stands (mem w4) (created w4, invited w4, binds w4) (fun _ => True) w4)
      by apply inv_stands, Ho.
    eapply runs_quietly; [done|auto with quiet|intros released w5 Hs5]. eapply runs_ret; [exact Hs5|].
    intros w6 Hs6. refine (others_mem _ _ _ _ _ Ho). by eapply stands_others.
Qed.

Lemma reconcileAttempt_runs j l D w room chatID invite a :
  stands j l D w -> j !! room = Some a -> negb invite && (chatID <=? 0) = false ->
  runs w (reconcileAttempt requestJSON kc room chatID invite a) (fun w' _ => inv w').
Proof.
  intros Hs Ha Epos. unfold reconcileAttempt.
  assert (Hend : forall r, runs w (Ret r) (fun w' (_ : res groupError PortalKey) => inv w'))
    by (intros r; eapply runs_ret; [exact Hs|]; by intros ? []).
  destruct (resolved a); [by apply Hend|]. destruct (invite && (ga_ChatID a <=? 0)) eqn:Einv; [by apply Hend|].
  cbv zeta. set (chat := if invite then ga_ChatID a else chatID).
  destruct (negb (ga_ChatID a =? 0) && _) eqn:Esame; [by apply Hend|].
  destruct (groupCreateRequest _ _ _); [|by apply Hend].
  assert (Hchat : chat <> 0) by (subst chat; destruct invite; simpl in *; lia).
  eapply runs_okQuietly; [done|auto with quiet|intros _ w3 Hs3|by intros ? ? []].
  eapply runs_mono; [eapply reconcileClient_runs with (room := room); [exact Hs3|]|by intros ? ? [? _]].
  intros w4 Hs4. eapply reconcileBody_runs; [exact Hs4|done|done|]. lia.
Qed.

Lemma reconcileGroup_runs w room chatID invite :
  inv w -> runs w (reconcileGroup requestJSON kc room chatID invite) (fun w' _ => inv w').
Proof.
  intros Hi. pose proof (inv_stands _ Hi) as Hs. unfold reconcileGroup.
  destruct (negb invite && (chatID <=? 0)) eqn:Epos.
  { intros w' Hd. by eapply drift_inv. }
  apply runs_bind. eapply runs_quiet; [done|done|]. intros j w1 Hs1 [Hj _]. rewrite (st_mem _ _ _ _ Hs1) in Hj. subst j.
  intros w2 Hd2. pose proof (stands_drift _ _ _ _ _ Hs1 Hd2) as Hs2. unfold reconcileIn.
  destruct (mem w !! room) as [a|] eqn:Ea; [by eapply reconcileAttempt_runs|]. intros w3 Hd3. eapply drift_inv; [|done]. apply Hs2.
Qed.

(** The rest of the attempts are those in memory. *)
Definition waiting (attempts : list (string * groupCreateAttempt)) (w : World) : Prop :=
  NoDup attempts.*1 /\ forall room a, (room, a) ∈ attempts -> mem w !! room = Some a.

Lemma waiting_others room a attempts w w' :
  waiting ((room, a) :: attempts) w -> others room (mem w) w' -> waiting attempts w'.
Proof.
  intros [[Hn Hd]%NoDup_cons Hm] [_ Ho]. split; [done|]. intros r o Hin. rewrite Ho; [apply Hm; by right|].
  intros ->. apply Hn. apply list_elem_of_fmap. by exists (room, o).
Qed.

Lemma waiting_drift attempts w w' : waiting attempts w -> drift w w' -> waiting attempts w'.
Proof. intros [Hd Hm] [-> | [_ ->]]; by split. Qed.

Lemma waiting_tail x attempts w : waiting (x :: attempts) w -> waiting attempts w.
Proof. intros [[_ Hd]%NoDup_cons Hm]. split; [done|]. intros r o Hin. apply Hm. by right. Qed.

Lemma resumeAttempts_runs attempts w :
  inv w -> waiting attempts w -> runs w (resumeAttempts kc attempts) (fun w' _ => inv w').
Proof.
  revert w. induction attempts as [|[room a] attempts IH]; intros w Hi Hw; cbn [resumeAttempts].
  { intros w' Hd. by eapply drift_inv. }
  destruct (resolved a); [apply IH; [done|by eapply waiting_tail]|].
  destruct (Z.eqb_spec (ga_ChatID a) 0); [intros w' Hd; by eapply drift_inv|].
  apply runs_ok. eapply runs_mono; [eapply bindCreatedGroup_runs; [by apply inv_stands| |done]|].
  - apply Hw. by left.
  - intros w' [k|e] Ho; [|intros w2 Hd; by eapply drift_inv; [apply Ho|]].
    apply IH; [apply Ho|by eapply waiting_others].
Qed.

Lemma resumeGroupCreates_runs w : inv w -> runs w (resumeGroupCreates kc) (fun w' _ => inv w').
Proof.
  intros Hi. pose proof (inv_stands _ Hi) as Hs. unfold resumeGroupCreates. apply runs_bind.
  eapply runs_quiet; [done|done|]. intros attempts w1 Hs1 [Hp _]. eapply runs_ret; [exact Hs1|]. intros w2 Hs2.
  rewrite (st_mem _ _ _ _ Hs1) in Hp. apply resumeAttempts_runs; [apply Hs2|]. split.
  - rewrite Hp. apply NoDup_fst_map_to_list.
  - intros room a Hin. rewrite (st_mem _ _ _ _ Hs2). apply elem_of_map_to_list. by rewrite <-Hp.
Qed.

Lemma operation_runs w i : inv w -> runs w (operation i) (fun w' _ => inv w').
Proof.
  intros Hi.
  assert (Hdrop : forall A (p : gprog (res groupError A)), runs w p (fun w' _ => inv w') -> runs w (dropValue p) (fun w' _ => inv w')).
  { intros A p Hp. apply runs_bind. eapply runs_mono; [exact Hp|]. intros w' r Hi'. simpl. intros w2 Hd. by apply (drift_inv _ _ Hi'). }
  destruct i; apply Hdrop; eauto using CreateGroup_runs, reconcileGroup_runs, resumeGroupCreates_runs.
Qed.

(** ** Every reachable state *)

Definition safe (s : World * option (gprog unit)) : Prop :=
  match s.2 with
  | None => inv s.1
  | Some p => runs s.1 p (fun w _ => inv w)
  end.

Lemma safe_good w p : safe (w, p) -> good w.
Proof.
  destruct p as [[[]|o k]|]; unfold safe; simpl; intros Hs.
  - apply (Hs w), drift_refl.
  - apply (Hs w), drift_refl.
  - apply Hs.
Qed.

Lemma good_restart w : good w -> inv (setLocked false (setMem (disk w) w)).
Proof.
  intros [Hd Hc Hi]. constructor; [constructor| | |]; try done; try (destruct Hd; by constructor).
  intros room a Ha _. by exists a.
Qed.

Lemma step_safe s s' : safe s -> step s s' -> safe s'.
Proof.
  intros Hs Hstep. destruct Hstep as [w i|w o k a w' Hp|w|w p Hl|w p].
  - by apply operation_runs.
  - destruct (Hs w (drift_refl w)) as (_ & _ & Hk). by apply Hk.
  - by apply (Hs w), drift_refl.
  - assert (Hd : drift w (setDisk (mem w) w)) by (by right).
    destruct p as [p|]; unfold safe in *; simpl in *; [by eapply runs_drift|by eapply drift_inv].
  - apply good_restart. by eapply safe_good.
Qed.

Lemma steps_safe s s' : safe s -> rtc (step) s s' -> safe s'.
Proof. intros Hs Hr. revert Hs. induction Hr; eauto using step_safe. Qed.

(** A process started with a journal: what it says was requested counts as
    requested. *)
Definition start (j : journal) : World :=
  mkWorld j j false (map_to_list j).*1 (filter (fun e => InviteAttempted e.2 = true) (map_to_list j)).*1 [].

Lemma start_safe j : safe (start j, None).
Proof.
  assert (Hg : good (start j)).
  { constructor; simpl; [constructor; simpl| |].
    - intros room ([room' a] & -> & Hin)%list_elem_of_fmap. apply elem_of_map_to_list in Hin. by exists a.
    - intros room ([room' a] & -> & [Ha Hin]%list_elem_of_filter)%list_elem_of_fmap.
      apply elem_of_map_to_list in Hin. by exists a.
    - by intros room key ?%not_elem_of_nil.
    - apply NoDup_fst_map_to_list.
    - eapply sublist_NoDup; [apply (NoDup_fst_map_to_list j)|]. apply fmap_sublist, sublist_filter. }
  apply (good_restart _ Hg).
Qed.

(** ** What the journal promises *)

(** The operation a program does next. *)
Definition next (p : gprog unit) : option gop := match p with Vis o _ => Some o | Ret _ => None end.

(** C9: However creations, reconciliations, completions of invitations and
    reconnections follow each other, and wherever the process stops or a save
    fails, CREATE is sent at most once for a Matrix room and its missing members
    are invited at most once; a room for which CREATE was sent keeps an attempt in
    the database; and a room is never bound to two chats. *)
Theorem groups_created_once j w p :
  rtc step (start j, None) (w, p) ->
  NoDup (created w) /\ NoDup (invited w) /\
  (forall room, room ∈ created w -> is_Some (disk w !! room)) /\
  (forall room key key', (room, key) ∈ binds w -> (room, key') ∈ binds w -> key = key').
Proof.
  intros Hr. destruct (safe_good w p (steps_safe _ _ (start_safe j) Hr)) as [[Hc _ Hb] Hn Hi].
  split_and!; [done..|]. intros room key key' H1 H2. destruct (Hb _ _ H1) as (a & Ha & _ & ->).
  destruct (Hb _ _ H2) as (a' & Ha' & _ & ->). congruence.
Qed.

(** C20: When CREATE is about to be sent for a room, it was never sent for it, the
    database holds the room's unresolved attempt with exactly the members the
    request has, and the attempt of every other room is rejected or bound. *)
Theorem creation_recorded_first j w p room r :
  rtc step (start j, None) (w, Some p) -> next p = Some (CreateChat room r) ->
  (room ∉ created w) /\
  (exists a, disk w !! room = Some a /\ ga_ChatID a = 0 /\ resolved a = false /\ Participants a = MemberIDs r) /\
  (forall other a, mem w !! other = Some a -> other <> room -> resolved a = true).
Proof.
  intros Hr Hp. destruct p as [|o k]; [done|]. injection Hp as ->.
  destruct (steps_safe _ _ (start_safe j) Hr w (drift_refl w)) as (Hg & [Ha Ho] & Hk).
  split; [|done]. specialize (Hk (Err (Sending.mkError [] None)) _ eq_refl).
  destruct (safe_good _ (Some _) Hk) as [_ Hn _]. simpl in Hn. apply NoDup_app in Hn as (_ & Hn & _).
  intros Hin. by apply (Hn _ Hin), list_elem_of_singleton.
Qed.

(** ** Running a program *)

Definition outside : Type := World -> forall o : gop, option (gans o * World).
Definition lawful (env : outside) : Prop := forall w o a w', env w o = Some (a, w') -> performs w o a w'.

Fixpoint exec (env : outside) (n : nat) (w : World) (p : gprog unit) : World * gprog unit :=
  match n, p with
  | S n, Vis o k => match env w o with Some (a, w') => exec env n w' (k a) | None => (w, p) end
  | _, _ => (w, p)
  end.

Lemma exec_steps env n w p :
  lawful env -> rtc step (w, Some p) ((exec env n w p).1, Some (exec env n w p).2).
Proof.
  intros Hl. revert w p. induction n as [|n IH]; intros w p; [done|]. destruct p as [a|o k]; [done|]. simpl.
  destruct (env w o) as [[a w']|] eqn:E; [|done]. eapply rtc_l; [apply step_op, Hl, E|]. apply IH.
Qed.
End Steps.

(** ** Witnesses *)

Section Demo.
#[local] Existing Instances treeBson ChatMeta.demoMetaJson.

Definition demoLogin : Login := mkLogin 1 "me" "@me:x" "@bot:x".
Definition demoMembers : gmap string membership :=
  {["@me:x" := Join; "@bot:x" := Join; "@k2:x" := Join; "@k3:x" := Join]}.

(** Everything succeeds. *)
Definition smooth : outside := fun w o =>
  match o with
  | ReadJournal => Some (mem w, w)
  | RangeJournal => Some (map_to_list (mem w), w)
  | LockMetadata => if locked w then None else Some (tt, setLocked true w)
  | UnlockMetadata => Some (tt, setLocked false w)
  | SetJournal j => Some (tt, setMem j w)
  | SaveLogin => Some (true, setDisk (mem w) w)
  | LoadLogin => Some (Some (Some (disk w)), w)
  | MetadataClient | OpenDetached | ConnectDetached | ReleaseDetached | CreateEvent _ | DoublePuppet
  | GetPortalByKey _ | SavePortal _ | SaveCheckpoint _ _ => Some (true, w)
  | CreateChat room _ =>
      Some (Ok (mkCreateResponse 77 (Tree [])),
            mkWorld (mem w) (disk w) (locked w) (created w ++ [room]) (invited w) (binds w))
  | AddMembers room _ =>
      Some (Ok (mkAddMembersResponse None ""),
            mkWorld (mem w) (disk w) (locked w) (created w) (invited w ++ [room]) (binds w))
  | PortalByMXID _ => Some (Some None, w)
  | PowerLevelsOf _ => Some (Some (mkPower (fun _ => 100) (fun _ => 50) 50), w)
  | MembersOf _ => Some (Some demoMembers, w)
  | GhostMXID user => Some (Some ("@k" ++ user ++ ":x")%string, w)
  | StoreProfiles _ | UpdateInfo _ _ => Some (tt, w)
  | ChatInfoOf _ _ => Some (Some (mkChatInfo None None false, [1; 2; 3]), w)
  | ReadPortal _ => Some (mkPortalState "!g:x" false "" false "" false, w)
  | UpdateRoomID key room =>
      Some (true, mkWorld (mem w) (disk w) (locked w) (created w) (invited w) (binds w ++ [(room, key)]))
  | PortalByKey _ => Some (Some (Some "!g:x"), w)
  end.

Lemma smooth_lawful : lawful smooth.
Proof.
  intros w o. destruct o; simpl; intros a w' E; try (injection E as <- <-; by auto).
  destruct (locked w) eqn:El; [done|]. by injection E as <- <-.
Qed.

Definition demoParams : GroupCreateParams := mkParams "regular" "!g:x" "" false "" "" 0 (Some "trip") ["3"; "2"].
Definition demoJSON (_ : CreateRequest) : option string := Some "{}".
Definition demoCreate : gprog unit := operation demoJSON demoLogin (Create demoParams).

Definition demoRun (n : nat) : World * gprog unit := exec smooth n (start ∅) demoCreate.

Lemma demoRun_steps n : rtc (step demoJSON demoLogin) (start ∅, None) ((demoRun n).1, Some (demoRun n).2).
Proof. eapply rtc_l; [apply (step_start _ _ _ (Create demoParams))|]. apply exec_steps, smooth_lawful. Qed.

Lemma groups_created_once_witness :
  let w := (demoRun 80).1 in
  created w = ["!g:x"] /\ binds w = [("!g:x", mkPortalKey "77" "me")] /\
  (Bound <$> disk w !! "!g:x") = Some true /\ NoDup (created w) /\
  (forall room key key', (room, key) ∈ binds w -> (room, key') ∈ binds w -> key = key').
Proof.
  intros w. split; [vm_compute; reflexivity|]. split; [vm_compute; reflexivity|]. split; [vm_compute; reflexivity|].
  destruct (groups_created_once demoJSON demoLogin ∅ w (Some (demoRun 80).2) (demoRun_steps 80)) as (Hc & _ & _ & Hb).
  split; [exact Hc|exact Hb].
Defined.

Lemma creation_recorded_first_witness :
  let w := (demoRun 15).1 in let request := mkCreateRequest [2; 3] (mkCreateOptions true false "trip" "") in
  next (demoRun 15).2 = Some (CreateChat "!g:x" request) /\
  exists a, disk w !! "!g:x" = Some a /\ ga_ChatID a = 0 /\ resolved a = false /\ Participants a = [2; 3].
Proof.
  intros w request. assert (Hn : next (demoRun 15).2 = Some (CreateChat "!g:x" request)) by (vm_compute; reflexivity).
  split; [exact Hn|].
  destruct (creation_recorded_first demoJSON demoLogin ∅ w (demoRun 15).2 "!g:x" request (demoRun_steps 15) Hn) as (_ & Ha & _).
  exact Ha.
Defined.
End Demo.
