(* ===== verification/Outbound.v ===== *)
(** * Matrix events sent to KakaoTalk (src/internal/bridge/connector:
      outbound_attempts.go, outbound_edits.go, outbound_media.go, status.go,
      message_metadata.go, kv.go, group_matrix_invite.go and
      [HandleMatrixMessage] of client.go)

    Programs over the operations of Sending.v.  The framework's messages,
    portals and statuses are records with the fields the code uses; the texts of
    notices are left out.  [kc] is the login. *)

From S2P Require Import Prelude Identifiers Bytes Text Bson ChatPackets MediaUpload Sending.
From S2P Require Handling Events.

#[local] Open Scope string_scope.
#[local] Open Scope list_scope.
#[local] Open Scope Z_scope.

(** ** Statuses (status.go) *)

Inductive statusKind := StatusFail | StatusRetriable.
Inductive statusReason := Unsupported | NetworkError | GenericError.

(** [bridgev2.MessageStatus]. *)
Record MessageStatus := mkStatus {
  ms_Err : goerror;
  ms_Status : statusKind;
  ms_Reason : statusReason;
  ms_IsCertain : bool;
  ms_SendNotice : bool;
  ms_DisableMSS : bool;
}.

(** What a handler returns to the framework for an error. *)
Inductive failure := Plain (e : goerror) | Status_ (s : MessageStatus).

Definition plain (e : sentinel) : failure := Plain (errorOf e).

Definition noticeStatus (err : goerror) (kind : statusKind) (reason : statusReason) (certain : bool) : MessageStatus :=
  mkStatus err kind reason certain true false.

Definition certainRefusal (err : goerror) : failure := Status_ (noticeStatus err StatusFail Unsupported true).
Definition certainSendFailure (err : goerror) : failure := Status_ (noticeStatus err StatusFail NetworkError true).
Definition uncertainFailure (err : goerror) : failure := Status_ (noticeStatus err StatusFail NetworkError false).
Definition retriableFetchFailure (err : goerror) : failure :=
  Status_ (noticeStatus err StatusRetriable NetworkError true).

(** Every refusal of a reply has the same status; the texts differ. *)
Definition replyTargetStatus (err : goerror) : failure := certainRefusal err.

Definition isStatus (err : goerror) : bool := match status err with Some _ => true | None => false end.

Definition outboundSendError (err : goerror) : failure :=
  if Is err ErrPhotoNotCreated then certainSendFailure err
  else if Is err (Media ErrUploadRedirect) then certainRefusal err
  else if isStatus err then certainSendFailure err
  else if Is err (Media ErrUploadFiltered) then certainRefusal err
  else if Is err ErrUploadNotSent then certainSendFailure err
  else uncertainFailure err.

Definition outboundAcceptedWithoutPosition (err : goerror) : failure := uncertainFailure err.

(** ** The framework's values *)

Record Kakao := mkKakao { kc_userID : Z; kc_loginID : string; kc_appVersion : string }.

Inductive msgType := MsgText | MsgNotice | MsgEmote | MsgImage | MsgFile | MsgVideo | MsgAudio | MsgGallery | MsgOther.

(** [event.MessageEventContent]; [Source] stands for the URL and the encrypted
    file. *)
Record content := mkContent {
  MsgType_ : msgType;
  Body : string;
  FileName : string;
  Source : string;
  InfoSize : option Z;
  RelatesToReply : string; (* empty without a relation *)
}.

(** The gallery inside an event's content. *)
Record matrixGalleryContent := mkGallery { Images : list (option content); Caption : string }.

(** [event.Event]: its ID, and its content decoded as a gallery. *)
Record matrixEvent := mkMatrixEvent { EventID : string; Gallery : option matrixGalleryContent }.

(** A bridged room; [HasBridge] is whether its framework is set. *)
Record matrixPortal := mkMatrixPortal {
  mp_Key : PortalKey;
  HasBridge : bool;
  mp_DM : bool;
}.

Record MatrixMessage := mkMatrixMessage {
  mm_Portal : option matrixPortal;
  mm_Content : option content;
  mm_Event : option matrixEvent;
  mm_ReplyTo : option dbMessage;
}.

Record sentMessage := mkSent {
  sent_ID : string;
  sent_SenderID : string;
  sent_Timestamp : Z; (* nanoseconds; 0 for the zero time *)
  sent_Metadata : KakaoMessageMetadata;
}.

(** ** Metadata of messages (message_metadata.go) *)

Definition newKakaoMessageMetadata (chatID logID authorID messageType : Z) (preview : string) (linkID : Z)
  : KakaoMessageMetadata :=
  mkMeta chatID logID authorID messageType (truncateReplyPreview preview) linkID "" "" 0 0 0 false false.

Definition meta_valid (m : KakaoMessageMetadata) : bool :=
  (0 <? km_ChatID m) && (0 <? km_LogID m) && (0 <? km_AuthorID m) && (0 <? km_Type m) && (0 <=? km_LinkID m).

Definition metadataFromMessage (message : dbMessage) : res sentinel KakaoMessageMetadata :=
  let check m :=
    if negb (meta_valid m) then Err ErrInvalidReplyTarget
    else if (db_SenderID message =? "")%string || negb (db_SenderID message =? makeUserID (km_AuthorID m))%string
    then Err ErrReplySenderMismatch
    else Ok m in
  match db_Metadata message with
  | MetaPointer (Some m) | MetaValue m => check m
  | MetaPointer None => Err ErrInvalidReplyTarget
  | MetaOther => Err ErrMissingReplyMetadata
  end.

Definition mustParsePortalID (value : string) : Z :=
  match parseChatID value with Ok n => n | Err _ => 0 end.

(** A message stored under a key that is set and is not [portal]'s. *)
Definition otherRoom (room portal : PortalKey) : bool :=
  (nonempty (PortalID room) && negb (PortalID room =? PortalID portal)%string)
  || (nonempty (Receiver room) && negb (Receiver room =? Receiver portal)%string).

Definition replyTargetFor (message : dbMessage) (portal : PortalKey) : res sentinel ReplyTarget :=
  if otherRoom (db_Room message) portal then Err ErrCrossChatReply else
  let! m := metadataFromMessage message in
  match parseMessageID (db_ID message) with
  | Err _ => Err ErrCrossChatReply
  | Ok (chatID, logID) =>
      if negb (chatID =? km_ChatID m) || negb (chatID =? mustParsePortalID (PortalID portal))
         || negb (logID =? km_LogID m)
      then Err ErrCrossChatReply
      else if km_Type m =? messagetype.Mvoip then Err ErrCallReplyTarget
      else if (km_Type m =? messagetype.Leverage) && km_ReplyUnavailable m then Err ErrLeverageReplyTarget
      else
        let preview := if km_Type m =? messagetype.Photo then "Photo" else km_Preview m in
        Ok (mkReplyTarget (km_LogID m) (km_AuthorID m) (km_LinkID m) (km_Type m) preview)
  end.

(** [kakaoTime]: seconds since the epoch. *)
Definition kakaoTime (seconds : Z) : Z := if seconds <=? 0 then 0 else seconds * second.

Definition sentMessageOf (kc : Kakao) (chatID logID sendAt typ : Z) (preview : string) : sentMessage :=
  mkSent (makeMessageID chatID logID) (makeUserID (kc_userID kc)) (kakaoTime sendAt)
    (newKakaoMessageMetadata chatID logID (kc_userID kc) typ preview 0).

(** ** The durable attempt (outbound_attempts.go, kv.go) *)

Definition outboundAttemptRetention : Z := 30 * 24 * 3600 * second.

(** [w] decimal digits of [n]. *)
Definition digit (n : Z) : Ascii.ascii := Ascii.ascii_of_N (Z.to_N (48 + n mod 10)).

Fixpoint digits (w : nat) (n : Z) : string :=
  match w with
  | O => ""
  | S w => String.String (digit (n / 10 ^ Z.of_nat w)) (digits w n)
  end.

(** [fmt.Sprintf("%020d", n)] of an int64, which fits the width. *)
Definition pad20 (n : Z) : string := if n <? 0 then "-" +:+ digits 19 (- n) else digits 20 n.

Definition kvTimeStamp (ns : Z) : string := pad20 (ns / second).

Definition attemptPrefix (login : string) : string := "kakao:outbound-attempt:" +:+ login +:+ ":".
Definition attemptKey (login event : string) : string := attemptPrefix login +:+ event.

Section Handlers.
Context `{Bson} `{Json} `{MediaLib} `{!Events.EventContent}.
Variable kc : Kakao.

Definition reserveOutboundKV (eventID : string) : prog (res sentinel bool) :=
  let prefix := attemptPrefix (kc_loginID kc) in
  await! now := perform Now in
  await! cleaned := perform (DeleteOlderThan prefix (kvTimeStamp (now - outboundAttemptRetention))) in
  if negb cleaned then Ret (Err ErrStore) else
  await! inserted := perform (PutIfAbsent (prefix +:+ eventID) (kvTimeStamp now)) in
  match inserted with
  | None => Ret (Err ErrStore)
  | Some reserved => Ret (Ok reserved)
  end.

Definition alreadyAttempted : failure :=
  Status_ (mkStatus (errorOf ErrOutboundAlreadyAttempted) StatusFail GenericError false false true).

(** Called immediately before the one request of the event. *)
Definition beginOutboundEvent (evt : option matrixEvent) : prog (res failure unit) :=
  match evt with
  | None => Ret (Err (plain ErrNoEventIdentity))
  | Some evt =>
      if (EventID evt =? "")%string then Ret (Err (plain ErrNoEventIdentity)) else
      await! reserved := reserveOutboundKV (EventID evt) in
      Ret (match reserved with
           | Err e => Err (plain e)
           | Ok true => Ok tt
           | Ok false => Err alreadyAttempted
           end)
  end.

Definition beginOutbound (msg : MatrixMessage) : prog (res failure unit) := beginOutboundEvent (mm_Event msg).

(** The checks every handler starts with. *)
Definition checkSourceAccess (chatID : Z) : prog (res failure unit) :=
  await! err := perform (CheckAccess chatID) in
  Ret (match err with Some e => Err (plain (Access e)) | None => Ok tt end).

Definition chatOf (portal : matrixPortal) : res failure Z :=
  match parseChatID (PortalID (mp_Key portal)) with Ok n => Ok n | Err _ => Err (plain ErrInvalidID) end.

Definition currentClient : prog (res failure unit) :=
  await! c := perform CurrentClient in
  Ret (if c then Ok tt else Err (plain ErrNotLoggedIn)).

Definition accessRemoved : failure := plain (Access SourceAccess.errSourceAccessRemoved).

(** ** Text *)

Definition sendMatrixText (chatID : Z) (msg : MatrixMessage) (portal : matrixPortal) (c : content)
  : prog (res failure sentMessage) :=
  let body := match MsgType_ c with MsgEmote => "* " +:+ Body c | _ => Body c end in
  ok! (response, sentType) :=
    match mm_ReplyTo msg with
    | Some replyTo =>
        match replyTargetFor replyTo (mp_Key portal) with
        | Err e => Ret (Err (replyTargetStatus (errorOf e)))
        | Ok target =>
            ok! _ := beginOutbound msg in
            await! response := SendReply (mkReplyRequest chatID body target) in
            Ret (match response with
                 | Err e => Err (outboundSendError e)
                 | Ok response => Ok (response, messagetype.Reply)
                 end)
        end
    | None =>
        ok! _ := beginOutbound msg in
        await! response := SendText chatID body in
        Ret (match response with
             | Err e => Err (outboundSendError e)
             | Ok response => Ok (response, messagetype.Text)
             end)
    end in
  Ret (if wr_LogID response <=? 0 then Err (outboundAcceptedWithoutPosition (errorOf ErrWithoutPosition))
       else Ok (sentMessageOf kc chatID (wr_LogID response) (wr_SendAt response) sentType body)).

(** ** Media (outbound_media.go) *)

Definition who : account := mkAccount (kc_userID kc) (kc_appVersion kc).

Definition uploadRejectedStatus (err : goerror) : failure := certainRefusal err.
Definition imageReplyRefusal : failure := certainRefusal (errorOf ErrUnsupportedImageReply).
Definition uploadReplyRefusal : failure := certainRefusal (errorOf ErrUnsupportedUploadReply).
Definition mediaRefusal (e : MediaError) : failure := certainRefusal (errorOf (Media e)).

Definition withMediaSend (msg : MatrixMessage) (portal : matrixPortal) (c : content) (chatID : Z)
    (replyRefusal : failure) (rejected : option failure)
    (send : content -> prog (res failure unit) -> prog (res failure sentMessage)) : prog (res failure sentMessage) :=
  if (match mm_ReplyTo msg with Some _ => true | None => false end) || nonempty (RelatesToReply c)
  then Ret (Err replyRefusal)
  else if negb (HasBridge portal) then Ret (Err (plain ErrFailedToGetIntent))
  else match rejected with
       | Some f => Ret (Err f)
       | None =>
           await! ok := perform GetIntent in
           if negb ok then Ret (Err (plain ErrFailedToGetIntent)) else send c (beginOutbound msg)
       end.

Definition oversizedImage (c : content) : option failure :=
  match InfoSize c with
  | Some n => if MaxImageBytes <? n then Some (plain (Media ErrInvalidImage)) else None
  | None => None
  end.

(** The position of a finished upload. *)
Definition sentAt (response : res goerror (option Raw)) (typ : Z) (preview : string) (chatID : Z)
  : res failure sentMessage :=
  match response with
  | Err e => Err (outboundSendError e)
  | Ok log =>
      match SendResultPosition log with
      | Err e => Err (outboundAcceptedWithoutPosition (errorOf (Media e)))
      | Ok (logID, at_) => Ok (sentMessageOf kc chatID logID at_ typ preview)
      end
  end.

Definition sendMatrixImage (chatID : Z) (c : content) (begin : prog (res failure unit))
  : prog (res failure sentMessage) :=
  let caption := if nonempty (FileName c) && negb (Body c =? FileName c)%string then Body c else "" in
  if negb (ValidCaption caption) then Ret (Err (mediaRefusal ErrInvalidCaption)) else
  await! data := perform (Download (Source c)) in
  match data with
  | None => Ret (Err (retriableFetchFailure (errorOf ErrDownload)))
  | Some data =>
      match PrepareImage data with
      | Err e => Ret (Err (mediaRefusal e))
      | Ok _ =>
          ok! _ := begin in
          await! response := SendImage who chatID data caption in
          Ret (sentAt response messagetype.Photo "[image]" chatID)
      end
  end.

Definition sendMatrixUpload (chatID : Z) (c : content) (begin : prog (res failure unit))
  : prog (res failure sentMessage) :=
  let name := if nonempty (FileName c) then FileName c else Body c in
  let caption := if nonempty (FileName c) && negb (Body c =? FileName c)%string then Body c else "" in
  if (match InfoSize c with Some n => MaxUploadBytes <? n | None => false end)
  then Ret (Err (mediaRefusal ErrUploadTooLarge))
  else match ClassifyUpload name caption with
  | Err e => Ret (Err (mediaRefusal e))
  | Ok _ =>
      await! data := perform (Download (Source c)) in
      match data with
      | None => Ret (Err (retriableFetchFailure (errorOf ErrDownload)))
      | Some data =>
          match PrepareUpload name data caption with
          | Err e => Ret (Err (mediaRefusal e))
          | Ok u =>
              ok! _ := begin in
              await! response := SendUpload who chatID u in
              Ret (sentAt response (up_Type u) (up_Name u) chatID)
          end
      end
  end.

(** The loop that fetches the photos; [total] is the size so far. *)
Fixpoint fetchPhotos (images : list (option content)) (total : Z) : prog (res failure (list bytes)) :=
  match images with
  | [] => Ret (Ok [])
  | None :: _ => Ret (Err (mediaRefusal ErrInvalidAlbum))
  | Some image :: images =>
      await! data := perform (Download (Source image)) in
      match data with
      | None => Ret (Err (retriableFetchFailure (errorOf ErrDownload)))
      | Some data =>
          match PrepareImage data with
          | Err e => Ret (Err (mediaRefusal e))
          | Ok _ =>
              let total := total + size data in
              if MaxAlbumBytes <? total then Ret (Err (mediaRefusal ErrInvalidAlbum)) else
              ok! photos := fetchPhotos images total in
              Ret (Ok (data :: photos))
          end
      end
  end.

Definition sendMatrixAlbum (chatID : Z) (g : matrixGalleryContent) (begin : prog (res failure unit))
  : prog (res failure sentMessage) :=
  let album :=
    if albumSizeBad (Z.of_nat (length (Images g))) then Ret (Err (mediaRefusal ErrInvalidAlbum))
    else if negb (ValidCaption (Caption g)) then Ret (Err (mediaRefusal ErrInvalidCaption))
    else
      ok! photos := fetchPhotos (Images g) 0 in
      ok! _ := begin in
      await! response := SendAlbum who chatID photos (Caption g) in
      Ret (match response with
           | Err e => Err (if Is e ErrAlbumNotCreated then certainSendFailure e else outboundSendError e)
           | Ok response =>
               if wr_LogID response <=? 0 then Err (outboundAcceptedWithoutPosition (errorOf ErrWithoutPosition))
               else Ok (sentMessageOf kc chatID (wr_LogID response) (wr_SendAt response) messagetype.MultiPhoto
                          "[album]")
           end) in
  match Images g with
  | [Some image] =>
      let single := if nonempty (Caption g)
                    then mkContent (MsgType_ image) (Caption g) (Body image) (Source image) (InfoSize image)
                           (RelatesToReply image)
                    else image in
      sendMatrixImage chatID single begin
  | _ => album
  end.

Definition sendMatrixGallery (chatID : Z) (evt : option matrixEvent) (begin : prog (res failure unit))
  : prog (res failure sentMessage) :=
  match evt with
  | Some (mkMatrixEvent _ (Some g)) => sendMatrixAlbum chatID g begin
  | _ => Ret (Err (mediaRefusal ErrInvalidAlbum))
  end.

(** ** [HandleMatrixMessage] (client.go) *)

Definition supported (t : msgType) : bool := match t with MsgOther => false | _ => true end.

Definition HandleMatrixMessage (msg : MatrixMessage) : prog (res failure sentMessage) :=
  match mm_Portal msg, mm_Content msg with
  | Some portal, Some c =>
      if negb (supported (MsgType_ c)) then Ret (Err (plain ErrUnsupportedMessageType)) else
      ok! chatID := Ret (chatOf portal) in
      ok! _ := checkSourceAccess chatID in
      if (match mm_ReplyTo msg with None => nonempty (RelatesToReply c) | Some _ => false end)
      then Ret (Err (replyTargetStatus (errorOf ErrMissingReplyMetadata)))
      else
        ok! _ := currentClient in
        match MsgType_ c with
        | MsgImage =>
            withMediaSend msg portal c chatID imageReplyRefusal (oversizedImage c) (sendMatrixImage chatID)
        | MsgFile | MsgVideo | MsgAudio =>
            withMediaSend msg portal c chatID uploadReplyRefusal None (sendMatrixUpload chatID)
        | MsgGallery =>
            withMediaSend msg portal c chatID uploadReplyRefusal None
              (fun _ begin => sendMatrixGallery chatID (mm_Event msg) begin)
        | _ => sendMatrixText chatID msg portal c
        end
  | _, _ => Ret (Err accessRemoved)
  end.

(** ** Edits and deletions (outbound_edits.go) *)

Definition kakaoEditWindow : Z := 24 * 3600 * second.
Definition kakaoDeleteWindow : Z := 1440 * 60 * second.
Definition maxTextLength : Z := 10000.
Definition stickerTextPartID : string := "text".

Record MatrixEdit := mkMatrixEdit {
  me_Portal : option matrixPortal;
  me_Content : option content;
  me_Event : option matrixEvent;
  me_EditTarget : option dbMessage;
}.

(** The assertion that metadata is a [*KakaoMessageMetadata]. *)
Definition pointerMeta (m : metadata) : option KakaoMessageMetadata :=
  match m with MetaPointer m => m | _ => None end.

Definition editablePart (messageType : Z) (partID : string) : bool :=
  if (messageType =? messagetype.Sticker) || (messageType =? messagetype.AnimatedSticker)
  then (partID =? stickerTextPartID)%string
  else if messageType =? messagetype.Reply then (partID =? "")%string
  else false.

Definition deletedForAll (messageType : Z) : bool :=
  negb (Z.land messageType messagetype.DeletedAllChatTypeFlag =? 0).

Definition refuse (e : sentinel) : failure := certainRefusal (errorOf e).

Definition editExtra (chatID : Z) (m : KakaoMessageMetadata) : prog (res failure string) :=
  await! source := ReadEditSource chatID (km_LogID m) in
  Ret (match source with
       | Err e => Err (if Is e (Chat ErrEditSourceMissing) then certainRefusal e else certainSendFailure e)
       | Ok source =>
           if negb (es_AuthorID source =? kc_userID kc) || negb (es_Type source =? km_Type m)
           then Err (refuse ErrEditNotAllowed)
           else match ModifyExtra source with
                | Err _ => Err (refuse ErrEditNotAllowed)
                | Ok extra => Ok extra
                end
       end).

(** The metadata after an edit. *)
Definition edited (m : KakaoMessageMetadata) (revision : Z) (preview : string) : KakaoMessageMetadata :=
  mkMeta (km_ChatID m) (km_LogID m) (km_AuthorID m) (km_Type m) preview (km_LinkID m) (km_ConversionGap m)
    (km_GapReason m) (km_ReactionRevision m) (km_MiniReactionRevision m) revision (km_ReplyUnavailable m)
    (km_ReactionUnavailable m).

Definition withMetadata (part : dbMessage) (m : KakaoMessageMetadata) : dbMessage :=
  mkDbMessage (db_ID part) (db_PartID part) (db_Room part) (db_SenderID part) (db_Timestamp part)
    (MetaPointer (Some m)).

Fixpoint recordParts (target : dbMessage) (revision : Z) (text : string) (parts : list dbMessage) : prog unit :=
  match parts with
  | [] => Ret tt
  | part :: parts =>
      match pointerMeta (db_Metadata part) with
      | Some m =>
          if (db_PartID part =? db_PartID target)%string then recordParts target revision text parts
          else
            await! _ := perform (UpdateMessage (withMetadata part (edited m revision (truncateReplyPreview text)))) in
            recordParts target revision text parts
      | None => recordParts target revision text parts
      end
  end.

Definition recordEditOnOtherParts (target : dbMessage) (revision : Z) (text : string) : prog unit :=
  await! parts := perform (MessageParts (db_ID target)) in
  match parts with
  | None => Ret tt
  | Some parts => recordParts target revision text parts
  end.

(** What Kakao's rules say of an edit before its age; [None]: allowed. *)
Definition editRefused (chatID : Z) (target : dbMessage) : res failure KakaoMessageMetadata :=
  match pointerMeta (db_Metadata target) with
  | None => Err (refuse ErrEditNotAllowed)
  | Some m =>
      if negb (km_ChatID m =? chatID) || (km_LogID m <=? 0) then Err (refuse ErrEditNotAllowed)
      else if negb (km_AuthorID m =? kc_userID kc) then Err (refuse ErrEditNotAllowed)
      else if deletedForAll (km_Type m) then Err (refuse ErrEditNotAllowed)
      else if negb (km_Type m =? messagetype.Text) && negb (editablePart (km_Type m) (db_PartID target))
      then Err (refuse ErrEditNotAllowed)
      else Ok m
  end.

(** The answer is the target with the metadata the handler leaves in it, which
    the framework saves. *)
Definition HandleMatrixEdit (msg : MatrixEdit) : prog (res failure dbMessage) :=
  match me_Portal msg, me_Content msg, me_EditTarget msg with
  | Some portal, Some c, Some target =>
      ok! chatID := Ret (chatOf portal) in
      ok! _ := checkSourceAccess chatID in
      ok! m := Ret (editRefused chatID target) in
      await! now := perform Now in
      if kakaoEditWindow <? now - db_Timestamp target then Ret (Err (refuse ErrEditNotAllowed)) else
      let body := Body c in
      if (body =? km_Preview m)%string then Ret (Ok target) else
      if (body =? "")%string || (maxTextLength <? len body) then Ret (Err (refuse ErrEditNotAllowed)) else
      ok! _ := currentClient in
      ok! extra := (if km_Type m =? messagetype.Text then Ret (Ok "{}") else editExtra chatID m) in
      ok! _ := beginOutboundEvent (me_Event msg) in
      await! revision := ModifyMessage (mkModifyRequest chatID (km_LogID m) (km_Type m) body extra) in
      match revision with
      | Err e => Ret (Err (outboundSendError e))
      | Ok revision =>
          let target := withMetadata target (edited m revision body) in
          await! _ := recordEditOnOtherParts target revision body in
          Ret (Ok target)
      end
  | _, _, _ => Ret (Err accessRemoved)
  end.

Record MatrixMessageRemove := mkMatrixMessageRemove {
  mr_Portal : option matrixPortal;
  mr_Event : option matrixEvent;
  mr_TargetMessage : option dbMessage;
}.

Definition matrixDeletionKey (messageID : string) : string :=
  "kakao:matrix-deleted:" +:+ kc_loginID kc +:+ ":" +:+ messageID.

Definition recordMatrixDeletion (messageID : string) : prog unit :=
  await! now := perform Now in
  await! _ := perform (PutIfAbsent (matrixDeletionKey messageID) (kvTimeStamp now)) in
  Ret tt.

Definition hasStatus (err : goerror) (n : Z) : bool :=
  match status err with Some (_, s) => s =? n | None => false end.

Definition HandleMatrixMessageRemove (msg : MatrixMessageRemove) : prog (res failure unit) :=
  match mr_Portal msg, mr_TargetMessage msg with
  | Some portal, Some target =>
      ok! chatID := Ret (chatOf portal) in
      ok! _ := checkSourceAccess chatID in
      match pointerMeta (db_Metadata target) with
      | None => Ret (Err (refuse ErrDeleteNotAllowed))
      | Some m =>
          if negb (km_ChatID m =? chatID) || (km_LogID m <=? 0) then Ret (Err (refuse ErrDeleteNotAllowed))
          else if deletedForAll (km_Type m) then Ret (Ok tt)
          else if km_Type m =? messagetype.Mvoip then Ret (Err (refuse ErrCallDeleteNotSupported))
          else if negb (km_AuthorID m =? kc_userID kc) then Ret (Err (refuse ErrDeleteNotAllowed))
          else if km_Type m =? messagetype.Leverage then Ret (Err (refuse ErrLeverageDeleteNotSupported))
          else
            await! now := perform Now in
            if kakaoDeleteWindow <? now - db_Timestamp target then Ret (Err (refuse ErrDeleteNotAllowed)) else
            ok! _ := currentClient in
            ok! _ := beginOutboundEvent (mr_Event msg) in
            await! reply := DeleteMessage (mkDeleteRequest chatID (km_LogID m)) in
            match reply with
            | Ok _ => await! _ := recordMatrixDeletion (db_ID target) in Ret (Ok tt)
            | Err e =>
                if hasStatus e StatusAlreadyDeleted
                then await! _ := recordMatrixDeletion (db_ID target) in Ret (Ok tt)
                else if hasStatus e StatusDeleteTimeExpired || hasStatus e StatusDeleteTypeNotAllowed
                then Ret (Err (refuse ErrDeleteNotAllowed))
                else Ret (Err (outboundSendError e))
            end
      end
  | _, _ => Ret (Err accessRemoved)
  end.

(** ** Invitations (group_matrix_invite.go) *)

Definition teamChatMetaType : Z := 15.
Definition isTeam (data : chatData) : bool := existsb (Z.eqb teamChatMetaType) (cd_MetaTypes data).
Definition isRegularGroup (data : chatData) : bool := (cd_Type data =? "MultiChat")%string && (cd_LinkID data =? 0).

(** A refusal clears the ghost's invite first. *)
Definition refuseInvite {A} (ghost : string) (e : goerror) : prog (res failure A) :=
  await! _ := perform (RevokeMembership ghost) in Ret (Err (certainRefusal e)).

(** The verified roster, and whether the chat is a team's. *)
Definition storedGroupRoster (chatID : Z) : prog (option (list Z * bool)) :=
  await! roster := perform (VerifiedRoster chatID) in
  match roster with
  | [] => Ret None
  | _ =>
      await! data := perform (Snapshot chatID) in
      Ret (match data with
           | Some data => if isRegularGroup data then Some (roster, isTeam data) else None
           | None => None
           end)
  end.

Definition readInviteGroup (chatID : Z) : prog (res goerror (list Z * bool)) :=
  ok! data := perform (ChatInfo chatID) in
  if negb (cd_ChatID data =? chatID) then Ret (Err (errorOf ErrChatInfoMismatch))
  else if negb (isRegularGroup data) then Ret (Err (errorOf ErrInviteNotRegularGroup))
  else if isTeam data then Ret (Ok ([], true))
  else
    ok! members := perform (MemberList chatID) in
    Ret (Ok (members, false)).

Definition invitationFeed (chatID : Z) (chatLog : option Raw) : option (list Z) :=
  match chatLog with
  | None => None
  | Some log =>
      match Events.DecodeChatLog chatID log with
      | Ok (Events.MemberAdded c _ members) =>
          if c =? chatID then Some (Events.UserID <$> members) else None
      | _ => None
      end
  end.

Definition unconfirmed (e : goerror) : failure := Status_ (noticeStatus e StatusFail GenericError false).

Definition sendInvite (evt : option matrixEvent) (chatID userID : Z) (ghost : string) (stored : bool)
  : prog (res failure unit) :=
  ok! _ := beginOutboundEvent evt in
  await! reply := AddMembers (mkAddMembersRequest chatID [userID]) in
  match reply with
  | Err e =>
      if isStatus e then refuseInvite ghost (errorOf ErrInviteRefused)
      else
        await! _ := perform (RefreshMembership chatID None) in
        Ret (Err (unconfirmed (errorOf ErrInviteUnconfirmed)))
  | Ok response =>
      let warned := nonempty (ar_Warning response) in
      let feed := if negb warned && stored then invitationFeed chatID (ar_ChatLog response) else None in
      await! _ := perform (RefreshMembership chatID feed) in
      Ret (if warned then Err (unconfirmed (errorOf ErrInviteUnconfirmed)) else Ok tt)
  end.

Definition handleMatrixInvite (portal : option matrixPortal) (evt : option matrixEvent) (ghost : string)
  : prog (res failure unit) :=
  match portal with
  | None => refuseInvite ghost (errorOf ErrInviteNotRegularGroup)
  | Some portal =>
      if mp_DM portal then refuseInvite ghost (errorOf ErrInviteNotRegularGroup) else
      ok! chatID := Ret (chatOf portal) in
      ok! userID := Ret (match parseUserID ghost with Ok n => Ok n | Err _ => Err (plain ErrInvalidID) end) in
      ok! _ := checkSourceAccess chatID in
      ok! _ := currentClient in
      await! known := storedGroupRoster chatID in
      await! group := (match known with Some g => Ret (Ok g) | None => readInviteGroup chatID end) in
      let stored := match known with Some _ => true | None => false end in
      match group with
      | Err e =>
          if Is e ErrInviteNotRegularGroup then refuseInvite ghost e else Ret (Err (Plain e))
      | Ok (roster, team) =>
          if team then refuseInvite ghost (errorOf ErrInviteNotRegularGroup)
          else if existsb (Z.eqb userID) roster
          then if stored then Ret (Ok tt)
               else await! _ := perform (RefreshMembership chatID None) in Ret (Ok tt)
          else sendInvite evt chatID userID ghost stored
      end
  end.
End Handlers.
