(* ===== verification/SendingFacts.v ===== *)
(** * Sending: facts

    An execution of a program is the list of the operations performed with their
    answers.  [wp] follows a program with a view of what happened so far and
    says what it may do next and what it returns; the theorems about executions
    are read off it. *)

From S2P Require Import Prelude Identifiers Bytes Text Bson ChatLog ChatPackets MediaUpload Sending Outbound.

#[local] Open Scope string_scope.
#[local] Open Scope list_scope.
#[local] Open Scope Z_scope.

Section Executions.
Context `{Bson} `{Json} `{MediaLib}.

Inductive happened := Ev (o : op) (a : ans o).

Inductive exec {A} : prog A -> list happened -> prog A -> Prop :=
| exec_here p : exec p [] p
| exec_step o k a tr p : exec (k a) tr p -> exec (Vis o k) (Ev o a :: tr) p.

(** ** What an operation means *)

(** The request that changes the chat: a message, an edit, a deletion, an
    invitation; a POST of a photo or file makes a message when its stream is
    complete. *)
Definition creates (o : op) : bool :=
  match o with
  | Roundtrip command _ =>
      existsb (String.eqb command) ["WRITE"; "WRITEMEDIA"; "MODIFYMSG"; "DELETEMSG"; "ADDMEM"; "CREATE"]
  | MediaRequest command _ => (command =? PostCommand)%string
  | _ => false
  end.

(** What the source is told of an event: the requests that write, change or
    upload.  Connecting, and reading a message, a chat or its members to check an edit or an
    invitation, tell it nothing of the event and are not part of it. *)
Definition reaches (o : op) : bool :=
  match o with
  | Roundtrip command _ => negb (command =? "GETMSGS")%string
  | DialMedia _ _ | MediaRequest _ _ | Encrypt _ | WriteFrame _ _ | ReadPacket _
  | WebPrepare _ _ _ _ | WebChunk _ _ | WebReady _ _ => true
  | _ => false
  end.

Definition statusNot0 (body : Raw) : bool := match Status body with Ok n => negb (n =? 0) | Err _ => false end.

Definition refusedPacket (p : packet) : bool :=
  (pk_Method p =? CompleteCommand)%string && statusNot0 (pk_Body p).

Definition writesMessage (command : string) : bool := existsb (String.eqb command) ["WRITE"; "WRITEMEDIA"].

(** After this the message may exist: it was written, or bytes of it reached
    the media server, or the server was waited for. *)
Definition madeBy (e : happened) : bool :=
  match e with
  | Ev (Roundtrip command _) _ => writesMessage command
  | Ev (WriteFrame command _) (written, done) => (command =? PostCommand)%string && (done || negb (written =? 0))
  | Ev (ReadPacket command) _ => (command =? PostCommand)%string
  | _ => false
  end.

(** The server answered with a status that refuses it. *)
Definition refusedBy (e : happened) : bool :=
  match e with
  | Ev (Roundtrip command _) (Some reply) => writesMessage command && statusNot0 reply
  | Ev (ReadPacket command) (Some p) => (command =? PostCommand)%string && refusedPacket p
  | Ev (MediaRequest command _) (Some (_, pending)) => (command =? PostCommand)%string && existsb refusedPacket pending
  | _ => false
  end.

Definition grantedBy (chat : Z) (e : happened) : bool :=
  match e with Ev (CheckAccess c) None => c =? chat | _ => false end.

Definition reservedBy (login event : string) (e : happened) : bool :=
  match e with Ev (PutIfAbsent key _) (Some true) => (key =? attemptKey login event)%string | _ => false end.

(** ** Following a program *)

Record view := mkView {
  v_access : bool;
  v_reserved : bool;
  v_created : nat;
  v_made : bool;
  v_refused : bool;
  v_now : option Z; (* the last time read *)
}.

Definition start : view := mkView false false 0 false false None.

Section Follow.
Context (chat : Z) (login event : string).

Definition next (v : view) (e : happened) : view :=
  mkView (v_access v || grantedBy chat e) (v_reserved v || reservedBy login event e)
    ((if creates (match e with Ev o _ => o end) then 1 else 0) + v_created v)
    (v_made v || madeBy e) (v_refused v || refusedBy e)
    (match e with Ev Now t => Some t | _ => v_now v end).

Definition attemptFamily : string := "kakao:outbound-attempt:".

(** What may be done: the source is reached only for a chat open to the call and
    after its attempt was reserved, a change is requested at most once, and the
    rows of attempts are written and cleaned with the time just read. *)
Definition allowed (v : view) (o : op) : Prop :=
  (reaches o = true -> v_access v = true /\ v_reserved v = true) /\
  (creates o = true -> v_created v = 0%nat /\ v_reserved v = true) /\
  match o with
  | PutIfAbsent key value =>
      (key = attemptKey login event /\ exists t, v_now v = Some t /\ value = kvTimeStamp t) \/
      String.prefix attemptFamily key = false
  | DeleteOlderThan prefix stamp =>
      prefix = attemptPrefix login /\
      exists t, v_now v = Some t /\ stamp = kvTimeStamp (t - outboundAttemptRetention)
  | _ => True
  end.

Fixpoint wp {A} (v : view) (p : prog A) (Q : view -> A -> Prop) : Prop :=
  match p with
  | Ret a => Q v a
  | Vis o k => allowed v o /\ forall a, wp (next v (Ev o a)) (k a) Q
  end.

Lemma wp_mono {A} v (p : prog A) (Q Q' : view -> A -> Prop) :
  wp v p Q -> (forall v a, Q v a -> Q' v a) -> wp v p Q'.
Proof.
  intros Hp HQ. revert v Hp. induction p as [a|o k IH]; intros v; simpl; [apply HQ|].
  intros [Ha Hk]. split; [done|]. intros a. apply IH, Hk.
Qed.

Lemma wp_bind {A B} v (p : prog A) (f : A -> prog B) Q :
  wp v p (fun v a => wp v (f a) Q) -> wp v (andThen p f) Q.
Proof.
  revert v. induction p as [a|o k IH]; intros v; simpl; [done|].
  intros [Ha Hk]. split; [done|]. intros a. apply IH, Hk.
Qed.

Lemma wp_perform v o Q :
  allowed v o -> (forall a, Q (next v (Ev o a)) a) -> wp v (perform o) Q.
Proof. intros Ha HQ. by split. Qed.

Lemma wp_ret {A} v (a : A) (Q : view -> A -> Prop) : Q v a -> wp v (Ret a) Q.
Proof. done. Qed.

Lemma wp_andOk {E A B} v (p : prog (res E A)) (f : A -> prog (res E B)) Q :
  wp v p (fun v r => match r with Ok a => wp v (f a) Q | Err e => Q v (Err e) end) -> wp v (andOk p f) Q.
Proof.
  intros Hp. apply wp_bind. eapply wp_mono; [exact Hp|]. by intros v' [e|a] HQ.
Qed.

Lemma wp_exec {A} v (p q : prog A) tr Q :
  wp v p Q -> exec p tr q -> wp (foldl next v tr) q Q.
Proof.
  intros Hp He. revert v Hp. induction He as [p|o k a tr p _ IH]; intros v Hp; [done|].
  simpl. apply IH. destruct Hp as [_ Hk]. apply Hk.
Qed.

(** ** Errors that say nothing was created *)

(** The errors [outboundSendError] reports as certain. *)
Definition certainErr (e : goerror) : bool :=
  Is e ErrPhotoNotCreated || Is e (Media ErrUploadRedirect) || isStatus e || Is e (Media ErrUploadFiltered)
  || Is e ErrUploadNotSent.

Lemma Is_errorOf e s : Is (errorOf e) s = bool_decide (s = e).
Proof. unfold Is, errorOf. simpl. apply bool_decide_ext. by rewrite list_elem_of_singleton. Qed.

Lemma Is_wrap e err s : Is (wrap e err) s = bool_decide (s = e) || Is err s.
Proof.
  unfold Is, wrap. simpl. rewrite <-bool_decide_or. apply bool_decide_ext. apply elem_of_cons.
Qed.

Lemma Is_status command n s : Is (statusError command n) s = bool_decide (s = ErrStatusReply).
Proof. unfold Is, statusError. simpl. apply bool_decide_ext. by rewrite list_elem_of_singleton. Qed.

(** An error of one sentinel is certain only if it is one of these. *)
Lemma certainErr_errorOf s :
  certainErr (errorOf s) =
  bool_decide (s ∈ [ErrPhotoNotCreated; Media ErrUploadRedirect; Media ErrUploadFiltered; ErrUploadNotSent]).
Proof.
  unfold certainErr. rewrite !Is_errorOf. unfold isStatus, errorOf. simpl.
  rewrite <-!bool_decide_or, orb_false_r, <-!bool_decide_or. apply bool_decide_ext.
  rewrite !elem_of_cons, elem_of_nil. intuition congruence.
Qed.

Lemma certainErr_chat {A} (r : res ChatPackets.Error A) e :
  chatErr r = Err e -> certainErr e = false /\ Is e (Media ErrUploadRedirect) = false.
Proof. destruct r as [|err]; intros [= <-]. by rewrite certainErr_errorOf, Is_errorOf. Qed.

(** ** Views along a send *)

(** A view in which the send may go on. *)
Definition live (v : view) : Prop := v_access v = true /\ v_reserved v = true.

(** Nothing was requested that could change the chat. *)
Definition ready (v : view) : Prop :=
  live v /\ v_created v = 0%nat /\ v_made v = false /\ v_refused v = false.

(** No message can exist, or the server refused it. *)
Definition undone (v : view) : Prop := v_made v = false \/ v_refused v = true.

Definition neutral (e : happened) : bool :=
  negb (creates (match e with Ev o _ => o end)) && negb (madeBy e) && negb (refusedBy e).

Lemma next_live v e : live v -> live (next v e).
Proof. intros [Ha Hr]. unfold live, next. simpl. by rewrite Ha, Hr. Qed.

Lemma next_ready v e : neutral e = true -> ready v -> ready (next v e).
Proof.
  unfold neutral. intros Hn (Hl & Hc & Hm & Hr). rewrite !andb_true_iff, !negb_true_iff in Hn.
  destruct Hn as [[Hn1 Hn2] Hn3]. split; [by apply next_live|]. unfold next. simpl.
  rewrite Hn1, Hn2, Hn3, Hc, Hm, Hr. done.
Qed.

Lemma allowed_live v o :
  live v -> creates o = false ->
  match o with PutIfAbsent _ _ | DeleteOlderThan _ _ => False | _ => True end -> allowed v o.
Proof.
  intros Hl Hc Ho. split; [done|]. split; [by rewrite Hc|]. by destruct o.
Qed.

Lemma allowed_create v o :
  live v -> v_created v = 0%nat ->
  match o with PutIfAbsent _ _ | DeleteOlderThan _ _ => False | _ => True end -> allowed v o.
Proof. intros Hl Hc Ho. split; [done|]. split; [intros _; split; [done|apply Hl]|]. by destruct o. Qed.

(** A request that creates nothing. *)
Lemma wp_request_neutral v command body Q :
  ready v -> creates (Roundtrip command body) = false -> writesMessage command = false ->
  (forall v' r, ready v' -> match r with
                            | Ok reply => True
                            | Err e => Is e (Media ErrUploadRedirect) = false
                            end -> Q v' r) ->
  wp v (request command body) Q.
Proof.
  intros Hv Hc Hw HQ. unfold request. apply wp_bind, wp_perform.
  { apply allowed_live; [apply Hv|done|done]. }
  intros reply. set (v1 := next _ _).
  assert (Hv1 : ready v1).
  { apply next_ready; [|done]. unfold neutral. rewrite Hc. simpl. rewrite Hw. by destruct reply. }
  destruct reply as [raw|]; [|by apply HQ; rewrite ?Is_errorOf].
  destruct (Status raw) as [n|e]; [|by apply HQ; rewrite ?Is_errorOf].
  destruct (n =? 0); apply HQ; by rewrite ?Is_status.
Qed.

(** The request that creates: its status tells whether it was refused. *)
Lemma wp_request_create v command body Q :
  live v -> v_created v = 0%nat -> v_made v = false -> creates (Roundtrip command body) = true ->
  (forall v' r, match r with
                | Ok _ => True
                | Err e => (certainErr e = true -> undone v')
                end -> Q v' r) ->
  wp v (request command body) Q.
Proof.
  intros Hl Hc Hm Hcr HQ. unfold request. apply wp_bind, wp_perform; [by apply allowed_create|].
  intros reply. set (v1 := next _ _).
  destruct reply as [raw|]; [|apply HQ; by rewrite certainErr_errorOf].
  destruct (Status raw) as [n|e] eqn:E; [|apply HQ; by rewrite certainErr_errorOf].
  destruct (n =? 0) eqn:En; apply HQ; [done|]. intros _. unfold undone, v1, next. simpl.
  rewrite Hm. destruct (writesMessage command); [right|by left].
  unfold statusNot0. by rewrite E, En, orb_true_r.
Qed.

(** ** Simple sends *)

(** What the connector relies on of a client's send. *)
Definition sends {A} (p : prog (res goerror A)) : Prop :=
  forall v, ready v -> wp v p (fun v' r => match r with
                                           | Ok _ => True
                                           | Err e => certainErr e = true -> undone v'
                                           end).

Lemma ready_undone v : ready v -> undone v.
Proof. intros (_ & _ & Hm & _). by left. Qed.

Lemma sends_withSession {A} (p : prog (res goerror A)) : sends p -> sends (withSession p).
Proof.
  intros Hp v Hv. apply wp_bind, wp_perform; [by apply allowed_live; [apply Hv|..]|].
  intros [e|]; [|apply Hp; by apply next_ready].
  intros _. apply ready_undone. by apply next_ready.
Qed.

Lemma sends_call {A} command body (decode : Raw -> res ChatPackets.Error A) :
  (forall body, creates (Roundtrip command body) = true) -> sends (call command body decode).
Proof.
  intros Hc v Hv. unfold call. apply wp_andOk, wp_ret.
  destruct (chatErr body) as [b|e] eqn:E; cycle 1.
  { apply certainErr_chat in E as [E _]. by rewrite E. }
  apply wp_andOk. destruct Hv as (Hl & Hn & Hm & Hr).
  apply wp_request_create; [done..|]. intros v' [reply|e] He; [|done]. apply wp_ret.
  destruct (chatErr (decode reply)) as [a|e] eqn:E'; [done|].
  apply certainErr_chat in E' as [E' _]. by rewrite E'.
Qed.

Lemma SendText_sends chatID message : sends (SendText chatID message).
Proof.
  apply sends_withSession. unfold session_SendText. destruct (WriteRequest_Validate _).
  - intros v Hv. simpl. by rewrite certainErr_errorOf.
  - by apply sends_call.
Qed.

Lemma SendReply_sends r : sends (SendReply r).
Proof. apply sends_withSession. by apply sends_call. Qed.

Lemma ModifyMessage_sends r : sends (ModifyMessage r).
Proof. apply sends_withSession. by apply sends_call. Qed.

Lemma DeleteMessage_sends r : sends (DeleteMessage r).
Proof. apply sends_withSession. by apply sends_call. Qed.

Lemma AddMembers_sends r : sends (AddMembers r).
Proof. apply sends_withSession. by apply sends_call. Qed.
End Follow.
End Executions.

(** ** Sending: runs

    A program run against an outside that answers each operation in its own
    way, and concrete instances of what is left open of JSON, images and URLs,
    at which the theorems about sending are applied. *)

Section Runs.
Context `{Bson} `{Json} `{MediaLib}.

(** What is done, and what is returned. *)
Fixpoint run {A} (env : forall o, ans o) (p : prog A) : list happened * A :=
  match p with
  | Ret a => ([], a)
  | Vis o k => let r := run env (k (env o)) in (Ev o (env o) :: r.1, r.2)
  end.

Lemma run_exec {A} env (p : prog A) tr r : run env p = (tr, r) -> exec p tr (Ret r).
Proof.
  intros E. assert (Hr : exec p (run env p).1 (Ret (run env p).2)).
  { clear E. induction p as [a|o k IH]; simpl; constructor. apply IH. }
  by rewrite E in Hr.
Qed.

Lemma run_ret {A} env (a : A) : run env (Ret a) = ([], a).
Proof. done. Qed.

Lemma run_bind {A B} env (p : prog A) (f : A -> prog B) :
  run env (andThen p f) =
  ((run env p).1 ++ (run env (f (run env p).2)).1, (run env (f (run env p).2)).2).
Proof.
  induction p as [a|o k IH]; simpl; [by destruct (run env (f a))|]. by rewrite IH.
Qed.

Lemma run_ok {E A B} env (p : prog (res E A)) (f : A -> prog (res E B)) tr a :
  run env p = (tr, Ok a) -> run env (andOk p f) = (tr ++ (run env (f a)).1, (run env (f a)).2).
Proof. intros Hp. unfold andOk. by rewrite run_bind, Hp. Qed.

Lemma run_err {E A B} env (p : prog (res E A)) (f : A -> prog (res E B)) tr e :
  run env p = (tr, Err e) -> run env (andOk p f) = (tr, Err e).
Proof. intros Hp. unfold andOk. rewrite run_bind, Hp. simpl. by rewrite app_nil_r. Qed.
End Runs.

(** ** Instances *)

(** Objects are written without quotes; any text that begins like one is valid. *)
Definition demoValue (v : JsonValue) : string :=
  match v with
  | JString s | JRaw s => s
  | JInt n => FormatInt n
  | JStrings l => foldr (fun s rest => s +:+ ";" +:+ rest) "" l
  | JInts l => foldr (fun n rest => FormatInt n +:+ ";" +:+ rest) "" l
  | JEmptyArray => "[]"
  end.

#[export, refine] Instance demoJson : Json := {
  json_Valid := String.prefix "{";
  json_object s := if String.prefix "{" s then Some (Some []) else None;
  json_bool s := if (s =? "true")%string then Some true else if (s =? "false")%string then Some false else None;
  json_Marshal d := Some ("{" +:+ foldr (fun kv rest => kv.1 +:+ ":" +:+ demoValue kv.2 +:+ "," +:+ rest) "}" d);
}.
Proof.
  - intros d s [= <-]. cbn [String.append String.prefix]. by destruct (foldr _ _ _).
  - done.
Defined.

(** A picture is what begins like a PNG, of one pixel; URLs are those of the
    upload server and relative ones. *)
#[export, refine] Instance demoMedia : MediaLib := {
  DecodeConfig l := match l with 137 :: _ => Some (1, 1, "png") | _ => None end;
  NFC s := s;
  ToLower s := s;
  sha1Hex _ := "0123456789ABCDEF0123456789ABCDEF01234567";
  url_Parse s :=
    if String.prefix "https://kage.talk.kakao.com/" s
    then Some (mkURL "https" "kage.talk.kakao.com" false "" "" (String.substring 27 (String.length s) s))
    else Some (mkURL "" "" false "" "" s);
}.
Proof. done. Defined.

(** ** Sending: facts about media

    An upload either says that nothing was created, and then nothing was, or its
    outcome is left open. *)

Section MediaSends.
Context `{Bson} `{Json} `{MediaLib}.
Context (chat : Z) (login event : string).

Local Abbreviation wp := (wp chat login event).
Local Abbreviation next := (next chat login event).
Local Abbreviation sends := (sends chat login event).

(** ** Programs that create nothing *)

Definition calm {A} (p : prog A) : Prop := forall v, ready v -> wp v p (fun v' _ => ready v').

Lemma calm_ret {A} (a : A) : calm (Ret a).
Proof. by intros v Hv. Qed.

Lemma calm_bind {A B} (p : prog A) (f : A -> prog B) :
  calm p -> (forall a, calm (f a)) -> calm (andThen p f).
Proof.
  intros Hp Hf v Hv. apply wp_bind. eapply wp_mono; [by apply Hp|]. intros v' a Hv'. by apply Hf.
Qed.

Lemma calm_andOk {E A B} (p : prog (res E A)) (f : A -> prog (res E B)) :
  calm p -> (forall a, calm (f a)) -> calm (andOk p f).
Proof. intros Hp Hf. apply calm_bind; [done|]. intros [a|e]; [apply Hf|apply calm_ret]. Qed.

Lemma calm_perform o :
  creates o = false -> (forall a, neutral (Ev o a) = true) ->
  match o with PutIfAbsent _ _ | DeleteOlderThan _ _ => False | _ => True end -> calm (perform o).
Proof.
  intros Hc Hn Ho v Hv. apply wp_perform; [apply allowed_live; [apply Hv|done|done]|].
  intros a. by apply next_ready.
Qed.

Lemma calm_wp {A} (p : prog A) v Q : calm p -> ready v -> (forall v' a, ready v' -> Q v' a) -> wp v p Q.
Proof. intros Hp Hv HQ. eapply wp_mono; [by apply Hp|]. intros v' a. apply HQ. Qed.

(** ** The stream *)

Definition post (command : string) : Prop := command = PostCommand.

Lemma certain_transport : certainErr (errorOf ErrTransport) = false.
Proof. done. Qed.

Lemma notSent_certain s : Is (wrap ErrUploadNotSent s) (Media ErrUploadRedirect) = Is s (Media ErrUploadRedirect).
Proof. by rewrite Is_wrap. Qed.

Lemma wp_stream command frames streamed v Q :
  live v -> (streamed = false -> post command -> v_made v = false) ->
  (forall v' r,
    live v' -> v_created v' = v_created v -> v_refused v' = v_refused v ->
    (~ post command -> v_made v' = v_made v) ->
    match r with
    | Ok _ => True
    | Err e => Is e (Media ErrUploadRedirect) = false /\ (post command -> certainErr e = true -> v_made v' = false)
    end -> Q v' r) ->
  wp v (stream command streamed frames) Q.
Proof.
  revert streamed v Q. induction frames as [|frame frames IH]; intros streamed v Q Hl Hs HQ.
  { by apply HQ. }
  apply wp_bind, wp_perform; [by apply allowed_live|]. intros encrypted.
  set (v1 := next v _).
  assert (Hl1 : live v1) by (by apply next_live).
  assert (Hm1 : v_made v1 = v_made v) by apply orb_false_r.
  assert (Hr1 : v_refused v1 = v_refused v) by apply orb_false_r.
  assert (Hc1 : v_created v1 = v_created v) by done.
  clearbody v1.
  destruct encrypted as [encrypted|].
  2:{ apply HQ; [done|done|done|done|]. destruct streamed; split; try done. intros Hp _. etrans; [exact Hm1|by apply Hs]. }
  apply wp_bind, wp_perform; [by apply allowed_live|]. intros [written done_].
  set (v2 := next v1 _).
  assert (Hl2 : live v2) by (by apply next_live).
  assert (Hc2 : v_created v2 = v_created v) by done.
  assert (Hr2 : v_refused v2 = v_refused v) by (unfold v2, next; simpl; by rewrite orb_false_r).
  assert (Hm2 : v_made v2 = v_made v || ((command =? PostCommand)%string && (done_ || negb (written =? 0))))
    by (unfold v2, next; simpl; by rewrite Hm1).
  assert (Hother : ~ post command -> v_made v2 = v_made v).
  { intros Hp. rewrite Hm2. apply String.eqb_neq in Hp as ->. apply orb_false_r. }
  destruct done_.
  - apply IH; [done|done|]. intros v' r Hl' Hc' Hr' Hm' Hres. apply HQ; [done|congruence|congruence| |done].
    intros Hp. rewrite Hm', Hother; done.
  - destruct (negb streamed && (written =? 0)) eqn:E; apply HQ; try done.
    split; [done|]. intros Hp _. apply andb_true_iff in E as [Es Ew].
    rewrite Hm2, Ew. simpl. rewrite andb_false_r, orb_false_r. apply Hs; [by destruct streamed|done].
Qed.

Lemma wp_awaitComplete command reads v Q :
  live v ->
  (forall v' r,
    live v' -> v_created v' = v_created v ->
    (~ post command -> v_made v' = v_made v /\ v_refused v' = v_refused v) ->
    match r with
    | Ok p => post command -> statusNot0 (pk_Body p) = true -> v_refused v' = true
    | Err e => Is e (Media ErrUploadRedirect) = false /\ certainErr e = false
    end -> Q v' r) ->
  wp v (awaitComplete command reads) Q.
Proof.
  revert v Q. induction reads as [|reads IH]; intros v Q Hl HQ; [by apply HQ|].
  apply wp_bind, wp_perform; [by apply allowed_live|]. intros reply.
  set (v1 := next v _).
  assert (Hl1 : live v1) by (by apply next_live).
  assert (Hother : ~ post command -> v_made v1 = v_made v /\ v_refused v1 = v_refused v).
  { intros Hp. apply String.eqb_neq in Hp. unfold v1, next. simpl. rewrite Hp. split; [apply orb_false_r|].
    destruct reply; simpl; rewrite ?Hp; apply orb_false_r. }
  destruct reply as [p|]; [|by apply HQ].
  destruct (String.eqb_spec (pk_Method p) CompleteCommand) as [Em|Em].
  - apply HQ; try done. intros Hp Hst. unfold v1, next. simpl. rewrite Hp. unfold refusedPacket.
    rewrite Em, Hst. apply orb_true_r.
  - apply IH; [done|]. intros v' r Hl' Hc' Hm' Hres. apply HQ; [done|done| |done].
    intros Hp. destruct (Hm' Hp) as [-> ->]. by apply Hother.
Qed.

(** A refused COMPLETE among the packets before the reply. *)
Lemma find_complete pending p :
  List.find (fun p => pk_Method p =? CompleteCommand)%string pending = Some p ->
  statusNot0 (pk_Body p) = true -> existsb refusedPacket pending = true.
Proof.
  intros Hf Hs. apply find_some in Hf as [Hin Hm]. apply existsb_exists. exists p. split; [done|].
  unfold refusedPacket. by rewrite Hm, Hs.
Qed.

Lemma DecodePostOffset_error body n e : DecodePostOffset body n = Err e -> e = ErrInvalidOffset.
Proof. unfold DecodePostOffset. repeat case_match; congruence. Qed.

Definition uploaded (command : string) (v' : view) (r : res goerror packet) : Prop :=
  live v' /\ (~ post command -> ready v') /\
  match r with
  | Ok p => post command -> statusNot0 (pk_Body p) = true -> v_refused v' = true
  | Err e => Is e (Media ErrUploadRedirect) = false /\ (post command -> certainErr e = true -> v_made v' = false)
  end.

Lemma wp_uploadToMediaServer host port command body data v :
  ready v -> wp v (uploadToMediaServer host port command body data) (uploaded command).
Proof.
  intros Hv. unfold uploadToMediaServer.
  apply wp_bind. eapply calm_wp; [by apply calm_perform|done|]. intros v1 dialed Hv1.
  destruct dialed; simpl negb; cbv iota.
  2:{ split; [apply Hv1|]. split; [done|]. split; [done|]. intros _ _. apply Hv1. }
  apply wp_bind, wp_perform; [apply allowed_create; [apply Hv1|apply Hv1|done]|].
  intros reply. set (v2 := next v1 _).
  assert (Hl2 : live v2) by (apply next_live, Hv1).
  assert (Hm2 : v_made v2 = false).
  { unfold v2, next. simpl. destruct Hv1 as (_ & _ & -> & _). done. }
  assert (Hr2 : ~ post command -> ready v2).
  { intros Hp. apply String.eqb_neq in Hp. apply next_ready; [|done]. unfold neutral. simpl. rewrite Hp.
    by destruct reply as [[body' pending]|]. }
  assert (Hfail : forall e, Is e (Media ErrUploadRedirect) = false -> uploaded command v2 (notSent e)).
  { intros e He. split; [done|]. split; [done|]. split; [by rewrite notSent_certain|done]. }
  destruct reply as [[body' pending]|]; [|by apply Hfail].
  destruct (Status body') as [n|e]; [|by apply Hfail].
  destruct (n =? 0); simpl negb; cbv iota; [|apply Hfail; by rewrite Is_status].
  destruct (DecodePostOffset body' (size data)) as [offset|e] eqn:Eo.
  2:{ apply DecodePostOffset_error in Eo as ->. by apply Hfail. }
  apply wp_andOk, wp_stream; [done|done|]. intros v3 r Hl3 Hc3 Hr3 Hm3 Hres.
  assert (Hready3 : ~ post command -> ready v3).
  { intros Hp. destruct (Hr2 Hp) as (_ & Hc & _ & Hr). split; [done|]. split_and!; [congruence| |congruence].
    rewrite Hm3; done. }
  destruct r as [[]|e]; [|by split].
  destruct (List.find _ pending) as [p|] eqn:Ef.
  - split; [done|]. split; [done|]. intros Hp Hs. rewrite Hr3. unfold v2, next. simpl. rewrite Hp.
    rewrite (find_complete _ _ Ef Hs). apply orb_true_r.
  - apply wp_awaitComplete; [done|]. intros v4 r Hl4 Hc4 Hm4 Hres4. split; [done|]. split.
    + intros Hp. destruct (Hm4 Hp) as [Em Er]. destruct (Hready3 Hp) as (_ & Hc & Hm & Hr).
      split; [done|]. split_and!; congruence.
    + destruct r as [p|e]; [done|]. destruct Hres4 as [Hi Hce]. split; [done|]. by rewrite Hce.
Qed.

(** ** Photos and files over the media server *)

(** A send that may turn out to be redirected: then nothing was created yet. *)
Definition ships {A} (p : prog (res goerror A)) : Prop :=
  forall v, ready v -> wp v p (fun v' r => match r with
    | Ok _ => True
    | Err e => (certainErr e = true -> undone v') /\ (Is e (Media ErrUploadRedirect) = true -> ready v')
    end).

Lemma uploaded_complete v' p :
  (statusNot0 (pk_Body p) = true -> v_refused v' = true) ->
  match decodeMediaComplete p with
  | Ok _ => True
  | Err e => (certainErr e = true -> undone v') /\ (Is e (Media ErrUploadRedirect) = true -> ready v')
  end.
Proof.
  intros Hs. unfold decodeMediaComplete. unfold statusNot0 in Hs. destruct (Status (pk_Body p)) as [n|e].
  - destruct (n =? 0); simpl negb; cbv iota.
    + unfold DecodeComplete. repeat case_match; simplify_eq/=; try done; by rewrite ?certainErr_errorOf, ?Is_errorOf.
    + rewrite Is_status. split; [|done]. intros _. right. by apply Hs.
  - by rewrite certainErr_errorOf, Is_errorOf.
Qed.

Lemma trailerUpload_ships shipBody data make :
  (forall key, calm (make key)) -> ships (trailerUpload shipBody data make).
Proof.
  intros Hmake v Hv. apply wp_bind, wp_request_neutral; [done..|]. intros v1 reply Hv1 _.
  assert (Hready : forall v e, ready v -> (certainErr e = true -> undone v) /\ (Is e (Media ErrUploadRedirect) = true -> ready v))
    by (intros v' e Hv'; split; [intros _; by apply ready_undone|done]).
  destruct reply as [raw|e]; [|by apply Hready].
  destruct (DecodeShipResponse raw) as [ship|e]; [|by apply Hready].
  destruct (sh_Redirect ship); [by apply Hready|].
  apply wp_bind. eapply calm_wp; [apply Hmake|done|]. intros v2 body Hv2.
  destruct body as [body|e]; [|by apply Hready].
  apply wp_andOk. eapply wp_mono; [by apply wp_uploadToMediaServer|]. intros v3 r (Hl & _ & Hr).
  destruct r as [p|e].
  - apply wp_ret, uploaded_complete. by apply Hr.
  - destruct Hr as [Hi Hc]. split; [|by rewrite Hi]. intros Hce. left. by apply Hc.
Qed.

Lemma ships_mediaErr {A B} (r : res MediaError A) (f : A -> prog (res goerror B)) :
  (forall a, ships (f a)) -> ships (andOk (Ret (mediaErr r)) f).
Proof.
  intros Hf v Hv. apply wp_andOk, wp_ret. destruct r as [a|e]; [by apply Hf|].
  split; [intros _; by apply ready_undone|done].
Qed.

Lemma session_SendImage_ships who chatID data caption : ships (session_SendImage who chatID data caption).
Proof.
  unfold session_SendImage. destruct (negb _); [by intros v Hv; split; [intros _; apply ready_undone|]|].
  apply ships_mediaErr. intros image. apply ships_mediaErr. intros body. apply trailerUpload_ships. intros key.
  apply calm_bind; [by apply calm_perform|]. intros now. apply calm_ret.
Qed.

Lemma session_SendUpload_ships who chatID u : ships (session_SendUpload who chatID u).
Proof.
  unfold session_SendUpload. apply ships_mediaErr. intros body. apply trailerUpload_ships. intros key.
  apply calm_bind; [by apply calm_perform|]. intros now. apply calm_ret.
Qed.

(** ** The upload over HTTP *)

Lemma calm_PrepareDirect chatID m : calm (PrepareDirect chatID m).
Proof.
  unfold PrepareDirect. destruct (_ || _); [apply calm_ret|].
  apply calm_andOk; [by apply calm_perform|]. intros t. apply calm_ret.
Qed.

Lemma calm_uploadChunks mediaType name total ranges : calm (uploadChunks mediaType name total ranges).
Proof.
  induction ranges as [|[lo hi] ranges IH]; [apply calm_ret|]. apply calm_andOk; [by apply calm_perform|].
  intros response. destruct (decodeDirectUpload _ _ _ _ _ _); [apply calm_ret|apply IH].
Qed.

Lemma calm_UploadDirect t m : calm (UploadDirect t m).
Proof.
  unfold UploadDirect. destruct (_ || _); [apply calm_ret|].
  apply calm_andOk; [apply calm_ret|]. intros name. apply calm_andOk; [apply calm_ret|]. intros url.
  apply calm_uploadChunks.
Qed.

Lemma calm_pollReady polls chatID t started maxWait prev job :
  calm (pollReady polls chatID t started maxWait prev job).
Proof.
  revert maxWait prev job. induction polls as [|polls IH]; intros maxWait prev job; [apply calm_ret|].
  cbn [pollReady]. apply calm_andOk.
  { unfold CheckDirectReady. destruct (_ || _); [apply calm_ret|].
    apply calm_andOk; [by apply calm_perform|]. intros r. apply calm_ret. }
  intros r. destruct (_ =? _); [apply calm_ret|]. cbv zeta. apply calm_bind; [by apply calm_perform|]. intros now.
  destruct (_ <? _); [apply calm_ret|]. apply calm_bind; [by apply calm_perform|]. intros [].
  - apply IH.
  - apply calm_ret.
Qed.

Lemma DecodeDirectWrite_error raw chatID e :
  DecodeDirectWrite raw chatID = Err e -> certainErr (errorOf (Media e)) = false.
Proof.
  unfold DecodeDirectWrite. intros E. rewrite certainErr_errorOf.
  repeat case_match; simplify_eq/=; done.
Qed.

Lemma directSend_sends chatID m fail write :
  (forall t, calm (write t)) -> sends (directSend chatID m fail write).
Proof.
  intros Hw v Hv. apply wp_bind. eapply calm_wp; [apply calm_PrepareDirect|done|]. intros v1 r Hv1.
  destruct r as [t|e]; [|intros _; by apply ready_undone].
  apply wp_bind. eapply calm_wp; [apply Hw|done|]. intros v2 r Hv2.
  destruct r as [body|e]; [|intros _; by apply ready_undone].
  apply wp_bind. eapply calm_wp; [apply calm_UploadDirect|done|]. intros v3 r Hv3.
  destruct r as [u|e]; [|intros _; by apply ready_undone].
  apply wp_bind. eapply calm_wp; [|exact Hv3|].
  { destruct (dt_NeedReady t); [|apply calm_ret].
    apply calm_bind; [by apply calm_perform|]. intros started. apply calm_pollReady. }
  intros v4 r Hv4. destruct r as [w|e]; [|intros _; by apply ready_undone].
  apply wp_andOk. destruct Hv4 as (Hl & Hc & Hm & Hr).
  apply wp_request_create; [done..|]. intros v5 [reply|e] He; [|done]. apply wp_ret. unfold mediaErr.
  destruct (DecodeDirectWrite reply chatID) as [log|e] eqn:E; [done|].
  apply DecodeDirectWrite_error in E. by rewrite E.
Qed.

Lemma orRedirected_sends {A} (p direct : prog (res goerror A)) :
  ships p -> sends direct -> sends (orRedirected p direct).
Proof.
  intros Hp Hd v Hv. apply wp_bind. eapply wp_mono; [by apply Hp|]. intros v' [a|e] Hr; [done|].
  destruct Hr as [Hc Hi]. destruct (Is e (Media ErrUploadRedirect)); [by apply Hd, Hi|done].
Qed.

Lemma SendImage_sends who chatID data caption : sends (SendImage who chatID data caption).
Proof.
  apply sends_withSession, orRedirected_sends; [apply session_SendImage_ships|].
  unfold directPhoto. destruct (PrepareImage data) as [image|e]; [|intros v Hv _; by apply ready_undone].
  apply directSend_sends. intros t. apply calm_bind; [by apply calm_perform|]. intros now. apply calm_ret.
Qed.

Lemma SendUpload_sends who chatID u : sends (SendUpload who chatID u).
Proof.
  apply sends_withSession, orRedirected_sends; [apply session_SendUpload_ships|].
  unfold directUpload. destruct (UploadDirectMedia u) as [m|e]; [|intros v Hv _; by apply ready_undone].
  apply directSend_sends. intros t. apply calm_bind; [by apply calm_perform|]. intros now. apply calm_ret.
Qed.

(** ** Albums *)

Lemma calm_uploadPhotos who images keys hosts ports : calm (uploadPhotos who images keys hosts ports).
Proof.
  revert keys hosts ports. induction images as [|image images IH]; intros keys hosts ports; [apply calm_ret|].
  destruct keys, hosts, ports; try apply calm_ret. cbn [uploadPhotos].
  destruct (AlbumPostRequest_MarshalBSON _) as [body|e]; [|apply calm_ret].
  apply calm_bind.
  { intros v Hv. eapply wp_mono; [by apply wp_uploadToMediaServer|]. intros v' r (_ & Hr & _).
    apply Hr. unfold post. discriminate. }
  intros [p|e]; [|apply calm_ret]. destruct (Status (pk_Body p)) as [[]|]; try apply calm_ret. apply IH.
Qed.

(** An album that was not created is certain too. *)
Definition albumCertain (e : goerror) : bool := certainErr e || Is e ErrAlbumNotCreated.

Lemma albumCertain_errorOf s :
  albumCertain (errorOf s) =
  bool_decide (s ∈ [ErrPhotoNotCreated; Media ErrUploadRedirect; Media ErrUploadFiltered; ErrUploadNotSent;
                    ErrAlbumNotCreated]).
Proof.
  unfold albumCertain. rewrite certainErr_errorOf, Is_errorOf, <-bool_decide_or. apply bool_decide_ext.
  rewrite !elem_of_cons, elem_of_nil. intuition congruence.
Qed.

(** A request whose failures are of one sentinel, or of a status. *)
Lemma wp_request_album v command body Q :
  live v -> v_created v = 0%nat -> v_made v = false -> creates (Roundtrip command body) = true ->
  (forall v' r, match r with
                | Ok _ => True
                | Err e => albumCertain e = true -> undone v'
                end -> Q v' r) ->
  wp v (request command body) Q.
Proof.
  intros Hl Hc Hm Hcr HQ. unfold request. apply wp_bind, wp_perform; [by apply allowed_create|].
  intros reply. set (v1 := next v _).
  destruct reply as [raw|]; [|apply HQ; by rewrite albumCertain_errorOf].
  destruct (Status raw) as [n|e] eqn:E; [|apply HQ; by rewrite albumCertain_errorOf].
  destruct (n =? 0) eqn:En; apply HQ; [done|]. intros _. unfold undone, v1, next. simpl.
  rewrite Hm. destruct (writesMessage command); [right|by left].
  unfold statusNot0. by rewrite E, En, orb_true_r.
Qed.

Lemma SendAlbum_outcome who chatID photos caption v :
  ready v ->
  wp v (SendAlbum who chatID photos caption)
    (fun v' r => match r with Ok _ => True | Err e => albumCertain e = true -> undone v' end).
Proof.
  intros Hv. apply wp_bind, wp_perform; [by apply allowed_live; [apply Hv|..]|].
  intros err. assert (Hv1 : ready (next v (Ev EnsureSession err))) by (by apply next_ready).
  destruct err as [e|]; [intros _; by apply ready_undone|]. unfold session_SendAlbum.
  apply wp_andOk, wp_ret. destruct (prepareImages photos) as [images|e]; [|intros _; by apply ready_undone].
  apply wp_andOk, wp_ret.
  destruct (AlbumShipRequest_MarshalBSON _) as [body|e]; [|intros _; by apply ready_undone].
  destruct (negb _); [intros _; by apply ready_undone|].
  apply wp_bind, wp_request_neutral; [done..|]. intros v2 reply Hv2 _.
  destruct reply as [raw|e]; [|intros _; by apply ready_undone].
  destruct (DecodeAlbumShipResponse _ _) as [ship|e]; [|intros _; by apply ready_undone].
  apply wp_andOk. eapply calm_wp; [apply calm_uploadPhotos|done|]. intros v3 r Hv3.
  destruct r as [u|e]; [|intros _; by apply ready_undone].
  destruct (AlbumWriteExtra _ _ _) as [extra|e]; [|intros _; by apply ready_undone].
  destruct (WriteRequest_MarshalBSON _) as [w|e]; [|intros _; by apply ready_undone].
  apply wp_andOk. destruct Hv3 as (Hl & Hc & Hm & Hr). apply wp_request_album; [done..|].
  intros v4 [reply|e] He; [|done]. apply wp_ret. unfold chatErr.
  destruct (DecodeWriteResponse reply); [done|]. by rewrite albumCertain_errorOf.
Qed.
End MediaSends.
