(* ===== verification/SendingTheorems.v ===== *)
(** * Sending: theorems

    The poll for uploaded media ends unless an interval the server asks for
    overflows; what an upload writes is the encryption of its bytes, once and in order; the extra of an edit keeps what it must; the preview of a
    reply is sent as it was stored. *)

From S2P Require Import Prelude Bytes Text Bson ChatLog ChatPackets MediaUpload Sending Outbound SendingFacts.

#[local] Open Scope string_scope.
#[local] Open Scope list_scope.
#[local] Open Scope Z_scope.

Section Theorems.
Context `{Bson} `{Json} `{MediaLib}.

(** ** The poll *)

(** An operation along a clock that does not go back and stays below 2^62, a
    time of the year 2116: the clock is read as it is and a sleep that is not
    cancelled lasts at least as long as asked.  The error of a poll is one of the
    code's, not the marker of the model. *)
Definition timedStep (t : Z) (e : happened) (t' : Z) : Prop :=
  t <= t' < 2 ^ 62 /\
  match e with
  | Ev Now now => now = t'
  | Ev (Sleep ns) slept => slept = true -> t + ns <= t'
  | Ev (WebReady _ _) r => r <> Err (errorOf OutOfFuel)
  | _ => True
  end.

Fixpoint timed (t : Z) (tr : list happened) : Prop :=
  match tr with
  | [] => True
  | e :: tr => exists t', timedStep t e t' /\ timed t' tr
  end.

(** The interval of a reply is an int64 as a [time.Duration]. *)
Definition intervalFits (e : happened) : Prop :=
  match e with
  | Ev (WebReady _ _) (Ok ready) => rd_IntervalMS ready * millisecond <= MaxInt64
  | _ => True
  end.

Definition isPoll (o : op) : bool := match o with WebReady _ _ => true | _ => false end.
Definition pollOf (e : happened) : bool := match e with Ev o _ => isPoll o end.
Definition polls (tr : list happened) : nat := length (List.filter pollOf tr).

(** Along such a clock a program keeps the bound on polls, counting from [n],
    and does not return the marker of the model. *)
Fixpoint bounded {A} (t : Z) (n : nat) (p : prog (res goerror A)) : Prop :=
  Z.of_nat n <= 600001 /\
  match p with
  | Ret r => r <> Err (errorOf OutOfFuel)
  | Vis o k => forall a t', timedStep t (Ev o a) t' -> intervalFits (Ev o a) -> bounded t' ((if isPoll o then 1 else 0) + n)%nat (k a)
  end.

Lemma bounded_exec {A} (p q : prog (res goerror A)) tr t n :
  bounded t n p -> exec p tr q -> timed t tr -> Forall intervalFits tr -> exists t', bounded t' (polls tr + n)%nat q.
Proof.
  intros Hp He. revert t n Hp. induction He as [p|o k a tr p He IH]; intros t n Hp Ht Hi; [by exists t|].
  destruct Ht as (t' & Hs & Ht). destruct Hp as [_ Hk]. inversion_clear Hi as [|? ? Hi1 Hi2].
  destruct (IH _ _ (Hk a t' Hs Hi1) Ht Hi2) as [t'' Hb]. exists t''.
  unfold polls in *. cbn [List.filter pollOf]. destruct (isPoll o); simpl in *; [|done].
  by rewrite Nat.add_succ_r in Hb.
Qed.

Lemma interval_bounds r : rd_IntervalMS r * millisecond <= MaxInt64 -> millisecond <= intervalOf r <= MaxInt64.
Proof.
  intros Hr. unfold intervalOf. destruct (Z.ltb_spec 0 (rd_IntervalMS r)).
  - unfold duration. rewrite wrap64_id; unfold int64, MinInt64, MaxInt64, millisecond in *; lia.
  - unfold directReadyInterval, second, millisecond, MaxInt64. lia.
Qed.

Lemma wait_bounds maxWait r : maxWait <= directReadyMaxWait -> waitOf maxWait r <= directReadyMaxWait.
Proof. intros Hm. unfold waitOf. case_match; [apply Z.le_min_r|done]. Qed.

Lemma maxPolls_Z : Z.of_nat maxPolls = 600002.
Proof. unfold maxPolls. apply Z2Nat.id. done. Qed.

Lemma polled n : n * millisecond <= directReadyMaxWait -> n <= 600000.
Proof. unfold directReadyMaxWait, second, millisecond. lia. Qed.

(** The elapsed time and the interval, in the int64 of a [time.Duration]. *)
Lemma elapsed_id now started i :
  0 <= started -> started <= now < 2 ^ 62 -> millisecond <= i < 2 ^ 62 ->
  wrap64 (now - started + i) = now - started + i.
Proof. intros. apply wrap64_id. unfold int64, MinInt64, MaxInt64, millisecond in *. lia. Qed.

(** After [done_] polls, each followed by a sleep of a millisecond or more, and
    with [fuel] left. *)
Lemma pollReady_bounded fuel chatID ticket started maxWait prev job t done_ n :
  maxWait <= directReadyMaxWait -> n = Z.of_nat done_ -> Z.of_nat fuel + n = 600002 ->
  0 <= started -> started + n * millisecond <= t < 2 ^ 62 -> n * millisecond <= directReadyMaxWait ->
  bounded t done_ (pollReady fuel chatID ticket started maxWait prev job).
Proof.
  revert maxWait prev job t done_ n.
  induction fuel as [|fuel IH]; intros maxWait prev job t done_ n Hm Hn Hf Hs Ht Hd; pose proof (polled n Hd) as Hle.
  { exfalso. lia. }
  assert (Hmax : Z.of_nat done_ <= 600001) by lia.
  assert (Hmax' : Z.of_nat (S done_) <= 600001) by lia.
  assert (Hpos : 0 < millisecond) by done. clear Hle.
  cbn [pollReady]. unfold CheckDirectReady, andOk, perform. destruct (_ || _); [by split|]. cbn [andThen].
  split; [done|]. intros r t1 [Ht1 Hmark] Hr. cbn [isPoll Nat.add].
  destruct r as [ready|e]; cbn [andThen]; [|split; [done|congruence]].
  cbn [intervalFits] in Hr. destruct (readyBad ready); cbn [andThen]; [by split|]. destruct (_ =? _); [by split|]. cbv zeta.
  split; [done|]. intros now t2 [Ht2 ->] _. cbn [isPoll Nat.add andThen].
  pose proof (interval_bounds ready Hr) as Hi. pose proof (wait_bounds maxWait ready Hm) as Hw.
  assert (Hnow : started <= t2 < 2 ^ 62) by nia.
  destruct (Z.ltb_spec (waitOf maxWait ready) (wrap64 (t2 - started + intervalOf ready))) as [|Hgo]; [by split|].
  split; [done|]. intros slept t3 [Ht3 Hsl] _. cbn [isPoll Nat.add].
  destruct slept; [|by split]. specialize (Hsl eq_refl).
  rewrite elapsed_id in Hgo by (try done; lia).
  apply (IH _ _ _ _ (S done_) (n + 1)); [done|lia|lia|done|lia|lia].
Qed.

(** An interval of 2^57 milliseconds, which as a [time.Duration] is the least one. *)
Definition wrapping : DirectReady := mkDirectReady 5 (2 ^ 57) 0 "".

Lemma wrapping_negative : intervalOf wrapping = MinInt64.
Proof. reflexivity. Qed.

(** A poll answered with it at each time of a clock. *)
Fixpoint spinning (times : list Z) (prevStatus : Z) : list happened :=
  match times with
  | [] => []
  | t :: times =>
      Ev (WebReady prevStatus "") (Ok wrapping) :: Ev Now t :: Ev (Sleep MinInt64) true :: spinning times 5
  end.
Definition clockOf (e : happened) : list Z := match e with Ev Now t => [t] | _ => [] end.

Lemma polls_spinning times prev : polls (spinning times prev) = length times.
Proof. revert prev. induction times as [|t times IH]; intros prev; [done|]. unfold polls in *. simpl. by rewrite IH. Qed.

Lemma clock_spinning times prev : flat_map clockOf (spinning times prev) = times.
Proof. revert prev. induction times as [|t times IH]; intros prev; [done|]. simpl. by rewrite IH. Qed.

Lemma timed_spinning start times prev :
  Sorted Z.le (start :: times) -> 0 <= start -> Forall (fun t => t < 2 ^ 62) (start :: times) ->
  timed start (spinning times prev).
Proof.
  revert start prev. induction times as [|t times IH]; intros start prev Hs H0' Hf; [done|].
  inversion_clear Hs as [|? ? Hs1 Hs2]. inversion_clear Hs2 as [|? ? Hle].
  inversion_clear Hf as [|? ? Hf1 Hf2]. pose proof (Forall_inv Hf2) as Hf3; cbn in Hf3.
  exists start. split; [by split; [lia|]|]. exists t. split; [by split; [lia|]|].
  exists t. split; [split; [lia|intros _; unfold MinInt64; lia]|]. apply IH; [done|lia|done].
Qed.

Lemma checked_ready chatID ticket prev job :
  0 < chatID -> writable ticket = true ->
  CheckDirectReady chatID ticket prev job =
  andOk (perform (WebReady prev job)) (fun ready =>
    Ret (if readyBad ready then Err (errorOf (Media ErrInvalidMediaResponse)) else Ok ready)).
Proof.
  intros Hc Hw. apply Z.leb_gt in Hc. unfold CheckDirectReady. unfold writable in Hw. rewrite !andb_true_iff in Hw.
  destruct Hw as [[-> ->] ->]. by rewrite Hc.
Qed.

Lemma pollReady_spins times fuel chatID ticket started prev :
  0 < chatID -> writable ticket = true -> 0 <= started -> Forall (fun t => started <= t < 2 ^ 62) times ->
  exec (pollReady (length times + fuel) chatID ticket started directReadyMaxWait prev "") (spinning times prev)
    (pollReady fuel chatID ticket started directReadyMaxWait (match times with [] => prev | _ => 5 end) "").
Proof.
  intros Hc Hw Hs. revert prev. induction times as [|t times IH]; intros prev Ht; [constructor|].
  inversion_clear Ht as [|? ? Ht1 Ht2].
  cbn [Nat.add length pollReady spinning]. rewrite checked_ready by assumption.
  constructor. unfold perform. cbn [andOk andThen]. change (readyBad wrapping) with false. cbn [andThen].
  change (rd_Status wrapping =? DirectReadyDone) with false. cbv zeta. rewrite wrapping_negative. cbn [rd_JobID wrapping nonempty].
  constructor. cbn [andThen]. change (waitOf directReadyMaxWait wrapping) with directReadyMaxWait.
  assert (El : wrap64 (t - started + MinInt64) = t - started + MinInt64).
  { apply wrap64_id. unfold int64, MinInt64, MaxInt64. lia. }
  rewrite El. destruct (Z.ltb_spec directReadyMaxWait (t - started + MinInt64)) as [Hlt|_].
  { unfold directReadyMaxWait, second, MinInt64 in Hlt. lia. }
  constructor. cbn [andThen]. change (rd_Status wrapping) with 5. specialize (IH 5 Ht2). by destruct times.
Qed.

(** C22: Waiting for uploaded media ends: along a clock that moves on with its
    sleeps, and if the milliseconds of every interval the server asks for fit the
    int64 of a [time.Duration], it is polled at most 600001 times, in the ten
    minutes allowed, and the bound of the model is never what ends it.  The
    hypothesis on the intervals is needed, as the code only refuses negative ones: with
    the interval 2^57, whose product wraps to the least duration, it polls again at
    every time of any clock, without the ten minutes ever passing and without
    sleeping in between. *)
Theorem ready_poll_ends chatID ticket :
  (forall tr q t0,
     0 <= t0 -> exec (waitDirectReady chatID ticket) tr q -> timed t0 tr -> Forall intervalFits tr ->
     Z.of_nat (polls tr) <= 600001 /\ q <> Ret (Err (errorOf OutOfFuel))) /\
  (0 < chatID -> writable ticket = true ->
   forall fuel started times,
     0 <= started -> Sorted Z.le (started :: times) -> Forall (fun t => t < 2 ^ 62) (started :: times) ->
     exists tr prev, exec (pollReady (length times + fuel) chatID ticket started directReadyMaxWait 0 "") tr
       (pollReady fuel chatID ticket started directReadyMaxWait prev "") /\
       timed started tr /\ flat_map clockOf tr = times /\ polls tr = length times).
Proof.
  split.
  - intros tr q t0 H0' He Ht Hi.
    assert (Hb : bounded t0 0 (waitDirectReady chatID ticket)).
    { split; [lia|]. intros now t1 [Ht1 ->] _. cbn [isPoll Nat.add andThen].
      apply (pollReady_bounded _ _ _ _ _ _ _ _ _ 0); rewrite ?maxPolls_Z; try done; lia. }
    destruct (bounded_exec _ _ _ _ _ Hb He Ht Hi) as [t' Hq]. rewrite Nat.add_0_r in Hq. split.
    + assert (Hle : Z.of_nat (polls tr) <= 600001) by (by destruct q; destruct Hq). done.
    + intros ->. by destruct Hq as [_ Hq].
  - intros Hc Hw fuel started times H0' Hs Hf. exists (spinning times 0), (match times with [] => 0 | _ => 5 end).
    split; [|split; [by apply timed_spinning|split; [apply clock_spinning|apply polls_spinning]]].
    apply pollReady_spins; try done. inversion_clear Hf as [|? ? _ Hf2].
    apply Sorted_StronglySorted in Hs; [|intros ???; lia]. inversion_clear Hs as [|? ? _ Hs2].
    apply (Forall_and (fun t => started <= t)). by split.
Qed.

(** ** What an upload sends *)

Lemma exec_inv {A} (p q : prog A) tr :
  exec p tr q ->
  match p with
  | Ret a => tr = [] /\ q = Ret a
  | Vis o k => (tr = [] /\ q = Vis o k) \/ exists a tr', tr = Ev o a :: tr' /\ exec (k a) tr' q
  end.
Proof. intros [[a|o k]|o k a tr' q' He]; [done|by left|right; eauto]. Qed.

(** A result comes after every operation on the way to it. *)
Lemma exec_vis {A} o k (r : A) tr :
  exec (Vis o k) tr (Ret r) -> exists a tr', tr = Ev o a :: tr' /\ exec (k a) tr' (Ret r).
Proof. intros He. by destruct (exec_inv _ _ _ He) as [[_ ?]|?]. Qed.

Lemma exec_ret {A} (r r' : A) tr : exec (Ret r) tr (Ret r') -> tr = [] /\ r' = r.
Proof. intros He. destruct (exec_inv _ _ _ He) as [-> [= ->]]. done. Qed.

Lemma exec_bind {A B} (p : prog A) (f : A -> prog B) tr r :
  exec (andThen p f) tr (Ret r) ->
  exists a tr1 tr2, tr = tr1 ++ tr2 /\ exec p tr1 (Ret a) /\ exec (f a) tr2 (Ret r).
Proof.
  revert tr. induction p as [a|o k IH]; intros tr He; simpl in He.
  - exists a, [], tr. by repeat constructor.
  - destruct (exec_vis _ _ _ _ He) as (a & tr' & -> & He').
    destruct (IH _ _ He') as (b & tr1 & tr2 & -> & H1' & H2'). exists b, (Ev o a :: tr1), tr2. by repeat constructor.
Qed.

Lemma exec_ok {E A B} (p : prog (res E A)) (f : A -> prog (res E B)) tr r :
  exec (andOk p f) tr (Ret (Ok r)) ->
  exists a tr1 tr2, tr = tr1 ++ tr2 /\ exec p tr1 (Ret (Ok a)) /\ exec (f a) tr2 (Ret (Ok r)).
Proof.
  intros He. destruct (exec_bind _ _ _ _ He) as ([a|e] & tr1 & tr2 & -> & H1' & H2'); [by eauto 10|].
  by destruct (exec_ret _ _ _ H2').
Qed.

(** What a stream does at the media connection, the two operations of one
    frame that was encrypted and written, and the ranges of the file that are sent
    over HTTP. *)
Definition streamOp (e : happened) : bool :=
  match e with Ev (Encrypt _) _ | Ev (WriteFrame _ _) _ => true | _ => false end.
Definition sentFrame (command : string) (piece : bytes * bytes * Z) : list happened :=
  let '(frame, encrypted, written) := piece in
  [Ev (Encrypt frame) (Some encrypted); Ev (WriteFrame command encrypted) (written, true)].
Definition chunkBy (e : happened) : list (Z * Z) := match e with Ev (WebChunk a b) _ => [(a, b)] | _ => [] end.
Definition slice (data : bytes) (range : Z * Z) : bytes :=
  take (Z.to_nat (range.2 - range.1)) (drop (Z.to_nat range.1) data).

Lemma concat_framesOf fuel data : (length data <= fuel)%nat -> concat (framesOf fuel data) = data.
Proof.
  revert data. induction fuel as [|fuel IH]; intros [|b data] Hl; try done; [simpl in Hl; lia|].
  cbn [framesOf concat]. rewrite IH; [apply take_drop|]. rewrite length_drop.
  assert (Hc : (0 < Z.to_nat mediaStreamChunk)%nat) by (by apply Nat.ltb_lt). simpl in *. lia.
Qed.

Lemma stream_frames command frames streamed tr r :
  exec (stream command streamed frames) tr (Ret (Ok r)) ->
  exists pieces, List.filter streamOp tr = flat_map (sentFrame command) pieces /\ pieces.*1.*1 = frames.
Proof.
  revert streamed tr. induction frames as [|frame frames IH]; intros streamed tr He; cbn [stream] in He.
  { destruct (exec_ret _ _ _ He) as [-> _]. by exists []. }
  destruct (exec_vis _ _ _ _ He) as ([enc|] & tr1 & -> & He1); cbn [andThen] in He1; cycle 1.
  { destruct streamed; by destruct (exec_ret _ _ _ He1). }
  destruct (exec_vis _ _ _ _ He1) as ([written ok] & tr2 & -> & He2); cbn [andThen] in He2.
  destruct ok; [|destruct (negb streamed && _); by destruct (exec_ret _ _ _ He2)].
  destruct (IH true _ He2) as (pieces & E & Ef). exists ((frame, enc, written) :: pieces).
  split; [cbn [List.filter streamOp]; by rewrite E|]. cbn. by f_equal.
Qed.

Lemma framesOf_size fuel data : Forall (fun frame => 0 < size frame <= mediaStreamChunk) (framesOf fuel data).
Proof.
  revert data. induction fuel as [|fuel IH]; intros [|b data]; cbn [framesOf]; constructor; [|apply IH].
  unfold size. rewrite length_take. unfold mediaStreamChunk. simpl length. lia.
Qed.

Lemma chunkRanges_cover data fuel start chunk :
  0 < chunk -> 0 <= start <= size data -> size data - start <= Z.of_nat fuel ->
  flat_map (slice data) (chunkRanges fuel start chunk (size data)) = drop (Z.to_nat start) data /\
  Forall (fun range => 0 < range.2 - range.1 <= chunk) (chunkRanges fuel start chunk (size data)).
Proof.
  intros Hc. revert start. induction fuel as [|fuel IH]; intros start Hs Hf; cbn [chunkRanges].
  - split; [|done]. rewrite drop_ge by (unfold size in *; lia). done.
  - destruct (Z.ltb_spec start (size data)) as [Hlt|Hge]; cycle 1.
    { split; [|done]. by rewrite drop_ge by (unfold size in *; lia). }
    cbv zeta. set (stop := Z.min _ _). assert (Hstop : start < stop <= start + chunk) by (unfold stop; lia).
    assert (Hle : stop <= size data) by (unfold stop; lia). clearbody stop.
    destruct (IH stop) as [E HF]; [lia|lia|]. split; [|constructor; [simpl; lia|done]].
    cbn [flat_map]. rewrite E. unfold slice. cbn [fst snd].
    rewrite <-(take_drop (Z.to_nat (stop - start)) (drop (Z.to_nat start) data)) at 2. f_equal.
    rewrite drop_drop. f_equal. lia.
Qed.

Lemma uploadChunks_ranges mediaType name total ranges tr r :
  exec (uploadChunks mediaType name total ranges) tr (Ret (Ok r)) -> flat_map chunkBy tr = ranges.
Proof.
  revert tr. induction ranges as [|[a b] ranges IH]; intros tr He; cbn [uploadChunks] in He.
  { by destruct (exec_ret _ _ _ He) as [-> _]. }
  destruct (exec_ok _ _ _ _ He) as (ack & tr1 & tr2 & -> & H1' & H2').
  destruct (exec_vis _ _ _ _ H1') as (x & tr' & -> & H3'). destruct (exec_ret _ _ _ H3') as [-> _].
  destruct (decodeDirectUpload _ _ _ _ _ _); [by destruct (exec_ret _ _ _ H2')|].
  simpl. f_equal. by apply IH.
Qed.

Lemma awaitComplete_streams command reads tr r :
  exec (awaitComplete command reads) tr (Ret r) -> List.filter streamOp tr = [].
Proof.
  revert tr. induction reads as [|reads IH]; intros tr He; cbn [awaitComplete] in He.
  { by destruct (exec_ret _ _ _ He) as [-> _]. }
  destruct (exec_vis _ _ _ _ He) as ([p|] & tr1 & -> & He1); cbn [andThen] in He1.
  - destruct (_ =? _)%string; [by destruct (exec_ret _ _ _ He1) as [-> _]|]. by apply (IH tr1).
  - by destruct (exec_ret _ _ _ He1) as [-> _].
Qed.

(** C23: An upload that succeeds has sent every byte once and in order.  On
    the connection to a media server it encrypted and wrote, after the request and in this
    order, nothing but frames: each of at most 4096 bytes is encrypted and
    exactly its encryption is written, whole, before the next, and together they are the
    bytes after the offset the server asked to continue from.  Over HTTP the
    chunks are the whole file, each of at most the size of the ticket. *)
Theorem uploads_are_whole :
  (forall host port command body data tr p,
     exec (uploadToMediaServer host port command body data) tr (Ret (Ok p)) ->
     exists reply pending offset pieces rest,
       tr = Ev (DialMedia host port) true :: Ev (MediaRequest command body) (Some (reply, pending)) :: rest /\
       DecodePostOffset reply (size data) = Ok offset /\
       List.filter streamOp rest = flat_map (sentFrame command) pieces /\
       Forall (fun frame => 0 < size frame <= mediaStreamChunk) pieces.*1.*1 /\
       concat pieces.*1.*1 = drop (Z.to_nat offset) data) /\
  (forall ticket m tr,
     exec (UploadDirect ticket m) tr (Ret (Ok tt)) ->
     flat_map (slice (dm_Data m)) (flat_map chunkBy tr) = dm_Data m /\
     Forall (fun range => 0 < range.2 - range.1 <= dt_ChunkSize ticket) (flat_map chunkBy tr)).
Proof.
  split.
  - intros host port command body data tr p He. unfold uploadToMediaServer in He.
    destruct (exec_vis _ _ _ _ He) as ([|] & tr1 & -> & He1); cbn [andThen negb] in He1; [|by destruct (exec_ret _ _ _ He1)].
    destruct (exec_vis _ _ _ _ He1) as ([[reply pending]|] & tr2 & -> & He2); cbn [andThen] in He2;
      [|by destruct (exec_ret _ _ _ He2)].
    destruct (Status reply) as [n|]; [|by destruct (exec_ret _ _ _ He2)].
    destruct (negb _); [by destruct (exec_ret _ _ _ He2)|].
    destruct (DecodePostOffset reply (size data)) as [offset|] eqn:Eo; [|by destruct (exec_ret _ _ _ He2)].
    destruct (exec_ok _ _ _ _ He2) as (u & tr3 & tr4 & -> & H3' & H4').
    assert (E4 : List.filter streamOp tr4 = []).
    { destruct (List.find _ _); [by destruct (exec_ret _ _ _ H4') as [-> _]|by apply (awaitComplete_streams _ _ _ _ H4')]. }
    destruct (stream_frames _ _ _ _ _ H3') as (pieces & E3 & Ef).
    exists reply, pending, offset, pieces, (tr3 ++ tr4). split; [done|]. split; [done|].
    rewrite List.filter_app, E4, app_nil_r. split; [exact E3|].
    pose proof (framesOf_size (length data) (drop (Z.to_nat offset) data)) as Hs.
    pose proof (concat_framesOf (length data) (drop (Z.to_nat offset) data)) as Hc. rewrite <-Ef in Hs, Hc.
    split; [exact Hs|apply Hc]. rewrite length_drop. lia.
  - intros ticket m tr He. unfold UploadDirect in He. destruct (_ || _) eqn:Eb; [by destruct (exec_ret _ _ _ He)|].
    rewrite !orb_false_iff in Eb. destruct Eb as [[[_ _] Ec] _]. apply Z.leb_gt in Ec.
    destruct (exec_ok _ _ _ _ He) as (name & tr1 & tr2 & -> & H1' & H2'). destruct (exec_ret _ _ _ H1') as [-> _].
    destruct (exec_ok _ _ _ _ H2') as (url & tr3 & tr4 & -> & H3' & H4'). destruct (exec_ret _ _ _ H3') as [-> _].
    simpl. rewrite (uploadChunks_ranges _ _ _ _ _ _ H4').
    destruct (chunkRanges_cover (dm_Data m) (length (dm_Data m)) 0 (dt_ChunkSize ticket)) as [E HF];
      [done|unfold size; lia|unfold size; lia|]. by split.
Qed.
End Theorems.

(** ** Witnesses *)

(** The answers of an outside in which everything goes well; the media server
    continues from the third byte and the web server is ready at the second
    poll. *)
#[local] Definition smooth (o : @op treeBson) : ans o :=
  match o with
  | CheckAccess _ => None
  | CurrentClient | GetIntent => true
  | Download _ => Some [137; 1]
  | Now => 1700000000000000000
  | DeleteOlderThan _ _ => true
  | PutIfAbsent _ _ => Some true
  | MessageParts _ => None
  | UpdateMessage _ | RevokeMembership _ => true
  | VerifiedRoster _ => []
  | Snapshot _ => None
  | RefreshMembership _ _ => tt
  | ChatInfo _ => Err (errorOf ErrTransport)
  | MemberList _ => Err (errorOf ErrTransport)
  | EnsureSession => None
  | Roundtrip _ _ => Some (Tree [("status", VInt32 0)])
  | DialMedia _ _ => true
  | MediaRequest _ _ => Some (Tree [("status", VInt32 0); ("o", VInt64 3)], [])
  | Encrypt frame => Some frame
  | WriteFrame _ frame => (size frame, true)
  | ReadPacket _ => Some (mkPacket "COMPLETE" (Tree []))
  | WebPrepare _ _ _ _ => Err (errorOf ErrTransport)
  | WebChunk _ stop => Ok (mkChunkAck (Some stop) "ok" None)
  | WebReady prev _ => Ok (mkDirectReady prev 50 0 "")
  | Sleep _ => true
  end.

#[local] Definition demoTicket : DirectTicket :=
  mkDirectTicket "https://kage.talk.kakao.com/offset-up/x" "dir/name" "vk" "key" 2 true.
#[local] Definition demoDirect : DirectMedia := mkDirectMedia "file" "txt" "text/plain" [1; 2; 3; 4; 5].

#[local] Definition doc (l : list (string * Value tree)) : @Raw treeBson := Tree l.
#[local] Definition demoUpload := run smooth (uploadToMediaServer "h" 1 "POST" (doc []) [1; 2; 3; 4; 5]).

Lemma uploads_are_whole_witness :
  flat_map (slice [1; 2; 3; 4; 5]) (flat_map chunkBy (run smooth (UploadDirect demoTicket demoDirect)).1) = [1; 2; 3; 4; 5] /\
  flat_map chunkBy (run smooth (UploadDirect demoTicket demoDirect)).1 = [(0, 2); (2, 4); (4, 5)] /\
  (exists pieces rest, List.filter streamOp rest = flat_map (sentFrame "POST") pieces /\ concat pieces.*1.*1 = [4; 5]) /\
  List.filter streamOp demoUpload.1 = sentFrame "POST" ([4; 5], [4; 5], 2).
Proof.
  split_and!; [|reflexivity| |reflexivity].
  - apply (proj2 uploads_are_whole demoTicket demoDirect), (run_exec smooth). reflexivity.
  - destruct (proj1 uploads_are_whole "h" 1 "POST" (doc []) [1; 2; 3; 4; 5] demoUpload.1 (mkPacket "COMPLETE" (doc [])))
      as (reply & pending & offset & pieces & rest & E1 & E2 & E3 & _ & E5); [apply (run_exec smooth); reflexivity|].
    exists pieces, rest. split; [exact E3|].
    pose proof (f_equal (fun l => match l with _ :: Ev (MediaRequest _ _) (Some (r, _)) :: _ => Some r | _ => None end) E1) as Er.
    injection Er as <-. injection E2 as <-. exact E5.
Defined.

(** The clock moves on with each sleep, and the server is ready at the second
    poll. *)
#[local] Definition demoPoll : list (@happened treeBson) :=
  [Ev Now 0; Ev (WebReady 0 "") (Ok (mkDirectReady 5 50 0 "job")); Ev Now 0; Ev (Sleep 50000000) true;
   Ev (WebReady 5 "job") (Ok (mkDirectReady 1 0 0 ""))].

Lemma ready_poll_ends_witness :
  exec (waitDirectReady 7 demoTicket) demoPoll (Ret (Ok tt)) /\ polls demoPoll = 2%nat /\
  Z.of_nat (polls demoPoll) <= 600001 /\
  (Ret (Ok tt) : prog (res goerror unit)) <> Ret (Err (errorOf OutOfFuel)) /\
  exists tr prev, exec (pollReady 4 7 demoTicket 0 directReadyMaxWait 0 "") tr (pollReady 1 7 demoTicket 0 directReadyMaxWait prev "") /\
    polls tr = 3%nat.
Proof.
  assert (He : exec (waitDirectReady 7 demoTicket) demoPoll (Ret (Ok tt))).
  { assert (Hn : exists n, maxPolls = S (S n)) by (exists (maxPolls - 2)%nat; pose proof maxPolls_Z; lia).
    destruct Hn as [n Hn]. unfold waitDirectReady, demoPoll. rewrite Hn. by repeat constructor. }
  assert (Hp : Z.of_nat (polls demoPoll) <= 600001 /\ (Ret (Ok tt) : prog (res goerror unit)) <> Ret (Err (errorOf OutOfFuel))).
  { apply (proj1 (ready_poll_ends 7 demoTicket) demoPoll (Ret (Ok tt)) 0); [done|done| |by repeat constructor].
    exists 0. split; [by split|]. exists 0. split; [by split|].
    exists 0. split; [by split|]. exists 50000000. split; [by split|].
    exists 50000000. by split. }
  destruct (proj2 (ready_poll_ends 7 demoTicket) ltac:(done) ltac:(reflexivity) 1%nat 0 [0; 0; 5]) as (tr & prev & E1 & _ & _ & E2);
    [done|by repeat constructor|by repeat constructor|].
  split; [done|]. split; [done|]. split; [exact (proj1 Hp)|]. split; [exact (proj2 Hp)|]. by exists tr, prev.
Defined.
