(* ===== verification/OutboundFacts.v ===== *)
(** * Matrix events sent to KakaoTalk: facts

    Every handler keeps the discipline of SendingFacts.v and reports its outcome
    as it was. *)

From S2P Require Import Prelude Identifiers Bytes Text Bson ChatLog ChatPackets MediaUpload Sending Outbound SendingFacts.
From S2P Require Events.

#[local] Open Scope string_scope.
#[local] Open Scope list_scope.
#[local] Open Scope Z_scope.

Section Handlers.
Context `{Bson} `{Json} `{MediaLib} `{!Events.EventContent}.
Context (kc : Kakao) (chat : Z) (event : string).

Local Abbreviation wp := (wp chat (kc_loginID kc) event).
Local Abbreviation next := (next chat (kc_loginID kc) event).
Local Abbreviation sends := (sends chat (kc_loginID kc) event).

(** Nothing was reserved yet. *)
Definition init (v : view) : Prop :=
  v_reserved v = false /\ v_created v = 0%nat /\ v_made v = false /\ v_refused v = false.

Definition fresh (v : view) : Prop := init v /\ v_access v = true.

(** A certain failure means that no message can exist or that it was refused;
    a retriable one that nothing was reserved. *)
Definition outcome {A} (v : view) (r : res failure A) : Prop :=
  match r with
  | Err (Status_ s) =>
      (ms_IsCertain s = true -> undone v) /\ (ms_Status s = StatusRetriable -> v_reserved v = false)
  | _ => True
  end.

Lemma outcome_init {A} v (r : res failure A) : init v -> outcome v r.
Proof. intros (Hr & _ & Hm & _). destruct r as [|[|s]]; try done. split; [by left|done]. Qed.

Lemma outcome_fresh {A} v (r : res failure A) : fresh v -> outcome v r.
Proof. intros [Hi _]. by apply outcome_init. Qed.

Lemma outcome_send {A} v e : (certainErr e = true -> undone v) -> outcome v (@Err failure A (outboundSendError e)).
Proof.
  intros Hc. unfold certainErr in Hc. unfold outboundSendError.
  destruct (Is e ErrPhotoNotCreated); [split; [intros _; by apply Hc|done]|].
  destruct (Is e (Media ErrUploadRedirect)); [split; [intros _; by apply Hc|done]|].
  destruct (isStatus e); [split; [intros _; by apply Hc|done]|].
  destruct (Is e (Media ErrUploadFiltered)); [split; [intros _; by apply Hc|done]|].
  destruct (Is e ErrUploadNotSent); by split.
Qed.

(** Failures that are neither certain nor retriable. *)
Lemma outcome_uncertain {A} v e : outcome v (@Err failure A (uncertainFailure e)).
Proof. done. Qed.

(** ** Before the attempt is reserved *)

Definition early (e : happened) : bool :=
  neutral e && negb (reservedBy (kc_loginID kc) event e).

Lemma next_init v e : early e = true -> init v -> init (next v e).
Proof.
  unfold early, neutral. rewrite !andb_true_iff, !negb_true_iff. intros [[[Hc Hm] Hr] Hs] (H1' & H2' & H3' & H4').
  unfold init, SendingFacts.next. simpl. rewrite Hc, Hm, Hr, Hs, H1', H2', H3', H4'. done.
Qed.

Lemma next_fresh v e : early e = true -> fresh v -> fresh (next v e).
Proof. intros He [Hi Ha]. split; [by apply next_init|]. simpl. by rewrite Ha. Qed.

(** An operation that neither reaches the source nor writes. *)
Definition gentle (o : op) : bool :=
  negb (reaches o) && negb (creates o) &&
  match o with PutIfAbsent _ _ | DeleteOlderThan _ _ => false | _ => true end.

Lemma gentle_early o a : gentle o = true -> early (Ev o a) = true.
Proof.
  unfold gentle, early, neutral. rewrite !andb_true_iff, !negb_true_iff. intros [[Hr Hc] Ho].
  rewrite Hc. destruct o; try done; simpl in *.
  - unfold writesMessage. rewrite negb_false_iff in Hr. apply String.eqb_eq in Hr as ->. simpl. by destruct a.
Qed.

Lemma gentle_allowed v o : gentle o = true -> allowed (kc_loginID kc) event v o.
Proof.
  unfold gentle. rewrite !andb_true_iff, !negb_true_iff. intros [[Hr Hc] Ho].
  split; [by rewrite Hr|]. split; [by rewrite Hc|]. by destruct o.
Qed.

(** Programs of gentle operations leave everything as it was. *)
Definition mild {A} (p : prog A) : Prop :=
  (forall v, init v -> wp v p (fun v' _ => init v')) /\ (forall v, fresh v -> wp v p (fun v' _ => fresh v')).

Lemma mild_ret {A} (a : A) : mild (Ret a).
Proof. by split. Qed.

Lemma mild_bind {A B} (p : prog A) (f : A -> prog B) : mild p -> (forall a, mild (f a)) -> mild (andThen p f).
Proof.
  intros [Hp1 Hp2] Hf. split; intros v Hv; apply wp_bind.
  - eapply wp_mono; [by apply Hp1|]. intros v' a Hv'. by apply (Hf a).
  - eapply wp_mono; [by apply Hp2|]. intros v' a Hv'. by apply (Hf a).
Qed.

Lemma mild_andOk {E A B} (p : prog (res E A)) (f : A -> prog (res E B)) :
  mild p -> (forall a, mild (f a)) -> mild (andOk p f).
Proof. intros Hp Hf. apply mild_bind; [done|]. intros [a|e]; [apply Hf|apply mild_ret]. Qed.

Lemma mild_perform o : gentle o = true -> mild (perform o).
Proof.
  intros Ho. split; intros v Hv; (apply wp_perform; [by apply gentle_allowed|]); intros a.
  - by apply next_init, Hv; apply gentle_early.
  - by apply next_fresh, Hv; apply gentle_early.
Qed.

Lemma mild_wp {A} (p : prog A) v Q : mild p -> fresh v -> (forall v' a, fresh v' -> Q v' a) -> wp v p Q.
Proof. intros [_ Hp] Hv HQ. eapply wp_mono; [by apply Hp|]. intros v' a. apply HQ. Qed.

Lemma wp_early {A} v o (k : ans o -> prog A) Q :
  gentle o = true -> fresh v -> (forall v' a, fresh v' -> wp v' (k a) Q) -> wp v (andThen (perform o) k) Q.
Proof. intros Ho Hv Hk. apply wp_bind, mild_wp; [by apply mild_perform|done|]. exact Hk. Qed.

(** The first check of every handler. *)
Lemma wp_checkSourceAccess v {A} (f : unit -> prog (res failure A)) Q :
  init v ->
  (forall v', fresh v' -> wp v' (f tt) Q) -> (forall v' r, init v' -> Q v' r) ->
  wp v (andOk (checkSourceAccess chat) f) Q.
Proof.
  intros Hv Hf HQ. apply wp_andOk, wp_bind, wp_perform; [done|]. intros [e|].
  - apply HQ. by apply next_init.
  - apply Hf. split; [by apply next_init|]. simpl. by rewrite Z.eqb_refl, orb_true_r.
Qed.

Lemma wp_currentClient v {A} (f : unit -> prog (res failure A)) Q :
  fresh v -> (forall v', fresh v' -> wp v' (f tt) Q) -> (forall v' r, fresh v' -> Q v' r) ->
  wp v (andOk currentClient f) Q.
Proof.
  intros Hv Hf HQ. apply wp_andOk, wp_early; [done|done|]. intros v' [] Hv'; apply wp_ret; [by apply Hf|by apply HQ].
Qed.

Lemma wp_chatOf {A} v (portal : matrixPortal) (f : Z -> prog (res failure A)) Q :
  (forall c, chatOf portal = Ok c -> c = chat) ->
  (chatOf portal = Ok chat -> wp v (f chat) Q) -> (forall e, Q v (Err e)) -> wp v (andOk (Ret (chatOf portal)) f) Q.
Proof.
  intros Hc Hf HQ. apply wp_andOk, wp_ret. destruct (chatOf portal) as [c|e] eqn:E; [|apply HQ].
  rewrite (Hc c eq_refl) in *. by apply Hf.
Qed.

(** ** The reservation *)

(** The event of the call. *)
Definition eventIs (evt : option matrixEvent) : Prop :=
  match evt with Some e => EventID e = event | None => True end.

Lemma wp_begin {A} v evt (f : unit -> prog (res failure A)) Q :
  eventIs evt -> fresh v ->
  (forall v', ready v' -> wp v' (f tt) Q) ->
  (forall v' f, outcome v' (@Err failure A f) -> Q v' (Err f)) ->
  wp v (andOk (beginOutboundEvent kc evt) f) Q.
Proof.
  intros He Hv Hf HQ. apply wp_andOk. unfold beginOutboundEvent.
  assert (Hearly : forall e, Q v (Err e)) by (intros e; by apply HQ, outcome_fresh).
  destruct evt as [evt|]; [|apply Hearly].
  destruct (_ =? _)%string; [apply Hearly|]. simpl in He. rewrite He.
  apply wp_bind. unfold reserveOutboundKV.
  apply wp_bind, wp_perform; [done|]. intros now. set (v1 := next v _).
  assert (Hv1 : fresh v1) by (by apply next_fresh).
  assert (Hnow : v_now v1 = Some now) by done. clearbody v1.
  apply wp_bind, wp_perform.
  { split; [done|]. split; [done|]. split; [done|]. by exists now. }
  intros cleaned. set (v2 := next v1 _).
  assert (Hv2 : fresh v2) by (by apply next_fresh).
  assert (Hnow2 : v_now v2 = Some now) by done. clearbody v2.
  destruct cleaned; simpl negb; cbv iota.
  2:{ apply wp_ret. by apply HQ, outcome_fresh. }
  apply wp_bind, wp_perform.
  { split; [done|]. split; [done|]. left. split; [done|]. by exists now. }
  intros inserted. set (v3 := next v2 _).
  destruct inserted as [[]|].
  - apply wp_ret. apply wp_ret. apply Hf. destruct Hv2 as [(Hr & Hc & Hm & Hrf) Ha].
    unfold v3, SendingFacts.next, ready, live. simpl. rewrite Ha, Hr, Hc, Hm, Hrf, String.eqb_refl. done.
  - apply wp_ret. apply wp_ret. apply HQ. done.
  - apply wp_ret. apply wp_ret. apply HQ. done.
Qed.

(** ** Messages *)

Lemma outcome_position {A} v e : outcome v (@Err failure A (outboundAcceptedWithoutPosition e)).
Proof. done. Qed.

Lemma wp_send {A B} v (p : prog (res goerror A)) (f : res goerror A -> prog (res failure B)) Q :
  sends p -> ready v ->
  (forall v' r, match r with Ok _ => True | Err e => certainErr e = true -> undone v' end -> wp v' (f r) Q) ->
  wp v (andThen p f) Q.
Proof. intros Hp Hv Hf. apply wp_bind. eapply wp_mono; [by apply Hp|]. apply Hf. Qed.

Lemma sendMatrixText_outcome v msg portal c :
  eventIs (mm_Event msg) -> fresh v ->
  wp v (sendMatrixText kc chat msg portal c) outcome.
Proof.
  intros He Hv. unfold sendMatrixText. cbv zeta. apply wp_andOk.
  set (Q := fun v r => _).
  assert (HQ : forall v f, outcome v (@Err failure sentMessage f) -> Q v (Err f)) by done.
  assert (Hdone : forall v p, Q v (Ok p)).
  { intros v' [response typ]. unfold Q. apply wp_ret. by destruct (_ <=? _). }
  destruct (mm_ReplyTo msg) as [replyTo|].
  - destruct (replyTargetFor replyTo (mp_Key portal)) as [target|e]; [|by apply wp_ret, HQ, outcome_fresh].
    apply wp_begin; [done|done| |done]. intros v1 Hv1.
    apply wp_send; [apply SendReply_sends|done|]. intros v2 r Hr. apply wp_ret.
    destruct r as [response|e]; [apply Hdone|]. by apply HQ, outcome_send.
  - apply wp_begin; [done|done| |done]. intros v1 Hv1.
    apply wp_send; [apply SendText_sends|done|]. intros v2 r Hr. apply wp_ret.
    destruct r as [response|e]; [apply Hdone|]. by apply HQ, outcome_send.
Qed.

Lemma sentAt_outcome v r typ preview :
  match r with Ok _ => True | Err e => certainErr e = true -> undone v end ->
  outcome v (sentAt kc r typ preview chat).
Proof.
  intros Hr. unfold sentAt. destruct r as [log|e]; [|by apply outcome_send].
  by destruct (SendResultPosition log) as [[]|].
Qed.

(** A media send that begins with [begin]. *)
Definition mediaSends (send : content -> prog (res failure unit) -> prog (res failure sentMessage)) : Prop :=
  forall v evt c, eventIs evt -> fresh v -> wp v (send c (beginOutboundEvent kc evt)) outcome.

Lemma sendMatrixImage_sends : mediaSends (sendMatrixImage kc chat).
Proof.
  intros v evt c He Hv. unfold sendMatrixImage. cbv zeta.
  destruct (negb _); [by apply wp_ret, outcome_fresh|].
  apply wp_early; [done|done|]. intros v1 data Hv1.
  destruct data as [data|]; [|by apply wp_ret, outcome_fresh].
  destruct (PrepareImage data); [|by apply wp_ret, outcome_fresh].
  apply wp_begin; [done|done| |done]. intros v2 Hv2.
  apply wp_send; [apply SendImage_sends|done|]. intros v3 r Hr. by apply wp_ret, sentAt_outcome.
Qed.

Lemma sendMatrixUpload_sends : mediaSends (sendMatrixUpload kc chat).
Proof.
  intros v evt c He Hv. unfold sendMatrixUpload. cbv zeta.
  destruct (match InfoSize c with Some n => _ | None => _ end); [by apply wp_ret, outcome_fresh|].
  destruct (ClassifyUpload _ _); [|by apply wp_ret, outcome_fresh].
  apply wp_early; [done|done|]. intros v1 data Hv1.
  destruct data as [data|]; [|by apply wp_ret, outcome_fresh].
  destruct (PrepareUpload _ _ _) as [u|]; [|by apply wp_ret, outcome_fresh].
  apply wp_begin; [done|done| |done]. intros v2 Hv2.
  apply wp_send; [apply SendUpload_sends|done|]. intros v3 r Hr. by apply wp_ret, sentAt_outcome.
Qed.

Lemma fetchPhotos_mild images total : mild (fetchPhotos images total).
Proof.
  revert total. induction images as [|[image|] images IH]; intros total; try apply mild_ret.
  apply mild_bind; [by apply mild_perform|]. intros [data|]; [|apply mild_ret].
  destruct (PrepareImage data); [|apply mild_ret]. cbv zeta. destruct (_ <? _); [apply mild_ret|].
  apply mild_andOk; [apply IH|]. intros photos. apply mild_ret.
Qed.

Lemma sendMatrixAlbum_outcome v evt g :
  eventIs evt -> fresh v -> wp v (sendMatrixAlbum kc chat g (beginOutboundEvent kc evt)) outcome.
Proof.
  intros He Hv. unfold sendMatrixAlbum. cbv zeta.
  set (album := if albumSizeBad _ then _ else _).
  assert (Halbum : wp v album outcome).
  { unfold album. destruct (albumSizeBad _); [by apply wp_ret, outcome_fresh|].
    destruct (negb _); [by apply wp_ret, outcome_fresh|].
    apply wp_andOk, mild_wp; [apply fetchPhotos_mild|done|]. intros v1 r Hv1.
    destruct r as [photos|f]; [|by apply outcome_fresh].
    apply wp_begin; [done|done| |done]. intros v2 Hv2.
    apply wp_bind. eapply wp_mono; [by apply SendAlbum_outcome|]. intros v3 r Hr. apply wp_ret.
    destruct r as [response|e]; [by destruct (_ <=? _)|].
    unfold albumCertain in Hr. destruct (Is e ErrAlbumNotCreated).
    - split; [|done]. intros _. apply Hr, orb_true_r.
    - apply outcome_send. intros Hc. apply Hr. by rewrite Hc. }
  clearbody album. destruct (Images g) as [|[image|] [|]]; try done. by apply sendMatrixImage_sends.
Qed.

Lemma withMediaSend_outcome v msg portal c refusal rejected send :
  mediaSends send -> eventIs (mm_Event msg) -> fresh v ->
  wp v (withMediaSend kc msg portal c chat refusal rejected send) outcome.
Proof.
  intros Hs He Hv. unfold withMediaSend.
  destruct (_ || _); [by apply wp_ret, outcome_fresh|].
  destruct (negb _); [by apply wp_ret, outcome_fresh|].
  destruct rejected as [f|]; [by apply wp_ret, outcome_fresh|].
  apply wp_early; [done|done|]. intros v1 ok Hv1.
  destruct ok; [by apply Hs|by apply wp_ret, outcome_fresh].
Qed.

Definition portalIs (portal : option matrixPortal) : Prop :=
  match portal with Some p => forall c, chatOf p = Ok c -> c = chat | None => True end.

Lemma HandleMatrixMessage_outcome v msg :
  portalIs (mm_Portal msg) -> eventIs (mm_Event msg) -> init v ->
  wp v (HandleMatrixMessage kc msg) outcome.
Proof.
  intros Hp He Hv. unfold HandleMatrixMessage.
  destruct (mm_Portal msg) as [portal|]; [|by apply wp_ret, outcome_init].
  destruct (mm_Content msg) as [c|]; [|by apply wp_ret, outcome_init].
  destruct (negb _); [by apply wp_ret, outcome_init|].
  apply wp_chatOf; [done| |intros e; by apply outcome_init]. intros _.
  apply wp_checkSourceAccess; [done| |intros v1 r Hv1; by apply outcome_init]. intros v1 Hv1.
  destruct (match mm_ReplyTo msg with None => _ | Some _ => _ end); [by apply wp_ret, outcome_fresh|].
  apply wp_currentClient; [done| |intros v2 r Hv2; by apply outcome_fresh]. intros v2 Hv2.
  destruct (MsgType_ c);
    try (by apply withMediaSend_outcome; [apply sendMatrixImage_sends| |]);
    try (by apply withMediaSend_outcome; [apply sendMatrixUpload_sends| |]);
    try by apply sendMatrixText_outcome.
  apply withMediaSend_outcome; [|done|done]. intros v3 evt c' He' Hv3. unfold sendMatrixGallery.
  destruct (mm_Event msg) as [[id [g|]]|]; [|by apply wp_ret, outcome_fresh..].
  by apply sendMatrixAlbum_outcome.
Qed.

(** ** Edits, deletions, invitations *)

(** Programs that may run at any time. *)
Definition free {A} (p : prog A) : Prop := forall v, wp v p (fun _ _ => True).

Lemma free_ret {A} (a : A) : free (Ret a).
Proof. done. Qed.

Lemma free_bind {A B} (p : prog A) (f : A -> prog B) : free p -> (forall a, free (f a)) -> free (andThen p f).
Proof. intros Hp Hf v. apply wp_bind. eapply wp_mono; [apply Hp|]. intros v' a _. apply Hf. Qed.

Lemma free_perform o : gentle o = true -> free (perform o).
Proof. intros Ho v. by apply wp_perform; [apply gentle_allowed|]. Qed.

Lemma wp_free {A} (p : prog A) v (Q : view -> A -> Prop) : free p -> (forall v' a, Q v' a) -> wp v p Q.
Proof. intros Hp HQ. eapply wp_mono; [apply Hp|]. intros v' a _. apply HQ. Qed.

Lemma free_recordEditOnOtherParts target revision text : free (recordEditOnOtherParts target revision text).
Proof.
  apply free_bind; [by apply free_perform|]. intros [parts|]; [|apply free_ret].
  induction parts as [|part parts IH]; [apply free_ret|]. cbn [recordParts].
  destruct (pointerMeta _); [|done]. destruct (_ =? _)%string; [done|].
  apply free_bind; [by apply free_perform|]. done.
Qed.

Lemma mild_call {A} body (decode : Raw -> res ChatPackets.Error A) : mild (call "GETMSGS" body decode).
Proof.
  apply mild_andOk; [apply mild_ret|]. intros b. apply mild_andOk; [|intros reply; apply mild_ret].
  apply mild_bind; [by apply mild_perform|]. intros [raw|]; [|apply mild_ret].
  destruct (Status raw) as [n|]; [|apply mild_ret]. destruct (n =? 0); apply mild_ret.
Qed.

Lemma mild_editExtra m : mild (editExtra kc chat m).
Proof.
  apply mild_bind; [|intros r; apply mild_ret]. apply mild_bind; [by apply mild_perform|].
  intros [e|]; [apply mild_ret|apply mild_call].
Qed.

Lemma HandleMatrixEdit_outcome v msg :
  portalIs (me_Portal msg) -> eventIs (me_Event msg) -> init v ->
  wp v (HandleMatrixEdit kc msg) outcome.
Proof.
  intros Hp He Hv. unfold HandleMatrixEdit.
  destruct (me_Portal msg) as [portal|]; [|by apply wp_ret, outcome_init].
  destruct (me_Content msg) as [c|]; [|by apply wp_ret, outcome_init].
  destruct (me_EditTarget msg) as [target|]; [|by apply wp_ret, outcome_init].
  apply wp_chatOf; [done| |intros e; by apply outcome_init]. intros _.
  apply wp_checkSourceAccess; [done| |intros v1 r Hv1; by apply outcome_init]. intros v1 Hv1.
  apply wp_andOk, wp_ret. destruct (editRefused kc chat target) as [m|f]; [|by apply outcome_fresh].
  apply wp_early; [done|done|]. intros v2 now Hv2.
  destruct (_ <? _); [by apply wp_ret, outcome_fresh|]. cbv zeta.
  destruct (_ =? _)%string; [done|]. destruct (_ || _); [by apply wp_ret, outcome_fresh|].
  apply wp_currentClient; [done| |intros v3 r Hv3; by apply outcome_fresh]. intros v3 Hv3.
  apply wp_andOk, mild_wp; [destruct (_ =? _); [apply mild_ret|apply mild_editExtra]|done|].
  intros v4 r Hv4. destruct r as [extra|f]; [|by apply outcome_fresh].
  apply wp_begin; [done|done| |done]. intros v5 Hv5.
  apply wp_send; [apply ModifyMessage_sends|done|]. intros v6 r Hr.
  destruct r as [revision|e]; [|by apply wp_ret, outcome_send].
  apply wp_bind, wp_free; [apply free_recordEditOnOtherParts|done].
Qed.

(** The row of a deletion is not the row of an attempt. *)
Lemma deletion_not_attempt id : String.prefix attemptFamily (matrixDeletionKey kc id) = false.
Proof. done. Qed.

Lemma free_recordMatrixDeletion id : free (recordMatrixDeletion kc id).
Proof.
  apply free_bind; [by apply free_perform|]. intros now. apply free_bind; [|intros r; apply free_ret].
  intros v. apply wp_perform; [|done]. split; [done|]. split; [done|]. right. apply deletion_not_attempt.
Qed.

Lemma HandleMatrixMessageRemove_outcome v msg :
  portalIs (mr_Portal msg) -> eventIs (mr_Event msg) -> init v ->
  wp v (HandleMatrixMessageRemove kc msg) outcome.
Proof.
  intros Hp He Hv. unfold HandleMatrixMessageRemove.
  destruct (mr_Portal msg) as [portal|]; [|by apply wp_ret, outcome_init].
  destruct (mr_TargetMessage msg) as [target|]; [|by apply wp_ret, outcome_init].
  apply wp_chatOf; [done| |intros e; by apply outcome_init]. intros _.
  apply wp_checkSourceAccess; [done| |intros v1 r Hv1; by apply outcome_init]. intros v1 Hv1.
  destruct (pointerMeta _) as [m|]; [|by apply wp_ret, outcome_fresh].
  destruct (_ || _); [by apply wp_ret, outcome_fresh|].
  destruct (deletedForAll _); [done|]. destruct (_ =? _); [by apply wp_ret, outcome_fresh|].
  destruct (negb _); [by apply wp_ret, outcome_fresh|]. destruct (_ =? _); [by apply wp_ret, outcome_fresh|].
  apply wp_early; [done|done|]. intros v2 now Hv2. destruct (_ <? _); [by apply wp_ret, outcome_fresh|].
  apply wp_currentClient; [done| |intros v3 r Hv3; by apply outcome_fresh]. intros v3 Hv3.
  apply wp_begin; [done|done| |done]. intros v4 Hv4.
  apply wp_send; [apply DeleteMessage_sends|done|]. intros v5 r Hr.
  destruct r as [u|e]; [apply wp_bind, wp_free; [apply free_recordMatrixDeletion|done]|].
  destruct (hasStatus e StatusAlreadyDeleted); [apply wp_bind, wp_free; [apply free_recordMatrixDeletion|done]|].
  destruct (_ || _) eqn:E; [|by apply wp_ret, outcome_send].
  apply wp_ret. split; [|done]. intros _. apply Hr. unfold certainErr, isStatus.
  unfold hasStatus in E. destruct (status e); [|done]. by rewrite !orb_true_r.
Qed.

Lemma refuseInvite_outcome {A} v ghost e : undone v -> wp v (refuseInvite (A := A) ghost e) outcome.
Proof.
  intros Hu. apply wp_bind, wp_perform; [by apply gentle_allowed|]. intros done_. apply wp_ret.
  split; [|done]. intros _. destruct Hu as [Hm|Hr]; [left|right]; simpl; [by rewrite Hm|by rewrite Hr].
Qed.

Lemma fresh_undone v : fresh v -> undone v.
Proof. intros [(_ & _ & Hm & _) _]. by left. Qed.

Lemma init_undone v : init v -> undone v.
Proof. intros (_ & _ & Hm & _). by left. Qed.

Lemma mild_storedGroupRoster chatID : mild (storedGroupRoster chatID).
Proof.
  apply mild_bind; [by apply mild_perform|]. intros [|u l]; [apply mild_ret|].
  apply mild_bind; [by apply mild_perform|]. intros data. apply mild_ret.
Qed.

Lemma mild_readInviteGroup chatID : mild (readInviteGroup chatID).
Proof.
  apply mild_andOk; [by apply mild_perform|]. intros data.
  destruct (negb _); [apply mild_ret|]. destruct (negb _); [apply mild_ret|].
  destruct (isTeam data); [apply mild_ret|]. apply mild_andOk; [by apply mild_perform|].
  intros members. apply mild_ret.
Qed.

Lemma sendInvite_outcome v evt userID ghost stored :
  eventIs evt -> fresh v -> wp v (sendInvite kc evt chat userID ghost stored) outcome.
Proof.
  intros He Hv. apply wp_begin; [done|done| |done]. intros v1 Hv1.
  apply wp_send; [apply AddMembers_sends|done|]. intros v2 r Hr.
  destruct r as [response|e].
  - apply wp_bind, wp_free; [by apply free_perform|]. intros v3 a. apply wp_ret. by destruct (nonempty _).
  - destruct (isStatus e) eqn:Es.
    + apply refuseInvite_outcome, Hr. unfold certainErr. by rewrite Es, !orb_true_r.
    + by apply wp_bind, wp_free; [apply free_perform|].
Qed.

Lemma handleMatrixInvite_outcome v portal evt ghost :
  portalIs portal -> eventIs evt -> init v ->
  wp v (handleMatrixInvite kc portal evt ghost) outcome.
Proof.
  intros Hp He Hv. unfold handleMatrixInvite.
  destruct portal as [portal|]; [|by apply refuseInvite_outcome, init_undone].
  destruct (mp_DM portal); [by apply refuseInvite_outcome, init_undone|].
  apply wp_chatOf; [done| |intros e; by apply outcome_init]. intros _.
  apply wp_andOk, wp_ret. destruct (parseUserID ghost) as [userID|e]; [|done].
  apply wp_checkSourceAccess; [done| |intros v1 r Hv1; by apply outcome_init]. intros v1 Hv1.
  apply wp_currentClient; [done| |intros v2 r Hv2; by apply outcome_fresh]. intros v2 Hv2.
  apply wp_bind, mild_wp; [apply mild_storedGroupRoster|done|]. intros v3 known Hv3.
  apply wp_bind, mild_wp; [destruct known; [apply mild_ret|apply mild_readInviteGroup]|done|].
  intros v4 group Hv4. cbv zeta. destruct group as [[roster team]|e].
  - destruct team; [by apply refuseInvite_outcome, fresh_undone|].
    destruct (existsb _ roster); [|by apply sendInvite_outcome].
    destruct known; [done|]. by apply wp_bind, wp_free; [apply free_perform|].
  - destruct (Is e ErrInviteNotRegularGroup); [by apply refuseInvite_outcome, fresh_undone|done].
Qed.
End Handlers.
