(* ===== verification/OutboundPool.v ===== *)
(** * Matrix events sent to KakaoTalk: concurrent calls

    The framework calls a handler for every copy of an event it receives, and the
    calls of several events, of several logins, and of a restarted process share
    the rows of the bridge's kv_store (kv.go).  A step is one operation of one
    call, the start of a call, a restart that forgets all calls, the passing of
    time, or a change of other rows. *)

From Stdlib Require Import Ascii.
From S2P Require Import Prelude Identifiers Bytes Text Bson ChatLog ChatPackets MediaUpload Sending Outbound SendingFacts OutboundFacts.
From S2P Require Events.

#[local] Open Scope string_scope.
#[local] Open Scope list_scope.
#[local] Open Scope Z_scope.

(** ** The statements of kv.go *)

(** The operator LIKE, with [fold] what the database makes of the case of a
    letter: any sequence for a percent sign, any character for an underscore. *)
Fixpoint like (fold : Ascii.ascii -> Ascii.ascii) (pattern key : string) : bool :=
  match pattern with
  | EmptyString => (key =? "")%string
  | String.String c pattern =>
      if Ascii.eqb c "%"%char then
        (fix any (key : string) : bool :=
           like fold pattern key || match key with EmptyString => false | String.String _ key => any key end) key
      else match key with
           | EmptyString => false
           | String.String d key => (Ascii.eqb c "_"%char || Ascii.eqb (fold c) (fold d)) && like fold pattern key
           end
  end.

(** [deleteOlderThan] *)
Definition deleteOlder (fold : Ascii.ascii -> Ascii.ascii) (prefix stamp : string) (rows : gmap string string)
  : gmap string string :=
  filter (fun kv => like fold (prefix +:+ "%") kv.1 && String.ltb kv.2 stamp = false) rows.

(** [putIfAbsent]: the rows, and whether one was inserted. *)
Definition putIfAbsent (key value : string) (rows : gmap string string) : gmap string string * bool :=
  match rows !! key with Some _ => (rows, false) | None => (<[key := value]> rows, true) end.

Section Pool.
Context `{Bson} `{Json} `{MediaLib} `{!Events.EventContent}.
Context (fold : Ascii.ascii -> Ascii.ascii).

(** ** Calls *)

Inductive invocation :=
| Message (msg : MatrixMessage)
| Edit (msg : MatrixEdit)
| Remove (msg : MatrixMessageRemove)
| Invite (portal : option matrixPortal) (evt : option matrixEvent) (ghost : string).

Definition errorPart {A} (r : res failure A) : option failure :=
  match r with Ok _ => None | Err f => Some f end.

Definition dropValue {A} (p : prog (res failure A)) : prog (option failure) :=
  andThen p (fun r => Ret (errorPart r)).

(** The handler of an event, with the error it returns. *)
Definition handler (kc : Kakao) (i : invocation) : prog (option failure) :=
  match i with
  | Message msg => dropValue (HandleMatrixMessage kc msg)
  | Edit msg => dropValue (HandleMatrixEdit kc msg)
  | Remove msg => dropValue (HandleMatrixMessageRemove kc msg)
  | Invite portal evt ghost => dropValue (handleMatrixInvite kc portal evt ghost)
  end.

Definition portalOf (i : invocation) : option matrixPortal :=
  match i with
  | Message msg => mm_Portal msg
  | Edit msg => me_Portal msg
  | Remove msg => mr_Portal msg
  | Invite portal _ _ => portal
  end.

Definition matrixEventOf (i : invocation) : option matrixEvent :=
  match i with
  | Message msg => mm_Event msg
  | Edit msg => me_Event msg
  | Remove msg => mr_Event msg
  | Invite _ evt _ => evt
  end.

Definition eventOf (i : invocation) : string :=
  match matrixEventOf i with Some e => EventID e | None => "" end.

Definition chatIDOf (i : invocation) : Z :=
  match portalOf i with
  | Some p => match chatOf p with Ok c => c | Err _ => 0 end
  | None => 0
  end.

(** A call: what it did and what is left of it. *)
Record call := mkCall {
  c_chat : Z;
  c_login : string;
  c_event : string;
  c_done : list happened;
  c_rest : prog (option failure);
}.

Definition callOf (kc : Kakao) (i : invocation) : call :=
  mkCall (chatIDOf i) (kc_loginID kc) (eventOf i) [] (handler kc i).

(** ** Steps *)

Record World := mkWorld {
  rows : gmap string string;
  clock : Z; (* nanoseconds *)
  requests : list (string * string * op); (* the changes requested, by login and event *)
}.

Definition setRows (r : gmap string string) (w : World) : World := mkWorld r (clock w) (requests w).
Definition log (login event : string) (o : op) (w : World) : World :=
  if creates o then mkWorld (rows w) (clock w) (requests w ++ [(login, event, o)]) else w.

(** An operation with its answer. A statement that fails may have been done. *)
Definition performs (w : World) (login event : string) (o : op) : ans o -> World -> Prop :=
  match o with
  | Now => fun t w' => t = clock w /\ w' = w
  | DeleteOlderThan prefix stamp => fun ok w' =>
      w' = setRows (deleteOlder fold prefix stamp (rows w)) w \/ (w' = w /\ ok = false)
  | PutIfAbsent key value => fun inserted w' =>
      (w' = setRows (putIfAbsent key value (rows w)).1 w /\
       (inserted = Some (putIfAbsent key value (rows w)).2 \/ inserted = None)) \/
      (w' = w /\ inserted = None)
  | _ => fun _ w' => w' = log login event o w
  end.

Inductive step : World * list call -> World * list call -> Prop :=
| step_call w cs kc i : step (w, cs) (w, cs ++ [callOf kc i])
| step_op w w' cs1 cs2 chat login event done_ o k a :
    performs w login event o a w' ->
    step (w, cs1 ++ mkCall chat login event done_ (Vis o k) :: cs2)
         (w', cs1 ++ mkCall chat login event (done_ ++ [Ev o a]) (k a) :: cs2)
| step_clock w cs d : 0 <= d -> step (w, cs) (mkWorld (rows w) (clock w + d) (requests w), cs)
| step_restart w cs : step (w, cs) (w, [])
| step_others w cs r :
    (forall key, String.prefix attemptFamily key = true -> r !! key = rows w !! key) ->
    step (w, cs) (setRows r w, cs).

(** The requests made for one event of one login. *)
Definition requestsOf (login event : string) (w : World) : list (string * string * op) :=
  filter (fun r => r.1 = (login, event)) (requests w).
End Pool.

(** ** Matrix events sent to KakaoTalk: facts about concurrent calls

    The order of stamps, what a step keeps of a call, and the invariant of one
    event's row. *)

(** ** Stamps sort in time order *)

Lemma digit_code n : N_of_ascii (digit n) = Z.to_N (48 + n mod 10).
Proof.
  unfold digit. apply N_ascii_embedding. pose proof (Z.mod_pos_bound n 10 ltac:(lia)). lia.
Qed.

Lemma digits_less w a b : String.ltb (digits w a) (digits w b) = true -> a mod 10 ^ Z.of_nat w < b mod 10 ^ Z.of_nat w.
Proof.
  unfold String.ltb. induction w as [|w IH]; [done|]. cbn [digits String.compare].
  unfold Ascii.compare. rewrite !digit_code. intros E.
  rewrite Nat2Z.inj_succ, Z.pow_succ_r, (Z.mul_comm 10), !Z.rem_mul_r by lia.
  pose proof (Z.pow_pos_nonneg 10 (Z.of_nat w) ltac:(lia) ltac:(lia)) as Hp. set (p := 10 ^ Z.of_nat w) in *.
  pose proof (Z.mod_pos_bound a p Hp). pose proof (Z.mod_pos_bound b p Hp).
  pose proof (Z.mod_pos_bound (a / p) 10 ltac:(lia)). pose proof (Z.mod_pos_bound (b / p) 10 ltac:(lia)).
  destruct (N.compare_spec (Z.to_N (48 + (a / p) mod 10)) (Z.to_N (48 + (b / p) mod 10))) as [Hc|Hc|Hc]; [| |done].
  - assert ((a / p) mod 10 = (b / p) mod 10) as -> by lia. specialize (IH E). lia.
  - assert ((a / p) mod 10 + 1 <= (b / p) mod 10) by lia. nia.
Qed.

(** A stamp that is not negative is older than another only if its second is
    earlier. *)
Lemma stamp_older a b :
  0 <= a < 2 ^ 64 -> b < 2 ^ 64 -> String.ltb (kvTimeStamp a) (kvTimeStamp b) = true -> a < b.
Proof.
  intros Ha Hb. unfold kvTimeStamp, pad20, second.
  assert (0 <= a / 1000000000 < 10 ^ 20).
  { split; [apply Z.div_pos; lia|apply Z.div_lt_upper_bound; lia]. }
  assert (b / 1000000000 < 10 ^ 20) by (apply Z.div_lt_upper_bound; lia).
  rewrite (proj2 (Z.ltb_ge (a / 1000000000) 0)) by lia.
  destruct (Z.ltb_spec (b / 1000000000) 0) as [Hneg|Hpos].
  - unfold String.ltb. remember 19%nat as n.
    change ("-" +:+ digits n (- (b / 1000000000))) with (String.String "-" (digits n (- (b / 1000000000)))).
    cbn [digits String.compare].
    intros E. exfalso. revert E. unfold Ascii.compare. rewrite digit_code.
    change (N_of_ascii "-") with 45%N.
    pose proof (Z.mod_pos_bound (a / 1000000000 / 10 ^ Z.of_nat n) 10 ltac:(lia)).
    destruct (N.compare_spec (Z.to_N (48 + (a / 1000000000 / 10 ^ Z.of_nat n) mod 10)) 45); [lia|lia|done].
  - intros E. apply digits_less in E. change (Z.of_nat 20) with 20 in E.
    rewrite !Z.mod_small in E by lia.
    destruct (Z.lt_ge_cases a b) as [|Hle]; [done|]. exfalso.
    pose proof (Z.div_le_mono b a 1000000000 ltac:(lia) Hle). lia.
Qed.

(** ** Rows *)

Section Rows.
Context (fold : ascii -> ascii).

Lemma deleteOlder_keeps prefix stamp rows key value :
  rows !! key = Some value -> String.ltb value stamp = false ->
  deleteOlder fold prefix stamp rows !! key = Some value.
Proof.
  intros Hk Hs. unfold deleteOlder. apply map_lookup_filter_Some. split; [done|]. simpl.
  by rewrite Hs, andb_false_r.
Qed.

(** A pattern without wildcards before its last percent sign matches the keys
    that begin with it. *)
Lemma like_prefix prefix key :
  (forall c, fold c = c) ->
  Forall (fun c => c <> "%"%char /\ c <> "_"%char) (String.list_ascii_of_string prefix) ->
  like fold (prefix +:+ "%") key = String.prefix prefix key.
Proof.
  intros Hf. revert key. induction prefix as [|c prefix IH]; intros key Hp.
  - simpl. destruct key as [|d key]; [done|].
    assert (forall key, (fix any (key : string) : bool :=
       (key =? "")%string || match key with "" => false | String.String _ key => any key end) key = true) as Hany.
    { induction key0 as [|e key0 IHk]; [done|]. simpl. exact IHk. }
    simpl. apply Hany.
  - apply Forall_cons in Hp as [[Hc1 Hc2] Hp]. change (String.String c prefix +:+ "%") with (String.String c (prefix +:+ "%")). cbn [like].
    rewrite (proj2 (Ascii.eqb_neq c "%"%char)) by done. destruct key as [|d key]; [done|].
    rewrite (proj2 (Ascii.eqb_neq c "_"%char)) by done. rewrite !Hf, IH by done. simpl.
    destruct (ascii_dec c d) as [->|Hne]; [by rewrite Ascii.eqb_refl|].
    by rewrite (proj2 (Ascii.eqb_neq c d)).
Qed.
End Rows.

Lemma prefix_append a b : String.prefix a (a +:+ b) = true.
Proof.
  induction a as [|c a IH]; [by destruct b|].
  change (String.String c a +:+ b) with (String.String c (a +:+ b)). simpl. by destruct (ascii_dec c c).
Qed.

Lemma attemptKey_family login event : String.prefix attemptFamily (attemptKey login event) = true.
Proof. exact (prefix_append attemptFamily ((login +:+ ":") +:+ event)). Qed.

Section PoolFacts.
Context `{Bson} `{Json} `{MediaLib} `{!Events.EventContent}.
Context (fold : ascii -> ascii).

Local Abbreviation step := (step fold).
Local Abbreviation performs := (performs fold).

(** ** A call's view *)

Definition viewOf (c : call) : view := foldl (next (c_chat c) (c_login c) (c_event c)) start (c_done c).

(** A call keeps the discipline of SendingFacts.v. *)
Definition disciplined (c : call) : Prop :=
  wp (c_chat c) (c_login c) (c_event c) (viewOf c) (c_rest c) (fun _ _ => True).

Definition advance (c : call) (o : op) (a : ans o) (rest : prog (option failure)) : call :=
  mkCall (c_chat c) (c_login c) (c_event c) (c_done c ++ [Ev o a]) rest.

Lemma viewOf_advance c o a rest :
  viewOf (advance c o a rest) = next (c_chat c) (c_login c) (c_event c) (viewOf c) (Ev o a).
Proof. unfold viewOf. simpl. by rewrite foldl_app. Qed.

Lemma init_start : init start.
Proof. done. Qed.

Lemma dropValue_wp {A} kc chat event v (p : prog (res failure A)) :
  wp chat (kc_loginID kc) event v p outcome ->
  wp chat (kc_loginID kc) event v (dropValue p) (fun v r => match r with
    | Some f => outcome v (@Err failure unit f)
    | None => True
    end).
Proof. intros Hp. apply wp_bind. eapply wp_mono; [exact Hp|]. by intros v' [a|f] Hr. Qed.

(** Every handler keeps the discipline and reports its outcome. *)
Lemma handler_outcome kc i :
  wp (chatIDOf i) (kc_loginID kc) (eventOf i) start (handler kc i)
    (fun v r => match r with Some f => outcome v (@Err failure unit f) | None => True end).
Proof.
  assert (Hp : portalIs (chatIDOf i) (portalOf i)).
  { unfold portalIs, chatIDOf. destruct (portalOf i) as [p|]; [|done]. by intros c ->. }
  assert (He : eventIs (eventOf i) (matrixEventOf i)).
  { unfold eventIs, eventOf. by destruct (matrixEventOf i). }
  destruct i; apply dropValue_wp.
  - by apply HandleMatrixMessage_outcome.
  - by apply HandleMatrixEdit_outcome.
  - by apply HandleMatrixMessageRemove_outcome.
  - by apply handleMatrixInvite_outcome.
Qed.

Lemma callOf_disciplined kc i : disciplined (callOf kc i).
Proof. unfold disciplined. eapply wp_mono; [apply handler_outcome|done]. Qed.

Lemma disciplined_step chat login event done_ o k a :
  disciplined (mkCall chat login event done_ (Vis o k)) ->
  disciplined (mkCall chat login event (done_ ++ [Ev o a]) (k a)).
Proof.
  intros [_ Hk]. unfold disciplined, viewOf. simpl. rewrite foldl_app. apply Hk.
Qed.

Lemma disciplined_allowed chat login event done_ o k :
  let c := mkCall chat login event done_ (Vis o k) in
  disciplined c -> allowed login event (viewOf c) o.
Proof. by intros c [Ha _]. Qed.

(** ** The row of one attempt *)

Definition keyOf (c : call) : string := attemptKey (c_login c) (c_event c).

(** A call that reserved the row and has not yet used it. *)
Definition holds (key : string) (c : call) : nat :=
  if decide (keyOf c = key) then if v_reserved (viewOf c) && (v_created (viewOf c) =? 0)%nat then 1 else 0 else 0.

Definition sum (l : list nat) : nat := foldr Nat.add 0%nat l.
Definition held (key : string) (cs : list call) : nat := sum (holds key <$> cs).

Definition requestKey (r : string * string * op) : string := attemptKey r.1.1 r.1.2.
Definition requested (key : string) (w : World) : nat :=
  length (filter (fun r => requestKey r = key) (requests w)).

Lemma sum_app l1 l2 : sum (l1 ++ l2) = (sum l1 + sum l2)%nat.
Proof. induction l1 as [|n l1 IH]; simpl; [done|rewrite IH; lia]. Qed.

Lemma held_app key cs1 cs2 : held key (cs1 ++ cs2) = (held key cs1 + held key cs2)%nat.
Proof. unfold held. by rewrite fmap_app, sum_app. Qed.

Lemma held_middle key cs1 c cs2 :
  held key (cs1 ++ c :: cs2) = (held key cs1 + holds key c + held key cs2)%nat.
Proof. rewrite held_app. change (held key (c :: cs2)) with (holds key c + held key cs2)%nat. lia. Qed.

Lemma holds_le key c : (holds key c <= 1)%nat.
Proof. unfold holds. repeat case_match; lia. Qed.

(** The times a call has read. *)
Definition timely (old : bool) (t0 now : Z) (c : call) : Prop :=
  forall t, v_now (viewOf c) = Some t -> (old = false -> t0 <= t) /\ 0 <= t <= now.

(** With [old] the row was there at [t0], and nothing is ever requested for it;
    without, at most one call has it, or has used it. *)
Record attempt (old : bool) (t0 : Z) (key : string) (w : World) (cs : list call) : Prop := mkAttempt {
  at_calls : Forall (fun c => disciplined c /\ timely old t0 (clock w) c) cs;
  at_clock : 0 <= clock w /\ (old = false -> t0 <= clock w);
  at_count : (requested key w + held key cs <= if old then 0 else 1)%nat;
  at_row : old = true \/ (1 <= requested key w + held key cs)%nat ->
           exists t, t0 <= t < 2 ^ 64 /\ rows w !! key = Some (kvTimeStamp t);
}.

Lemma timely_later old t0 now now' c : now <= now' -> timely old t0 now c -> timely old t0 now' c.
Proof. intros Hn Ht t E. destruct (Ht t E). split; [done|lia]. Qed.

(** A step of a call that touches neither the key's row nor its requests. *)
Lemma holds_next key c o a rest :
  creates o = false -> (keyOf c = key -> reservedBy (c_login c) (c_event c) (Ev o a) = false) ->
  holds key (advance c o a rest) = holds key c.
Proof.
  intros Hc Hr. unfold holds. rewrite viewOf_advance.
  change (keyOf (advance c o a rest)) with (keyOf c).
  destruct (decide (keyOf c = key)) as [E|]; [|done]. specialize (Hr E).
  cbn [next v_reserved v_created]. rewrite Hr, Hc, orb_false_r. done.
Qed.

(** Its times after an operation. *)
Lemma timely_next old t0 now c o a rest :
  timely old t0 now c -> (match Ev o a with Ev Now t => (old = false -> t0 <= t) /\ 0 <= t <= now | _ => True end) ->
  timely old t0 now (advance c o a rest).
Proof.
  intros Ht Ho t. rewrite viewOf_advance. destruct o; cbn [next v_now]; try apply Ht.
  intros [= <-]. done.
Qed.

Lemma not_attempt_key key login event : String.prefix attemptFamily key = false -> key <> attemptKey login event.
Proof. intros Hf ->. by rewrite attemptKey_family in Hf. Qed.

(** ** Time *)

Lemma performs_clock w login event o a w' : performs w login event o a w' -> clock w' = clock w.
Proof.
  intros Hp. destruct o; cbn [OutboundPool.performs] in Hp;
    try (subst w'; unfold log; by destruct (creates _)).
  - by destruct Hp as [_ ->].
  - by destruct Hp as [->|[-> _]].
  - by destruct Hp as [[-> _]|[-> _]].
Qed.

Lemma step_mono w cs w' cs' : step (w, cs) (w', cs') -> clock w <= clock w'.
Proof. inversion 1; subst; simpl; try lia. by erewrite <-performs_clock. Qed.

Lemma steps_mono x y : rtc step x y -> clock x.1 <= clock y.1.
Proof.
  induction 1 as [x|[w cs] [w' cs'] z Hs _ IH]; [lia|]. apply step_mono in Hs. simpl in *. lia.
Qed.

(** ** Steps keep it *)

Section Steps.
Context (old : bool) (t0 : Z) (key : string).

Lemma attempt_op w w' cs1 cs2 c o a rest :
  attempt old t0 key w (cs1 ++ c :: cs2) ->
  disciplined (advance c o a rest) -> timely old t0 (clock w) (advance c o a rest) ->
  clock w' = clock w ->
  (requested key w' + holds key (advance c o a rest) = requested key w + holds key c)%nat ->
  (forall t, t0 <= t < 2 ^ 64 -> rows w !! key = Some (kvTimeStamp t) -> rows w' !! key = Some (kvTimeStamp t)) ->
  attempt old t0 key w' (cs1 ++ advance c o a rest :: cs2).
Proof.
  intros [Hc Hk Hn Hr] Hd Ht Hclock Hcount Hrow. rewrite held_middle in Hn, Hr.
  apply Forall_app in Hc as [Hc1 Hc2]. apply Forall_cons in Hc2 as [_ Hc2].
  constructor; rewrite ?Hclock, ?held_middle.
  - apply Forall_app. split; [done|]. by constructor.
  - done.
  - lia.
  - intros Hor. destruct Hr as (t & Htt & E); [destruct Hor; [by left|right; lia]|].
    exists t. split; [done|]. by apply Hrow.
Qed.

Lemma requested_log w login event o :
  requested key (log login event o w) =
  (requested key w + if creates o then if decide (attemptKey login event = key) then 1 else 0 else 0)%nat.
Proof.
  unfold log, requested. destruct (creates o); [|lia]. simpl. rewrite filter_app, length_app. f_equal.
  rewrite filter_cons, filter_nil. change (requestKey (login, event, o)) with (attemptKey login event).
  by destruct (decide (attemptKey login event = key)).
Qed.

(** An operation that changes at most the log. *)
Lemma attempt_log w cs1 cs2 c o a rest :
  attempt old t0 key w (cs1 ++ c :: cs2) -> allowed (c_login c) (c_event c) (viewOf c) o ->
  disciplined (advance c o a rest) ->
  (match o with Now | PutIfAbsent _ _ => False | _ => True end) ->
  attempt old t0 key (log (c_login c) (c_event c) o w) (cs1 ++ advance c o a rest :: cs2).
Proof.
  intros Hat (_ & Hcr & _) Hd Ho.
  assert (Hres : reservedBy (c_login c) (c_event c) (Ev o a) = false) by (by destruct o).
  eapply attempt_op; [exact Hat|done| | | |].
  - apply timely_next; [|by destruct o].
    destruct Hat as [Hc _ _ _]. apply Forall_app in Hc as [_ Hc]. apply Forall_cons in Hc as [[_ Ht] _]. done.
  - unfold log. by destruct (creates o).
  - rewrite requested_log. destruct (creates o) eqn:Eo; [|rewrite holds_next; [lia|done|done]].
    destruct (Hcr eq_refl) as [Hz Hr]. unfold holds. rewrite viewOf_advance.
    change (keyOf (advance c o a rest)) with (keyOf c). change (attemptKey (c_login c) (c_event c)) with (keyOf c).
    destruct (decide (keyOf c = key)); [|lia]. cbn [next v_reserved v_created].
    rewrite Hr, Hz, Eo. simpl. lia.
  - intros t _ E. unfold log. by destruct (creates o).
Qed.

(** The row is written by the one call that finds none. *)
Lemma attempt_insert w cs1 cs2 c value t rest :
  attempt old t0 key w (cs1 ++ c :: cs2) -> keyOf c = key -> rows w !! key = None ->
  t0 <= t < 2 ^ 64 -> value = kvTimeStamp t ->
  forall inserted, inserted = Some true \/ inserted = None ->
  disciplined (advance c (PutIfAbsent key value) inserted rest) ->
  attempt old t0 key (setRows (<[key := value]> (rows w)) w)
    (cs1 ++ advance c (PutIfAbsent key value) inserted rest :: cs2).
Proof.
  intros [Hc Hk Hn Hr] Hkey Hnone Ht -> inserted Hins Hd.
  assert (Hzero : old = false /\ (requested key w + held key (cs1 ++ c :: cs2) = 0)%nat).
  { destruct old.
    - destruct Hr as (t' & _ & E); [by left|congruence].
    - split; [done|]. destruct (requested key w + held key (cs1 ++ c :: cs2))%nat eqn:E; [done|].
      destruct Hr as (t' & _ & E'); [right; lia|congruence]. }
  destruct Hzero as [Hold Hzero]. rewrite held_middle in Hzero.
  apply Forall_app in Hc as [Hc1 Hc2]. apply Forall_cons in Hc2 as [[_ Htm] Hc2].
  constructor.
  - apply Forall_app. split; [done|]. constructor; [|done]. split; [done|]. by apply timely_next.
  - done.
  - rewrite held_middle. rewrite Hold. change (requested key (setRows _ w)) with (requested key w).
    pose proof (holds_le key (advance c (PutIfAbsent key (kvTimeStamp t)) inserted rest)). lia.
  - intros _. exists t. split; [done|]. unfold setRows. cbn [rows]. apply lookup_insert_eq.
Qed.

Context (Hfamily : String.prefix attemptFamily key = true).
Context (Ht0 : 0 <= t0 < 2 ^ 63).

Lemma retention_bound : t0 + outboundAttemptRetention < 2 ^ 64.
Proof. unfold outboundAttemptRetention, second. lia. Qed.

(** An operation whose effect on the store leaves the row alone. *)
Lemma attempt_quiet r w cs1 cs2 c o a rest :
  attempt old t0 key w (cs1 ++ c :: cs2) -> disciplined (advance c o a rest) ->
  creates o = false -> (match o with Now => False | _ => True end) ->
  (keyOf c = key -> reservedBy (c_login c) (c_event c) (Ev o a) = false) ->
  (forall t, t0 <= t < 2 ^ 64 -> rows w !! key = Some (kvTimeStamp t) -> r !! key = Some (kvTimeStamp t)) ->
  attempt old t0 key (setRows r w) (cs1 ++ advance c o a rest :: cs2).
Proof.
  intros Hat Hd Hc Ho Hres Hr. eapply attempt_op; [exact Hat|done| |done| |done].
  - apply timely_next; [|by destruct o].
    destruct Hat as [Hcs _ _ _]. apply Forall_app in Hcs as [_ Hcs]. apply Forall_cons in Hcs as [[_ Ht] _]. done.
  - change (requested key (setRows r w)) with (requested key w). by rewrite holds_next.
Qed.

Lemma setRows_same w : setRows (rows w) w = w.
Proof. by destruct w. Qed.

Lemma attempt_perform w w' cs1 cs2 c o k a :
  c_rest c = Vis o k -> clock w <= t0 + outboundAttemptRetention ->
  attempt old t0 key w (cs1 ++ c :: cs2) -> performs w (c_login c) (c_event c) o a w' ->
  disciplined (advance c o a (k a)) ->
  attempt old t0 key w' (cs1 ++ advance c o a (k a) :: cs2).
Proof.
  intros Hrest Hclock Hat Hp Hd.
  assert (Hc : disciplined c /\ timely old t0 (clock w) c).
  { destruct Hat as [Hcs _ _ _]. apply Forall_app in Hcs as [_ Hcs]. by apply Forall_cons in Hcs as [? _]. }
  destruct Hc as [Hdc Htm].
  assert (Hall : allowed (c_login c) (c_event c) (viewOf c) o).
  { unfold disciplined in Hdc. rewrite Hrest in Hdc. apply Hdc. }
  destruct o; try (by simpl in Hp; subst w'; apply attempt_log).
  - destruct Hp as [-> ->]. eapply attempt_op; [exact Hat|done| |done| |done].
    + apply timely_next; [done|]. destruct (at_clock _ _ _ _ _ Hat). split; [done|lia].
    + by rewrite holds_next.
  - destruct Hall as (_ & _ & -> & now & Hnow & ->). destruct (Htm now Hnow) as [_ Hn].
    destruct Hp as [->|[-> ->]].
    + apply attempt_quiet; try done. intros t Ht E. apply deleteOlder_keeps; [done|].
      destruct (String.ltb _ _) eqn:El; [|done]. exfalso. pose proof retention_bound.
      apply stamp_older in El; lia.
    + rewrite <-(setRows_same w). by apply attempt_quiet.
  - destruct Hall as (_ & _ & Hput).
    assert (Hother : key0 <> key ->
      attempt old t0 key (setRows (putIfAbsent key0 value (rows w)).1 w) (cs1 ++ advance c (PutIfAbsent key0 value) a (k a) :: cs2) /\
      attempt old t0 key w (cs1 ++ advance c (PutIfAbsent key0 value) a (k a) :: cs2)).
    { intros Hne. assert (Hres : keyOf c = key -> reservedBy (c_login c) (c_event c) (Ev (PutIfAbsent key0 value) a) = false).
      { intros E. simpl. destruct a as [[]|]; try done. apply String.eqb_neq. unfold keyOf in E. congruence. }
      split; [|rewrite <-(setRows_same w)]; apply attempt_quiet; try done. intros t _ E. unfold putIfAbsent.
      destruct (rows w !! key0); [done|]. simpl. by rewrite lookup_insert_ne. }
    destruct (decide (key0 = key)) as [->|Hne].
    2:{ destruct Hp as [[-> _]|[-> _]]; by apply Hother. }
    destruct Hput as [[Hk (now & Hnow & Hv)]|Hput].
    2:{ congruence. }
    destruct (Htm now Hnow) as [Hold Hn]. pose proof retention_bound.
    cbn [OutboundPool.performs] in Hp. unfold putIfAbsent in Hp. destruct (rows w !! key) as [v0|] eqn:Erow; cbn [fst snd] in Hp.
    + rewrite setRows_same in Hp.
      assert (Hw : w' = w /\ (a = Some false \/ a = None)) by (destruct Hp as [[-> [->| ->]]|[-> ->]]; auto).
      destruct Hw as [-> Ha]. rewrite <-(setRows_same w). apply attempt_quiet; try done.
      intros _. destruct Ha as [->| ->]; done.
    + destruct Hp as [[-> Ha]|[-> ->]].
      * assert (Hold' : old = false).
        { destruct old; [|done]. destruct (at_row _ _ _ _ _ Hat) as (t & _ & E); [by left|congruence]. }
        eapply attempt_insert; [exact Hat|by symmetry|done| |exact Hv|done|done]. split; [by apply Hold|lia].
      * rewrite <-(setRows_same w). by apply attempt_quiet.
Qed.

Lemma held_new kc i : held key [callOf kc i] = 0%nat.
Proof. unfold held, holds, sum. cbn [fmap list_fmap foldr]. by case_decide. Qed.

Lemma attempt_step w cs w' cs' :
  clock w' <= t0 + outboundAttemptRetention ->
  attempt old t0 key w cs -> step (w, cs) (w', cs') -> attempt old t0 key w' cs'.
Proof.
  intros Hclock Hat Hs. pose proof (step_mono _ _ _ _ Hs) as Hmono. inversion Hs; subst.
  - destruct Hat as [Hc Hk Hn Hr]. constructor.
    + apply Forall_app. split; [done|]. apply Forall_singleton. split; [apply callOf_disciplined|]. intros t E. discriminate E.
    + done.
    + by rewrite held_app, held_new, Nat.add_0_r.
    + by rewrite held_app, held_new, Nat.add_0_r.
  - match goal with H : performs _ _ _ _ _ _ |- _ =>
      eapply (attempt_perform w w' cs1 cs2 (mkCall chat login event done_ (Vis o k))) in H; try done end.
    + lia.
    + apply disciplined_step. destruct Hat as [Hcs _ _ _]. apply Forall_app in Hcs as [_ Hcs].
      by apply Forall_cons in Hcs as [[Hd _] _].
  - destruct Hat as [Hc Hk Hn Hr]. constructor; [| |done|done].
    + eapply Forall_impl; [exact Hc|]. intros c [Hd Ht]. split; [done|]. eapply timely_later; [|exact Ht]. simpl. lia.
    + simpl. destruct Hk as [Hk1 Hk2]. split; [lia|]. intros Ho. specialize (Hk2 Ho). lia.
  - destruct Hat as [Hc Hk Hn Hr]. constructor; [constructor|done| |].
    + unfold held in *. simpl. lia.
    + intros Hor. apply Hr. destruct Hor as [|Hor]; [by left|right]. unfold held in Hor. simpl in Hor. lia.
  - destruct Hat as [Hc Hk Hn Hr]. constructor; [done|done|done|]. intros Hor.
    destruct (Hr Hor) as (t & Ht & E). exists t. split; [done|]. simpl.
    match goal with H : forall key, _ -> _ |- _ => by rewrite H end.
Qed.

Lemma attempt_steps x y :
  rtc step x y -> clock y.1 <= t0 + outboundAttemptRetention ->
  attempt old t0 key x.1 x.2 -> attempt old t0 key y.1 y.2.
Proof.
  induction 1 as [x|[w cs] [w' cs'] z Hs Hr IH]; [done|]. intros Hclock Hat. apply IH; [done|].
  eapply attempt_step; [|exact Hat|exact Hs]. pose proof (steps_mono _ _ Hr). simpl in *. lia.
Qed.
End Steps.
End PoolFacts.
