(* ===== verification/OutboundTheorems.v ===== *)
(** * Matrix events sent to KakaoTalk: theorems

    One request per event, over copies, concurrent calls and restarts; nothing
    before the checks; what a failure says of the message; a fresh message is
    sent; and what an edit that shortens a long message comes to. *)

From Stdlib Require Import Ascii.
From S2P Require Import Prelude Identifiers Bytes Text Bson ChatLog ChatPackets MediaUpload Sending Outbound SendingFacts OutboundFacts OutboundPool ProtocolTheorems.
From S2P Require Events.

#[local] Open Scope string_scope.
#[local] Open Scope list_scope.
#[local] Open Scope Z_scope.

Section Theorems.
Context `{Bson} `{Json} `{MediaLib} `{!Events.EventContent}.
Context (fold : ascii -> ascii).

(** ** Reading executions off views *)

Definition opOf (e : happened) : op := match e with Ev o _ => o end.

Section Views.
Context (chat : Z) (login event : string).

Local Abbreviation next := (next chat login event).

Lemma view_flags tr v :
  v_access (foldl next v tr) = v_access v || existsb (grantedBy chat) tr /\
  v_reserved (foldl next v tr) = v_reserved v || existsb (reservedBy login event) tr /\
  v_made (foldl next v tr) = v_made v || existsb madeBy tr /\
  v_refused (foldl next v tr) = v_refused v || existsb refusedBy tr.
Proof.
  revert v. induction tr as [|e tr IH]; intros v; [by rewrite !orb_false_r|].
  destruct (IH (next v e)) as (E1 & E2 & E3 & E4). cbn [foldl existsb]. rewrite E1, E2, E3, E4.
  cbn [next SendingFacts.next v_access v_reserved v_made v_refused]. by rewrite <-!orb_assoc.
Qed.

Lemma view_created tr v :
  v_created (foldl next v tr) = (v_created v + length (List.filter (fun e => creates (opOf e)) tr))%nat.
Proof.
  revert v. induction tr as [|[o a] tr IH]; intros v; cbn [foldl List.filter opOf]; [simpl; lia|].
  rewrite IH. cbn [next SendingFacts.next v_created]. destruct (creates o); simpl; lia.
Qed.

(** Everything that is done is allowed by what was done before. *)
Lemma exec_allowed {A} v (p q : prog A) Q tr1 o a tr2 :
  wp chat login event v p Q -> exec p (tr1 ++ Ev o a :: tr2) q ->
  allowed login event (foldl next v tr1) o.
Proof.
  revert v p. induction tr1 as [|e tr1 IH]; intros v p Hp He.
  - remember ([] ++ Ev o a :: tr2) as tr eqn:E. destruct He as [p|o' k a' tr p He]; [done|].
    apply (f_equal (fmap opOf)) in E. injection E as <- _. apply Hp.
  - remember ((e :: tr1) ++ Ev o a :: tr2) as tr eqn:E. destruct He as [p|o' k a' tr p He]; [done|].
    simpl in E. injection E as <- ->. simpl. apply (IH _ (k a')); [|done]. destruct Hp as [_ Hk]. apply Hk.
Qed.

Lemma exec_created {A} v (p q : prog A) Q tr :
  wp chat login event v p Q -> exec p tr q -> (v_created v <= 1)%nat -> (v_created (foldl next v tr) <= 1)%nat.
Proof.
  intros Hp He. revert v Hp. induction He as [p|o k a tr p He IH]; intros v Hp Hv; [done|].
  destruct Hp as [(_ & Hc & _) Hk]. simpl. apply IH; [apply Hk|]. cbn [next SendingFacts.next v_created].
  destruct (creates o); [destruct (Hc eq_refl) as [-> _]; lia|lia].
Qed.

(** Without a reservation the source was not reached. *)
Lemma exec_unreached {A} v (p q : prog A) Q tr :
  wp chat login event v p Q -> exec p tr q -> v_reserved (foldl next v tr) = false ->
  existsb (fun e => reaches (opOf e)) tr = false.
Proof.
  intros Hp He. revert v Hp. induction He as [p|o k a tr p He IH]; intros v Hp Hv; [done|].
  destruct Hp as [(Hr & _ & _) Hk]. simpl in *. rewrite (IH _ (Hk a) Hv), orb_false_r.
  destruct (reaches o); [|done]. destruct (Hr eq_refl) as [_ Hres]. exfalso.
  destruct (view_flags tr (next v (Ev o a))) as (_ & E & _). rewrite E in Hv.
  cbn [SendingFacts.next v_reserved] in Hv. by rewrite Hres in Hv.
Qed.
End Views.

(** ** The theorems *)

Lemma requestsOf_requested login event w :
  (length (requestsOf login event w) <= requested (attemptKey login event) w)%nat.
Proof.
  unfold requestsOf, requested. induction (requests w) as [|r l IH]; [done|].
  rewrite !filter_cons. case_decide as E.
  - rewrite decide_True by (unfold requestKey; by rewrite E). simpl. lia.
  - case_decide; simpl; lia.
Qed.

Lemma attempt_none old t0 key w :
  0 <= clock w -> (old = false -> t0 <= clock w) -> requested key w = 0%nat ->
  (old = true -> exists t, t0 <= t < 2 ^ 64 /\ rows w !! key = Some (kvTimeStamp t)) -> attempt old t0 key w [].
Proof.
  intros Hc Hold Hr Hrow. unfold held. constructor; [apply Forall_nil_2|done| |]; unfold held; simpl.
  - lia.
  - intros [E|E]; [by apply Hrow|lia].
Qed.

(** C4: However many copies of a Matrix event are handled, concurrently, for
    several logins and over restarts, KakaoTalk is asked at most once to carry
    it out within thirty days, and not at all while the row of an earlier
    attempt is younger than that. *)
Theorem one_request_per_event login event w0 w cs :
  rtc (step fold) (w0, []) (w, cs) -> requests w0 = [] -> 0 <= clock w0 < 2 ^ 63 ->
  (clock w <= clock w0 + outboundAttemptRetention -> (length (requestsOf login event w) <= 1)%nat) /\
  (forall t, 0 <= t < 2 ^ 63 -> rows w0 !! attemptKey login event = Some (kvTimeStamp t) ->
     clock w <= t + outboundAttemptRetention -> requestsOf login event w = []).
Proof.
  intros Hs H0' Hc. pose proof (requestsOf_requested login event w) as Hle.
  assert (Hzero : requested (attemptKey login event) w0 = 0%nat) by (unfold requested; by rewrite H0').
  split.
  - intros Hclock.
    assert (Hat : attempt false (clock w0) (attemptKey login event) w cs).
    { apply (attempt_steps fold false (clock w0) _ (attemptKey_family _ _) Hc _ _ Hs Hclock).
      apply attempt_none; [simpl; lia|intros _; simpl; lia|done|done]. }
    pose proof (at_count _ _ _ _ _ Hat). simpl in *. lia.
  - intros t Ht Hrow Hclock.
    assert (Hat : attempt true t (attemptKey login event) w cs).
    { apply (attempt_steps fold true t _ (attemptKey_family _ _) Ht _ _ Hs Hclock).
      apply attempt_none; [simpl; lia|done|done|]. intros _. exists t. split; [lia|done]. }
    pose proof (at_count _ _ _ _ _ Hat). simpl in *. apply nil_length_inv. lia.
Qed.

(** C18: A handler reaches KakaoTalk with a Matrix event only after the chat was
    found open to it and the event's attempt was reserved, and requests at most
    one change.  [reaches] is every request that writes, uploads or changes
    something; the reads made to check an edit or an invitation first (GETMSGS,
    CHATINFO, MEMLIST) carry nothing of the event and come before the
    reservation. *)
Theorem checked_before_sending kc i tr q :
  exec (handler kc i) tr q ->
  (forall tr1 o a tr2, tr = tr1 ++ Ev o a :: tr2 -> reaches o = true ->
     existsb (grantedBy (chatIDOf i)) tr1 = true /\ existsb (reservedBy (kc_loginID kc) (eventOf i)) tr1 = true) /\
  (length (List.filter (fun e => creates (opOf e)) tr) <= 1)%nat.
Proof.
  intros He. pose proof (handler_outcome kc i) as Hw. split.
  - intros tr1 o a tr2 -> Ho. pose proof (exec_allowed _ _ _ _ _ _ _ _ _ _ _ Hw He) as [Ha _].
    destruct (Ha Ho) as [H1' H2']. destruct (view_flags (chatIDOf i) (kc_loginID kc) (eventOf i) tr1 start) as (E1 & E2 & _).
    rewrite E1 in H1'. rewrite E2 in H2'. done.
  - pose proof (exec_created _ _ _ _ _ _ _ _ Hw He) as Hc. rewrite view_created in Hc. apply Hc. simpl. lia.
Qed.

(** C17: When a handler reports a certain failure, no message can have come of
    the event, nothing of it having been written or streamed, or the server
    refused it; when it reports one that may be retried, the source was not
    even reached. *)
Theorem failure_says_what_happened kc i tr s :
  exec (handler kc i) tr (Ret (Some (Status_ s))) ->
  (ms_IsCertain s = true -> existsb madeBy tr = false \/ existsb refusedBy tr = true) /\
  (ms_Status s = StatusRetriable -> existsb (fun e => reaches (opOf e)) tr = false).
Proof.
  intros He. pose proof (handler_outcome kc i) as Hw.
  pose proof (wp_exec _ _ _ _ _ _ _ _ Hw He) as Ho. simpl in Ho. destruct Ho as [Hc Hr].
  destruct (view_flags (chatIDOf i) (kc_loginID kc) (eventOf i) tr start) as (_ & _ & E3 & E4).
  split.
  - intros Hs. simpl in E3, E4. destruct (Hc Hs) as [Hm|Hm]; [left|right]; congruence.
  - intros Hs. by apply (exec_unreached _ _ _ _ _ _ _ _ Hw He), Hr.
Qed.

(** ** A fresh message *)

Section Fresh.
Context (kc : Kakao) (env : forall o, ans o).

(** What the outside answers when the chat is open, the login connected and the
    event was not attempted. *)
Record open (chatID : Z) (event : string) : Prop := {
  open_access : env (CheckAccess chatID) = None;
  open_client : env CurrentClient = true;
  open_session : env EnsureSession = None;
  open_clean prefix stamp : env (DeleteOlderThan prefix stamp) = true;
  open_row stamp : env (PutIfAbsent (attemptKey (kc_loginID kc) event) stamp) = Some true;
}.

Definition changes (tr : list happened) : list op := List.filter creates (opOf <$> tr).

Lemma run_begin evt chatID :
  open chatID (EventID evt) -> EventID evt <> "" ->
  exists tr, run env (beginOutboundEvent kc (Some evt)) = (tr, Ok tt) /\ changes tr = [].
Proof.
  intros Ho He. unfold beginOutboundEvent. destruct (String.eqb_spec (EventID evt) ""); [done|].
  unfold reserveOutboundKV. cbn [run andThen perform]. rewrite (open_clean _ _ Ho).
  cbn [negb run andThen perform]. fold (attemptKey (kc_loginID kc) (EventID evt)).
  rewrite (open_row _ _ Ho). cbn [run andThen]. eexists. split; [done|]. done.
Qed.

Lemma run_SendText chatID message reply response event :
  open chatID event -> WriteRequest_Validate (textRequest chatID message) = None ->
  (forall body, env (Roundtrip "WRITE" body) = Some reply) -> Status reply = Ok 0 ->
  DecodeWriteResponse reply = Ok response ->
  exists tr body, WriteRequest_MarshalBSON (textRequest chatID message) = Ok body /\
    run env (SendText chatID message) = (tr, Ok response) /\ changes tr = [Roundtrip "WRITE" body].
Proof.
  intros Ho Hv Hr Hs Hd. unfold SendText, withSession, session_SendText. rewrite Hv.
  cbn [run andThen perform]. rewrite (open_session _ _ Ho). unfold Sending.call. unfold WriteRequest_MarshalBSON. rewrite Hv.
  set (body := Marshal _). eexists _, body. split; [done|].
  unfold request, andOk. cbn [run andThen perform chatErr]. rewrite Hr, Hs. cbn [run andThen perform Z.eqb chatErr].
  rewrite Hd. by split.
Qed.

Lemma run_sendMatrixText portal c evt chatID reply response :
  open chatID (EventID evt) -> EventID evt <> "" -> MsgType_ c = MsgText ->
  WriteRequest_Validate (textRequest chatID (Body c)) = None ->
  (forall body, env (Roundtrip "WRITE" body) = Some reply) -> Status reply = Ok 0 ->
  DecodeWriteResponse reply = Ok response -> 0 < wr_LogID response ->
  exists tr body, WriteRequest_MarshalBSON (textRequest chatID (Body c)) = Ok body /\
    run env (sendMatrixText kc chatID (mkMatrixMessage (Some portal) (Some c) (Some evt) None) portal c) =
      (tr, Ok (sentMessageOf kc chatID (wr_LogID response) (wr_SendAt response) messagetype.Text (Body c))) /\
    changes tr = [Roundtrip "WRITE" body].
Proof.
  intros Ho He Ht Hval Hr Hs Hd Hlog.
  destruct (run_begin evt chatID Ho He) as (tr1 & E1 & R1).
  destruct (run_SendText chatID (Body c) reply response _ Ho Hval Hr Hs Hd) as (tr2 & body & Hm & E2 & R2).
  exists (tr1 ++ tr2), body. split; [done|]. split; cycle 1.
  { unfold changes in *. rewrite fmap_app, List.filter_app. by rewrite R1, R2. }
  unfold sendMatrixText, beginOutbound. cbn [mm_ReplyTo mm_Event]. rewrite Ht.
  erewrite run_ok; cycle 1.
  { erewrite run_ok by exact E1. rewrite run_bind, E2. cbn [fst snd run]. reflexivity. }
  cbn [run fst snd]. destruct (Z.leb_spec (wr_LogID response) 0); [lia|]. by rewrite !app_nil_r.
Qed.

(** C19: A text the user writes in an open room of a connected login is sent
    once, to that chat and as it was written, and becomes the message of the log
    the server answers with. *)
Theorem fresh_text_is_sent portal c evt chatID reply response :
  open chatID (EventID evt) -> EventID evt <> "" -> MsgType_ c = MsgText -> RelatesToReply c = "" ->
  Outbound.chatOf portal = Ok chatID -> 0 < chatID -> Body c <> "" -> textBad (Body c) = false ->
  (forall body, env (Roundtrip "WRITE" body) = Some reply) -> Status reply = Ok 0 ->
  DecodeWriteResponse reply = Ok response -> 0 < wr_LogID response ->
  exists tr body,
    run env (HandleMatrixMessage kc (mkMatrixMessage (Some portal) (Some c) (Some evt) None)) =
      (tr, Ok (sentMessageOf kc chatID (wr_LogID response) (wr_SendAt response) messagetype.Text (Body c))) /\
    changes tr = [Roundtrip "WRITE" body] /\
    LookupErr body "chatId" = Some (VInt64 chatID) /\ LookupErr body "msg" = Some (VString (Body c)) /\
    LookupErr body "type" = Some (VInt32 messagetype.Text).
Proof.
  intros Ho He Ht Hrel Hchat Hpos Hb Hbad Hr Hs Hd Hlog.
  assert (Hval : WriteRequest_Validate (textRequest chatID (Body c)) = None).
  { unfold WriteRequest_Validate. simpl. destruct (Z.leb_spec chatID 0); [lia|].
    destruct (String.eqb_spec (Body c) ""); [done|]. by rewrite Hbad. }
  destruct (run_sendMatrixText portal c evt chatID reply response Ho He Ht Hval Hr Hs Hd Hlog)
    as (tr & body & Hm & E & R).
  exists (Ev (CheckAccess chatID) None :: Ev CurrentClient true :: tr), body. split; cycle 1.
  { split; [done|]. unfold WriteRequest_MarshalBSON in Hm. rewrite Hval in Hm. injection Hm as <-.
    by rewrite !Marshal_lookup. }
  unfold HandleMatrixMessage. cbn [mm_Portal mm_Content mm_ReplyTo mm_Event]. rewrite Ht, Hrel, Hchat.
  unfold checkSourceAccess, currentClient, andOk. cbn [supported negb run andThen perform].
  rewrite (open_access _ _ Ho). cbn [run andThen].
  change (nonempty "") with false. cbn [run andThen perform]. rewrite (open_client _ _ Ho). cbn [run andThen].
  by rewrite E.
Qed.

(** ** An edit that shortens a long message *)

(** C40: An edit that cuts a long message of the user down to the beginning that
    the bridge stored of it is taken for no change: the handler reports success
    and KakaoTalk keeps the long text. *)
Theorem edit_to_preview_is_dropped portal c evt chatID logID original id part room sender time_ :
  env (CheckAccess chatID) = None -> Outbound.chatOf portal = Ok chatID -> 0 < logID ->
  env Now - time_ <= kakaoEditWindow -> Body c = truncateReplyPreview original ->
  let target := mkDbMessage id part room sender time_
    (MetaPointer (Some (newKakaoMessageMetadata chatID logID (kc_userID kc) messagetype.Text original 0))) in
  run env (HandleMatrixEdit kc (mkMatrixEdit (Some portal) (Some c) evt (Some target))) =
    ([Ev (CheckAccess chatID) None; Ev Now (env Now)], Ok target) /\
  ((maxReplyPreviewUTF16 < length (utf16_Encode (runes original)))%nat -> Body c <> original).
Proof.
  intros Ha Hchat Hlog Hw Hb target. split; cycle 1.
  { intros Hlong E. destruct (preview_is_beginning original) as (k & _ & Hle & _). rewrite <-Hb, E in Hle. lia. }
  unfold HandleMatrixEdit, checkSourceAccess, andOk. cbn [me_Portal me_Content me_EditTarget]. rewrite Hchat.
  cbn [run andThen perform]. rewrite Ha. cbn [run andThen].
  unfold editRefused. subst target. cbn [db_Metadata pointerMeta km_ChatID km_LogID km_AuthorID km_Type newKakaoMessageMetadata].
  rewrite !Z.eqb_refl. destruct (Z.leb_spec logID 0); [lia|]. cbn [negb orb andb].
  change (deletedForAll messagetype.Text) with false. cbn [run andThen perform db_Timestamp].
  destruct (Z.ltb_spec kakaoEditWindow (env Now - time_)); [lia|]. unfold km_Preview. rewrite Hb, String.eqb_refl. done.
Qed.
End Fresh.
End Theorems.

(** ** Witnesses *)

Section Pool.
Context `{Bson} `{Json} `{MediaLib} `{!Events.EventContent}.
Context (fold : ascii -> ascii).

(** Operations of one call, one after the other. *)
Fixpoint performed (w : World) (login event : string) (tr : list happened) (w' : World) : Prop :=
  match tr with
  | [] => w' = w
  | Ev o a :: tr => exists w1, performs fold w login event o a w1 /\ performed w1 login event tr w'
  end.

Lemma steps_of_call {w w' cs1 cs2 chat login event done_ p tr q} :
  exec p tr q -> performed w login event tr w' ->
  rtc (step fold) (w, cs1 ++ mkCall chat login event done_ p :: cs2)
    (w', cs1 ++ mkCall chat login event (done_ ++ tr) q :: cs2).
Proof.
  intros He. revert w done_. induction He as [p|o k a tr q _ IH]; intros w done_; simpl.
  { intros ->. rewrite app_nil_r. apply rtc_refl. }
  intros (w1 & Hp & Ht). eapply rtc_l; [by apply step_op|].
  replace (done_ ++ Ev o a :: tr) with ((done_ ++ [Ev o a]) ++ tr) by (by rewrite <-app_assoc). by apply IH.
Qed.
End Pool.

#[local] Definition doc (l : list (string * Value tree)) : @Raw treeBson := Tree l.

(** What the outside answers: [first] says whether no row of the attempt was
    there, and messages get the position 40. *)
#[local] Definition outside (first : bool) (o : @op treeBson) : ans o :=
  match o with
  | CheckAccess _ => None
  | CurrentClient | GetIntent => true
  | Download _ => Some [137; 1]
  | Now => 1700000000000000000
  | DeleteOlderThan _ _ => true
  | PutIfAbsent _ _ => Some first
  | MessageParts _ => None
  | UpdateMessage _ | RevokeMembership _ => true
  | VerifiedRoster _ => []
  | Snapshot _ => None
  | RefreshMembership _ _ => tt
  | ChatInfo _ => Err (errorOf ErrTransport)
  | MemberList _ => Err (errorOf ErrTransport)
  | EnsureSession => None
  | Roundtrip command _ =>
      if (command =? "WRITE")%string
      then Some (doc [("status", VInt32 0); ("chatId", VInt64 7); ("logId", VInt64 40); ("sendAt", VInt32 1700000000)])
      else None
  | DialMedia _ _ => true
  | MediaRequest _ _ => Some (doc [("status", VInt32 (-3))], [])
  | Encrypt frame => Some frame
  | WriteFrame _ frame => (size frame, true)
  | ReadPacket _ => Some (mkPacket "COMPLETE" (doc []))
  | WebPrepare _ _ _ _ => Err (errorOf ErrTransport)
  | WebChunk _ stop => Ok (mkChunkAck (Some stop) "ok" None)
  | WebReady prev _ => Ok (mkDirectReady prev 50 0 "")
  | Sleep _ => true
  end.

#[local] Definition me : Kakao := mkKakao 9 "9" "26.1.0".
#[local] Definition room : matrixPortal := mkMatrixPortal (makePortalKey 7 "9") true false.
#[local] Definition typed : content := mkContent MsgText "hello" "" "" None "".
#[local] Definition event : matrixEvent := mkMatrixEvent "$event" None.
#[local] Definition hello : MatrixMessage := mkMatrixMessage (Some room) (Some typed) (Some event) None.
#[local] Definition sending (first : bool) := run (outside first) (handler (H2 := demoContent) me (Message hello)).
#[local] Definition now0 : World (H := treeBson) := mkWorld ∅ 1700000000000000000 [].
#[local] Definition written : op (H := treeBson) :=
  Roundtrip "WRITE" (doc [("chatId", VInt64 7); ("msg", VString "hello"); ("type", VInt32 1); ("noSeen", VBoolean false)]).

(** The answers are those of a store and a clock. *)
Ltac performs_step :=
  eexists; split; [cbn [performs]; first [left; reflexivity | left; split; [reflexivity|left; vm_compute; reflexivity] | split; reflexivity | reflexivity]|].

Lemma one_request_per_event_witness :
  exists w cs, rtc (step (fun c => c) (H2 := demoContent)) (now0, []) (w, cs) /\
    length cs = 2%nat /\ requestsOf "9" "$event" w = [("9", "$event", written)] /\
    (length (requestsOf "9" "$event" w) <= 1)%nat.
Proof.
  set (c1 := callOf (H2 := demoContent) me (Message hello)).
  set (rows1 := <[attemptKey "9" "$event" := kvTimeStamp 1700000000000000000]> ∅ : gmap string string).
  set (w1 := mkWorld rows1 1700000000000000000 [("9", "$event", written)]).
  assert (Hs : rtc (step (fun c => c) (H2 := demoContent)) (now0, [])
    (w1, [mkCall 7 "9" "$event" (sending true).1 (Ret (sending true).2);
          mkCall 7 "9" "$event" (sending false).1 (Ret (sending false).2)])).
  { eapply rtc_l; [exact (step_call _ now0 [] me (Message hello))|].
    etrans.
    { refine (steps_of_call _ (cs1 := []) (cs2 := []) (tr := (sending true).1) (w' := w1) _ _).
      - apply (run_exec (outside true)). apply surjective_pairing.
      - cbv [sending]. vm_compute ((run _ _).1).
        do 7 performs_step. vm_compute. reflexivity. }
    eapply rtc_l; [exact (step_call _ w1 _ me (Message hello))|].
    refine (steps_of_call _ (cs1 := [_]) (cs2 := []) (tr := (sending false).1) _ _).
    - apply (run_exec (outside false)). apply surjective_pairing.
    - cbv [sending]. vm_compute ((run _ _).1). do 5 performs_step. vm_compute. reflexivity. }
  exists w1. eexists. split; [exact Hs|]. split; [done|]. split; [reflexivity|].
  apply (proj1 (one_request_per_event (H2 := demoContent) (fun c => c) "9" "$event" now0 w1 _ Hs eq_refl ltac:(done))). done.
Defined.

Lemma checked_before_sending_witness :
  let tr := (sending true).1 in
  (exists tr1, tr = tr1 ++ [Ev written (Some (doc [("status", VInt32 0); ("chatId", VInt64 7); ("logId", VInt64 40);
                                                     ("sendAt", VInt32 1700000000)]))] /\
    existsb (grantedBy 7) tr1 = true /\ existsb (reservedBy "9" "$event") tr1 = true) /\
  (length (List.filter (fun e => creates (opOf e)) tr) <= 1)%nat.
Proof.
  destruct (checked_before_sending (H2 := demoContent) me (Message hello) (sending true).1 (Ret (sending true).2)) as [Hb Hc].
  { apply (run_exec (outside true)). apply surjective_pairing. }
  split; [|done]. exists (take 6 (sending true).1). split; [reflexivity|].
  by apply (Hb _ written (Some (doc [("status", VInt32 0); ("chatId", VInt64 7); ("logId", VInt64 40);
                                                     ("sendAt", VInt32 1700000000)])) []).
Defined.

(** A photo whose upload the server refuses. *)
#[local] Definition picture : MatrixMessage :=
  mkMatrixMessage (Some room) (Some (mkContent MsgImage "a.png" "" "mxc" None "")) (Some event) None.
#[local] Definition shipped (o : op (H := treeBson)) : ans o :=
  match o with
  | Roundtrip _ _ => Some (doc [("status", VInt32 0); ("k", VString "key"); ("vh", VString "media"); ("p", VInt32 9000)])
  | o => outside true o
  end.

#[local] Definition sendingPicture := run shipped (handler (H2 := demoContent) me (Message picture)).
#[local] Definition refusedPost : MessageStatus :=
  noticeStatus (wrap ErrUploadNotSent (statusError "POST" (-3))) StatusFail NetworkError true.

Lemma failure_says_what_happened_witness :
  exec (handler (H2 := demoContent) me (Message picture)) sendingPicture.1 (Ret (Some (Status_ refusedPost))) /\
  (existsb madeBy sendingPicture.1 = false \/ existsb refusedBy sendingPicture.1 = true).
Proof.
  assert (He : exec (handler (H2 := demoContent) me (Message picture)) sendingPicture.1 (Ret (Some (Status_ refusedPost)))).
  { apply (run_exec shipped). rewrite (surjective_pairing (run _ _)). reflexivity. }
  split; [exact He|].
  by apply (failure_says_what_happened (H2 := demoContent) me (Message picture) sendingPicture.1 refusedPost).
Defined.

Lemma fresh_text_is_sent_witness :
  exists tr body,
    run (outside true) (HandleMatrixMessage me hello) =
      (tr, Ok (sentMessageOf me 7 40 1700000000 messagetype.Text "hello")) /\
    changes tr = [Roundtrip "WRITE" body] /\ LookupErr body "msg" = Some (VString "hello").
Proof.
  destruct (fresh_text_is_sent me (outside true) room typed event 7
    (doc [("status", VInt32 0); ("chatId", VInt64 7); ("logId", VInt64 40); ("sendAt", VInt32 1700000000)])
    (mkWriteResponse 0 7 40 0 1700000000 None)) as (tr & body & E & R & _ & Hm & _); try done.
  by exists tr, body.
Defined.

Lemma edit_to_preview_is_dropped_witness :
  let original := String.concat "" (replicate 101 "a") in
  let cut := mkContent MsgText (truncateReplyPreview original) "" "" None "" in
  let target := mkDbMessage "7:40" "" (makePortalKey 7 "9") "9" 1699999990000000000
    (MetaPointer (Some (newKakaoMessageMetadata 7 40 9 messagetype.Text original 0))) in
  run (outside true) (HandleMatrixEdit me (mkMatrixEdit (Some room) (Some cut) (Some event) (Some target))) =
    ([Ev (CheckAccess 7) None; Ev Now 1700000000000000000], Ok target) /\ Body cut <> original.
Proof.
  intros original cut target.
  destruct (edit_to_preview_is_dropped me (outside true) room cut (Some event) 7 40 original "7:40" "" (makePortalKey 7 "9") "9"
    1699999990000000000) as [E Hne]; [done..|]. split; [exact E|]. apply Hne, Nat.ltb_lt. vm_compute. reflexivity.
Defined.
